(* ===== verification/_CoqProject ===== *)
-Q . S2P
Prelude.v
Support.v
Skiplist.v
CcanList.v
SkiplistMem.v
IovaAlloc.v
VfioIova.v
Dma.v
VfioDma.v
VfioThreads.v
CStr.v
Log.v
CFloat.v
Io.v
Trace.v
CcanTime.v
CpuFreq.v
Ticks.v
Pci.v
OptHelpers.v
OptFloat.v
Opt.v
OptSpec.v
OptUsage.v
VfnTool.v
Client.v
Tap.v
Iommufd.v
VfioContainer.v
VfioReady.v
VfioPci.v
NvmeTypes.v
Prp.v
NvmeQueue.v
NvmeRq.v
OwnTests.v
QueuePair.v
Perf.v
DataPath.v
Crc64.v
NvmeCtrl.v
NvmeCore.v
NvmeVirt.v
NvmeFormats.v
NvmeMem.v
SoftCtrl.v
QueueReady.v
PerfMain.v
DeviceTests.v
IoExample.v
QueuePath.v
NvmePci.v
