(* ===== verification/Prelude.v ===== *)
(** * libvfn: a verification development

    libvfn is a C library for writing NVMe drivers in user space on top of
    Linux vfio and iommufd.  This development translates its implementation
    into executable Rocq definitions and proves what makes the parts correct.
    Names of definitions are the names of the C functions and structures.

    ** The program and its parts

    From the bottom up, with the file that models each part:

    - [Support]: include/vfn/support/{align,endian,mem}.h, src/support/mem.c.
      Rounding, byte order (for either host order), allocation helpers and their
      overflow checks, page mapping.
    - [Skiplist]: src/util/skiplist.{h,c}.  Levels are sequences of node names
      that all start with the sentinel; the payload is in the client's store.
    - [CcanList]: ccan/list, with its pointers: a memory of nodes, every
      operation and macro as loads and stores.
    - [SkiplistMem]: the functions of the skip list again, over the pointers of
      [CcanList], proved to do what those of [Skiplist] do on sequences.
    - [IovaAlloc], [VfioIova]: the I/O address allocator of src/iommu/vfio.c:
      the linear allocator, the free list (a skip list of ranges whose keys are
      mutated in place), aligned reservations, the ephemeral window.
    - [Dma]: src/iommu/{dma,dmabuf,context}.c and context.h: the table of
      mappings of a context, translation both ways, same-address allocations,
      DMA buffers.  A backend is a record of operations ([iommu_ctx_ops]) whose
      contract is the class [BackendLaws].
    - [VfioDma] and [Iommufd]: the two backends, src/iommu/vfio.c and
      src/iommu/iommufd.c; each discharges [BackendLaws] over the kernel's
      ioctls (classes [VfioKernel], [IommufdKernel]).  [Iommufd] also has the
      device list and the lifetime of address spaces.
    - [VfioThreads]: threads that map and unmap in one vfio context; a step is a
      critical section of one of its locks.
    - [CStr], [CFloat]: strings of C, and numbers as text: what the sources use
      of strtol, strtod, sscanf and printf.
    - [Log]: src/support/log.c and log.h: the verbosity.
    - [Io]: src/support/io.c, over system calls (class [Files]).
    - [Pci]: src/pci/util.c, over a file system (class [SysFs]).
    - [OptHelpers], [OptFloat], [Opt], [OptSpec], [OptUsage]: the option parser
      ccan/opt: values, registration and parsing, the parser as its
      documentation describes it, the usage message.
    - [VfnTool]: tools/vfntool/vfntool.c, over [Opt] and [Pci].
    - [Client]: the options of the other programs.
    - [Tap]: the test harness ccan/tap.
    - [VfioContainer]: containers, groups and reference counts of
      src/iommu/vfio.c (class [VfioGroups]).
    - [VfioReady]: a container just opened as the start of [VfioDma].
    - [VfioPci]: the choice of the backend (src/iommu/context.c), interrupts and
      reset (src/vfio/device.c), opening and closing a PCI device
      (src/vfio/pci.c; class [VfioDeviceKernel]).  Its state [iommu_host] holds
      both backends and the kernel.
    - [Trace]: src/trace.c: activation of events, the rate limiter.
    - [CcanTime]: ccan/time: conversions, comparison, sums, scaling (with doubles).
    - [CpuFreq], [Ticks]: src/support/{timer,ticks}.c and arch/x86_64/rdtsc.c
      (class [Clock]).
    - [NvmeTypes], [NvmeFormats]: include/vfn/nvme/types.h and src/nvme/types.h:
      registers, commands and identify structures, with their layouts.
    - [Prp]: PRP lists and scatter/gather descriptors, src/nvme/util.c.
    - [NvmeQueue]: include/vfn/nvme/queue.h, src/nvme/queue.c: rings, doorbells,
      shadow doorbells.
    - [NvmeRq]: include/vfn/nvme/rq.h, src/nvme/rq.c: request trackers, with the
      atomic accesses of the lock-free stack as steps.
    - [QueuePair]: the rings and the trackers of a pair of queues, with a driver
      and a controller at work on them.
    - [DataPath]: the data pointers of [Prp] and the tables of [VfioDma] and
      [Iommufd] together: a controller that follows the pointers through the
      IOMMU to the memory of the process.
    - [Crc64]: nvme_crc64 and lib/gentable-crc64.c.
    - [NvmeCtrl], [NvmeCore], [NvmeVirt]: include/vfn/nvme/ctrl.h, the
      synchronous commands of src/nvme/util.c, all of src/nvme/core.c, and
      virtualization management, against a device (class [NvmeDevice]) and its
      host (class [NvmeHost]).
    - [NvmeMem]: the memory of queues across [NvmeCore] and [Dma].
    - [QueueReady]: a pair created by [NvmeCore] as the start of [QueuePair].
    - [QueuePath]: [NvmeMem] over the backends and their tables in the kernel.
    - [NvmePci]: [NvmeHost] discharged by the functions of [VfioPci], so that a
      controller is followed down to the containers and address spaces.
    - [Perf], [PerfMain]: examples/perf.c, the benchmark: its run on a
      [QueuePair], and its options, checks and preparation.
    - [IoExample]: examples/io.c.
    - [OwnTests], [DeviceTests]: the unit tests src/*/*_test.c, and the tests in
      tests/device/, run on [SoftCtrl], a controller in software that is an
      instance of [NvmeDevice] and [NvmeHost].

    Stateful code is in the monad [M] of this file: a function takes the state
    and gives an outcome (a value, an error with its [errno], or [Crash]) and
    the state, which keeps the writes made before a failure.  Where a function
    uses two structures, its state is the pair or record of both and the parts
    are reached with lifting functions ([on_ctx], [on_dev], [on_vfio], ...).

    ** What the theorems show

    - Translation and coherence: [vfio_context_coherent],
      [iommufd_context_coherent] (the table in the process and the table in the
      kernel agree through every sequence of operations),
      [iommu_map_vaddr_correct], [iommu_unmap_vaddr_correct],
      [translate_roundtrip], [dmabuf_lifecycle], [alloc_same_iova_identity];
      with threads in any interleaving, [vfio_threads_coherent].
    - The data path: the data pointers of a command lead a controller, through
      the table in the kernel, to exactly the bytes of the buffer
      ([controller_reaches_buffer], [controller_reaches_segments]), and the
      queues it was given to their memory, and it reaches nothing else
      ([controller_reaches_queues]).
    - Addresses: [live_reservations_disjoint],
      [reserve_fails_only_without_room] (in both directions),
      [reserve_align_sound],
      [ephemeral_window_recycled], [put_free_coalesces], [get_free_best_fit].
    - Lists and skip list: the pointer operations implement sequences
      ([list_implements_sequence], [list_check_exact]); searching, inserting and
      removing in the skip list on memory, level by level ([skiplist_memory_search],
      [skiplist_memory_insert], [skiplist_memory_remove],
      [skiplist_memory_clear]).
    - Lifetimes: [opened_container_ready], [container_lifecycle],
      [ioas_lifetime], [pci_open_close],
      [ctrl_init_balanced] (an initialised controller, closed, leaves nothing).
    - Data pointers: what a controller reads from the entries the driver wrote
      is the buffer ([map_prp_describes_buffer], [mapv_describes_segments],
      [mapv_sgl_describes_segments]).
    - Queues: first in first out in both directions, for any interleaving of the
      driver and the controller ([completion_queue_fifo],
      [submission_queue_fifo]), no doorbell lost with shadow doorbells
      ([dbbuf_no_lost_doorbell]), trackers unique
      ([rq_identifiers_unique], [atomic_stack_single_acquirer]); the two rings and
      the trackers together in every interleaving ([queue_pair_exact],
      [queue_pair_drains]), from the pair as it is created ([ioqpair_ready]).
    - Commands and bring-up: [sync_leaves_no_trace], [sync_wait_ends],
      [configure_sq_ready], [configure_cq_ready], [queue_memory_ledger] (through
      any operations on queues, failing and refused ones too, the context maps
      exactly the memory of the queues and the buffers that configuring a queue
      again has forgotten),
      [tracker_pages_mapped], [enable_configures],
      [wait_rdy_ends].
    - Files, sysfs, checksums, layouts: [writeallfd_complete],
      [readmaxfd_complete], [vf_numbering_roundtrip], [map_bar_within],
      [crc64_bit_serial], [crc64_detects_byte_change], [cmd_overlay].
    - Command lines: [opt_parse_correct] (the parser against its description),
      [usage_complete], [suffix_setters_exact], [shown_values_read_back],
      [doubleval_shown]; [vfntool_main] (the stores to the attributes of the
      driver core, and the driver the device ends with).
    - Tracing, logging and time: [trace_env_last_wins],
      [ratelimit_spaced_and_counted], [init_log_level_from_env],
      [usleep_sleeps], [cpu_freq_of_this_cpu].
    - Programs: the benchmark ends with every command completed and every tracker
      free ([perf_run_ends]); the verdict of a test program ([tap_verdict]); the
      tests of the repository pass on the models ([rq_test_passes],
      [skiplist_test_passes], [device_tests_pass]), from the command line to the
      report and with nothing left mapped; the registers' fields lie apart and the
      layouts have their sizes ([registers_read_back], [identify_layouts]).
    - Each file ends with its departures: lemmas that show on a concrete input
      where the code does not do what its comments promise.

    ** Bounds and fuel

    A loop whose recursion is not structural takes fuel, and running out is
    [Crash]; the theorems prove that a stated amount is enough.  The
    same-address allocator needs one step more than there are attempts;
    [nvme_wait_rdy] one more than the readings until its deadline; polling
    loops run over an environment (the writes of the controller between polls)
    and wait for as long as it lasts; reads and writes need more than the
    interruptions and the bytes together; the list of iommufd devices its
    length; the chain of capabilities its length; printing a number one step
    per digit; following a list on memory one step per node of the memory; the
    loops over the names and the arguments of options their characters; the loop
    over /proc/cpuinfo the characters of the file; one poll of the benchmark for
    completions the size of the ring, and its run as many polls as the controller
    and the clock take, which is proved to be finitely many.

    ** Assumptions

    The kernel, the device, the C library's random numbers and memory mappings
    are parameters; what is assumed of them are the fields of the classes named
    above, each of which has an instance.  The theorems on the mapping layer of vfio
    ask that the ranges of the container end below the last byte of the address space
    (the allocator alone is proved correct for ranges that reach it).  A queue whose
    configuration failed is not discarded.  [asprintf] and the allocation functions do not fail ([xmalloc]
    ends the process when they do).  The IOMMU group of a device does not
    change.  Entry points that hold a lock are single steps.  The registers of
    a controller are used by a little-endian host.  The 64-bit
    tick counter of the benchmark does not wrap around during its run.

    ** Not modelled

    - Backtraces, the names of I/O address ranges in messages, the text of trace
      and log messages.
    - The instruction that reads the counter; the scope guards of locks, the
      barriers and the macros of the compiler.
    - The rest of ccan/ (vendored: err, str, macros), scripts/, docs/ and the
      build files.
    - The other examples and tests/device/aer.c: they print or read structures of
      libnvme, which is not part of the repository.
    - Generated sources (trace events, the CRC table as a file).

    ** Limits

    The context of a controller is the state of [Dma], beside the host of
    [NvmePci] and not inside its containers; the ledger of [NvmeMem] has commands
    without data; threads share vfio contexts only, not those of iommufd. *)

From Stdlib Require Export ZArith Lia.
From stdpp Require Export base tactics decidable option gmap numbers sorting.
From stdpp Require Export list.

Declare Scope vfn_scope.
Delimit Scope vfn_scope with vfn.

Local Open Scope Z_scope.

(** ** Machine integers

    An integer of the C code is a [Z]; where the code relies on the width, the
    conversion is written out with one of these functions. *)
Definition u8 (x : Z) : Z := x mod 0x100.
Definition u16 (x : Z) : Z := x mod 0x10000.
Definition u32 (x : Z) : Z := x mod 0x100000000.
Definition u64 (x : Z) : Z := x mod 0x10000000000000000.

(** Conversion to [int] (two's complement, 32 bits). *)
Definition s32 (x : Z) : Z := (x + 0x80000000) mod 0x100000000 - 0x80000000.

Definition UINT64_MAX : Z := 0xffffffffffffffff.
Definition SIZE_MAX : Z := UINT64_MAX.

(** The C conversion of a truth value. *)
Definition c_bool (b : bool) : Z := if b then 1 else 0.

(** ** Errors and effects

    [errno] values the code sets itself, and [Eother] for whatever a system
    call reports. *)
Inductive errno : Type :=
| EINVAL | EEXIST | ENOENT | ENODEV | EBUSY | ENOMEM | EFAULT | EIO | ETIMEDOUT
| EAGAIN | EALREADY | EMFILE | EOPNOTSUPP | ENOTSUP | EMSGSIZE | EINTR
| Eother (n : Z).

#[export] Instance errno_eq_dec : EqDecision errno.
Proof. solve_decision. Defined.

(** Outcome of a C function: it returns a value, it returns the error value
    after setting [errno], or it does not return: the process ends ([exit]
    through [log_fatal], [abort], a failed [assert]), the behaviour is undefined
    (a dereference of a null pointer, an access out of bounds), or a wait exceeds
    the bound the model gives it. *)
Inductive outcome (A : Type) : Type :=
| Ret (a : A)
| Fail (e : errno)
| Crash.
Arguments Ret {A} a.
Arguments Fail {A} e.
Arguments Crash {A}.

(** Stateful code: the state is threaded through errors too, because a C
    function that fails keeps the writes it made. *)
Definition M (S A : Type) : Type := S -> outcome A * S.

Section Monad.
Context {S : Type}.

Definition ret {A} (a : A) : M S A := fun s => (Ret a, s).
Definition fail {A} (e : errno) : M S A := fun s => (Fail e, s).
Definition crash {A} : M S A := fun s => (Crash, s).

Definition bind {A B} (m : M S A) (k : A -> M S B) : M S B := fun s =>
  match m s with
  | (Ret a, s') => k a s'
  | (Fail e, s') => (Fail e, s')
  | (Crash, s') => (Crash, s')
  end.

(** Run [m] and hand its error to the caller as a value ([errno] tests and
    [goto] cleanups); the end of the process is not caught. *)
Definition try {A} (m : M S A) : M S (errno + A) := fun s =>
  match m s with
  | (Ret a, s') => (Ret (inr a), s')
  | (Fail e, s') => (Ret (inl e), s')
  | (Crash, s') => (Crash, s')
  end.

(** [log_fatal_if (m, ...)]: an error ends the process. *)
Definition fatal_if {A} (m : M S A) : M S A := fun s =>
  match m s with
  | (Fail _, s') => (Crash, s')
  | r => r
  end.

Definition get : M S S := fun s => (Ret s, s).
Definition gets {A} (f : S -> A) : M S A := fun s => (Ret (f s), s).
Definition put (s : S) : M S unit := fun _ => (Ret tt, s).
Definition modify (f : S -> S) : M S unit := fun s => (Ret tt, f s).
Definition when (b : bool) (m : M S unit) : M S unit := if b then m else ret tt.
End Monad.

Notation "'let*' x ':=' m 'in' k" := (bind m (fun x => k))
  (at level 10, x pattern, k at level 200,
   format "'[v' 'let*'  x  ':='  m  'in' '/' k ']'") : vfn_scope.
Notation "'do*' m 'in' k" := (bind m (fun _ => k))
  (at level 10, k at level 200,
   format "'[v' 'do*'  m  'in' '/' k ']'") : vfn_scope.

Lemma bind_ret {S A B} (m : M S A) (k : A -> M S B) s a s' :
  m s = (Ret a, s') -> bind m k s = k a s'.
Proof. intros H. unfold bind. by rewrite H. Qed.

Lemma bind_fail {S A B} (m : M S A) (k : A -> M S B) s e s' :
  m s = (Fail e, s') -> bind m k s = (Fail e, s').
Proof. intros H. unfold bind. by rewrite H. Qed.

Lemma bind_crash {S A B} (m : M S A) (k : A -> M S B) s s' :
  m s = (Crash, s') -> bind m k s = (Crash, s').
Proof. intros H. unfold bind. by rewrite H. Qed.

Lemma bind_assoc {S A1 A2 A3} (m : M S A1) (k : A1 -> M S A2) (k' : A2 -> M S A3) s :
  bind m (fun a => bind (k a) k') s = bind (bind m k) k' s.
Proof. unfold bind. destruct (m s) as [[] ?]; done. Qed.

Lemma bind_ext {S A1 A2} (m m' : M S A1) (k : A1 -> M S A2) s : m s = m' s -> bind m k s = bind m' k s.
Proof. unfold bind. by intros ->. Qed.

(** Running through the computation of a successful call. *)
Lemma bind_Ret {S A C} (m : M S A) (k : A -> M S C) st x st' :
  bind m k st = (Ret x, st') -> exists a st1, m st = (Ret a, st1) /\ k a st1 = (Ret x, st').
Proof. unfold bind. destruct (m st) as [[a|e|] st1]; try done. eauto. Qed.

(** ** Invariants of stateful code

    [preserves P m]: whatever its outcome, [m] leads from states that satisfy [P]
    to states that satisfy [P].  The database [preserves] proves it of code
    built from operations that do. *)

Create HintDb preserves.

Section Preserves.
Context {S : Type} (P : S -> Prop).

Definition preserves {A} (m : M S A) : Prop := forall s, P s -> P (snd (m s)).

Lemma preserves_ret {A} (a : A) : preserves (ret a).
Proof. by intros s. Qed.
Lemma preserves_fail {A} e : preserves (@fail S A e).
Proof. by intros s. Qed.
Lemma preserves_crash {A} : preserves (@crash S A).
Proof. by intros s. Qed.
Lemma preserves_get : preserves (@get S).
Proof. by intros s. Qed.
Lemma preserves_gets {A} (f : S -> A) : preserves (gets f).
Proof. by intros s. Qed.
Lemma preserves_bind {A B} (m : M S A) (k : A -> M S B) :
  preserves m -> (forall a, preserves (k a)) -> preserves (bind m k).
Proof.
  intros Hm Hk s Hs. specialize (Hm s Hs). unfold bind. destruct (m s) as [[a|e|] s']; [by apply Hk|done..].
Qed.
Lemma preserves_try {A} (m : M S A) : preserves m -> preserves (try m).
Proof. intros Hm s Hs. specialize (Hm s Hs). unfold try. by destruct (m s) as [[] s']. Qed.
Lemma preserves_fatal_if {A} (m : M S A) : preserves m -> preserves (fatal_if m).
Proof. intros Hm s Hs. specialize (Hm s Hs). unfold fatal_if. by destruct (m s) as [[] s']. Qed.
Lemma preserves_modify f : (forall s, P s -> P (f s)) -> preserves (modify f).
Proof. intros Hf s Hs. by apply Hf. Qed.
Lemma preserves_when b m : preserves m -> preserves (when b m).
Proof. intros Hm. destruct b; [done|]. by intros s. Qed.

(** The first step of a successful call, and what it preserved. *)
Lemma preserves_Ret {A B} (m : M S A) (k : A -> M S B) s x s' :
  preserves m -> P s -> bind m k s = (Ret x, s') -> exists a s1, P s1 /\ k a s1 = (Ret x, s').
Proof. intros Hm Hs (a & s1 & E & Hk)%bind_Ret. exists a, s1. split; [|done]. specialize (Hm s Hs). by rewrite E in Hm. Qed.
End Preserves.

#[export] Hint Resolve preserves_ret preserves_fail preserves_crash preserves_get preserves_gets preserves_bind preserves_try
  preserves_fatal_if preserves_modify preserves_when : preserves.

(** ** Tactics *)

Create HintDb vfn.
Create HintDb vfn_word.
Create Rewrite HintDb vfn_word.

(** Case analysis on the boolean comparisons of the translated conditions. *)
Ltac zcase :=
  match goal with
  | |- context [Z.ltb ?a ?b] => destruct (Z.ltb_spec a b)
  | |- context [Z.leb ?a ?b] => destruct (Z.leb_spec a b)
  | |- context [Z.eqb ?a ?b] => destruct (Z.eqb_spec a b)
  | |- context [Nat.ltb ?a ?b] => destruct (Nat.ltb_spec a b)
  | |- context [Nat.leb ?a ?b] => destruct (Nat.leb_spec a b)
  | |- context [Nat.eqb ?a ?b] => destruct (Nat.eqb_spec a b)
  | H : context [Z.ltb ?a ?b] |- _ => destruct (Z.ltb_spec a b)
  | H : context [Z.leb ?a ?b] |- _ => destruct (Z.leb_spec a b)
  | H : context [Z.eqb ?a ?b] |- _ => destruct (Z.eqb_spec a b)
  | H : context [Nat.ltb ?a ?b] |- _ => destruct (Nat.ltb_spec a b)
  | H : context [Nat.leb ?a ?b] |- _ => destruct (Nat.leb_spec a b)
  | H : context [Nat.eqb ?a ?b] |- _ => destruct (Nat.eqb_spec a b)
  end.
Ltac zcases := repeat (zcase; try lia); simpl in *.

(** Permutations of concatenations. *)
Ltac perm := (rewrite ?(assoc_L (++)); solve_Permutation).

(** Arithmetic on values of a fixed width. *)
Ltac word_lia :=
  unfold u8, u16, u32, u64, s32, UINT64_MAX, SIZE_MAX in *;
  Z.to_euclidean_division_equations; lia.

(** ** Lemmas on fixed widths *)

Lemma u64_small x : 0 <= x < 0x10000000000000000 -> u64 x = x.
Proof. intros. unfold u64. by rewrite Z.mod_small. Qed.
Lemma u32_small x : 0 <= x < 0x100000000 -> u32 x = x.
Proof. intros. unfold u32. by rewrite Z.mod_small. Qed.
Lemma u16_small x : 0 <= x < 0x10000 -> u16 x = x.
Proof. intros. unfold u16. by rewrite Z.mod_small. Qed.
Lemma u8_small x : 0 <= x < 0x100 -> u8 x = x.
Proof. intros. unfold u8. by rewrite Z.mod_small. Qed.
Lemma s32_small x : - 0x80000000 <= x < 0x80000000 -> s32 x = x.
Proof. intros. unfold s32. rewrite Z.mod_small; lia. Qed.

Lemma u64_range x : 0 <= u64 x < 0x10000000000000000.
Proof. word_lia. Qed.
Lemma u32_range x : 0 <= u32 x < 0x100000000.
Proof. word_lia. Qed.
Lemma u16_range x : 0 <= u16 x < 0x10000.
Proof. word_lia. Qed.
Lemma u8_range x : 0 <= u8 x < 0x100.
Proof. word_lia. Qed.

#[export] Hint Resolve u64_range u32_range u16_range u8_range : vfn_word.
#[export] Hint Rewrite u64_small u32_small u16_small u8_small s32_small using lia : vfn_word.

(** ** Shifts, masks and concatenation of bit fields *)

Lemma land_shiftl_low a b n : 0 <= n -> 0 <= b < 2 ^ n -> Z.land (Z.shiftl a n) b = 0.
Proof.
  intros Hn Hb. rewrite <- (Z.mod_small b (2 ^ n)), <- Z.land_ones by lia.
  apply Z.bits_inj'. intros i Hi. rewrite !Z.land_spec, Z.shiftl_spec, Z.bits_0 by done.
  destruct (decide (i < n)).
  - rewrite Z.testbit_neg_r; [done|lia].
  - rewrite Z.ones_spec_high by lia. by rewrite !andb_false_r.
Qed.

Lemma lor_shiftl_add a b n :
  0 <= n -> 0 <= b < 2 ^ n -> Z.lor (Z.shiftl a n) b = a * 2 ^ n + b.
Proof.
  intros Hn Hb. pose proof (land_shiftl_low a b n Hn Hb) as H0.
  rewrite <- Z.lxor_lor, <- Z.add_nocarry_lxor by done. by rewrite Z.shiftl_mul_pow2.
Qed.

Lemma land_mask x n : 0 <= n -> Z.land x (Z.ones n) = x mod 2 ^ n.
Proof. apply Z.land_ones. Qed.

Lemma land_range x y n : 0 <= n -> 0 <= x < 2 ^ n -> 0 <= Z.land x y < 2 ^ n.
Proof.
  intros Hn Hx. assert (Z.land x y = Z.land x y mod 2 ^ n) as ->; [|apply Z.mod_pos_bound; lia].
  rewrite <- Z.land_ones, <- Z.land_assoc, (Z.land_comm y), Z.land_assoc by done.
  rewrite Z.land_ones, (Z.mod_small x) by done. done.
Qed.

Lemma lxor_range x y n : 0 <= n -> 0 <= x < 2 ^ n -> 0 <= y < 2 ^ n -> 0 <= Z.lxor x y < 2 ^ n.
Proof.
  intros Hn Hx Hy. assert (Z.lxor x y = Z.lxor x y mod 2 ^ n) as ->; [|apply Z.mod_pos_bound; lia].
  rewrite <- Z.land_ones by lia. apply Z.bits_inj'. intros i Hi. rewrite Z.land_spec, Z.lxor_spec.
  destruct (decide (i < n)); [rewrite Z.ones_spec_low by lia; by rewrite andb_true_r|].
  rewrite <- (Z.mod_small x (2 ^ n)), <- (Z.mod_small y (2 ^ n)), !Z.mod_pow2_bits_high by lia. done.
Qed.

(** ** Lists *)

Lemma filter_all {A} (P : A -> Prop) `{!forall x, Decision (P x)} (l : list A) :
  Forall P l -> filter P l = l.
Proof. induction 1; [done|]. rewrite filter_cons_True by done. congruence. Qed.

Lemma filter_none {A} (P : A -> Prop) `{!forall x, Decision (P x)} (l : list A) :
  Forall (fun x => ~ P x) l -> filter P l = [].
Proof. induction 1; [done|]. by rewrite filter_cons_False. Qed.

Lemma Forall_sublist {A} (P : A -> Prop) (l k : list A) :
  l `sublist_of` k -> Forall P k -> Forall P l.
Proof. rewrite !Forall_forall. eauto using elem_of_sublist. Qed.

Lemma filter_sublist {A} (P : A -> Prop) `{!forall x, Decision (P x)} (l k : list A) :
  l `sublist_of` k -> filter P l `sublist_of` filter P k.
Proof.
  induction 1; [done|..]; rewrite ?filter_cons; repeat case_decide; eauto using sublist.
Qed.

Lemma head_Some_elem_of {A} (l : list A) x : head l = Some x -> x ∈ l.
Proof. destruct l; simpl; intros; simplify_eq. set_solver. Qed.

(** ** Stores of nodes named by numbers *)

Lemma nodes_insert {A} (store : gmap nat A) i x ns rs :
  i ∉ ns -> Forall2 (fun n r => store !! n = Some r) ns rs ->
  Forall2 (fun n r => <[i := x]> store !! n = Some r) ns rs.
Proof.
  intros Hi H. induction H; constructor; [|set_solver].
  rewrite lookup_insert_ne; [done|set_solver].
Qed.

Lemma nodes_delete {A} (store : gmap nat A) i ns rs :
  i ∉ ns -> Forall2 (fun n r => store !! n = Some r) ns rs ->
  Forall2 (fun n r => delete i store !! n = Some r) ns rs.
Proof.
  intros Hi H. induction H; constructor; [|set_solver].
  rewrite lookup_delete_ne; [done|set_solver].
Qed.

Lemma nodup_mid {A} (l1 l2 : list A) x : NoDup (l1 ++ x :: l2) -> (x ∉ l1) /\ (x ∉ l2).
Proof.
  intros (_ & Hd & [Hn _]%NoDup_cons)%NoDup_app. split; [|done].
  intros Hx. apply (Hd x Hx). by apply list_elem_of_here.
Qed.
