(* ===== verification/Support.v ===== *)
(** * Support: include/vfn/support (align.h, endian.h, mem.h) and src/support/mem.c

    Alignment and rounding macros at the width the library uses them at
    (64-bit unsigned), byte-order conversions for either host byte order, the
    48-bit big-endian accessors, and the overflow checks of the allocation
    helpers. *)

From S2P Require Import Prelude.
Local Open Scope Z_scope.
Local Open Scope vfn_scope.

(** ** align.h *)

Definition ALIGN_UP (x a : Z) : Z := Z.land (u64 (x + a - 1)) (u64 (Z.lnot (a - 1))).
Definition ALIGN_DOWN (x a : Z) : Z := Z.land x (u64 (Z.lnot (a - 1))).
Definition ALIGNED (x a : Z) : bool := Z.land x (u64 (a - 1)) =? 0.
Definition ROUND_DOWN (x m : Z) : Z := x / m * m.
Definition ROUND_UP (x m : Z) : Z := ROUND_DOWN (u64 (x + m - 1)) m.
Definition ROUND (x m : Z) : Z :=
  let ceil := ROUND_UP x m in
  let floor := ROUND_DOWN x m in
  if u64 (x - floor) <? u64 (ceil - x) then floor else ceil.

(** ** endian.h *)

Inductive endianness : Type := Little | Big.
Class HostOrder : Type := host_order : endianness.

(** Byte [i] of a value, and the libc byte swaps. *)
Definition byte_of (x : Z) (i : Z) : Z := Z.land (Z.shiftr x (8 * i)) 0xff.
Definition bswap_16 (x : Z) : Z :=
  Z.lor (Z.shiftl (byte_of x 0) 8) (byte_of x 1).
Definition bswap_32 (x : Z) : Z :=
  Z.lor (Z.shiftl (bswap_16 (Z.land x 0xffff)) 16) (bswap_16 (Z.land (Z.shiftr x 16) 0xffff)).
Definition bswap_64 (x : Z) : Z :=
  Z.lor (Z.shiftl (bswap_32 (Z.land x 0xffffffff)) 32)
        (bswap_32 (Z.land (Z.shiftr x 32) 0xffffffff)).

Section Endian.
Context {host : HostOrder}.

Definition cpu_to_le64 (native : Z) : Z :=
  match host_order with Little => native | Big => bswap_64 native end.
Definition cpu_to_le32 (native : Z) : Z :=
  match host_order with Little => native | Big => bswap_32 native end.
Definition cpu_to_le16 (native : Z) : Z :=
  match host_order with Little => native | Big => bswap_16 native end.
Definition le64_to_cpu (le_val : Z) : Z :=
  match host_order with Little => le_val | Big => bswap_64 le_val end.
Definition le32_to_cpu (le_val : Z) : Z :=
  match host_order with Little => le_val | Big => bswap_32 le_val end.
Definition le16_to_cpu (le_val : Z) : Z :=
  match host_order with Little => le_val | Big => bswap_16 le_val end.
Definition cpu_to_be64 (native : Z) : Z :=
  match host_order with Little => bswap_64 native | Big => native end.
Definition cpu_to_be32 (native : Z) : Z :=
  match host_order with Little => bswap_32 native | Big => native end.
Definition cpu_to_be16 (native : Z) : Z :=
  match host_order with Little => bswap_16 native | Big => native end.
Definition be64_to_cpu (be_val : Z) : Z :=
  match host_order with Little => bswap_64 be_val | Big => be_val end.
Definition be32_to_cpu (be_val : Z) : Z :=
  match host_order with Little => bswap_32 be_val | Big => be_val end.
Definition be16_to_cpu (be_val : Z) : Z :=
  match host_order with Little => bswap_16 be_val | Big => be_val end.

(** The bytes a host stores for an [n]-byte value, lowest address first. *)
Definition stored_bytes (n : nat) (v : Z) : list Z :=
  let le := (fun i : nat => byte_of v (Z.of_nat i)) <$> seq 0 n in
  match host_order with Little => le | Big => reverse le end.
End Endian.

(** The six bytes written at [p], lowest address first. *)
Definition put_unaligned_be48 (v : Z) : list Z :=
  [u8 (Z.shiftr v 40); u8 (Z.shiftr v 32); u8 (Z.shiftr v 24);
   u8 (Z.shiftr v 16); u8 (Z.shiftr v 8); u8 v].

Definition get_unaligned_be48 (p : list Z) : Z :=
  match p with
  | p0 :: p1 :: p2 :: p3 :: p4 :: p5 :: _ =>
      Z.lor (Z.lor (Z.lor (Z.lor (Z.lor (Z.lor 0 (Z.shiftl p0 40)) (Z.shiftl p1 32))
        (Z.shiftl p2 24)) (Z.shiftl p3 16)) (Z.shiftl p4 8)) p5
  | _ => 0
  end.

(** ** mem.h and mem.c *)

(** The division traps when [sz] is zero; every caller ends the process when the
    result is [true], so that case is [true]. *)
Definition would_overflow (n sz : Z) : bool := (sz =? 0) || (SIZE_MAX / sz <? n).

Definition __abort_on_overflow (n sz : Z) : outcome Z :=
  if would_overflow n sz then Crash else Ret (u64 (n * sz)).

Section Alloc.
(** The C allocator over the state of the heap: [None] is a null pointer. *)
Context {H : Type} (malloc : Z -> M H (option Z)) (calloc : Z -> Z -> M H (option Z))
  (realloc : option Z -> Z -> M H (option Z)).

(** [if (unlikely(!mem)) backtrace_abort();] *)
Definition or_abort (m : M H (option Z)) : M H (option Z) :=
  let* mem := m in
  match mem with None => crash | Some _ => ret mem end.

Definition xmalloc (sz : Z) : M H (option Z) :=
  if sz =? 0 then ret None else or_abort (malloc sz).

Definition zmalloc (sz : Z) : M H (option Z) :=
  if sz =? 0 then ret None else or_abort (calloc 1 sz).

Definition mallocn (n sz : Z) : M H (option Z) :=
  if would_overflow n sz then crash else xmalloc (u64 (n * sz)).

Definition zmallocn (n sz : Z) : M H (option Z) :=
  if would_overflow n sz then crash else zmalloc (u64 (n * sz)).

(** The result of [realloc] is not checked. *)
Definition reallocn (mem : option Z) (n sz : Z) : M H (option Z) :=
  if would_overflow n sz then crash else realloc mem (u64 (n * sz)).
End Alloc.

(** [a] is a power of two representable in 64 bits. *)
Definition pow2 (a : Z) : Prop := exists k, 0 <= k < 64 /\ a = 2 ^ k.

(** The page size [sysconf(_SC_PAGESIZE)] reports when the library is loaded:
    a power of two, 4 KiB or more. *)
Class PageSize : Type := {
  __VFN_PAGESIZE : Z;
  pagesize_pow2 : pow2 __VFN_PAGESIZE;
  pagesize_min : 0x1000 <= __VFN_PAGESIZE
}.

Definition __VFN_PAGESHIFT `{PageSize} : Z := Z.log2 __VFN_PAGESIZE.

Section Page.
(** [mmap] of anonymous memory at an address the kernel chooses, and [munmap],
    over the state of the kernel. *)
Context {page : PageSize} {S : Type} (mmap : Z -> M S Z) (munmap : Z -> Z -> M S unit).

(** The address and the rounded length. *)
Definition pgmap (sz : Z) : M S (Z * Z) :=
  let len := ALIGN_UP sz __VFN_PAGESIZE in
  let* mem := mmap len in
  ret (mem, len).

Definition pgmapn (n sz : Z) : M S (Z * Z) :=
  if would_overflow n sz then crash else pgmap (u64 (n * sz)).

Definition pgunmap (mem len : Z) : M S unit := fatal_if (munmap mem len).
End Page.

(** ** Alignment lemmas *)

Lemma pow2_pos a : pow2 a -> 0 < a < 0x10000000000000000.
Proof.
  intros (k & Hk & ->). split; [apply Z.pow_pos_nonneg; lia|].
  change 0x10000000000000000 with (2 ^ 64). apply Z.pow_lt_mono_r; lia.
Qed.

Lemma pow2_shift k : 0 <= k < 64 -> pow2 (2 ^ k).
Proof. by exists k. Qed.

Lemma u64_land x : u64 x = Z.land x (Z.ones 64).
Proof. unfold u64. by rewrite Z.land_ones. Qed.

Lemma land_u64_r x y : 0 <= x < 0x10000000000000000 -> Z.land x (u64 y) = Z.land x y.
Proof.
  intros Hx. rewrite u64_land, (Z.land_comm y), Z.land_assoc.
  rewrite Z.land_ones by lia. by rewrite Z.mod_small.
Qed.

Lemma land_lnot_pow2 x k : 0 <= k -> Z.land x (Z.lnot (2 ^ k - 1)) = x - x mod 2 ^ k.
Proof.
  intros Hk. replace (2 ^ k - 1) with (Z.ones k) by (rewrite Z.ones_equiv; lia).
  rewrite <- Z.ldiff_land, Z.ldiff_ones_r by done.
  rewrite Z.shiftl_mul_pow2, Z.shiftr_div_pow2 by done.
  pose proof (Z.div_mod x (2 ^ k)). pose proof (Z.pow_pos_nonneg 2 k). lia.
Qed.

Lemma ALIGN_DOWN_spec x a :
  0 <= x < 0x10000000000000000 -> pow2 a -> ALIGN_DOWN x a = x - x mod a.
Proof.
  intros Hx (k & Hk & ->). unfold ALIGN_DOWN.
  rewrite land_u64_r by done. apply land_lnot_pow2. lia.
Qed.

Lemma ALIGNED_spec x a : pow2 a -> ALIGNED x a = (x mod a =? 0).
Proof.
  intros Ha. pose proof (pow2_pos a Ha). destruct Ha as (k & Hk & ->). unfold ALIGNED.
  rewrite u64_small by lia.
  replace (2 ^ k - 1) with (Z.ones k) by (rewrite Z.ones_equiv; lia).
  by rewrite Z.land_ones by lia.
Qed.

Lemma ALIGN_UP_spec x a :
  0 <= x -> x + a - 1 < 0x10000000000000000 -> pow2 a ->
  ALIGN_UP x a = (x + a - 1) - (x + a - 1) mod a.
Proof.
  intros Hx Hb Ha. pose proof (pow2_pos a Ha). unfold ALIGN_UP.
  rewrite (u64_small (x + a - 1)) by lia.
  apply (ALIGN_DOWN_spec (x + a - 1) a); [lia|done].
Qed.

Lemma ALIGN_UP_bounds x a :
  0 <= x -> x + a - 1 < 0x10000000000000000 -> pow2 a ->
  x <= ALIGN_UP x a < x + a /\ ALIGN_UP x a mod a = 0.
Proof.
  intros Hx Hb Ha. rewrite ALIGN_UP_spec by done. pose proof (pow2_pos a Ha).
  pose proof (Z.mod_pos_bound (x + a - 1) a). split; [lia|].
  rewrite Zminus_mod, Z.mod_mod, Z.sub_diag by lia. by apply Z.mod_0_l; lia.
Qed.

Lemma ALIGN_UP_aligned x a :
  0 <= x -> x + a - 1 < 0x10000000000000000 -> pow2 a -> x mod a = 0 -> ALIGN_UP x a = x.
Proof.
  intros Hx Hb Ha H0. pose proof (pow2_pos a Ha).
  destruct (ALIGN_UP_bounds x a) as [Hr Hm]; [done..|].
  apply Z.div_exact in Hm; [|lia]. apply Z.div_exact in H0; [|lia].
  assert (ALIGN_UP x a / a = x / a); nia.
Qed.

#[export] Hint Resolve pow2_shift pow2_pos pagesize_pow2 : vfn.

(** 4 KiB pages, for concrete runs. *)
Definition page_4k : PageSize.
Proof.
  refine {| __VFN_PAGESIZE := 0x1000 |}; [|lia]. exists 12. split; [lia|reflexivity].
Defined.

(** ** Byte-order lemmas *)

Lemma byte_of_div x i : 0 <= i -> byte_of x i = x / 2 ^ (8 * i) mod 256.
Proof.
  intros Hi. unfold byte_of. change 0xff with (Z.ones 8).
  rewrite land_mask, Z.shiftr_div_pow2 by lia. done.
Qed.

Lemma bswap_16_eq x : bswap_16 x = x mod 256 * 256 + x / 256 mod 256.
Proof.
  unfold bswap_16. rewrite !byte_of_div by lia.
  rewrite lor_shiftl_add; [by rewrite Z.div_1_r|lia|]. by apply Z.mod_pos_bound.
Qed.

Lemma bswap_16_range x : 0 <= bswap_16 x < 0x10000.
Proof. rewrite bswap_16_eq. word_lia. Qed.

Lemma bswap_16_invol x : 0 <= x < 0x10000 -> bswap_16 (bswap_16 x) = x.
Proof. intros Hx. rewrite !bswap_16_eq. word_lia. Qed.

Lemma bswap_32_eq x :
  bswap_32 x = bswap_16 (x mod 0x10000) * 0x10000 + bswap_16 (x / 0x10000 mod 0x10000).
Proof.
  unfold bswap_32. change 0xffff with (Z.ones 16).
  rewrite !land_mask, Z.shiftr_div_pow2 by lia.
  rewrite lor_shiftl_add; [done|lia|apply bswap_16_range].
Qed.

Lemma bswap_32_range x : 0 <= bswap_32 x < 0x100000000.
Proof.
  rewrite bswap_32_eq. pose proof (bswap_16_range (x mod 0x10000)).
  pose proof (bswap_16_range (x / 0x10000 mod 0x10000)). lia.
Qed.

(** A value of two halves, reversed twice, is itself. *)
Lemma swap_halves (f : Z -> Z) (w a b : Z) :
  0 < w -> (forall x, 0 <= f x < w) -> (forall x, 0 <= x < w -> f (f x) = x) ->
  0 <= a < w -> 0 <= b < w ->
  let y := f b * w + f a in f (y mod w) * w + f (y / w mod w) = a * w + b.
Proof.
  intros Hw Hr Hi Ha Hb y.
  pose proof (Hr a); pose proof (Hr b).
  assert (y mod w = f a) as -> by (unfold y; rewrite Z.add_comm, Z.mod_add, Z.mod_small; lia).
  assert (y / w = f b) as -> by (unfold y; rewrite Z.add_comm, Z.div_add, Z.div_small; lia).
  rewrite (Z.mod_small (f b)), !Hi by lia. done.
Qed.

Lemma bswap_32_invol x : 0 <= x < 0x100000000 -> bswap_32 (bswap_32 x) = x.
Proof.
  intros Hx. rewrite (bswap_32_eq (bswap_32 x)), !(bswap_32_eq x).
  rewrite (Z.mod_small (x / 0x10000)) by word_lia.
  rewrite (swap_halves bswap_16 0x10000 (x / 0x10000) (x mod 0x10000));
    [word_lia|lia|apply bswap_16_range|apply bswap_16_invol|word_lia|word_lia].
Qed.

Lemma bswap_64_eq x :
  bswap_64 x = bswap_32 (x mod 0x100000000) * 0x100000000
             + bswap_32 (x / 0x100000000 mod 0x100000000).
Proof.
  unfold bswap_64. change 0xffffffff with (Z.ones 32).
  rewrite !land_mask, Z.shiftr_div_pow2 by lia.
  rewrite lor_shiftl_add; [done|lia|apply bswap_32_range].
Qed.

Lemma bswap_64_range x : 0 <= bswap_64 x < 0x10000000000000000.
Proof.
  rewrite bswap_64_eq. pose proof (bswap_32_range (x mod 0x100000000)).
  pose proof (bswap_32_range (x / 0x100000000 mod 0x100000000)). lia.
Qed.

Lemma bswap_64_invol x : 0 <= x < 0x10000000000000000 -> bswap_64 (bswap_64 x) = x.
Proof.
  intros Hx. rewrite (bswap_64_eq (bswap_64 x)), !(bswap_64_eq x).
  rewrite (Z.mod_small (x / 0x100000000)) by word_lia.
  rewrite (swap_halves bswap_32 0x100000000 (x / 0x100000000) (x mod 0x100000000));
    [word_lia|lia|apply bswap_32_range|apply bswap_32_invol|word_lia|word_lia].
Qed.

Section EndianLemmas.
Context {host : HostOrder}.

Lemma le64_roundtrip x : 0 <= x < 0x10000000000000000 -> le64_to_cpu (cpu_to_le64 x) = x.
Proof. unfold le64_to_cpu, cpu_to_le64. destruct host_order; eauto using bswap_64_invol. Qed.
Lemma le32_roundtrip x : 0 <= x < 0x100000000 -> le32_to_cpu (cpu_to_le32 x) = x.
Proof. unfold le32_to_cpu, cpu_to_le32. destruct host_order; eauto using bswap_32_invol. Qed.
Lemma le16_roundtrip x : 0 <= x < 0x10000 -> le16_to_cpu (cpu_to_le16 x) = x.
Proof. unfold le16_to_cpu, cpu_to_le16. destruct host_order; eauto using bswap_16_invol. Qed.
Lemma be64_roundtrip x : 0 <= x < 0x10000000000000000 -> be64_to_cpu (cpu_to_be64 x) = x.
Proof. unfold be64_to_cpu, cpu_to_be64. destruct host_order; eauto using bswap_64_invol. Qed.
Lemma be32_roundtrip x : 0 <= x < 0x100000000 -> be32_to_cpu (cpu_to_be32 x) = x.
Proof. unfold be32_to_cpu, cpu_to_be32. destruct host_order; eauto using bswap_32_invol. Qed.
Lemma be16_roundtrip x : 0 <= x < 0x10000 -> be16_to_cpu (cpu_to_be16 x) = x.
Proof. unfold be16_to_cpu, cpu_to_be16. destruct host_order; eauto using bswap_16_invol. Qed.

Lemma cpu_to_le64_range x :
  0 <= x < 0x10000000000000000 -> 0 <= cpu_to_le64 x < 0x10000000000000000.
Proof. unfold cpu_to_le64. destruct host_order; eauto using bswap_64_range. Qed.
End EndianLemmas.
#[export] Hint Rewrite @le64_roundtrip @le32_roundtrip @le16_roundtrip using lia : vfn_word.

(** Bytes of a concatenation, of a truncation and of a shift. *)
Lemma byte_of_concat h l n i :
  0 <= i -> 0 <= n -> 0 <= l < 2 ^ (8 * n) ->
  byte_of (h * 2 ^ (8 * n) + l) i = if decide (i < n) then byte_of l i else byte_of h (i - n).
Proof.
  intros Hi Hn Hl. case_decide as Hlt; rewrite !byte_of_div by lia.
  - replace (8 * n) with (8 * (n - i - 1) + 8 + 8 * i) by lia.
    rewrite !Z.pow_add_r by lia. pose proof (Z.pow_pos_nonneg 2 (8 * i)).
    rewrite !Z.mul_assoc, Z.add_comm, Z.div_add by lia.
    by rewrite Z.mod_add.
  - replace (8 * i) with (8 * n + 8 * (i - n)) by lia.
    pose proof (Z.pow_pos_nonneg 2 (8 * n)). pose proof (Z.pow_pos_nonneg 2 (8 * (i - n))).
    rewrite Z.pow_add_r, <- Z.div_div by lia.
    rewrite Z.add_comm, Z.div_add, (Z.div_small l) by lia. done.
Qed.

Lemma byte_of_low x n i : 0 <= i < n -> byte_of (x mod 2 ^ (8 * n)) i = byte_of x i.
Proof.
  intros Hi. pose proof (Z.pow_pos_nonneg 2 (8 * n)).
  pose proof (Z.mod_pos_bound x (2 ^ (8 * n))).
  rewrite (Z.div_mod x (2 ^ (8 * n))) at 2 by lia.
  rewrite (Z.mul_comm (2 ^ _)), byte_of_concat by lia. by case_decide; [|lia].
Qed.

Lemma byte_of_high x n i : 0 <= i -> 0 <= n -> byte_of (x / 2 ^ (8 * n)) i = byte_of x (n + i).
Proof.
  intros Hi Hn. rewrite !byte_of_div by lia. rewrite Z.div_div.
  - by rewrite <- Z.pow_add_r, <- Z.mul_add_distr_l by lia.
  - pose proof (Z.pow_pos_nonneg 2 (8 * n)). lia.
  - by apply Z.pow_pos_nonneg; lia.
Qed.

Lemma byte_of_bswap_16 x i : 0 <= i < 2 -> byte_of (bswap_16 x) i = byte_of x (1 - i).
Proof.
  intros Hi. unfold bswap_16.
  assert (0 <= byte_of x 1 < 2 ^ (8 * 1)).
  { rewrite byte_of_div by lia. by apply Z.mod_pos_bound. }
  rewrite lor_shiftl_add by lia. change (2 ^ 8) with (2 ^ (8 * 1)).
  rewrite byte_of_concat by lia.
  case_decide; [assert (i = 0) as -> by lia|assert (i = 1) as -> by lia];
    rewrite !byte_of_div by lia; simpl (2 ^ _); word_lia.
Qed.

(** One doubling step: swapping the swapped halves reverses the bytes. *)
Lemma byte_of_swap_halves (f : Z -> Z) n x i :
  0 < n -> (forall y, 0 <= f y < 2 ^ (8 * n)) ->
  (forall y j, 0 <= j < n -> byte_of (f y) j = byte_of y (n - 1 - j)) ->
  0 <= i < 2 * n ->
  byte_of (f (x mod 2 ^ (8 * n)) * 2 ^ (8 * n) + f (x / 2 ^ (8 * n) mod 2 ^ (8 * n))) i
  = byte_of x (2 * n - 1 - i).
Proof.
  intros Hn Hr Hf Hi. rewrite byte_of_concat by (try apply Hr; lia). case_decide.
  - rewrite Hf, byte_of_low, byte_of_high by lia. f_equal. lia.
  - rewrite Hf, byte_of_low by lia. f_equal. lia.
Qed.

Lemma byte_of_bswap_32 x i : 0 <= i < 4 -> byte_of (bswap_32 x) i = byte_of x (3 - i).
Proof.
  intros Hi. rewrite bswap_32_eq.
  apply (byte_of_swap_halves bswap_16 2 x i); auto using bswap_16_range with lia.
  intros. by rewrite byte_of_bswap_16 by lia.
Qed.

Lemma byte_of_bswap_64 x i : 0 <= i < 8 -> byte_of (bswap_64 x) i = byte_of x (7 - i).
Proof.
  intros Hi. rewrite bswap_64_eq.
  apply (byte_of_swap_halves bswap_32 4 x i); auto using bswap_32_range with lia.
  intros. by rewrite byte_of_bswap_32 by lia.
Qed.

(** Appending one byte below the bytes read so far. *)
Lemma be_step A b n :
  0 <= n -> 0 <= b < 256 -> Z.lor (Z.shiftl A (n + 8)) (Z.shiftl b n) = Z.shiftl (A * 256 + b) n.
Proof.
  intros Hn Hb. rewrite Z.add_comm, <- Z.shiftl_shiftl, <- Z.shiftl_lor by lia.
  by rewrite (lor_shiftl_add A b 8) by lia.
Qed.

Lemma mod_digits v w m : 0 < w -> 0 < m -> (v / w mod m) * w + v mod w = v mod (w * m).
Proof. intros. rewrite (Z.rem_mul_r v w m) by lia. lia. Qed.

(** ** Properties *)

(** The value [ALIGN_UP] computes for a power-of-two alignment, when the
    addition does not overflow 64 bits, is the least multiple of the alignment
    that is not below the argument. *)
Theorem align_up_least x a :
  0 <= x -> x + a - 1 < 0x10000000000000000 -> pow2 a ->
  ALIGNED (ALIGN_UP x a) a = true /\ x <= ALIGN_UP x a /\
  (forall y, x <= y -> ALIGNED y a = true -> ALIGN_UP x a <= y).
Proof.
  intros Hx Hb Ha. destruct (ALIGN_UP_bounds x a) as [Hr Hm]; [done..|].
  pose proof (pow2_pos a Ha). rewrite ALIGNED_spec, Hm by done.
  split_and!; [done|lia|]. intros y Hy HA. rewrite ALIGNED_spec in HA by done.
  apply Z.eqb_eq, Z.div_exact in HA; [|lia]. apply Z.div_exact in Hm; [|lia].
  revert HA Hm Hr. generalize (y / a), (ALIGN_UP x a / a). intros q r -> ->.
  destruct (decide (r <= q)); nia.
Qed.

Lemma align_up_least_witness :
  ALIGNED (ALIGN_UP 0x1001 0x1000) 0x1000 = true /\ ALIGN_UP 0x1001 0x1000 = 0x2000.
Proof.
  split; [|reflexivity].
  apply (align_up_least 0x1001 0x1000); [lia|lia|]. exists 12. split; [lia|reflexivity].
Defined.

(** On either host byte order the bytes stored for [cpu_to_le64]/[32]/[16]
    are the little-endian bytes of the value and those stored for
    [cpu_to_be64]/[32]/[16] the big-endian ones: the conversions produce the
    wire format whatever the host is. *)
Theorem wire_byte_order {host : HostOrder} (v : Z) :
  let le n := (fun i : nat => byte_of v (Z.of_nat i)) <$> seq 0 n in
  stored_bytes 8 (cpu_to_le64 v) = le 8%nat /\
  stored_bytes 4 (cpu_to_le32 v) = le 4%nat /\
  stored_bytes 2 (cpu_to_le16 v) = le 2%nat /\
  stored_bytes 8 (cpu_to_be64 v) = reverse (le 8%nat) /\
  stored_bytes 4 (cpu_to_be32 v) = reverse (le 4%nat) /\
  stored_bytes 2 (cpu_to_be16 v) = reverse (le 2%nat).
Proof.
  unfold stored_bytes, cpu_to_le64, cpu_to_le32, cpu_to_le16,
    cpu_to_be64, cpu_to_be32, cpu_to_be16.
  destruct host_order; split_and!; cbn [fmap list_fmap seq reverse rev_append]; try done;
    rewrite ?byte_of_bswap_64, ?byte_of_bswap_32, ?byte_of_bswap_16 by lia; done.
Qed.

(** A 48-bit value stored with [put_unaligned_be48] is read back by
    [get_unaligned_be48]; higher bits of the argument are dropped. *)
Theorem be48_roundtrip v : get_unaligned_be48 (put_unaligned_be48 v) = v mod 2 ^ 48.
Proof.
  unfold put_unaligned_be48, get_unaligned_be48. rewrite Z.lor_0_l.
  rewrite (be_step _ _ 32), (be_step _ _ 24), (be_step _ _ 16), (be_step _ _ 8) by auto with vfn_word lia.
  rewrite lor_shiftl_add by (auto with vfn_word lia).
  rewrite !Z.shiftr_div_pow2 by lia. unfold u8.
  match goal with |- ?l = _ => set (lhs := l) end.
  change (2 ^ 48) with (2 ^ 8 * 2 ^ 40). rewrite <- mod_digits by lia.
  change (2 ^ 40) with (2 ^ 8 * 2 ^ 32). rewrite <- mod_digits by lia.
  change (2 ^ 32) with (2 ^ 8 * 2 ^ 24). rewrite <- mod_digits by lia.
  change (2 ^ 24) with (2 ^ 8 * 2 ^ 16). rewrite <- mod_digits by lia.
  change (2 ^ 16) with (2 ^ 8 * 2 ^ 8). rewrite <- mod_digits by lia.
  unfold lhs. by rewrite !Z.div_div by lia.
Qed.

(** [ROUND] returns a nearest multiple: no other multiple is closer, and a
    value half way between two multiples goes up. *)
Theorem round_nearest x m :
  0 <= x -> 0 < m -> x + m - 1 < 0x10000000000000000 ->
  ROUND x m mod m = 0 /\
  (forall k, Z.abs (ROUND x m - x) <= Z.abs (k * m - x)) /\
  (2 * (x mod m) = m -> ROUND x m = (x / m + 1) * m).
Proof.
  intros Hx Hm Hb. unfold ROUND, ROUND_UP, ROUND_DOWN.
  rewrite (u64_small (x + m - 1)) by lia.
  pose proof (Z.div_mod x m ltac:(lia)) as Ex. pose proof (Z.mod_pos_bound x m Hm) as Rx.
  assert ((x + m - 1) / m = if decide (x mod m = 0) then x / m else x / m + 1) as ->.
  { case_decide as H0; symmetry; apply Z.div_unique with (if decide (x mod m = 0) then m - 1 else x mod m - 1);
      case_decide; lia. }
  set (q := x / m) in *. set (r := x mod m) in *.
  case_decide as H0.
  - rewrite !u64_small by nia. replace (q * m - x) with 0 by lia.
    replace (x - q * m) with 0 by lia. rewrite Z.ltb_irrefl.
    split_and!; [by apply Z.mod_mul; lia|intros; nia|lia].
  - rewrite !u64_small by nia. zcases; (split_and!; [apply Z.mod_mul; lia| |lia]);
      intros k; destruct (decide (k <= q)); nia.
Qed.

Lemma round_nearest_witness : ROUND 2095000000 10000000 mod 10000000 = 0 /\
  ROUND 2095000000 10000000 = 2100000000.
Proof.
  split; [|reflexivity].
  apply (round_nearest 2095000000 10000000); lia.
Defined.

Lemma would_overflow_exact n sz :
  0 <= n -> 0 < sz -> would_overflow n sz = (0x10000000000000000 <=? n * sz).
Proof.
  intros Hn Hs. unfold would_overflow, SIZE_MAX, UINT64_MAX.
  pose proof (Z.div_mod 0xffffffffffffffff sz ltac:(lia)).
  pose proof (Z.mod_pos_bound 0xffffffffffffffff sz ltac:(lia)).
  destruct (Z.eqb_spec sz 0); [lia|]. simpl.
  destruct (Z.ltb_spec (0xffffffffffffffff / sz) n), (Z.leb_spec 0x10000000000000000 (n * sz)); nia || done.
Qed.

(** The guarded size computation of the allocation helpers either ends the
    process, exactly when the product does not fit [size_t], or returns the
    true product: a request never wraps. *)
Theorem abort_on_overflow_exact n sz :
  0 <= n < 0x100000000 -> 0 < sz < 0x10000000000000000 ->
  __abort_on_overflow n sz =
    (if decide (n * sz < 0x10000000000000000) then Ret (n * sz) else Crash).
Proof.
  intros Hn Hs. unfold __abort_on_overflow. rewrite would_overflow_exact by lia.
  destruct (Z.leb_spec 0x10000000000000000 (n * sz)); case_decide; try lia; [done|].
  by rewrite u64_small by nia.
Qed.

(** The allocation of [n] elements that returns has asked the allocator for all
    of their bytes, and returns NULL only when there are none. *)
Lemma allocations_whole {H} malloc calloc n sz (h h' : H) p :
  0 <= n < 0x100000000 -> 0 < sz < 0x10000000000000000 ->
  (mallocn malloc n sz h = (Ret p, h') -> n <> 0 -> p <> None /\ malloc (n * sz) h = (Ret p, h')) /\
  (zmallocn calloc n sz h = (Ret p, h') -> n <> 0 -> p <> None /\ calloc 1 (n * sz) h = (Ret p, h')).
Proof.
  intros Hn Hs. unfold mallocn, zmallocn, xmalloc, zmalloc, or_abort. rewrite would_overflow_exact by lia.
  destruct (Z.leb_spec 0x10000000000000000 (n * sz)); [done|]. rewrite u64_small by nia.
  split; intros E Hz; destruct (Z.eqb_spec (n * sz) 0); try nia; apply bind_Ret in E as ([q|] & h1 & E & [= <- <-]);
    (split; [done|exact E]).
Qed.

Lemma abort_on_overflow_exact_witness :
  __abort_on_overflow 0xffffffff 0x200000000 = Crash /\ __abort_on_overflow 3 4096 = Ret 12288.
Proof.
  split.
  - rewrite (abort_on_overflow_exact 0xffffffff 0x200000000) by lia. reflexivity.
  - rewrite (abort_on_overflow_exact 3 4096) by lia. reflexivity.
Defined.
