(* ===== verification/Skiplist.v ===== *)
(** * Skiplist: src/util/skiplist.{h,c}

    The skip list is a stack of doubly linked lists (ccan/list), one per level,
    all starting with the embedded [sentinel] node.  A level is modelled by the
    sequence of its nodes; a node is named by the structure it is embedded in.
    The payload lives in the client's store, so the comparison callback is a
    function on nodes.  [SkiplistSpec] below relates a list to the sequence of
    its level-0 nodes, which is what clients reason with. *)

From S2P Require Import Prelude.
Local Open Scope Z_scope.

Definition SKIPLIST_LEVELS : nat := 8.

Inductive skiplist_node : Type := Sentinel | Node (n : nat).

#[export] Instance skiplist_node_eq_dec : EqDecision skiplist_node.
Proof. solve_decision. Defined.
#[export] Instance skiplist_node_inhabited : Inhabited skiplist_node := populate Sentinel.

Record skiplist : Type := mk_skiplist {
  height : nat;
  heads : list (list skiplist_node)
}.

(** ** One level: the ccan/list operations used *)

Fixpoint seq_after (l : list skiplist_node) (p : skiplist_node) : list skiplist_node :=
  match l with
  | [] => []
  | x :: l' => if decide (x = p) then l' else seq_after l' p
  end.

Definition seq_next (l : list skiplist_node) (p : skiplist_node) : option skiplist_node :=
  head (seq_after l p).

Fixpoint seq_add_after (l : list skiplist_node) (p n : skiplist_node) : list skiplist_node :=
  match l with
  | [] => []
  | x :: l' => if decide (x = p) then x :: n :: l' else x :: seq_add_after l' p n
  end.

Fixpoint seq_del_from (l : list skiplist_node) (n : skiplist_node) : list skiplist_node :=
  match l with
  | [] => []
  | x :: l' => if decide (x = n) then l' else x :: seq_del_from l' n
  end.

(** ** skiplist.h: accessors *)

Definition level (sl : skiplist) (k : nat) : list skiplist_node := heads sl !!! k.
Definition skiplist_next (sl : skiplist) (n : skiplist_node) (k : nat) : option skiplist_node :=
  seq_next (level sl k) n.
Definition skiplist_add (sl : skiplist) (n : skiplist_node) (k : nat) : skiplist :=
  mk_skiplist (height sl) (<[k := n :: level sl k]> (heads sl)).
Definition skiplist_add_after (sl : skiplist) (p n : skiplist_node) (k : nat) : skiplist :=
  mk_skiplist (height sl) (<[k := seq_add_after (level sl k) p n]> (heads sl)).
Definition skiplist_del_from (sl : skiplist) (n : skiplist_node) (k : nat) : skiplist :=
  mk_skiplist (height sl) (<[k := seq_del_from (level sl k) n]> (heads sl)).
Definition set_height (sl : skiplist) (h : nat) : skiplist := mk_skiplist h (heads sl).

(** ** skiplist.c *)

Definition skiplist_init : skiplist :=
  foldl (fun sl k => skiplist_add sl Sentinel k)
    (mk_skiplist 0 (replicate SKIPLIST_LEVELS [])) (seq 0 SKIPLIST_LEVELS).

(** An [update]/[path] array: [None] is a null pointer. *)
Abbreviation path := (list (option skiplist_node)).
Definition null_path : path := replicate SKIPLIST_LEVELS None.

(** The inner loop: advance as long as [test] holds of the next node. *)
Fixpoint advance (test : skiplist_node -> bool) (p : skiplist_node)
    (rest : list skiplist_node) : skiplist_node * option skiplist_node :=
  match rest with
  | [] => (p, None)
  | next :: rest' => if test next then advance test next rest' else (p, Some next)
  end.

(** The outer loop, from level [k] down to 0, recording where it drops. *)
Fixpoint walk (sl : skiplist) (test : skiplist_node -> bool) (k : nat)
    (p : skiplist_node) (pth : path) : skiplist_node * option skiplist_node * path :=
  let '(p', next) := advance test p (seq_after (level sl k) p) in
  let pth' := <[k := Some p']> pth in
  match k with
  | O => (p', next, pth')
  | S k' => walk sl test k' p' pth'
  end.

Section Find.
Context {K : Type} (cmp : K -> skiplist_node -> Z).

Definition skiplist_find (sl : skiplist) (key : K) (pth : path) : option skiplist_node * path :=
  let '(_, next, pth') :=
    walk sl (fun n => 0 <? cmp key n) (height sl) Sentinel pth in
  match next with
  | Some n => (if cmp key n =? 0 then Some n else None, pth')
  | None => (None, pth')
  end.

Definition skiplist_find_le (sl : skiplist) (key : K) (pth : path) : option skiplist_node * path :=
  let '(p, _, pth') :=
    walk sl (fun n => 0 <=? cmp key n) (height sl) Sentinel pth in
  (if decide (p = Sentinel) then None else Some p, pth').

Definition skiplist_find_ge (sl : skiplist) (key : K) (pth : path) : option skiplist_node * path :=
  let '(_, next, pth') :=
    walk sl (fun n => 0 <? cmp key n) (height sl) Sentinel pth in
  (next, pth').
End Find.

(** [rands] are the successive results of [rand() > RAND_MAX / 2]. *)
Fixpoint random_level_loop (k fuel : nat) (rands : list bool) : nat :=
  match fuel, rands with
  | S fuel', true :: rands' => random_level_loop (S k) fuel' rands'
  | _, _ => k
  end.
Definition __skiplist_random_level (rands : list bool) : nat :=
  random_level_loop 0 (SKIPLIST_LEVELS - 1) rands.

(** The do-while loop of [skiplist_link]; a null [update] entry is a crash. *)
Fixpoint link_levels (sl : skiplist) (n : skiplist_node) (update : path) (k : nat) : option skiplist :=
  match update !!! k with
  | None => None
  | Some p =>
      let sl' := skiplist_add_after sl p n k in
      match k with
      | O => Some sl'
      | S k' => link_levels sl' n update k'
      end
  end.

Definition skiplist_link (sl : skiplist) (n : skiplist_node) (update : path)
    (rands : list bool) : option skiplist :=
  let k := __skiplist_random_level rands in
  if (height sl <? k)%nat then
    let k := S (height sl) in
    link_levels (set_height sl k) n (<[k := Some Sentinel]> update) k
  else
    link_levels sl n update k.

(** The for loop of [skiplist_erase]: levels [k], [k+1], ... ([todo] of them). *)
Fixpoint erase_levels (sl : skiplist) (n : skiplist_node) (update : path) (k todo : nat)
    : option skiplist :=
  match todo with
  | O => Some sl
  | S todo' =>
      match update !!! k with
      | None => None
      | Some p =>
          if decide (skiplist_next sl p k = Some n)
          then erase_levels (skiplist_del_from sl n k) n update (S k) todo'
          else Some sl
      end
  end.

Fixpoint reduce_height (sl : skiplist) (h : nat) : nat :=
  match h with
  | O => O
  | S h' => match skiplist_next sl Sentinel h with
            | None => reduce_height sl h'
            | Some _ => h
            end
  end.

Definition skiplist_erase (sl : skiplist) (n : skiplist_node) (update : path) : option skiplist :=
  match erase_levels sl n update 0 (S (height sl)) with
  | None => None
  | Some sl' => Some (set_height sl' (reduce_height sl' (height sl')))
  end.

(** [skiplist_for_each_safe]: the loop walks the nodes the level had when it
    started, sentinel included, and survives the deletion of the current one. *)
Definition skiplist_for_each (sl : skiplist) (k : nat) : list skiplist_node := level sl k.

Definition clear_level (sl : skiplist) (k : nat) : skiplist :=
  foldl (fun sl n => if decide (n = Sentinel) then sl else skiplist_del_from sl n k)
    sl (skiplist_for_each sl k).

Fixpoint clear_levels (sl : skiplist) (k : nat) : skiplist :=
  let sl' := clear_level sl k in
  match k with
  | O => sl'
  | S k' => clear_levels sl' k'
  end.

(** Returns the emptied list and the nodes the callback [fn] was called on, in
    order ([fn = false] is a null callback). *)
Definition skiplist_clear_with (sl : skiplist) (fn : bool) : skiplist * list skiplist_node :=
  (set_height (clear_levels sl (height sl)) 0,
   if fn then filter (fun n => n <> Sentinel) (skiplist_for_each sl 0) else []).

(** ** Representation *)

(** The nodes of one level after the sentinel. *)
Definition enc (ns : list nat) : list skiplist_node := Sentinel :: (Node <$> ns).
Arguments enc : simpl never.

(** [L !!! k] lists the nodes of level [k]; a level is a sublist of the one
    below it, levels above [height] are empty and the top one is not. *)
Record skiplist_rep (sl : skiplist) (L : list (list nat)) : Prop := {
  rep_heads : heads sl = enc <$> L;
  rep_length : length L = SKIPLIST_LEVELS;
  rep_height : (height sl < SKIPLIST_LEVELS)%nat;
  rep_nodup : NoDup (L !!! 0%nat);
  rep_sub : forall k, (S k < SKIPLIST_LEVELS)%nat -> (L !!! S k) `sublist_of` (L !!! k);
  rep_above : forall k, (height sl < k)%nat -> L !!! k = [];
  rep_top : height sl = O \/ L !!! height sl <> []
}.

(** The sequence a client sees. *)
Definition skiplist_contents (sl : skiplist) (ns : list nat) : Prop :=
  exists L, skiplist_rep sl L /\ L !!! 0%nat = ns.

(** [test] holds of a prefix of [ns] and of nothing after it. *)
Definition split_by (test : skiplist_node -> bool) (l1 l2 : list nat) : Prop :=
  Forall (fun n => test (Node n) = true) l1 /\ Forall (fun n => test (Node n) = false) l2.

(** The part of a level that satisfies [test], the rest, and the last node of
    the first part. *)
Definition before (test : skiplist_node -> bool) (ns : list nat) : list nat :=
  filter (fun n => test (Node n) = true) ns.
Definition after (test : skiplist_node -> bool) (ns : list nat) : list nat :=
  filter (fun n => test (Node n) = false) ns.
Definition last_node (ns : list nat) : skiplist_node := default Sentinel (Node <$> last ns).

(** ** Lemmas on one level *)

Lemma seq_after_enc a p b :
  p ∉ a -> seq_after (enc (a ++ p :: b)) (Node p) = Node <$> b.
Proof.
  intros Hp. unfold enc. simpl. induction a as [|x a IH]; simpl.
  - by rewrite decide_True by done.
  - apply not_elem_of_cons in Hp as [Hne Hp]. rewrite decide_False by congruence. auto.
Qed.

Lemma seq_after_last ns ns' :
  NoDup (ns ++ ns') -> seq_after (enc (ns ++ ns')) (last_node ns) = Node <$> ns'.
Proof.
  intros Hnd. unfold last_node. destruct ns as [|x ns _] using rev_ind; [done|].
  rewrite last_snoc. simpl. rewrite <- app_assoc. simpl. apply seq_after_enc.
  apply NoDup_app in Hnd as (Hnd & _ & _). apply NoDup_app in Hnd as (_ & Hd & _).
  intros Hx. apply (Hd x Hx). set_solver.
Qed.

Lemma seq_add_after_enc a p n b :
  p ∉ a -> seq_add_after (enc (a ++ p :: b)) (Node p) (Node n) = enc (a ++ p :: n :: b).
Proof.
  intros Hp. unfold enc. simpl. f_equal. induction a as [|x a IH]; simpl.
  - by rewrite decide_True by done.
  - apply not_elem_of_cons in Hp as [Hne Hp]. rewrite decide_False by congruence.
    f_equal. auto.
Qed.

Lemma seq_add_after_last ns ns' n :
  NoDup (ns ++ ns') ->
  seq_add_after (enc (ns ++ ns')) (last_node ns) (Node n) = enc (ns ++ n :: ns').
Proof.
  intros Hnd. unfold last_node. destruct ns as [|x ns _] using rev_ind; [done|].
  rewrite last_snoc. simpl. rewrite <- !app_assoc. simpl. apply seq_add_after_enc.
  apply NoDup_app in Hnd as (Hnd & _ & _). apply NoDup_app in Hnd as (_ & Hd & _).
  intros Hx. apply (Hd x Hx). set_solver.
Qed.

Lemma seq_del_from_enc a n b :
  n ∉ a -> seq_del_from (enc (a ++ n :: b)) (Node n) = enc (a ++ b).
Proof.
  intros Hn. unfold enc. simpl. f_equal. induction a as [|x a IH]; simpl.
  - by rewrite decide_True by done.
  - apply not_elem_of_cons in Hn as [Hne Hn]. rewrite decide_False by congruence.
    f_equal. auto.
Qed.

Lemma seq_next_last ns ns' :
  NoDup (ns ++ ns') -> seq_next (enc (ns ++ ns')) (last_node ns) = Node <$> head ns'.
Proof.
  intros Hnd. unfold seq_next. rewrite seq_after_last by done. by destruct ns'.
Qed.

Lemma advance_split test p l1 l2 :
  split_by test l1 l2 ->
  advance test p (Node <$> (l1 ++ l2)) =
    (default p (Node <$> last l1), Node <$> head l2).
Proof.
  intros [H1 H2]. revert p. induction H1 as [|x l1 Hx H1 IH]; intros p; simpl.
  - destruct H2 as [|y l2 Hy H2]; [done|]. simpl. by rewrite Hy.
  - rewrite Hx, IH, last_cons. by destruct (last l1).
Qed.

(** ** Splitting a level *)

Lemma split_by_filter test l1 l2 :
  split_by test l1 l2 -> before test (l1 ++ l2) = l1 /\ after test (l1 ++ l2) = l2.
Proof.
  intros [H1 H2]. unfold before, after. rewrite !filter_app. split.
  - rewrite filter_all, filter_none, app_nil_r; [done| |done].
    eapply Forall_impl; [exact H2|]. simpl. congruence.
  - rewrite (filter_none _ l1), filter_all; [done|done|].
    eapply Forall_impl; [exact H1|]. simpl. congruence.
Qed.

Lemma sublist_split test s l1 l2 :
  s `sublist_of` l1 ++ l2 -> split_by test l1 l2 ->
  s = before test s ++ after test s /\ split_by test (before test s) (after test s) /\
  before test s `sublist_of` l1 /\ after test s `sublist_of` l2.
Proof.
  intros (s1 & s2 & -> & Hs1 & Hs2)%sublist_app_r [H1 H2].
  assert (split_by test s1 s2) as Hsp.
  { split; eauto using Forall_sublist. }
  destruct (split_by_filter test s1 s2 Hsp) as [-> ->]. done.
Qed.

Lemma level_of_heads sl Lc k :
  heads sl = enc <$> Lc -> (k < length Lc)%nat -> level sl k = enc (Lc !!! k).
Proof. intros Hh Hk. unfold level. rewrite Hh. by apply list_lookup_total_fmap. Qed.

Lemma advance_from test p ns1 ns2 :
  NoDup (ns1 ++ ns2) -> split_by test ns1 ns2 ->
  p = Sentinel \/ (exists x, p = Node x /\ x ∈ ns1) ->
  advance test p (seq_after (enc (ns1 ++ ns2)) p) = (last_node ns1, Node <$> head ns2).
Proof.
  intros Hnd Hsp [->|(x & -> & (a & b & ->)%list_elem_of_split)].
  - by apply (advance_split test Sentinel).
  - rewrite <- app_assoc, <- app_comm_cons in *. rewrite seq_after_enc.
    + destruct Hsp as [[_ Hb]%Forall_app Ha]. inversion Hb; subst.
      rewrite (advance_split test (Node x) b) by done. unfold last_node.
      rewrite last_app_cons, last_cons. by destruct (last b).
    + apply NoDup_app in Hnd as (_ & Hd & _). intros Hx. apply (Hd x Hx). set_solver.
Qed.

(** ** The walk through the levels *)

Section Walk.
Context (sl : skiplist) (L : list (list nat)) (test : skiplist_node -> bool) (l1 l2 : list nat).
Context (Hrep : skiplist_rep sl L) (HL0 : L !!! 0%nat = l1 ++ l2) (Hsp : split_by test l1 l2).

Lemma level_enc k : (k < SKIPLIST_LEVELS)%nat -> level sl k = enc (L !!! k).
Proof using Hrep.
  intros Hk. apply level_of_heads; [apply Hrep|by rewrite (rep_length _ _ Hrep)].
Qed.

Lemma level_sublist k : (k < SKIPLIST_LEVELS)%nat -> L !!! k `sublist_of` L !!! 0%nat.
Proof using Hrep.
  induction k as [|k IH]; intros Hk; [done|].
  etrans; [by apply (rep_sub _ _ Hrep)|]. apply IH. lia.
Qed.

Lemma level_nodup k : (k < SKIPLIST_LEVELS)%nat -> NoDup (L !!! k).
Proof using Hrep. eauto using sublist_NoDup, level_sublist, rep_nodup. Qed.

Lemma level_split k : (k < SKIPLIST_LEVELS)%nat ->
  L !!! k = before test (L !!! k) ++ after test (L !!! k) /\
  split_by test (before test (L !!! k)) (after test (L !!! k)) /\
  before test (L !!! k) `sublist_of` l1 /\ after test (L !!! k) `sublist_of` l2.
Proof using Hrep HL0 Hsp.
  intros Hk. apply sublist_split; [|done]. rewrite <- HL0. by apply level_sublist.
Qed.

(** A node the walk can arrive with at level [k]. *)
Definition arrives (k : nat) (p : skiplist_node) : Prop :=
  p = Sentinel \/ exists x, p = Node x /\ x ∈ before test (L !!! k).

Lemma advance_level k p :
  (k < SKIPLIST_LEVELS)%nat -> arrives k p ->
  advance test p (seq_after (level sl k) p) =
    (last_node (before test (L !!! k)), Node <$> head (after test (L !!! k))).
Proof using Hrep HL0 Hsp.
  intros Hk Hp. rewrite level_enc by done.
  destruct (level_split k Hk) as (E & Hsp' & _ & _). pose proof (level_nodup k Hk) as Hnd.
  rewrite E in Hnd. rewrite <- (advance_from test p _ _ Hnd Hsp' Hp). by rewrite <- E.
Qed.

Lemma arrives_down k :
  (S k < SKIPLIST_LEVELS)%nat -> arrives k (last_node (before test (L !!! S k))).
Proof using Hrep.
  intros Hk. unfold last_node. destruct (last _) as [x|] eqn:E; [|by left]. right.
  exists x. split; [done|]. apply last_Some_elem_of in E. unfold before in *.
  apply list_elem_of_filter in E as [Ht Hx]. apply list_elem_of_filter. split; [done|].
  eapply elem_of_sublist; [done|]. by apply (rep_sub _ _ Hrep).
Qed.

Lemma walk_spec k p pth :
  (k < SKIPLIST_LEVELS)%nat -> arrives k p -> length pth = SKIPLIST_LEVELS ->
  exists pth',
    walk sl test k p pth = (last_node l1, Node <$> head l2, pth') /\
    length pth' = SKIPLIST_LEVELS /\
    (forall j, (j <= k)%nat -> pth' !!! j = Some (last_node (before test (L !!! j)))) /\
    (forall j, (k < j)%nat -> pth' !!! j = pth !!! j).
Proof using Hrep HL0 Hsp.
  assert (before test (L !!! 0%nat) = l1 /\ after test (L !!! 0%nat) = l2) as [E1 E2].
  { rewrite HL0. by apply split_by_filter. }
  revert p pth. induction k as [|k IH]; intros p pth Hk Hp Hlen; simpl;
    rewrite advance_level by done.
  - rewrite E1, E2. eexists. split_and!; [done|by rewrite length_insert| |]; intros j Hj.
    + assert (j = O) as -> by lia. rewrite E1.
      apply list_lookup_total_insert_eq. rewrite Hlen. unfold SKIPLIST_LEVELS. lia.
    + apply list_lookup_total_insert_ne. lia.
  - destruct (IH (last_node (before test (L !!! S k)))
      (<[S k := Some (last_node (before test (L !!! S k)))]> pth))
      as (pth' & Hw & Hl & Hlow & Hhigh); [lia|by apply arrives_down|by rewrite length_insert|].
    exists pth'. split_and!; [done|done| |]; intros j Hj.
    + destruct (decide (j = S k)) as [->|]; [|apply Hlow; lia].
      rewrite Hhigh by lia. apply list_lookup_total_insert_eq. lia.
    + rewrite Hhigh by lia. apply list_lookup_total_insert_ne. lia.
Qed.
End Walk.

(** What a walk leaves in the [update] array. *)
Definition update_ok (sl : skiplist) (L : list (list nat)) (test : skiplist_node -> bool)
    (pth : path) : Prop :=
  length pth = SKIPLIST_LEVELS /\
  forall j, (j <= height sl)%nat -> pth !!! j = Some (last_node (before test (L !!! j))).

Lemma walk_top sl L test l1 l2 pth :
  skiplist_rep sl L -> L !!! 0%nat = l1 ++ l2 -> split_by test l1 l2 ->
  length pth = SKIPLIST_LEVELS ->
  exists pth', walk sl test (height sl) Sentinel pth = (last_node l1, Node <$> head l2, pth') /\
    update_ok sl L test pth'.
Proof.
  intros Hrep HL0 Hsp Hlen.
  destruct (walk_spec sl L test l1 l2 Hrep HL0 Hsp (height sl) Sentinel pth)
    as (pth' & Hw & Hl & Hlow & _); [apply (rep_height _ _ Hrep)|by left|done|].
  exists pth'. split; [done|]. by split.
Qed.

Section FindSpec.
Context {K : Type} (cmp : K -> skiplist_node -> Z).
Context (sl : skiplist) (L : list (list nat)) (key : K) (l1 l2 : list nat) (pth : path).
Context (Hrep : skiplist_rep sl L) (HL0 : L !!! 0%nat = l1 ++ l2)
        (Hlen : length pth = SKIPLIST_LEVELS).

Lemma skiplist_find_split :
  split_by (fun n => 0 <? cmp key n) l1 l2 ->
  exists pth', skiplist_find cmp sl key pth =
      (match head l2 with
       | Some n => if cmp key (Node n) =? 0 then Some (Node n) else None
       | None => None
       end, pth') /\
    update_ok sl L (fun n => 0 <? cmp key n) pth'.
Proof using Hrep HL0 Hlen.
  intros Hsp. destruct (walk_top sl L _ l1 l2 pth Hrep HL0 Hsp Hlen) as (pth' & Hw & Hok).
  exists pth'. unfold skiplist_find. rewrite Hw. split; [|done]. by destruct l2.
Qed.

Lemma skiplist_find_le_split :
  split_by (fun n => 0 <=? cmp key n) l1 l2 ->
  exists pth', skiplist_find_le cmp sl key pth = (Node <$> last l1, pth').
Proof using Hrep HL0 Hlen.
  intros Hsp. destruct (walk_top sl L _ l1 l2 pth Hrep HL0 Hsp Hlen) as (pth' & Hw & Hok).
  exists pth'. unfold skiplist_find_le. rewrite Hw. unfold last_node.
  by destruct (last l1).
Qed.

Lemma skiplist_find_ge_split :
  split_by (fun n => 0 <? cmp key n) l1 l2 ->
  exists pth', skiplist_find_ge cmp sl key pth = (Node <$> head l2, pth') /\
    update_ok sl L (fun n => 0 <? cmp key n) pth'.
Proof using Hrep HL0 Hlen.
  intros Hsp. destruct (walk_top sl L _ l1 l2 pth Hrep HL0 Hsp Hlen) as (pth' & Hw & Hok).
  exists pth'. unfold skiplist_find_ge. by rewrite Hw.
Qed.
End FindSpec.

(** ** Insertion *)

Definition ins (test : skiplist_node -> bool) (n : nat) (ns : list nat) : list nat :=
  before test ns ++ n :: after test ns.

Lemma random_level_bound rands : (__skiplist_random_level rands < SKIPLIST_LEVELS)%nat.
Proof.
  assert (forall fuel k rs, (random_level_loop k fuel rs <= k + fuel)%nat) as H.
  { induction fuel as [|f IH]; intros k [|[] rs]; simpl; try lia. specialize (IH (S k) rs). lia. }
  unfold __skiplist_random_level. specialize (H (SKIPLIST_LEVELS - 1)%nat 0%nat rands).
  unfold SKIPLIST_LEVELS in *. lia.
Qed.

Lemma link_levels_spec test n upd k sl Lc :
  heads sl = enc <$> Lc -> length Lc = SKIPLIST_LEVELS -> (k < SKIPLIST_LEVELS)%nat ->
  (forall j, (j <= k)%nat -> NoDup (Lc !!! j) /\
     Lc !!! j = before test (Lc !!! j) ++ after test (Lc !!! j) /\
     upd !!! j = Some (last_node (before test (Lc !!! j)))) ->
  exists sl' L', link_levels sl (Node n) upd k = Some sl' /\ height sl' = height sl /\
    heads sl' = enc <$> L' /\ length L' = SKIPLIST_LEVELS /\
    forall j, L' !!! j = if decide (j <= k)%nat then ins test n (Lc !!! j) else Lc !!! j.
Proof.
  revert sl Lc. induction k as [|k IH]; intros sl Lc Hh Hlen Hk Hj.
  all: match goal with |- context [link_levels _ _ _ ?k] =>
    destruct (Hj k (le_n _)) as (Hnd & E & Hu);
    assert (level sl k = enc (Lc !!! k)) as Hlev
      by (apply level_of_heads; [done|lia]);
    assert (heads (skiplist_add_after sl (last_node (before test (Lc !!! k))) (Node n) k)
      = enc <$> <[k := ins test n (Lc !!! k)]> Lc) as Hnew
      by (simpl; rewrite Hlev, E at 1; rewrite seq_add_after_last by (by rewrite <- E);
          rewrite Hh; symmetry; apply list_fmap_insert)
  end.
  - simpl. rewrite Hu. eexists _, _. split_and!; [done|done|exact Hnew|by rewrite length_insert|].
    intros j. case_decide.
    + assert (j = O) as -> by lia. apply list_lookup_total_insert_eq. lia.
    + apply list_lookup_total_insert_ne. lia.
  - cbn [link_levels]. rewrite Hu.
    destruct (IH _ _ Hnew) as (sl' & L' & Hl & Hht & Hhd & Hln & HL');
      [by rewrite length_insert|lia| |].
    { intros j Hjk. rewrite list_lookup_total_insert_ne by lia. apply Hj. lia. }
    exists sl', L'. split_and!; [done|done|done|done|]. intros j. rewrite HL'.
    destruct (decide (j = S k)) as [->|].
    + rewrite decide_False, decide_True by lia. apply list_lookup_total_insert_eq. lia.
    + rewrite list_lookup_total_insert_ne by done. by repeat case_decide; try lia.
Qed.

Lemma split_sublist test s s' :
  s `sublist_of` s' -> before test s `sublist_of` before test s' /\
  after test s `sublist_of` after test s'.
Proof.
  intros Hs. unfold before, after. split; by apply filter_sublist.
Qed.

(** The level a new node gets in a list of height [h]: the random one, or the first
    unused one below it. *)
Definition link_level (h : nat) (rands : list bool) : nat :=
  if (h <? __skiplist_random_level rands)%nat then S h else __skiplist_random_level rands.

(** The node is linked on the levels up to its own, and the others are as they
    were. *)
Lemma skiplist_link_levels sl L test l1 l2 n upd rands :
  skiplist_rep sl L -> L !!! 0%nat = l1 ++ l2 -> split_by test l1 l2 ->
  update_ok sl L test upd -> n ∉ l1 ++ l2 ->
  exists sl' L', skiplist_link sl (Node n) upd rands = Some sl' /\ skiplist_rep sl' L' /\
    forall j, L' !!! j = if decide (j <= link_level (height sl) rands)%nat then ins test n (L !!! j) else L !!! j.
Proof.
  intros Hrep HL0 Hsp [Hlen Hupd] Hn. pose proof (random_level_bound rands) as Hrb.
  unfold link_level. set (k := if (height sl <? __skiplist_random_level rands)%nat
            then S (height sl) else __skiplist_random_level rands).
  set (h := Nat.max (height sl) k). set (upd' := if (height sl <? __skiplist_random_level rands)%nat
            then <[k := Some Sentinel]> upd else upd).
  assert (skiplist_link sl (Node n) upd rands = link_levels (set_height sl h) (Node n) upd' k
          /\ (k < SKIPLIST_LEVELS)%nat /\ (k <= S (height sl))%nat /\
          (height sl < h -> h = k /\ k = S (height sl))%nat) as (-> & Hk & Hk1 & Hh).
  { unfold skiplist_link, k, upd', h, k.
    destruct (Nat.ltb_spec (height sl) (__skiplist_random_level rands)).
    - rewrite Nat.max_r by lia. split; [done|lia].
    - rewrite Nat.max_l by lia. split; [by destruct sl|lia]. }
  destruct (link_levels_spec test n upd' k (set_height sl h) L)
    as (sl' & L' & -> & Hht & Hhd & Hln & HL'); [apply Hrep|apply Hrep|done| |].
  { intros j Hj. split_and!.
    - eapply level_nodup; [done|lia].
    - eapply level_split; [done..|lia].
    - unfold upd'. destruct (Nat.ltb_spec (height sl) (__skiplist_random_level rands)).
      + destruct (decide (j = k)) as [->|].
        * rewrite list_lookup_total_insert_eq by lia. rewrite (rep_above _ _ Hrep); [done|lia].
        * rewrite list_lookup_total_insert_ne by done. apply Hupd. lia.
      + apply Hupd. lia. }
  assert (L' !!! 0%nat = l1 ++ n :: l2) as E0.
  { rewrite HL', decide_True by lia. unfold ins. rewrite HL0.
    by destruct (split_by_filter test l1 l2 Hsp) as [-> ->]. }
  exists sl', L'. split; [done|]. split; [|exact HL']. split; [done|done|..].
  - rewrite Hht. simpl. pose proof (rep_height _ _ Hrep). lia.
  - rewrite E0. pose proof (rep_nodup _ _ Hrep) as Hnd. rewrite HL0 in Hnd.
    apply NoDup_app. apply NoDup_app in Hnd as (Hn1 & Hn12 & Hn2).
    split_and!; [done| |constructor; [set_solver|done]]. set_solver.
  - intros j Hj. rewrite !HL'. pose proof (rep_sub _ _ Hrep j Hj) as Hs.
    destruct (split_sublist test _ _ Hs) as [Hb Ha].
    destruct (level_split sl L test l1 l2 Hrep HL0 Hsp j) as (E & _); [lia|].
    repeat case_decide; try lia; [|etrans; [exact Hs|]|done].
    + unfold ins. apply sublist_app; [done|]. by apply sublist_skip.
    + rewrite E at 1. unfold ins. apply sublist_app; [done|]. by apply sublist_cons.
  - intros j Hj. rewrite Hht in Hj. simpl in Hj. rewrite HL', decide_False by lia.
    apply (rep_above _ _ Hrep). lia.
  - rewrite Hht. simpl. rewrite HL'. case_decide as Hhk.
    { right. unfold ins. by destruct (before test (L !!! h)). }
    assert (h = height sl) as -> by lia. apply (rep_top _ _ Hrep).
Qed.

Lemma skiplist_link_spec sl L test l1 l2 n upd rands :
  skiplist_rep sl L -> L !!! 0%nat = l1 ++ l2 -> split_by test l1 l2 ->
  update_ok sl L test upd -> n ∉ l1 ++ l2 ->
  exists sl', skiplist_link sl (Node n) upd rands = Some sl' /\
    skiplist_contents sl' (l1 ++ n :: l2).
Proof.
  intros Hrep HL0 Hsp Hupd Hn.
  destruct (skiplist_link_levels sl L test l1 l2 n upd rands Hrep HL0 Hsp Hupd Hn) as (sl' & L' & -> & Hrep' & HL').
  exists sl'. split; [done|]. exists L'. split; [done|]. rewrite HL', decide_True by lia. unfold ins. rewrite HL0.
  by destruct (split_by_filter test l1 l2 Hsp) as [-> ->].
Qed.

(** ** Removal *)

Definition del (n : nat) (ns : list nat) : list nat := filter (fun m => m <> n) ns.

Lemma del_absent n ns : n ∉ ns -> del n ns = ns.
Proof. intros Hn. apply filter_all. rewrite Forall_forall. intros x Hx ->. done. Qed.

Lemma del_present n a b : n ∉ a -> n ∉ b -> del n (a ++ n :: b) = a ++ b.
Proof.
  intros Ha Hb. unfold del. rewrite filter_app, filter_cons_False by naive_solver.
  f_equal; by apply del_absent.
Qed.

Section EraseSpec.
Context (sl0 : skiplist) (L : list (list nat)) (test : skiplist_node -> bool).
Context (l1 l2 : list nat) (n : nat) (upd : path).
Context (Hrep : skiplist_rep sl0 L) (HL0 : L !!! 0%nat = l1 ++ n :: l2)
        (Hsp : split_by test l1 (n :: l2)) (Hupd : update_ok sl0 L test upd).

Lemma level_below d k : (k + d < SKIPLIST_LEVELS)%nat -> L !!! (k + d)%nat `sublist_of` L !!! k.
Proof using Hrep.
  induction d as [|d IH]; intros Hd; [by rewrite Nat.add_0_r|].
  rewrite Nat.add_succ_r. etrans; [apply (rep_sub _ _ Hrep); lia|apply IH; lia].
Qed.

Lemma absent_above k j : (k <= j)%nat -> n ∉ L !!! k -> n ∉ L !!! j.
Proof using Hrep.
  intros Hkj Hk Hj. destruct (decide (j < SKIPLIST_LEVELS)%nat).
  - apply Hk. eapply elem_of_sublist; [exact Hj|].
    replace j with (k + (j - k))%nat by lia. apply level_below. lia.
  - rewrite list_lookup_total_alt, lookup_ge_None_2 in Hj by (rewrite (rep_length _ _ Hrep); lia).
    by apply elem_of_nil in Hj.
Qed.

(** On every level the victim is either the node after the recorded one or
    absent. *)
Lemma level_victim k : (k < SKIPLIST_LEVELS)%nat ->
  (n ∉ before test (L !!! k)) /\
  ((exists tl, after test (L !!! k) = n :: tl /\ n ∉ tl) \/
   (head (after test (L !!! k)) <> Some n /\ n ∉ L !!! k)).
Proof using Hrep HL0 Hsp.
  clear Hupd upd. intros Hk.
  destruct (level_split sl0 L test _ _ Hrep HL0 Hsp k Hk) as (E & _ & Hb & Ha).
  pose proof (rep_nodup _ _ Hrep) as Hnd. rewrite HL0 in Hnd.
  apply NoDup_app in Hnd as (_ & Hd & [Hn2 _]%NoDup_cons).
  assert (n ∉ before test (L !!! k)) as Hnb.
  { intros Hx. apply (Hd n); [by eapply elem_of_sublist|set_solver]. }
  split; [done|]. inversion Ha as [|? s ? Hs Es|? s ? Hs Es]; subst.
  - left. exists s. split; [done|]. intros Hx. apply Hn2. by eapply elem_of_sublist.
  - assert (n ∉ after test (L !!! k)) as Hna.
    { intros Hx. apply Hn2. by eapply elem_of_sublist. }
    right. split; [|rewrite E; set_solver].
    intros Hh. apply Hna. by apply head_Some_elem_of.
Qed.

Lemma erase_levels_spec todo k sl Lc :
  (k + todo = S (height sl0))%nat ->
  heads sl = enc <$> Lc -> length Lc = SKIPLIST_LEVELS ->
  (forall j, Lc !!! j = if decide (j < k)%nat then del n (L !!! j) else L !!! j) ->
  exists sl' L', erase_levels sl (Node n) upd k todo = Some sl' /\ height sl' = height sl /\
    heads sl' = enc <$> L' /\ length L' = SKIPLIST_LEVELS /\ forall j, L' !!! j = del n (L !!! j).
Proof using Hrep HL0 Hsp Hupd.
  pose proof (rep_height _ _ Hrep) as Hht. destruct Hupd as [_ Hu].
  revert k sl Lc. induction todo as [|todo IH]; intros k sl Lc Hk Hh Hlen HLc; simpl.
  { exists sl, Lc. split_and!; [done..|]. intros j. rewrite HLc. case_decide; [done|].
    by rewrite (rep_above _ _ Hrep) by lia. }
  rewrite Hu by lia. assert (k < SKIPLIST_LEVELS)%nat as Hk8 by lia.
  destruct (level_split sl0 L test _ _ Hrep HL0 Hsp k Hk8) as (E & _).
  pose proof (level_nodup sl0 L Hrep k Hk8) as Hnd.
  assert (level sl k = enc (before test (L !!! k) ++ after test (L !!! k))) as Hlevk.
  { rewrite (level_of_heads sl Lc k) by (done || lia).
    rewrite HLc, decide_False by lia. by rewrite <- E. }
  unfold skiplist_next. rewrite Hlevk, seq_next_last by (by rewrite <- E).
  destruct (level_victim k Hk8) as (Hnb & [(tl & Ea & Hntl)|(Hhd & Habs)]).
  - rewrite decide_True by (by rewrite Ea).
    edestruct (IH (S k) (skiplist_del_from sl (Node n) k) (<[k := del n (L !!! k)]> Lc))
      as (sl' & L' & ? & ? & ? & ? & ?); [lia| |by rewrite length_insert| |by exists sl', L'].
    + simpl. rewrite Hlevk, Ea, seq_del_from_enc, Hh, list_fmap_insert by done. f_equal.
      rewrite E at 2. by rewrite Ea, del_present.
    + intros j. destruct (decide (j = k)) as [->|].
      * rewrite decide_True by lia. apply list_lookup_total_insert_eq. lia.
      * rewrite list_lookup_total_insert_ne by done. rewrite HLc. by repeat case_decide; try lia.
  - rewrite decide_False by (destruct (head _); simpl; congruence).
    exists sl, Lc. split_and!; [done..|]. intros j. rewrite HLc. case_decide; [done|].
    symmetry. apply del_absent. apply (absent_above k); [lia|done].
Qed.

Lemma reduce_height_spec sl L' h :
  heads sl = enc <$> L' -> length L' = SKIPLIST_LEVELS -> (h < SKIPLIST_LEVELS)%nat ->
  let h' := reduce_height sl h in
  (h' <= h)%nat /\ (h' = O \/ L' !!! h' <> []) /\
  forall j, (h' < j <= h)%nat -> L' !!! j = [].
Proof using.
  intros Hh Hlen. induction h as [|h IH]; intros Hlt; simpl.
  - split_and!; [lia|by left|lia].
  - unfold skiplist_next, seq_next. rewrite (level_of_heads sl L' (S h)) by (done || lia).
    simpl. destruct (L' !!! S h) as [|m tl] eqn:E; simpl.
    + destruct IH as (H1 & H2 & H3); [lia|]. split_and!; [lia|done|].
      intros j Hj. destruct (decide (j = S h)) as [->|]; [done|]. apply H3. lia.
    + split_and!; [lia|right; by rewrite E|lia].
Qed.

Lemma level_del j : (del n <$> L) !!! j = del n (L !!! j).
Proof using.
  rewrite !list_lookup_total_alt, list_lookup_fmap. by destruct (L !! j).
Qed.

(** The node is gone from every level that held it, and each level keeps all
    its other nodes. *)
Lemma skiplist_erase_levels :
  exists sl', skiplist_erase sl0 (Node n) upd = Some sl' /\ skiplist_rep sl' (del n <$> L).
Proof using Hrep HL0 Hsp Hupd.
  destruct (erase_levels_spec (S (height sl0)) 0 sl0 L) as (sl' & L' & He & Hht & Hhd & Hln & HL');
    [done|apply Hrep|apply Hrep|done|].
  unfold skiplist_erase. rewrite He. eexists. split; [done|].
  pose proof (rep_height _ _ Hrep) as Hh8. pose proof (rep_length _ _ Hrep) as Hl8.
  destruct (reduce_height_spec sl' L' (height sl')) as (Hr1 & Hr2 & Hr3); [done|done|lia|].
  assert (L' = del n <$> L) as <-.
  { apply list_eq_same_length with (length L); [by rewrite length_fmap|lia|].
    intros j x y Hj Hx Hy. apply list_lookup_fmap_Some in Hy as (z & -> & Hz).
    apply list_lookup_total_correct in Hx, Hz. by rewrite <- Hx, <- Hz. }
  split; simpl; [done|done|lia|..|done].
  - rewrite HL'. apply NoDup_filter, (rep_nodup _ _ Hrep).
  - intros k Hk. rewrite !HL'. apply (filter_sublist (fun m => m <> n)). by apply (rep_sub _ _ Hrep).
  - intros k Hk. destruct (decide (k <= height sl')%nat); [apply Hr3; lia|].
    rewrite HL', (rep_above _ _ Hrep); [done|lia].
Qed.

Lemma skiplist_erase_spec :
  exists sl', skiplist_erase sl0 (Node n) upd = Some sl' /\ skiplist_contents sl' (l1 ++ l2).
Proof using Hrep HL0 Hsp Hupd.
  destruct skiplist_erase_levels as (sl' & E & Hrep'). exists sl'. split; [done|]. exists (del n <$> L). split; [done|].
  pose proof (rep_nodup _ _ Hrep) as Hnd. rewrite HL0 in Hnd.
  rewrite level_del, HL0. apply NoDup_app in Hnd as (_ & Hd & [Hn2 _]%NoDup_cons).
  apply del_present; [|done]. intros Hx. apply (Hd n Hx). set_solver.
Qed.
End EraseSpec.

(** ** Initialisation and clearing *)

Lemma skiplist_init_contents : skiplist_contents skiplist_init [].
Proof.
  exists (replicate SKIPLIST_LEVELS []). split; [|done]. split; try done.
  - unfold SKIPLIST_LEVELS. simpl. lia.
  - constructor.
  - intros k Hk. rewrite !lookup_total_replicate_2 by (unfold SKIPLIST_LEVELS in *; lia). done.
  - intros k Hk. destruct (decide (k < SKIPLIST_LEVELS)%nat).
    + by rewrite lookup_total_replicate_2.
    + rewrite list_lookup_total_alt, lookup_ge_None_2; [done|]. rewrite length_replicate. lia.
  - by left.
Qed.

Lemma clear_level_nodes ns rest sl k :
  (k < length (heads sl))%nat -> level sl k = enc (ns ++ rest) ->
  foldl (fun sl n => if decide (n = Sentinel) then sl else skiplist_del_from sl n k)
    sl (Node <$> ns) = mk_skiplist (height sl) (<[k := enc rest]> (heads sl)).
Proof.
  revert sl. induction ns as [|n ns IH]; intros sl Hk Hl; simpl in *.
  - rewrite <- Hl. unfold level. rewrite list_insert_id; [by destruct sl|].
    by apply list_lookup_lookup_total_lt.
  - rewrite IH; simpl.
    + by rewrite list_insert_insert_eq.
    + by rewrite length_insert.
    + unfold level at 1. simpl. rewrite list_lookup_total_insert_eq by done. rewrite Hl.
      apply (seq_del_from_enc []). set_solver.
Qed.

Lemma clear_level_spec sl k ns :
  (k < length (heads sl))%nat -> level sl k = enc ns ->
  clear_level sl k = mk_skiplist (height sl) (<[k := enc []]> (heads sl)).
Proof.
  intros Hk Hl. unfold clear_level, skiplist_for_each. rewrite Hl. simpl.
  apply clear_level_nodes; [done|]. by rewrite app_nil_r.
Qed.

Lemma clear_levels_spec sl k L :
  heads sl = enc <$> L -> (k < length L)%nat ->
  height (clear_levels sl k) = height sl /\
  heads (clear_levels sl k) = enc <$> (replicate (S k) [] ++ drop (S k) L).
Proof.
  revert sl L. induction k as [|k IH]; intros sl L Hh Hk; cbn [clear_levels];
    (rewrite (clear_level_spec _ _ (L !!! _)) by
      (try apply level_of_heads; rewrite ?Hh, ?length_fmap; auto)).
  - split; [done|]. simpl. rewrite Hh. destruct L; [simpl in *; lia|done].
  - destruct (IH (mk_skiplist (height sl) (<[S k := enc []]> (heads sl))) (<[S k := []]> L))
      as [-> ->]; [by rewrite list_fmap_insert, <- Hh|rewrite length_insert; lia|].
    split; [done|]. f_equal. rewrite drop_insert_ge, Nat.sub_diag by lia.
    rewrite (drop_S L (L !!! S k) (S k)) by (by apply list_lookup_lookup_total_lt).
    rewrite (replicate_S_end (S k)), <- app_assoc. done.
Qed.

Lemma skiplist_clear_with_spec sl ns fn :
  skiplist_contents sl ns ->
  skiplist_clear_with sl fn = (skiplist_init, if fn then Node <$> ns else []).
Proof.
  intros (L & Hrep & <-). unfold skiplist_clear_with, skiplist_for_each.
  pose proof (rep_height _ _ Hrep) as Hh. pose proof (rep_length _ _ Hrep) as Hl.
  rewrite (level_enc sl L Hrep 0) by (unfold SKIPLIST_LEVELS; lia). f_equal.
  - destruct (clear_levels_spec sl (height sl) L) as [_ Hc]; [apply Hrep|lia|].
    unfold set_height. rewrite Hc. unfold skiplist_init.
    assert (drop (S (height sl)) L = replicate (SKIPLIST_LEVELS - S (height sl)) []) as ->.
    { apply list_eq. intros i. rewrite lookup_drop.
      destruct (decide (S (height sl) + i < SKIPLIST_LEVELS)%nat).
      - rewrite lookup_replicate_2 by lia.
        rewrite (list_lookup_lookup_total_lt L) by lia. f_equal. apply (rep_above _ _ Hrep). lia.
      - rewrite !lookup_ge_None_2; [done|rewrite length_replicate; lia|lia]. }
    rewrite <- replicate_add. replace (_ + _)%nat with SKIPLIST_LEVELS by lia. done.
  - destruct fn; [|done]. unfold enc. rewrite filter_cons_False by naive_solver.
    apply filter_all. rewrite Forall_fmap, Forall_forall. by intros x _.
Qed.

(** ** Searches over a list ordered by the callback *)

(** Along the list the sign of the comparison never grows: first the nodes the
    key is above, then the ones it matches, then the ones it is below. *)
Definition cmp_ordered {K} (cmp : K -> skiplist_node -> Z) (key : K) (ns : list nat) : Prop :=
  StronglySorted (fun a b => Z.sgn (cmp key (Node b)) <= Z.sgn (cmp key (Node a))) ns.

Lemma sorted_split (test : skiplist_node -> bool) ns :
  StronglySorted (fun a b => test (Node b) = true -> test (Node a) = true) ns ->
  ns = before test ns ++ after test ns /\ split_by test (before test ns) (after test ns).
Proof.
  induction 1 as [|x ns Hs [IH1 [IH2 IH3]] Hx]; [by repeat constructor|].
  unfold before, after, split_by in *. rewrite !filter_cons.
  destruct (test (Node x)) eqn:E; repeat case_decide; try congruence.
  - split_and!; [simpl; congruence|by constructor|done].
  - assert (filter (fun n => test (Node n) = true) ns = []) as Hnil.
    { apply filter_none. eapply Forall_impl; [exact Hx|]. intros y Hy Ht.
      specialize (Hy Ht). congruence. }
    rewrite Hnil in *. split_and!; [simpl in *; congruence|done|by constructor].
Qed.

Lemma cmp_ordered_split {K} (cmp : K -> skiplist_node -> Z) (key : K) ns (test : Z -> bool) :
  (forall a b, Z.sgn b <= Z.sgn a -> test b = true -> test a = true) -> cmp_ordered cmp key ns ->
  let t := fun n => test (cmp key n) in ns = before t ns ++ after t ns /\
  split_by t (before t ns) (after t ns).
Proof.
  intros Hm Ho t. apply sorted_split. unfold cmp_ordered in Ho.
  induction Ho as [|x l Hs IH Hf]; constructor; [done|].
  eapply Forall_impl; [exact Hf|]. intros y Hy. by apply Hm.
Qed.

Lemma head_filter_find (f : nat -> bool) ns :
  head (filter (fun n => f n = true) ns) = List.find f ns.
Proof.
  induction ns as [|x ns IH]; [done|]. rewrite filter_cons. simpl.
  destruct (f x); by case_decide.
Qed.

Lemma sgn_pos_mono a b : Z.sgn b <= Z.sgn a -> (0 <? b) = true -> (0 <? a) = true.
Proof. lia. Qed.
Lemma sgn_nonneg_mono a b : Z.sgn b <= Z.sgn a -> (0 <=? b) = true -> (0 <=? a) = true.
Proof. lia. Qed.

(** First node not below the key. *)
Lemma after_find {K} (cmp : K -> skiplist_node -> Z) (key : K) ns :
  head (after (fun n => 0 <? cmp key n) ns) = List.find (fun n => cmp key (Node n) <=? 0) ns.
Proof.
  rewrite <- head_filter_find. unfold after. f_equal. apply list_filter_iff. intros x. lia.
Qed.

(** If nothing before it matches, the first node not below the key decides
    whether the key is present. *)
Lemma find_eq_of_ge {K} (cmp : K -> skiplist_node -> Z) (key : K) ns :
  cmp_ordered cmp key ns ->
  match List.find (fun n => cmp key (Node n) <=? 0) ns with
  | Some n => if cmp key (Node n) =? 0 then Some (Node n) else None
  | None => None
  end = Node <$> List.find (fun n => cmp key (Node n) =? 0) ns.
Proof.
  induction 1 as [|x l Hs IH Hf]; [done|]. simpl.
  destruct (Z.leb_spec (cmp key (Node x)) 0), (Z.eqb_spec (cmp key (Node x)) 0); try done; try lia.
  symmetry. destruct (List.find (fun n => cmp key (Node n) =? 0) l) as [y|] eqn:E; [|done].
  apply List.find_some in E as [Hin E]. rewrite Forall_forall in Hf.
  specialize (Hf y (proj2 (list_elem_of_In _ _) Hin)). simpl in *. lia.
Qed.

Lemma walk_length sl test k p pth : length (snd (walk sl test k p pth)) = length pth.
Proof.
  revert p pth. induction k as [|k IH]; intros p pth; simpl;
    destruct (advance _ _ _) as [p' next]; simpl; by rewrite ?IH, length_insert.
Qed.

Lemma find_length {K} (cmp : K -> skiplist_node -> Z) sl key pth :
  length (snd (skiplist_find cmp sl key pth)) = length pth /\
  length (snd (skiplist_find_le cmp sl key pth)) = length pth /\
  length (snd (skiplist_find_ge cmp sl key pth)) = length pth.
Proof.
  unfold skiplist_find, skiplist_find_le, skiplist_find_ge.
  split_and!; match goal with |- context [walk ?a ?b ?c ?d ?e] =>
    pose proof (walk_length a b c d e); destruct (walk a b c d e) as [[p n] q] end; by destruct n.
Qed.

(** ** The interface clients use: operations on the sequence *)

Lemma contents_nodup sl ns : skiplist_contents sl ns -> NoDup ns.
Proof. intros (L & Hrep & <-). apply (rep_nodup _ _ Hrep). Qed.

Lemma contents_for_each sl ns :
  skiplist_contents sl ns -> skiplist_for_each sl 0 = Sentinel :: (Node <$> ns).
Proof.
  intros (L & Hrep & <-). unfold skiplist_for_each.
  rewrite (level_enc sl L Hrep 0); [done|]. unfold SKIPLIST_LEVELS. lia.
Qed.

Lemma contents_next sl l1 n l2 :
  skiplist_contents sl (l1 ++ n :: l2) -> skiplist_next sl (Node n) 0 = Node <$> head l2.
Proof.
  intros Hc. pose proof (contents_nodup _ _ Hc) as Hnd. destruct Hc as (L & Hrep & E).
  unfold skiplist_next, seq_next.
  rewrite (level_enc sl L Hrep 0) by (unfold SKIPLIST_LEVELS; lia). rewrite E, seq_after_enc.
  - by destruct l2.
  - apply NoDup_app in Hnd as (_ & Hd & _). intros Hx. apply (Hd n Hx). set_solver.
Qed.

Section Contents.
Context {K : Type} (cmp : K -> skiplist_node -> Z) (sl : skiplist) (key : K).

Lemma contents_find l1 l2 :
  skiplist_contents sl (l1 ++ l2) -> split_by (fun n => 0 <? cmp key n) l1 l2 ->
  fst (skiplist_find cmp sl key null_path) =
    match head l2 with
    | Some n => if cmp key (Node n) =? 0 then Some (Node n) else None
    | None => None
    end.
Proof.
  intros (L & Hrep & HL0) Hsp.
  by destruct (skiplist_find_split cmp sl L key l1 l2 null_path Hrep HL0 eq_refl Hsp) as (p & -> & _).
Qed.

Lemma contents_find_le l1 l2 :
  skiplist_contents sl (l1 ++ l2) -> split_by (fun n => 0 <=? cmp key n) l1 l2 ->
  fst (skiplist_find_le cmp sl key null_path) = Node <$> last l1.
Proof.
  intros (L & Hrep & HL0) Hsp.
  by destruct (skiplist_find_le_split cmp sl L key l1 l2 null_path Hrep HL0 eq_refl Hsp) as (p & ->).
Qed.

Lemma contents_find_ge l1 l2 pth :
  skiplist_contents sl (l1 ++ l2) -> split_by (fun n => 0 <? cmp key n) l1 l2 ->
  length pth = SKIPLIST_LEVELS ->
  fst (skiplist_find_ge cmp sl key pth) = Node <$> head l2.
Proof.
  intros (L & Hrep & HL0) Hsp Hlen.
  by destruct (skiplist_find_ge_split cmp sl L key l1 l2 pth Hrep HL0 Hlen Hsp) as (p & -> & _).
Qed.

Lemma contents_link l1 l2 n rands pth :
  skiplist_contents sl (l1 ++ l2) -> split_by (fun n => 0 <? cmp key n) l1 l2 -> n ∉ l1 ++ l2 ->
  length pth = SKIPLIST_LEVELS ->
  exists sl', skiplist_link sl (Node n) (snd (skiplist_find cmp sl key pth)) rands = Some sl' /\
    skiplist_contents sl' (l1 ++ n :: l2).
Proof.
  intros (L & Hrep & HL0) Hsp Hn Hlen.
  destruct (skiplist_find_split cmp sl L key l1 l2 pth Hrep HL0 Hlen Hsp) as (p & -> & Hok).
  by eapply skiplist_link_spec.
Qed.

Lemma contents_erase l1 n l2 pth :
  skiplist_contents sl (l1 ++ n :: l2) -> split_by (fun n => 0 <? cmp key n) l1 (n :: l2) ->
  length pth = SKIPLIST_LEVELS ->
  exists sl', skiplist_erase sl (Node n) (snd (skiplist_find cmp sl key pth)) = Some sl' /\
    skiplist_contents sl' (l1 ++ l2).
Proof.
  intros (L & Hrep & HL0) Hsp Hlen.
  destruct (skiplist_find_split cmp sl L key l1 (n :: l2) pth Hrep HL0 Hlen Hsp) as (p & -> & Hok).
  by eapply skiplist_erase_spec.
Qed.

(** Insertion and removal through a search, level by level. *)
Lemma levels_link L n rands :
  skiplist_rep sl L -> cmp_ordered cmp key (L !!! 0%nat) -> n ∉ L !!! 0%nat ->
  exists sl' L', skiplist_link sl (Node n) (snd (skiplist_find cmp sl key null_path)) rands = Some sl' /\
    skiplist_rep sl' L' /\
    forall j, L' !!! j =
      if decide (j <= link_level (height sl) rands)%nat then ins (fun m => 0 <? cmp key m) n (L !!! j) else L !!! j.
Proof.
  intros Hrep Ho Hn.
  destruct (cmp_ordered_split cmp key (L !!! 0%nat) (fun z => 0 <? z)) as [E Hsp]; [apply sgn_pos_mono|done|].
  destruct (skiplist_find_split cmp sl L key _ _ null_path Hrep E eq_refl Hsp) as (p & -> & Hok).
  rewrite E in Hn. by eapply skiplist_link_levels.
Qed.

Lemma levels_erase L n :
  skiplist_rep sl L -> cmp_ordered cmp key (L !!! 0%nat) ->
  fst (skiplist_find cmp sl key null_path) = Some (Node n) ->
  exists sl', skiplist_erase sl (Node n) (snd (skiplist_find cmp sl key null_path)) = Some sl' /\
    skiplist_rep sl' (del n <$> L).
Proof.
  intros Hrep Ho.
  destruct (cmp_ordered_split cmp key (L !!! 0%nat) (fun z => 0 <? z)) as [E Hsp]; [apply sgn_pos_mono|done|].
  simpl in *. set (l1 := before _ _) in *. destruct (after _ (L !!! 0%nat)) as [|m l2].
  - destruct (skiplist_find_split cmp sl L key _ _ null_path Hrep E eq_refl Hsp) as (p & -> & Hok). done.
  - destruct (skiplist_find_split cmp sl L key _ _ null_path Hrep E eq_refl Hsp) as (p & -> & Hok). simpl.
    zcases; intros; simplify_eq. by eapply skiplist_erase_levels.
Qed.
End Contents.

(** ** Properties *)

(** The search through the levels gives what a linear scan of the level-0
    sequence gives, for any number of levels: [skiplist_find] the first node
    that compares equal, [skiplist_find_le] the last node not above the key,
    [skiplist_find_ge] the first node not below it. *)
Theorem skiplist_find_linear {K} (cmp : K -> skiplist_node -> Z) sl ns (key : K) pth :
  skiplist_contents sl ns -> length pth = SKIPLIST_LEVELS -> cmp_ordered cmp key ns ->
  fst (skiplist_find cmp sl key pth) = Node <$> List.find (fun n => cmp key (Node n) =? 0) ns /\
  fst (skiplist_find_le cmp sl key pth) =
    Node <$> last (filter (fun n => (0 <=? cmp key (Node n)) = true) ns) /\
  fst (skiplist_find_ge cmp sl key pth) = Node <$> List.find (fun n => cmp key (Node n) <=? 0) ns.
Proof.
  intros (L & Hrep & HL0) Hlen Ho.
  destruct (cmp_ordered_split cmp key ns (fun z => 0 <? z)) as [E1 S1]; [apply sgn_pos_mono|done|].
  destruct (cmp_ordered_split cmp key ns (fun z => 0 <=? z)) as [E2 S2]; [apply sgn_nonneg_mono|done|].
  rewrite E1 in HL0. destruct (skiplist_find_split cmp sl L key _ _ pth Hrep HL0 Hlen S1) as (p1 & -> & _).
  destruct (skiplist_find_ge_split cmp sl L key _ _ pth Hrep HL0 Hlen S1) as (p3 & -> & _).
  rewrite <- E1, E2 in HL0.
  destruct (skiplist_find_le_split cmp sl L key _ _ pth Hrep HL0 Hlen S2) as (p2 & ->).
  rewrite after_find. split_and!; [by apply find_eq_of_ge|done|done].
Qed.

(** A concrete ordered list for the witnesses: node [n] carries the value [n]. *)
Definition cmp_val (key : Z) (n : skiplist_node) : Z :=
  match n with Sentinel => 0 | Node n => key - Z.of_nat n end.
Definition demo_add (sl : skiplist) (n : nat) (rands : list bool) : skiplist :=
  default skiplist_init
    (skiplist_link sl (Node n) (snd (skiplist_find cmp_val sl (Z.of_nat n) null_path)) rands).
Definition demo_list : skiplist :=
  demo_add (demo_add (demo_add skiplist_init 1 []) 5 [true; true]) 3 [true; false].

Lemma demo_contents : skiplist_contents demo_list [1; 3; 5]%nat.
Proof.
  exists [[1; 3; 5]; [3; 5]; []; []; []; []; []; []]%nat. split; [|done].
  split; try done.
  - unfold SKIPLIST_LEVELS. vm_compute. lia.
  - repeat constructor; set_solver.
  - intros k Hk. unfold SKIPLIST_LEVELS in Hk.
    do 7 (destruct k as [|k]; [by repeat constructor|]). lia.
  - intros k Hk. change (height demo_list) with 1%nat in Hk.
    do 8 (destruct k as [|k]; [lia || done|]). done.
  - by right.
Qed.

Lemma demo_ordered key : cmp_ordered cmp_val key [1; 3; 5]%nat.
Proof. unfold cmp_ordered, cmp_val. repeat constructor; lia. Qed.

Lemma skiplist_find_linear_witness :
  fst (skiplist_find cmp_val demo_list 3 null_path) = Some (Node 3) /\
  fst (skiplist_find_le cmp_val demo_list 4 null_path) = Some (Node 3) /\
  fst (skiplist_find_ge cmp_val demo_list 6 null_path) = None.
Proof.
  pose proof (skiplist_find_linear cmp_val demo_list [1; 3; 5]%nat 3 null_path
    demo_contents eq_refl (demo_ordered 3)) as (H3 & _ & _).
  pose proof (skiplist_find_linear cmp_val demo_list [1; 3; 5]%nat 4 null_path
    demo_contents eq_refl (demo_ordered 4)) as (_ & H4 & _).
  pose proof (skiplist_find_linear cmp_val demo_list [1; 3; 5]%nat 6 null_path
    demo_contents eq_refl (demo_ordered 6)) as (_ & _ & H6).
  split; [exact H3|split; [exact H4|exact H6]].
Defined.

(** Linking a new node with the [update] array of a search never touches a
    null entry, keeps the levels well formed, and puts the node at its place in
    the sequence, between the nodes below the key and the others, whatever
    level the random draw gives it. *)
Theorem skiplist_insert {K} (cmp : K -> skiplist_node -> Z) sl ns (key : K) n rands :
  skiplist_contents sl ns -> cmp_ordered cmp key ns -> n ∉ ns ->
  exists sl', skiplist_link sl (Node n) (snd (skiplist_find cmp sl key null_path)) rands = Some sl' /\
    skiplist_contents sl' (before (fun m => 0 <? cmp key m) ns ++ n :: after (fun m => 0 <? cmp key m) ns).
Proof.
  intros Hc Ho Hn.
  destruct (cmp_ordered_split cmp key ns (fun z => 0 <? z)) as [E Hsp]; [apply sgn_pos_mono|done|].
  simpl in *. rewrite E in Hc, Hn. by apply contents_link.
Qed.

Lemma skiplist_insert_witness : exists sl',
  skiplist_link demo_list (Node 4) (snd (skiplist_find cmp_val demo_list 4 null_path))
    [true; true; true; true] = Some sl' /\ skiplist_contents sl' [1; 3; 4; 5]%nat.
Proof.
  apply (skiplist_insert cmp_val demo_list [1; 3; 5]%nat 4 4 [true; true; true; true]
    demo_contents (demo_ordered 4)). set_solver.
Defined.

(** Erasing the node a search returned removes exactly that node from the
    sequence, on every level that holds it, and keeps the list well formed. *)
Theorem skiplist_remove {K} (cmp : K -> skiplist_node -> Z) sl ns (key : K) n :
  skiplist_contents sl ns -> cmp_ordered cmp key ns ->
  fst (skiplist_find cmp sl key null_path) = Some (Node n) ->
  exists sl', skiplist_erase sl (Node n) (snd (skiplist_find cmp sl key null_path)) = Some sl' /\
    skiplist_contents sl' (del n ns) /\ n ∈ ns.
Proof.
  intros Hc Ho. pose proof (contents_nodup _ _ Hc) as Hnd.
  destruct (cmp_ordered_split cmp key ns (fun z => 0 <? z)) as [E Hsp]; [apply sgn_pos_mono|done|].
  simpl in *. rewrite E in Hc, Hnd |- *. clear E. rewrite (contents_find cmp sl key _ _ Hc Hsp).
  set (l1 := before _ ns) in *. destruct (after _ ns) as [|m l2]; [done|]. simpl.
  zcases; intros; simplify_eq.
  destruct (contents_erase cmp sl key l1 n l2 null_path Hc Hsp eq_refl) as (sl' & -> & Hc').
  exists sl'. split; [done|]. split; [|set_solver].
  apply NoDup_app in Hnd as (_ & Hd & [Hn2 _]%NoDup_cons). rewrite del_present; [done| |done].
  intros Hx. apply (Hd n Hx). set_solver.
Qed.

Lemma skiplist_remove_witness : exists sl',
  skiplist_erase demo_list (Node 3) (snd (skiplist_find cmp_val demo_list 3 null_path)) = Some sl' /\
  skiplist_contents sl' [1; 5]%nat /\ 3%nat ∈ [1; 3; 5]%nat.
Proof.
  apply (skiplist_remove cmp_val demo_list [1; 3; 5]%nat 3 3 demo_contents (demo_ordered 3)).
  reflexivity.
Defined.
