(* ===== verification/CcanList.v ===== *)
(** * CcanList: ccan/ccan/list/list.{h,c}

    The intrusive doubly linked list every other list of the library is built
    from: the levels of a skip list, the containers, the iommufd devices and the
    controller handles.  Memory is a finite map from addresses to nodes and a
    statement of the C code is one access of it, in the order of the source; an
    access outside the map, and a failed assertion, is [Crash].  A [list_head]
    is a node at offset 0, so both have one address.

    [dlist m h l] says that memory [m] holds, at head [h], the list of the nodes
    [l].  The theorems show that the operations implement the operations on
    sequences the other files use, leaving the rest of memory alone, and that
    [list_check] accepts exactly the well-formed lists. *)

From S2P Require Import Prelude.
Local Open Scope Z_scope.
Local Open Scope vfn_scope.

(** ** Data *)

Abbreviation ptr := Z (only parsing).

Record list_node : Type := mk_list_node { next : ptr; prev : ptr }.

Abbreviation heap := (gmap Z list_node).

#[export] Instance list_node_eq_dec : EqDecision list_node.
Proof. solve_decision. Defined.

(** The fields of a node, [None] where there is no node. *)
Definition nxt (m : heap) (p : ptr) : option ptr := next <$> m !! p.
Definition prv (m : heap) (p : ptr) : option ptr := prev <$> m !! p.
Definition set_next (p v : ptr) (m : heap) : heap :=
  alter (fun nd => mk_list_node v (prev nd)) p m.
Definition set_prev (p v : ptr) (m : heap) : heap :=
  alter (fun nd => mk_list_node (next nd) v) p m.

(** Accesses of memory: reading and writing the fields of [*p]. *)
Definition load_next (p : ptr) : M heap ptr := fun m =>
  match nxt m p with Some q => (Ret q, m) | None => (Crash, m) end.
Definition load_prev (p : ptr) : M heap ptr := fun m =>
  match prv m p with Some q => (Ret q, m) | None => (Crash, m) end.
Definition store_next (p v : ptr) : M heap unit := fun m =>
  match m !! p with Some _ => (Ret tt, set_next p v m) | None => (Crash, m) end.
Definition store_prev (p v : ptr) : M heap unit := fun m =>
  match m !! p with Some _ => (Ret tt, set_prev p v m) | None => (Crash, m) end.

(** ** Operations *)

Definition list_head_init (h : ptr) : M heap unit :=
  do* store_prev h h in store_next h h.

Definition list_node_init (n : ptr) : M heap unit :=
  do* store_prev n n in store_next n n.

Definition list_add_after (p n : ptr) : M heap unit :=
  let* q := load_next p in
  do* store_next n q in
  do* store_prev n p in
  let* q := load_next p in
  do* store_prev q n in
  store_next p n.

Definition list_add (h n : ptr) : M heap unit := list_add_after h n.

Definition list_add_before (p n : ptr) : M heap unit :=
  do* store_next n p in
  let* q := load_prev p in
  do* store_prev n q in
  let* q := load_prev p in
  do* store_next q n in
  store_prev p n.

Definition list_add_tail (h n : ptr) : M heap unit := list_add_before h n.

Definition list_empty (h : ptr) : M heap bool :=
  let* q := load_next h in ret (q =? h).

Definition list_del (n : ptr) : M heap unit :=
  let* q := load_next n in
  let* p := load_prev n in
  do* store_prev q p in
  let* p := load_prev n in
  let* q := load_next n in
  store_next p q.

Definition list_del_init (n : ptr) : M heap unit :=
  do* list_del n in list_node_init n.

Definition list_del_from (h n : ptr) : M heap unit :=
  let* e := list_empty h in
  if e : bool then crash else list_del n.

(** [*n = *o] copies both fields. *)
Definition list_swap (o n : ptr) : M heap unit :=
  let* q := load_next o in
  let* p := load_prev o in
  do* store_next n q in
  do* store_prev n p in
  let* q := load_next n in
  do* store_prev q n in
  let* p := load_prev n in
  store_next p n.

(** Entries: the structure that holds the node at offset [off]; [None] is the
    null pointer. *)
Definition list_node_to_off (n off : Z) : ptr := n - off.
Definition list_node_from_off (e off : Z) : ptr := e + off.

Definition list_entry_or_null (h n off : Z) : option ptr :=
  if n =? h then None else Some (n - off).

Definition list_top (h off : Z) : M heap (option ptr) :=
  let* e := list_empty h in
  if e : bool then ret None
  else let* q := load_next h in ret (Some (q - off)).

Definition list_pop (h off : Z) : M heap (option ptr) :=
  let* e := list_empty h in
  if e : bool then ret None
  else let* n := load_next h in
       do* list_del n in
       ret (Some (n - off)).

Definition list_tail (h off : Z) : M heap (option ptr) :=
  let* e := list_empty h in
  if e : bool then ret None
  else let* q := load_prev h in ret (Some (q - off)).

Definition list_next (h i off : Z) : M heap (option ptr) :=
  let* q := load_next (i + off) in ret (list_entry_or_null h q off).

Definition list_prev (h i off : Z) : M heap (option ptr) :=
  let* q := load_prev (i + off) in ret (list_entry_or_null h q off).

Definition list_append_list (to from : ptr) : M heap unit :=
  let* from_tail := load_prev from in
  let* to_tail := load_prev to in
  do* store_prev to from_tail in
  do* store_next from_tail to in
  do* store_next to_tail from in
  do* store_prev from to_tail in
  do* list_del from in
  list_head_init from.

Definition list_prepend_list (to from : ptr) : M heap unit :=
  let* from_tail := load_prev from in
  let* to_head := load_next to in
  do* store_next to from in
  do* store_prev from to in
  do* store_prev to_head from_tail in
  do* store_next from_tail to_head in
  do* list_del from in
  list_head_init from.

(** ** Loops *)

(** How a loop body ends: [continue] (or its last statement), [break] (or
    [return]). *)
Inductive flow : Type := Continue | Break.

Section ForEach.
Context {S : Type} (mem : S -> heap).

(** A list operation in a state that contains memory, which it only reads. *)
Definition rd {A} (r : M heap A) : M S A := fun s =>
  match r (mem s) with
  | (Ret a, _) => (Ret a, s)
  | (Fail e, _) => (Fail e, s)
  | (Crash, _) => (Crash, s)
  end.

Context (body : ptr -> M S flow) (dir : ptr -> M heap ptr).

(** [list_for_each_off_dir_]; [dir] reads [next] or [prev].  Running out of
    [fuel] is [Crash]. *)
Fixpoint for_each_loop (fuel : nat) (h i off : Z) : M S flow :=
  if list_node_from_off i off =? h then ret Continue
  else match fuel with
  | O => crash
  | Datatypes.S fuel =>
      let* f := body i in
      match f with
      | Break => ret Break
      | Continue =>
          let* q := rd (dir (list_node_from_off i off)) in
          for_each_loop fuel h (list_node_to_off q off) off
      end
  end.

Definition list_for_each (fuel : nat) (h off : Z) : M S flow :=
  let* q := rd (dir h) in
  for_each_loop fuel h (list_node_to_off q off) off.

(** [list_for_each_safe_off_dir_]: the next entry is read before the body. *)
Fixpoint for_each_safe_loop (fuel : nat) (h i nx off : Z) : M S flow :=
  if list_node_from_off i off =? h then ret Continue
  else match fuel with
  | O => crash
  | Datatypes.S fuel =>
      let* f := body i in
      match f with
      | Break => ret Break
      | Continue =>
          let* q := rd (dir (list_node_from_off nx off)) in
          for_each_safe_loop fuel h nx (list_node_to_off q off) off
      end
  end.

Definition list_for_each_safe (fuel : nat) (h off : Z) : M S flow :=
  let* i := rd (dir h) in
  let* q := rd (dir (list_node_from_off (list_node_to_off i off) off)) in
  for_each_safe_loop fuel h (list_node_to_off i off) (list_node_to_off q off) off.
End ForEach.

(** ** list.c: consistency check *)

(** [corrupt]: the node and the count printed before [abort], or [NULL] when the
    caller gave no string. *)
Inductive check_result : Type :=
| Checked
| Corrupt (node : ptr) (count : Z)
| CheckFault
| CheckFuel.

Fixpoint check_loop (m : heap) (fuel : nat) (node p n count : Z) : check_result :=
  if n =? node then
    match prv m node with
    | None => CheckFault
    | Some q => if q =? p then Checked else Corrupt node 0
    end
  else match fuel with
  | O => CheckFuel
  | S fuel =>
      match prv m n, nxt m n with
      | Some q, Some n' =>
          if q =? p then check_loop m fuel node n n' (count + 1)
          else Corrupt n (count + 1)
      | _, _ => CheckFault
      end
  end.

Definition list_check_node (m : heap) (node : ptr) : check_result :=
  match nxt m node with
  | None => CheckFault
  | Some n => check_loop m (size m) node node n 0
  end.

(** Outcome for the caller: [abortstr] non-null ends the process, otherwise the
    result is null or the list. *)
Definition list_check (abortstr : bool) (h : ptr) : M heap (option ptr) := fun m =>
  match list_check_node m h with
  | Checked => (Ret (Some h), m)
  | Corrupt _ _ => if abortstr then (Crash, m) else (Ret None, m)
  | CheckFault | CheckFuel => (Crash, m)
  end.

(** ** Memory lemmas *)

Definition allocated (m : heap) (p : ptr) : Prop := is_Some (m !! p).

Lemma nxt_set_next_eq m p v : allocated m p -> nxt (set_next p v m) p = Some v.
Proof. intros [nd H]. unfold nxt, set_next. by rewrite lookup_alter_eq, H. Qed.
Lemma nxt_set_next_ne m p v q : q <> p -> nxt (set_next p v m) q = nxt m q.
Proof. intros H. unfold nxt, set_next. by rewrite lookup_alter_ne. Qed.
Lemma prv_set_prev_eq m p v : allocated m p -> prv (set_prev p v m) p = Some v.
Proof. intros [nd H]. unfold prv, set_prev. by rewrite lookup_alter_eq, H. Qed.
Lemma prv_set_prev_ne m p v q : q <> p -> prv (set_prev p v m) q = prv m q.
Proof. intros H. unfold prv, set_prev. by rewrite lookup_alter_ne. Qed.
Lemma nxt_set_prev m p v q : nxt (set_prev p v m) q = nxt m q.
Proof.
  unfold nxt, set_prev. destruct (decide (q = p)) as [->|].
  - rewrite lookup_alter_eq. by destruct (m !! p).
  - by rewrite lookup_alter_ne.
Qed.
Lemma prv_set_next m p v q : prv (set_next p v m) q = prv m q.
Proof.
  unfold prv, set_next. destruct (decide (q = p)) as [->|].
  - rewrite lookup_alter_eq. by destruct (m !! p).
  - by rewrite lookup_alter_ne.
Qed.

Lemma allocated_set_next m p v q : allocated (set_next p v m) q <-> allocated m q.
Proof. unfold allocated, set_next. by rewrite lookup_alter_is_Some. Qed.
Lemma allocated_set_prev m p v q : allocated (set_prev p v m) q <-> allocated m q.
Proof. unfold allocated, set_prev. by rewrite lookup_alter_is_Some. Qed.
Lemma nxt_allocated m p q : nxt m p = Some q -> allocated m p.
Proof. unfold nxt, allocated. destruct (m !! p); [eauto|done]. Qed.
Lemma prv_allocated m p q : prv m p = Some q -> allocated m p.
Proof. unfold prv, allocated. destruct (m !! p); [eauto|done]. Qed.

Lemma load_next_ok m p q : nxt m p = Some q -> load_next p m = (Ret q, m).
Proof. unfold load_next. by intros ->. Qed.
Lemma load_prev_ok m p q : prv m p = Some q -> load_prev p m = (Ret q, m).
Proof. unfold load_prev. by intros ->. Qed.
Lemma store_next_ok m p v : allocated m p -> store_next p v m = (Ret tt, set_next p v m).
Proof. unfold store_next. by intros [? ->]. Qed.
Lemma store_prev_ok m p v : allocated m p -> store_prev p v m = (Ret tt, set_prev p v m).
Proof. unfold store_prev. by intros [? ->]. Qed.

Create HintDb heap.
#[export] Hint Resolve nxt_allocated prv_allocated : heap.
Create Rewrite HintDb heap.
#[export] Hint Rewrite nxt_set_prev prv_set_next allocated_set_next allocated_set_prev : heap.
#[export] Hint Rewrite nxt_set_next_ne prv_set_prev_ne using congruence : heap.
#[export] Hint Rewrite nxt_set_next_eq prv_set_prev_eq
  using (autorewrite with heap; eauto with heap; fail) : heap.

(** Evaluate a field of an updated memory. *)
Ltac fields := autorewrite with heap; try (eassumption || reflexivity || (eauto with heap; fail)).

(** Run the next access. *)
Ltac access :=
  first [ erewrite bind_ret by (apply load_next_ok; fields)
        | erewrite bind_ret by (apply load_prev_ok; fields)
        | erewrite bind_ret by (apply store_next_ok; fields)
        | erewrite bind_ret by (apply store_prev_ok; fields)
        | rewrite store_next_ok by fields
        | rewrite store_prev_ok by fields ].
Ltac run := repeat access.

(** ** Representation *)

Definition link (m : heap) (p q : ptr) : Prop := nxt m p = Some q /\ prv m q = Some p.

(** The nodes [l] are linked, in this order, between [p] and [q]. *)
Fixpoint chain (m : heap) (p : ptr) (l : list ptr) (q : ptr) : Prop :=
  match l with
  | [] => link m p q
  | x :: l => link m p x /\ chain m x l q
  end.

(** A circular list, from any of its nodes; the list of head [h]. *)
Definition ring (m : heap) (c : list ptr) : Prop :=
  match c with
  | [] => False
  | p :: r => NoDup c /\ chain m p r p
  end.
Definition dlist (m : heap) (h : ptr) (l : list ptr) : Prop := ring m (h :: l).

(** Memory is the same outside [s], and every node is still there. *)
Definition only (s : list ptr) (m m' : heap) : Prop :=
  (forall q, allocated m' q <-> allocated m q) /\ forall q, q ∉ s -> m' !! q = m !! q.

Lemma links_app m p l1 x l2 q :
  chain m p (l1 ++ x :: l2) q <-> chain m p l1 x /\ chain m x l2 q.
Proof. revert p. induction l1 as [|y l1 IH]; intros p; simpl; [done|]. rewrite IH. tauto. Qed.

Lemma chain_frame m m' p l q :
  (forall x, x ∈ p :: l -> nxt m' x = nxt m x) ->
  (forall x, x ∈ l ++ [q] -> prv m' x = prv m x) ->
  chain m p l q -> chain m' p l q.
Proof.
  revert p. induction l as [|y l IH]; intros p Hn Hp; simpl.
  - intros [H1 H2]. split; [rewrite Hn by set_solver|rewrite Hp by set_solver]; done.
  - intros [[H1 H2] Hc]. split; [split; [rewrite Hn by set_solver|rewrite Hp by set_solver]; done|].
    apply IH; [set_solver..|done].
Qed.

Lemma chain_nodes m p l q x : chain m p l q -> x ∈ p :: l -> exists y, nxt m x = Some y.
Proof.
  revert p. induction l as [|y l IH]; simpl; intros p.
  - intros [H _] Hx. apply list_elem_of_singleton in Hx as ->. eauto.
  - intros [[H _] Hc] [->|Hx]%elem_of_cons; eauto.
Qed.

Lemma chain_first m p l q : chain m p l q -> nxt m p = Some (hd q l).
Proof. destruct l; simpl; [intros []|intros [[] _]]; done. Qed.

Lemma chain_last m p l q : chain m p l q -> prv m q = Some (default p (last l)).
Proof.
  revert p. induction l as [|y l IH]; intros p; simpl; [by intros []|].
  intros [_ Hc]. apply IH in Hc. rewrite last_cons. by destruct (last l).
Qed.

Lemma ring_rotate m a b : ring m (a ++ b) -> ring m (b ++ a).
Proof.
  destruct a as [|x a]; [by rewrite app_nil_r|]. destruct b as [|y b]; [by rewrite app_nil_r|].
  simpl. intros [Hnd Hc]. split.
  - by rewrite (Permutation_app_comm (y :: b) (x :: a)).
  - apply links_app in Hc as [H1 H2]. by apply links_app.
Qed.

Lemma only_refl s m : only s m m.
Proof. done. Qed.
Lemma only_set_next s m m' p v : p ∈ s -> only s m m' -> only s m (set_next p v m').
Proof.
  intros Hp [Ha Hm]. split; intros q; [by rewrite allocated_set_next|].
  intros Hq. unfold set_next. rewrite lookup_alter_ne by set_solver. auto.
Qed.
Lemma only_set_prev s m m' p v : p ∈ s -> only s m m' -> only s m (set_prev p v m').
Proof.
  intros Hp [Ha Hm]. split; intros q; [by rewrite allocated_set_prev|].
  intros Hq. unfold set_prev. rewrite lookup_alter_ne by set_solver. auto.
Qed.
Lemma only_trans s m1 m2 m3 : only s m1 m2 -> only s m2 m3 -> only s m1 m3.
Proof.
  intros [A1 H1] [A2 H2]. split; intros q; [by rewrite A2|].
  intros Hq. rewrite H2 by done. auto.
Qed.
Lemma only_weaken s s' m m' : (forall q, q ∈ s -> q ∈ s') -> only s m m' -> only s' m m'.
Proof. intros Hs [A H]. split; [done|]. intros q Hq. apply H. auto. Qed.
#[export] Hint Resolve only_refl only_set_next only_set_prev : heap.

(** Lists whose nodes an operation does not touch are left alone. *)
Lemma ring_agree m m' c : (forall q, q ∈ c -> m' !! q = m !! q) -> ring m c -> ring m' c.
Proof.
  intros H. destruct c as [|p r]; [done|]. simpl. intros [Hnd Hc]. split; [done|].
  eapply chain_frame; [| |exact Hc]; intros x Hx; unfold nxt, prv; rewrite H by set_solver; done.
Qed.

Lemma ring_frame s m m' c : only s m m' -> (forall q, q ∈ c -> q ∉ s) -> ring m c -> ring m' c.
Proof. intros [_ H] Hd. apply ring_agree. intros q Hq. by apply H, Hd. Qed.

Lemma ring_allocated m c p : ring m c -> p ∈ c -> allocated m p.
Proof.
  destruct c as [|x r]; [done|]. intros [_ Hc] Hp.
  destruct (chain_nodes m x r x p Hc Hp) as [y Hy]. eauto with heap.
Qed.

(** ** The operations on a circular list *)

(** Close the frame condition of a block of stores. *)
Ltac frame := repeat first
  [ apply only_set_next; [set_solver|] | apply only_set_prev; [set_solver|] ]; try apply only_refl.

(** A field the stores did not reach, a part of the chain they did not reach. *)
Ltac elsewhere :=
  repeat first [rewrite nxt_set_prev | rewrite prv_set_next
               | rewrite nxt_set_next_ne by set_solver | rewrite prv_set_prev_ne by set_solver]; done.
Ltac unreached :=
  match goal with
  | H : chain _ _ _ _ |- chain _ _ _ _ =>
      eapply chain_frame; [| |exact H]; intros ? ?; elsewhere
  end.

Lemma insert_after_ring m p r n :
  ring m (p :: r) -> n ∉ p :: r -> allocated m n ->
  exists m', list_add_after p n m = (Ret tt, m') /\ ring m' (p :: n :: r) /\ only (n :: p :: r) m m'.
Proof.
  intros [Hnd Hc] Hn Ha. apply not_elem_of_cons in Hn as [Hnp Hnr]. unfold list_add_after.
  pose proof (chain_first _ _ _ _ Hc) as Hf.
  assert (allocated m p) as Hap by eauto with heap.
  destruct r as [|y r]; simpl in *.
  - run. eexists. split; [done|]. split; [|frame].
    split; [apply NoDup_cons; split; [set_solver|apply NoDup_singleton]|].
    repeat split; fields.
  - destruct Hc as [[_ Hpy] Hc]. assert (allocated m y) as Hay by eauto with heap.
    apply not_elem_of_cons in Hnr as [Hny Hnr].
    apply NoDup_cons in Hnd as [Hp Hnd]. apply not_elem_of_cons in Hp as [Hpy' Hp].
    run. eexists. split; [done|]. split; [|frame].
    split; [apply NoDup_cons; split; [set_solver|apply NoDup_cons; split; [set_solver|done]]|].
    split; [split; fields|]. split; [split; fields|].
    apply NoDup_cons in Hnd as [Hy Hnd]. unreached.
Qed.

Lemma insert_before_ring m p r n :
  ring m (p :: r) -> n ∉ p :: r -> allocated m n ->
  exists m', list_add_before p n m = (Ret tt, m') /\ ring m' (p :: r ++ [n]) /\ only (n :: p :: r) m m'.
Proof.
  intros [Hnd Hc] Hn Ha. apply not_elem_of_cons in Hn as [Hnp Hnr]. unfold list_add_before.
  pose proof (chain_last _ _ _ _ Hc) as Hl.
  assert (allocated m p) as Hap by eauto with heap.
  destruct r as [|y r _] using rev_ind; simpl in *.
  - run. eexists. split; [done|]. split; [|frame].
    split; [apply NoDup_cons; split; [set_solver|apply NoDup_singleton]|].
    repeat split; fields.
  - rewrite last_snoc in Hl. simpl in Hl. apply links_app in Hc as [Hc [Hy _]].
    assert (allocated m y) as Hay by eauto with heap.
    apply NoDup_cons in Hnd as [Hp Hnd]. rewrite NoDup_app in Hnd. destruct Hnd as (Hnd & Hd & _).
    assert (n <> y /\ p <> y /\ y ∉ r) as (Hny & Hpy & Hyr) by set_solver.
    run. eexists. split; [done|]. split; [|frame].
    split.
    { rewrite app_comm_cons. apply NoDup_app. split.
      - apply NoDup_cons. split; [done|]. apply NoDup_app. split; [done|]. split; [done|].
        apply NoDup_singleton.
      - split; [set_solver|apply NoDup_singleton]. }
    rewrite <- app_assoc. simpl. apply links_app. split; [unreached|].
    split; split; fields.
Qed.

Lemma delete_ring m n r :
  ring m (n :: r) -> r <> [] ->
  exists m', list_del n m = (Ret tt, m') /\ ring m' r /\ only r m m'.
Proof.
  intros [Hnd Hc] Hr. unfold list_del.
  pose proof (chain_first _ _ _ _ Hc) as Hf. pose proof (chain_last _ _ _ _ Hc) as Hl.
  apply NoDup_cons in Hnd as [Hn Hnd].
  destruct r as [|y r]; [done|]. simpl in *. destruct Hc as [[_ Hny] Hc].
  assert (allocated m y) as Hay by eauto with heap. apply not_elem_of_cons in Hn as [Hny' Hn].
  destruct r as [|z r _] using rev_ind; simpl in *.
  - run. eexists. split; [done|]. split; [|frame].
    split; [done|]. split; fields.
  - rewrite app_comm_cons, last_snoc in Hl. simpl in Hl. apply links_app in Hc as [Hc [Hz _]].
    assert (allocated m z) as Haz by eauto with heap.
    pose proof Hnd as Hnd'. rewrite NoDup_cons, NoDup_app in Hnd'. destruct Hnd' as (Hy & _ & Hzr & _).
    assert (n <> z /\ y <> z /\ z ∉ r) as (Hnz & Hyz & Hzr') by set_solver.
    run. eexists. split; [done|]. split; [|frame].
    split; [done|]. apply links_app. split; [unreached|].
    split; fields.
Qed.

Lemma replace_ring m o r n :
  ring m (o :: r) -> r <> [] -> n ∉ o :: r -> allocated m n ->
  exists m', list_swap o n m = (Ret tt, m') /\ ring m' (n :: r) /\ only (n :: r) m m'.
Proof.
  intros [Hnd Hc] Hr Hn Ha. unfold list_swap.
  pose proof (chain_first _ _ _ _ Hc) as Hf. pose proof (chain_last _ _ _ _ Hc) as Hl.
  apply NoDup_cons in Hnd as [Ho Hnd]. apply not_elem_of_cons in Hn as [Hno Hn].
  destruct r as [|y r]; [done|]. simpl in *. destruct Hc as [[_ Hoy] Hc].
  assert (allocated m y) as Hay by eauto with heap. apply not_elem_of_cons in Ho as [Hoy' Ho].
  apply not_elem_of_cons in Hn as [Hny Hn].
  destruct r as [|z r _] using rev_ind; simpl in *.
  - run. eexists. split; [done|]. split; [|frame].
    split; [apply NoDup_cons; split; [set_solver|done]|]. repeat split; fields.
  - rewrite app_comm_cons, last_snoc in Hl. simpl in Hl. apply links_app in Hc as [Hc [Hz _]].
    assert (allocated m z) as Haz by eauto with heap.
    pose proof Hnd as Hnd'. rewrite NoDup_cons, NoDup_app in Hnd'. destruct Hnd' as (Hy & _ & Hzr & _).
    assert (n <> z /\ y <> z /\ o <> z /\ z ∉ r) as (Hnz & Hyz & Hoz & Hzr') by set_solver.
    run. eexists. split; [done|]. split; [|frame].
    split; [apply NoDup_cons; split; [set_solver|done]|].
    split; [split; fields|]. apply links_app. split; [unreached|]. split; fields.
Qed.

(** The last link of a chain leads elsewhere. *)
Lemma chain_retarget m m' p l q q' :
  NoDup (p :: l) -> chain m p l q ->
  (forall x, x ∈ p :: l -> x <> default p (last l) -> nxt m' x = nxt m x) ->
  (forall x, x ∈ l -> prv m' x = prv m x) ->
  link m' (default p (last l)) q' -> chain m' p l q'.
Proof.
  revert p. induction l as [|y l IH]; intros p Hnd Hc Hn Hp Hq; simpl in *; [done|].
  destruct Hc as [[H1 H2] Hc]. apply NoDup_cons in Hnd as [Hpl Hnd].
  assert (default y (last l) ∈ y :: l) as Hz.
  { destruct (last l) as [z|] eqn:E; simpl; [apply last_Some in E as [? ->]|]; set_solver. }
  rewrite last_cons in Hn, Hq.
  replace (default p _) with (default y (last l)) in Hn, Hq by (by destruct (last l)).
  split.
  - split; [rewrite Hn by set_solver|rewrite Hp by set_solver]; done.
  - apply IH; [done..|set_solver|set_solver|done].
Qed.

Lemma last_default_elem (p : ptr) l : default p (last l) ∈ p :: l.
Proof. destruct (last l) as [z|] eqn:E; simpl; [apply last_Some in E as [? ->]|]; set_solver. Qed.

Lemma nodup_disjoint_app (t f : ptr) l1 l2 :
  NoDup (t :: l1) -> NoDup (f :: l2) -> (forall q, q ∈ t :: l1 -> q ∉ f :: l2) ->
  NoDup (f :: l2 ++ t :: l1).
Proof. intros H1 H2 Hd. rewrite app_comm_cons. apply NoDup_app. split_and!; [done| |done]. intros x Hx Hx'. exact (Hd x Hx' Hx). Qed.

(** [list_head_init] makes any node an empty list. *)
Lemma init_ring m h : allocated m h ->
  exists m', list_head_init h m = (Ret tt, m') /\ ring m' [h] /\ only [h] m m'.
Proof.
  intros Ha. unfold list_head_init. run. eexists. split; [done|]. split; [|frame].
  split; [apply NoDup_singleton|]. split; fields.
Qed.

Section Join.
Context (m : heap) (t f : ptr) (l1 l2 : list ptr).
Context (Ht : ring m (t :: l1)) (Hf : ring m (f :: l2)) (Hd : forall q, q ∈ t :: l1 -> q ∉ f :: l2).

(** Remove the head [f] from the joined ring and make it an empty list. *)
Lemma unhook m1 c :
  ring m1 (f :: c) -> c <> [] -> only (t :: l1 ++ f :: l2) m m1 -> (forall q, q ∈ c <-> q ∈ t :: l1 ++ l2) ->
  exists m', (do* list_del f in list_head_init f) m1 = (Ret tt, m') /\ ring m' c /\ ring m' [f] /\
    only (t :: l1 ++ f :: l2) m m'.
Proof.
  intros Hr Hc Ho He.
  destruct (delete_ring m1 f c Hr Hc) as (m2 & E2 & Hr2 & Ho2).
  assert (f ∉ c) as Hfc by (destruct Hr as [Hnd _]; by apply NoDup_cons in Hnd as [? _]).
  assert (allocated m2 f) as Haf.
  { apply Ho2. eapply ring_allocated; [exact Hr|set_solver]. }
  destruct (init_ring m2 f Haf) as (m3 & E3 & Hr3 & Ho3).
  exists m3. split; [by erewrite bind_ret by exact E2|]. split; [|split; [done|]].
  - eapply ring_frame; [exact Ho3|set_solver|done].
  - eapply only_trans; [exact Ho|]. eapply only_trans; (eapply only_weaken; [|eassumption]); set_solver.
Qed.

Lemma append_ring :
  exists m', list_append_list t f m = (Ret tt, m') /\ ring m' (t :: l1 ++ l2) /\ ring m' [f] /\
    only (t :: l1 ++ f :: l2) m m'.
Proof using Ht Hf Hd.
  destruct Ht as [Hnd1 Hc1], Hf as [Hnd2 Hc2].
  pose proof (chain_last _ _ _ _ Hc1) as Hl1. pose proof (chain_last _ _ _ _ Hc2) as Hl2.
  pose proof (last_default_elem t l1) as Hz1. pose proof (last_default_elem f l2) as Hz2.
  remember (default t (last l1)) as z1 eqn:E1. remember (default f (last l2)) as z2 eqn:E2.
  assert (allocated m z1) as Ha1 by (eapply ring_allocated; [exact Ht|done]).
  assert (allocated m z2) as Ha2 by (eapply ring_allocated; [exact Hf|done]).
  assert (forall a b, a ∈ t :: l1 -> b ∈ f :: l2 -> a <> b) as Hab by (intros a b Ha Hb ->; exact (Hd b Ha Hb)).
  assert (t <> f /\ z1 <> z2 /\ z1 <> f /\ t <> z2) as (N1 & N2 & N3 & N4)
    by (split_and!; apply Hab; done || apply elem_of_cons; by left).
  unfold list_append_list. run.
  edestruct (unhook (set_prev f z1 (set_next z1 f (set_next z2 t (set_prev t z2 m)))) (l2 ++ t :: l1))
    as (m' & E & Hr & Hr' & Ho); [| | | |exists m'; split; [|split; [|done]]].
  - split; [by apply nodup_disjoint_app|]. apply links_app. split.
    + eapply chain_retarget; [done|exact Hc2| | |]; rewrite <- ?E2.
      * intros x Hx Hne. elsewhere.
      * intros x Hx. apply NoDup_cons in Hnd2 as [Hf2 _].
        elsewhere.
      * split; fields. 
    + eapply chain_retarget; [done|exact Hc1| | |]; rewrite <- ?E1.
      * intros x Hx Hne. elsewhere.
      * intros x Hx. apply NoDup_cons in Hnd1 as [Hf1 _].
        elsewhere.
      * split; fields.
  - by destruct l2.
  - frame.
  - set_solver.
  - exact E.
  - by apply (ring_rotate m' l2 (t :: l1)) in Hr.
Qed.

Lemma prepend_ring :
  exists m', list_prepend_list t f m = (Ret tt, m') /\ ring m' (t :: l2 ++ l1) /\ ring m' [f] /\
    only (t :: l1 ++ f :: l2) m m'.
Proof using Ht Hf Hd.
  destruct Ht as [Hnd1 Hc1], Hf as [Hnd2 Hc2].
  pose proof (chain_first _ _ _ _ Hc1) as Hl1. pose proof (chain_last _ _ _ _ Hc2) as Hl2.
  pose proof (last_default_elem f l2) as Hz2. remember (default f (last l2)) as z2 eqn:E2.
  assert (allocated m z2) as Ha2 by (eapply ring_allocated; [exact Hf|done]).
  assert (allocated m t) as Hat by eauto with heap.
  assert (forall a b, a ∈ t :: l1 -> b ∈ f :: l2 -> a <> b) as Hab by (intros a b Ha Hb ->; exact (Hd b Ha Hb)).
  assert (t <> f /\ t <> z2 /\ hd t l1 <> f /\ hd t l1 <> z2) as (N1 & N2 & N3 & N4)
    by (split_and!; apply Hab; done || (destruct l1; set_solver)).
  assert (allocated m (hd t l1)) as Hay by (eapply ring_allocated; [exact Ht|destruct l1; set_solver]).
  unfold list_prepend_list. run.
  edestruct (unhook (set_next z2 (hd t l1) (set_prev (hd t l1) z2 (set_prev f t (set_next t f m)))) (l2 ++ l1 ++ [t]))
    as (m' & E & Hr & Hr' & Ho); [| | | |exists m'; split; [|split; [|done]]].
  - split; [by rewrite <- Permutation_cons_append; apply nodup_disjoint_app|].
    assert (chain (set_next z2 (hd t l1) (set_prev (hd t l1) z2 (set_prev f t (set_next t f m)))) f l2 (hd t l1)) as H2.
    { eapply chain_retarget; [done|exact Hc2| | |]; rewrite <- ?E2.
      - intros x Hx Hne. elsewhere.
      - intros x Hx. apply NoDup_cons in Hnd2 as [Hf2 _].
        assert (x <> hd t l1) by (apply not_eq_sym, Hab; destruct l1; set_solver). elsewhere.
      - split; fields. }
    destruct l1 as [|y l]; simpl in *; apply links_app; (split; [exact H2|]).
    + split; fields.
    + destruct Hc1 as [[_ Hty] Hc1]. apply NoDup_cons in Hnd1 as [Ht1 Hnd1].
      apply NoDup_cons in Hnd1 as [Hy1 Hnd1]. apply links_app. split; [unreached|split; fields].
  - by destruct l2, l1.
  - destruct l1; simpl; frame.
  - set_solver.
  - exact E.
  - rewrite app_assoc in Hr. by apply (ring_rotate m' (l2 ++ l1) [t]) in Hr.
Qed.
End Join.

(** ** The consistency check *)

Lemma nodup_size (m : heap) l : NoDup l -> (forall x, x ∈ l -> allocated m x) -> (length l <= size m)%nat.
Proof.
  intros Hnd Ha. rewrite <- (size_dom m). rewrite <- (size_list_to_set (C := gset Z) l Hnd).
  apply subseteq_size. intros x. rewrite elem_of_list_to_set, elem_of_dom. apply Ha.
Qed.

Lemma ring_size m c : ring m c -> (length c <= size m)%nat.
Proof.
  intros Hr. apply nodup_size; [destruct c; [done|apply Hr]|]. intros x Hx. by eapply ring_allocated.
Qed.

Lemma chain_prev m p l q x : chain m p l q -> x ∈ l ++ [q] -> exists y, y ∈ p :: l /\ prv m x = Some y.
Proof.
  revert p. induction l as [|y l IH]; simpl; intros p.
  - intros [_ H] ->%list_elem_of_singleton. exists p. set_solver.
  - intros [[_ H] Hc] [->|Hx]%elem_of_cons; [exists p; set_solver|].
    destruct (IH y Hc Hx) as (z & Hz & E). exists z. set_solver.
Qed.

(** What the loop has seen: the nodes [v] after [node], of which [p] is the
    last, are linked and distinct. *)
Definition seen (m : heap) (node p : ptr) (v : list ptr) : Prop :=
  NoDup (node :: v) /\ (forall x, x ∈ node :: v -> allocated m x) /\
  match last v with
  | None => p = node
  | Some q => p = q /\ exists v', v = v' ++ [q] /\ chain m node v' q
  end.

Lemma seen_next m node p v n n' :
  seen m node p v -> nxt m p = Some n -> n <> node -> prv m n = Some p -> nxt m n = Some n' ->
  seen m node n (v ++ [n]).
Proof.
  intros (Hnd & Ha & Hv) Hn Hne Hp Hn'.
  assert (n ∉ v) as Hnv.
  { destruct v as [|q v' _] using rev_ind; [set_solver|]. rewrite last_snoc in Hv.
    destruct Hv as (-> & w & [<- _]%app_inj_tail & Hc). intros Hx.
    destruct (chain_prev _ _ _ _ _ Hc Hx) as (y & Hy & E). assert (y = q) as -> by congruence.
    rewrite app_comm_cons, NoDup_app in Hnd. destruct Hnd as (_ & Hd & _). apply (Hd q Hy). set_solver. }
  split_and!.
  - rewrite app_comm_cons. apply NoDup_app. split; [done|]. split; [set_solver|apply NoDup_singleton].
  - intros x. rewrite app_comm_cons, elem_of_app, list_elem_of_singleton. intros [Hx| ->]; eauto with heap.
  - rewrite last_snoc. split; [done|]. exists v. split; [done|].
    destruct (last v) as [q|] eqn:E.
    + destruct Hv as (-> & v' & -> & Hc). by apply links_app.
    + apply last_None in E as ->. subst p. done.
Qed.

Lemma check_loop_sound m node fuel v p n count :
  seen m node p v -> nxt m p = Some n -> (size m <= fuel + length v)%nat ->
  check_loop m fuel node p n count <> CheckFuel /\
  (check_loop m fuel node p n count = Checked -> exists l, dlist m node l).
Proof.
  revert v p n count. induction fuel as [|fuel IH]; intros v p n count Hs Hn Hf; simpl.
  all: destruct (Z.eqb_spec n node) as [->|Hne].
  1,3: destruct (prv m node) as [q|] eqn:Eq; [|done]; destruct (Z.eqb_spec q p) as [->|]; [|done];
    split; [done|intros _; exists v; destruct Hs as (Hnd & _ & Hv); split; [done|]];
    destruct (last v) as [q|] eqn:E;
    [destruct Hv as (-> & v' & -> & Hc); by apply links_app | by apply last_None in E as ->; subst p].
  - exfalso. destruct Hs as (Hnd & Ha & _). pose proof (nodup_size m _ Hnd Ha) as H. simpl in *. lia.
  - destruct (prv m n) as [q|] eqn:Eq; [|done]. destruct (nxt m n) as [n'|] eqn:En; [|done].
    destruct (Z.eqb_spec q p) as [->|]; [|done].
    apply (IH (v ++ [n])); [by eapply seen_next|done|]. rewrite length_app. simpl. lia.
Qed.

Lemma check_loop_complete m node fuel r p count :
  chain m p r node -> node ∉ r -> (length r <= fuel)%nat ->
  check_loop m fuel node p (hd node r) count = Checked.
Proof.
  revert p fuel count. induction r as [|y r IH]; intros p fuel count Hc Hn Hf; simpl in *.
  - destruct Hc as [_ H]. destruct fuel; simpl; by rewrite Z.eqb_refl, H, Z.eqb_refl.
  - destruct fuel as [|fuel]; [lia|]. destruct Hc as [[_ H] Hc]. simpl.
    apply not_elem_of_cons in Hn as [Hne Hn].
    rewrite (proj2 (Z.eqb_neq y node)), H, (chain_first _ _ _ _ Hc), Z.eqb_refl by done.
    apply IH; [done..|lia].
Qed.

Lemma list_check_node_exact m h :
  list_check_node m h <> CheckFuel /\ (list_check_node m h = Checked <-> exists l, dlist m h l).
Proof.
  unfold list_check_node. split; [|split].
  - destruct (nxt m h) as [n|] eqn:E; [|done]. apply (check_loop_sound m h (size m) []); [|done|simpl; lia].
    split_and!; [apply NoDup_singleton| |done]. intros x ->%list_elem_of_singleton. eauto with heap.
  - destruct (nxt m h) as [n|] eqn:E; [|done]. apply (check_loop_sound m h (size m) []); [|done|simpl; lia].
    split_and!; [apply NoDup_singleton| |done]. intros x ->%list_elem_of_singleton. eauto with heap.
  - intros [l Hl]. pose proof (ring_size _ _ Hl) as Hs. destruct Hl as [Hnd Hc].
    rewrite (chain_first _ _ _ _ Hc). apply NoDup_cons in Hnd as [Hn _].
    apply check_loop_complete; [done..|simpl in Hs; lia].
Qed.

(** A list has one sequence of nodes. *)
Lemma chain_unique m p l l' q :
  chain m p l q -> chain m p l' q -> q ∉ l -> q ∉ l' -> l = l'.
Proof.
  revert p l'. induction l as [|x l IH]; intros p [|x' l'] Hc Hc' Hq Hq'; [done|..];
    pose proof (chain_first _ _ _ _ Hc) as H; pose proof (chain_first _ _ _ _ Hc') as H'; simpl in *.
  - assert (x' = q) by congruence. set_solver.
  - assert (x = q) by congruence. set_solver.
  - assert (x' = x) as -> by congruence. f_equal. apply (IH x); [apply Hc|apply Hc'|set_solver..].
Qed.

Lemma dlist_unique m h l l' : dlist m h l -> dlist m h l' -> l = l'.
Proof.
  intros [Hn Hc] [Hn' Hc']. apply NoDup_cons in Hn as [Hn _]. apply NoDup_cons in Hn' as [Hn' _].
  by eapply chain_unique.
Qed.

(** ** Reading a list *)

Lemma dlist_rev m h l : dlist m h l -> exists q, prv m h = Some q /\ q = default h (last l).
Proof. intros [_ Hc]. eexists. split; [by eapply chain_last|done]. Qed.

Lemma list_empty_spec m h l : dlist m h l -> list_empty h m = (Ret (bool_decide (l = [])), m).
Proof.
  intros [Hnd Hc]. unfold list_empty. erewrite bind_ret by (apply load_next_ok, (chain_first _ _ _ _ Hc)).
  unfold ret. do 2 f_equal. apply NoDup_cons in Hnd as [Hn _].
  destruct l as [|x l]; simpl; [apply Z.eqb_refl|]. apply Z.eqb_neq. set_solver.
Qed.

Lemma list_top_spec m h l off :
  dlist m h l -> list_top h off m = (Ret ((fun n => n - off) <$> head l), m).
Proof.
  intros Hl. unfold list_top. erewrite bind_ret by (by apply list_empty_spec).
  destruct Hl as [_ Hc]. destruct l as [|x l]; simpl; [done|].
  by erewrite bind_ret by (apply load_next_ok, Hc).
Qed.

Lemma list_tail_spec m h l off :
  dlist m h l -> list_tail h off m = (Ret ((fun n => n - off) <$> last l), m).
Proof.
  intros Hl. unfold list_tail. erewrite bind_ret by (by apply list_empty_spec).
  destruct (dlist_rev _ _ _ Hl) as (q & Hq & ->).
  destruct l as [|x l _] using rev_ind; [done|]. rewrite last_snoc in *. rewrite bool_decide_false by (by destruct l).
  by erewrite bind_ret by (by apply load_prev_ok).
Qed.

Lemma entry_not_head h n off : n <> h -> list_entry_or_null h n off = Some (n - off).
Proof. intros H. unfold list_entry_or_null. by rewrite (proj2 (Z.eqb_neq n h)). Qed.
Lemma entry_head h off : list_entry_or_null h h off = None.
Proof. unfold list_entry_or_null. by rewrite Z.eqb_refl. Qed.

Lemma list_next_spec m h a p b off :
  dlist m h (a ++ p :: b) ->
  list_next h (p - off) off m = (Ret ((fun n => n - off) <$> head b), m).
Proof.
  intros [Hnd Hc]. apply links_app in Hc as [_ Hc]. apply NoDup_cons in Hnd as [Hn _].
  unfold list_next. rewrite Z.sub_add. erewrite bind_ret by (apply load_next_ok, (chain_first _ _ _ _ Hc)).
  unfold ret. destruct b as [|y b]; simpl; [by rewrite entry_head|].
  rewrite entry_not_head by set_solver. done.
Qed.

Lemma list_prev_spec m h a p b off :
  dlist m h (a ++ p :: b) ->
  list_prev h (p - off) off m = (Ret ((fun n => n - off) <$> last a), m).
Proof.
  intros [Hnd Hc]. apply links_app in Hc as [Hc _]. apply NoDup_cons in Hnd as [Hn _].
  unfold list_prev. rewrite Z.sub_add. erewrite bind_ret by (apply load_prev_ok, (chain_last _ _ _ _ Hc)).
  unfold ret. destruct a as [|y a _] using rev_ind; [by rewrite entry_head|].
  rewrite last_snoc. simpl. rewrite entry_not_head by set_solver. done.
Qed.

(** ** Loops *)

Section ForEachSpec.
Context {S : Type} (mem : S -> heap) (body : ptr -> M S flow) (dir : ptr -> M heap ptr) (h off : Z).

Definition reads (s : S) (p q : ptr) : Prop := dir p (mem s) = (Ret q, mem s).

Lemma rd_reads s p q : reads s p q -> rd mem (dir p) s = (Ret q, s).
Proof. unfold rd. by intros ->. Qed.

(** [inv r s]: nodes [r] are still to visit in state [s].  The loop visits them
    in order, each once, and stops early only where the body says so. *)
Context (inv : list ptr -> S -> Prop) (stop : S -> Prop) (Hh : forall r s, inv r s -> h ∉ r).

Lemma for_each_loop_spec r fuel s :
  (forall x r s, inv (x :: r) s -> exists f s', body (x - off) s = (Ret f, s') /\
     match f with Break => stop s' | Continue => reads s' x (hd h r) /\ inv r s' end) ->
  inv r s -> (length r <= fuel)%nat ->
  exists f s', for_each_loop mem body dir fuel h (hd h r - off) off s = (Ret f, s') /\
    match f with Break => stop s' | Continue => inv [] s' end.
Proof using Hh.
  intros Hb. revert fuel s. induction r as [|x r IH]; intros fuel s Hi Hf; simpl in *.
  - destruct fuel; simpl; unfold list_node_from_off; rewrite Z.sub_add, Z.eqb_refl; exists Continue, s; done.
  - destruct fuel as [|fuel]; [lia|]. simpl. unfold list_node_from_off, list_node_to_off. rewrite Z.sub_add.
    pose proof (Hh _ _ Hi) as Hx. rewrite (proj2 (Z.eqb_neq x h)) by set_solver.
    destruct (Hb x r s Hi) as (f & s' & E & Hs). erewrite bind_ret by exact E.
    destruct f; [|exists Break, s'; done]. destruct Hs as [Hr Hi'].
    erewrite bind_ret by (by apply rd_reads). apply IH; [done|lia].
Qed.

Lemma for_each_safe_loop_spec r fuel s :
  (forall x r s, inv (x :: r) s -> exists f s', body (x - off) s = (Ret f, s') /\
     match f with
     | Break => stop s'
     | Continue => (exists q, reads s' (hd h r) q /\ (r <> [] -> q = hd h (tail r))) /\ inv r s'
     end) ->
  inv r s -> (length r <= fuel)%nat ->
  forall q, (r <> [] -> q = hd h (tail r)) ->
  exists f s', for_each_safe_loop mem body dir fuel h (hd h r - off) (q - off) off s = (Ret f, s') /\
    match f with Break => stop s' | Continue => inv [] s' end.
Proof using Hh.
  intros Hb. revert fuel s. induction r as [|x r IH]; intros fuel s Hi Hf q Hq; simpl in *.
  - destruct fuel; simpl; unfold list_node_from_off; rewrite Z.sub_add, Z.eqb_refl; exists Continue, s; done.
  - rewrite (Hq ltac:(done)). destruct fuel as [|fuel]; [lia|]. simpl.
    unfold list_node_from_off, list_node_to_off. rewrite !Z.sub_add.
    pose proof (Hh _ _ Hi) as Hx. rewrite (proj2 (Z.eqb_neq x h)) by set_solver.
    destruct (Hb x r s Hi) as (f & s' & E & Hs). erewrite bind_ret by exact E.
    destruct f; [|exists Break, s'; done]. destruct Hs as [(q' & Hr & Hq') Hi'].
    erewrite bind_ret by (by apply rd_reads). apply IH; [done|lia|done].
Qed.
End ForEachSpec.

(** A loop that only looks, as the searches of the library do. *)
Definition collect (i : ptr) : M (heap * list ptr) flow := fun s =>
  (Ret Continue, (s.1, s.2 ++ [i])).

Lemma list_next_hd m h d x r : dlist m h (d ++ x :: r) -> nxt m x = Some (hd h r).
Proof. intros [_ Hc]. apply links_app in Hc as [_ Hc]. by apply chain_first. Qed.
Lemma list_prev_hd m h d x r : dlist m h (rev (d ++ x :: r)) -> prv m x = Some (hd h r).
Proof.
  rewrite rev_app_distr. simpl. rewrite <- app_assoc. intros [_ Hc]. apply links_app in Hc as [Hc _].
  rewrite (chain_last _ _ _ _ Hc). destruct r as [|y r]; simpl; [done|]. by rewrite last_snoc.
Qed.

Lemma traverse_spec m h w dir off :
  h ∉ w -> (length w <= size m)%nat -> dir h m = (Ret (hd h w), m) ->
  (forall d x r, w = d ++ x :: r -> dir x m = (Ret (hd h r), m)) ->
  list_for_each fst collect dir (size m) h off (m, []) = (Ret Continue, (m, (fun n => n - off) <$> w)).
Proof.
  intros Hw Hf Hd0 Hd. unfold list_for_each.
  erewrite bind_ret by (apply (rd_reads fst dir (m, @nil Z)); exact Hd0). unfold list_node_to_off.
  edestruct (for_each_loop_spec fst collect dir h off
    (fun r s => exists d, w = d ++ r /\ s = (m, (fun n => n - off) <$> d)) (fun _ => False)) as (f & s' & E & Hs).
  4: exact Hf.
  4: { rewrite E. destruct f; [|done]. destruct Hs as (d & -> & ->). by rewrite app_nil_r. }
  - intros r s (d & -> & _). set_solver.
  - intros x r s (d & -> & ->). eexists Continue, _. split; [done|]. split; [by eapply Hd|].
    exists (d ++ [x]). rewrite <- app_assoc, fmap_app. done.
  - exists []. done.
Qed.

Lemma traverse_forward m h l off : dlist m h l ->
  list_for_each fst collect load_next (size m) h off (m, []) = (Ret Continue, (m, (fun n => n - off) <$> l)).
Proof.
  intros Hl. pose proof (ring_size _ _ Hl) as Hs. simpl in Hs. pose proof Hl as [Hnd Hc].
  apply NoDup_cons in Hnd as [Hn _]. apply traverse_spec; [done|lia|by apply load_next_ok, chain_first|].
  intros d x r ->. by eapply load_next_ok, list_next_hd.
Qed.

Lemma traverse_backward m h l off : dlist m h l ->
  list_for_each fst collect load_prev (size m) h off (m, []) =
    (Ret Continue, (m, (fun n => n - off) <$> rev l)).
Proof.
  intros Hl. pose proof (ring_size _ _ Hl) as Hs. simpl in Hs. pose proof Hl as [Hnd Hc].
  apply NoDup_cons in Hnd as [Hn _]. apply traverse_spec.
  - by rewrite list_elem_of_In, <- in_rev, <- list_elem_of_In.
  - rewrite length_rev. lia.
  - apply load_prev_ok. rewrite (chain_last _ _ _ _ Hc). f_equal.
    destruct l as [|x l _] using rev_ind; [done|]. by rewrite rev_app_distr, last_snoc.
  - intros d x r E. eapply load_prev_ok, (list_prev_hd m h d). rewrite <- E, rev_involutive. done.
Qed.

(** ** The operations on sequences they implement *)

Inductive list_op : Type :=
| OpAdd (n : ptr)
| OpAddTail (n : ptr)
| OpAddAfter (p n : ptr)
| OpAddBefore (p n : ptr)
| OpDel (n : ptr)
| OpDelInit (n : ptr)
| OpDelFrom (n : ptr)
| OpSwap (o n : ptr)
| OpPop.

Definition run_op (h : ptr) (op : list_op) : M heap unit :=
  match op with
  | OpAdd n => list_add h n
  | OpAddTail n => list_add_tail h n
  | OpAddAfter p n => list_add_after p n
  | OpAddBefore p n => list_add_before p n
  | OpDel n => list_del n
  | OpDelInit n => list_del_init n
  | OpDelFrom n => list_del_from h n
  | OpSwap o n => list_swap o n
  | OpPop => do* list_pop h 0 in ret tt
  end.

Fixpoint run_ops (h : ptr) (ops : list list_op) : M heap unit :=
  match ops with
  | [] => ret tt
  | op :: ops => do* run_op h op in run_ops h ops
  end.

(** What the caller must respect, and the sequence that results.  [A] are the
    nodes that exist; positions are given by splitting [h :: l], so a node can be
    added after or before the head itself. *)
Inductive seq_op (A : ptr -> Prop) (h : ptr) : list_op -> list ptr -> list ptr -> Prop :=
| SAdd l n : n ∉ h :: l -> A n -> seq_op A h (OpAdd n) l (n :: l)
| SAddTail l n : n ∉ h :: l -> A n -> seq_op A h (OpAddTail n) l (l ++ [n])
| SAddAfter a p b n : n ∉ h :: a ++ p :: b -> A n ->
    seq_op A h (OpAddAfter p n) (a ++ p :: b) (a ++ p :: n :: b)
| SAddBefore a p b n : n ∉ h :: a ++ p :: b -> A n ->
    seq_op A h (OpAddBefore p n) (a ++ p :: b) (a ++ n :: p :: b)
| SDel a n b : seq_op A h (OpDel n) (a ++ n :: b) (a ++ b)
| SDelInit a n b : seq_op A h (OpDelInit n) (a ++ n :: b) (a ++ b)
| SDelFrom a n b : seq_op A h (OpDelFrom n) (a ++ n :: b) (a ++ b)
| SSwap a o b n : n ∉ h :: a ++ o :: b -> A n ->
    seq_op A h (OpSwap o n) (a ++ o :: b) (a ++ n :: b)
| SPopEmpty : seq_op A h OpPop [] []
| SPop n l : seq_op A h OpPop (n :: l) l.

Inductive seq_ops (A : ptr -> Prop) (h : ptr) : list list_op -> list ptr -> list ptr -> Prop :=
| SNil l : seq_ops A h [] l l
| SCons op ops l l1 l2 : seq_op A h op l l1 -> seq_ops A h ops l1 l2 -> seq_ops A h (op :: ops) l l2.

(** The node an operation brings. *)
Definition op_nodes (op : list_op) : list ptr :=
  match op with
  | OpAdd n | OpAddTail n | OpAddAfter _ n | OpAddBefore _ n | OpSwap _ n => [n]
  | _ => []
  end.

Lemma dlist_at m h a p b : dlist m h (a ++ p :: b) <-> ring m (p :: b ++ h :: a).
Proof.
  split; intros H.
  - by apply (ring_rotate m (h :: a) (p :: b)) in H.
  - by apply (ring_rotate m (p :: b) (h :: a)) in H.
Qed.

Lemma add_after_dlist m h a p b n :
  dlist m h (a ++ p :: b) -> n ∉ h :: a ++ p :: b -> allocated m n ->
  exists m', list_add_after p n m = (Ret tt, m') /\ dlist m' h (a ++ p :: n :: b) /\
    only (n :: h :: a ++ p :: b) m m'.
Proof.
  rewrite dlist_at. intros Hr Hn Ha.
  destruct (insert_after_ring m p (b ++ h :: a) n Hr) as (m' & E & Hr' & Ho); [set_solver|done|].
  exists m'. split; [done|]. split; [by apply dlist_at|]. eapply only_weaken; [|exact Ho]. set_solver.
Qed.

Lemma add_before_dlist m h a p b n :
  dlist m h (a ++ p :: b) -> n ∉ h :: a ++ p :: b -> allocated m n ->
  exists m', list_add_before p n m = (Ret tt, m') /\ dlist m' h (a ++ n :: p :: b) /\
    only (n :: h :: a ++ p :: b) m m'.
Proof.
  rewrite dlist_at. intros Hr Hn Ha.
  destruct (insert_before_ring m p (b ++ h :: a) n Hr) as (m' & E & Hr' & Ho); [set_solver|done|].
  exists m'. split; [done|]. split.
  - rewrite <- app_assoc, app_comm_cons in Hr'. apply (ring_rotate m' (p :: b)) in Hr'.
    by rewrite <- app_assoc in Hr'.
  - eapply only_weaken; [|exact Ho]. set_solver.
Qed.

Lemma del_dlist m h a n b :
  dlist m h (a ++ n :: b) ->
  exists m', list_del n m = (Ret tt, m') /\ dlist m' h (a ++ b) /\ only (h :: a ++ b) m m'.
Proof.
  rewrite dlist_at. intros Hr.
  destruct (delete_ring m n (b ++ h :: a) Hr) as (m' & E & Hr' & Ho); [by destruct b|].
  exists m'. split; [done|]. split; [by apply (ring_rotate m' b) in Hr'|].
  eapply only_weaken; [|exact Ho]. set_solver.
Qed.

Lemma swap_dlist m h a o b n :
  dlist m h (a ++ o :: b) -> n ∉ h :: a ++ o :: b -> allocated m n ->
  exists m', list_swap o n m = (Ret tt, m') /\ dlist m' h (a ++ n :: b) /\ only (n :: h :: a ++ o :: b) m m'.
Proof.
  rewrite dlist_at. intros Hr Hn Ha.
  destruct (replace_ring m o (b ++ h :: a) n Hr) as (m' & E & Hr' & Ho); [by destruct b|set_solver|done|].
  exists m'. split; [done|]. split; [by apply dlist_at|]. eapply only_weaken; [|exact Ho]. set_solver.
Qed.

Lemma del_from_dlist m h a n b :
  dlist m h (a ++ n :: b) ->
  exists m', list_del_from h n m = (Ret tt, m') /\ dlist m' h (a ++ b) /\ only (h :: a ++ b) m m'.
Proof.
  intros Hl. destruct (del_dlist m h a n b Hl) as (m' & E & H). exists m'. split; [|done].
  unfold list_del_from. erewrite bind_ret by (by apply list_empty_spec).
  rewrite bool_decide_false by (by destruct a). exact E.
Qed.

Lemma pop_dlist m h n l off :
  dlist m h (n :: l) ->
  exists m', list_pop h off m = (Ret (Some (n - off)), m') /\ dlist m' h l /\ only (h :: l) m m'.
Proof.
  intros Hl. destruct (del_dlist m h [] n l Hl) as (m' & E & H). exists m'. split; [|done].
  unfold list_pop. erewrite bind_ret by (by apply list_empty_spec). simpl.
  erewrite bind_ret by (apply load_next_ok, Hl). by erewrite bind_ret by exact E.
Qed.

Lemma del_init_dlist m h a n b :
  dlist m h (a ++ n :: b) ->
  exists m', list_del_init n m = (Ret tt, m') /\ dlist m' h (a ++ b) /\ dlist m' n [] /\
    only (h :: a ++ n :: b) m m'.
Proof.
  intros Hl. destruct (del_dlist m h a n b Hl) as (m1 & E1 & Hl1 & Ho1).
  assert (n ∉ h :: a ++ b) as Hn.
  { destruct Hl as [Hnd _]. rewrite app_comm_cons in Hnd. apply nodup_mid in Hnd. set_solver. }
  assert (allocated m1 n) as Ha by (apply Ho1; eapply ring_allocated; [exact Hl|set_solver]).
  destruct (init_ring m1 n Ha) as (m2 & E2 & Hl2 & Ho2).
  exists m2. unfold list_del_init. erewrite bind_ret by exact E1. split; [exact E2|].
  split; [|split; [done|]].
  - eapply ring_frame; [exact Ho2|set_solver|done].
  - eapply only_trans; (eapply only_weaken; [|eassumption]); set_solver.
Qed.

Lemma run_op_refines m h op l l' :
  dlist m h l -> seq_op (allocated m) h op l l' ->
  exists m', run_op h op m = (Ret tt, m') /\ dlist m' h l' /\ only (op_nodes op ++ h :: l) m m' /\
    (forall q, q ∈ l' -> q ∈ op_nodes op ++ l).
Proof.
  intros Hl Hop.
  assert (forall s (P : heap -> Prop) (r : M heap unit) (w : list ptr),
    (exists m', r m = (Ret tt, m') /\ P m' /\ only s m m') -> (forall q, q ∈ s -> q ∈ op_nodes op ++ h :: l) ->
    (forall q, q ∈ w -> q ∈ op_nodes op ++ l) ->
    exists m', r m = (Ret tt, m') /\ P m' /\ only (op_nodes op ++ h :: l) m m' /\
      (forall q, q ∈ w -> q ∈ op_nodes op ++ l)) as weaken.
  { intros s P r w (m' & E & HP & Ho) Hs Hw. exists m'. split_and!; try done. by eapply only_weaken. }
  destruct Hop; simpl in *; try (eapply weaken; [eauto using add_after_dlist, add_before_dlist,
    del_dlist, swap_dlist, del_from_dlist|set_solver|set_solver]; fail).
  - eapply weaken; [by apply (insert_after_ring m h l n)|set_solver..].
  - eapply weaken; [by apply (insert_before_ring m h l n)|set_solver..].
  - destruct (del_init_dlist m h a n b Hl) as (m' & E & Hl' & _ & Ho). exists m'. split_and!; [done..|set_solver].
  - exists m. unfold list_pop. rewrite (bind_ret _ _ m None m).
    + by split_and!.
    + by erewrite bind_ret by (by apply list_empty_spec).
  - destruct (pop_dlist m h n l 0 Hl) as (m' & E & Hl' & Ho). exists m'.
    erewrite bind_ret by exact E. split_and!; [done..| |set_solver]. eapply only_weaken; [|exact Ho]. set_solver.
Qed.

Lemma seq_op_alloc (A B : ptr -> Prop) h op l l' : (forall q, A q -> B q) -> seq_op A h op l l' -> seq_op B h op l l'.
Proof. intros H Hop. destruct Hop; constructor; auto. Qed.
Lemma seq_ops_alloc (A B : ptr -> Prop) h ops l l' : (forall q, A q -> B q) -> seq_ops A h ops l l' -> seq_ops B h ops l l'.
Proof. intros H Hop. induction Hop; econstructor; eauto using seq_op_alloc. Qed.

(** C29. The list implements the sequence of its nodes: for any run of additions
    (at either end, after or before a node), deletions, pops and swaps that
    respects the callers' obligations (a node added exists and is not on the
    list, a node removed is on it), the stores of the C code end without an
    invalid access, memory holds exactly the sequence the operations give, a
    forward traversal and a backward one see it and its reverse, and no node but
    those of the list and those added has changed. *)
Theorem list_implements_sequence m h ops l l' off :
  dlist m h l -> seq_ops (allocated m) h ops l l' ->
  exists m', run_ops h ops m = (Ret tt, m') /\ dlist m' h l' /\
    only (concat (op_nodes <$> ops) ++ h :: l) m m' /\
    list_empty h m' = (Ret (bool_decide (l' = [])), m') /\
    list_for_each fst collect load_next (size m') h off (m', []) =
      (Ret Continue, (m', (fun n => n - off) <$> l')) /\
    list_for_each fst collect load_prev (size m') h off (m', []) =
      (Ret Continue, (m', (fun n => n - off) <$> rev l')).
Proof.
  intros Hl Hops.
  assert (exists m', run_ops h ops m = (Ret tt, m') /\ dlist m' h l' /\
    only (concat (op_nodes <$> ops) ++ h :: l) m m') as (m' & E & Hl' & Ho).
  { remember (allocated m) as A eqn:EA. assert (forall q, A q -> allocated m q) as HA by (by subst).
    clear EA. revert m Hl HA. induction Hops as [|op ops l l1 l2 Hop Hops IH]; intros m Hl HA.
    - exists m. split_and!; [done..|apply only_refl].
    - destruct (run_op_refines m h op l l1 Hl) as (m1 & E1 & Hl1 & Ho1 & Hs); [by eapply seq_op_alloc|].
      destruct (IH m1 Hl1) as (m2 & E2 & Hl2 & Ho2); [intros q Hq; by apply Ho1, HA|].
      exists m2. simpl. erewrite bind_ret by exact E1. split_and!; [done..|].
      eapply only_trans; (eapply only_weaken; [|eassumption]); set_solver. }
  exists m'. eauto 10 using list_empty_spec, traverse_forward, traverse_backward.
Qed.

(** Example memory: a head and three nodes. *)
Definition mem4 : heap :=
  {[ 0x100 := mk_list_node 0x100 0x100; 0x10 := mk_list_node 0 0;
     0x20 := mk_list_node 0 0; 0x30 := mk_list_node 0 0 ]}.

Lemma list_implements_sequence_witness :
  exists m', run_ops 0x100 [OpAdd 0x10; OpAddTail 0x20; OpAddAfter 0x10 0x30; OpDelFrom 0x10; OpPop] mem4 = (Ret tt, m') /\
    dlist m' 0x100 [0x20] /\ m' !! 0x20 = Some (mk_list_node 0x100 0x100).
Proof.
  edestruct (list_implements_sequence mem4 0x100
    [OpAdd 0x10; OpAddTail 0x20; OpAddAfter 0x10 0x30; OpDelFrom 0x10; OpPop] [] [0x20] 0) as (m' & E & Hl & _).
  - split; [apply NoDup_singleton|]. by split.
  - assert (forall n, n ∈ [0x10; 0x20; 0x30] -> allocated mem4 n) as Ha.
    { intros n Hn. rewrite !elem_of_cons, elem_of_nil in Hn. destruct Hn as [->|[->|[->|[]]]]; by eexists. }
    eapply SCons; [apply SAdd; [set_solver|apply Ha; set_solver]|].
    eapply SCons; [apply SAddTail; [set_solver|apply Ha; set_solver]|].
    eapply SCons; [apply (SAddAfter _ _ [] 0x10 [0x20]); [set_solver|apply Ha; set_solver]|].
    eapply SCons; [apply (SDelFrom _ _ [] 0x10 [0x30; 0x20])|].
    eapply SCons; [apply SPop|]. apply SNil.
  - exists m'. split; [exact E|]. split; [exact Hl|].
    assert (m' = (run_ops 0x100 [OpAdd 0x10; OpAddTail 0x20; OpAddAfter 0x10 0x30; OpDelFrom 0x10; OpPop] mem4).2) as ->
      by (by rewrite E).
    by vm_compute.
Defined.

(** The consistency check is exact and ends: on any memory, well-formed or
    not, the loop of [list_check_node] stops within as many steps as there are
    nodes; it reports success exactly when the nodes reachable from the head form
    one circular doubly linked list, whose sequence is then unique, and it never
    writes. *)
Theorem list_check_exact (abortstr : bool) m h :
  list_check_node m h <> CheckFuel /\
  (list_check abortstr h m).2 = m /\
  ((list_check abortstr h m).1 = Ret (Some h) <-> exists l, dlist m h l /\ forall l', dlist m h l' -> l' = l) /\
  (list_check false h m = (Ret None, m) -> ~ exists l, dlist m h l).
Proof.
  destruct (list_check_node_exact m h) as [Hf Hc]. split; [done|].
  unfold list_check. split; [by destruct (list_check_node m h), abortstr|]. split.
  - split.
    + intros E. assert (list_check_node m h = Checked) as [l Hl]%Hc
        by (by destruct (list_check_node m h), abortstr).
      exists l. split; [done|]. intros l' Hl'. by eapply dlist_unique.
    + intros (l & Hl & _). by rewrite (proj2 Hc (ex_intro _ l Hl)).
  - intros E Hl. apply Hc in Hl. by rewrite Hl in E.
Qed.

(** Joining two lists: the nodes of [from] go to the end, or the start, of [to],
    and [from] is left empty. *)
Theorem list_append_list_spec m t f l1 l2 :
  dlist m t l1 -> dlist m f l2 -> (forall q, q ∈ t :: l1 -> q ∉ f :: l2) ->
  exists m', list_append_list t f m = (Ret tt, m') /\ dlist m' t (l1 ++ l2) /\ dlist m' f [].
Proof. intros H1 H2 Hd. destruct (append_ring m t f l1 l2 H1 H2 Hd) as (m' & E & A & B & _). eauto. Qed.

Theorem list_prepend_list_spec m t f l1 l2 :
  dlist m t l1 -> dlist m f l2 -> (forall q, q ∈ t :: l1 -> q ∉ f :: l2) ->
  exists m', list_prepend_list t f m = (Ret tt, m') /\ dlist m' t (l2 ++ l1) /\ dlist m' f [].
Proof. intros H1 H2 Hd. destruct (prepend_ring m t f l1 l2 H1 H2 Hd) as (m' & E & A & B & _). eauto. Qed.
