(* ===== verification/SkiplistMem.v ===== *)
(** * SkiplistMem: the skip list in memory, src/util/skiplist.{h,c} over ccan/list

    [Skiplist] models a level by the sequence of its nodes.  Here the same
    functions are translated once more, statement by statement, on the memory of
    [CcanList]: a skip list is a structure at an address, with eight list heads
    and an embedded sentinel, and a node is an array of eight list nodes at the
    address of the structure that embeds it.  The theorems show that this
    program refines the one on sequences, so that what [Skiplist] proves, and
    what its clients build on it, holds of the pointers. *)

From S2P Require Import Prelude Skiplist CcanList.
Local Open Scope Z_scope.
Local Open Scope vfn_scope.

(** ** Layout *)

Definition LIST_NODE_SIZE : Z := 16.

(** [&n->list[k]] and the offset of [list[k]] in a node. *)
Definition list_off (k : nat) : Z := LIST_NODE_SIZE * Z.of_nat k.
Definition node_list (n : ptr) (k : nat) : ptr := n + list_off k.

(** [struct skiplist]: [int height] and its padding, [sentinel], [heads]. *)
Definition sl_sentinel (lst : ptr) : ptr := lst + 8.
Definition sl_heads (lst : ptr) (k : nat) : ptr :=
  lst + 8 + LIST_NODE_SIZE * Z.of_nat SKIPLIST_LEVELS + LIST_NODE_SIZE * Z.of_nat k.

(** The field [height] and the list nodes in memory. *)
Record skip_mem : Type := mk_skip_mem { sm_height : nat; sm_heap : heap }.

Definition on_heap {A} (r : M heap A) : M skip_mem A := fun s =>
  let '(o, m) := r (sm_heap s) in (o, mk_skip_mem (sm_height s) m).
Definition put_height (h : nat) : M skip_mem unit := modify (fun s => mk_skip_mem h (sm_heap s)).

(** [for (int k = 0; k < n; k++)]; [todo] iterations are left. *)
Fixpoint for_up {T} (body : nat -> M T unit) (k todo : nat) : M T unit :=
  match todo with
  | O => ret tt
  | S todo => do* body k in for_up body (S k) todo
  end.

Section Code.
Context (lst : ptr).

(** ** skiplist.h *)

Definition skiplist_top_mem (k : nat) : M skip_mem (option ptr) :=
  on_heap (list_top (sl_heads lst k) (list_off k)).
Definition skiplist_next_mem (n : ptr) (k : nat) : M skip_mem (option ptr) :=
  on_heap (list_next (sl_heads lst k) n (list_off k)).
Definition skiplist_add_after_mem (p n : ptr) (k : nat) : M skip_mem unit :=
  on_heap (list_add_after (node_list p k) (node_list n k)).
Definition skiplist_add_mem (n : ptr) (k : nat) : M skip_mem unit :=
  on_heap (list_add (sl_heads lst k) (node_list n k)).
Definition skiplist_del_from_mem (n : ptr) (k : nat) : M skip_mem unit :=
  on_heap (list_del_from (sl_heads lst k) (node_list n k)).

(** ** skiplist.c *)

Definition skiplist_init_mem : M skip_mem unit :=
  do* put_height 0 in
  for_up (fun k =>
    do* on_heap (list_head_init (sl_heads lst k)) in
    skiplist_add_mem (sl_sentinel lst) k) 0 SKIPLIST_LEVELS.

(** The [path] argument: a null pointer or an array of pointers. *)
Abbreviation path_arg := (option (list (option ptr))).
Definition set_path (path : path_arg) (k : nat) (p : ptr) : path_arg :=
  (fun a => <[k := Some p]> a) <$> path.

(** [while (next && test(next)) { p = next; next = skiplist_next(list, p, k); }] *)
Fixpoint advance_mem (test : ptr -> bool) (fuel : nat) (p : ptr) (next : option ptr) (k : nat)
    : M skip_mem (ptr * option ptr) :=
  match next with
  | None => ret (p, None)
  | Some q =>
      if test q then
        match fuel with
        | O => crash
        | S fuel =>
            let* next := skiplist_next_mem q k in
            advance_mem test fuel q next k
        end
      else ret (p, Some q)
  end.

(** The [do ... while (--k >= 0)] loop of the three searches. *)
Fixpoint walk_mem (test : ptr -> bool) (fuel : nat) (k : nat) (p : ptr) (path : path_arg)
    : M skip_mem (ptr * option ptr * path_arg) :=
  let* next := skiplist_next_mem p k in
  let* r := advance_mem test fuel p next k in
  let path := set_path path k (fst r) in
  match k with
  | O => ret (r, path)
  | S k => walk_mem test fuel k (fst r) path
  end.

Section Find.
Context {K : Type} (cmp : K -> ptr -> Z) (fuel : nat).

Definition skiplist_find_mem (key : K) (path : path_arg) : M skip_mem (option ptr * path_arg) :=
  let* k := gets sm_height in
  let* r := walk_mem (fun n => 0 <? cmp key n) fuel k (sl_sentinel lst) path in
  match snd (fst r) with
  | Some n => ret (if cmp key n =? 0 then Some n else None, snd r)
  | None => ret (None, snd r)
  end.

Definition skiplist_find_le_mem (key : K) (path : path_arg) : M skip_mem (option ptr * path_arg) :=
  let* k := gets sm_height in
  let* r := walk_mem (fun n => 0 <=? cmp key n) fuel k (sl_sentinel lst) path in
  let p := fst (fst r) in
  ret (if p =? sl_sentinel lst then None else Some p, snd r).

Definition skiplist_find_ge_mem (key : K) (path : path_arg) : M skip_mem (option ptr * path_arg) :=
  let* k := gets sm_height in
  let* r := walk_mem (fun n => 0 <? cmp key n) fuel k (sl_sentinel lst) path in
  ret (snd (fst r), snd r).
End Find.

(** A null entry of [update] is dereferenced. *)
Definition deref {T} (p : option ptr) : M T ptr := match p with Some p => ret p | None => crash end.

Fixpoint link_levels_mem (n : ptr) (update : list (option ptr)) (k : nat) : M skip_mem unit :=
  let* p := deref (update !!! k) in
  do* skiplist_add_after_mem p n k in
  match k with
  | O => ret tt
  | S k => link_levels_mem n update k
  end.

(** [rands]: the results of [rand() > RAND_MAX / 2]. *)
Definition skiplist_link_mem (n : ptr) (update : list (option ptr)) (rands : list bool) : M skip_mem unit :=
  let k := __skiplist_random_level rands in
  let* h := gets sm_height in
  if (h <? k)%nat then
    let k := S h in
    do* put_height k in
    link_levels_mem n (<[k := Some (sl_sentinel lst)]> update) k
  else link_levels_mem n update k.

Fixpoint erase_levels_mem (n : ptr) (update : list (option ptr)) (k todo : nat) : M skip_mem unit :=
  match todo with
  | O => ret tt
  | S todo =>
      let* p := deref (update !!! k) in
      let* next := skiplist_next_mem p k in
      if decide (next = Some n) then
        do* skiplist_del_from_mem n k in
        erase_levels_mem n update (S k) todo
      else ret tt
  end.

(** [while (list->height && skiplist_next(...) == NULL) list->height--;] *)
Fixpoint reduce_height_mem (h : nat) : M skip_mem unit :=
  match h with
  | O => ret tt
  | S h' =>
      let* next := skiplist_next_mem (sl_sentinel lst) h in
      match next with
      | None => do* put_height h' in reduce_height_mem h'
      | Some _ => ret tt
      end
  end.

Definition skiplist_erase_mem (n : ptr) (update : list (option ptr)) : M skip_mem unit :=
  let* h := gets sm_height in
  do* erase_levels_mem n update 0 (S h) in
  let* h := gets sm_height in
  reduce_height_mem h.

(** [fn] is the client's callback, [None] a null pointer. *)
Section Clear.
Context (fn : option (ptr -> M heap unit)) (fuel : nat).

Definition clear_body (k : nat) (n : ptr) : M skip_mem flow :=
  if (n =? 0) || (n =? sl_sentinel lst) then ret Continue
  else
    do* skiplist_del_from_mem n k in
    match fn with
    | Some f => if (k =? 0)%nat then do* on_heap (f n) in ret Continue else ret Continue
    | None => ret Continue
    end.

Definition clear_level_mem (k : nat) : M skip_mem flow :=
  list_for_each_safe sm_heap (clear_body k) load_next fuel (sl_heads lst k) (list_off k).

Fixpoint clear_levels_mem (k : nat) : M skip_mem unit :=
  do* clear_level_mem k in
  match k with
  | O => ret tt
  | S k => clear_levels_mem k
  end.

Definition skiplist_clear_with_mem : M skip_mem unit :=
  let* k := gets sm_height in
  do* clear_levels_mem k in
  put_height 0.
End Clear.
End Code.

(** ** Placement and representation *)

Section Refine.
Context (lst : ptr) (addr : nat -> ptr).

(** The address of a node, and of its list node of level [k]. *)
Definition at_ (x : skiplist_node) : ptr :=
  match x with Sentinel => sl_sentinel lst | Node n => addr n end.
Definition slot (k : nat) (x : skiplist_node) : ptr := node_list (at_ x) k.

(** The nodes [xs] that exist do not overlap each other nor the list, and none
    is at the null pointer. *)
Record placed (xs : list nat) : Prop := {
  placed_inj : forall x y j k, x ∈ enc xs -> y ∈ enc xs -> (j < SKIPLIST_LEVELS)%nat -> (k < SKIPLIST_LEVELS)%nat ->
    slot j x = slot k y -> x = y /\ j = k;
  placed_heads : forall x j k, x ∈ enc xs -> (j < SKIPLIST_LEVELS)%nat -> (k < SKIPLIST_LEVELS)%nat ->
    slot j x <> sl_heads lst k;
  placed_null : forall x, x ∈ enc xs -> at_ x <> 0
}.

(** Memory holds, at each head, the sequence of the level. *)
Record mem_rep (s : skip_mem) (sl : skiplist) (xs : list nat) : Prop := {
  mr_placed : placed xs;
  mr_height : sm_height s = height sl;
  mr_len : length (heads sl) = SKIPLIST_LEVELS;
  mr_alloc : forall x k, x ∈ enc xs -> (k < SKIPLIST_LEVELS)%nat -> allocated (sm_heap s) (slot k x);
  mr_level : forall k, (k < SKIPLIST_LEVELS)%nat -> dlist (sm_heap s) (sl_heads lst k) (slot k <$> level sl k);
  mr_sub : forall k x, (k < SKIPLIST_LEVELS)%nat -> x ∈ level sl k -> x ∈ enc xs
}.

(** Nodes of a level are on the level below. *)
Definition nested (sl : skiplist) : Prop :=
  forall k x, (S k < SKIPLIST_LEVELS)%nat -> x ∈ level sl (S k) -> x ∈ level sl k.

Lemma slot_sub k x : slot k x - list_off k = at_ x.
Proof. unfold slot, node_list. lia. Qed.

Lemma heads_inj j k : sl_heads lst j = sl_heads lst k -> j = k.
Proof. unfold sl_heads, LIST_NODE_SIZE. lia. Qed.

Lemma seq_after_split a p b : p ∉ a -> seq_after (a ++ p :: b) p = b.
Proof.
  induction a as [|x a IH]; simpl; [by rewrite decide_True|].
  intros [Hne Hp]%not_elem_of_cons. rewrite decide_False by congruence. auto.
Qed.
Lemma seq_add_after_split a p b n : p ∉ a -> seq_add_after (a ++ p :: b) p n = a ++ p :: n :: b.
Proof.
  induction a as [|x a IH]; simpl; [by rewrite decide_True|].
  intros [Hne Hp]%not_elem_of_cons. rewrite decide_False by congruence. f_equal. auto.
Qed.
Lemma seq_del_from_split a n b : n ∉ a -> seq_del_from (a ++ n :: b) n = a ++ b.
Proof.
  induction a as [|x a IH]; simpl; [by rewrite decide_True|].
  intros [Hne Hp]%not_elem_of_cons. rewrite decide_False by congruence. f_equal. auto.
Qed.

Section Rep.
Context (s : skip_mem) (sl : skiplist) (xs : list nat) (Hr : mem_rep s sl xs).

Lemma mr_nodup k : (k < SKIPLIST_LEVELS)%nat -> NoDup (level sl k).
Proof using Hr.
  intros Hk. destruct (mr_level _ _ _ Hr k Hk) as [Hnd _]. apply NoDup_cons in Hnd as [_ Hnd].
  by eapply NoDup_fmap_1.
Qed.

Lemma mr_split k p : (k < SKIPLIST_LEVELS)%nat -> p ∈ level sl k ->
  exists a b, level sl k = a ++ p :: b /\ (p ∉ a) /\ (p ∉ b).
Proof using Hr.
  intros Hk (a & b & E)%list_elem_of_split. exists a, b. split; [done|].
  apply nodup_mid. rewrite <- E. by apply mr_nodup.
Qed.

Lemma next_mem_at k a p b :
  (k < SKIPLIST_LEVELS)%nat -> level sl k = a ++ p :: b ->
  skiplist_next_mem lst (at_ p) k s = (Ret (at_ <$> head b), s).
Proof using Hr.
  intros Hk E. pose proof (mr_level _ _ _ Hr k Hk) as Hl. rewrite E, fmap_app, fmap_cons in Hl.
  unfold skiplist_next_mem, on_heap. rewrite <- (slot_sub k p).
  erewrite list_next_spec by exact Hl. destruct s as [h m]. simpl. do 2 f_equal.
  destruct b as [|y b]; simpl; [done|]. by rewrite slot_sub.
Qed.

Lemma next_mem k p :
  (k < SKIPLIST_LEVELS)%nat -> p ∈ level sl k ->
  skiplist_next_mem lst (at_ p) k s = (Ret (at_ <$> skiplist_next sl p k), s).
Proof using Hr.
  intros Hk Hp. destruct (mr_split k p Hk Hp) as (a & b & E & Ha & _).
  erewrite next_mem_at by done. unfold skiplist_next, seq_next. by rewrite E, seq_after_split.
Qed.

Lemma at_inj x y : x ∈ enc xs -> y ∈ enc xs -> at_ x = at_ y -> x = y.
Proof using Hr.
  intros Hx Hy E. eapply (placed_inj _ (mr_placed _ _ _ Hr) x y 0 0); try done; try (unfold SKIPLIST_LEVELS; lia).
  unfold slot. by rewrite E.
Qed.

(** ** Searches *)

Lemma advance_mem_spec test fuel k rest a p :
  (k < SKIPLIST_LEVELS)%nat -> level sl k = a ++ p :: rest -> (length rest <= fuel)%nat ->
  let r := advance (fun x => test (at_ x)) p rest in
  advance_mem lst test fuel (at_ p) (at_ <$> head rest) k s = (Ret (at_ (fst r), at_ <$> snd r), s) /\
  fst r ∈ level sl k.
Proof using Hr.
  intros Hk. revert a p fuel. induction rest as [|q rest IH]; intros a p fuel E Hf; simpl.
  - rewrite E. destruct fuel; simpl; (split; [done|set_solver]).
  - destruct fuel as [|fuel]; simpl in *; [lia|]. destruct (test (at_ q)) eqn:Et.
    + erewrite bind_ret by (apply (next_mem_at k (a ++ [p]) q rest Hk); rewrite <- app_assoc; exact E).
      apply (IH (a ++ [p])); [by rewrite <- app_assoc|lia].
    + simpl. split; [done|]. rewrite E. set_solver.
Qed.

(** A [path] array in memory; [b] says whether the caller gave one. *)
Definition at_opt (o : option skiplist_node) : option ptr := at_ <$> o.
Definition path_at (b : bool) (pth : list (option skiplist_node)) : option (list (option ptr)) :=
  if b then Some (at_opt <$> pth) else None.

Lemma set_path_at b pth k p : set_path (path_at b pth) k (at_ p) = path_at b (<[k := Some p]> pth).
Proof. destruct b; [|done]. unfold set_path, path_at. simpl. by rewrite list_fmap_insert. Qed.

(** The entries of an array are nodes of their levels. *)
Definition on_levels (sl : skiplist) (pth : path) : Prop :=
  forall j p, (j < SKIPLIST_LEVELS)%nat -> pth !!! j = Some p -> p ∈ level sl j.

Lemma on_levels_insert pth k p :
  on_levels sl pth -> p ∈ level sl k -> on_levels sl (<[k := Some p]> pth).
Proof.
  intros Ho Hp j q Hj. destruct (decide (j = k)) as [->|].
  - destruct (decide (k < length pth)%nat).
    + rewrite list_lookup_total_insert_eq by done. by intros [= ->].
    + rewrite list_insert_ge by lia. by apply Ho.
  - rewrite list_lookup_total_insert_ne by done. by apply Ho.
Qed.

Lemma level_length k : (k < SKIPLIST_LEVELS)%nat -> (length (level sl k) <= size (sm_heap s))%nat.
Proof using Hr.
  intros Hk. pose proof (ring_size _ _ (mr_level _ _ _ Hr k Hk)) as H. simpl in H.
  rewrite length_fmap in H. lia.
Qed.

Lemma walk_mem_spec test fuel k p pth b :
  nested sl -> (size (sm_heap s) <= fuel)%nat -> (k < SKIPLIST_LEVELS)%nat -> p ∈ level sl k -> on_levels sl pth ->
  let '(p', nx, pth') := walk sl (fun x => test (at_ x)) k p pth in
  walk_mem lst test fuel k (at_ p) (path_at b pth) s = (Ret (at_ p', at_ <$> nx, path_at b pth'), s) /\
  on_levels sl pth' /\ p' ∈ level sl 0 /\ (forall x, nx = Some x -> x ∈ level sl 0).
Proof using Hr.
  intros Hn Hf. revert p pth. induction k as [|k IH]; intros p pth Hk Hp Ho; cbn [walk walk_mem].
  all: destruct (mr_split _ p Hk Hp) as (a & rest & E & Ha & _);
    erewrite bind_ret by (by eapply next_mem_at).
  all: pose proof (level_length _ Hk) as Hlen; rewrite E, length_app in Hlen; simpl in Hlen;
    destruct (advance_mem_spec test fuel _ rest a p Hk E) as [Ha' Hin]; [lia|];
    erewrite bind_ret by exact Ha'; replace (seq_after (level sl _) p) with rest by (by rewrite E, seq_after_split).
  all: destruct (advance _ _ rest) as [p' nx] eqn:Ead; cbn [fst snd] in *; rewrite set_path_at.
  - split_and!; [done|by apply on_levels_insert|done|].
    intros x ->. clear - Ead E. revert a p E Ead. induction rest as [|y rest IH]; intros a p E Ead; simpl in *; [done|].
    destruct (test (at_ y)); [|simplify_eq; rewrite E; set_solver].
    apply (IH (a ++ [p]) y); [by rewrite <- app_assoc|done].
  - apply IH; [lia|by apply Hn|by apply on_levels_insert].
Qed.
End Rep.

(** ** Updates *)

(** An operation on one level leaves the others alone. *)
Lemma upd_level s sl xs k l' m' :
  mem_rep s sl xs -> (k < SKIPLIST_LEVELS)%nat ->
  dlist m' (sl_heads lst k) (slot k <$> l') -> (forall x, x ∈ l' -> x ∈ enc xs) ->
  (forall q, allocated m' q <-> allocated (sm_heap s) q) ->
  (forall q, q <> sl_heads lst k -> (forall x, x ∈ enc xs -> q <> slot k x) -> m' !! q = sm_heap s !! q) ->
  mem_rep (mk_skip_mem (sm_height s) m') (mk_skiplist (height sl) (<[k := l']> (heads sl))) xs.
Proof.
  intros Hr Hk Hd Hsub Ha Ho. pose proof (mr_placed _ _ _ Hr) as Hpl. pose proof (mr_len _ _ _ Hr) as Hlen.
  split; simpl; [done|apply Hr|by rewrite length_insert| | |].
  - intros x j Hx Hj. apply Ha. by apply Hr.
  - intros j Hj. unfold level; simpl. destruct (decide (j = k)) as [->|Hne].
    + rewrite list_lookup_total_insert_eq by lia. done.
    + rewrite list_lookup_total_insert_ne by done.
      pose proof (mr_level _ _ _ Hr j Hj) as Hl. fold (level sl j).
      eapply (ring_frame (sl_heads lst k :: (slot k <$> enc xs))); [split; [exact Ha|]| |exact Hl].
      * intros q [Hq Hqx]%not_elem_of_cons. apply Ho; [done|]. intros x Hx ->. apply Hqx.
        by apply list_elem_of_fmap_2.
      * intros q [->|Hq]%elem_of_cons.
        -- intros [E|(x & E & Hx)%list_elem_of_fmap]%elem_of_cons; [by apply Hne, heads_inj|].
           by apply (placed_heads _ Hpl x k j).
        -- apply list_elem_of_fmap in Hq as (y & -> & Hy). apply (mr_sub _ _ _ Hr) in Hy; [|done].
           intros [E|(x & E & Hx)%list_elem_of_fmap]%elem_of_cons; [by apply (placed_heads _ Hpl y j k)|].
           by apply (placed_inj _ Hpl) in E as [_ ->].
  - intros j x Hj. unfold level; simpl. destruct (decide (j = k)) as [->|Hne].
    + rewrite list_lookup_total_insert_eq by lia. auto.
    + rewrite list_lookup_total_insert_ne by done. by apply (mr_sub _ _ _ Hr).
Qed.

Lemma only_level s m' F k xs :
  only F (sm_heap s) m' -> (forall q, q ∈ F -> q = sl_heads lst k \/ exists x, x ∈ enc xs /\ q = slot k x) ->
  (forall q, allocated m' q <-> allocated (sm_heap s) q) /\
  (forall q, q <> sl_heads lst k -> (forall x, x ∈ enc xs -> q <> slot k x) -> m' !! q = sm_heap s !! q).
Proof.
  intros [Ha Ho] HF. split; [exact Ha|]. intros q Hq Hx. apply Ho. intros [->|(x & Hin & ->)]%HF; [done|].
  by apply (Hx x).
Qed.

Lemma add_after_mem s sl xs k p n :
  mem_rep s sl xs -> (k < SKIPLIST_LEVELS)%nat -> p ∈ level sl k -> n ∈ enc xs -> n ∉ level sl k ->
  exists s', skiplist_add_after_mem (at_ p) (at_ n) k s = (Ret tt, s') /\ mem_rep s' (skiplist_add_after sl p n k) xs.
Proof.
  intros Hr Hk Hp Hn Hnl. destruct (mr_split s sl xs Hr k p Hk Hp) as (a & b & E & Ha & _).
  pose proof (mr_level _ _ _ Hr k Hk) as Hl. pose proof (mr_placed _ _ _ Hr) as Hpl.
  assert (forall x, x ∈ a ++ p :: b -> x ∈ enc xs) as Hsub by (intros x Hx; eapply (mr_sub _ _ _ Hr k); [done|by rewrite E]).
  pose proof Hl as Hl'. rewrite E, fmap_app, fmap_cons in Hl'.
  destruct (add_after_dlist _ _ _ _ _ (slot k n) Hl') as (m' & Em & Hd & Ho).
  - intros [Hx|Hx]%elem_of_cons; [by apply (placed_heads _ Hpl n k k)|].
    rewrite <- fmap_cons, <- fmap_app in Hx. apply list_elem_of_fmap in Hx as (y & Ey & Hy).
    apply (placed_inj _ Hpl) in Ey as [<- _]; auto. apply Hnl. by rewrite E.
  - by apply (mr_alloc _ _ _ Hr).
  - unfold skiplist_add_after_mem, on_heap. fold (slot k p) (slot k n). rewrite Em.
    eexists. split; [done|]. unfold skiplist_add_after. rewrite E, seq_add_after_split by done.
    destruct (only_level s m' _ k xs Ho) as [Ha' Ho'].
    { intros q. rewrite <- fmap_cons, <- fmap_app, !elem_of_cons.
      intros [->|[->|(x & -> & Hx)%list_elem_of_fmap]]; eauto. }
    apply (upd_level s sl xs k); [done|done| |set_solver|done|done].
    by rewrite fmap_app, !fmap_cons.
Qed.

Lemma del_from_mem s sl xs k n :
  mem_rep s sl xs -> (k < SKIPLIST_LEVELS)%nat -> n ∈ level sl k ->
  exists s', skiplist_del_from_mem lst (at_ n) k s = (Ret tt, s') /\ mem_rep s' (skiplist_del_from sl n k) xs.
Proof.
  intros Hr Hk Hn. destruct (mr_split s sl xs Hr k n Hk Hn) as (a & b & E & Ha & _).
  pose proof (mr_level _ _ _ Hr k Hk) as Hl.
  assert (forall x, x ∈ a ++ n :: b -> x ∈ enc xs) as Hsub by (intros x Hx; eapply (mr_sub _ _ _ Hr k); [done|by rewrite E]).
  rewrite E, fmap_app, fmap_cons in Hl. destruct (del_from_dlist _ _ _ _ _ Hl) as (m' & Em & Hd & Ho).
  unfold skiplist_del_from_mem, on_heap. fold (slot k n). rewrite Em.
  eexists. split; [done|]. unfold skiplist_del_from. rewrite E, seq_del_from_split by done.
  destruct (only_level s m' _ k xs Ho) as [Ha' Ho'].
  { intros q. rewrite <- fmap_app, elem_of_cons. intros [->|(x & -> & Hx)%list_elem_of_fmap]; [by left|].
    right. exists x. split; [|done]. apply Hsub. set_solver. }
  apply (upd_level s sl xs k); [done|done| |set_solver|done|done]. by rewrite fmap_app.
Qed.

Lemma level_insert_ne h l hs j k : j <> k -> level (mk_skiplist h (<[k := l]> hs)) j = level (mk_skiplist h hs) j.
Proof. intros H. unfold level. simpl. by rewrite list_lookup_total_insert_ne. Qed.

Lemma upd_lookup (upd : list (option skiplist_node)) k :
  (k < SKIPLIST_LEVELS)%nat -> length upd = SKIPLIST_LEVELS -> (at_opt <$> upd) !!! k = at_opt (upd !!! k).
Proof. intros Hk Hl. apply (list_lookup_total_fmap at_opt). lia. Qed.

Lemma link_levels_refines n upd k s sl sl' xs :
  mem_rep s sl xs -> (k < SKIPLIST_LEVELS)%nat -> length upd = SKIPLIST_LEVELS -> n ∈ enc xs ->
  (forall j, (j <= k)%nat -> (n ∉ level sl j) /\ forall p, upd !!! j = Some p -> p ∈ level sl j) ->
  link_levels sl n upd k = Some sl' ->
  exists s', link_levels_mem (at_ n) (at_opt <$> upd) k s = (Ret tt, s') /\ mem_rep s' sl' xs.
Proof.
  intros Hr Hk Hlen Hn. revert s sl Hr Hk.
  induction k as [|k IH]; intros s sl Hr Hk Hj; cbn [link_levels link_levels_mem];
    rewrite upd_lookup by done; (destruct (upd !!! _) as [p|] eqn:Eu; [|done]); simpl;
    (erewrite bind_ret by done);
    (destruct (add_after_mem s sl xs _ p n Hr Hk) as (s1 & E1 & Hr1); [by apply Hj|done|by apply Hj|]);
    (erewrite bind_ret by exact E1).
  - intros [= <-]. eauto.
  - apply IH; [done|lia|]. intros j Hjk. unfold skiplist_add_after.
    rewrite level_insert_ne by lia. apply Hj. lia.
Qed.

Lemma set_height_rep s sl xs h : mem_rep s sl xs -> mem_rep (mk_skip_mem h (sm_heap s)) (set_height sl h) xs.
Proof. intros Hr. split; try apply Hr. done. Qed.

Lemma link_refines n upd rands s sl sl' xs :
  mem_rep s sl xs -> (height sl < SKIPLIST_LEVELS)%nat -> length upd = SKIPLIST_LEVELS -> n ∈ enc xs -> on_levels sl upd ->
  (forall j, (j < SKIPLIST_LEVELS)%nat -> (n ∉ level sl j) /\ Sentinel ∈ level sl j) ->
  skiplist_link sl n upd rands = Some sl' ->
  exists s', skiplist_link_mem lst (at_ n) (at_opt <$> upd) rands s = (Ret tt, s') /\ mem_rep s' sl' xs.
Proof.
  intros Hr Hh Hlen Hn Ho Hj. unfold skiplist_link, skiplist_link_mem.
  erewrite bind_ret by done. rewrite (mr_height _ _ _ Hr).
  pose proof (random_level_bound rands) as Hb. destruct (Nat.ltb_spec (height sl) (__skiplist_random_level rands)) as [Hlt|Hge].
  - erewrite bind_ret by done. change (Some (sl_sentinel lst)) with (at_opt (Some Sentinel)).
    rewrite <- list_fmap_insert. apply link_levels_refines; [by apply set_height_rep|lia|by rewrite length_insert|done|].
    intros j Hjh. split; [by apply (Hj j); lia|]. intros p Hp.
    assert (on_levels sl (<[S (height sl) := Some Sentinel]> upd)) as Ho'.
    { apply on_levels_insert; [done|]. apply Hj. lia. }
    apply (Ho' j); [lia|done].
  - apply link_levels_refines; [done|lia|done|done|]. intros j Hjk. split; [apply Hj; lia|].
    intros p. apply Ho. lia.
Qed.

Lemma erase_levels_refines n upd todo k s sl sl' xs :
  mem_rep s sl xs -> (k + todo <= SKIPLIST_LEVELS)%nat -> length upd = SKIPLIST_LEVELS -> n ∈ enc xs ->
  (forall j p, (k <= j < SKIPLIST_LEVELS)%nat -> upd !!! j = Some p -> p ∈ level sl j) ->
  erase_levels sl n upd k todo = Some sl' ->
  exists s', erase_levels_mem lst (at_ n) (at_opt <$> upd) k todo s = (Ret tt, s') /\ mem_rep s' sl' xs.
Proof.
  intros Hr Hk Hlen Hn. revert k s sl Hr Hk.
  induction todo as [|todo IH]; intros k s sl Hr Hk Hj; simpl; [intros [= <-]; eauto|].
  assert (k < SKIPLIST_LEVELS)%nat as Hk' by lia.
  rewrite upd_lookup by done. destruct (upd !!! k) as [p|] eqn:Eu; [|done]. simpl.
  erewrite bind_ret by done. assert (p ∈ level sl k) as Hp by (apply Hj; [lia|done]).
  erewrite bind_ret by (by apply (next_mem s sl xs Hr)).
  destruct (decide (skiplist_next sl p k = Some n)) as [E|Hne].
  - rewrite E. simpl. rewrite decide_True by done. intros He.
    assert (n ∈ level sl k) as Hnl.
    { destruct (mr_split s sl xs Hr k p Hk' Hp) as (a & b & El & Ha & _).
      unfold skiplist_next, seq_next in E. rewrite El, seq_after_split in E by done.
      apply head_Some_elem_of in E. rewrite El. set_solver. }
    destruct (del_from_mem s sl xs k n Hr Hk' Hnl) as (s1 & E1 & Hr1). erewrite bind_ret by exact E1.
    apply (IH (S k) s1 _ Hr1); [lia| |done]. intros j q Hjk Hq. unfold skiplist_del_from.
    rewrite level_insert_ne by lia. apply Hj; [lia|done].
  - intros [= <-]. rewrite decide_False; [eauto|].
    destruct (skiplist_next sl p k) as [x|] eqn:Ex; simpl; [|done]. intros [= Ea]. apply Hne. f_equal.
    eapply at_inj; [exact Hr| |done|done]. apply (mr_sub _ _ _ Hr k); [done|].
    destruct (mr_split s sl xs Hr k p Hk' Hp) as (a & b & El & Ha & _).
    unfold skiplist_next, seq_next in Ex. rewrite El, seq_after_split in Ex by done.
    apply head_Some_elem_of in Ex. rewrite El. set_solver.
Qed.

Lemma seq_del_keep l n x : x ∈ l -> x <> n -> x ∈ seq_del_from l n.
Proof.
  induction l as [|y l IH]; simpl; [done|]. intros [->|Hx]%elem_of_cons Hne; case_decide; [done|set_solver..].
Qed.

Lemma erase_keeps_sentinel n upd k todo sl sl1 :
  n <> Sentinel -> erase_levels sl n upd k todo = Some sl1 ->
  (forall j, (j < SKIPLIST_LEVELS)%nat -> Sentinel ∈ level sl j) ->
  height sl1 = height sl /\ forall j, (j < SKIPLIST_LEVELS)%nat -> Sentinel ∈ level sl1 j.
Proof.
  intros Hne. revert k sl. induction todo as [|todo IH]; intros k sl; simpl; [by intros [= <-]|].
  destruct (upd !!! k); [|done]. case_decide; [|by intros [= <-]]. intros E Hs.
  apply (IH _ _ E). intros j Hj. unfold level, skiplist_del_from. simpl.
  destruct (decide (j = k)) as [->|]; [|rewrite list_lookup_total_insert_ne by done; by apply Hs].
  destruct (decide (k < length (heads sl))%nat).
  - rewrite list_lookup_total_insert_eq by done. apply seq_del_keep; [by apply Hs|done].
  - rewrite list_insert_ge by lia. by apply Hs.
Qed.

Lemma reduce_height_refines h s sl xs :
  mem_rep s (set_height sl h) xs -> (h < SKIPLIST_LEVELS)%nat ->
  (forall j, (j < SKIPLIST_LEVELS)%nat -> Sentinel ∈ level sl j) ->
  exists s', reduce_height_mem lst h s = (Ret tt, s') /\ mem_rep s' (set_height sl (reduce_height sl h)) xs.
Proof.
  revert s. induction h as [|h IH]; intros s Hr Hh Hs; cbn [reduce_height reduce_height_mem]; [eauto|].
  erewrite bind_ret by (apply (next_mem s _ xs Hr (S h) Sentinel); [done|by apply Hs]).
  change (skiplist_next (set_height sl (S h)) Sentinel (S h)) with (skiplist_next sl Sentinel (S h)).
  destruct (skiplist_next sl Sentinel (S h)); simpl; [eauto|].
  erewrite bind_ret by done. apply IH; [|lia|done]. by apply (set_height_rep s _ xs h) in Hr.
Qed.

Lemma erase_refines n upd s sl sl' xs :
  mem_rep s sl xs -> (height sl < SKIPLIST_LEVELS)%nat -> length upd = SKIPLIST_LEVELS -> n ∈ enc xs -> n <> Sentinel ->
  on_levels sl upd -> (forall j, (j < SKIPLIST_LEVELS)%nat -> Sentinel ∈ level sl j) ->
  skiplist_erase sl n upd = Some sl' ->
  exists s', skiplist_erase_mem lst (at_ n) (at_opt <$> upd) s = (Ret tt, s') /\ mem_rep s' sl' xs.
Proof.
  intros Hr Hh Hlen Hn Hne Ho Hs. unfold skiplist_erase, skiplist_erase_mem.
  erewrite bind_ret by done. rewrite (mr_height _ _ _ Hr).
  destruct (erase_levels sl n upd 0 (S (height sl))) as [sl1|] eqn:E; [|done]. intros [= <-].
  assert (height sl1 = height sl /\ forall j, (j < SKIPLIST_LEVELS)%nat -> Sentinel ∈ level sl1 j) as [Eh Hs1].
  { apply (erase_keeps_sentinel _ _ _ _ _ _ Hne E). done. }
  destruct (erase_levels_refines n upd (S (height sl)) 0 s sl sl1 xs Hr) as (s1 & E1 & Hr1);
    [lia|done|done|intros j p [_ Hj]; by apply Ho|done|].
  erewrite bind_ret by exact E1. erewrite bind_ret by done. rewrite (mr_height _ _ _ Hr1).
  apply reduce_height_refines; [|lia|done]. by destruct sl1.
Qed.

(** ** Initialisation *)

Lemma level_init k : (k < SKIPLIST_LEVELS)%nat -> level skiplist_init k = [Sentinel].
Proof. intros Hk. unfold SKIPLIST_LEVELS in Hk. do 8 (destruct k as [|k]; [done|]). lia. Qed.

(** Levels [0 .. k-1] are set up. *)
Definition init_upto (m0 : heap) (k : nat) (m : heap) : Prop :=
  (forall q, allocated m q <-> allocated m0 q) /\
  forall j, (j < k)%nat -> dlist m (sl_heads lst j) [slot j Sentinel].

Lemma sentinel_heads j k : (j < SKIPLIST_LEVELS)%nat -> (k < SKIPLIST_LEVELS)%nat ->
  slot j Sentinel <> sl_heads lst k.
Proof.
  unfold slot, node_list, list_off, at_, sl_heads, sl_sentinel, LIST_NODE_SIZE, SKIPLIST_LEVELS. lia.
Qed.

Lemma init_step m0 k s :
  (k < SKIPLIST_LEVELS)%nat -> (forall j, (j < SKIPLIST_LEVELS)%nat -> allocated m0 (sl_heads lst j)) ->
  (forall j, (j < SKIPLIST_LEVELS)%nat -> allocated m0 (slot j Sentinel)) -> init_upto m0 k (sm_heap s) ->
  exists m', (do* on_heap (list_head_init (sl_heads lst k)) in skiplist_add_mem lst (sl_sentinel lst) k) s =
    (Ret tt, mk_skip_mem (sm_height s) m') /\ init_upto m0 (S k) m'.
Proof.
  intros Hk Hh Hs [Ha Hd]. destruct (init_ring (sm_heap s) (sl_heads lst k)) as (m1 & E1 & Hr1 & Ho1); [by apply Ha, Hh|].
  destruct (insert_after_ring m1 (sl_heads lst k) [] (slot k Sentinel) Hr1) as (m2 & E2 & Hr2 & Ho2).
  - rewrite list_elem_of_singleton. by apply sentinel_heads.
  - apply Ho1, Ha. by apply Hs.
  - exists m2. erewrite bind_ret by (unfold on_heap; rewrite E1; reflexivity).
    split; [unfold skiplist_add_mem, on_heap; simpl; unfold list_add;
      change (node_list (sl_sentinel lst) k) with (slot k Sentinel); by rewrite E2|].
    assert (only [sl_heads lst k; slot k Sentinel] (sm_heap s) m2) as Ho.
    { eapply only_trans; (eapply only_weaken; [|eassumption]); set_solver. }
    split; [intros q; rewrite <- Ha; apply Ho|]. intros j Hj. destruct (decide (j = k)) as [->|]; [done|].
    eapply ring_frame; [exact Ho| |apply Hd; lia].
    intros q Hq Hq'. rewrite !elem_of_cons, elem_of_nil in Hq, Hq'.
    destruct Hq as [->|[->|[]]], Hq' as [E|[E|[]]].
    + by apply heads_inj in E.
    + symmetry in E. by apply sentinel_heads in E; [|lia..].
    + by apply sentinel_heads in E; [|lia..].
    + unfold slot, node_list, list_off, LIST_NODE_SIZE in E. lia.
Qed.

Lemma init_refines s xs :
  placed xs -> (forall x k, x ∈ enc xs -> (k < SKIPLIST_LEVELS)%nat -> allocated (sm_heap s) (slot k x)) ->
  (forall k, (k < SKIPLIST_LEVELS)%nat -> allocated (sm_heap s) (sl_heads lst k)) ->
  exists s', skiplist_init_mem lst s = (Ret tt, s') /\ mem_rep s' skiplist_init xs.
Proof.
  intros Hp Ha Hh.
  assert (forall todo k m, (k + todo = SKIPLIST_LEVELS)%nat -> init_upto (sm_heap s) k m ->
    exists m', for_up (fun k => do* on_heap (list_head_init (sl_heads lst k)) in
      skiplist_add_mem lst (sl_sentinel lst) k) k todo (mk_skip_mem 0 m) = (Ret tt, mk_skip_mem 0 m') /\
      init_upto (sm_heap s) SKIPLIST_LEVELS m') as loop.
  { induction todo as [|todo IH]; intros k m Hk Hm; cbn [for_up].
    - exists m. split; [done|]. by replace SKIPLIST_LEVELS with k by lia.
    - destruct (init_step (sm_heap s) k (mk_skip_mem 0 m)) as (m1 & E1 & H1); [lia|done| |done|].
      + intros j Hj. apply Ha; [|done]. unfold enc. set_solver.
      + erewrite bind_ret by exact E1. apply IH; [lia|done]. }
  unfold skiplist_init_mem. erewrite bind_ret by done. simpl.
  destruct (loop SKIPLIST_LEVELS 0%nat (sm_heap s)) as (m' & E & Ha' & Hd); [done|split; [done|lia]|].
  exists (mk_skip_mem 0 m'). split; [exact E|].
  split; simpl; [done..| | |].
  - intros x k Hx Hk. apply Ha'. by apply Ha.
  - intros k Hk. rewrite level_init by done. by apply Hd.
  - intros k x Hk. rewrite level_init by done. intros ->%list_elem_of_singleton. unfold enc. set_solver.
Qed.

(** ** Clearing *)

(** The callback may do what it likes with the node it is given, such as
    releasing it, and leaves the rest of memory alone. *)
Definition callback_ok (f : ptr -> M heap unit) : Prop :=
  forall n m, exists m', f n m = (Ret tt, m') /\
    forall q, (forall j, (j < SKIPLIST_LEVELS)%nat -> q <> node_list n j) -> m' !! q = m !! q.

Definition without (n : nat) (xs : list nat) : list nat := filter (fun x => x <> n) xs.

Lemma elem_enc n xs : Node n ∈ enc xs <-> n ∈ xs.
Proof.
  unfold enc. rewrite elem_of_cons, list_elem_of_fmap. split.
  - intros [?|(x & [= ->] & ?)]; done.
  - right. eauto.
Qed.
Lemma elem_enc_without x n xs : x ∈ enc (without n xs) <-> x ∈ enc xs /\ x <> Node n.
Proof.
  destruct x as [|x].
  - unfold enc. split; [intros _; split; [set_solver|done]|]. set_solver.
  - rewrite !elem_enc. unfold without. rewrite list_elem_of_filter. naive_solver.
Qed.

(** A node on no level can go. *)
Lemma release_rep s sl xs n m' :
  mem_rep s sl xs -> n ∈ xs -> (forall k, (k < SKIPLIST_LEVELS)%nat -> Node n ∉ level sl k) ->
  (forall q, (forall j, (j < SKIPLIST_LEVELS)%nat -> q <> node_list (addr n) j) -> m' !! q = sm_heap s !! q) ->
  mem_rep (mk_skip_mem (sm_height s) m') sl (without n xs).
Proof.
  intros Hr Hn Hl Hm. pose proof (mr_placed _ _ _ Hr) as Hpl. apply elem_enc in Hn.
  assert (forall x k, x ∈ enc (without n xs) -> (k < SKIPLIST_LEVELS)%nat -> m' !! slot k x = sm_heap s !! slot k x) as Hsame.
  { intros x k [Hx Hne]%elem_enc_without Hk. apply Hm. intros j Hj E.
    by apply (placed_inj _ Hpl x (Node n) k j) in E as [-> _]. }
  assert (forall k x, (k < SKIPLIST_LEVELS)%nat -> x ∈ level sl k -> x ∈ enc (without n xs)) as Hsub.
  { intros k x Hk Hx. apply elem_enc_without. split; [by apply (mr_sub _ _ _ Hr k)|]. intros ->. by apply (Hl k). }
  split; simpl; try apply Hr.
  - split; intros; repeat match goal with H : _ ∈ enc (without _ _) |- _ => apply elem_enc_without in H as [H _] end.
    + by apply (placed_inj _ Hpl).
    + by apply (placed_heads _ Hpl).
    + by apply (placed_null _ Hpl).
  - intros x k Hx Hk. unfold allocated. rewrite Hsame by done. apply (mr_alloc _ _ _ Hr); [|done].
    by apply elem_enc_without in Hx as [? _].
  - intros k Hk. eapply ring_agree; [|by apply (mr_level _ _ _ Hr)].
    intros q [->|(x & -> & Hx)%list_elem_of_fmap]%elem_of_cons.
    + apply Hm. intros j Hj E. by apply (placed_heads _ Hpl (Node n) j k).
    + apply Hsame; [by apply (Hsub k)|done].
  - exact Hsub.
Qed.

(** The nodes that still exist when the nodes [d] of level [k] are gone. *)
Definition survivors (fn : option (ptr -> M heap unit)) (k : nat) (d xs : list nat) : list nat :=
  if bool_decide (is_Some fn) && (k =? 0)%nat then foldl (fun xs n => without n xs) xs d else xs.

Lemma survivors_snoc fn k d n xs :
  survivors fn k (d ++ [n]) xs =
    if bool_decide (is_Some fn) && (k =? 0)%nat then without n (survivors fn k d xs) else survivors fn k d xs.
Proof. unfold survivors. destruct (_ && _); [|done]. by rewrite foldl_app. Qed.

Section ClearLevel.
Context (fn : option (ptr -> M heap unit)) (Hfn : forall f, fn = Some f -> callback_ok f).
Context (sl : skiplist) (xs : list nat) (k : nat) (ns : list nat).
Context (Hk : (k < SKIPLIST_LEVELS)%nat) (Hlen : length (heads sl) = SKIPLIST_LEVELS) (Hl : level sl k = enc ns).
Context (Habove : forall j, (k < j < SKIPLIST_LEVELS)%nat -> level sl j = enc []).

Definition left_with (rest : list nat) : skiplist := mk_skiplist (height sl) (<[k := enc rest]> (heads sl)).

Lemma level_left rest : level (left_with rest) k = enc rest.
Proof using Hk Hlen. unfold level. simpl. by rewrite list_lookup_total_insert_eq by lia. Qed.

(** One node of the level goes. *)
Lemma clear_body_node d n rest s :
  ns = d ++ n :: rest -> mem_rep s (left_with (n :: rest)) (survivors fn k d xs) ->
  exists s', clear_body lst fn k (addr n) s = (Ret Continue, s') /\
    mem_rep s' (left_with rest) (survivors fn k (d ++ [n]) xs).
Proof using Hk Hlen Hfn Habove Hl.
  intros -> Hr. pose proof (mr_placed _ _ _ Hr) as Hpl.
  assert (Node n ∈ level (left_with (n :: rest)) k) as Hin by (rewrite level_left; apply elem_enc; set_solver).
  assert (Node n ∈ enc (survivors fn k d xs)) as Hx by (by apply (mr_sub _ _ _ Hr k)).
  destruct (del_from_mem s _ _ k (Node n) Hr Hk Hin) as (s1 & E1 & Hr1).
  assert (skiplist_del_from (left_with (n :: rest)) (Node n) k = left_with rest) as El.
  { unfold skiplist_del_from. rewrite level_left. unfold left_with. simpl. rewrite list_insert_insert_eq.
    do 2 f_equal. apply (seq_del_from_enc [] n rest). set_solver. }
  rewrite El in Hr1. pose proof (mr_nodup _ _ _ Hr k Hk) as Hnd. rewrite level_left in Hnd.
  assert (n ∉ rest) as Hnr.
  { unfold enc in Hnd. simpl in Hnd. apply NoDup_cons in Hnd as [_ Hnd]. apply NoDup_cons in Hnd as [Hnd _].
    intros ?. apply Hnd. by apply list_elem_of_fmap_2. }
  unfold clear_body. rewrite (proj2 (Z.eqb_neq _ _)) by (by apply (placed_null _ Hpl (Node n))).
  rewrite (proj2 (Z.eqb_neq (addr n) _)) by (intros E; by apply (at_inj _ _ _ Hr (Node n) Sentinel) in E; [|done|unfold enc; set_solver]).
  cbn [orb]. change (addr n) with (at_ (Node n)). erewrite bind_ret by exact E1.
  rewrite survivors_snoc. destruct fn as [f|]; [|eauto].
  destruct (Nat.eqb_spec k 0) as [Ek|]; [|rewrite andb_false_r; eauto].
  rewrite bool_decide_true by done. simpl.
  destruct (Hfn f eq_refl (addr n) (sm_heap s1)) as (m2 & E2 & H2).
  erewrite bind_ret by (unfold on_heap; rewrite E2; reflexivity). eexists. split; [done|].
  eapply release_rep; [exact Hr1|by apply elem_enc| |done].
  intros j Hj. destruct (decide (j = k)) as [->|Hne]; [rewrite level_left, elem_enc; done|].
  unfold left_with. rewrite level_insert_ne by done.
  change (level (mk_skiplist (height sl) (heads sl)) j) with (level sl j).
  rewrite Habove by lia. rewrite elem_enc. set_solver.
Qed.

Abbreviation slots rest := (slot k <$> (Node <$> rest)).

Lemma left_next rest ys s : mem_rep s (left_with rest) ys ->
  exists q, reads sm_heap load_next s (hd (sl_heads lst k) (slots rest)) q /\
    (slots rest <> [] -> q = hd (sl_heads lst k) (tail (slots rest))).
Proof using Hk Hlen.
  intros Hr. pose proof (mr_level _ _ _ Hr k Hk) as Hd. rewrite level_left in Hd. unfold enc in Hd.
  unfold reads. destruct rest as [|y rest]; cbn [fmap list_fmap hd tail] in *.
  - exists (slot k Sentinel). split; [|done]. apply load_next_ok. destruct Hd as [_ Hc]. by apply chain_first in Hc.
  - eexists. split; [|done]. apply load_next_ok. by apply (list_next_hd _ _ [slot k Sentinel]).
Qed.

Lemma slot_not_head sl' ys s x : mem_rep s sl' ys -> x ∈ enc ys -> sl_heads lst k <> slot k x.
Proof using Hk. intros Hr Hx E. by apply (placed_heads _ (mr_placed _ _ _ Hr) x k k). Qed.

(** Nodes still to visit: the sentinel and all the others, or a rest of them. *)
Definition clear_inv (r : list ptr) (s : skip_mem) : Prop :=
  (r = slot k Sentinel :: slots ns /\ mem_rep s (left_with ns) xs) \/
  exists d rest, ns = d ++ rest /\ r = slots rest /\ mem_rep s (left_with rest) (survivors fn k d xs).

Lemma clear_inv_head r s : clear_inv r s -> sl_heads lst k ∉ r.
Proof using Hk Hlen.
  assert (forall rest ys, mem_rep s (left_with rest) ys -> sl_heads lst k ∉ slot k Sentinel :: slots rest) as H.
  { intros rest ys Hr Hx. change (slot k Sentinel :: slots rest) with (slot k <$> enc rest) in Hx.
    apply list_elem_of_fmap in Hx as (x & E & Hx). eapply slot_not_head; [exact Hr| |exact E].
    apply (mr_sub _ _ _ Hr k); [done|]. by rewrite level_left. }
  intros [[-> Hr]|(d & rest & _ & -> & Hr)]; [by eapply H|]. by apply H, not_elem_of_cons in Hr as [_ ?].
Qed.

Lemma clear_inv_step x r s : clear_inv (x :: r) s ->
  exists f s', clear_body lst fn k (x - list_off k) s = (Ret f, s') /\
    match f with
    | Break => False
    | Continue => (exists q, reads sm_heap load_next s' (hd (sl_heads lst k) r) q /\
        (r <> [] -> q = hd (sl_heads lst k) (tail r))) /\ clear_inv r s'
    end.
Proof using Hk Hlen Hfn Habove Hl.
  intros [[[= -> ->] Hr]|(d & rest & E & Er & Hr)].
  - exists Continue, s. rewrite slot_sub. split; [unfold clear_body; simpl; by rewrite Z.eqb_refl, orb_true_r|].
    split; [by eapply left_next|]. right. exists [], ns. split_and!; [done..|].
    unfold survivors. simpl. by destruct (_ && _).
  - destruct rest as [|n rest]; [done|]. cbn [fmap list_fmap] in Er. injection Er as -> ->. rewrite slot_sub.
    destruct (clear_body_node d n rest s E Hr) as (s' & E' & Hr'). exists Continue, s'. split; [done|].
    split; [by eapply left_next|]. right. exists (d ++ [n]), rest. split_and!; [by rewrite <- app_assoc|done..].
Qed.

Lemma clear_level_refines fuel s :
  mem_rep s sl xs -> (length ns < fuel)%nat ->
  exists s', clear_level_mem lst fn fuel k s = (Ret Continue, s') /\
    mem_rep s' (clear_level sl k) (survivors fn k ns xs).
Proof using Hk Hlen Hfn Habove Hl.
  intros Hr Hf. rewrite (clear_level_spec sl k ns) by (done || lia).
  assert (left_with ns = sl) as Els.
  { unfold left_with. rewrite <- Hl. unfold level. rewrite list_insert_id; [by destruct sl|].
    apply list_lookup_lookup_total_lt. lia. }
  pose proof Hr as Hr0. rewrite <- Els in Hr0.
  unfold clear_level_mem, list_for_each_safe.
  pose proof (mr_level _ _ _ Hr k Hk) as Hd. rewrite Hl in Hd. unfold enc in Hd. cbn [fmap list_fmap] in Hd.
  assert (reads sm_heap load_next s (sl_heads lst k) (slot k Sentinel)) as R0.
  { apply load_next_ok. destruct Hd as [_ Hc]. by apply chain_first in Hc. }
  assert (reads sm_heap load_next s (slot k Sentinel) (hd (sl_heads lst k) (slots ns))) as R1.
  { apply load_next_ok. by apply (list_next_hd _ _ []). }
  erewrite bind_ret by (by apply rd_reads). unfold list_node_from_off, list_node_to_off. rewrite Z.sub_add.
  erewrite bind_ret by (by apply rd_reads).
  destruct (for_each_safe_loop_spec sm_heap (clear_body lst fn k) load_next (sl_heads lst k) (list_off k)
    clear_inv (fun _ => False) clear_inv_head (slot k Sentinel :: slots ns) fuel s clear_inv_step)
    with (q := hd (sl_heads lst k) (slots ns)) as (f & s' & E & Hs).
  - by left.
  - simpl. rewrite !length_fmap. lia.
  - done.
  - destruct f; [|done]. exists s'. split; [exact E|].
    destruct Hs as [[? _]|(d & rest & -> & Er & Hr')]; [done|].
    destruct rest; [|done]. by rewrite app_nil_r.
Qed.
End ClearLevel.

Lemma clear_level_at fn fuel k s sl xs L :
  (forall f, fn = Some f -> callback_ok f) ->
  mem_rep s sl xs -> heads sl = enc <$> L -> (k < SKIPLIST_LEVELS)%nat ->
  (forall j, (k < j < SKIPLIST_LEVELS)%nat -> L !!! j = []) ->
  (forall j, (j < SKIPLIST_LEVELS)%nat -> (length (L !!! j) < fuel)%nat) ->
  length L = SKIPLIST_LEVELS /\
  exists s', clear_level_mem lst fn fuel k s = (Ret Continue, s') /\
    mem_rep s' (clear_level sl k) (survivors fn k (L !!! k) xs).
Proof.
  intros Hfn Hr Hh Hk Hab Hf.
  assert (length L = SKIPLIST_LEVELS) as HlenL by (rewrite <- (mr_len _ _ _ Hr), Hh; by rewrite length_fmap).
  split; [done|]. apply clear_level_refines; [done|done|apply Hr|apply level_of_heads; [done|lia]| |done|by apply Hf].
  intros j Hj. rewrite (level_of_heads sl L) by (done || lia). by rewrite Hab by lia.
Qed.

Lemma clear_levels_refines fn fuel k s sl xs L :
  (forall f, fn = Some f -> callback_ok f) ->
  mem_rep s sl xs -> heads sl = enc <$> L -> (k < SKIPLIST_LEVELS)%nat ->
  (forall j, (k < j < SKIPLIST_LEVELS)%nat -> L !!! j = []) ->
  (forall j, (j < SKIPLIST_LEVELS)%nat -> (length (L !!! j) < fuel)%nat) ->
  exists s', clear_levels_mem lst fn fuel k s = (Ret tt, s') /\
    mem_rep s' (clear_levels sl k) (survivors fn 0 (L !!! 0%nat) xs).
Proof.
  intros Hfn. revert s sl L. induction k as [|k IH]; intros s sl L Hr Hh Hk Hab Hf; cbn [clear_levels clear_levels_mem];
    destruct (clear_level_at fn fuel _ s sl xs L Hfn Hr Hh Hk Hab Hf) as (HlenL & s1 & E1 & Hr1);
    (erewrite bind_ret by exact E1).
  - eauto.
  - assert (survivors fn (S k) (L !!! S k) xs = xs) as Es by (unfold survivors; by rewrite andb_false_r).
    rewrite Es in Hr1.
    destruct (IH s1 (clear_level sl (S k)) (<[S k := []]> L) Hr1) as (s2 & E2 & Hr2); [|lia| |..].
    + rewrite (clear_level_spec sl (S k) (L !!! S k)); [|rewrite Hh, length_fmap; lia|apply level_of_heads; [done|lia]].
      simpl. by rewrite Hh, list_fmap_insert.
    + intros j Hj. destruct (decide (j = S k)) as [->|]; [by rewrite list_lookup_total_insert_eq by lia|].
      rewrite list_lookup_total_insert_ne by done. apply Hab. lia.
    + intros j Hj. destruct (decide (j = S k)) as [->|];
        [rewrite list_lookup_total_insert_eq by lia; specialize (Hf 0%nat ltac:(lia)); simpl; lia|].
      rewrite list_lookup_total_insert_ne by done. by apply Hf.
    + rewrite list_lookup_total_insert_ne in Hr2 by done. eauto.
Qed.

(** ** What clients see *)

(** Memory holds a well-formed skip list whose sequence is [ns]; the nodes [xs]
    exist. *)
Definition mem_contents (s : skip_mem) (xs ns : list nat) : Prop :=
  exists sl, mem_rep s sl xs /\ skiplist_contents sl ns.

(** The same with the nodes of every level: those of level [k] are [L !!! k]. *)
Definition mem_levels (s : skip_mem) (xs : list nat) (L : list (list nat)) : Prop :=
  exists sl, mem_rep s sl xs /\ skiplist_rep sl L.

Lemma mem_levels_contents s xs L : mem_levels s xs L -> mem_contents s xs (L !!! 0%nat).
Proof. intros (sl & Hr & Hrep). exists sl. split; [done|]. by exists L. Qed.

Lemma mem_contents_levels s xs ns : mem_contents s xs ns -> exists L, mem_levels s xs L /\ L !!! 0%nat = ns.
Proof. intros (sl & Hr & L & Hrep & HL). exists L. split; [by exists sl|done]. Qed.

Lemma mem_levels_dlist s xs L k :
  mem_levels s xs L -> (k < SKIPLIST_LEVELS)%nat -> dlist (sm_heap s) (sl_heads lst k) (slot k <$> enc (L !!! k)).
Proof.
  intros (sl & Hr & Hrep) Hk. rewrite <- (level_enc sl L Hrep k) by done. by apply (mr_level _ _ _ Hr).
Qed.

Lemma rep_nested sl L : skiplist_rep sl L -> nested sl.
Proof.
  intros Hrep k x Hk. rewrite !(level_enc sl L Hrep) by lia. unfold enc.
  rewrite !elem_of_cons, !list_elem_of_fmap. intros [?|(y & -> & Hy)]; [by left|]. right. exists y. split; [done|].
  eapply elem_of_sublist; [exact Hy|]. by apply (rep_sub _ _ Hrep).
Qed.

Lemma rep_sentinel sl L k : skiplist_rep sl L -> (k < SKIPLIST_LEVELS)%nat -> Sentinel ∈ level sl k.
Proof. intros Hrep Hk. rewrite (level_enc sl L Hrep) by done. unfold enc. set_solver. Qed.

Section Client.
Context {K : Type} (cmp : K -> ptr -> Z) (key : K) (fuel : nat) (s : skip_mem) (sl : skiplist) (xs : list nat) (L : list (list nat)).
Context (Hr : mem_rep s sl xs) (Hrep : skiplist_rep sl L) (Hf : (size (sm_heap s) <= fuel)%nat).

(** The callback on nodes. *)
Definition cmp_at (k : K) (x : skiplist_node) : Z := cmp k (at_ x).

Lemma null_on_levels : on_levels sl null_path.
Proof.
  intros j p Hj. unfold null_path. by rewrite lookup_total_replicate_2 by done.
Qed.

Lemma walk_from_top test b :
  let '(p', nx, pth') := walk sl (fun x => test (at_ x)) (height sl) Sentinel null_path in
  walk_mem lst test fuel (sm_height s) (sl_sentinel lst) (path_at b null_path) s =
    (Ret (at_ p', at_ <$> nx, path_at b pth'), s) /\
  on_levels sl pth' /\ p' ∈ level sl 0 /\ (forall x, nx = Some x -> x ∈ level sl 0).
Proof using Hr Hrep Hf.
  rewrite (mr_height _ _ _ Hr). apply (walk_mem_spec s sl xs Hr); [by eapply rep_nested|done|apply Hrep| |apply null_on_levels].
  eapply rep_sentinel; [done|apply Hrep].
Qed.

Lemma find_refines b :
  let r := skiplist_find cmp_at sl key null_path in
  skiplist_find_mem lst cmp fuel key (path_at b null_path) s = (Ret (at_ <$> fst r, path_at b (snd r)), s) /\
  on_levels sl (snd r).
Proof using Hr Hrep Hf.
  unfold skiplist_find_mem, skiplist_find. erewrite bind_ret by done.
  pose proof (walk_from_top (fun n => 0 <? cmp key n) b) as H. unfold cmp_at.
  destruct (walk _ _ _ _ _) as [[p nx] pth]. destruct H as (E & Ho & _ & _). erewrite bind_ret by exact E.
  simpl. destruct nx as [x|]; simpl; [|done]. by destruct (cmp key (at_ x) =? 0).
Qed.

Lemma find_ge_refines b :
  let r := skiplist_find_ge cmp_at sl key null_path in
  skiplist_find_ge_mem lst cmp fuel key (path_at b null_path) s = (Ret (at_ <$> fst r, path_at b (snd r)), s) /\
  on_levels sl (snd r).
Proof using Hr Hrep Hf.
  unfold skiplist_find_ge_mem, skiplist_find_ge. erewrite bind_ret by done.
  pose proof (walk_from_top (fun n => 0 <? cmp key n) b) as H. unfold cmp_at.
  destruct (walk _ _ _ _ _) as [[p nx] pth]. destruct H as (E & Ho & _ & _). by erewrite bind_ret by exact E.
Qed.

Lemma find_le_refines b :
  let r := skiplist_find_le cmp_at sl key null_path in
  skiplist_find_le_mem lst cmp fuel key (path_at b null_path) s = (Ret (at_ <$> fst r, path_at b (snd r)), s) /\
  on_levels sl (snd r).
Proof using Hr Hrep Hf.
  unfold skiplist_find_le_mem, skiplist_find_le. erewrite bind_ret by done.
  pose proof (walk_from_top (fun n => 0 <=? cmp key n) b) as H. unfold cmp_at.
  destruct (walk _ _ _ _ _) as [[p nx] pth]. destruct H as (E & Ho & Hp & _). erewrite bind_ret by exact E.
  simpl. split; [|done]. unfold ret. do 3 f_equal. case_decide as Ep; [subst; by rewrite Z.eqb_refl|].
  rewrite (proj2 (Z.eqb_neq _ _)); [done|]. intros E'. apply Ep.
  apply (at_inj s sl xs Hr); [|unfold enc; set_solver|done]. apply (mr_sub _ _ _ Hr 0); [unfold SKIPLIST_LEVELS; lia|done].
Qed.
End Client.

Lemma find_snd_length {K} (cmp : K -> skiplist_node -> Z) sl key :
  length (snd (skiplist_find cmp sl key null_path)) = SKIPLIST_LEVELS.
Proof. apply (proj1 (find_length cmp sl key null_path)). Qed.

End Refine.

(** ** Properties *)

Section Theorems.
Context (lst : ptr) (addr : nat -> ptr).

Lemma absent_levels sl L n ns j :
  skiplist_rep sl L -> L !!! 0%nat = ns -> n ∉ ns -> (j < SKIPLIST_LEVELS)%nat -> Node n ∉ level sl j.
Proof.
  intros Hrep <- Hn Hj. rewrite (level_enc sl L Hrep) by done. rewrite elem_enc.
  intros Hx. apply Hn. eapply elem_of_sublist; [exact Hx|by apply level_sublist with (sl := sl)].
Qed.

(** The three searches on memory: whatever the levels and with or without a
    [path] array, they follow only valid pointers, end within as many steps per
    level as memory has nodes, leave memory unchanged, and return the address of
    the node a linear scan of the level-0 list finds (null where there is none). *)
Theorem skiplist_memory_search {K} (cmp : K -> ptr -> Z) (key : K) s xs ns b :
  mem_contents lst addr s xs ns ->
  cmp_ordered (cmp_at lst addr cmp) key ns ->
  let fuel := size (sm_heap s) in
  let path := path_at lst addr b null_path in
  (exists path', skiplist_find_mem lst cmp fuel key path s =
    (Ret (addr <$> List.find (fun n => cmp key (addr n) =? 0) ns, path'), s)) /\
  (exists path', skiplist_find_le_mem lst cmp fuel key path s =
    (Ret (addr <$> last (filter (fun n => (0 <=? cmp key (addr n)) = true) ns), path'), s)) /\
  (exists path', skiplist_find_ge_mem lst cmp fuel key path s =
    (Ret (addr <$> List.find (fun n => cmp key (addr n) <=? 0) ns, path'), s)).
Proof.
  intros (sl & Hr & Hc) Ho. cbv zeta.
  assert (forall o : option nat, at_ lst addr <$> (Node <$> o) = addr <$> o) as Eo by (by intros []).
  destruct (skiplist_find_linear (cmp_at lst addr cmp) sl ns key null_path Hc eq_refl Ho) as (F1 & F2 & F3).
  destruct Hc as (L & Hrep & <-).
  destruct (find_refines lst addr cmp key (size (sm_heap s)) s sl xs L Hr Hrep (le_n _) b) as [-> _].
  destruct (find_le_refines lst addr cmp key (size (sm_heap s)) s sl xs L Hr Hrep (le_n _) b) as [-> _].
  destruct (find_ge_refines lst addr cmp key (size (sm_heap s)) s sl xs L Hr Hrep (le_n _) b) as [-> _].
  rewrite F1, F2, F3, !Eo. split_and!; by eexists.
Qed.

Lemma insert_levels {K} (cmp : K -> ptr -> Z) (key : K) s xs L n rands :
  mem_levels lst addr s xs L -> cmp_ordered (cmp_at lst addr cmp) key (L !!! 0%nat) -> n ∈ xs -> n ∉ L !!! 0%nat ->
  exists found update s' L',
    skiplist_find_mem lst cmp (size (sm_heap s)) key (path_at lst addr true null_path) s =
      (Ret (found, Some update), s) /\
    skiplist_link_mem lst (addr n) update rands s = (Ret tt, s') /\
    mem_levels lst addr s' xs L' /\
    forall k, L' !!! k = if decide (k <= link_level (sm_height s) rands)%nat
      then ins (fun m => 0 <? cmp_at lst addr cmp key m) n (L !!! k) else L !!! k.
Proof.
  intros (sl & Hr & Hrep) Ho Hx Hn.
  destruct (levels_link (cmp_at lst addr cmp) sl key L n rands Hrep Ho Hn) as (sl' & L' & El & Hrep' & HL').
  destruct (find_refines lst addr cmp key (size (sm_heap s)) s sl xs L Hr Hrep (le_n _) true) as [Ef Hon].
  destruct (link_refines lst addr (Node n) _ rands s sl sl' xs Hr (rep_height _ _ Hrep)
    (find_snd_length _ sl key) (proj2 (elem_enc n xs) Hx) Hon) as (s' & Es & Hr'); [|exact El|].
  - intros j Hj. split; [by eapply absent_levels|by eapply rep_sentinel].
  - eexists _, _, s', L'. split; [exact Ef|]. split; [exact Es|]. split; [by exists sl'|].
    by rewrite (mr_height _ _ _ _ _ Hr).
Qed.

(** C30. Insertion in memory, as clients do it (a search that fills the [update]
    array, then [skiplist_link]): for a node that exists and is not on the list, no
    invalid pointer is followed and all eight lists stay well formed; on the levels
    up to the one the random draw gives the node, the list in memory holds it
    between the nodes below the key and the others, and the levels above are as they
    were. *)
Theorem skiplist_memory_insert {K} (cmp : K -> ptr -> Z) (key : K) s xs L n rands :
  mem_levels lst addr s xs L -> cmp_ordered (cmp_at lst addr cmp) key (L !!! 0%nat) -> n ∈ xs -> n ∉ L !!! 0%nat ->
  let test := fun m => 0 <? cmp_at lst addr cmp key m in
  let put ns := before test ns ++ n :: after test ns in
  exists found update s' L',
    skiplist_find_mem lst cmp (size (sm_heap s)) key (path_at lst addr true null_path) s =
      (Ret (found, Some update), s) /\
    skiplist_link_mem lst (addr n) update rands s = (Ret tt, s') /\
    mem_levels lst addr s' xs L' /\ mem_contents lst addr s' xs (put (L !!! 0%nat)) /\
    forall k, (k < SKIPLIST_LEVELS)%nat ->
      L' !!! k = (if decide (k <= link_level (sm_height s) rands)%nat then put (L !!! k) else L !!! k) /\
      dlist (sm_heap s') (sl_heads lst k) (slot lst addr k <$> enc (L' !!! k)).
Proof.
  intros Hs Ho Hx Hn test put. destruct (insert_levels cmp key s xs L n rands Hs Ho Hx Hn) as (found & update & s' & L' & Ef & El & Hs' & HL').
  exists found, update, s', L'. split; [exact Ef|]. split; [exact El|]. split; [exact Hs'|]. split.
  - apply mem_levels_contents in Hs'. by rewrite HL', decide_True in Hs' by lia.
  - intros k Hk. split; [apply HL'|by eapply mem_levels_dlist].
Qed.

(** C31. Removal in memory: erasing the node a search returned, with the array it
    filled, follows no invalid pointer and unlinks the node from every level it is
    on and nothing else: afterwards the list of each level is the one before with
    that node, if it was there, taken out and every other node in place.  The node
    still exists and is on no list.  A search that finds nothing is right. *)
Theorem skiplist_memory_remove {K} (cmp : K -> ptr -> Z) (key : K) s xs L :
  mem_levels lst addr s xs L -> cmp_ordered (cmp_at lst addr cmp) key (L !!! 0%nat) ->
  exists found update,
    skiplist_find_mem lst cmp (size (sm_heap s)) key (path_at lst addr true null_path) s =
      (Ret (found, Some update), s) /\
    match found with
    | None => List.find (fun n => cmp key (addr n) =? 0) (L !!! 0%nat) = None
    | Some p => exists n s', p = addr n /\ n ∈ L !!! 0%nat /\ cmp key p = 0 /\
        skiplist_erase_mem lst p update s = (Ret tt, s') /\
        mem_levels lst addr s' xs (del n <$> L) /\
        forall k, (k < SKIPLIST_LEVELS)%nat ->
          dlist (sm_heap s') (sl_heads lst k) (slot lst addr k <$> enc (del n (L !!! k)))
    end.
Proof.
  intros (sl & Hr & Hrep) Ho.
  destruct (skiplist_find_linear (cmp_at lst addr cmp) sl (L !!! 0%nat) key null_path) as (F1 & _ & _); [by exists L|done|done|].
  destruct (find_refines lst addr cmp key (size (sm_heap s)) s sl xs L Hr Hrep (le_n _) true) as [Ef Hon].
  eexists _, _. split; [exact Ef|]. rewrite F1.
  destruct (List.find _ (L !!! 0%nat)) as [n|] eqn:En; simpl; [|done].
  apply List.find_some in En as Hin. destruct Hin as [Hin E0]. apply Z.eqb_eq in E0.
  destruct (levels_erase (cmp_at lst addr cmp) sl key L n Hrep Ho F1) as (sl' & El & Hrep').
  assert (Node n ∈ enc xs) as Hx.
  { apply (mr_sub _ _ _ _ _ Hr 0); [unfold SKIPLIST_LEVELS; lia|]. rewrite (level_enc sl L Hrep) by (unfold SKIPLIST_LEVELS; lia).
    apply elem_enc. by apply list_elem_of_In. }
  destruct (erase_refines lst addr (Node n) _ s sl sl' xs Hr (rep_height _ _ Hrep)
    (find_snd_length _ sl key) Hx ltac:(done) Hon) as (s' & Es & Hr'); [|exact El|].
  - intros j Hj. by eapply rep_sentinel.
  - exists n, s'. assert (mem_levels lst addr s' xs (del n <$> L)) as Hm by (by exists sl').
    split_and!; [done|by apply list_elem_of_In|done|done|done|]. intros k Hk. rewrite <- level_del. by eapply mem_levels_dlist.
Qed.

(** Clearing in memory is safe even when the callback releases the node it
    is given: the loops of [skiplist_clear_with] read the successor before the
    node goes and unlink a node from all upper levels before the callback sees
    it, so no pointer into released memory is followed; the list ends empty and
    ready for use, with the nodes that are left. *)
Theorem skiplist_memory_clear fn s xs ns :
  mem_contents lst addr s xs ns -> (forall f, fn = Some f -> callback_ok f) ->
  exists s', skiplist_clear_with_mem lst fn (size (sm_heap s)) s = (Ret tt, s') /\
    mem_contents lst addr s' (survivors fn 0 ns xs) [] /\ sm_height s' = 0%nat.
Proof.
  intros (sl & Hr & Hc) Hfn. pose proof (skiplist_clear_with_spec sl ns false Hc) as Ec.
  destruct Hc as (L & Hrep & <-). unfold skiplist_clear_with_mem. erewrite bind_ret by done.
  rewrite (mr_height _ _ _ _ _ Hr).
  destruct (clear_levels_refines lst addr fn (size (sm_heap s)) (height sl) s sl xs L Hfn Hr) as (s1 & E1 & Hr1).
  - apply Hrep.
  - apply Hrep.
  - intros j Hj. apply (rep_above _ _ Hrep). lia.
  - intros j Hj. pose proof (level_length lst addr s sl xs Hr j Hj) as Hlen.
    rewrite (level_enc sl L Hrep) in Hlen by done. unfold enc in Hlen. simpl in Hlen. rewrite length_fmap in Hlen. lia.
  - erewrite bind_ret by exact E1. eexists. split; [done|]. split; [|done].
    exists skiplist_init. split; [|apply skiplist_init_contents].
    apply (f_equal fst) in Ec. unfold skiplist_clear_with in Ec. cbn [fst] in Ec. rewrite <- Ec.
    by apply set_height_rep.
Qed.
End Theorems.

(** ** A list in memory for the witnesses: two nodes, the value of a node in its address *)

Definition demo_lst : ptr := 0x1000.
Definition demo_addr (n : nat) : ptr := 0x10000 + 0x100 * Z.of_nat n.
Definition demo_cmp (key : Z) (p : ptr) : Z := key - (p - 0x10000) / 0x100.
Definition demo_mem : skip_mem :=
  mk_skip_mem 7 (list_to_map ((fun p => (p, mk_list_node 0 0)) <$>
    concat ((fun k => [sl_heads demo_lst k; slot demo_lst demo_addr k Sentinel;
                       slot demo_lst demo_addr k (Node 1); slot demo_lst demo_addr k (Node 3)])
            <$> seq 0 SKIPLIST_LEVELS))).

Lemma demo_placed : placed demo_lst demo_addr [1; 3]%nat.
Proof.
  assert (forall x, x ∈ enc [1; 3]%nat -> x = Sentinel \/ x = Node 1 \/ x = Node 3) as Hx.
  { intros x. unfold enc. simpl. rewrite !elem_of_cons, elem_of_nil. tauto. }
  split; unfold SKIPLIST_LEVELS.
  - intros x y j k Hxx Hy Hj Hk. apply Hx in Hxx, Hy.
    destruct Hxx as [->|[->| ->]], Hy as [->|[->| ->]];
      cbv [slot node_list list_off LIST_NODE_SIZE at_ sl_sentinel demo_lst demo_addr]; intros E;
      (split; [try done; exfalso; lia|lia]).
  - intros x j k Hxx Hj Hk. apply Hx in Hxx. destruct Hxx as [->|[->| ->]];
      cbv [slot node_list list_off LIST_NODE_SIZE at_ sl_sentinel sl_heads demo_lst demo_addr SKIPLIST_LEVELS]; lia.
  - intros x Hxx. apply Hx in Hxx. destruct Hxx as [->|[->| ->]]; done.
Qed.

Lemma demo_init : exists s, skiplist_init_mem demo_lst demo_mem = (Ret tt, s) /\
  mem_contents demo_lst demo_addr s [1; 3]%nat [].
Proof.
  destruct (init_refines demo_lst demo_addr demo_mem [1; 3]%nat demo_placed) as (s & E & Hr).
  - intros x k Hx Hk. unfold enc in Hx. simpl in Hx. rewrite !elem_of_cons, elem_of_nil in Hx. unfold SKIPLIST_LEVELS in Hk.
    destruct Hx as [->|[->|[->|[]]]]; do 8 (destruct k as [|k]; [by eexists|]); lia.
  - intros k Hk. unfold SKIPLIST_LEVELS in Hk. do 8 (destruct k as [|k]; [by eexists|]). lia.
  - exists s. split; [done|]. exists skiplist_init. split; [done|]. apply skiplist_init_contents.
Qed.

Lemma height_of_levels s xs L h :
  mem_levels demo_lst demo_addr s xs L -> h = 0%nat \/ L !!! h <> [] -> (forall k, (h < k)%nat -> L !!! k = []) -> sm_height s = h.
Proof.
  intros (sl & Hr & Hrep) Hh Ha. rewrite (mr_height _ _ _ _ _ Hr).
  destruct (Nat.lt_trichotomy (height sl) h) as [E|[E|E]]; [|done|].
  - destruct Hh as [->|Hh]; [lia|]. by rewrite (rep_above _ _ Hrep) in Hh by done.
  - destruct (rep_top _ _ Hrep) as [|Ht]; [lia|]. by rewrite Ha in Ht.
Qed.

(** Node 1 alone on the levels 0 and 1; then node 3 besides, on the levels 0 to 2. *)
Definition one_level (k : nat) : list nat := if decide (k <= 1)%nat then [1]%nat else [].
Definition two_level (k : nat) : list nat :=
  if decide (k <= 1)%nat then [1; 3]%nat else if decide (k <= 2)%nat then [3]%nat else [].

Lemma demo_one : exists s L, mem_levels demo_lst demo_addr s [1; 3]%nat L /\ (forall k, L !!! k = one_level k) /\ sm_height s = 1%nat.
Proof.
  destruct demo_init as (s & _ & (sl & Hr & (L & Hrep & HL))).
  assert (forall k, L !!! k = []) as HE.
  { intros k. destruct (decide (k < SKIPLIST_LEVELS)%nat).
    - apply sublist_nil_r. rewrite <- HL. by apply level_sublist with (sl := sl).
    - rewrite list_lookup_total_alt, lookup_ge_None_2; [done|]. rewrite (rep_length _ _ Hrep). lia. }
  assert (mem_levels demo_lst demo_addr s [1; 3]%nat L) as Hs by (by exists sl).
  pose proof (height_of_levels s _ L 0 Hs (or_introl eq_refl) (fun k _ => HE k)) as Hh.
  destruct (insert_levels demo_lst demo_addr demo_cmp 1 s [1; 3]%nat L 1 [true; true] Hs) as (f & u & s' & L' & _ & _ & H & HL');
    [rewrite HL; constructor|set_solver|rewrite HL; set_solver|].
  assert (forall k, L' !!! k = one_level k) as H1.
  { intros k. rewrite HL', Hh, HE. change (link_level 0 [true; true]) with 1%nat. unfold one_level. by case_decide. }
  exists s', L'. split; [done|]. split; [done|]. apply (height_of_levels _ _ _ _ H); [right; by rewrite H1|].
  intros k Hk. rewrite H1. unfold one_level. by rewrite decide_False by lia.
Qed.

Lemma one_level_ordered (L : list (list nat)) key : (forall k, L !!! k = one_level k) -> cmp_ordered (cmp_at demo_lst demo_addr demo_cmp) key (L !!! 0%nat).
Proof. intros ->. repeat constructor. Qed.

Lemma demo_two : exists s L, mem_levels demo_lst demo_addr s [1; 3]%nat L /\ forall k, L !!! k = two_level k.
Proof.
  destruct demo_one as (s & L & Hs & H1 & Hh).
  destruct (insert_levels demo_lst demo_addr demo_cmp 3 s [1; 3]%nat L 3 [true; true] Hs) as (f & u & s' & L' & _ & _ & H & HL');
    [by apply one_level_ordered|set_solver|rewrite H1; set_solver|].
  exists s', L'. split; [done|]. intros k. rewrite HL', Hh, H1. change (link_level 1 [true; true]) with 2%nat.
  unfold two_level, one_level. by repeat case_decide; try lia.
Qed.

Lemma skiplist_memory_search_witness : exists s path',
  skiplist_find_mem demo_lst demo_cmp (size (sm_heap s)) 1 None s = (Ret (Some (demo_addr 1), path'), s) /\
  exists path'', skiplist_find_le_mem demo_lst demo_cmp (size (sm_heap s)) 0 None s = (Ret (None, path''), s).
Proof.
  destruct demo_one as (s & L & Hs & H1 & _). exists s. pose proof (one_level_ordered L) as Ho.
  apply mem_levels_contents in Hs. rewrite H1 in Hs, Ho.
  destruct (skiplist_memory_search demo_lst demo_addr demo_cmp 1 s [1; 3]%nat [1]%nat false Hs (Ho 1 H1))
    as ([path' E] & _). exists path'. split; [exact E|].
  destruct (skiplist_memory_search demo_lst demo_addr demo_cmp 0 s [1; 3]%nat [1]%nat false Hs (Ho 0 H1))
    as (_ & [path'' E'] & _). exists path''. exact E'.
Defined.

(** The node lands on three levels; before, only node 1 was on two of them. *)
Lemma skiplist_memory_insert_witness : exists s found update s',
  skiplist_find_mem demo_lst demo_cmp (size (sm_heap s)) 3 (path_at demo_lst demo_addr true null_path) s =
    (Ret (found, Some update), s) /\
  skiplist_link_mem demo_lst (demo_addr 3) update [true; true] s = (Ret tt, s') /\
  forall k, (k < SKIPLIST_LEVELS)%nat ->
    dlist (sm_heap s') (sl_heads demo_lst k) (slot demo_lst demo_addr k <$> enc (two_level k)).
Proof.
  destruct demo_one as (s & L & Hs & H1 & Hh). exists s.
  destruct (skiplist_memory_insert demo_lst demo_addr demo_cmp 3 s [1; 3]%nat L 3 [true; true] Hs (one_level_ordered L 3 H1))
    as (found & update & s' & L' & E1 & E2 & _ & _ & E3); [set_solver|rewrite H1; set_solver|].
  exists found, update, s'. split; [exact E1|]. split; [exact E2|]. intros k Hk. destruct (E3 k Hk) as [EL Hd].
  assert (L' !!! k = two_level k) as <-; [|exact Hd].
  rewrite EL, Hh, H1. change (link_level 1 [true; true]) with 2%nat.
  unfold two_level, one_level. by repeat case_decide; try lia.
Defined.

(** Node 1 leaves two levels, and node 3 stays on its three. *)
Lemma skiplist_memory_remove_witness : exists s update s',
  skiplist_find_mem demo_lst demo_cmp (size (sm_heap s)) 1 (path_at demo_lst demo_addr true null_path) s =
    (Ret (Some (demo_addr 1), Some update), s) /\
  skiplist_erase_mem demo_lst (demo_addr 1) update s = (Ret tt, s') /\
  forall k, (k <= 2)%nat -> dlist (sm_heap s') (sl_heads demo_lst k)
    [node_list (sl_sentinel demo_lst) k; node_list (demo_addr 3) k].
Proof.
  destruct demo_two as (s & L & Hs & H2). exists s.
  assert (cmp_ordered (cmp_at demo_lst demo_addr demo_cmp) 1 (L !!! 0%nat)) as Ho
    by (rewrite H2; repeat constructor; vm_compute; discriminate).
  destruct (skiplist_memory_remove demo_lst demo_addr demo_cmp 1 s [1; 3]%nat L Hs Ho) as (found & update & E & H).
  destruct found as [p|]; [|rewrite H2 in H; discriminate H].
  destruct H as (n & s' & -> & Hn & Hc & E' & _ & Hd).
  assert (n = 1%nat) as ->.
  { rewrite H2 in Hn. change (two_level 0) with [1; 3]%nat in Hn. rewrite !elem_of_cons, elem_of_nil in Hn.
    destruct Hn as [?|[->|[]]]; [done|]. vm_compute in Hc. discriminate Hc. }
  exists update, s'. split; [exact E|]. split; [exact E'|]. intros k Hk.
  assert (del 1 (L !!! k) = [3]%nat) as E3.
  { rewrite H2. unfold two_level. by repeat case_decide; try lia. }
  specialize (Hd k). rewrite E3 in Hd. apply Hd. unfold SKIPLIST_LEVELS. lia.
Defined.

(** A callback that releases the node. *)
Definition release (n : ptr) : M heap unit := fun m =>
  (Ret tt, foldr (fun k m => delete (node_list n k) m) m (seq 0 SKIPLIST_LEVELS)).

Lemma release_ok : callback_ok release.
Proof.
  intros n m. eexists. split; [done|]. intros q Hq.
  assert (forall ks, (forall k, k ∈ ks -> (k < SKIPLIST_LEVELS)%nat) ->
    foldr (fun k m => delete (node_list n k) m) m ks !! q = m !! q) as H.
  { induction ks as [|k ks IH]; intros Hk; simpl; [done|].
    rewrite lookup_delete_ne by (apply not_eq_sym, Hq, Hk; set_solver). apply IH. set_solver. }
  apply H. intros k Hk. apply elem_of_seq in Hk. lia.
Qed.

Lemma skiplist_memory_clear_witness : exists s s',
  skiplist_clear_with_mem demo_lst (Some release) (size (sm_heap s)) s = (Ret tt, s') /\
  mem_contents demo_lst demo_addr s' [3]%nat [].
Proof.
  destruct demo_one as (s & L & Hs & H1 & _). exists s. apply mem_levels_contents in Hs. rewrite H1 in Hs.
  destruct (skiplist_memory_clear demo_lst demo_addr (Some release) s [1; 3]%nat [1]%nat Hs) as (s' & E & H & _).
  - intros f [= <-]. exact release_ok.
  - exists s'. split; [exact E|exact H].
Defined.
