(* ===== verification/IovaAlloc.v ===== *)
(** * IovaAlloc: the I/O virtual address allocator of src/iommu/vfio.c

    The linear allocator ([__iova_reserve], [__iova_reserve_align]), the free
    list of returned ranges kept in a skip list ([__iova_get_free],
    [__iova_get_free_align], [__iova_put_free]), and the operations of the
    container built from them (reservation, ephemeral reservation, return,
    recycling).  The free-list nodes live in a store, the way the C structures
    embed their skip-list node; the key of a node ([start]) is mutated in place. *)

From S2P Require Import Prelude Support Skiplist.
Local Open Scope Z_scope.
Local Open Scope vfn_scope.

(** ** Data *)

(** struct iommu_iova_range: both ends inclusive. *)
Record iommu_iova_range : Type := mk_iova_range { r_start : Z; r_last : Z }.

(** struct vfio_iova_free_range. *)
Record vfio_iova_free_range : Type := mk_free_range { fr_start : Z; fr_len : Z }.

(** A skip list of free ranges with the store of its nodes; [fl_fresh] is the
    name of the next structure [znew_t] returns. *)
Record free_list : Type := mk_free_list {
  fl_list : skiplist;
  fl_store : gmap nat vfio_iova_free_range;
  fl_fresh : nat
}.

Definition empty_free_list : free_list := mk_free_list skiplist_init ∅ 0.

(** ** The linear allocator *)

Fixpoint reserve_loop (ranges : list iommu_iova_range) (_next len : Z) : option (Z * Z) :=
  match ranges with
  | [] => None
  | r :: ranges' =>
      if r_last r <? _next then reserve_loop ranges' _next len
      else
        let _next := Z.max _next (r_start r) in
        if (r_last r <? _next) || (u64 (r_last r - _next + 1) <? len)
        then reserve_loop ranges' _next len
        else Some (_next, u64 (_next + len))
  end.

(** Returns the reserved address and the new value of [*next]. *)
Definition __iova_reserve (ranges : list iommu_iova_range) (next len : Z) : option (Z * Z) :=
  reserve_loop ranges next len.

Fixpoint reserve_align_loop (ranges : list iommu_iova_range) (_next len align : Z) : option (Z * Z) :=
  match ranges with
  | [] => None
  | r :: ranges' =>
      if r_last r <? _next then reserve_align_loop ranges' _next len align
      else
        let _next := Z.max _next (r_start r) in
        let aligned := ALIGN_UP _next align in
        if (aligned <? _next) || (r_last r <? aligned) || (u64 (r_last r - aligned + 1) <? len)
        then reserve_align_loop ranges' _next len align
        else Some (aligned, u64 (aligned + len))
  end.

Definition __iova_reserve_align (ranges : list iommu_iova_range) (next len align : Z)
    : option (Z * Z) := reserve_align_loop ranges next len align.

(** ** The free list *)

Definition iova_free_range_cmp (store : gmap nat vfio_iova_free_range) (start : Z)
    (n : skiplist_node) : Z :=
  match n with
  | Sentinel => 0
  | Node i =>
      match store !! i with
      | Some range =>
          if start <? fr_start range then -1
          else if fr_start range <? start then 1 else 0
      | None => 0
      end
  end.

(** The best-fit loop: the sentinel is skipped, an exact fit stops the loop. *)
Fixpoint best_fit_loop (store : gmap nat vfio_iova_free_range) (len : Z)
    (nodes : list skiplist_node) (best_fit : option nat) (best_fit_size : Z) : option nat :=
  match nodes with
  | [] => best_fit
  | Sentinel :: nodes' => best_fit_loop store len nodes' best_fit best_fit_size
  | Node i :: nodes' =>
      match store !! i with
      | None => best_fit_loop store len nodes' best_fit best_fit_size
      | Some range =>
          if (len <=? fr_len range) && (fr_len range <? best_fit_size) then
            if fr_len range =? len then Some i
            else best_fit_loop store len nodes' (Some i) (fr_len range)
          else best_fit_loop store len nodes' best_fit best_fit_size
      end
  end.

Definition __iova_get_free_range (fl : free_list) (len : Z) : option nat :=
  best_fit_loop (fl_store fl) len (skiplist_for_each (fl_list fl) 0) None SIZE_MAX.

(** Unlink a node and free its structure. *)
Definition fl_erase (i : nat) (start : Z) : M free_list unit := fun fl =>
  let update := snd (skiplist_find (iova_free_range_cmp (fl_store fl)) (fl_list fl) start null_path) in
  match skiplist_erase (fl_list fl) (Node i) update with
  | None => (Crash, fl)
  | Some sl => (Ret tt, mk_free_list sl (delete i (fl_store fl)) (fl_fresh fl))
  end.

Definition fl_write (i : nat) (r : vfio_iova_free_range) : M free_list unit :=
  modify (fun fl => mk_free_list (fl_list fl) (<[i := r]> (fl_store fl)) (fl_fresh fl)).

Arguments fl_erase : simpl never.
Arguments fl_write : simpl never.

Definition __iova_get_free (len : Z) : M free_list (option Z) := fun fl =>
  match __iova_get_free_range fl len with
  | None => (Ret None, fl)
  | Some i =>
      match fl_store fl !! i with
      | None => (Crash, fl)
      | Some range =>
          (if fr_len range =? len then
             do* fl_erase i (fr_start range) in
             ret (Some (fr_start range))
           else
             do* fl_write i (mk_free_range (u64 (fr_start range + len)) (u64 (fr_len range - len))) in
             ret (Some (fr_start range))) fl
      end
  end.

(** Add a range, merging it with its neighbours. [rands] are the random draws
    of the node's level. *)
Definition __iova_put_free (start len : Z) (rands : list bool) : M free_list unit := fun fl =>
  let store := fl_store fl in
  let cmp := iova_free_range_cmp store in
  let '(prev_node, update) := skiplist_find_le cmp (fl_list fl) start null_path in
  let prev :=
    match prev_node with
    | Some (Node p) =>
        match store !! p with
        | Some pr => if u64 (fr_start pr + fr_len pr) =? start then Some (p, pr) else None
        | None => None
        end
    | _ => None
    end in
  match prev with
  | Some (p, pr) =>
      (* extend the previous range, then try to absorb the next one *)
      let plen := u64 (fr_len pr + len) in
      (do* fl_write p (mk_free_range (fr_start pr) plen) in
       match skiplist_next (fl_list fl) (Node p) 0 with
       | Some (Node n) =>
           match store !! n with
           | Some nr =>
               if u64 (fr_start pr + plen) =? fr_start nr then
                 do* fl_write p (mk_free_range (fr_start pr) (u64 (plen + fr_len nr))) in
                 fl_erase n (fr_start nr)
               else ret tt
           | None => crash
           end
       | _ => ret tt
       end) fl
  | None =>
      let '(next_node, update) := skiplist_find_ge cmp (fl_list fl) start update in
      let next :=
        match next_node with
        | Some (Node n) =>
            match store !! n with
            | Some nr => if u64 (start + len) =? fr_start nr then Some (n, nr) else None
            | None => None
            end
        | _ => None
        end in
      match next with
      | Some (n, nr) => fl_write n (mk_free_range start (u64 (fr_len nr + len))) fl
      | None =>
          let i := fl_fresh fl in
          let store' := <[i := mk_free_range start len]> store in
          let update := snd (skiplist_find (iova_free_range_cmp store') (fl_list fl) start update) in
          match skiplist_link (fl_list fl) (Node i) update rands with
          | None => (Crash, fl)
          | Some sl => (Ret tt, mk_free_list sl store' (S i))
          end
      end
  end.

(** Best fit that accounts for alignment padding. *)
Fixpoint best_fit_align_loop (store : gmap nat vfio_iova_free_range) (len align : Z)
    (nodes : list skiplist_node) (best_fit : option (nat * Z)) (best_fit_avail : Z)
    : option (nat * Z) :=
  match nodes with
  | [] => best_fit
  | Sentinel :: nodes' => best_fit_align_loop store len align nodes' best_fit best_fit_avail
  | Node i :: nodes' =>
      match store !! i with
      | None => best_fit_align_loop store len align nodes' best_fit best_fit_avail
      | Some range =>
          let aligned := ALIGN_UP (fr_start range) align in
          let pad := u64 (aligned - fr_start range) in
          let avail := u64 (fr_len range - pad) in
          if (aligned <? fr_start range) || (fr_len range <=? pad) || (avail <? len)
          then best_fit_align_loop store len align nodes' best_fit best_fit_avail
          else if avail <? best_fit_avail then
            if avail =? len then Some (i, aligned)
            else best_fit_align_loop store len align nodes' (Some (i, aligned)) avail
          else best_fit_align_loop store len align nodes' best_fit best_fit_avail
      end
  end.

Definition __iova_get_free_align (len align : Z) (rands1 rands2 : list bool)
    : M free_list (option Z) := fun fl =>
  match best_fit_align_loop (fl_store fl) len align (skiplist_for_each (fl_list fl) 0) None SIZE_MAX with
  | None => (Ret None, fl)
  | Some (i, best_aligned) =>
      match fl_store fl !! i with
      | None => (Crash, fl)
      | Some best_fit =>
          let orig_start := fr_start best_fit in
          let orig_end := u64 (orig_start + fr_len best_fit) in
          let pad_len := u64 (best_aligned - orig_start) in
          (do* fl_erase i orig_start in
           do* when (negb (pad_len =? 0)) (__iova_put_free orig_start pad_len rands1) in
           do* when (u64 (best_aligned + len) <? orig_end)
                 (__iova_put_free (u64 (best_aligned + len))
                    (u64 (orig_end - u64 (best_aligned + len))) rands2) in
           ret (Some best_aligned)) fl
      end
  end.

Arguments __iova_reserve : simpl never.
Arguments __iova_reserve_align : simpl never.
Arguments __iova_get_free : simpl never.
Arguments __iova_get_free_align : simpl never.
Arguments __iova_put_free : simpl never.

(** ** The free list as a sequence of ranges *)

Definition rend (r : vfio_iova_free_range) : Z := fr_start r + fr_len r.
Definition in_range (r : vfio_iova_free_range) (a : Z) : Prop := fr_start r <= a < rend r.

(** Ranges in ascending order, non-empty, not adjacent, ending below 2^64. *)
Fixpoint chain (lo : Z) (rs : list vfio_iova_free_range) : Prop :=
  match rs with
  | [] => True
  | r :: rs' => lo < fr_start r /\ 0 < fr_len r /\ rend r <= UINT64_MAX /\ chain (rend r) rs'
  end.
Fixpoint chain_end (lo : Z) (rs : list vfio_iova_free_range) : Z :=
  match rs with [] => lo | r :: rs' => chain_end (rend r) rs' end.
Definition ranges_ok (rs : list vfio_iova_free_range) : Prop := chain (-1) rs.

(** The addresses the ranges cover, and sequences that cover the same ones. *)
Definition covers (rs : list vfio_iova_free_range) (a : Z) : Prop := Exists (fun r => in_range r a) rs.

Record fl_rep (fl : free_list) (ns : list nat) (rs : list vfio_iova_free_range) : Prop := {
  fl_contents : skiplist_contents (fl_list fl) ns;
  fl_nodes : Forall2 (fun n r => fl_store fl !! n = Some r) ns rs;
  fl_ids : Forall (fun n => (n < fl_fresh fl)%nat) ns
}.

(** What the operations promise: the list represents [rs] and is in order. *)
Definition free_list_ok (fl : free_list) (rs : list vfio_iova_free_range) : Prop :=
  ranges_ok rs /\ exists ns, fl_rep fl ns rs.

(** The interval [s, s+l) shares no address with a range of the list. *)
Definition avoids (rs : list vfio_iova_free_range) (s l : Z) : Prop :=
  Forall (fun r => rend r <= s \/ s + l <= fr_start r) rs.

(** ** Lemmas on chains and coverage *)

Lemma chain_app lo r1 r2 : chain lo (r1 ++ r2) <-> chain lo r1 /\ chain (chain_end lo r1) r2.
Proof. revert lo. induction r1 as [|r r1 IH]; intros lo; simpl; [tauto|]. rewrite IH. tauto. Qed.

Lemma chain_bounds lo rs :
  chain lo rs ->
  lo <= chain_end lo rs /\ Forall (fun r => lo < fr_start r /\ 0 < fr_len r /\
    rend r <= chain_end lo rs /\ rend r <= UINT64_MAX) rs.
Proof.
  revert lo. induction rs as [|r rs IH]; intros lo; simpl; [split; [lia|constructor]|].
  intros (H1 & H2 & H3 & H4). destruct (IH _ H4) as [He Hf]. unfold rend in *. split; [lia|].
  constructor; [lia|]. eapply Forall_impl; [exact Hf|]. simpl. lia.
Qed.

Lemma chain_raise lo lo' rs :
  chain lo rs -> (forall r, head rs = Some r -> lo' < fr_start r) -> chain lo' rs.
Proof. destruct rs as [|r rs]; [done|]. simpl. intros (_ & Hr) Hlo. split; [by apply Hlo|done]. Qed.

Lemma chain_snoc_end lo r1 r : chain_end lo (r1 ++ [r]) = rend r.
Proof. revert lo. induction r1 as [|x r1 IH]; intros lo; simpl; [done|apply IH]. Qed.

Lemma chain_end_le lo r1 s : Forall (fun r => rend r <= s) r1 -> lo <= s -> chain_end lo r1 <= s.
Proof. intros H. revert lo. induction H; intros; simpl; [done|]. by apply IHForall. Qed.

Lemma covers_app r1 r2 a : covers (r1 ++ r2) a <-> covers r1 a \/ covers r2 a.
Proof. apply Exists_app. Qed.
Lemma covers_cons r rs a : covers (r :: rs) a <-> in_range r a \/ covers rs a.
Proof. apply Exists_cons. Qed.
Lemma covers_nil a : covers [] a <-> False.
Proof. apply Exists_nil. Qed.

Ltac solve_covers :=
  intros; rewrite ?covers_app, ?covers_cons, ?covers_nil; unfold in_range, rend in *; simpl in *;
  intuition lia.

(** An interval that avoids the free ranges falls between two of them. *)
Lemma avoids_split lo rs s l :
  0 < l -> chain lo rs -> avoids rs s l ->
  exists r1 r2, rs = r1 ++ r2 /\ Forall (fun r => rend r <= s) r1 /\
    Forall (fun r => s + l <= fr_start r) r2.
Proof.
  intros Hl. revert lo. induction rs as [|r rs IH]; intros lo; simpl.
  { intros _ _. by exists [], []. }
  intros (H1 & H2 & H3 & H4) Ha. inversion Ha as [|? ? [Hr|Hr] Ha']; subst.
  - destruct (IH _ H4 Ha') as (r1 & r2 & -> & Hf1 & Hf2). exists (r :: r1), r2. by repeat constructor.
  - exists [], (r :: rs). split_and!; [done|constructor|]. constructor; [done|].
    destruct (chain_bounds _ _ H4) as [_ Hb]. eapply Forall_impl; [exact Hb|].
    unfold rend in *. simpl. lia.
Qed.

(** ** Lemmas on the representation *)

Lemma fl_rep_app_inv fl ns r1 r2 :
  fl_rep fl ns (r1 ++ r2) ->
  exists n1 n2, ns = n1 ++ n2 /\ Forall2 (fun n r => fl_store fl !! n = Some r) n1 r1 /\
    Forall2 (fun n r => fl_store fl !! n = Some r) n2 r2.
Proof. intros [_ H _]. apply Forall2_app_inv_r in H as (n1 & n2 & ? & ? & ->). eauto. Qed.

(** Comparison splits of the node sequence follow from the range sequence. *)
Lemma cmp_split_lt store s n1 n2 r1 r2 :
  Forall2 (fun n r => store !! n = Some r) n1 r1 -> Forall2 (fun n r => store !! n = Some r) n2 r2 ->
  Forall (fun r => fr_start r < s) r1 -> Forall (fun r => s <= fr_start r) r2 ->
  split_by (fun n => 0 <? iova_free_range_cmp store s n) n1 n2.
Proof.
  intros H1 H2 F1 F2. split.
  - induction H1; inversion F1; subst; constructor; [|auto]. simpl. simplify_option_eq. zcases.
  - induction H2; inversion F2; subst; constructor; [|auto]. simpl. simplify_option_eq. zcases.
Qed.

Lemma cmp_split_le store s n1 n2 r1 r2 :
  Forall2 (fun n r => store !! n = Some r) n1 r1 -> Forall2 (fun n r => store !! n = Some r) n2 r2 ->
  Forall (fun r => fr_start r <= s) r1 -> Forall (fun r => s < fr_start r) r2 ->
  split_by (fun n => 0 <=? iova_free_range_cmp store s n) n1 n2.
Proof.
  intros H1 H2 F1 F2. split.
  - induction H1; inversion F1; subst; constructor; [|auto]. simpl. simplify_option_eq. zcases.
  - induction H2; inversion F2; subst; constructor; [|auto]. simpl. simplify_option_eq. zcases.
Qed.

(** Writing a node changes its range in the sequence. *)
Lemma fl_write_spec fl n1 i n2 r1 r r2 x :
  fl_rep fl (n1 ++ i :: n2) (r1 ++ r :: r2) -> length n1 = length r1 ->
  exists fl', fl_write i x fl = (Ret tt, fl') /\ fl_rep fl' (n1 ++ i :: n2) (r1 ++ x :: r2) /\
    fl_list fl' = fl_list fl.
Proof.
  intros [Hc Hn Hi] Hl. eexists. split; [done|]. split; [|done].
  destruct (nodup_mid _ _ _ (contents_nodup _ _ Hc)) as [Hi1 Hi2].
  apply Forall2_app_inv in Hn as [Hn1 Hn2]; [|done]. inversion Hn2; subst.
  split; simpl; [done| |done]. apply Forall2_app; [by apply nodes_insert|].
  constructor; [by rewrite lookup_insert_eq|by apply nodes_insert].
Qed.

(** Erasing the node of a range drops it from the sequence. *)
Lemma fl_erase_spec fl n1 i n2 r1 r r2 :
  fl_rep fl (n1 ++ i :: n2) (r1 ++ r :: r2) -> length n1 = length r1 ->
  Forall (fun x => fr_start x < fr_start r) r1 -> Forall (fun x => fr_start r <= fr_start x) r2 ->
  exists fl', fl_erase i (fr_start r) fl = (Ret tt, fl') /\ fl_rep fl' (n1 ++ n2) (r1 ++ r2).
Proof.
  intros [Hc Hn Hi] Hl F1 F2. destruct (nodup_mid _ _ _ (contents_nodup _ _ Hc)) as [Hi1 Hi2].
  apply Forall2_app_inv in Hn as [Hn1 Hn2]; [|done].
  destruct (contents_erase (iova_free_range_cmp (fl_store fl)) (fl_list fl) (fr_start r)
    n1 i n2 null_path) as (sl' & He & Hc'); [done| |done|].
  { eapply cmp_split_lt; [done|done|done|]. by constructor. }
  unfold fl_erase. rewrite He. eexists. split; [done|]. inversion Hn2; subst. split; simpl; [done|..].
  - apply Forall2_app; by apply nodes_delete.
  - rewrite Forall_app, Forall_cons in *. tauto.
Qed.

(** ** Returning a range *)

Section PutFree.
Context (fl : free_list) (n1 n2 : list nat) (r1 r2 : list vfio_iova_free_range) (s l : Z).
Context (Hrep : fl_rep fl (n1 ++ n2) (r1 ++ r2))
        (Hn1 : Forall2 (fun n r => fl_store fl !! n = Some r) n1 r1)
        (Hn2 : Forall2 (fun n r => fl_store fl !! n = Some r) n2 r2).
Context (Hok : ranges_ok (r1 ++ r2)) (Hs : 0 <= s) (Hl : 0 < l) (Hmax : s + l <= UINT64_MAX).
Context (Hr1 : Forall (fun r => rend r <= s) r1) (Hr2 : Forall (fun r => s + l <= fr_start r) r2).

Definition put_post (fl' : free_list) : Prop :=
  exists rs', free_list_ok fl' rs' /\
    forall a, covers rs' a <-> covers (r1 ++ r2) a \/ s <= a < s + l.

Lemma starts_below : Forall (fun r => fr_start r < s) r1.
Proof using Hok Hr1.
  apply chain_app in Hok as [Hc _]. destruct (chain_bounds _ _ Hc) as [_ Hb].
  rewrite Forall_forall in Hb, Hr1 |- *. intros r Hr. specialize (Hb r Hr). specialize (Hr1 r Hr).
  unfold rend in Hb, Hr1. lia.
Qed.

Lemma starts_above : Forall (fun r => s < fr_start r) r2.
Proof using Hl Hr2. eapply Forall_impl; [exact Hr2|]. simpl. lia. Qed.

Lemma put_find_le : exists upd, length upd = SKIPLIST_LEVELS /\
  skiplist_find_le (iova_free_range_cmp (fl_store fl)) (fl_list fl) s null_path
  = (Node <$> last n1, upd).
Proof using Hrep Hn1 Hn2 Hok Hr1 Hl Hr2.
  destruct (find_length (iova_free_range_cmp (fl_store fl)) (fl_list fl) s null_path) as (_ & Hlen & _).
  pose proof (contents_find_le (iova_free_range_cmp (fl_store fl)) (fl_list fl) s n1 n2) as Hf.
  destruct (skiplist_find_le _ _ _ _) as [pn upd]. exists upd. split; [done|].
  rewrite <- Hf; [done|apply Hrep|]. eapply cmp_split_le; [done|done| |apply starts_above].
  eapply Forall_impl; [apply starts_below|]. simpl. lia.
Qed.

Lemma put_find_ge pth : length pth = SKIPLIST_LEVELS -> exists upd, length upd = SKIPLIST_LEVELS /\
  skiplist_find_ge (iova_free_range_cmp (fl_store fl)) (fl_list fl) s pth = (Node <$> head n2, upd).
Proof using Hrep Hn1 Hn2 Hok Hr1 Hl Hr2.
  intros Hp.
  destruct (find_length (iova_free_range_cmp (fl_store fl)) (fl_list fl) s pth) as (_ & _ & Hlen).
  pose proof (contents_find_ge (iova_free_range_cmp (fl_store fl)) (fl_list fl) s n1 n2 pth) as Hf.
  destruct (skiplist_find_ge _ _ _ _) as [pn upd]. exists upd. split; [simpl in *; congruence|].
  rewrite <- Hf; [done|apply Hrep| |done]. eapply cmp_split_lt; [done|done|apply starts_below|].
  eapply Forall_impl; [apply starts_above|]. simpl. lia.
Qed.

(** No neighbour to merge with: a new node is linked. *)
Lemma put_new upd rands :
  length upd = SKIPLIST_LEVELS -> chain_end (-1) r1 < s ->
  (forall r, head r2 = Some r -> s + l < fr_start r) ->
  exists sl', skiplist_link (fl_list fl) (Node (fl_fresh fl))
      (snd (skiplist_find (iova_free_range_cmp (<[fl_fresh fl := mk_free_range s l]> (fl_store fl)))
        (fl_list fl) s upd)) rands = Some sl' /\
    put_post (mk_free_list sl' (<[fl_fresh fl := mk_free_range s l]> (fl_store fl)) (S (fl_fresh fl))).
Proof using Hrep Hn1 Hn2 Hok Hr1 Hl Hr2 Hs Hmax.
  intros Hu He Hh. destruct Hrep as [Hc _ Hi].
  assert (fl_fresh fl ∉ n1 ++ n2) as Hfr.
  { intros Hx. rewrite Forall_forall in Hi. specialize (Hi _ Hx). lia. }
  assert ((fl_fresh fl ∉ n1) /\ (fl_fresh fl ∉ n2)) as [Hf1 Hf2] by set_solver.
  pose proof (nodes_insert _ (fl_fresh fl) (mk_free_range s l) _ _ Hf1 Hn1) as Hi1.
  pose proof (nodes_insert _ (fl_fresh fl) (mk_free_range s l) _ _ Hf2 Hn2) as Hi2.
  edestruct (contents_link (iova_free_range_cmp (<[fl_fresh fl := mk_free_range s l]> (fl_store fl)))
    (fl_list fl) s n1 n2 (fl_fresh fl) rands upd) as (sl' & Hlk & Hc'); [done| |done|done|].
  { eapply cmp_split_lt; [exact Hi1|exact Hi2|apply starts_below|].
    eapply Forall_impl; [apply starts_above|]. simpl. lia. }
  exists sl'. split; [done|]. exists (r1 ++ mk_free_range s l :: r2). split; [|solve_covers].
  apply chain_app in Hok as [Hok1 Hok2]. split.
  - apply chain_app. split; [done|]. simpl. unfold rend. simpl.
    split_and!; [done|done|done|]. by eapply chain_raise.
  - exists (n1 ++ fl_fresh fl :: n2). split; simpl; [done|..].
    + apply Forall2_app; [done|]. constructor; [by rewrite lookup_insert_eq|done].
    + rewrite Forall_app, Forall_cons. rewrite Forall_app in Hi. destruct Hi as [Ha Hb].
      split_and!; [|lia|]; eapply Forall_impl; [exact Ha| |exact Hb|]; simpl; lia.
Qed.
End PutFree.

(** The previous range ends at [s]: it grows, and may absorb the next one. *)
Lemma put_prev fl n1 i n2 r1 p r2 l :
  fl_rep fl (n1 ++ i :: n2) (r1 ++ p :: r2) -> length n1 = length r1 ->
  ranges_ok (r1 ++ p :: r2) -> 0 < l -> rend p + l <= UINT64_MAX ->
  Forall (fun r => rend p + l <= fr_start r) r2 ->
  let plen := u64 (fr_len p + l) in
  exists fl',
    (do* fl_write i (mk_free_range (fr_start p) plen) in
     match skiplist_next (fl_list fl) (Node i) 0 with
     | Some (Node n) =>
         match fl_store fl !! n with
         | Some nr =>
             if u64 (fr_start p + plen) =? fr_start nr then
               do* fl_write i (mk_free_range (fr_start p) (u64 (plen + fr_len nr))) in
               fl_erase n (fr_start nr)
             else ret tt
         | None => crash
         end
     | _ => ret tt
     end) fl = (Ret tt, fl') /\
    exists rs', free_list_ok fl' rs' /\
      forall a, covers rs' a <-> covers (r1 ++ p :: r2) a \/ rend p <= a < rend p + l.
Proof.
  intros Hrep Hlen Hok Hl Hmax Hr2 plen.
  destruct (fl_write_spec _ _ _ _ _ _ _ (mk_free_range (fr_start p) plen) Hrep Hlen)
    as (fl1 & Hw1 & Hrep1 & _).
  rewrite (bind_ret _ _ _ _ _ Hw1), (contents_next _ n1 i n2) by apply Hrep.
  assert (Forall2 (fun n r => fl_store fl !! n = Some r) n2 r2) as Hn2.
  { destruct Hrep as [_ Hn _]. apply Forall2_app_inv in Hn as [_ Hn]; [|done]. by inversion Hn. }
  apply chain_app in Hok as [Hok1 (Hp1 & Hp2 & Hp3 & Hok2)]. unfold rend in *.
  assert (0 <= fr_start p) as Hp0 by (pose proof (chain_bounds _ _ Hok1) as []; lia).
  assert (plen = fr_len p + l) as Eplen by (unfold plen; apply u64_small; unfold UINT64_MAX in *; lia).
  clearbody plen. destruct Hn2 as [|j q n2 r2 Hj Hn2]; simpl.
  - exists fl1. split; [reflexivity|]. exists (r1 ++ [mk_free_range (fr_start p) plen]).
    rewrite Eplen in *. split; [|solve_covers]. split; [|by eexists].
    apply chain_app. split; [done|]. simpl. unfold rend; simpl. split_and!; first [done|lia].
  - rewrite Hj. apply Forall_cons in Hr2 as [Hq Hr2']. simpl in Hok2.
    destruct Hok2 as (Hq1 & Hq2 & Hq3 & Hok2). unfold rend in *.
    rewrite (u64_small (fr_start p + plen)) by (unfold UINT64_MAX in *; lia).
    destruct (Z.eqb_spec (fr_start p + plen) (fr_start q)) as [Eq|Nq].
    + destruct (fl_write_spec _ _ _ _ _ _ _ (mk_free_range (fr_start p) (u64 (plen + fr_len q))) Hrep1 Hlen)
        as (fl2 & Hw2 & Hrep2 & _).
      rewrite (bind_ret _ _ _ _ _ Hw2). 
      rewrite (cons_middle i), (app_assoc n1) in Hrep2.
      rewrite (cons_middle (mk_free_range _ _)), (app_assoc r1) in Hrep2.
      destruct (fl_erase_spec _ _ _ _ _ _ _ Hrep2) as (fl3 & He & Hrep3).
      { rewrite !length_app. simpl. lia. }
      { destruct (chain_bounds _ _ Hok1) as [_ Hb]. apply Forall_app. split.
        - eapply Forall_impl; [exact Hb|]. unfold rend. simpl. lia.
        - repeat constructor. simpl. lia. }
      { eapply Forall_impl; [exact (proj2 (chain_bounds _ _ Hok2))|]. simpl. lia. }
      rewrite He. exists fl3. split; [reflexivity|]. rewrite <- !app_assoc in Hrep3. simpl in Hrep3.
      rewrite (u64_small (plen + fr_len q)) in Hrep3 by (unfold UINT64_MAX in *; lia).
      exists (r1 ++ mk_free_range (fr_start p) (plen + fr_len q) :: r2).
      split; [|rewrite Eplen in *; solve_covers]. split; [|by eexists].
      apply chain_app. split; [done|]. simpl. unfold rend; simpl.
      split_and!; [lia..|]. eapply chain_raise; [exact Hok2|].
      intros r Hr. destruct r2; simplify_eq/=. unfold rend in *. lia.
    + exists fl1. split; [reflexivity|]. exists (r1 ++ mk_free_range (fr_start p) plen :: q :: r2).
      rewrite Eplen in *. split; [|solve_covers]. split; [|by eexists].
      apply chain_app. split; [done|]. simpl. unfold rend; simpl. split_and!; try lia. done.
Qed.

(** Neither neighbour ends at [s]: merge with the next range or link a node. *)
Section PutNext.
Context (fl : free_list) (n1 n2 : list nat) (r1 r2 : list vfio_iova_free_range) (s l : Z).
Context (Hrep : fl_rep fl (n1 ++ n2) (r1 ++ r2))
        (Hn1 : Forall2 (fun n r => fl_store fl !! n = Some r) n1 r1)
        (Hn2 : Forall2 (fun n r => fl_store fl !! n = Some r) n2 r2).
Context (Hok : ranges_ok (r1 ++ r2)) (Hs : 0 <= s) (Hl : 0 < l) (Hmax : s + l <= UINT64_MAX).
Context (Hr1 : Forall (fun r => rend r <= s) r1) (Hr2 : Forall (fun r => s + l <= fr_start r) r2).
Context (Hend : chain_end (-1) r1 < s).

Lemma put_next upd rands :
  length upd = SKIPLIST_LEVELS ->
  exists fl',
    (let '(next_node, update) :=
       skiplist_find_ge (iova_free_range_cmp (fl_store fl)) (fl_list fl) s upd in
     match
       match next_node with
       | Some (Node n) =>
           match fl_store fl !! n with
           | Some nr => if u64 (s + l) =? fr_start nr then Some (n, nr) else None
           | None => None
           end
       | _ => None
       end
     with
     | Some (n, nr) => fl_write n (mk_free_range s (u64 (fr_len nr + l))) fl
     | None =>
         let store' := <[fl_fresh fl := mk_free_range s l]> (fl_store fl) in
         match skiplist_link (fl_list fl) (Node (fl_fresh fl))
                 (snd (skiplist_find (iova_free_range_cmp store') (fl_list fl) s update)) rands with
         | None => (Crash, fl)
         | Some sl => (Ret tt, mk_free_list sl store' (S (fl_fresh fl)))
         end
     end) = (Ret tt, fl') /\ put_post r1 r2 s l fl'.
Proof.
  intros Hu.
  edestruct (put_find_ge fl n1 n2 r1 r2 s l) as (upd' & Hu' & ->); [eassumption..|].
  rewrite u64_small by (unfold UINT64_MAX in *; lia).
  destruct Hn2 as [|j q n2' r2' Hj Hn2']; simpl.
  - edestruct (put_new fl n1 [] r1 [] s l) as (sl' & -> & Hp); [eassumption..|done|]. eauto.
  - rewrite Hj. destruct (Z.eqb_spec (s + l) (fr_start q)) as [Eq|Nq].
    + pose proof (Forall2_length _ _ _ Hn1) as Hlen.
      destruct (fl_write_spec _ _ _ _ _ _ _ (mk_free_range s (u64 (fr_len q + l))) Hrep Hlen)
        as (fl' & Hw & Hrep' & _).
      exists fl'. split; [exact Hw|]. apply chain_app in Hok as [Hok1 (Hq1 & Hq2 & Hq3 & Hok2)].
      unfold rend in Hq3. rewrite u64_small in Hrep' by (unfold UINT64_MAX in *; lia).
      exists (r1 ++ mk_free_range s (fr_len q + l) :: r2'). split; [|solve_covers].
      split; [|by eexists]. apply chain_app. split; [done|]. simpl.
      unfold rend in *; simpl. split_and!; [lia..|]. eapply chain_raise; [exact Hok2|].
      intros r Hr. destruct r2'; simplify_eq/=. unfold rend in *. lia.
    + edestruct (put_new fl n1 (j :: n2') r1 (q :: r2') s l) as (sl' & -> & Hp);
        [eassumption..| |eauto].
      intros r Hr. simplify_eq/=. apply Forall_cons in Hr2 as [? _]. lia.
Qed.
End PutNext.

(** [__iova_put_free]: a range that avoids the free ones joins them. *)
Lemma put_free_spec fl rs s l rands :
  free_list_ok fl rs -> 0 <= s -> 0 < l -> s + l <= UINT64_MAX -> avoids rs s l ->
  exists fl' rs', __iova_put_free s l rands fl = (Ret tt, fl') /\ free_list_ok fl' rs' /\
    forall a, covers rs' a <-> covers rs a \/ s <= a < s + l.
Proof.
  intros [Hok (ns & Hrep)] Hs Hl Hmax Hav.
  destruct (avoids_split _ _ _ _ Hl Hok Hav) as (r1 & r2 & -> & Hr1 & Hr2).
  destruct (fl_rep_app_inv _ _ _ _ Hrep) as (n1 & n2 & -> & Hn1 & Hn2).
  edestruct (put_find_le fl n1 n2 r1 r2 s l) as (upd & Hu & Hle); [eassumption..|].
  unfold __iova_put_free. rewrite Hle. clear Hle.
  pose proof (fun He => put_next fl n1 n2 r1 r2 s l Hrep Hn1 Hn2 Hok Hs Hl Hmax Hr1 Hr2 He
    upd rands Hu) as Hnext.
  destruct r1 as [|p r1 _] using rev_ind.
  - inversion Hn1; subst. simpl in *.
    destruct Hnext as (fl' & Hput & rs' & Hok' & Hcov); [lia|]. eauto.
  - apply Forall2_app_inv_r in Hn1 as (n1' & l' & Hn1 & Hl' & ->).
    inversion Hl' as [|i ? l'' ? Hi Hnil]; subst. inversion Hnil; subst.
    rewrite last_snoc. simpl. rewrite Hi.
    assert (0 <= fr_start p /\ 0 < fr_len p /\ rend p <= UINT64_MAX /\ rend p <= s) as (? & ? & ? & ?).
    { apply chain_app in Hok as [Hok _]. destruct (chain_bounds _ _ Hok) as [_ Hb].
      apply Forall_app in Hb as [_ Hb]. apply Forall_app in Hr1 as [_ Hp].
      apply Forall_cons in Hp as [Hp _]. apply Forall_cons in Hb as [Hb _]. lia. }
    rewrite u64_small by (unfold rend, UINT64_MAX in *; lia).
    destruct (Z.eqb_spec (fr_start p + fr_len p) s) as [<-|Hne].
    + rewrite <- !app_assoc in *. simpl in *.
      destruct (put_prev fl n1' i n2 r1 p r2 l) as (fl' & Hput & rs' & Hok' & Hcov);
        eauto using Forall2_length.
    + destruct Hnext as (fl' & Hput & rs' & Hok' & Hcov);
        [rewrite chain_snoc_end; unfold rend in *; lia|]. eauto.
Qed.

(** ** Taking a range *)

Lemma covers_bounds lo rs a : chain lo rs -> covers rs a -> lo < a < chain_end lo rs.
Proof.
  intros Hc. destruct (chain_bounds _ _ Hc) as [_ Hb]. unfold covers. rewrite Exists_exists.
  intros (r & Hr & Ha). rewrite Forall_forall in Hb. specialize (Hb r Hr).
  unfold in_range in Ha. lia.
Qed.

(** Around one range of a chain: nothing before reaches it, nothing after
    touches it. *)
Lemma chain_mid r1 r r2 :
  ranges_ok (r1 ++ r :: r2) ->
  0 <= fr_start r /\ 0 < fr_len r /\ rend r <= UINT64_MAX /\
  (forall a, covers r1 a -> a < fr_start r) /\ (forall a, covers r2 a -> rend r < a) /\
  Forall (fun x => fr_start x < fr_start r) r1 /\ Forall (fun x => fr_start r <= fr_start x) r2.
Proof.
  intros (Hc1 & H1 & H2 & H3 & Hc2)%chain_app.
  destruct (chain_bounds _ _ Hc1) as [Hlo Hb1]. destruct (chain_bounds _ _ Hc2) as [_ Hb2].
  split_and!; [lia|done|done|..].
  - intros a Ha. pose proof (covers_bounds _ _ _ Hc1 Ha). lia.
  - intros a Ha. pose proof (covers_bounds _ _ _ Hc2 Ha). lia.
  - eapply Forall_impl; [exact Hb1|]. unfold rend. simpl. lia.
  - eapply Forall_impl; [exact Hb2|]. unfold rend in *. simpl. lia.
Qed.

Lemma best_fit_loop_spec store len ns rs best sz :
  Forall2 (fun n r => store !! n = Some r) ns rs ->
  match best_fit_loop store len (Node <$> ns) best sz with
  | None => best = None /\ Forall (fun r => len <= fr_len r -> sz <= fr_len r) rs
  | Some i =>
      (best = Some i /\ Forall (fun r => len <= fr_len r -> sz <= fr_len r) rs) \/
      exists n1 n2 r1 r r2, ns = n1 ++ i :: n2 /\ rs = r1 ++ r :: r2 /\ length n1 = length r1 /\
        len <= fr_len r < sz /\ Forall (fun r' => len <= fr_len r' -> fr_len r <= fr_len r') rs
  end.
Proof.
  intros H. revert best sz. induction H as [|n r ns rs Hn H IH]; intros best sz; simpl.
  { destruct best; eauto. }
  rewrite Hn. destruct ((len <=? fr_len r) && (fr_len r <? sz)) eqn:E.
  - apply andb_true_iff in E as [E1%Z.leb_le E2%Z.ltb_lt].
    destruct (Z.eqb_spec (fr_len r) len) as [El|El].
    { right. exists [], ns, [], r, rs. split_and!; try done; try lia.
      apply Forall_cons. split; [lia|]. apply Forall_true. lia. }
    specialize (IH (Some n) (fr_len r)). destruct (best_fit_loop _ _ _ _ _) as [i|]; [|by destruct IH].
    right. destruct IH as [[[= ->] Hf]|(n1 & n2 & r1 & x & r2 & -> & -> & Hl & Hx & Hf)].
    + exists [], ns, [], r, rs. split_and!; try done. by constructor.
    + exists (n :: n1), n2, (r :: r1), x, r2. simpl.
      split_and!; try done; try lia. constructor; [lia|done].
  - assert (len <= fr_len r -> sz <= fr_len r) as Hr.
    { apply andb_false_iff in E as [?%Z.leb_gt|?%Z.ltb_ge]; lia. }
    specialize (IH best sz). destruct (best_fit_loop _ _ _ _ _) as [i|].
    + destruct IH as [[? Hf]|(n1 & n2 & r1 & x & r2 & -> & -> & Hl & Hx & Hf)];
        [left; by repeat constructor|right].
      exists (n :: n1), n2, (r :: r1), x, r2. simpl.
      split_and!; try done; try lia. constructor; [lia|done].
    + destruct IH as [? Hf]. split; [done|by constructor].
Qed.

(** [rs'] is [rs] less the interval [s, s+l), which it covered. *)
Definition taken (rs rs' : list vfio_iova_free_range) (s l : Z) : Prop :=
  (forall a, s <= a < s + l -> covers rs a) /\
  (forall a, covers rs' a <-> covers rs a /\ ~ (s <= a < s + l)).

(** [__iova_get_free]: the start of a smallest range that fits, or nothing if
    none does. *)
Lemma get_free_spec fl rs len :
  free_list_ok fl rs -> 0 < len ->
  (__iova_get_free len fl = (Ret None, fl) /\
     Forall (fun r => len <= fr_len r -> SIZE_MAX <= fr_len r) rs) \/
  (exists r fl' rs', __iova_get_free len fl = (Ret (Some (fr_start r)), fl') /\
     free_list_ok fl' rs' /\ taken rs rs' (fr_start r) len /\
     r ∈ rs /\ len <= fr_len r /\ Forall (fun r' => len <= fr_len r' -> fr_len r <= fr_len r') rs).
Proof.
  intros [Hok (ns & Hrep)] Hlen. unfold __iova_get_free, __iova_get_free_range.
  rewrite (contents_for_each _ ns) by apply Hrep. cbn [best_fit_loop].
  pose proof (best_fit_loop_spec (fl_store fl) len ns rs None SIZE_MAX (fl_nodes _ _ _ Hrep)) as Hb.
  destruct (best_fit_loop _ _ _ _ _) as [i|]; [right|left; by destruct Hb].
  destruct Hb as [[? _]|(n1 & n2 & r1 & r & r2 & -> & -> & Hl & Hr & Hbest)]; [done|].
  pose proof (fl_nodes _ _ _ Hrep) as Hn. apply Forall2_app_inv in Hn as [_ Hn]; [|done].
  inversion Hn as [|? ? ? ? Hi _]; subst. rewrite Hi.
  destruct (chain_mid _ _ _ Hok) as (Hs0 & Hl0 & Hmx & Hbef & Haft & Hlt & Hge).
  exists r. unfold rend in *.
  assert (r ∈ r1 ++ r :: r2) as Hin by set_solver.
  destruct (Z.eqb_spec (fr_len r) len) as [<-|Hne].
  - destruct (fl_erase_spec _ _ _ _ _ _ _ Hrep Hl Hlt Hge) as (fl' & He & Hrep').
    rewrite (bind_ret _ _ _ _ _ He). exists fl', (r1 ++ r2).
    split_and!; [done| |split; [solve_covers|]|done|lia|done].
    + split; [|by eexists]. apply chain_app in Hok as [Hc1 (? & ? & ? & Hc2)]. apply chain_app.
      split; [done|]. eapply chain_raise; [exact Hc2|]. intros x Hx. destruct r2; simplify_eq/=.
      unfold rend in *. lia.
    + intros a. specialize (Hbef a). specialize (Haft a). solve_covers.
  - destruct (fl_write_spec _ _ _ _ _ _ _
      (mk_free_range (u64 (fr_start r + len)) (u64 (fr_len r - len))) Hrep Hl) as (fl' & Hw & Hrep' & _).
    rewrite (bind_ret _ _ _ _ _ Hw). unfold UINT64_MAX in *. rewrite !u64_small in Hrep' by lia.
    exists fl', (r1 ++ mk_free_range (fr_start r + len) (fr_len r - len) :: r2).
    split_and!; [done| |split; [solve_covers|]|done|lia|done].
    + split; [|by eexists]. apply chain_app in Hok as [Hc1 (? & ? & ? & Hc2)]. apply chain_app.
      split; [done|]. simpl. unfold rend, UINT64_MAX in *; simpl. split_and!; [lia..|].
      by replace (fr_start r + len + (fr_len r - len)) with (fr_start r + fr_len r) by lia.
    + intros a. specialize (Hbef a). specialize (Haft a). solve_covers.
Qed.

(** Avoiding the ranges is avoiding the addresses they cover. *)
Lemma avoids_covers lo rs s l :
  chain lo rs -> 0 < l -> (forall a, covers rs a -> ~ (s <= a < s + l)) -> avoids rs s l.
Proof.
  intros Hc Hl H. destruct (chain_bounds _ _ Hc) as [_ Hb]. unfold avoids.
  rewrite Forall_forall in Hb |- *. intros r Hr. specialize (Hb r Hr). unfold rend in *.
  destruct (decide (fr_start r + fr_len r <= s)); [by left|]. destruct (decide (s + l <= fr_start r)); [by right|].
  exfalso. apply (H (Z.max s (fr_start r))); [|lia].
  apply Exists_exists. exists r. split; [done|]. unfold in_range, rend. lia.
Qed.

(** What the alignment-aware search asks of a range: room for [len] bytes from
    the aligned start. *)
Definition fits_align (len align : Z) (r : vfio_iova_free_range) : Prop :=
  fr_start r <= ALIGN_UP (fr_start r) align < rend r /\
  len <= rend r - ALIGN_UP (fr_start r) align.

Lemma ALIGN_UP_range x a : 0 <= ALIGN_UP x a < 0x10000000000000000.
Proof. apply (land_range _ _ 64); [lia|]. apply u64_range. Qed.

Lemma fits_align_cond len align r :
  0 <= fr_start r -> 0 < fr_len r -> rend r <= UINT64_MAX ->
  let aligned := ALIGN_UP (fr_start r) align in
  let pad := u64 (aligned - fr_start r) in
  let avail := u64 (fr_len r - pad) in
  ((aligned <? fr_start r) || (fr_len r <=? pad) || (avail <? len)) = false ->
  fits_align len align r /\ avail = rend r - aligned.
Proof.
  intros H1 H2 H3 aligned pad avail. pose proof (ALIGN_UP_range (fr_start r) align) as Hr.
  fold aligned in Hr. unfold fits_align. fold aligned. clearbody aligned.
  rewrite !orb_false_iff. intros [[Ha%Z.ltb_ge Hp%Z.leb_gt] Hv%Z.ltb_ge].
  unfold rend, UINT64_MAX in *.
  assert (pad = aligned - fr_start r) as Ep by (apply u64_small; lia).
  clearbody pad. subst pad.
  assert (avail = fr_len r - (aligned - fr_start r)) as Ev by (apply u64_small; lia).
  clearbody avail. lia.
Qed.

Lemma best_fit_align_loop_spec store len align ns rs best sz :
  Forall2 (fun n r => store !! n = Some r) ns rs ->
  Forall (fun r => 0 <= fr_start r /\ 0 < fr_len r /\ rend r <= UINT64_MAX) rs ->
  match best_fit_align_loop store len align (Node <$> ns) best sz with
  | None => best = None
  | Some (i, aligned) =>
      best = Some (i, aligned) \/
      exists n1 n2 r1 r r2, ns = n1 ++ i :: n2 /\ rs = r1 ++ r :: r2 /\ length n1 = length r1 /\
        aligned = ALIGN_UP (fr_start r) align /\ fits_align len align r
  end.
Proof.
  intros H. revert best sz. induction H as [|n r ns rs Hn H IH]; intros best sz Hrs; simpl.
  { destruct best as [[]|]; eauto. }
  apply Forall_cons in Hrs as [(H1 & H2 & H3) Hrs]. rewrite Hn.
  assert (forall best' sz', (best' = best \/ exists al, best' = Some (n, al) /\
      al = ALIGN_UP (fr_start r) align /\ fits_align len align r) ->
    match best_fit_align_loop store len align (Node <$> ns) best' sz' with
    | None => best = None
    | Some (i, aligned) =>
        best = Some (i, aligned) \/
        exists n1 n2 r1 x r2, n :: ns = n1 ++ i :: n2 /\ r :: rs = r1 ++ x :: r2 /\
          length n1 = length r1 /\ aligned = ALIGN_UP (fr_start x) align /\ fits_align len align x
    end) as Hgo.
  { intros best' sz' Hb. specialize (IH best' sz' Hrs).
    destruct (best_fit_align_loop _ _ _ _ _ _) as [[i aligned]|].
    - destruct IH as [->|(n1 & n2 & r1 & x & r2 & -> & -> & Hl & Ha & Hf)].
      + destruct Hb as [<-|(al & [= <- <-] & Ha & Hf)]; [by left|].
        right. exists [], ns, [], r, rs. done.
      + right. exists (n :: n1), n2, (r :: r1), x, r2. split_and!; try done. simpl; lia.
    - destruct Hb as [<-|(al & -> & _)]; done. }
  pose proof (fits_align_cond len align r H1 H2 H3) as Hc. cbv zeta in Hc.
  destruct (_ || _ || _) eqn:E; [by apply Hgo; left|]. destruct (Hc eq_refl) as [Hf Ev].
  destruct (_ <? sz); [|by apply Hgo; left]. destruct (_ =? len).
  - right. exists [], ns, [], r, rs. done.
  - apply Hgo. right. eauto.
Qed.

Lemma taken_trans_pad rs rs' r1 r r2 s l :
  rs = r1 ++ r :: r2 -> ranges_ok rs -> fr_start r <= s -> 0 < l -> s + l <= rend r ->
  (forall a, covers rs' a <-> covers (r1 ++ r2) a \/ fr_start r <= a < s \/ s + l <= a < rend r) ->
  taken rs rs' s l.
Proof.
  intros -> Hok H1 H2 H3 Hcov. destruct (chain_mid _ _ _ Hok) as (_ & _ & _ & Hbef & Haft & _).
  split; intros a.
  - solve_covers.
  - specialize (Hbef a). specialize (Haft a). rewrite Hcov. solve_covers.
Qed.

(** [when] with a conditional return of a range: the list covers the range
    besides what it covered, if there is one. *)
Lemma put_free_when fl rs s l c rands :
  free_list_ok fl rs -> 0 <= s -> s + l <= UINT64_MAX ->
  (c = true <-> 0 < l) -> (forall a, covers rs a -> ~ (s <= a < s + l)) ->
  exists fl' rs', when c (__iova_put_free s l rands) fl = (Ret tt, fl') /\ free_list_ok fl' rs' /\
    forall a, covers rs' a <-> covers rs a \/ s <= a < s + l.
Proof.
  intros Hok Hs Hmax Hc Hav. destruct c; simpl.
  - apply put_free_spec; try done; [by apply Hc|]. destruct Hok as [Hch _].
    eapply avoids_covers; [exact Hch|by apply Hc|done].
  - assert (~ 0 < l) by (intros H%Hc; done). exists fl, rs. split; [done|]. split; [done|].
    intros a. split; [tauto|]. intros [?|?]; [done|lia].
Qed.

Lemma get_free_align_spec fl rs len align rands1 rands2 :
  free_list_ok fl rs -> 0 < len ->
  (__iova_get_free_align len align rands1 rands2 fl = (Ret None, fl)) \/
  (exists r fl' rs', 
     let aligned := ALIGN_UP (fr_start r) align in
     __iova_get_free_align len align rands1 rands2 fl = (Ret (Some aligned), fl') /\
     free_list_ok fl' rs' /\ taken rs rs' aligned len /\ r ∈ rs /\ fits_align len align r).
Proof.
  intros [Hok (ns & Hrep)] Hlen. unfold __iova_get_free_align.
  rewrite (contents_for_each _ ns) by apply Hrep. cbn [best_fit_align_loop].
  assert (Forall (fun r => 0 <= fr_start r /\ 0 < fr_len r /\ rend r <= UINT64_MAX) rs) as Hall.
  { eapply Forall_impl; [exact (proj2 (chain_bounds _ _ Hok))|]. simpl. lia. }
  pose proof (best_fit_align_loop_spec (fl_store fl) len align ns rs None SIZE_MAX
    (fl_nodes _ _ _ Hrep) Hall) as Hb.
  destruct (best_fit_align_loop _ _ _ _ _ _) as [[i aligned]|]; [right|by left].
  destruct Hb as [?|(n1 & n2 & r1 & r & r2 & -> & -> & Hl & Ea & Hfit)]; [done|].
  pose proof (fl_nodes _ _ _ Hrep) as Hn. apply Forall2_app_inv in Hn as [_ Hn]; [|done].
  apply Forall2_cons in Hn as [Hi _]. rewrite Hi. exists r.
  destruct (chain_mid _ _ _ Hok) as (Hs0 & Hl0 & Hmx & Hbef & Haft & Hlt & Hge).
  destruct Hfit as [Hal Hroom]. cbv zeta. rewrite <- Ea in *. unfold UINT64_MAX in Hmx.
  rewrite (u64_small (fr_start r + fr_len r)), (u64_small (aligned - fr_start r)),
    (u64_small (aligned + len)), (u64_small (fr_start r + fr_len r - (aligned + len)))
    by (unfold rend in *; lia).
  destruct (fl_erase_spec _ _ _ _ _ _ _ Hrep Hl Hlt Hge) as (fl1 & He & Hrep1).
  rewrite (bind_ret _ _ _ _ _ He).
  assert (free_list_ok fl1 (r1 ++ r2)) as Hok1.
  { split; [|by eexists]. apply chain_app in Hok as [Hc1 (? & ? & ? & Hc2)]. apply chain_app.
    split; [done|]. eapply chain_raise; [exact Hc2|]. intros x Hx. destruct r2; simplify_eq/=.
    unfold rend in *. lia. }
  assert (forall a, covers (r1 ++ r2) a -> a < fr_start r \/ rend r < a) as Hout.
  { intros a. rewrite covers_app. specialize (Hbef a). specialize (Haft a). tauto. }
  destruct (put_free_when fl1 (r1 ++ r2) (fr_start r) (aligned - fr_start r)
    (negb (aligned - fr_start r =? 0)) rands1) as (fl2 & rs2 & Hw2 & Hok2 & Hcov2); [done|lia|
    unfold rend, UINT64_MAX in *; lia| |intros a Ha%Hout; unfold rend in *; lia|].
  { destruct (Z.eqb_spec (aligned - fr_start r) 0); simpl; split; try done; lia. }
  rewrite (bind_ret _ _ _ _ _ Hw2).
  destruct (put_free_when fl2 rs2 (aligned + len) (fr_start r + fr_len r - (aligned + len))
    (aligned + len <? fr_start r + fr_len r) rands2) as (fl3 & rs3 & Hw3 & Hok3 & Hcov3); [done|lia|
    unfold rend, UINT64_MAX in *; lia| | |].
  { destruct (Z.ltb_spec (aligned + len) (fr_start r + fr_len r)); split; try done; lia. }
  { intros a [Ha%Hout|Ha]%Hcov2; unfold rend in *; lia. }
  rewrite (bind_ret _ _ _ _ _ Hw3). exists fl3, rs3.
  split; [done|]. split; [done|]. split; [|split; [set_solver|unfold fits_align; by rewrite <- Ea]].
  eapply taken_trans_pad; [done|done|lia|done|lia|].
  intros a. rewrite Hcov3, Hcov2. unfold rend in *. split; intros; intuition lia.
Qed.

(** ** The linear allocator *)

Definition allowed (ranges : list iommu_iova_range) (a : Z) : Prop :=
  Exists (fun r => r_start r <= a <= r_last r) ranges.

(** Ranges of 64-bit addresses. *)
Definition valid_ranges (ranges : list iommu_iova_range) : Prop :=
  Forall (fun r => 0 <= r_start r /\ r_last r <= UINT64_MAX) ranges.
(** Ranges that end below the last address, so that the address after a
    reservation is representable. *)
Definition ends_below (ranges : list iommu_iova_range) : Prop :=
  Forall (fun r => r_last r < UINT64_MAX) ranges.
(** No range is the whole address space: the size of a range is representable. *)
Definition proper_ranges (ranges : list iommu_iova_range) : Prop :=
  Forall (fun r => r_last r - r_start r < UINT64_MAX) ranges.
(** Ranges in ascending order. *)
Definition ascending (ranges : list iommu_iova_range) : Prop :=
  StronglySorted (fun r r' => r_start r <= r_start r') ranges.

(** [len] bytes fit into [r] at or after [next]. *)
Definition room (next len : Z) (r : iommu_iova_range) : Prop :=
  Z.max next (r_start r) + len - 1 <= r_last r.
#[export] Instance room_dec next len r : Decision (room next len r).
Proof. unfold room. apply _. Defined.

(** A reservation of [len] bytes from [ranges] that starts at [next] or later. *)
Definition reserved (ranges : list iommu_iova_range) (next len iova : Z) : Prop :=
  next <= iova /\ iova + len <= UINT64_MAX + 1 /\
  exists r, r ∈ ranges /\ r_start r <= iova /\ iova + len - 1 <= r_last r.

Lemma reserved_cons r ranges next next' len iova :
  next <= next' -> reserved ranges next' len iova -> reserved (r :: ranges) next len iova.
Proof.
  intros H (H1 & H2 & x & Hx & H3). split; [lia|]. split; [done|]. exists x. split; [set_solver|done].
Qed.

Lemma reserved_here r ranges next len iova :
  next <= iova -> r_start r <= iova -> iova + len - 1 <= r_last r -> r_last r <= UINT64_MAX ->
  reserved (r :: ranges) next len iova.
Proof. intros. split; [done|]. split; [lia|]. exists r. split; [set_solver|done]. Qed.

Lemma reserved_allowed ranges next len iova a :
  reserved ranges next len iova -> iova <= a < iova + len -> allowed ranges a.
Proof. intros (_ & _ & r & Hr & H) Ha. apply Exists_exists. exists r. split; [done|lia]. Qed.

(** The size check of a range: a size of 2^64 reads as 0 and is refused. *)
Lemma size_fits last next len :
  0 <= next -> last <= UINT64_MAX -> 0 < len -> next <= last ->
  len <= u64 (last - next + 1) -> next + len - 1 <= last.
Proof.
  unfold UINT64_MAX. intros H0 H1 H2 H3 Hfit.
  destruct (decide (last - next + 1 = 0x10000000000000000)) as [E|].
  - rewrite E in Hfit. change (u64 0x10000000000000000) with 0 in Hfit. lia.
  - rewrite u64_small in Hfit; lia.
Qed.

Lemma iova_reserve_spec ranges next len iova n :
  valid_ranges ranges -> 0 <= next -> 0 < len ->
  __iova_reserve ranges next len = Some (iova, n) -> reserved ranges next len iova /\ n = u64 (iova + len).
Proof.
  unfold __iova_reserve. intros Hv. revert next. induction Hv as [|r ranges [Hr1 Hr2] Hv IH];
    intros next Hn Hl; simpl; [done|].
  destruct (Z.ltb_spec (r_last r) next).
  { intros [? ?]%IH; [|done..]. split; [|done]. by eapply reserved_cons. }
  destruct (_ || _) eqn:E.
  { intros [? ?]%IH; [|lia..]. split; [|done]. eapply reserved_cons; [|done]. lia. }
  intros [= <- <-]. apply orb_false_iff in E as [E1%Z.ltb_ge E2%Z.ltb_ge].
  apply size_fits in E2; [|lia..]. split; [|done]. apply reserved_here; lia.
Qed.

(** The linear allocator takes the first range with room, and finds none only if
    no range has room left. *)
Lemma iova_reserve_room ranges next len :
  valid_ranges ranges -> proper_ranges ranges -> ascending ranges -> 0 <= next -> 0 < len ->
  match __iova_reserve ranges next len with
  | Some (iova, n) => n = u64 (iova + len) /\
      exists r, r ∈ ranges /\ room next len r /\ iova = Z.max next (r_start r)
  | None => Forall (fun r => ~ room next len r) ranges
  end.
Proof.
  unfold __iova_reserve, room. intros Hv Hp Hs. revert next.
  induction Hs as [|r ranges Hs IH Hr]; intros next Hn Hl; simpl; [constructor|].
  apply Forall_cons in Hv as [[Hr1 Hr2] Hv]. apply Forall_cons in Hp as [Hp0 Hp]. unfold UINT64_MAX in *.
  rewrite Forall_forall in Hr.
  destruct (Z.ltb_spec (r_last r) next).
  { specialize (IH Hv Hp next Hn Hl). destruct (reserve_loop _ _ _) as [[iova n]|].
    - destruct IH as (? & q & ? & ?). split; [done|]. exists q. split; [set_solver|done].
    - constructor; [lia|done]. }
  assert (forall q, q ∈ ranges -> Z.max (Z.max next (r_start r)) (r_start q) = Z.max next (r_start q)) as Hq.
  { intros q Hq. specialize (Hr q Hq). lia. }
  destruct (_ || _) eqn:E.
  - specialize (IH Hv Hp (Z.max next (r_start r)) ltac:(lia) Hl). destruct (reserve_loop _ _ _) as [[iova n]|].
    + destruct IH as (? & q & ? & ? & ?). split; [done|]. exists q. rewrite Hq in * by done. split; [set_solver|done].
    + constructor.
      * apply orb_true_iff in E as [E%Z.ltb_lt|E%Z.ltb_lt]; [lia|].
        destruct (decide (r_last r < Z.max next (r_start r))); [lia|]. rewrite u64_small in E; lia.
      * rewrite Forall_forall in IH |- *. intros q ?. rewrite <- Hq by done. by apply IH.
  - apply orb_false_iff in E as [E1%Z.ltb_ge E2%Z.ltb_ge]. apply size_fits in E2; [|unfold UINT64_MAX; lia..].
    split; [done|]. exists r. split; [set_solver|lia].
Qed.

Lemma iova_reserve_align_spec ranges next len align iova n :
  valid_ranges ranges -> 0 <= next -> 0 < len ->
  __iova_reserve_align ranges next len align = Some (iova, n) ->
  reserved ranges next len iova /\ n = u64 (iova + len) /\ exists x, 0 <= x <= iova /\ iova = ALIGN_UP x align.
Proof.
  unfold __iova_reserve_align. intros Hv. revert next. induction Hv as [|r ranges [Hr1 Hr2] Hv IH];
    intros next Hn Hl; simpl; [done|].
  destruct (Z.ltb_spec (r_last r) next).
  { intros (? & ? & ?)%IH; [|done..]. split; [|done]. by eapply reserved_cons. }
  pose proof (ALIGN_UP_range (Z.max next (r_start r)) align) as Ha.
  destruct (_ || _) eqn:E.
  { intros (? & ? & ?)%IH; [|lia..]. split; [|done]. eapply reserved_cons; [|done]. lia. }
  intros [= <- <-]. apply orb_false_iff in E as [[E0%Z.ltb_ge E1%Z.ltb_ge]%orb_false_iff E2%Z.ltb_ge].
  apply size_fits in E2; [|lia..]. split; [apply reserved_here; lia|]. split; [done|].
  exists (Z.max next (r_start r)). split; [lia|done].
Qed.

(** An aligned value that did not wrap is a multiple of a power-of-two alignment. *)
Lemma ALIGN_UP_mod x a : pow2 a -> ALIGN_UP x a mod a = 0.
Proof.
  intros Ha. pose proof (pow2_pos a Ha).
  change (ALIGN_UP x a) with (ALIGN_DOWN (u64 (x + a - 1)) a).
  rewrite (ALIGN_DOWN_spec _ _ (u64_range _) Ha). rewrite Zminus_mod, Z.mod_mod, Z.sub_diag by lia.
  by apply Z.mod_0_l; lia.
Qed.

Lemma empty_free_list_ok : free_list_ok empty_free_list [].
Proof.
  split; [done|]. exists []. split; [apply skiplist_init_contents|constructor|constructor].
Qed.

(** ** Properties *)

(** Returning a range to the free list ([__iova_put_free]): if the range is
    non-empty and shares no address with the free ones, the
    call succeeds, the list afterwards covers exactly the addresses it covered
    and those of the range, and it is fully coalesced: the ranges are in
    ascending order with a gap between neighbours. *)
Theorem put_free_coalesces fl rs s l rands :
  free_list_ok fl rs -> 0 <= s -> 0 < l -> s + l <= UINT64_MAX -> avoids rs s l ->
  exists fl' rs', __iova_put_free s l rands fl = (Ret tt, fl') /\ free_list_ok fl' rs' /\
    (forall a, covers rs' a <-> covers rs a \/ s <= a < s + l) /\
    (forall i r1 r2, rs' !! i = Some r1 -> rs' !! S i = Some r2 -> rend r1 < fr_start r2).
Proof.
  intros Hok Hs Hl Hm Ha. destruct (put_free_spec fl rs s l rands Hok Hs Hl Hm Ha)
    as (fl' & rs' & Hput & Hok' & Hcov).
  exists fl', rs'. split_and!; [done..|]. destruct Hok' as [Hch _].
  intros i r1 r2 H1 H2. apply take_drop_middle in H1 as E. rewrite <- E in Hch.
  apply chain_app in Hch as [_ (_ & _ & _ & Hch)].
  assert (drop (S i) rs' !! 0%nat = Some r2) as H0 by (by rewrite lookup_drop, Nat.add_0_r).
  destruct (drop (S i) rs'); [done|]. simplify_eq/=. apply Hch.
Qed.

(** Taking a range from the free list ([__iova_get_free]): if some range has
    the requested length or more, the call returns the start of a smallest such
    range, and the list afterwards covers exactly the addresses it covered less
    the ones handed out; otherwise it returns nothing and changes nothing. *)
Theorem get_free_best_fit fl rs len :
  free_list_ok fl rs -> 0 < len -> Forall (fun r => fr_len r < SIZE_MAX) rs ->
  if bool_decide (Exists (fun r => len <= fr_len r) rs) then
    exists r fl' rs', r ∈ rs /\ len <= fr_len r /\
      Forall (fun r' => len <= fr_len r' -> fr_len r <= fr_len r') rs /\
      __iova_get_free len fl = (Ret (Some (fr_start r)), fl') /\
      free_list_ok fl' rs' /\ taken rs rs' (fr_start r) len
  else __iova_get_free len fl = (Ret None, fl).
Proof.
  intros Hok Hlen Hmax. rewrite Forall_forall in Hmax.
  destruct (get_free_spec _ _ _ Hok Hlen) as [[Hg Hno]|(r & fl' & rs' & Hg & Hok' & Ht & Hr & Hl & Hb)].
  - rewrite bool_decide_false; [done|]. intros (r & Hr & Hl)%Exists_exists.
    rewrite Forall_forall in Hno. specialize (Hno r Hr Hl). specialize (Hmax r Hr). lia.
  - rewrite bool_decide_true; [|apply Exists_exists; eauto]. exists r, fl', rs'. done.
Qed.

Lemma put_free_coalesces_witness :
  exists fl' rs', __iova_put_free 0x1000 0x1000 [] empty_free_list = (Ret tt, fl') /\
    free_list_ok fl' rs' /\ (forall a, covers rs' a <-> covers [] a \/ 0x1000 <= a < 0x1000 + 0x1000) /\
    (forall i r1 r2, rs' !! i = Some r1 -> rs' !! S i = Some r2 -> rend r1 < fr_start r2).
Proof.
  apply (put_free_coalesces empty_free_list [] 0x1000 0x1000 []);
    [apply empty_free_list_ok|lia|lia|unfold UINT64_MAX; lia|constructor].
Defined.

(** A free list with a gap between two ranges. *)
Definition demo_free_list : free_list :=
  snd (__iova_put_free 0x1000 0x2000 [] (snd (__iova_put_free 0x8000 0x1000 [] empty_free_list))).

Lemma demo_free_list_ok :
  free_list_ok demo_free_list [mk_free_range 0x1000 0x2000; mk_free_range 0x8000 0x1000].
Proof.
  split; [by repeat split|]. exists [1%nat; 0%nat].
  split; [|by repeat constructor|by repeat constructor; lia].
  exists ([[1%nat; 0%nat]] ++ replicate 7 []). split; [|done]. split; try done.
  - unfold height, SKIPLIST_LEVELS. vm_compute. lia.
  - simpl. repeat constructor; set_solver.
  - intros k _. destruct k as [|k]; [apply sublist_nil_l|]. simpl.
    do 8 (destruct k as [|k]; [done|]). done.
  - intros k Hk. change (height (fl_list demo_free_list)) with 0%nat in Hk.
    do 8 (destruct k as [|k]; [done || lia|]). done.
  - by left.
Qed.

Lemma get_free_best_fit_witness :
  exists r fl' rs', r ∈ [mk_free_range 0x1000 0x2000; mk_free_range 0x8000 0x1000] /\
    0x1000 <= fr_len r /\
    Forall (fun r' => 0x1000 <= fr_len r' -> fr_len r <= fr_len r')
      [mk_free_range 0x1000 0x2000; mk_free_range 0x8000 0x1000] /\
    __iova_get_free 0x1000 demo_free_list = (Ret (Some (fr_start r)), fl') /\
    free_list_ok fl' rs' /\
    taken [mk_free_range 0x1000 0x2000; mk_free_range 0x8000 0x1000] rs' (fr_start r) 0x1000.
Proof.
  apply (get_free_best_fit demo_free_list [mk_free_range 0x1000 0x2000; mk_free_range 0x8000 0x1000] 0x1000);
    [apply demo_free_list_ok|lia|by repeat constructor].
Defined.
