(* ===== verification/VfioIova.v ===== *)
(** * VfioIova: the address-space operations of a vfio container

    The part of [struct vfio_container] that hands out I/O virtual addresses
    (src/iommu/vfio.c): the linear allocator, the free list of returned ranges
    and the ephemeral window, behind [iova_reserve], [iova_reserve_align],
    [vfio_iova_put], [iova_put_ephemeral] and the recycling of the window.

    Every operation takes the lock of the container, so an execution is a
    sequence of operations; [alloc_step] is that sequence with the live
    reservations as ghost state, and [alloc_inv] its invariant. *)

From S2P Require Import Prelude Support Skiplist IovaAlloc.
Local Open Scope Z_scope.
Local Open Scope vfn_scope.

(** ** Data *)

(** enum iommu_map_flags *)
Definition IOMMU_MAP_FIXED_IOVA : Z := Z.shiftl 1 0.
Definition IOMMU_MAP_EPHEMERAL : Z := Z.shiftl 1 1.
Definition IOMMU_MAP_NOWRITE : Z := Z.shiftl 1 2.
Definition IOMMU_MAP_NOREAD : Z := Z.shiftl 1 3.

(** [flags & f] as a condition. *)
Definition flag_set (flags f : Z) : bool := negb (Z.land flags f =? 0).

Definition VFIO_IOMMU_TYPE1_IOVA_RESERVED : Z := 0x10000.

(** The members of [struct vfio_container] (and [iova_ranges] of its [ctx])
    the allocator works on. *)
Record iova_allocator : Type := mk_allocator {
  iova_ranges : list iommu_iova_range;
  next : Z;
  next_ephemeral : Z;
  nephemerals : Z;
  ephemerals : iommu_iova_range;
  free_iovas : free_list
}.

Definition set_next (n : Z) (a : iova_allocator) : iova_allocator :=
  mk_allocator (iova_ranges a) n (next_ephemeral a) (nephemerals a) (ephemerals a) (free_iovas a).
Definition set_next_ephemeral (n : Z) (a : iova_allocator) : iova_allocator :=
  mk_allocator (iova_ranges a) (next a) n (nephemerals a) (ephemerals a) (free_iovas a).
Definition set_nephemerals (n : Z) (a : iova_allocator) : iova_allocator :=
  mk_allocator (iova_ranges a) (next a) (next_ephemeral a) n (ephemerals a) (free_iovas a).
Definition set_ephemerals (r : iommu_iova_range) (a : iova_allocator) : iova_allocator :=
  mk_allocator (iova_ranges a) (next a) (next_ephemeral a) (nephemerals a) r (free_iovas a).
Definition set_free_iovas (fl : free_list) (a : iova_allocator) : iova_allocator :=
  mk_allocator (iova_ranges a) (next a) (next_ephemeral a) (nephemerals a) (ephemerals a) fl.

(** A freshly zeroed container with the ranges the kernel allows. *)
Definition new_allocator (ranges : list iommu_iova_range) : iova_allocator :=
  mk_allocator ranges 0 0 0 (mk_iova_range 0 0) empty_free_list.

(** Run an operation on the free list of the container. *)
Definition on_free {A} (m : M free_list A) : M iova_allocator A := fun a =>
  let '(r, fl) := m (free_iovas a) in (r, set_free_iovas fl a).

(** ** Operations *)

Section Ops.
Context {page : PageSize}.

Definition vfio_iommu_type1_iova_reserve (len flags : Z) : M iova_allocator Z :=
  if negb (ALIGNED len __VFN_PAGESIZE) then fail EINVAL
  else if flag_set flags IOMMU_MAP_EPHEMERAL then
    let* a := get in
    match __iova_reserve [ephemerals a] (next_ephemeral a) len with
    | None => fail ENOMEM
    | Some (iova, n) =>
        do* modify (set_next_ephemeral n) in
        do* modify (fun a => set_nephemerals (u64 (nephemerals a + 1)) a) in
        ret iova
    end
  else
    let* r := on_free (__iova_get_free len) in
    match r with
    | Some iova => ret iova
    | None =>
        let* a := get in
        match __iova_reserve (iova_ranges a) (next a) len with
        | Some (iova, n) => do* modify (set_next n) in ret iova
        | None => fail ENOMEM
        end
    end.

Definition vfio_iommu_type1_iova_reserve_align (len align : Z) (rands1 rands2 : list bool)
    : M iova_allocator Z :=
  if negb (ALIGNED len __VFN_PAGESIZE) then fail EINVAL
  else if (align =? 0) || negb (ALIGNED align __VFN_PAGESIZE) then fail EINVAL
  else
    let* r := on_free (__iova_get_free_align len align rands1 rands2) in
    match r with
    | Some iova => ret iova
    | None =>
        let* a := get in
        match __iova_reserve_align (iova_ranges a) (next a) len align with
        | Some (iova, n) => do* modify (set_next n) in ret iova
        | None => fail ENOMEM
        end
    end.

Definition vfio_iova_put (iova len : Z) (rands : list bool) : M iova_allocator unit :=
  let* a := get in
  if (r_start (ephemerals a) <=? iova) && (iova <=? r_last (ephemerals a)) then ret tt
  else on_free (__iova_put_free iova len rands).

Definition vfio_iommu_type1_recycle_ephemeral_iovas : M iova_allocator unit :=
  modify (fun a => set_next_ephemeral (r_start (ephemerals a)) a).

Definition vfio_iommu_type1_iova_put_ephemeral : M iova_allocator unit :=
  do* modify (fun a => set_nephemerals (u64 (nephemerals a - 1)) a) in
  let* n := gets nephemerals in
  when (n =? 0) vfio_iommu_type1_recycle_ephemeral_iovas.

(** The window for ephemeral mappings, set aside when the container is
    initialised. *)
Definition reserve_ephemerals : M iova_allocator unit :=
  let* iova := vfio_iommu_type1_iova_reserve VFIO_IOMMU_TYPE1_IOVA_RESERVED 0 in
  modify (set_ephemerals
    (mk_iova_range iova (u64 (iova + VFIO_IOMMU_TYPE1_IOVA_RESERVED - 1)))).

(** What a successful [VFIO_DMA_UNMAP_FLAG_ALL] does to the allocator: the free
    list is emptied and nothing else changes. *)
Definition clear_free_iovas : M iova_allocator unit := fun a =>
  let fl := free_iovas a in
  match skiplist_clear_with (fl_list fl) false with
  | (sl, _) => (Ret tt, set_free_iovas (mk_free_list sl (fl_store fl) (fl_fresh fl)) a)
  end.
End Ops.

Arguments clear_free_iovas : simpl never.

(** ** Intervals of addresses: a start and a length *)

Definition inside (i : Z * Z) (x : Z) : Prop := i.1 <= x < i.1 + i.2.
Definition disj (i j : Z * Z) : Prop := i.1 + i.2 <= j.1 \/ j.1 + j.2 <= i.1.

Lemma disj_sym i j : disj i j -> disj j i.
Proof. unfold disj. tauto. Qed.

Lemma disj_inside i j : (forall x, inside i x -> ~ inside j x) -> 0 < i.2 -> 0 < j.2 -> disj i j.
Proof.
  unfold inside, disj. intros H Hi Hj. destruct (decide (i.1 + i.2 <= j.1)); [by left|].
  destruct (decide (j.1 + j.2 <= i.1)); [by right|]. exfalso. apply (H (Z.max i.1 j.1)); lia.
Qed.

Lemma inside_disj i j x : disj i j -> inside i x -> ~ inside j x.
Proof. unfold inside, disj. lia. Qed.

(** Pairwise disjoint intervals. *)
Definition apart (l : list (Z * Z)) : Prop := StronglySorted disj l.

Lemma apart_cons i l : apart (i :: l) <-> Forall (disj i) l /\ apart l.
Proof.
  split; [intros H; inversion H; subst; done|]. intros [? ?]. by constructor.
Qed.

Lemma apart_delete l1 i l2 :
  apart (l1 ++ i :: l2) <-> apart (l1 ++ l2) /\ Forall (disj i) (l1 ++ l2).
Proof.
  induction l1 as [|j l1 IH]; simpl; [rewrite apart_cons; tauto|].
  rewrite !apart_cons, IH, Forall_cons, !Forall_app, Forall_cons.
  split; intros; destruct_and!; split_and!; try done; by apply disj_sym.
Qed.

#[export] Instance apart_perm : Proper ((≡ₚ) ==> iff) apart.
Proof.
  assert (forall l l', l ≡ₚ l' -> apart l -> apart l') as H.
  { intros l l' Hp. induction Hp as [|i l l' Hp IH|i j l|]; [done|..|eauto].
    - rewrite !apart_cons. intros [Hd ?]. split; [by rewrite <- Hp|by apply IH].
    - rewrite !apart_cons, !Forall_cons. intros ([? ?] & ? & ?). split_and!; auto using disj_sym. }
  intros l l' Hp. split; apply H; [done|by symmetry].
Qed.

(** ** The invariant *)

Section Inv.
Context {page : PageSize}.
Local Abbreviation P := __VFN_PAGESIZE.

(** The page of an address is covered as a whole. *)
Definition saturated (rs : list vfio_iova_free_range) : Prop :=
  forall x y, x / P = y / P -> covers rs x -> covers rs y.

Definition window (a : iova_allocator) : Z * Z :=
  (r_start (ephemerals a), r_last (ephemerals a) - r_start (ephemerals a) + 1).

(** A page-aligned interval of allowed addresses below [next]. *)
Definition reserved_ok (a : iova_allocator) (i : Z * Z) : Prop :=
  0 <= i.1 /\ 0 < i.2 /\ i.1 + i.2 <= next a /\ i.1 mod P = 0 /\ i.2 mod P = 0 /\
  forall x, inside i x -> allowed (iova_ranges a) x.

Definition ephemeral_ok (a : iova_allocator) (i : Z * Z) : Prop :=
  r_start (ephemerals a) <= i.1 /\ 0 < i.2 /\ i.1 + i.2 <= next_ephemeral a /\
  i.1 mod P = 0 /\ i.2 mod P = 0.

Record alloc_wf (a : iova_allocator) : Prop := {
  wf_ranges : valid_ranges (iova_ranges a);
  wf_ranges_page : Forall (fun r => r_start r mod P = 0) (iova_ranges a);
  wf_next : 0 <= next a <= UINT64_MAX /\ next a mod P = 0
}.

(** The free list holds whole pages below [next] that no reservation of [busy]
    includes. *)
Record free_inv (a : iova_allocator) (busy : list (Z * Z)) : Prop := {
  fi_wf : alloc_wf a;
  fi_free : exists rs, free_list_ok (free_iovas a) rs /\ saturated rs /\
    forall x, covers rs x ->
      x < next a /\ allowed (iova_ranges a) x /\ Forall (fun i => ~ inside i x) busy;
  fi_busy : Forall (reserved_ok a) busy;
  fi_apart : apart busy
}.

(** The order of the reservations does not matter. *)
#[global] Instance free_inv_perm a : Proper ((≡ₚ) ==> iff) (free_inv a).
Proof.
  assert (forall l l', l ≡ₚ l' -> free_inv a l -> free_inv a l') as H.
  { intros l l' Hp [H1 (rs & H2 & H3 & H4) H5 H6]. split; [done| |by rewrite <- Hp..].
    exists rs. split; [done|]. split; [done|]. intros x Hx. rewrite <- Hp. by apply H4. }
  intros l l' Hp. split; apply H; [done|by symmetry].
Qed.

(** The ephemeral window: live ephemeral reservations lie apart from each other
    below [next_ephemeral], and the counter counts them. *)
Record window_inv (a : iova_allocator) (eph : list (Z * Z)) : Prop := {
  wi_window : 0 <= r_start (ephemerals a) <= r_last (ephemerals a) /\
    r_last (ephemerals a) < UINT64_MAX /\ r_start (ephemerals a) mod P = 0;
  wi_next : 0 <= next_ephemeral a <= r_last (ephemerals a) + 1 /\ next_ephemeral a mod P = 0;
  wi_eph : Forall (ephemeral_ok a) eph;
  wi_apart : apart eph;
  wi_count : nephemerals a = Z.of_nat (length eph) /\
    (eph = [] \/ Z.of_nat (length eph) <= next_ephemeral a - r_start (ephemerals a))
}.

(** [live] are the reservations handed out and not returned, [eph] the
    ephemeral ones; the window itself is a reservation. *)
Definition alloc_inv (a : iova_allocator) (live eph : list (Z * Z)) : Prop :=
  free_inv a (window a :: live) /\ window_inv a eph.

Local Lemma page_pos : 0 < P.
Proof. pose proof pagesize_min. lia. Qed.

(** The free ranges of whole pages start at a page. *)
Lemma saturated_start rs r : ranges_ok rs -> saturated rs -> r ∈ rs -> fr_start r mod P = 0.
Proof.
  intros Hok Hsat (r1 & r2 & ->)%list_elem_of_split. pose proof page_pos as HP.
  destruct (chain_mid _ _ _ Hok) as (H1 & H2 & H3 & Hb & Ha & _).
  destruct (decide (fr_start r mod P = 0)) as [|Hne]; [done|]. exfalso.
  assert (covers (r1 ++ r :: r2) (fr_start r - 1)) as Hc.
  { apply (Hsat (fr_start r)); [|solve_covers].
    pose proof (Z.mod_pos_bound (fr_start r) P HP). pose proof (Z.div_mod (fr_start r) P).
    apply Z.div_unique with (fr_start r mod P - 1); lia. }
  apply covers_app in Hc as [Hc|[Hc|Hc]%covers_cons].
  - apply chain_app in Hok as [Hc1 (Hgap & _)]. pose proof (covers_bounds _ _ _ Hc1 Hc). lia.
  - unfold in_range in Hc. lia.
  - apply Ha in Hc. unfold rend in Hc. lia.
Qed.

(** An interval of whole pages contains all of a page or nothing of it. *)
Lemma page_interval s l x y :
  s mod P = 0 -> l mod P = 0 -> x / P = y / P -> s <= x < s + l -> s <= y < s + l.
Proof.
  pose proof page_pos as HP. intros Hs Hl Hxy.
  apply Z.div_exact in Hs; [|lia]. apply Z.div_exact in Hl; [|lia].
  revert Hs Hl. generalize (s / P), (l / P). intros q k -> ->. rewrite <- Z.mul_add_distr_l.
  assert (forall n z, P * n <= z <-> n <= z / P) as Hle.
  { intros n z. split; [intros; by apply Z.div_le_lower_bound|].
    pose proof (Z.mul_div_le z P HP). nia. }
  pose proof (Hle q x). pose proof (Hle q y). pose proof (Hle (q + k) x). pose proof (Hle (q + k) y).
  rewrite <- Hxy in *. lia.
Qed.

Lemma saturated_taken rs rs' s l :
  s mod P = 0 -> l mod P = 0 -> taken rs rs' s l -> saturated rs -> saturated rs'.
Proof.
  intros Hs Hl [_ Ht] Hsat x y Hxy. rewrite !Ht. intros [Hx Hn]. split; [by eapply Hsat|].
  intros Hy. apply Hn. by eapply page_interval; [..|exact Hy].
Qed.

Lemma saturated_put rs rs' s l :
  s mod P = 0 -> l mod P = 0 -> (forall x, covers rs' x <-> covers rs x \/ s <= x < s + l) ->
  saturated rs -> saturated rs'.
Proof.
  intros Hs Hl Ht Hsat x y Hxy. rewrite !Ht. intros [Hx|Hx]; [left; by eapply Hsat|right].
  by eapply page_interval; [..|exact Hx].
Qed.

(** ** Reservation *)

Lemma on_free_same {A} (m : M free_list A) r a :
  m (free_iovas a) = (r, free_iovas a) -> on_free m a = (r, a).
Proof. unfold on_free. intros ->. by destruct a. Qed.

Lemma on_free_run {A} (m : M free_list A) r fl a :
  m (free_iovas a) = (r, fl) -> on_free m a = (r, set_free_iovas fl a).
Proof. unfold on_free. by intros ->. Qed.

Lemma aligned_page x : ALIGNED x P = true <-> x mod P = 0.
Proof. rewrite ALIGNED_spec by apply pagesize_pow2. apply Z.eqb_eq. Qed.

(** Addresses taken from the free list become a reservation. *)
Lemma inv_taken a busy fl' rs rs' s l :
  free_inv a busy -> free_list_ok (free_iovas a) rs -> saturated rs ->
  (forall x, covers rs x ->
     x < next a /\ allowed (iova_ranges a) x /\ Forall (fun i => ~ inside i x) busy) ->
  free_list_ok fl' rs' -> taken rs rs' s l -> 0 <= s -> 0 < l -> s mod P = 0 -> l mod P = 0 ->
  free_inv (set_free_iovas fl' a) ((s, l) :: busy).
Proof.
  intros [Hwf _ Hbusy Hap] Hfl Hsat Hfree Hfl' Htk Hs Hl Hsm Hlm. pose proof Htk as [Hin Hcov].
  assert (forall x, s <= x < s + l -> x < next a /\ allowed (iova_ranges a) x /\
    Forall (fun i => ~ inside i x) busy) as Hnew by (intros x Hx; by apply Hfree, Hin).
  split.
  - by destruct Hwf.
  - exists rs'. split; [done|]. split; [by apply (saturated_taken rs rs' s l)|].
    intros x [Hx Hnx]%Hcov. apply Hfree in Hx as (? & ? & ?). split; [done|]. split; [done|].
    by constructor.
  - constructor; [|exact Hbusy]. unfold reserved_ok; simpl. split_and!; try done.
    + destruct (Hnew (s + l - 1)) as [? _]; lia.
    + intros x Hx. by apply Hnew.
  - apply apart_cons. split; [|done]. rewrite Forall_forall in Hbusy |- *. intros j Hj.
    destruct (Hbusy j Hj) as (_ & Hj2 & _). apply disj_inside; simpl; [|done..].
    intros x Hx. destruct (Hnew x Hx) as (_ & _ & Hf). rewrite Forall_forall in Hf. by apply Hf.
Qed.

(** The linear allocator did not come to the end of the address space, where
    [next] wraps around to 0: because [next] is not 0, or because no range ends
    there. *)
Definition no_wrap (a a' : iova_allocator) : Prop := next a' <> 0 \/ ends_below (iova_ranges a).

Lemma reserved_no_wrap a s l :
  alloc_wf a -> reserved (iova_ranges a) (next a) l s -> no_wrap a (set_next (u64 (s + l)) a) ->
  s + l <= UINT64_MAX.
Proof.
  intros [Hv _ _] (_ & Hmax & r & Hr & Hr1 & Hr2) [Hn|Hn]; unfold UINT64_MAX in *; simpl in *.
  - destruct (decide (s + l = 0x10000000000000000)) as [E|]; [by rewrite E in Hn|lia].
  - unfold ends_below in Hn. rewrite Forall_forall in Hn. specialize (Hn r Hr). unfold UINT64_MAX in *. lia.
Qed.

(** A reservation by the linear allocator. *)
Lemma inv_linear a busy s l :
  free_inv a busy -> reserved (iova_ranges a) (next a) l s -> 0 < l -> s mod P = 0 -> l mod P = 0 ->
  no_wrap a (set_next (u64 (s + l)) a) ->
  free_inv (set_next (u64 (s + l)) a) ((s, l) :: busy).
Proof.
  intros [Hwf (rs & Hfl & Hsat & Hfree) Hbusy Hap] Hres Hl Hsm Hlm Hnw.
  assert (s + l <= UINT64_MAX) as Hmax by (by eapply reserved_no_wrap; [apply Hwf|..]).
  pose proof Hres as (Hge & _). destruct Hwf as [Hv Hp [Hn Hnp]].
  assert (u64 (s + l) = s + l) as Eu by (unfold UINT64_MAX in Hmax; rewrite u64_small; lia).
  rewrite Eu in *. clear Eu Hnw. split.
  - split; simpl; [done..|]. split; [lia|]. rewrite Zplus_mod, Hsm, Hlm. done.
  - exists rs. split; [done|]. split; [done|]. intros x (Hx & Ha & Hf)%Hfree. simpl.
    split; [lia|]. split; [done|]. constructor; [|done]. unfold inside. simpl. lia.
  - constructor.
    + unfold reserved_ok; simpl. split_and!; try done; try lia. intros x Hx.
      by eapply reserved_allowed.
    + eapply Forall_impl; [exact Hbusy|]. unfold reserved_ok. simpl. intuition lia.
  - apply apart_cons. split; [|done]. eapply Forall_impl; [exact Hbusy|].
    intros j (_ & _ & Hj & _). unfold disj. simpl. lia.
Qed.

(** The window does not change under operations on the rest. *)
Lemma window_inv_ext a a' eph :
  ephemerals a' = ephemerals a -> next_ephemeral a' = next_ephemeral a ->
  nephemerals a' = nephemerals a -> window_inv a eph -> window_inv a' eph.
Proof.
  intros E1 E2 E3 [H1 H2 H3 H4 H5]. split; rewrite ?E1, ?E2, ?E3; try done.
  eapply Forall_impl; [exact H3|]. unfold ephemeral_ok. by rewrite E1, E2.
Qed.

(** Addresses the linear allocator hands out start at a page. *)
Lemma linear_page ranges n len iova :
  Forall (fun r => r_start r mod P = 0) ranges -> n mod P = 0 ->
  __iova_reserve ranges n len = Some (iova, u64 (iova + len)) -> iova mod P = 0.
Proof.
  unfold __iova_reserve. intros Hr. revert n. induction Hr as [|r ranges Hr _ IH]; intros n Hn; simpl; [done|].
  assert (Z.max n (r_start r) mod P = 0) by (destruct (Z.max_spec n (r_start r)) as [[_ ->]|[_ ->]]; done).
  destruct (_ <? _); [by apply IH|]. destruct (_ || _); [by apply IH|]. by intros [= <-].
Qed.

Lemma reserve_next ranges n len iova n' :
  __iova_reserve ranges n len = Some (iova, n') -> n' = u64 (iova + len).
Proof.
  unfold __iova_reserve. revert n. induction ranges as [|r ranges IH]; intros n; simpl; [done|].
  destruct (_ <? _); [apply IH|]. destruct (_ || _); [apply IH|]. by intros [= <- <-].
Qed.

(** [iova_reserve] without [IOMMU_MAP_EPHEMERAL]. *)
Lemma reserve_free_inv a busy len flags iova a' :
  free_inv a busy -> 0 < len -> flag_set flags IOMMU_MAP_EPHEMERAL = false ->
  vfio_iommu_type1_iova_reserve len flags a = (Ret iova, a') -> no_wrap a a' ->
  free_inv a' ((iova, len) :: busy) /\ ephemerals a' = ephemerals a /\
  next_ephemeral a' = next_ephemeral a /\ nephemerals a' = nephemerals a.
Proof.
  intros Hf Hlen Hfl. unfold vfio_iommu_type1_iova_reserve. rewrite Hfl.
  destruct (ALIGNED len P) eqn:Hal; simpl; [|done]. apply aligned_page in Hal.
  destruct (fi_free _ _ Hf) as (rs & Hok & Hsat & Hcov).
  destruct (get_free_spec _ _ _ Hok Hlen) as [[Hg _]|(r & fl' & rs' & Hg & Hok' & Htk & Hr & _)].
  - rewrite (bind_ret _ _ _ _ _ (on_free_same _ _ _ Hg)). unfold bind, get, ret.
    destruct (__iova_reserve _ _ _) as [[iova' n]|] eqn:E; [|done]. unfold modify. intros [= -> <-] Hnw.
    destruct (fi_wf _ _ Hf) as [Hv Hp [Hn Hnp]].
    pose proof (reserve_next _ _ _ _ _ E) as En. subst n. pose proof (linear_page _ _ _ _ Hp Hnp E).
    apply iova_reserve_spec in E as [Hres _]; [|done|lia|done].
    split; [by apply inv_linear|done].
  - rewrite (bind_ret _ _ _ _ _ (on_free_run _ _ _ _ Hg)). intros [= <- <-] _. destruct Hok as [Hch Hok].
    pose proof (saturated_start _ _ Hch Hsat Hr) as Hsm.
    assert (0 <= fr_start r) as H0.
    { destruct (chain_bounds _ _ Hch) as [_ Hb]. rewrite Forall_forall in Hb. specialize (Hb r Hr). lia. }
    split; [|done]. by apply (inv_taken a _ fl' rs rs').
Qed.

Lemma window_ext a a' : ephemerals a' = ephemerals a -> window a' = window a.
Proof. unfold window. by intros ->. Qed.

Lemma reserve_inv a live eph len flags iova a' :
  alloc_inv a live eph -> 0 < len -> flag_set flags IOMMU_MAP_EPHEMERAL = false ->
  vfio_iommu_type1_iova_reserve len flags a = (Ret iova, a') -> no_wrap a a' ->
  alloc_inv a' ((iova, len) :: live) eph.
Proof.
  intros [Hf Hw] Hlen Hfl Hres Hnw.
  destruct (reserve_free_inv _ _ _ _ _ _ Hf Hlen Hfl Hres Hnw) as (Hf' & E1 & E2 & E3).
  split; [|by eapply window_inv_ext]. rewrite (window_ext _ _ E1). by rewrite Permutation_swap.
Qed.

(** Any multiple of the page size as [align], a power of two or not, gives
    addresses at a page. *)
Lemma ALIGN_UP_page x align : align mod P = 0 -> ALIGN_UP x align mod P = 0.
Proof.
  destruct pagesize_pow2 as (k & Hk & ->). intros Ha. unfold ALIGN_UP.
  rewrite <- Z.land_ones, <- Z.land_assoc, Z.land_ones by lia.
  replace (u64 (Z.lnot (align - 1)) mod 2 ^ k) with 0; [by rewrite Z.land_0_r|].
  unfold u64. replace 0x10000000000000000 with (2 ^ k * 2 ^ (64 - k)).
  2: { rewrite <- Z.pow_add_r by lia. by replace (k + (64 - k)) with 64 by lia. }
  pose proof (Z.pow_pos_nonneg 2 k). pose proof (Z.pow_pos_nonneg 2 (64 - k)).
  rewrite Z.rem_mul_r, Z.mul_comm, Z_mod_plus_full, Z.mod_mod by lia.
  unfold Z.lnot. replace (Z.pred (- (align - 1))) with (- align) by lia.
  symmetry. by apply Z.mod_opp_l_z; [lia|].
Qed.

(** [iova_reserve_align]. *)
Lemma reserve_align_inv a live eph len align r1 r2 iova a' :
  alloc_inv a live eph -> 0 < len ->
  vfio_iommu_type1_iova_reserve_align len align r1 r2 a = (Ret iova, a') -> no_wrap a a' ->
  alloc_inv a' ((iova, len) :: live) eph /\ (pow2 align -> iova mod align = 0).
Proof.
  intros [Hf Hw] Hlen. unfold vfio_iommu_type1_iova_reserve_align.
  destruct (ALIGNED len P) eqn:Hal; simpl; [|done]. apply aligned_page in Hal.
  destruct (_ || _) eqn:E; [done|]. apply orb_false_iff in E as [_ Haa%negb_false_iff].
  apply aligned_page in Haa. destruct (fi_free _ _ Hf) as (rs & Hok & Hsat & Hcov).
  destruct (get_free_align_spec _ _ _ align r1 r2 Hok Hlen) as [Hg|(r & fl' & rs' & Hg & Hok' & Htk & Hr & Hfit)].
  - rewrite (bind_ret _ _ _ _ _ (on_free_same _ _ _ Hg)). unfold bind, get, ret.
    destruct (__iova_reserve_align _ _ _ _) as [[iova' n]|] eqn:E; [|done].
    unfold modify. intros [= -> <-] Hnw. destruct (fi_wf _ _ Hf) as [Hv Hp [Hn Hnp]].
    apply iova_reserve_align_spec in E as (Hres & -> & x & _ & ->); [|done|lia|done].
    split; [split|by apply ALIGN_UP_mod].
    + rewrite (Permutation_swap (ALIGN_UP x align, len)). apply inv_linear; try done.
      by apply ALIGN_UP_page.
    + by eapply window_inv_ext; [..|exact Hw].
  - rewrite (bind_ret _ _ _ _ _ (on_free_run _ _ _ _ Hg)). intros [= <- <-] _.
    split; [split|by apply ALIGN_UP_mod]; [|by eapply window_inv_ext; [..|exact Hw]].
    rewrite (Permutation_swap (ALIGN_UP (fr_start r) align, len)).
    apply (inv_taken a _ fl' rs rs'); try done; [apply ALIGN_UP_range|by apply ALIGN_UP_page].
Qed.

(** [iova_reserve] with [IOMMU_MAP_EPHEMERAL]. *)
Lemma reserve_ephemeral_inv a live eph len flags iova a' :
  alloc_inv a live eph -> 0 < len -> flag_set flags IOMMU_MAP_EPHEMERAL = true ->
  vfio_iommu_type1_iova_reserve len flags a = (Ret iova, a') ->
  alloc_inv a' live ((iova, len) :: eph).
Proof.
  intros [Hf Hw] Hlen Hfl. unfold vfio_iommu_type1_iova_reserve. rewrite Hfl.
  destruct (ALIGNED len P) eqn:Hal; simpl; [|done]. apply aligned_page in Hal.
  unfold bind, get, ret, modify.
  destruct (__iova_reserve _ _ _) as [[iova' n]|] eqn:E; [|done]. simpl. intros [= -> <-].
  destruct Hw as [(Hw1 & Hw2 & Hw3) [Hn Hnp] He Hap [Hc Hc']].
  pose proof (reserve_next _ _ _ _ _ E) as ->.
  assert (iova mod P = 0) as Hip by (eapply linear_page; [..|exact E]; [by apply Forall_singleton|done]).
  apply iova_reserve_spec in E as [(Hge & _ & r & Hr & Hr1 & Hr2) _]; [|apply Forall_singleton; lia|lia|done].
  apply list_elem_of_singleton in Hr as ->.
  assert (u64 (iova + len) = iova + len) as Eu by (unfold UINT64_MAX in *; rewrite u64_small; lia).
  rewrite Eu in *. split.
  - destruct Hf as [[H1 H2 H3] H4 H5 H6]. by split; [split|..].
  - split; unfold ephemeral_ok; simpl.
    + done.
    + split; [lia|]. by rewrite Zplus_mod, Hip, Hal.
    + constructor; [simpl; split_and!; try done; lia|].
      eapply Forall_impl; [exact He|]. unfold ephemeral_ok. simpl. intuition lia.
    + apply apart_cons. split; [|done]. eapply Forall_impl; [exact He|].
      unfold ephemeral_ok, disj. simpl. lia.
    + rewrite Hc. unfold UINT64_MAX in *. destruct Hc' as [->|Hc']; simpl.
      * split; [by rewrite u64_small by lia|right; lia].
      * rewrite u64_small by lia. split; [lia|right; lia].
Qed.

(** ** Return *)

(** [vfio_iova_put] of a live reservation: its addresses join the free list. *)
Lemma put_inv a l1 iova len l2 eph rands :
  alloc_inv a (l1 ++ (iova, len) :: l2) eph ->
  exists a', vfio_iova_put iova len rands a = (Ret tt, a') /\ alloc_inv a' (l1 ++ l2) eph /\
    exists rs, free_list_ok (free_iovas a') rs /\ saturated rs /\
      forall x, iova <= x < iova + len -> covers rs x.
Proof.
  intros [Hf Hw]. destruct Hf as [Hwf (rs & Hok & Hsat & Hcov) Hbusy Hap].
  change (window a :: l1 ++ (iova, len) :: l2) with ((window a :: l1) ++ (iova, len) :: l2) in *.
  pose proof (Forall_app_2 _ _ _ (proj1 (proj1 (Forall_app _ _ _) Hbusy))
    (Forall_inv_tail (proj2 (proj1 (Forall_app _ _ _) Hbusy)))) as Hrest.
  apply Forall_app in Hbusy as [_ [(H0 & Hl & Hn & Hsm & Hlm & Hal)%id _]%Forall_cons]. simpl in *.
  apply (apart_delete (window a :: l1)) in Hap as [Hap Hdis]. simpl in *.
  apply Forall_cons in Hdis as Hdw. destruct Hdw as [Hdw _].
  assert (forall x, covers rs x -> ~ (iova <= x < iova + len)) as Hnot.
  { intros x (_ & _ & Hx)%Hcov. change (window a :: l1 ++ (iova, len) :: l2) with
      ((window a :: l1) ++ (iova, len) :: l2) in Hx. apply Forall_app in Hx as [_ Hx].
    by apply Forall_cons in Hx as [Hx _]. }
  destruct Hwf as [Hv Hp [Hn1 Hn2]]. pose proof (wi_window _ _ Hw) as (Hw1 & Hw2 & _).
  destruct (put_free_spec (free_iovas a) rs iova len rands) as (fl' & rs' & Hput & Hok' & Hcov'); [done|done|done|lia| |].
  { eapply avoids_covers; [exact (proj1 Hok)|done|done]. }
  exists (set_free_iovas fl' a). unfold vfio_iova_put, bind, get.
  assert ((r_start (ephemerals a) <=? iova) && (iova <=? r_last (ephemerals a)) = false) as ->.
  { unfold disj, window in Hdw. simpl in Hdw. apply andb_false_iff. rewrite !Z.leb_gt. lia. }
  assert (saturated rs') as Hsat' by (by apply (saturated_put rs rs' iova len)).
  split; [by apply on_free_run|]. split; [split; [|by eapply window_inv_ext; [..|exact Hw]]|].
  2: { exists rs'. split; [done|]. split; [done|]. intros x Hx. apply Hcov'. by right. }
  split; [by split| |done|done]. exists rs'. split; [done|]. split; [done|]. intros x [Hx|Hx]%Hcov'.
  - apply Hcov in Hx as (? & ? & Hx). split; [done|]. split; [done|].
    rewrite !Forall_cons, !Forall_app, !Forall_cons in *. tauto.
  - simpl. split; [lia|]. split; [by apply Hal|].
    eapply Forall_impl; [exact Hdis|]. intros j Hj. by eapply inside_disj.
Qed.

(** Unmapping an ephemeral mapping: [vfio_iova_put] leaves the window alone and
    [iova_put_ephemeral] recycles it when the last one goes. *)
Definition unmap_ephemeral (iova len : Z) (rands : list bool) : M iova_allocator unit :=
  do* vfio_iova_put iova len rands in vfio_iommu_type1_iova_put_ephemeral.

Lemma unmap_ephemeral_inv a live e1 iova len e2 rands :
  alloc_inv a live (e1 ++ (iova, len) :: e2) ->
  exists a', unmap_ephemeral iova len rands a = (Ret tt, a') /\ alloc_inv a' live (e1 ++ e2).
Proof.
  intros [Hf [(Hw1 & Hw2 & Hw3) [Hn Hnp] He Hap [Hc Hc']]].
  pose proof (Forall_app_2 _ _ _ (proj1 (proj1 (Forall_app _ _ _) He))
    (Forall_inv_tail (proj2 (proj1 (Forall_app _ _ _) He)))) as Hrest.
  apply Forall_app in He as [_ [(H0 & Hl & Hb & _)%id _]%Forall_cons]. simpl in *.
  apply apart_delete in Hap as [Hap _]. rewrite length_app in *. simpl in *.
  unfold unmap_ephemeral, vfio_iova_put, vfio_iommu_type1_iova_put_ephemeral,
    vfio_iommu_type1_recycle_ephemeral_iovas, bind, get, gets, modify, when.
  assert ((r_start (ephemerals a) <=? iova) && (iova <=? r_last (ephemerals a)) = true) as ->.
  { rewrite andb_true_iff, !Z.leb_le. lia. }
  simpl. destruct Hc' as [Hc'|Hc']; [by destruct e1|]. rewrite Hc. unfold UINT64_MAX in *.
  rewrite u64_small by lia.
  destruct (Z.eqb_spec (Z.of_nat (length e1 + S (length e2)) - 1) 0); simpl; (eexists; split; [reflexivity|]).
  - destruct e1; [|simpl in *; lia]. destruct e2; [|simpl in *; lia]. split.
    + destruct Hf as [[? ? ?] ? ? ?]. by split; [split|..].
    + split; simpl; try done; [lia|]. split; [done|by left].
  - split.
    + destruct Hf as [[? ? ?] ? ? ?]. by split; [split|..].
    + split; simpl; try done. rewrite length_app. split; [lia|right; lia].
Qed.

(** ** Initialisation, [dma_unmap_all] and failures *)

Lemma new_free_inv ranges :
  valid_ranges ranges -> Forall (fun r => r_start r mod P = 0) ranges ->
  free_inv (new_allocator ranges) [].
Proof.
  intros Hv Hp. split.
  - split; simpl; [done..|]. unfold UINT64_MAX. split; [lia|].
    by rewrite Z.mod_0_l by (pose proof page_pos; lia).
  - exists []. split; [apply empty_free_list_ok|].
    split; [intros x y _ Hx|intros x Hx]; by apply covers_nil in Hx.
  - constructor.
  - constructor.
Qed.

Lemma init_inv ranges a :
  valid_ranges ranges -> Forall (fun r => r_start r mod P = 0) ranges ->
  reserve_ephemerals (new_allocator ranges) = (Ret tt, a) -> no_wrap (new_allocator ranges) a ->
  alloc_inv a [] [].
Proof.
  intros Hv Hp. unfold reserve_ephemerals, bind.
  destruct (vfio_iommu_type1_iova_reserve _ _ _) as [[iova| |] a1] eqn:E; [|done..].
  unfold modify. intros [= <-] Hnw.
  apply (reserve_free_inv _ []) in E as ([Hwf Hfree Hbusy _] & E1 & E2 & E3); [|by apply new_free_inv|done..].
  simpl in *. apply Forall_cons in Hbusy as [Hok _].
  destruct Hok as (H0 & _ & Hn & Hm & Hm' & Hal). simpl in *. pose proof (wf_next _ Hwf) as [Hn' Hnp'].
  unfold VFIO_IOMMU_TYPE1_IOVA_RESERVED, UINT64_MAX in *.
  rewrite u64_small by lia. set (a' := set_ephemerals _ a1).
  assert (window a' = (iova, 0x10000)) as Hw by (unfold window; simpl; f_equal; lia).
  split; [rewrite Hw; split|split]; try done; simpl.
  - destruct Hwf. by split.
  - apply Forall_singleton. unfold reserved_ok. by split_and!.
  - repeat constructor.
  - unfold UINT64_MAX. split_and!; try done; lia.
  - rewrite E2. split; [lia|]. by rewrite Z.mod_0_l by (pose proof page_pos; lia).
  - constructor.
  - rewrite E3. split; [done|by left].
Qed.

Lemma clear_inv a live eph :
  alloc_inv a live eph -> exists a', clear_free_iovas a = (Ret tt, a') /\ alloc_inv a' [] eph.
Proof.
  intros [[Hwf (rs & (_ & ns & [Hc _ _]) & _) Hbusy Hap] Hw]. unfold clear_free_iovas.
  rewrite (skiplist_clear_with_spec _ ns) by done. eexists. split; [reflexivity|].
  split; [|by eapply window_inv_ext; [..|exact Hw]]. split.
  - by destruct Hwf.
  - exists []. split; [|split; [intros x y _ Hx|intros x Hx]; by apply covers_nil in Hx].
    split; [done|]. exists []. split; [apply skiplist_init_contents|constructor|constructor].
  - apply Forall_cons in Hbusy as [? _]. by apply Forall_singleton.
  - repeat constructor.
Qed.

(** A failed reservation changes nothing. *)
Lemma reserve_fail a busy len flags e a' :
  free_inv a busy -> 0 < len -> vfio_iommu_type1_iova_reserve len flags a = (Fail e, a') -> a' = a.
Proof.
  intros Hf Hlen. unfold vfio_iommu_type1_iova_reserve.
  destruct (ALIGNED len P); simpl; [|by intros [= _ <-]].
  destruct (fi_free _ _ Hf) as (rs & Hok & _). destruct (flag_set _ _).
  - unfold bind, get, modify, ret, fail. destruct (__iova_reserve _ _ _) as [[]|]; [done|by intros [= _ <-]].
  - destruct (get_free_spec _ _ _ Hok Hlen) as [[Hg _]|(r & fl' & rs' & Hg & _)].
    + rewrite (bind_ret _ _ _ _ _ (on_free_same _ _ _ Hg)). unfold bind, get, modify, ret, fail.
      destruct (__iova_reserve _ _ _) as [[]|]; [done|by intros [= _ <-]].
    + by rewrite (bind_ret _ _ _ _ _ (on_free_run _ _ _ _ Hg)).
Qed.

Lemma reserve_align_fail a busy len align r1 r2 e a' :
  free_inv a busy -> 0 < len ->
  vfio_iommu_type1_iova_reserve_align len align r1 r2 a = (Fail e, a') -> a' = a.
Proof.
  intros Hf Hlen. unfold vfio_iommu_type1_iova_reserve_align.
  destruct (ALIGNED len P); simpl; [|by intros [= _ <-]]. destruct (_ || _); [by intros [= _ <-]|].
  destruct (fi_free _ _ Hf) as (rs & Hok & _).
  destruct (get_free_align_spec _ _ _ align r1 r2 Hok Hlen) as [Hg|(r & fl' & rs' & Hg & _)].
  - rewrite (bind_ret _ _ _ _ _ (on_free_same _ _ _ Hg)). unfold bind, get, modify, ret, fail.
    destruct (__iova_reserve_align _ _ _ _) as [[]|]; [done|by intros [= _ <-]].
  - by rewrite (bind_ret _ _ _ _ _ (on_free_run _ _ _ _ Hg)).
Qed.

(** ** Executions *)

(** One operation of a client: it reserves, returns what it holds, or unmaps
    everything. *)
Inductive alloc_step : iova_allocator * list (Z * Z) * list (Z * Z) ->
    iova_allocator * list (Z * Z) * list (Z * Z) -> Prop :=
| step_reserve a live eph len flags iova a' :
    0 < len -> flag_set flags IOMMU_MAP_EPHEMERAL = false ->
    vfio_iommu_type1_iova_reserve len flags a = (Ret iova, a') ->
    alloc_step (a, live, eph) (a', (iova, len) :: live, eph)
| step_reserve_align a live eph len align r1 r2 iova a' :
    0 < len -> vfio_iommu_type1_iova_reserve_align len align r1 r2 a = (Ret iova, a') ->
    alloc_step (a, live, eph) (a', (iova, len) :: live, eph)
| step_reserve_ephemeral a live eph len flags iova a' :
    0 < len -> flag_set flags IOMMU_MAP_EPHEMERAL = true ->
    vfio_iommu_type1_iova_reserve len flags a = (Ret iova, a') ->
    alloc_step (a, live, eph) (a', live, (iova, len) :: eph)
| step_reserve_fail a live eph len flags e a' :
    0 < len -> vfio_iommu_type1_iova_reserve len flags a = (Fail e, a') ->
    alloc_step (a, live, eph) (a', live, eph)
| step_reserve_align_fail a live eph len align r1 r2 e a' :
    0 < len -> vfio_iommu_type1_iova_reserve_align len align r1 r2 a = (Fail e, a') ->
    alloc_step (a, live, eph) (a', live, eph)
| step_put a l1 l2 eph iova len rands r a' :
    vfio_iova_put iova len rands a = (r, a') ->
    alloc_step (a, l1 ++ (iova, len) :: l2, eph) (a', l1 ++ l2, eph)
| step_unmap_ephemeral a live e1 e2 iova len rands r a' :
    unmap_ephemeral iova len rands a = (r, a') ->
    alloc_step (a, live, e1 ++ (iova, len) :: e2) (a', live, e1 ++ e2)
| step_unmap_all a live eph r a' :
    clear_free_iovas a = (r, a') -> alloc_step (a, live, eph) (a', [], eph).

Lemma alloc_step_inv s s' :
  alloc_step s s' -> no_wrap s.1.1 s'.1.1 -> alloc_inv s.1.1 s.1.2 s.2 -> alloc_inv s'.1.1 s'.1.2 s'.2.
Proof.
  destruct 1; simpl; intros Hnw Hinv.
  - by eapply reserve_inv.
  - by eapply reserve_align_inv.
  - by eapply reserve_ephemeral_inv.
  - assert (a' = a) as -> by (eapply reserve_fail; [exact (proj1 Hinv)| |eassumption]; done). done.
  - assert (a' = a) as -> by (eapply reserve_align_fail; [exact (proj1 Hinv)| |eassumption]; done). done.
  - destruct (put_inv _ _ _ _ _ _ rands Hinv) as (a1 & Hp & Hi & _). by assert (a1 = a') as <- by congruence.
  - destruct (unmap_ephemeral_inv _ _ _ _ _ _ rands Hinv) as (a1 & Hp & Hi). by assert (a1 = a') as <- by congruence.
  - destruct (clear_inv _ _ _ Hinv) as (a1 & Hp & Hi). by assert (a1 = a') as <- by congruence.
Qed.

(** Executions of a container from its initialisation in which the linear
    allocator does not wrap around ([linear_allocator_wraps]). *)
Definition alloc_reachable (ranges : list iommu_iova_range)
    (s : iova_allocator * list (Z * Z) * list (Z * Z)) : Prop :=
  exists a, reserve_ephemerals (new_allocator ranges) = (Ret tt, a) /\
    no_wrap (new_allocator ranges) a /\
    rtc (fun s s' => alloc_step s s' /\ no_wrap s.1.1 s'.1.1) (a, [], []) s.

Lemma reachable_inv ranges a live eph :
  valid_ranges ranges -> Forall (fun r => r_start r mod P = 0) ranges ->
  alloc_reachable ranges (a, live, eph) -> alloc_inv a live eph.
Proof.
  intros Hv Hp (a0 & Hi & Hnw & Hs). apply init_inv in Hi; [|done..].
  assert (forall s s', rtc (fun s s' => alloc_step s s' /\ no_wrap s.1.1 s'.1.1) s s' ->
    alloc_inv s.1.1 s.1.2 s.2 -> alloc_inv s'.1.1 s'.1.2 s'.2)
    as Hrt by (induction 1 as [|? ? ? []]; eauto using alloc_step_inv).
  by apply (Hrt _ _ Hs).
Qed.

(** The ranges of a container stay the ones it was initialised with. *)
Definition has_ranges (ranges : list iommu_iova_range) (a : iova_allocator) : Prop := iova_ranges a = ranges.

Lemma on_free_ranges ranges {A} (m : M free_list A) : preserves (has_ranges ranges) (on_free m).
Proof. intros a Ha. unfold on_free. by destruct (m (free_iovas a)). Qed.
#[local] Hint Resolve on_free_ranges : preserves.

Lemma reserve_ranges ranges len flags : preserves (has_ranges ranges) (vfio_iommu_type1_iova_reserve len flags).
Proof.
  unfold vfio_iommu_type1_iova_reserve. destruct (negb _); [auto with preserves|]. destruct (flag_set _ _).
  - apply preserves_bind; [auto with preserves|]. intros a.
    destruct (__iova_reserve _ _ _) as [[i n]|]; auto with preserves.
  - apply preserves_bind; [auto with preserves|]. intros [i|]; [auto with preserves|].
    apply preserves_bind; [auto with preserves|]. intros a.
    destruct (__iova_reserve _ _ _) as [[i n]|]; auto with preserves.
Qed.

Lemma reserve_align_ranges ranges len align r1 r2 :
  preserves (has_ranges ranges) (vfio_iommu_type1_iova_reserve_align len align r1 r2).
Proof.
  unfold vfio_iommu_type1_iova_reserve_align. destruct (negb _); [auto with preserves|].
  destruct (_ || _); [auto with preserves|].
  apply preserves_bind; [auto with preserves|]. intros [i|]; [auto with preserves|].
  apply preserves_bind; [auto with preserves|]. intros a.
  destruct (__iova_reserve_align _ _ _ _) as [[i n]|]; auto with preserves.
Qed.

Lemma put_ranges ranges iova len rands : preserves (has_ranges ranges) (vfio_iova_put iova len rands).
Proof.
  unfold vfio_iova_put. apply preserves_bind; [auto with preserves|]. intros a.
  destruct (_ && _); auto with preserves.
Qed.

Lemma unmap_ephemeral_ranges ranges iova len rands : preserves (has_ranges ranges) (unmap_ephemeral iova len rands).
Proof.
  unfold unmap_ephemeral, vfio_iommu_type1_iova_put_ephemeral, vfio_iommu_type1_recycle_ephemeral_iovas.
  apply preserves_bind; [apply put_ranges|]. intros _.
  apply preserves_bind; [by apply preserves_modify; intros []|]. intros _.
  apply preserves_bind; [auto with preserves|]. intros n. unfold when. destruct (n =? 0); [|auto with preserves].
  by apply preserves_modify; intros [].
Qed.

Lemma clear_ranges ranges : preserves (has_ranges ranges) clear_free_iovas.
Proof. intros a Ha. unfold clear_free_iovas. by destruct (skiplist_clear_with _ _). Qed.

Lemma init_ranges ranges a r :
  reserve_ephemerals (new_allocator ranges) = (r, a) -> has_ranges ranges a.
Proof.
  intros E. assert (preserves (has_ranges ranges) reserve_ephemerals) as Hp.
  { unfold reserve_ephemerals. apply preserves_bind; [apply reserve_ranges|]. intros i.
    by apply preserves_modify; intros []. }
  specialize (Hp (new_allocator ranges) eq_refl). by rewrite E in Hp.
Qed.

Lemma alloc_step_ranges ranges s s' : alloc_step s s' -> has_ranges ranges s.1.1 -> has_ranges ranges s'.1.1.
Proof.
  destruct 1 as [? ? ? len flags ? ? _ _ E|? ? ? len align r1 r2 ? ? _ E|? ? ? len flags ? ? _ _ E
    |? ? ? len flags ? ? _ E|? ? ? len align r1 r2 ? ? _ E|? ? ? ? iova len rands ? ? E
    |? ? ? ? iova len rands ? ? E|? ? ? ? ? E]; simpl; intros Hr;
    [pose proof (reserve_ranges ranges len flags _ Hr) as H
    |pose proof (reserve_align_ranges ranges len align r1 r2 _ Hr) as H
    |pose proof (reserve_ranges ranges len flags _ Hr) as H
    |pose proof (reserve_ranges ranges len flags _ Hr) as H
    |pose proof (reserve_align_ranges ranges len align r1 r2 _ Hr) as H
    |pose proof (put_ranges ranges iova len rands _ Hr) as H
    |pose proof (unmap_ephemeral_ranges ranges iova len rands _ Hr) as H
    |pose proof (clear_ranges ranges _ Hr) as H]; by rewrite E in H.
Qed.

Lemma reachable_ranges ranges a live eph : alloc_reachable ranges (a, live, eph) -> iova_ranges a = ranges.
Proof.
  intros (a0 & Hi & _ & Hs). apply init_ranges in Hi.
  assert (forall s s', rtc (fun s s' => alloc_step s s' /\ no_wrap s.1.1 s'.1.1) s s' ->
    has_ranges ranges s.1.1 -> has_ranges ranges s'.1.1) as Hrt
    by (induction 1 as [|? ? ? []]; eauto using alloc_step_ranges).
  by apply (Hrt _ _ Hs).
Qed.

(** The invariant with ranges that end below the last address, where no
    execution wraps around. *)
Definition bounded_inv (a : iova_allocator) (live eph : list (Z * Z)) : Prop :=
  alloc_inv a live eph /\ ends_below (iova_ranges a).

Lemma bounded_ext {A} (m : M iova_allocator A) a r a' :
  (forall ranges, preserves (has_ranges ranges) m) -> m a = (r, a') ->
  ends_below (iova_ranges a) -> ends_below (iova_ranges a').
Proof. intros Hp E. specialize (Hp _ a eq_refl). rewrite E in Hp. simpl in Hp. by rewrite Hp. Qed.

Lemma reserve_bounded a live eph len flags iova a' :
  bounded_inv a live eph -> 0 < len -> flag_set flags IOMMU_MAP_EPHEMERAL = false ->
  vfio_iommu_type1_iova_reserve len flags a = (Ret iova, a') -> bounded_inv a' ((iova, len) :: live) eph.
Proof.
  intros [Hi Hb] Hl Hfl E. split; [by eapply reserve_inv; [..|right]|].
  eapply bounded_ext; [intros; apply reserve_ranges|exact E|done].
Qed.
Lemma reserve_align_bounded a live eph len align r1 r2 iova a' :
  bounded_inv a live eph -> 0 < len ->
  vfio_iommu_type1_iova_reserve_align len align r1 r2 a = (Ret iova, a') -> bounded_inv a' ((iova, len) :: live) eph.
Proof.
  intros [Hi Hb] Hl E. split; [by eapply reserve_align_inv; [..|right]|].
  eapply bounded_ext; [intros; apply reserve_align_ranges|exact E|done].
Qed.
Lemma reserve_ephemeral_bounded a live eph len flags iova a' :
  bounded_inv a live eph -> 0 < len -> flag_set flags IOMMU_MAP_EPHEMERAL = true ->
  vfio_iommu_type1_iova_reserve len flags a = (Ret iova, a') -> bounded_inv a' live ((iova, len) :: eph).
Proof.
  intros [Hi Hb] Hl Hfl E. split; [by eapply reserve_ephemeral_inv|].
  eapply bounded_ext; [intros; apply reserve_ranges|exact E|done].
Qed.
Lemma put_bounded a l1 iova len l2 eph rands :
  bounded_inv a (l1 ++ (iova, len) :: l2) eph ->
  exists a', vfio_iova_put iova len rands a = (Ret tt, a') /\ bounded_inv a' (l1 ++ l2) eph.
Proof.
  intros [Hi Hb]. destruct (put_inv _ _ _ _ _ _ rands Hi) as (a' & E & Hi' & _). exists a'. split; [done|].
  split; [done|]. eapply bounded_ext; [intros; apply put_ranges|exact E|done].
Qed.
Lemma unmap_ephemeral_bounded a live e1 iova len e2 rands :
  bounded_inv a live (e1 ++ (iova, len) :: e2) ->
  exists a', unmap_ephemeral iova len rands a = (Ret tt, a') /\ bounded_inv a' live (e1 ++ e2).
Proof.
  intros [Hi Hb]. destruct (unmap_ephemeral_inv _ _ _ _ _ _ rands Hi) as (a' & E & Hi'). exists a'. split; [done|].
  split; [done|]. eapply bounded_ext; [intros; apply unmap_ephemeral_ranges|exact E|done].
Qed.
Lemma clear_bounded a live eph :
  bounded_inv a live eph -> exists a', clear_free_iovas a = (Ret tt, a') /\ bounded_inv a' [] eph.
Proof.
  intros [Hi Hb]. destruct (clear_inv _ _ _ Hi) as (a' & E & Hi'). exists a'. split; [done|].
  split; [done|]. eapply bounded_ext; [intros; apply clear_ranges|exact E|done].
Qed.
Lemma init_bounded ranges a :
  valid_ranges ranges -> ends_below ranges -> Forall (fun r => r_start r mod P = 0) ranges ->
  reserve_ephemerals (new_allocator ranges) = (Ret tt, a) -> bounded_inv a [] [].
Proof.
  intros Hv Hb Hp E. split; [by eapply init_inv; [..|right]|]. by rewrite (init_ranges _ _ _ E).
Qed.

(** ** Availability *)

(** An interval the ranges cover lies in one of them. *)
Lemma covers_interval lo rs s l :
  chain lo rs -> 0 < l -> (forall x, s <= x < s + l -> covers rs x) ->
  exists r, r ∈ rs /\ fr_start r <= s /\ s + l <= rend r.
Proof.
  intros Hc Hl Hcov. revert lo Hc Hcov. induction rs as [|r rs IH]; intros lo Hc Hcov.
  { specialize (Hcov s). rewrite covers_nil in Hcov. exfalso. apply Hcov. lia. }
  destruct Hc as (H1 & H2 & H3 & Hc). assert (covers (r :: rs) s) as Hs by (apply Hcov; lia).
  apply covers_cons in Hs as [Hs|Hs].
  - unfold in_range in Hs. exists r. split; [set_solver|]. split; [lia|].
    destruct (decide (s + l <= rend r)); [done|]. exfalso.
    assert (covers (r :: rs) (rend r)) as Hx by (apply Hcov; lia).
    apply covers_cons in Hx as [Hx|Hx]; [unfold in_range in Hx; lia|].
    pose proof (covers_bounds _ _ _ Hc Hx). lia.
  - pose proof (covers_bounds _ _ _ Hc Hs) as Hb.
    destruct (IH _ Hc) as (q & Hq & ?); [|exists q; split; [set_solver|done]].
    intros x Hx. destruct (proj1 (covers_cons _ _ _) (Hcov x Hx)) as [Hr|]; [|done].
    unfold in_range in Hr. lia.
Qed.

Lemma last_page : (UINT64_MAX - 1) / P = UINT64_MAX / P.
Proof.
  pose proof pagesize_min as Hmin. destruct pagesize_pow2 as (k & Hk & E). rewrite E in *.
  assert (UINT64_MAX = 2 ^ k * 2 ^ (64 - k) - 1) as ->.
  { rewrite <- Z.pow_add_r by lia. by replace (k + (64 - k)) with 64 by lia. }
  generalize (2 ^ (64 - k)). intros q.
  rewrite <- (Z.div_unique (2 ^ k * q - 1 - 1) (2 ^ k) (q - 1) (2 ^ k - 2)) by lia.
  apply Z.div_unique with (2 ^ k - 1); lia.
Qed.

Lemma free_len_max rs r : ranges_ok rs -> saturated rs -> r ∈ rs -> fr_len r < SIZE_MAX.
Proof.
  intros Hok Hsat Hr. destruct (chain_bounds _ _ Hok) as [_ Hb]. rewrite Forall_forall in Hb.
  destruct (Hb r Hr) as (H1 & H2 & _ & H3). unfold SIZE_MAX, rend in *.
  destruct (decide (fr_len r < UINT64_MAX)); [done|]. exfalso.
  assert (covers rs UINT64_MAX) as (q & Hq & Hx)%Exists_exists.
  { apply (Hsat (UINT64_MAX - 1)); [apply last_page|]. apply Exists_exists. exists r.
    split; [done|]. unfold in_range, rend, UINT64_MAX in *. lia. }
  specialize (Hb q Hq). unfold in_range, rend in Hx. lia.
Qed.

(** [iova_reserve] takes a range of the free list that is long enough, or else
    the first allowed range with room, or else fails with [ENOMEM]. *)
Lemma reserve_cases a busy len flags :
  free_inv a busy -> proper_ranges (iova_ranges a) -> ascending (iova_ranges a) -> 0 < len -> len mod P = 0 ->
  flag_set flags IOMMU_MAP_EPHEMERAL = false ->
  exists rs, free_list_ok (free_iovas a) rs /\
    if bool_decide (Exists (fun r => len <= fr_len r) rs) then
      exists r a', r ∈ rs /\ len <= fr_len r /\
        vfio_iommu_type1_iova_reserve len flags a = (Ret (fr_start r), a')
    else if bool_decide (Exists (room (next a) len) (iova_ranges a)) then
      exists r a', r ∈ iova_ranges a /\ room (next a) len r /\
        vfio_iommu_type1_iova_reserve len flags a = (Ret (Z.max (next a) (r_start r)), a')
    else vfio_iommu_type1_iova_reserve len flags a = (Fail ENOMEM, a).
Proof.
  intros Hf Hpr Has Hlen Hal Hfl. unfold vfio_iommu_type1_iova_reserve. rewrite Hfl.
  rewrite (proj2 (aligned_page len) Hal). cbn [negb].
  destruct (fi_free _ _ Hf) as (rs & Hok & Hsat & _). destruct (fi_wf _ _ Hf) as [Hv _ [Hn _]].
  exists rs. split; [done|].
  destruct (get_free_spec _ _ _ Hok Hlen) as [[Hg Hno]|(r & fl' & rs' & Hg & _ & _ & Hr & Hl & _)].
  - rewrite bool_decide_false.
    2: { intros (r & Hr & Hl)%Exists_exists. rewrite Forall_forall in Hno. specialize (Hno r Hr Hl).
      pose proof (free_len_max _ _ (proj1 Hok) Hsat Hr). lia. }
    rewrite (bind_ret _ _ _ _ _ (on_free_same _ _ _ Hg)). unfold bind, get, modify, ret, fail.
    pose proof (iova_reserve_room (iova_ranges a) (next a) len Hv Hpr Has ltac:(lia) Hlen) as Hr.
    destruct (__iova_reserve _ _ _) as [[i n]|].
    + destruct Hr as (_ & r & Hr & Hroom & ->). rewrite bool_decide_true by (apply Exists_exists; eauto).
      by exists r, (set_next n a).
    + rewrite bool_decide_false; [done|]. intros (r & Hin & Hroom)%Exists_exists.
      rewrite Forall_forall in Hr. by apply (Hr r Hin).
  - rewrite bool_decide_true by (apply Exists_exists; eauto).
    rewrite (bind_ret _ _ _ _ _ (on_free_run _ _ _ _ Hg)). by eexists r, _.
Qed.

(** A reservation succeeds when the free list covers an interval of its length. *)
Lemma reserve_available a busy rs s len flags :
  free_inv a busy -> free_list_ok (free_iovas a) rs -> saturated rs ->
  (forall x, s <= x < s + len -> covers rs x) ->
  0 < len -> len mod P = 0 -> flag_set flags IOMMU_MAP_EPHEMERAL = false ->
  exists iova a', vfio_iommu_type1_iova_reserve len flags a = (Ret iova, a').
Proof.
  intros Hf Hok Hsat Hc Hlen Hal Hfl. unfold vfio_iommu_type1_iova_reserve. rewrite Hfl.
  rewrite (proj2 (aligned_page len) Hal). simpl.
  destruct (get_free_spec _ _ _ Hok Hlen) as [[Hg Hno]|(r & fl' & rs' & Hg & _)].
  - exfalso. destruct (covers_interval _ _ _ _ (proj1 Hok) Hlen Hc) as (r & Hr & Hr1 & Hr2).
    rewrite Forall_forall in Hno. specialize (Hno r Hr).
    pose proof (free_len_max _ _ (proj1 Hok) Hsat Hr). unfold rend in *. lia.
  - rewrite (bind_ret _ _ _ _ _ (on_free_run _ _ _ _ Hg)). by eexists _, _.
Qed.
End Inv.
(** ** Properties *)

Section Properties.
Context {page : PageSize}.

(** C2. In every execution of a container, from the reservation of the ephemeral
    window through any sequence of reservations, aligned reservations, ephemeral
    reservations, returns, ephemeral unmaps and unmap-alls (failing calls
    included) in which the linear allocator does not wrap around at the end of
    the address space (it cannot when no range ends at [UINT64_MAX]), the
    reservations handed out and not yet returned never overlap: not with each
    other, not with a live ephemeral one; and each starts at a page and lies
    within the ranges the kernel allows. *)
Theorem live_reservations_disjoint ranges a live eph :
  valid_ranges ranges -> Forall (fun r => r_start r mod __VFN_PAGESIZE = 0) ranges ->
  alloc_reachable ranges (a, live, eph) ->
  apart (live ++ eph) /\
  Forall (fun i => i.1 mod __VFN_PAGESIZE = 0 /\
    forall x, inside i x -> allowed (iova_ranges a) x) (live ++ eph).
Proof.
  intros Hv Hp Hr. destruct (reachable_inv _ _ _ _ Hv Hp Hr) as [Hf Hw].
  destruct Hf as [_ _ Hbusy Hap]. destruct Hw as [Hwin Hn He Hea _].
  apply Forall_cons in Hbusy as [Hwok Hlive]. apply apart_cons in Hap as [Hdis Hap].
  assert (forall i, ephemeral_ok a i -> forall x, inside i x -> inside (window a) x) as Hin.
  { intros i (? & ? & ? & _) x. unfold inside, window. simpl. lia. }
  split.
  - unfold apart. rewrite StronglySorted_app. split_and!; [|done..].
    intros i j Hi Hj. rewrite Forall_forall in Hdis, He, Hlive.
    specialize (Hdis i Hi). specialize (He j Hj). destruct (Hlive i Hi) as (_ & ? & _).
    apply disj_inside; [|done|apply He].
    intros x Hx Hxj. by apply (inside_disj (window a) i x); [|eapply Hin|].
  - apply Forall_app. split; [eapply Forall_impl; [exact Hlive|]|eapply Forall_impl; [exact He|]].
    + intros i (_ & _ & _ & ? & _ & ?). done.
    + intros i Hi. split; [apply Hi|]. intros x Hx. apply Hwok. by eapply Hin.
Qed.

(** A returned reservation can be handed out again: in every reachable state,
    returning a live reservation succeeds, and a reservation of the same length
    then succeeds too, whatever the linear allocator has left. *)
Theorem returned_iova_available ranges a l1 iova len l2 eph rands flags :
  valid_ranges ranges -> Forall (fun r => r_start r mod __VFN_PAGESIZE = 0) ranges ->
  alloc_reachable ranges (a, l1 ++ (iova, len) :: l2, eph) ->
  flag_set flags IOMMU_MAP_EPHEMERAL = false ->
  exists a' iova' a'',
    vfio_iova_put iova len rands a = (Ret tt, a') /\
    vfio_iommu_type1_iova_reserve len flags a' = (Ret iova', a'').
Proof.
  intros Hv Hp Hr Hfl. pose proof (reachable_inv _ _ _ _ Hv Hp Hr) as Hi.
  assert (0 < len /\ len mod __VFN_PAGESIZE = 0) as [Hl Hm].
  { destruct Hi as [[_ _ Hb _] _]. apply Forall_cons in Hb as [_ Hb].
    apply Forall_app in Hb as [_ Hb]. apply Forall_cons in Hb as [Hb _]. by destruct Hb as (?&?&?&?&?&?). }
  destruct (put_inv _ _ _ _ _ _ rands Hi) as (a' & Hput & [Hf _] & rs & Hok & Hsat & Hc).
  destruct (reserve_available a' _ rs iova len flags Hf) as (iova' & a'' & Hres); [done..|].
  by exists a', iova', a''.
Qed.

(** C28. [iova_reserve] without [IOMMU_MAP_EPHEMERAL], for a positive multiple of
    the page size, in every reachable state of a container whose ranges are in
    ascending order and none of which is the whole address space: if some range
    of the free list is long enough, the call returns the start of such a range;
    otherwise, if [len] bytes fit into some allowed range at or after [next], it
    returns the first such place of a range; otherwise, and only then, it
    fails, with [ENOMEM], and leaves the container unchanged. *)
Theorem reserve_fails_only_without_room ranges a live eph len flags :
  valid_ranges ranges -> Forall (fun r => r_start r mod __VFN_PAGESIZE = 0) ranges ->
  proper_ranges ranges -> ascending ranges -> alloc_reachable ranges (a, live, eph) ->
  0 < len -> len mod __VFN_PAGESIZE = 0 -> flag_set flags IOMMU_MAP_EPHEMERAL = false ->
  exists rs, free_list_ok (free_iovas a) rs /\
    if bool_decide (Exists (fun r => len <= fr_len r) rs) then
      exists r a', r ∈ rs /\ len <= fr_len r /\
        vfio_iommu_type1_iova_reserve len flags a = (Ret (fr_start r), a')
    else if bool_decide (Exists (room (next a) len) ranges) then
      exists r a', r ∈ ranges /\ room (next a) len r /\
        vfio_iommu_type1_iova_reserve len flags a = (Ret (Z.max (next a) (r_start r)), a')
    else vfio_iommu_type1_iova_reserve len flags a = (Fail ENOMEM, a).
Proof.
  intros Hv Hp Hpr Has Hr Hl Hm Hfl. destruct (reachable_inv _ _ _ _ Hv Hp Hr) as [Hf _].
  pose proof (reachable_ranges _ _ _ _ Hr) as E. rewrite <- E in Hpr, Has |- *.
  by apply (reserve_cases a (window a :: live)).
Qed.

(** [iova_reserve_align] with a power-of-two alignment: the address it returns
    is a multiple of the alignment and the reservation overlaps no live one. *)
Theorem reserve_align_sound ranges a live eph len align r1 r2 iova a' :
  valid_ranges ranges -> Forall (fun r => r_start r mod __VFN_PAGESIZE = 0) ranges ->
  alloc_reachable ranges (a, live, eph) -> 0 < len -> pow2 align ->
  vfio_iommu_type1_iova_reserve_align len align r1 r2 a = (Ret iova, a') -> no_wrap a a' ->
  iova mod align = 0 /\ Forall (disj (iova, len)) live.
Proof.
  intros Hv Hp Hr Hl Ha Hres Hnw. pose proof (reachable_inv _ _ _ _ Hv Hp Hr) as Hi.
  destruct (reserve_align_inv _ _ _ _ _ _ _ _ _ Hi Hl Hres Hnw) as [[[_ _ _ Hap] _] Hal].
  split; [by apply Hal|]. apply apart_cons in Hap as [_ Hap]. by apply apart_cons in Hap as [Hap _].
Qed.

(** Ephemeral addresses are recycled: unmapping the last live ephemeral
    mapping makes the whole window available, so the next ephemeral reservation
    of up to the window's size succeeds, at its start. *)
Theorem ephemeral_window_recycled ranges a live iova len rands len' flags :
  valid_ranges ranges -> Forall (fun r => r_start r mod __VFN_PAGESIZE = 0) ranges ->
  alloc_reachable ranges (a, live, [(iova, len)]) ->
  0 < len' -> len' mod __VFN_PAGESIZE = 0 -> flag_set flags IOMMU_MAP_EPHEMERAL = true ->
  r_start (ephemerals a) + len' - 1 <= r_last (ephemerals a) ->
  exists a' a'', unmap_ephemeral iova len rands a = (Ret tt, a') /\
    vfio_iommu_type1_iova_reserve len' flags a' = (Ret (r_start (ephemerals a)), a'').
Proof.
  intros Hv Hp Hr Hl Hm Hfl Hfit. pose proof (reachable_inv _ _ _ _ Hv Hp Hr) as [_ Hw].
  destruct Hw as [(Hw1 & Hw2 & _) [Hn _] He _ [Hc _]]. apply Forall_cons in He as [(H1 & H2 & H3 & _)%id _].
  simpl in *. unfold unmap_ephemeral, vfio_iova_put, vfio_iommu_type1_iova_put_ephemeral,
    vfio_iommu_type1_recycle_ephemeral_iovas, vfio_iommu_type1_iova_reserve.
  unfold bind, get, gets, modify, when. rewrite (proj2 (andb_true_iff _ _)) by (rewrite !Z.leb_le; lia).
  simpl. rewrite Hc. simpl. eexists _, _. split; [reflexivity|]. rewrite Hfl, (proj2 (aligned_page _) Hm).
  unfold __iova_reserve. simpl. unfold UINT64_MAX in *.
  rewrite (proj2 (Z.ltb_ge _ _)), Z.max_id, u64_small by lia.
  rewrite (proj2 (Z.ltb_ge _ _)), (proj2 (Z.ltb_ge _ _)) by lia. reflexivity.
Qed.
End Properties.

(** ** Concrete runs *)

Definition demo_ranges : list iommu_iova_range := [mk_iova_range 0x10000 (2 ^ 39 - 1)].

Lemma demo_ranges_ok :
  valid_ranges demo_ranges /\ Forall (fun r => r_start r mod @__VFN_PAGESIZE page_4k = 0) demo_ranges /\
  ascending demo_ranges /\ ends_below demo_ranges /\ proper_ranges demo_ranges.
Proof.
  split_and!; [|by repeat constructor..]. apply Forall_singleton. unfold UINT64_MAX. simpl. lia.
Qed.

Definition demo0 : iova_allocator := snd (@reserve_ephemerals page_4k (new_allocator demo_ranges)).
Definition demo1 : iova_allocator := snd (@vfio_iommu_type1_iova_reserve page_4k 0x3000 0 demo0).
Definition demo2 : iova_allocator := snd (@vfio_iommu_type1_iova_reserve_align page_4k 0x1000 0x4000 [] [] demo1).
Definition demo3 : iova_allocator :=
  snd (@vfio_iommu_type1_iova_reserve page_4k 0x2000 IOMMU_MAP_EPHEMERAL demo2).

Lemma demo3_reachable :
  @alloc_reachable page_4k demo_ranges (demo3, [(0x24000, 0x1000); (0x20000, 0x3000)], [(0x10000, 0x2000)]).
Proof.
  exists demo0. split; [vm_compute; reflexivity|]. split; [left; vm_compute; discriminate|].
  eapply rtc_l; [split; [eapply (step_reserve demo0 [] [] 0x3000 0 0x20000 demo1);
    [done|done|vm_compute; reflexivity]|left; vm_compute; discriminate]|].
  eapply rtc_l; [split; [eapply (step_reserve_align demo1 _ _ 0x1000 0x4000 [] [] 0x24000 demo2);
    [done|vm_compute; reflexivity]|left; vm_compute; discriminate]|].
  eapply rtc_l; [split; [eapply (step_reserve_ephemeral demo2 _ _ 0x2000 IOMMU_MAP_EPHEMERAL 0x10000 demo3);
    [done|done|vm_compute; reflexivity]|left; vm_compute; discriminate]|].
  apply rtc_refl.
Qed.

Lemma live_reservations_disjoint_witness :
  apart ([(0x24000, 0x1000); (0x20000, 0x3000)] ++ [(0x10000, 0x2000)]).
Proof.
  apply (@live_reservations_disjoint page_4k demo_ranges demo3); [apply demo_ranges_ok..|apply demo3_reachable].
Defined.

Lemma returned_iova_available_witness :
  exists a' iova' a'', vfio_iova_put 0x20000 0x3000 [] demo3 = (Ret tt, a') /\
    @vfio_iommu_type1_iova_reserve page_4k 0x3000 0 a' = (Ret iova', a'').
Proof.
  apply (@returned_iova_available page_4k demo_ranges demo3 [(0x24000, 0x1000)] 0x20000 0x3000 []
    [(0x10000, 0x2000)] [] 0); [apply demo_ranges_ok..|apply demo3_reachable|done].
Defined.

Lemma reserve_fails_only_without_room_witness :
  (exists iova a', @vfio_iommu_type1_iova_reserve page_4k 0x1000 0 demo3 = (Ret iova, a')) /\
  @vfio_iommu_type1_iova_reserve page_4k 0x8000000000 0 demo3 = (Fail ENOMEM, demo3).
Proof.
  split.
  - destruct (@reserve_fails_only_without_room page_4k demo_ranges demo3
      [(0x24000, 0x1000); (0x20000, 0x3000)] [(0x10000, 0x2000)] 0x1000 0) as (rs & _ & H);
      [apply demo_ranges_ok..|apply demo3_reachable|lia|reflexivity|reflexivity|].
    destruct (bool_decide (Exists _ rs)); [destruct H as (r & a' & _ & _ & H); by eexists _, _|].
    rewrite bool_decide_true in H; [destruct H as (r & a' & _ & _ & H); by eexists _, _|].
    apply Exists_cons_hd. vm_compute. discriminate.
  - destruct (@reserve_fails_only_without_room page_4k demo_ranges demo3
      [(0x24000, 0x1000); (0x20000, 0x3000)] [(0x10000, 0x2000)] 0x8000000000 0) as (rs & Hok & H);
      [apply demo_ranges_ok..|apply demo3_reachable|lia|reflexivity|reflexivity|].
    rewrite bool_decide_false in H.
    + rewrite bool_decide_false in H; [exact H|]. clear H.
      intros Hr%Exists_cons. destruct Hr as [Hr|Hr%Exists_nil]; [|exact Hr].
      unfold room in Hr. vm_compute in Hr. apply Hr. reflexivity.
    + destruct Hok as [_ (ns & Hrep)]. pose proof (contents_for_each _ ns ltac:(apply Hrep)) as Hns.
      vm_compute in Hns. injection Hns as Hns. symmetry in Hns. apply fmap_nil_inv in Hns as ->.
      pose proof (fl_nodes _ _ _ Hrep) as Hrs. inversion Hrs. intros Hx%Exists_nil. exact Hx.
Defined.

Lemma reserve_align_sound_witness :
  0x28000 mod 0x8000 = 0 /\ Forall (disj (0x28000, 0x1000)) [(0x24000, 0x1000); (0x20000, 0x3000)].
Proof.
  apply (@reserve_align_sound page_4k demo_ranges demo3
    [(0x24000, 0x1000); (0x20000, 0x3000)] [(0x10000, 0x2000)] 0x1000 0x8000 [] [] 0x28000
    (snd (@vfio_iommu_type1_iova_reserve_align page_4k 0x1000 0x8000 [] [] demo3)));
    [apply demo_ranges_ok..|apply demo3_reachable|lia| |vm_compute; reflexivity|left; vm_compute; discriminate].
  exists 15. split; [lia|reflexivity].
Defined.

Lemma ephemeral_window_recycled_witness :
  exists a' a'', @unmap_ephemeral 0x10000 0x2000 [] demo3 = (Ret tt, a') /\
    @vfio_iommu_type1_iova_reserve page_4k 0x10000 IOMMU_MAP_EPHEMERAL a' =
      (Ret (r_start (ephemerals demo3)), a'').
Proof.
  apply (@ephemeral_window_recycled page_4k demo_ranges demo3
    [(0x24000, 0x1000); (0x20000, 0x3000)] 0x10000 0x2000 [] 0x10000 IOMMU_MAP_EPHEMERAL);
    [apply demo_ranges_ok..|apply demo3_reachable|lia|reflexivity|reflexivity|vm_compute; discriminate].
Defined.

(** A range that was never reserved, such as the one of a mapping with
    [IOMMU_MAP_FIXED_IOVA], enters the free list when it is returned and is
    then handed out twice: once from the free list, once by the linear
    allocator. *)
Lemma fixed_iova_handed_out_twice :
  let reserve := @vfio_iommu_type1_iova_reserve page_4k in
  let a1 := snd (vfio_iova_put 0x100000 0x1000 [] demo0) in
  let a2 := snd (reserve 0x1000 0 a1) in
  let a3 := snd (reserve 0xe0000 0 a2) in
  fst (reserve 0x1000 0 a1) = Ret 0x100000 /\
  fst (reserve 0xe0000 0 a2) = Ret 0x20000 /\
  fst (reserve 0x1000 0 a3) = Ret 0x100000.
Proof. vm_compute. done. Qed.

(** With an alignment that is a multiple of the page size but not a power of
    two, the address is not a multiple of the alignment. *)
Lemma reserve_align_not_pow2 :
  fst (@vfio_iommu_type1_iova_reserve_align page_4k 0x1000 0x3000 [] [] demo0) = Ret 0x20000 /\
  0x20000 mod 0x3000 <> 0.
Proof. vm_compute. done. Qed.

(** When a range reaches the last address, the linear allocator wraps and
    starts again at the first one. *)
Lemma linear_allocator_wraps :
  __iova_reserve [mk_iova_range 0 UINT64_MAX] 0xfffffffffffff000 0x1000 = Some (0xfffffffffffff000, 0) /\
  __iova_reserve [mk_iova_range 0x10000 UINT64_MAX] 0 0x1000 = Some (0x10000, 0x11000).
Proof. done. Qed.

(** A range that is the whole address space has no room for anything: its size
    is 2^64, which reads as 0. *)
Lemma whole_space_has_no_room len : 0 < len -> __iova_reserve [mk_iova_range 0 UINT64_MAX] 0 len = None.
Proof.
  intros H. unfold __iova_reserve, reserve_loop. cbn [r_last r_start].
  change (u64 (UINT64_MAX - Z.max 0 0 + 1)) with 0. by rewrite (proj2 (Z.ltb_lt 0 len) H), orb_true_r.
Qed.
