(* ===== verification/Dma.v ===== *)
(** * Dma: the mapping layer, src/iommu/dma.c, context.{c,h} and dmabuf.c

    An I/O memory management context keeps its mappings in a skip list ordered
    by virtual address ([struct iova_map]) and programs the hardware through the
    operations of its backend ([struct iommu_ctx_ops]).  The backend, and the
    kernel behind it, are a state type [B] with the record of operations; the
    laws [BackendLaws] state what the layer relies on, and the backends
    discharge them. *)

From S2P Require Import Prelude Support Skiplist IovaAlloc VfioIova.
Local Open Scope Z_scope.
Local Open Scope vfn_scope.

(** ** Data *)

(** struct iova_mapping *)
Record iova_mapping : Type := mk_mapping {
  m_vaddr : Z;
  m_len : Z;
  m_iova : Z;
  m_flags : Z
}.

(** struct iova_map, with the store of the mappings linked into it. *)
Record iova_map : Type := mk_map {
  map_list : skiplist;
  map_store : gmap nat iova_mapping;
  map_fresh : nat
}.

Definition empty_map : iova_map := mk_map skiplist_init ∅ 0.

(** struct iommu_ctx_ops over a backend state; an operation that may be a null
    pointer is optional.  [dma_map] returns the address it mapped at, which the
    C code writes through the [iova] pointer. *)
Record iommu_ctx_ops (B : Type) : Type := mk_ops {
  iova_reserve : option (Z -> Z -> M B Z);
  iova_reserve_align : option (Z -> Z -> Z -> M B Z);
  iova_put_ephemeral : option (M B unit);
  dma_map : Z -> Z -> Z -> Z -> M B Z;
  dma_unmap : Z -> Z -> M B unit;
  dma_unmap_all : option (M B unit)
}.
Arguments mk_ops {B}.
Arguments iova_reserve {B}.
Arguments iova_reserve_align {B}.
Arguments iova_put_ephemeral {B}.
Arguments dma_map {B}.
Arguments dma_unmap {B}.
Arguments dma_unmap_all {B}.

(** struct iommu_ctx.  [rng] holds the random draws of the levels of new
    skip-list nodes. *)
Record iommu_ctx (B : Type) : Type := mk_ctx {
  map : iova_map;
  iova_max : Z;
  iova_next_same : Z;
  rng : list (list bool);
  backend : B
}.
Arguments mk_ctx {B}.
Arguments map {B}.
Arguments iova_max {B}.
Arguments iova_next_same {B}.
Arguments rng {B}.
Arguments backend {B}.

Definition set_map {B} (m : iova_map) (c : iommu_ctx B) : iommu_ctx B :=
  mk_ctx m (iova_max c) (iova_next_same c) (rng c) (backend c).
Definition set_next_same {B} (n : Z) (c : iommu_ctx B) : iommu_ctx B :=
  mk_ctx (map c) (iova_max c) n (rng c) (backend c).
Definition set_rng {B} (r : list (list bool)) (c : iommu_ctx B) : iommu_ctx B :=
  mk_ctx (map c) (iova_max c) (iova_next_same c) r (backend c).
Definition set_backend {B} (b : B) (c : iommu_ctx B) : iommu_ctx B :=
  mk_ctx (map c) (iova_max c) (iova_next_same c) (rng c) b.

(** ** The map of mappings *)

Definition iova_cmp (store : gmap nat iova_mapping) (vaddr : Z) (n : skiplist_node) : Z :=
  match n with
  | Sentinel => 0
  | Node i =>
      match store !! i with
      | Some m =>
          if vaddr <? m_vaddr m then -1
          else if u64 (m_vaddr m + m_len m) <=? vaddr then 1 else 0
      | None => 0
      end
  end.

Definition iova_map_add (vaddr len iova flags : Z) (rands : list bool) : M iova_map unit := fun map =>
  if len =? 0 then (Fail EINVAL, map)
  else
    let '(found, update) := skiplist_find (iova_cmp (map_store map)) (map_list map) vaddr null_path in
    match found with
    | Some _ => (Fail EEXIST, map)
    | None =>
        let i := map_fresh map in
        match skiplist_link (map_list map) (Node i) update rands with
        | None => (Crash, map)
        | Some sl => (Ret tt, mk_map sl (<[i := mk_mapping vaddr len iova flags]> (map_store map)) (S i))
        end
    end.

(** The node is unlinked; the structure is the caller's to free. *)
Definition iova_map_remove (vaddr : Z) : M iova_map unit := fun map =>
  let '(found, update) := skiplist_find (iova_cmp (map_store map)) (map_list map) vaddr null_path in
  match found with
  | None => (Ret tt, map)
  | Some n =>
      match skiplist_erase (map_list map) n update with
      | None => (Crash, map)
      | Some sl => (Ret tt, mk_map sl (map_store map) (map_fresh map))
      end
  end.

(** The mapping structure, by name and value. *)
Definition iova_map_find (map : iova_map) (vaddr : Z) : option (nat * iova_mapping) :=
  match fst (skiplist_find (iova_cmp (map_store map)) (map_list map) vaddr null_path) with
  | Some (Node i) => (fun m => (i, m)) <$> map_store map !! i
  | _ => None
  end.

Definition iova_map_clear (map : iova_map) : iova_map :=
  mk_map (fst (skiplist_clear_with (map_list map) false)) (map_store map) (map_fresh map).

(** The nodes in order with the list emptied; the callback runs on each. *)
Definition iova_map_clear_with (map : iova_map) : iova_map * list skiplist_node :=
  let '(sl, nodes) := skiplist_clear_with (map_list map) true in
  (mk_map sl (map_store map) (map_fresh map), nodes).

(** ** Operations on a context *)

Section Ops.
Context {B : Type} (ops : iommu_ctx_ops B).

Definition on_map {A} (m : M iova_map A) : M (iommu_ctx B) A := fun c =>
  let '(r, map') := m (map c) in (r, set_map map' c).
Definition on_backend {A} (m : M B A) : M (iommu_ctx B) A := fun c =>
  let '(r, b) := m (backend c) in (r, set_backend b c).

(** The random draws for one new node. *)
Definition draw : M (iommu_ctx B) (list bool) := fun c =>
  match rng c with
  | [] => (Ret [], c)
  | r :: rs => (Ret r, set_rng rs c)
  end.

Definition iommu_translate_vaddr (c : iommu_ctx B) (vaddr : Z) : option Z :=
  match iova_map_find (map c) vaddr with
  | Some (_, m) => Some (u64 (m_iova m + (vaddr - m_vaddr m)))
  | None => None
  end.

(** [iova] is the pointee of the parameter, if it is not null; [indet] is the
    indeterminate value [_iova] has when the backend reserves nothing. *)
Definition iommu_map_vaddr (vaddr len : Z) (iova : option Z) (flags indet : Z)
    : M (iommu_ctx B) Z :=
  let* c := get in
  match iommu_translate_vaddr c vaddr with
  | Some _iova => ret _iova
  | None =>
      let* _iova :=
        if flag_set flags IOMMU_MAP_FIXED_IOVA then
          match iova with Some i => ret i | None => crash end
        else
          match iova_reserve ops with
          | Some reserve => on_backend (reserve len flags)
          | None => ret indet
          end in
      let* _iova := on_backend (dma_map ops vaddr len _iova flags) in
      let* rands := draw in
      do* on_map (iova_map_add vaddr len _iova flags rands) in
      ret _iova
  end.

Definition iommu_map_vaddr_align (vaddr len align flags : Z) : M (iommu_ctx B) Z :=
  if flag_set flags IOMMU_MAP_FIXED_IOVA then fail EINVAL
  else
    let* c := get in
    match iommu_translate_vaddr c vaddr with
    | Some _iova => ret _iova
    | None =>
        match iova_reserve_align ops with
        | None => fail EOPNOTSUPP
        | Some reserve =>
            let* _iova := on_backend (reserve len align flags) in
            let* _iova := on_backend (dma_map ops vaddr len _iova flags) in
            let* rands := draw in
            do* on_map (iova_map_add vaddr len _iova flags rands) in
            ret _iova
        end
    end.

(** [free(m)] of a mapping. *)
Definition free_mapping (i : nat) : M (iommu_ctx B) unit :=
  modify (fun c => set_map
    (mk_map (map_list (map c)) (delete i (map_store (map c))) (map_fresh (map c))) c).

(** Returns the length of the mapping. *)
Definition iommu_unmap_vaddr (vaddr : Z) : M (iommu_ctx B) Z :=
  let* c := get in
  match iova_map_find (map c) vaddr with
  | None => fail ENOENT
  | Some (i, m) =>
      do* on_backend (dma_unmap ops (m_iova m) (m_len m)) in
      do* match iova_put_ephemeral ops with
          | Some put => when (flag_set (m_flags m) IOMMU_MAP_EPHEMERAL) (on_backend put)
          | None => ret tt
          end in
      do* on_map (iova_map_remove (m_vaddr m)) in
      do* free_mapping i in
      ret (m_len m)
  end.

Definition __unmap_mapping (n : skiplist_node) : M (iommu_ctx B) unit :=
  match n with
  | Sentinel => crash
  | Node i =>
      let* c := get in
      match map_store (map c) !! i with
      | None => crash
      | Some m =>
          do* fatal_if (on_backend (dma_unmap ops (m_iova m) (m_len m))) in
          free_mapping i
      end
  end.

Fixpoint for_nodes (ns : list skiplist_node) (fn : skiplist_node -> M (iommu_ctx B) unit)
    : M (iommu_ctx B) unit :=
  match ns with
  | [] => ret tt
  | n :: ns' => do* fn n in for_nodes ns' fn
  end.

Definition iommu_unmap_all : M (iommu_ctx B) unit :=
  match dma_unmap_all ops with
  | Some unmap_all =>
      do* on_backend unmap_all in
      modify (fun c => set_map (iova_map_clear (map c)) c)
  | None =>
      let* c := get in
      let '(map', nodes) := iova_map_clear_with (map c) in
      do* modify (set_map map') in
      for_nodes nodes __unmap_mapping
  end.

(** The test of [iommu_translate_iova] and what it returns for a mapping: the
    virtual address and the bytes left. *)
Definition claims_iova (m : iova_mapping) (iova : Z) : bool :=
  (m_iova m <=? iova) && (iova <? u64 (m_iova m + m_len m)).
Definition reverse_of (m : iova_mapping) (iova : Z) : Z * Z :=
  (u64 (m_vaddr m + (iova - m_iova m)), u64 (m_len m - (iova - m_iova m))).

(** The loop of [iommu_translate_iova] walks the level from the sentinel;
    [sentinel_mapping] is what the memory before the sentinel (the lock of the
    map, whose layout is the C library's) reads as. *)
Fixpoint translate_iova_loop (store : gmap nat iova_mapping) (sentinel_mapping : iova_mapping)
    (iova : Z) (nodes : list skiplist_node) : option (Z * Z) :=
  match nodes with
  | [] => None
  | n :: nodes' =>
      let m := match n with
               | Sentinel => Some sentinel_mapping
               | Node i => store !! i
               end in
      match m with
      | None => translate_iova_loop store sentinel_mapping iova nodes'
      | Some m =>
          if claims_iova m iova then Some (reverse_of m iova)
          else translate_iova_loop store sentinel_mapping iova nodes'
      end
  end.

(** Returns the virtual address and the bytes left of the mapping. *)
Definition iommu_translate_iova (sentinel_mapping : iova_mapping) (iova : Z)
    : M (iommu_ctx B) (Z * Z) := fun c =>
  match translate_iova_loop (map_store (map c)) sentinel_mapping iova
          (skiplist_for_each (map_list (map c)) 0) with
  | Some r => (Ret r, c)
  | None => (Fail EINVAL, c)
  end.
End Ops.

(** ** Memory at equal virtual and I/O addresses, and DMA buffers *)

Definition IOMMU_MAX_SAME_IOVA : Z := Z.shiftl 1 47 - 1.

Definition iommu_init_next_same {B} (c : iommu_ctx B) : iommu_ctx B :=
  let max := iova_max c in
  let max := if IOMMU_MAX_SAME_IOVA <? max then IOMMU_MAX_SAME_IOVA else max in
  set_next_same (max / 4 + 1) c.

(** The loop over the ranges that the backends compute [iova_max] with. *)
Definition max_last (rs : list iommu_iova_range) : Z :=
  foldl (fun m r => if m <? r_last r then r_last r else m) 0 rs.

Definition IOVA_MIN : Z := 0x10000.
Definition IOVA_MAX_39BITS : Z := Z.shiftl 1 39.

(** The range of a context before the backend asked the kernel for better. *)
Definition default_iova_ranges : list iommu_iova_range :=
  [mk_iova_range IOVA_MIN (IOVA_MAX_39BITS - 1)].

Definition iommu_ctx_init {B} (rng : list (list bool)) (b : B) : iommu_ctx B :=
  iommu_init_next_same (mk_ctx empty_map (IOVA_MAX_39BITS - 1) 0 rng b).

(** struct iommu_dmabuf, less its context. *)
Record iommu_dmabuf : Type := mk_dmabuf {
  buf_vaddr : Z;
  buf_iova : Z;
  buf_len : Z
}.
Definition MAP_FAILED : Z := UINT64_MAX.
Definition zero_dmabuf : iommu_dmabuf := mk_dmabuf 0 0 0.

Section Buffers.
Context {page : PageSize} {B : Type} (ops : iommu_ctx_ops B).
(** [mmap] with [MAP_FIXED_NOREPLACE] at an address, [mmap] at an address of
    the kernel's choice, [munmap]. *)
Context (mmap_fixed : Z -> Z -> M B Z) (mmap : Z -> M B Z) (munmap : Z -> Z -> M B unit).

(** The loop around the [retry] label; [Ret None] is exhausted fuel. *)
Fixpoint alloc_same_loop (fuel : nat) (len indet : Z) : M (iommu_ctx B) (option Z) :=
  match fuel with
  | O => ret None
  | S fuel' =>
      let* c := get in
      let next := iova_next_same c in
      if (iova_max c <=? u64 (next + len)) || (IOMMU_MAX_SAME_IOVA <=? u64 (next + len))
      then fail ENOMEM
      else
        let* r := try (on_backend (mmap_fixed next len)) in
        match r with
        | inl EEXIST =>
            do* modify (fun c => set_next_same (u64 (iova_next_same c + len)) c) in
            alloc_same_loop fuel' len indet
        | inl e => fail e
        | inr vaddr =>
            let* m := try (iommu_map_vaddr ops vaddr len (Some vaddr) IOMMU_MAP_FIXED_IOVA indet) in
            match m with
            | inl e => do* try (on_backend (munmap vaddr len)) in fail e
            | inr _ =>
                do* modify (fun c => set_next_same (u64 (iova_next_same c + len)) c) in
                ret (Some vaddr)
            end
        end
  end.

Definition iommu_alloc_same_iova (fuel : nat) (len indet : Z) : M (iommu_ctx B) (option Z) :=
  alloc_same_loop fuel (ALIGN_UP len __VFN_PAGESIZE) indet.

Definition iommu_free_same_iova (vaddr : Z) : M (iommu_ctx B) unit :=
  let* len := iommu_unmap_vaddr ops vaddr in
  on_backend (munmap vaddr len).

(** The buffer is an output parameter: it keeps what was written before an
    error; a failed [pgmap] leaves [MAP_FAILED] and -1 in it. *)
Definition iommu_get_dmabuf (buffer : iommu_dmabuf) (len flags indet : Z)
    : M (iommu_ctx B) (iommu_dmabuf * option errno) :=
  let* r := try (on_backend (pgmap mmap len)) in
  match r with
  | inl e => ret (mk_dmabuf MAP_FAILED (buf_iova buffer) (-1), Some e)
  | inr (vaddr, blen) =>
      let buffer := mk_dmabuf vaddr (buf_iova buffer) blen in
      let* r := try (iommu_map_vaddr ops vaddr blen (Some (buf_iova buffer)) flags indet) in
      match r with
      | inl e => do* on_backend (pgunmap munmap vaddr blen) in ret (buffer, Some e)
      | inr iova => ret (mk_dmabuf vaddr iova blen, None)
      end
  end.

Definition iommu_put_dmabuf (buffer : iommu_dmabuf) : M (iommu_ctx B) iommu_dmabuf :=
  if buf_len buffer =? 0 then ret buffer
  else
    do* fatal_if (iommu_unmap_vaddr ops (buf_vaddr buffer)) in
    do* on_backend (pgunmap munmap (buf_vaddr buffer) (buf_len buffer)) in
    ret zero_dmabuf.
End Buffers.

(** ** Representation of the map *)

Definition m_end (m : iova_mapping) : Z := m_vaddr m + m_len m.
Definition in_mapping (m : iova_mapping) (v : Z) : bool := (m_vaddr m <=? v) && (v <? m_end m).

(** Mappings in ascending order of virtual address, non-empty and disjoint. *)
Fixpoint mchain (lo : Z) (ms : list iova_mapping) : Prop :=
  match ms with
  | [] => True
  | m :: ms' => lo <= m_vaddr m /\ 0 < m_len m /\ m_end m <= UINT64_MAX /\ mchain (m_end m) ms'
  end.

Record map_rep (mp : iova_map) (ns : list nat) (ms : list iova_mapping) : Prop := {
  mr_contents : skiplist_contents (map_list mp) ns;
  mr_nodes : Forall2 (fun n m => map_store mp !! n = Some m) ns ms;
  mr_ids : Forall (fun n => (n < map_fresh mp)%nat) ns
}.

(** The map holds exactly the mappings [ms]. *)
Definition map_ok (mp : iova_map) (ms : list iova_mapping) : Prop :=
  mchain 0 ms /\ exists ns, map_rep mp ns ms.

(** The specification of a lookup: the mapping that contains the address. *)
Definition mfind (ms : list iova_mapping) (v : Z) : option iova_mapping :=
  List.find (fun m => in_mapping m v) ms.

(** The region [vaddr, vaddr+len) shares no address with a mapping. *)
Definition region_free (ms : list iova_mapping) (vaddr len : Z) : Prop :=
  Forall (fun m => vaddr + len <= m_vaddr m \/ m_end m <= vaddr) ms.

Lemma mchain_bounds lo ms :
  mchain lo ms -> Forall (fun m => lo <= m_vaddr m /\ 0 < m_len m /\ m_end m <= UINT64_MAX) ms.
Proof.
  revert lo. induction ms as [|m ms IH]; intros lo; simpl; [constructor|].
  intros (H1 & H2 & H3 & H4). constructor; [done|].
  eapply Forall_impl; [exact (IH _ H4)|]. unfold m_end. simpl. lia.
Qed.

Lemma mchain_weaken lo lo' ms : lo' <= lo -> mchain lo ms -> mchain lo' ms.
Proof. destruct ms; [done|]. simpl. intuition lia. Qed.

(** A chain ends before each of its mappings what comes before it. *)
Lemma mchain_before lo m1 m m2 :
  mchain lo (m1 ++ m :: m2) -> Forall (fun y => m_end y <= m_vaddr m) m1.
Proof.
  revert lo. induction m1 as [|y m1 IH]; intros lo; simpl; [constructor|].
  intros (_ & _ & _ & Hc). constructor; [|by eapply IH].
  pose proof (mchain_bounds _ _ Hc) as Hb. apply Forall_app in Hb as [_ Hb].
  by apply Forall_cons in Hb as [[? _] _].
Qed.

(** Splitting by an address: the mappings that end at or before it come first. *)
Lemma mchain_split lo ms v :
  mchain lo ms -> exists m1 m2, ms = m1 ++ m2 /\
    Forall (fun m => m_end m <= v) m1 /\ Forall (fun m => v < m_end m) m2.
Proof.
  revert lo. induction ms as [|m ms IH]; intros lo; simpl.
  { intros _. by exists [], []. }
  intros (H1 & H2 & H3 & H4). destruct (decide (m_end m <= v)).
  - destruct (IH _ H4) as (m1 & m2 & -> & F1 & F2). exists (m :: m1), m2.
    split; [done|]. split; [by constructor|done].
  - exists [], (m :: ms). split; [done|]. split; [constructor|]. constructor; [lia|].
    eapply Forall_impl; [exact (mchain_bounds _ _ H4)|]. unfold m_end in *. simpl. lia.
Qed.

Lemma mchain_app lo m1 m2 :
  mchain lo (m1 ++ m2) <->
  mchain lo m1 /\ mchain (default lo (m_end <$> last m1)) m2.
Proof.
  revert lo. induction m1 as [|m m1 IH]; intros lo; simpl; [tauto|]. rewrite IH.
  destruct m1 as [|x m1]; simpl; [tauto|]. destruct (last (x :: m1)) eqn:E; [simpl; tauto|].
  by apply last_None in E.
Qed.

Lemma mfind_app m1 m2 v :
  mfind (m1 ++ m2) v = match mfind m1 v with Some m => Some m | None => mfind m2 v end.
Proof. unfold mfind. induction m1 as [|m m1 IH]; simpl; [done|]. by destruct (in_mapping m v). Qed.

Lemma mfind_none ms v : Forall (fun m => in_mapping m v = false) ms -> mfind ms v = None.
Proof. unfold mfind. induction 1 as [|m ms Hm _ IH]; simpl; [done|]. by rewrite Hm. Qed.

Lemma in_mapping_spec m v : in_mapping m v = true <-> m_vaddr m <= v < m_end m.
Proof. unfold in_mapping. rewrite andb_true_iff, Z.leb_le, Z.ltb_lt. done. Qed.
Lemma not_in_mapping m v : ~ (m_vaddr m <= v < m_end m) -> in_mapping m v = false.
Proof. intros H. destruct (in_mapping m v) eqn:E; [|done]. by apply in_mapping_spec in E. Qed.

(** Below all mappings of a chain but the first, only the first can match. *)
Lemma mfind_split m1 m2 v :
  Forall (fun m => m_end m <= v) m1 -> mchain 0 (m1 ++ m2) -> Forall (fun m => v < m_end m) m2 ->
  mfind (m1 ++ m2) v =
    match m2 with m :: _ => if m_vaddr m <=? v then Some m else None | [] => None end.
Proof.
  intros F1 Hc F2. rewrite mfind_app, (mfind_none m1).
  2: { eapply Forall_impl; [exact F1|]. intros m Hm. apply not_in_mapping. simpl in Hm. lia. }
  destruct m2 as [|m m2]; [done|]. apply mchain_app in Hc as [_ (_ & H2 & H3 & Hc)].
  apply Forall_cons in F2 as [Hv F2]. unfold mfind. simpl.
  destruct (Z.leb_spec (m_vaddr m) v).
  - by rewrite (proj2 (in_mapping_spec m v)) by lia.
  - rewrite not_in_mapping by lia. apply mfind_none.
    eapply Forall_impl; [exact (mchain_bounds _ _ Hc)|]. intros x (Hx & _). apply not_in_mapping.
    unfold m_end in *. lia.
Qed.

Lemma mfind_in ms m v : mchain 0 ms -> m ∈ ms -> m_vaddr m <= v < m_end m -> mfind ms v = Some m.
Proof.
  intros Hc (m1 & m2 & ->)%list_elem_of_split Hv. pose proof (mchain_before _ _ _ _ Hc) as Hb.
  rewrite mfind_app, mfind_none.
  - unfold mfind. simpl. by rewrite (proj2 (in_mapping_spec m v)) by done.
  - eapply Forall_impl; [exact Hb|]. intros x Hx. apply not_in_mapping. simpl in Hx. lia.
Qed.

Lemma iova_cmp_split store v n1 n2 m1 m2 :
  Forall2 (fun n m => store !! n = Some m) n1 m1 -> Forall2 (fun n m => store !! n = Some m) n2 m2 ->
  Forall (fun m => 0 <= m_vaddr m /\ 0 < m_len m /\ m_end m <= UINT64_MAX) (m1 ++ m2) ->
  Forall (fun m => m_end m <= v) m1 -> Forall (fun m => v < m_end m) m2 ->
  split_by (fun n => 0 <? iova_cmp store v n) n1 n2.
Proof.
  intros H1 H2 [B1 B2]%Forall_app F1 F2. unfold m_end, UINT64_MAX in *. split.
  - induction H1 as [|n m n1 m1 Hn H1 IH]; constructor; rewrite Forall_cons in *; [|tauto].
    simpl. rewrite Hn, u64_small by lia. zcases.
  - clear H1. induction H2 as [|n m n2 m2 Hn H2 IH]; constructor; rewrite Forall_cons in *; [|tauto].
    simpl. rewrite Hn, u64_small by lia. zcases.
Qed.

Lemma map_ok_bounds mp ms :
  map_ok mp ms -> Forall (fun m => 0 <= m_vaddr m /\ 0 < m_len m /\ m_end m <= UINT64_MAX) ms.
Proof. intros [Hc _]. by apply mchain_bounds. Qed.

(** The lookup of the code is the lookup of the specification. *)
Lemma iova_map_find_spec mp ms v :
  map_ok mp ms -> snd <$> iova_map_find mp v = mfind ms v.
Proof.
  intros Hok. pose proof (map_ok_bounds _ _ Hok) as Hb. destruct Hok as [Hc (ns & [Hcon Hn _])].
  destruct (mchain_split _ _ v Hc) as (m1 & m2 & -> & F1 & F2).
  apply Forall2_app_inv_r in Hn as (n1 & n2 & Hn1 & Hn2 & ->).
  rewrite mfind_split by done. unfold iova_map_find.
  rewrite (contents_find _ _ _ n1 n2) by eauto using iova_cmp_split.
  destruct Hn2 as [|n m n2 m2 Hm Hn2]; simpl; [done|]. rewrite Hm.
  apply Forall_cons in F2 as [Hv _]. apply Forall_app in Hb as [_ Hb].
  apply Forall_cons in Hb as [Hb _]. unfold m_end, UINT64_MAX in *. rewrite u64_small by lia.
  destruct (Z.leb_spec (m_vaddr m) v).
  - rewrite (proj2 (Z.ltb_ge _ _)), (proj2 (Z.leb_gt _ _)) by lia. simpl. by rewrite Hm.
  - by rewrite (proj2 (Z.ltb_lt _ _)) by lia.
Qed.

(** Adding a mapping where the region is free; the nodes are named. *)
Lemma iova_map_add_named mp ns ms vaddr len iova flags rands :
  mchain 0 ms -> map_rep mp ns ms -> 0 <= vaddr -> 0 < len -> vaddr + len <= UINT64_MAX -> region_free ms vaddr len ->
  exists mp' n1 n2 m1 m2, iova_map_add vaddr len iova flags rands mp = (Ret tt, mp') /\
    ns = n1 ++ n2 /\ ms = m1 ++ m2 /\ length n1 = length m1 /\
    mchain 0 (m1 ++ mk_mapping vaddr len iova flags :: m2) /\
    map_rep mp' (n1 ++ map_fresh mp :: n2) (m1 ++ mk_mapping vaddr len iova flags :: m2) /\
    map_fresh mp' = S (map_fresh mp).
Proof.
  intros Hc [Hcon Hn Hi] Hv Hl Hmax Hfree. pose proof (mchain_bounds _ _ Hc) as Hb.
  destruct (mchain_split _ _ vaddr Hc) as (m1 & m2 & -> & F1 & F2).
  apply Forall2_app_inv_r in Hn as (n1 & n2 & Hn1 & Hn2 & ->).
  pose proof (iova_cmp_split _ _ _ _ _ _ Hn1 Hn2 Hb F1 F2) as Hsp.
  assert (Forall (fun m => vaddr + len <= m_vaddr m) m2) as F2'.
  { apply Forall_app in Hfree as [_ Hf]. rewrite Forall_forall in *. intros m Hm.
    specialize (Hf m Hm). specialize (F2 m Hm). simpl in *. lia. }
  assert (map_fresh mp ∉ n1 ++ n2) as Hfr.
  { intros Hx. rewrite Forall_forall in Hi. specialize (Hi _ Hx). lia. }
  unfold iova_map_add. destruct (Z.eqb_spec len 0); [lia|].
  pose proof (contents_find (iova_cmp (map_store mp)) (map_list mp) vaddr n1 n2 Hcon Hsp) as Hfind.
  destruct (contents_link (iova_cmp (map_store mp)) (map_list mp) vaddr n1 n2 (map_fresh mp) rands null_path
    Hcon Hsp Hfr eq_refl) as (sl & Hlk & Hcon').
  destruct (skiplist_find _ _ _ _) as [found update]. simpl in Hfind, Hlk. rewrite Hfind.
  destruct (match head n2 with Some _ => _ | None => _ end) as [x|] eqn:E.
  { exfalso. destruct Hn2 as [|nd m n2 m2 Hm _]; [done|]. simpl in E. rewrite Hm in E.
    apply Forall_cons in F2' as [F2' _]. rewrite (proj2 (Z.ltb_lt vaddr (m_vaddr m))) in E by lia. done. }
  rewrite Hlk. eexists _, n1, n2, m1, m2. split; [reflexivity|]. split; [done|]. split; [done|].
  split; [by eapply Forall2_length|].
  apply mchain_app in Hc as [Hc1 Hc2]. apply not_elem_of_app in Hfr as [Hf1 Hf2]. split; [|split; [|done]].
  - apply mchain_app. split; [done|]. simpl. unfold m_end; simpl. split_and!; [|done|done|].
    + destruct (last m1) as [m|] eqn:El; simpl; [|done]. apply last_Some_elem_of in El.
      rewrite Forall_forall in F1. by apply F1.
    + destruct m2 as [|m m2]; [done|]. apply Forall_cons in F2' as [? _]. simpl in *. intuition lia.
  - split; simpl; [done|..].
    + apply Forall2_app; [by apply nodes_insert|]. constructor; [by rewrite lookup_insert_eq|by apply nodes_insert].
    + rewrite Forall_app, Forall_cons in *. destruct Hi as [Ha Hb']. split_and!; [|lia|];
        (eapply Forall_impl; [eassumption|]; simpl; lia).
Qed.

(** Adding a mapping where the region is free. *)
Lemma iova_map_add_spec mp ms vaddr len iova flags rands :
  map_ok mp ms -> 0 <= vaddr -> 0 < len -> vaddr + len <= UINT64_MAX -> region_free ms vaddr len ->
  exists mp' m1 m2, iova_map_add vaddr len iova flags rands mp = (Ret tt, mp') /\ ms = m1 ++ m2 /\
    map_ok mp' (m1 ++ mk_mapping vaddr len iova flags :: m2).
Proof.
  intros [Hc [ns Hr]] Hv Hl Hmax Hfree.
  destruct (iova_map_add_named mp ns ms vaddr len iova flags rands Hc Hr Hv Hl Hmax Hfree)
    as (mp' & n1 & n2 & m1 & m2 & E & _ & Em & _ & Hc' & Hr' & _).
  exists mp', m1, m2. split_and!; [done..|]. split; eauto.
Qed.

(** Removing the mapping a lookup returned; the nodes are named. *)
Lemma iova_map_remove_named mp ns ms v i m :
  mchain 0 ms -> map_rep mp ns ms -> iova_map_find mp v = Some (i, m) ->
  exists mp' n1 n2 m1 m2, iova_map_remove (m_vaddr m) mp = (Ret tt, mp') /\
    ns = n1 ++ i :: n2 /\ ms = m1 ++ m :: m2 /\ length n1 = length m1 /\
    m_vaddr m <= v < m_end m /\ mchain 0 (m1 ++ m2) /\ map_rep mp' (n1 ++ n2) (m1 ++ m2) /\
    map_fresh mp' = map_fresh mp.
Proof.
  intros Hc [Hcon Hn Hi] Hfind. pose proof (mchain_bounds _ _ Hc) as Hb.
  destruct (mchain_split _ _ v Hc) as (m1 & m2 & -> & F1 & F2).
  apply Forall2_app_inv_r in Hn as (n1 & n2 & Hn1 & Hn2 & ->).
  unfold iova_map_find in Hfind.
  rewrite (contents_find _ _ _ n1 n2) in Hfind by eauto using iova_cmp_split.
  destruct Hn2 as [|j x n2 m2 Hj Hn2]; simpl in Hfind; [done|]. rewrite Hj in Hfind.
  apply Forall_app in Hb as Hb'. destruct Hb' as [Hb1 Hb2]. apply Forall_cons in Hb2 as [Hbx Hb2].
  apply Forall_cons in F2 as [Fv F2]. unfold m_end, UINT64_MAX in Hbx, Fv.
  rewrite u64_small in Hfind by lia. destruct (Z.ltb_spec v (m_vaddr x)); [done|].
  rewrite (proj2 (Z.leb_gt _ _)) in Hfind by lia. simpl in Hfind. rewrite Hj in Hfind. simplify_eq/=.
  pose proof (mchain_before _ _ _ _ Hc) as G1. apply mchain_app in Hc as [Hc1 (Hx1 & Hx2 & Hx3 & Hc2)].
  assert (Forall (fun y => m_vaddr m < m_end y) (m :: m2)) as G2.
  { constructor; [unfold m_end; lia|]. eapply Forall_impl; [exact (mchain_bounds _ _ Hc2)|].
    unfold m_end. simpl. lia. }
  assert (split_by (fun n => 0 <? iova_cmp (map_store mp) (m_vaddr m) n) n1 (i :: n2)) as Hsp.
  { eapply iova_cmp_split; [exact Hn1|by constructor|done|done|done]. }
  pose proof (contents_find (iova_cmp (map_store mp)) (map_list mp) (m_vaddr m) n1 (i :: n2) Hcon Hsp) as Hf.
  destruct (contents_erase (iova_cmp (map_store mp)) (map_list mp) (m_vaddr m) n1 i n2 null_path
    Hcon Hsp eq_refl) as (sl & Her & Hcon').
  unfold iova_map_remove. destruct (skiplist_find _ _ _ _) as [found update]. simpl in Hf, Her.
  rewrite Hj in Hf. unfold m_end, UINT64_MAX in *. rewrite u64_small in Hf by lia.
  rewrite Z.ltb_irrefl, (proj2 (Z.leb_gt _ _)) in Hf by lia. simpl in Hf. rewrite Hf, Her.
  eexists _, n1, n2, m1, m2. split; [reflexivity|]. split; [done|]. split; [done|].
  split; [by eapply Forall2_length|]. split; [lia|]. split; [|split; [|done]].
  - apply mchain_app. split; [done|]. eapply mchain_weaken; [|exact Hc2]. unfold m_end. lia.
  - split; simpl; [done|..].
    + by apply Forall2_app.
    + rewrite Forall_app, Forall_cons in Hi. rewrite Forall_app. tauto.
Qed.

(** Freeing a node that is not on the list. *)
Lemma free_node_rep mp ns ms i :
  map_rep mp ns ms -> i ∉ ns -> map_rep (mk_map (map_list mp) (delete i (map_store mp)) (map_fresh mp)) ns ms.
Proof. intros [Hc Hn Hi] Hx. split; simpl; [done|by apply nodes_delete|done]. Qed.

(** Removing and freeing the mapping a lookup returned. *)
Lemma iova_map_remove_spec mp ms v i m :
  map_ok mp ms -> iova_map_find mp v = Some (i, m) ->
  exists mp' m1 m2, iova_map_remove (m_vaddr m) mp = (Ret tt, mp') /\ ms = m1 ++ m :: m2 /\
    m_vaddr m <= v < m_end m /\
    map_ok (mk_map (map_list mp') (delete i (map_store mp')) (map_fresh mp')) (m1 ++ m2).
Proof.
  intros [Hc [ns Hr]] Hf.
  destruct (iova_map_remove_named mp ns ms v i m Hc Hr Hf)
    as (mp' & n1 & n2 & m1 & m2 & E & -> & Em & _ & Hv & Hc' & Hr' & _).
  exists mp', m1, m2. split_and!; [done..|lia|lia|]. split; [done|]. exists (n1 ++ n2).
  apply free_node_rep; [done|]. destruct (nodup_mid _ _ _ (contents_nodup _ _ (mr_contents _ _ _ Hr))). set_solver.
Qed.

(** ** Operations against the specification *)

Section Spec.
Context {B : Type} (ops : iommu_ctx_ops B).
Implicit Types c : iommu_ctx B.

Definition translation (ms : list iova_mapping) (v : Z) : option Z :=
  (fun m => u64 (m_iova m + (v - m_vaddr m))) <$> mfind ms v.

Lemma translate_vaddr_spec c ms v :
  map_ok (map c) ms -> iommu_translate_vaddr c v = translation ms v.
Proof.
  intros Hok. unfold translation, iommu_translate_vaddr. rewrite <- (iova_map_find_spec _ _ v Hok).
  by destruct (iova_map_find (map c) v) as [[]|].
Qed.

(** The addresses a new mapping translates, and the others. *)
Lemma translation_insert m1 m2 m v :
  region_free (m1 ++ m2) (m_vaddr m) (m_len m) ->
  translation (m1 ++ m :: m2) v =
    if in_mapping m v then Some (u64 (m_iova m + (v - m_vaddr m))) else translation (m1 ++ m2) v.
Proof.
  intros [F1 F2]%Forall_app. unfold translation. rewrite !mfind_app. unfold mfind at 2. simpl.
  fold (mfind m2 v). destruct (in_mapping m v) eqn:E; [|done]. apply in_mapping_spec in E.
  rewrite (mfind_none m1); [done|]. eapply Forall_impl; [exact F1|]. intros x Hx.
  apply not_in_mapping. unfold m_end in *. simpl in Hx. lia.
Qed.

(** What the mapping calls ask of the backend: reserve an address, map it. *)
Definition backend_map (vaddr len : Z) (iova : option Z) (flags indet : Z) : M B Z :=
  let* _iova :=
    if flag_set flags IOMMU_MAP_FIXED_IOVA then
      match iova with Some i => ret i | None => crash end
    else
      match iova_reserve ops with
      | Some reserve => reserve len flags
      | None => ret indet
      end in
  dma_map ops vaddr len _iova flags.

Definition backend_map_align (reserve : Z -> Z -> Z -> M B Z) (vaddr len align flags : Z) : M B Z :=
  let* _iova := reserve len align flags in
  dma_map ops vaddr len _iova flags.

(** And of unmapping. *)
Definition backend_unmap (m : iova_mapping) : M B unit :=
  do* dma_unmap ops (m_iova m) (m_len m) in
  match iova_put_ephemeral ops with
  | Some put => when (flag_set (m_flags m) IOMMU_MAP_EPHEMERAL) put
  | None => ret tt
  end.

Definition map_tail (vaddr len flags : Z) (i : Z) : M (iommu_ctx B) Z :=
  let* rands := draw in
  do* on_map (iova_map_add vaddr len i flags rands) in
  ret i.

Lemma on_backend_bind {A A'} (m : M B A) (k : A -> M B A') c :
  bind (on_backend m) (fun a => on_backend (k a)) c = on_backend (bind m k) c.
Proof. unfold bind, on_backend. destruct (m (backend c)) as [[] b]; try done. Qed.

Lemma iommu_map_vaddr_unfold vaddr len iova flags indet c :
  iommu_translate_vaddr c vaddr = None ->
  iommu_map_vaddr ops vaddr len iova flags indet c =
    bind (on_backend (backend_map vaddr len iova flags indet)) (map_tail vaddr len flags) c.
Proof.
  intros Ht. unfold iommu_map_vaddr. rewrite (bind_ret get _ c c c) by done. rewrite Ht.
  rewrite bind_assoc. apply bind_ext. unfold backend_map. rewrite <- on_backend_bind.
  apply bind_ext. destruct (flag_set _ _); [destruct iova|destruct (iova_reserve ops)]; try done;
    unfold on_backend; simpl; by destruct c.
Qed.

Lemma iommu_map_vaddr_align_unfold vaddr len align flags reserve c :
  flag_set flags IOMMU_MAP_FIXED_IOVA = false -> iova_reserve_align ops = Some reserve ->
  iommu_translate_vaddr c vaddr = None ->
  iommu_map_vaddr_align ops vaddr len align flags c =
    bind (on_backend (backend_map_align reserve vaddr len align flags)) (map_tail vaddr len flags) c.
Proof.
  intros Hfl Hr Ht. unfold iommu_map_vaddr_align. rewrite Hfl, (bind_ret get _ c c c), Ht, Hr by done.
  rewrite bind_assoc. apply bind_ext. unfold backend_map_align. by rewrite <- on_backend_bind.
Qed.

Lemma map_tail_spec c ms vaddr len flags i :
  map_ok (map c) ms -> 0 <= vaddr -> 0 < len -> vaddr + len <= UINT64_MAX -> region_free ms vaddr len ->
  exists c' m1 m2, map_tail vaddr len flags i c = (Ret i, c') /\ ms = m1 ++ m2 /\
    map_ok (map c') (m1 ++ mk_mapping vaddr len i flags :: m2) /\
    backend c' = backend c /\ iova_next_same c' = iova_next_same c /\ iova_max c' = iova_max c.
Proof.
  intros Hok Hv Hl Hm Hf. unfold map_tail, bind, draw, on_map, ret.
  destruct (rng c) as [|rands rngs].
  - destruct (iova_map_add_spec _ _ vaddr len i flags [] Hok Hv Hl Hm Hf) as (mp & m1 & m2 & -> & -> & Hok').
    by eexists _, m1, m2.
  - simpl. destruct (iova_map_add_spec _ _ vaddr len i flags rands Hok Hv Hl Hm Hf) as (mp & m1 & m2 & -> & -> & Hok').
    by eexists _, m1, m2.
Qed.

(** One mapping call, whichever way the backend finds the address. *)
Lemma map_run_spec (bm : M B Z) c ms vaddr len flags :
  map_ok (map c) ms -> 0 <= vaddr -> 0 < len -> vaddr + len <= UINT64_MAX -> region_free ms vaddr len ->
  match bm (backend c) with
  | (Ret i, b) =>
      exists c' m1 m2, bind (on_backend bm) (map_tail vaddr len flags) c = (Ret i, c') /\
        ms = m1 ++ m2 /\ map_ok (map c') (m1 ++ mk_mapping vaddr len i flags :: m2) /\ backend c' = b
  | (Fail e, b) =>
      bind (on_backend bm) (map_tail vaddr len flags) c = (Fail e, set_backend b c)
  | (Crash, b) =>
      bind (on_backend bm) (map_tail vaddr len flags) c = (Crash, set_backend b c)
  end.
Proof.
  intros Hok Hv Hl Hm Hf. destruct (bm (backend c)) as [[i|e|] b] eqn:E;
    unfold bind at 1, on_backend; rewrite E; [|done..].
  destruct (map_tail_spec (set_backend b c) ms vaddr len flags i) as (c' & m1 & m2 & Ht & Hms & Hok' & Hb & _);
    [done..|]. by exists c', m1, m2.
Qed.

(** A region that is free is not translated. *)
Lemma region_free_translation ms vaddr len :
  0 < len -> region_free ms vaddr len -> translation ms vaddr = None.
Proof.
  intros Hl Hf. unfold translation. rewrite mfind_none; [done|].
  eapply Forall_impl; [exact Hf|]. intros m Hm. apply not_in_mapping. simpl in Hm. lia.
Qed.

(** One unmap call. *)
Lemma iommu_unmap_vaddr_spec c ms v :
  map_ok (map c) ms ->
  match mfind ms v with
  | None => iommu_unmap_vaddr ops v c = (Fail ENOENT, c)
  | Some m =>
      match backend_unmap m (backend c) with
      | (Ret _, b) =>
          exists c' m1 m2, iommu_unmap_vaddr ops v c = (Ret (m_len m), c') /\ ms = m1 ++ m :: m2 /\
            map_ok (map c') (m1 ++ m2) /\ backend c' = b
      | (Fail e, b) => iommu_unmap_vaddr ops v c = (Fail e, set_backend b c)
      | (Crash, b) => iommu_unmap_vaddr ops v c = (Crash, set_backend b c)
      end
  end.
Proof.
  intros Hok. pose proof (iova_map_find_spec _ _ v Hok) as Hf.
  unfold iommu_unmap_vaddr. rewrite (bind_ret get _ c c c) by done.
  destruct (iova_map_find (map c) v) as [[i m]|] eqn:E; simpl in Hf; rewrite <- Hf; [|done].
  assert (forall k, bind (on_backend (dma_unmap ops (m_iova m) (m_len m))) (fun _ =>
      bind (match iova_put_ephemeral ops with
        | Some put => when (flag_set (m_flags m) IOMMU_MAP_EPHEMERAL) (on_backend put)
        | None => ret tt end) (fun _ => k : M (iommu_ctx B) Z)) c =
    bind (on_backend (backend_unmap m)) (fun _ => k) c) as ->.
  { intros k. rewrite bind_assoc. apply bind_ext. unfold backend_unmap. rewrite <- on_backend_bind.
    unfold bind. destruct (on_backend (dma_unmap _ _ _) c) as [[] c1]; try done.
    unfold on_backend, when, ret. destruct (iova_put_ephemeral ops); [|by destruct c1].
    destruct (flag_set _ _); [done|by destruct c1]. }
  destruct (backend_unmap m (backend c)) as [[[]|e|] b] eqn:Eb; unfold bind at 1, on_backend;
    rewrite Eb; [|done..].
  destruct (iova_map_remove_spec _ _ _ _ _ Hok E) as (mp & m1 & m2 & Hrm & -> & _ & Hok').
  unfold bind, on_map, free_mapping, modify, ret. simpl. rewrite Hrm.
  by eexists _, m1, m2.
Qed.
End Spec.

(** ** The contract of a backend *)

Definition m_iv (m : iova_mapping) : Z * Z := (m_iova m, m_len m).

(** [binv b ms]: the backend state [b] backs exactly the mappings [ms].  Mapping
    adds one, unmapping removes it, a failed call changes neither, nothing ends
    the process, and the I/O addresses of the mappings are apart. *)
Class BackendLaws {B : Type} (ops : iommu_ctx_ops B) : Type := {
  binv : B -> list iova_mapping -> Prop;
  binv_perm b :: Proper ((≡ₚ) ==> iff) (binv b);
  binv_iova b ms : binv b ms ->
    apart (m_iv <$> ms) /\ Forall (fun m => 0 <= m_iova m /\ m_iova m + m_len m <= UINT64_MAX) ms;
  law_map b ms vaddr len iova flags indet :
    binv b ms -> 0 < len -> flag_set flags IOMMU_MAP_FIXED_IOVA = false ->
    match backend_map ops vaddr len iova flags indet b with
    | (Ret i, b') => binv b' (mk_mapping vaddr len i flags :: ms)
    | (Fail _, b') => binv b' ms
    | (Crash, _) => False
    end;
  law_map_align b ms vaddr len align flags reserve :
    binv b ms -> 0 < len -> iova_reserve_align ops = Some reserve ->
    flag_set flags IOMMU_MAP_FIXED_IOVA = false -> flag_set flags IOMMU_MAP_EPHEMERAL = false ->
    match backend_map_align ops reserve vaddr len align flags b with
    | (Ret i, b') => binv b' (mk_mapping vaddr len i flags :: ms)
    | (Fail _, b') => binv b' ms
    | (Crash, _) => False
    end;
  law_unmap b m ms :
    binv b (m :: ms) ->
    match backend_unmap ops m b with
    | (Ret _, b') => binv b' ms
    | (Fail _, b') => binv b' (m :: ms)
    | (Crash, _) => False
    end;
  law_dma_unmap b m ms :
    binv b (m :: ms) ->
    match dma_unmap ops (m_iova m) (m_len m) b with
    | (Ret _, b') => binv b' ms
    | (Fail _, b') => binv b' (m :: ms)
    | (Crash, _) => False
    end;
  law_unmap_all b ms unmap_all :
    binv b ms -> dma_unmap_all ops = Some unmap_all ->
    match unmap_all b with
    | (Ret _, b') => binv b' []
    | (Fail _, b') => binv b' ms
    | (Crash, _) => False
    end
}.

(** The entry of a mapping in a backend's table: address, length, virtual
    address. *)
Definition m_entry (m : iova_mapping) : Z * Z * Z := (m_iova m, m_len m, m_vaddr m).

(** A context and a table that hold the same mappings translate alike. *)
Lemma table_translation {B} (c : iommu_ctx B) ms t v i :
  map_ok (map c) ms -> Forall (fun m => 0 <= m_iova m /\ m_iova m + m_len m <= UINT64_MAX) ms ->
  t ≡ₚ m_entry <$> ms ->
  iommu_translate_vaddr c v = Some i <->
    exists iova len vaddr, (iova, len, vaddr) ∈ t /\ vaddr <= v < vaddr + len /\ i = iova + (v - vaddr).
Proof.
  intros Hok Hbd Ht. rewrite (translate_vaddr_spec _ _ _ Hok). unfold translation.
  pose proof (map_ok_bounds _ _ Hok) as Hmb. rewrite Forall_forall in Hbd, Hmb. split.
  - destruct (mfind ms v) as [m|] eqn:E; [|done]. simpl. intros [= <-].
    apply List.find_some in E as [Hin%list_elem_of_In Hv%in_mapping_spec].
    exists (m_iova m), (m_len m), (m_vaddr m). split; [rewrite Ht; by apply (list_elem_of_fmap_2 m_entry)|].
    specialize (Hbd m Hin). specialize (Hmb m Hin). unfold m_end, UINT64_MAX in *.
    rewrite u64_small by lia. lia.
  - intros (iova & len & vaddr & Hin & Hv & ->). rewrite Ht in Hin.
    apply list_elem_of_fmap in Hin as (m & [= -> -> ->] & Hin).
    rewrite (mfind_in _ m _ (proj1 Hok) Hin) by done. simpl.
    specialize (Hbd m Hin). specialize (Hmb m Hin). unfold m_end, UINT64_MAX in *.
    by rewrite u64_small by lia.
Qed.

(** ** Executions of a context *)

Section Exec.
Context {B : Type} (ops : iommu_ctx_ops B) {laws : BackendLaws ops}.
Implicit Types c : iommu_ctx B.

Definition ctx_inv c : Prop := exists ms, map_ok (map c) ms /\ binv (backend c) ms.

(** What a client may map: memory that is not mapped, or an address within a
    mapping (which the call then looks up). *)
Definition mappable c (vaddr len : Z) : Prop :=
  0 <= vaddr /\ 0 < len /\ vaddr + len <= UINT64_MAX /\
  (iommu_translate_vaddr c vaddr <> None \/
   forall v, vaddr <= v < vaddr + len -> iommu_translate_vaddr c v = None).

Lemma region_free_intro c ms vaddr len :
  map_ok (map c) ms -> 0 < len ->
  (forall v, vaddr <= v < vaddr + len -> iommu_translate_vaddr c v = None) ->
  region_free ms vaddr len.
Proof.
  intros Hok Hl Hnone. pose proof (map_ok_bounds _ _ Hok) as Hb. unfold region_free.
  rewrite Forall_forall in Hb |- *. intros m Hm. destruct (Hb m Hm) as (H1 & H2 & H3).
  destruct (decide (vaddr + len <= m_vaddr m)); [by left|].
  destruct (decide (m_end m <= vaddr)); [by right|]. exfalso. unfold m_end in *.
  specialize (Hnone (Z.max vaddr (m_vaddr m))). rewrite (translate_vaddr_spec _ ms) in Hnone by done.
  unfold translation in Hnone. destruct (mfind ms _) eqn:E; [by discriminate Hnone; lia|].
  unfold mfind in E. eapply List.find_none in E; [|by apply list_elem_of_In].
  rewrite (proj2 (in_mapping_spec _ _)) in E; [done|unfold m_end; lia].
Qed.

(** The calls of a client that leaves the choice of addresses to the library
    and, as documented, asks for no aligned ephemeral mapping. *)
Inductive ctx_step : iommu_ctx B -> outcome unit -> iommu_ctx B -> Prop :=
| ctx_map c vaddr len iova flags indet r c' :
    mappable c vaddr len -> flag_set flags IOMMU_MAP_FIXED_IOVA = false ->
    iommu_map_vaddr ops vaddr len iova flags indet c = (r, c') ->
    ctx_step c (match r with Ret _ => Ret tt | Fail e => Fail e | Crash => Crash end) c'
| ctx_map_align c vaddr len align flags r c' :
    mappable c vaddr len -> flag_set flags IOMMU_MAP_EPHEMERAL = false ->
    iommu_map_vaddr_align ops vaddr len align flags c = (r, c') ->
    ctx_step c (match r with Ret _ => Ret tt | Fail e => Fail e | Crash => Crash end) c'
| ctx_unmap c vaddr r c' :
    iommu_unmap_vaddr ops vaddr c = (r, c') ->
    ctx_step c (match r with Ret _ => Ret tt | Fail e => Fail e | Crash => Crash end) c'
| ctx_unmap_all c r c' :
    dma_unmap_all ops <> None -> iommu_unmap_all ops c = (r, c') -> ctx_step c r c'.

Lemma map_run_inv (bm : M B Z) c ms vaddr len flags r c' :
  map_ok (map c) ms -> 0 <= vaddr -> 0 < len -> vaddr + len <= UINT64_MAX -> region_free ms vaddr len ->
  match bm (backend c) with
  | (Ret i, b') => binv b' (mk_mapping vaddr len i flags :: ms)
  | (Fail _, b') => binv b' ms
  | (Crash, _) => False
  end ->
  bind (on_backend bm) (map_tail vaddr len flags) c = (r, c') -> ctx_inv c' /\ r <> Crash.
Proof.
  intros Hok Hv Hl Hm Hf Hb. pose proof (map_run_spec bm c ms vaddr len flags Hok Hv Hl Hm Hf) as Hr.
  destruct (bm (backend c)) as [[i|e|] b]; [|..|done].
  - destruct Hr as (c1 & m1 & m2 & -> & -> & Hok' & <-). intros [= <- <-]. split; [|done].
    eexists. split; [exact Hok'|]. by rewrite <- Permutation_middle.
  - rewrite Hr. intros [= <- <-]. split; [|done]. by exists ms.
Qed.

Lemma map_vaddr_inv c vaddr len iova flags indet r c' :
  ctx_inv c -> mappable c vaddr len -> flag_set flags IOMMU_MAP_FIXED_IOVA = false ->
  iommu_map_vaddr ops vaddr len iova flags indet c = (r, c') -> ctx_inv c' /\ r <> Crash.
Proof.
  intros (ms & Hok & Hb) (Hv & Hl & Hm & Hmp) Hfl Hrun.
  destruct (iommu_translate_vaddr c vaddr) as [i|] eqn:Et.
  - unfold iommu_map_vaddr in Hrun. rewrite (bind_ret get _ c c c), Et in Hrun by done.
    injection Hrun as <- <-. split; [by exists ms|done].
  - rewrite iommu_map_vaddr_unfold in Hrun by done. destruct Hmp as [?|Hmp]; [done|].
    pose proof (region_free_intro _ _ _ _ Hok Hl Hmp) as Hf.
    eapply map_run_inv in Hrun as [? ?]; [done|done..|by apply law_map].
Qed.

Lemma map_vaddr_align_inv c vaddr len align flags r c' :
  ctx_inv c -> mappable c vaddr len -> flag_set flags IOMMU_MAP_EPHEMERAL = false ->
  iommu_map_vaddr_align ops vaddr len align flags c = (r, c') -> ctx_inv c' /\ r <> Crash.
Proof.
  intros (ms & Hok & Hb) (Hv & Hl & Hm & Hmp) Hfl Hrun.
  destruct (flag_set flags IOMMU_MAP_FIXED_IOVA) eqn:Efx;
    [|destruct (iommu_translate_vaddr c vaddr) as [i|] eqn:Et;
      [|destruct (iova_reserve_align ops) as [reserve|] eqn:Er]].
  1,2,4: unfold iommu_map_vaddr_align in Hrun;
    rewrite ?Efx, ?(bind_ret get _ c c c), ?Et, ?Er in Hrun by done;
    injection Hrun as <- <-; (split; [by exists ms|done]).
  rewrite (iommu_map_vaddr_align_unfold ops vaddr len align flags reserve) in Hrun by done.
  destruct Hmp as [?|Hmp]; [done|]. pose proof (region_free_intro _ _ _ _ Hok Hl Hmp) as Hf.
  eapply map_run_inv in Hrun as [? ?]; [done|done..|by apply law_map_align].
Qed.

Lemma mfind_perm ms v m : mfind ms v = Some m -> exists ms', ms ≡ₚ m :: ms'.
Proof.
  unfold mfind. intros [Hin _]%List.find_some. apply list_elem_of_In in Hin.
  apply list_elem_of_split in Hin as (l1 & l2 & ->). exists (l1 ++ l2). by rewrite Permutation_middle.
Qed.

Lemma unmap_vaddr_inv c vaddr r c' :
  ctx_inv c -> iommu_unmap_vaddr ops vaddr c = (r, c') -> ctx_inv c' /\ r <> Crash.
Proof.
  intros (ms & Hok & Hb) Hrun. pose proof (iommu_unmap_vaddr_spec ops c ms vaddr Hok) as Hu.
  destruct (mfind ms vaddr) as [m|] eqn:Ef.
  2: { rewrite Hu in Hrun. injection Hrun as <- <-. split; [by exists ms|done]. }
  destruct (mfind_perm _ _ _ Ef) as [ms' Hp]. rewrite Hp in Hb. pose proof (law_unmap _ _ _ Hb) as Hl.
  destruct (backend_unmap ops m (backend c)) as [[[]|e|] b]; [|..|done].
  - destruct Hu as (c1 & m1 & m2 & Hu & -> & Hok' & <-). rewrite Hu in Hrun. injection Hrun as <- <-.
    split; [|done]. eexists. split; [exact Hok'|]. rewrite <- Permutation_middle in Hp.
    apply Permutation_cons_inv in Hp. by rewrite Hp.
  - rewrite Hu in Hrun. injection Hrun as <- <-. split; [|done]. exists ms. split; [done|]. by rewrite Hp.
Qed.

Lemma unmap_all_inv c r c' :
  ctx_inv c -> dma_unmap_all ops <> None -> iommu_unmap_all ops c = (r, c') -> ctx_inv c' /\ r <> Crash.
Proof.
  intros (ms & Hok & Hb) Hall. unfold iommu_unmap_all. destruct (dma_unmap_all ops) as [ua|] eqn:Eu; [|done].
  pose proof (law_unmap_all _ _ _ Hb Eu) as Hl. unfold bind, on_backend, modify.
  destruct (ua (backend c)) as [[[]|e|] b]; [|..|done]; intros [= <- <-]; (split; [|done]).
  - exists []. split; [|done]. destruct Hok as [_ (ns & [Hc _ _])]. split; [done|]. exists [].
    split; [|constructor|constructor].
    change (skiplist_contents (fst (skiplist_clear_with (map_list (map c)) false)) []).
    rewrite (skiplist_clear_with_spec _ _ _ Hc). apply skiplist_init_contents.
  - by exists ms.
Qed.

Lemma ctx_step_inv c r c' : ctx_step c r c' -> ctx_inv c -> ctx_inv c' /\ r <> Crash.
Proof.
  intros Hs Hi. destruct Hs as
    [c vaddr len iova flags indet r c' Hmp Hfl Hrun|c vaddr len align flags r c' Hmp Hfl Hrun
    |c vaddr r c' Hrun|c r c' Hall Hrun].
  - destruct (map_vaddr_inv _ _ _ _ _ _ _ _ Hi Hmp Hfl Hrun). split; [done|by destruct r].
  - destruct (map_vaddr_align_inv _ _ _ _ _ _ _ Hi Hmp Hfl Hrun). split; [done|by destruct r].
  - destruct (unmap_vaddr_inv _ _ _ _ Hi Hrun). split; [done|by destruct r].
  - by apply (unmap_all_inv c).
Qed.

Lemma empty_map_ok : map_ok empty_map [].
Proof.
  split; [done|]. exists []. split; [apply skiplist_init_contents|constructor|constructor].
Qed.

(** Contexts a client can reach from a freshly initialised one. *)
Definition ctx_reachable c : Prop :=
  exists rands b, binv b [] /\
    rtc (fun c c' => exists r, ctx_step c r c') (iommu_ctx_init rands b) c.

Lemma ctx_reachable_inv c : ctx_reachable c -> ctx_inv c.
Proof.
  intros (rands & b & Hb & Hs).
  assert (ctx_inv (iommu_ctx_init rands b)) as Hi by (exists []; split; [apply empty_map_ok|done]).
  induction Hs as [|c1 c2 c3 [r Hr] _ IH]; [done|]. apply IH. by apply (ctx_step_inv c1 r).
Qed.

(** The reverse lookup finds the mapping of an I/O address, unless the memory
    before the sentinel claims it. *)
Lemma translate_iova_spec c ms sentinel m iova :
  map_ok (map c) ms -> apart (m_iv <$> ms) ->
  Forall (fun m => 0 <= m_iova m /\ m_iova m + m_len m <= UINT64_MAX) ms ->
  m ∈ ms -> m_iova m <= iova < m_iova m + m_len m ->
  iommu_translate_iova sentinel iova c =
    (Ret (reverse_of (if claims_iova sentinel iova then sentinel else m) iova), c).
Proof.
  intros [Hch (ns & [Hc Hn _])] Hap Hb Hm Hi. unfold iommu_translate_iova.
  rewrite (contents_for_each _ ns Hc). simpl. destruct (claims_iova sentinel iova); [done|].
  assert (translate_iova_loop (map_store (map c)) sentinel iova (Node <$> ns) = Some (reverse_of m iova)) as ->; [|done].
  pose proof (mchain_bounds _ _ Hch) as Hl. unfold UINT64_MAX in *. clear Hch Hc.
  induction Hn as [|n x ns ms Hx Hn IH]; [by apply elem_of_nil in Hm|].
  simpl in *. rewrite Hx. unfold claims_iova at 1. apply apart_cons in Hap as [Hd Hap]. apply Forall_cons in Hb as [Hbx Hb].
  apply Forall_cons in Hl as [Hlx Hl].
  rewrite u64_small by lia. apply elem_of_cons in Hm as [->|Hm].
  - by rewrite (proj2 (andb_true_iff _ _)) by (rewrite Z.leb_le, Z.ltb_lt; lia).
  - rewrite (proj2 (andb_false_iff _ _)); [by apply IH|]. rewrite Z.leb_gt, Z.ltb_ge.
    rewrite Forall_forall in Hd. specialize (Hd (m_iv m)). unfold disj in Hd. simpl in Hd.
    destruct Hd; [by apply list_elem_of_fmap_2|lia|lia].
Qed.

(** ** Properties *)

(** C3. [iommu_translate_vaddr] and [iommu_translate_iova] are inverse on every
    context a client can reach: the I/O address of a mapped virtual address
    translates back to that address, with the bytes that remain of the mapping,
    and that many bytes from it translate contiguously.  The one exception is
    exact: the walk starts with the sentinel of the list and reads the memory
    before it as a mapping; [sentinel] is whatever this memory holds, and an
    address it happens to claim is translated by it instead. *)
Theorem translate_roundtrip c sentinel v i :
  ctx_reachable c -> iommu_translate_vaddr c v = Some i ->
  exists rem, 0 < rem /\
    iommu_translate_iova sentinel i c =
      (Ret (if claims_iova sentinel i then reverse_of sentinel i else (v, rem)), c) /\
    forall k, 0 <= k < rem -> iommu_translate_vaddr c (v + k) = Some (i + k).
Proof.
  intros Hr Ht. destruct (ctx_reachable_inv _ Hr) as (ms & Hok & Hb).
  destruct (binv_iova _ _ Hb) as [Hap Hbd]. rewrite (translate_vaddr_spec _ _ _ Hok) in Ht.
  unfold translation in Ht. destruct (mfind ms v) as [m|] eqn:E; [|done]. simpl in Ht.
  unfold mfind in E. apply List.find_some in E as [Hin%list_elem_of_In Hv%in_mapping_spec].
  pose proof (map_ok_bounds _ _ Hok) as Hmb. rewrite Forall_forall in Hmb, Hbd.
  destruct (Hbd m Hin) as [Hi0 Hi1]. destruct (Hmb m Hin) as (Hv0 & Hv1 & Hv2).
  unfold m_end, UINT64_MAX in *. rewrite u64_small in Ht by lia. injection Ht as <-.
  exists (m_end m - v). unfold m_end. rewrite (translate_iova_spec c ms sentinel m); try done;
    [|by apply Forall_forall|lia].
  split; [lia|]. split.
  { destruct (claims_iova sentinel _); [done|]. unfold reverse_of. rewrite !u64_small by lia. do 3 f_equal; lia. }
  intros k Hk.
  rewrite (translate_vaddr_spec _ _ _ Hok). unfold translation.
  rewrite (mfind_in _ m _ (proj1 Hok) Hin) by (unfold m_end; lia).
  simpl. rewrite u64_small by lia. f_equal. lia.
Qed.
End Exec.

Section MapProperties.
Context {B : Type} (ops : iommu_ctx_ops B).
Implicit Types c : iommu_ctx B.

(** C6. [iommu_map_vaddr], with any backend.  For memory that is not mapped, a
    successful call makes exactly the addresses of the region translate, each to
    the returned I/O address plus its offset, and changes no other translation;
    a failed call changes no translation.  For an address within a mapping the
    call returns its translation and changes nothing. *)
Theorem iommu_map_vaddr_correct c ms vaddr len iova flags indet r c' :
  map_ok (map c) ms -> 0 <= vaddr -> 0 < len -> vaddr + len <= UINT64_MAX ->
  iommu_map_vaddr ops vaddr len iova flags indet c = (r, c') ->
  match iommu_translate_vaddr c vaddr with
  | Some i => r = Ret i /\ c' = c
  | None =>
      region_free ms vaddr len ->
      match r with
      | Ret i => forall v, iommu_translate_vaddr c' v =
          if (vaddr <=? v) && (v <? vaddr + len) then Some (u64 (i + (v - vaddr)))
          else iommu_translate_vaddr c v
      | _ => forall v, iommu_translate_vaddr c' v = iommu_translate_vaddr c v
      end
  end.
Proof.
  intros Hok Hv Hl Hm Hrun. destruct (iommu_translate_vaddr c vaddr) as [i|] eqn:Et.
  - unfold iommu_map_vaddr in Hrun. rewrite (bind_ret get _ c c c), Et in Hrun by done.
    by injection Hrun as <- <-.
  - intros Hf. rewrite iommu_map_vaddr_unfold in Hrun by done.
    pose proof (map_run_spec (backend_map ops vaddr len iova flags indet) c ms vaddr len flags
      Hok Hv Hl Hm Hf) as Hs.
    destruct (backend_map _ _ _ _ _ _ _) as [[i|e|] b]; [|rewrite Hs in Hrun; by injection Hrun as <- <-..].
    destruct Hs as (c1 & m1 & m2 & Hs & -> & Hok' & _). rewrite Hs in Hrun. injection Hrun as <- <-.
    intros v. rewrite (translate_vaddr_spec _ _ _ Hok'), (translate_vaddr_spec _ _ _ Hok).
    by rewrite translation_insert.
Qed.

(** C7. [iommu_unmap_vaddr], with any backend: for an address within a mapping a
    successful call returns the length of the mapping and removes the
    translation of exactly its addresses; for any other address the call fails
    with [ENOENT]; a failed call changes no translation. *)
Theorem iommu_unmap_vaddr_correct c ms vaddr r c' :
  map_ok (map c) ms -> iommu_unmap_vaddr ops vaddr c = (r, c') ->
  match mfind ms vaddr with
  | None => r = Fail ENOENT /\ c' = c
  | Some m =>
      match r with
      | Ret len => len = m_len m /\ forall v, iommu_translate_vaddr c' v =
          if in_mapping m v then None else iommu_translate_vaddr c v
      | _ => forall v, iommu_translate_vaddr c' v = iommu_translate_vaddr c v
      end
  end.
Proof.
  intros Hok Hrun. pose proof (iommu_unmap_vaddr_spec ops c ms vaddr Hok) as Hs.
  destruct (mfind ms vaddr) as [m|] eqn:E; [|rewrite Hs in Hrun; by injection Hrun as <- <-].
  destruct (backend_unmap _ _ _) as [[[]|e|] b]; [|rewrite Hs in Hrun; by injection Hrun as <- <-..].
  destruct Hs as (c1 & m1 & m2 & Hs & -> & Hok' & _). rewrite Hs in Hrun. injection Hrun as <- <-.
  split; [done|]. intros v. rewrite (translate_vaddr_spec _ _ _ Hok'), (translate_vaddr_spec _ _ _ Hok).
  destruct Hok as [Hc _]. destruct (in_mapping m v) eqn:Ev.
  - apply in_mapping_spec in Ev. unfold translation.
    pose proof (mchain_before _ _ _ _ Hc) as Hb. apply mchain_app in Hc as [_ (_ & _ & _ & Hc)].
    rewrite mfind_none; [done|]. apply Forall_app. split.
    + eapply Forall_impl; [exact Hb|]. intros x Hx. apply not_in_mapping. simpl in Hx. lia.
    + eapply Forall_impl; [exact (mchain_bounds _ _ Hc)|]. intros x (Hx & _). apply not_in_mapping. lia.
  - unfold translation. rewrite !mfind_app. unfold mfind at 4. simpl. by rewrite Ev.
Qed.
End MapProperties.

(** ** A backend for concrete runs: addresses handed out one after the other *)

Definition bump_ops : iommu_ctx_ops Z := {|
  iova_reserve := Some (fun len _ b => if b + len <=? UINT64_MAX then (Ret b, b + len) else (Fail ENOMEM, b));
  iova_reserve_align := None;
  iova_put_ephemeral := None;
  dma_map := fun _ _ iova _ => ret iova;
  dma_unmap := fun _ _ => ret tt;
  dma_unmap_all := Some (ret tt)
|}.

#[export] Instance bump_laws : BackendLaws bump_ops.
Proof.
  refine {| binv b ms := 0 <= b <= UINT64_MAX /\ apart (m_iv <$> ms) /\
    Forall (fun m => 0 <= m_iova m /\ 0 < m_len m /\ m_iova m + m_len m <= b) ms |}.
  - intros b ms ms' Hp. by rewrite Hp.
  - intros b ms (Hb & Ha & Hf). split; [done|]. eapply Forall_impl; [exact Hf|]. simpl. lia.
  - intros b ms vaddr len iova flags indet (Hb & Ha & Hf) Hl Hfx. unfold backend_map. rewrite Hfx.
    unfold bind, ret. simpl. destruct (Z.leb_spec (b + len) UINT64_MAX); [|done]. simpl.
    split; [lia|]. split.
    + apply apart_cons. split; [|done]. apply Forall_fmap. eapply Forall_impl; [exact Hf|].
      unfold disj. simpl. lia.
    + constructor; [simpl; lia|]. eapply Forall_impl; [exact Hf|]. simpl. lia.
  - done.
  - intros b m ms (Hb & Ha & Hf). simpl. apply apart_cons in Ha as [_ Ha]. by apply Forall_cons in Hf as [_ Hf].
  - intros b m ms (Hb & Ha & Hf). simpl. apply apart_cons in Ha as [_ Ha]. by apply Forall_cons in Hf as [_ Hf].
  - intros b ms ua (Hb & _) [= <-]. simpl. split; [done|]. split; constructor.
Defined.

Definition bump_ctx : iommu_ctx Z := iommu_ctx_init [] 0x10000.
Definition bump_ctx1 : iommu_ctx Z := snd (iommu_map_vaddr bump_ops 0x7f0000 0x2000 None 0 0 bump_ctx).

Lemma iommu_map_vaddr_correct_witness :
  iommu_translate_vaddr bump_ctx1 0x7f1234 = Some 0x11234 /\ iommu_translate_vaddr bump_ctx1 0x7f2000 = None.
Proof.
  pose proof (iommu_map_vaddr_correct bump_ops bump_ctx [] 0x7f0000 0x2000 None 0 0 (Ret 0x10000) bump_ctx1
    empty_map_ok ltac:(lia) ltac:(lia) ltac:(unfold UINT64_MAX; lia) ltac:(vm_compute; reflexivity)
    ltac:(constructor)) as H.
  split; [rewrite (H 0x7f1234)|rewrite (H 0x7f2000)]; reflexivity.
Defined.

Lemma bump_ctx1_ok : map_ok (map bump_ctx1) [mk_mapping 0x7f0000 0x2000 0x10000 0].
Proof.
  pose proof (map_run_spec (backend_map bump_ops 0x7f0000 0x2000 None 0 0) bump_ctx [] 0x7f0000 0x2000 0
    empty_map_ok ltac:(lia) ltac:(lia) ltac:(unfold UINT64_MAX; lia) ltac:(constructor)) as H.
  destruct (backend_map bump_ops 0x7f0000 0x2000 None 0 0 (backend bump_ctx)) as [o b] eqn:E.
  vm_compute in E. injection E as <- <-. destruct H as (c' & m1 & m2 & Hrun & Hm & Hok & _).
  symmetry in Hm. apply app_nil in Hm as [-> ->].
  assert (bump_ctx1 = c') as ->; [|done]. unfold bump_ctx1. by rewrite iommu_map_vaddr_unfold, Hrun.
Qed.

Lemma iommu_unmap_vaddr_correct_witness :
  iommu_translate_vaddr (snd (iommu_unmap_vaddr bump_ops 0x7f1000 bump_ctx1)) 0x7f0000 = None.
Proof.
  destruct (iommu_unmap_vaddr_correct bump_ops bump_ctx1 [mk_mapping 0x7f0000 0x2000 0x10000 0] 0x7f1000
    (Ret 0x2000) (snd (iommu_unmap_vaddr bump_ops 0x7f1000 bump_ctx1)) bump_ctx1_ok
    ltac:(vm_compute; reflexivity)) as [_ H].
  rewrite (H 0x7f0000). reflexivity.
Defined.

Lemma translate_roundtrip_witness :
  exists rem, 0 < rem /\
    iommu_translate_iova (mk_mapping 0x100 0 0 0) 0x11234 bump_ctx1 = (Ret (0x7f1234, rem), bump_ctx1) /\
    forall k, 0 <= k < rem -> iommu_translate_vaddr bump_ctx1 (0x7f1234 + k) = Some (0x11234 + k).
Proof.
  apply (translate_roundtrip bump_ops bump_ctx1 (mk_mapping 0x100 0 0 0) 0x7f1234 0x11234);
    [|vm_compute; reflexivity].
  exists [], 0x10000. split; [by repeat constructor|].
  eapply rtc_l; [|apply rtc_refl]. exists (Ret tt).
  apply (ctx_map bump_ops bump_ctx 0x7f0000 0x2000 None 0 0 (Ret 0x10000) bump_ctx1);
    [|reflexivity|vm_compute; reflexivity].
  split; [lia|]. split; [lia|]. split; [unfold UINT64_MAX; lia|]. right. intros v _.
  by rewrite (translate_vaddr_spec bump_ctx [] v empty_map_ok).
Defined.

(** Memory before the sentinel that claims an address hides the mapping of it. *)
Lemma sentinel_read_as_mapping :
  iommu_translate_vaddr bump_ctx1 0x7f1234 = Some 0x11234 /\
  iommu_translate_iova (mk_mapping 0x100 0x20000 0 0) 0x11234 bump_ctx1 = (Ret (0x11334, 0xedcc), bump_ctx1).
Proof. vm_compute. split; reflexivity. Qed.

(** ** Allocation at equal addresses *)

Section SameIova.
Context {page : PageSize} {B : Type} (ops : iommu_ctx_ops B).
Context (mmap_fixed : Z -> Z -> M B Z) (munmap : Z -> Z -> M B unit).
Implicit Types c : iommu_ctx B.

(** Retrying stops: every retry moves [iova_next_same] up by [len]. *)
Lemma alloc_same_loop_fuel fuel len indet c :
  0 < len <= 2 ^ 62 -> 0 <= iova_next_same c < 2 ^ 62 ->
  IOMMU_MAX_SAME_IOVA - iova_next_same c <= len * Z.of_nat fuel ->
  fst (alloc_same_loop ops mmap_fixed munmap (S fuel) len indet c) <> Ret None.
Proof.
  intros Hl. revert c. induction fuel as [|fuel IH]; intros c Hn Hf;
    cbn [alloc_same_loop]; rewrite (bind_ret get _ c c c) by done;
    rewrite u64_small by lia; (destruct (_ || _) eqn:E; [done|]);
    apply orb_false_iff in E as [_ E%Z.leb_gt].
  { exfalso. lia. }
  unfold bind at 1, try, on_backend.
  destruct (mmap_fixed (iova_next_same c) len (backend c)) as [[v|e|] b]; [| |done].
  - unfold bind. destruct (iommu_map_vaddr _ _ _ _ _ _ _) as [[i|e|] c1]; simpl; [done| |done].
    by destruct (munmap v len (backend c1)) as [[]].
  - assert (IOMMU_MAX_SAME_IOVA < 2 ^ 62) as Hmax by done.
    destruct e; try done. unfold bind, modify. apply IH; cbn [iova_next_same set_next_same set_backend];
      rewrite u64_small by lia; lia.
Qed.

(** The allocation lands above the previous ones and below the bound, and its
    addresses translate to themselves. *)
Lemma alloc_same_loop_spec fuel len indet c ms v c' :
  (forall a l b v b', mmap_fixed a l b = (Ret v, b') -> v = a) ->
  (forall va l i fl b i' b', flag_set fl IOMMU_MAP_FIXED_IOVA = true ->
     dma_map ops va l i fl b = (Ret i', b') -> i' = i) ->
  0 < len <= 2 ^ 62 -> map_ok (map c) ms -> 0 <= iova_next_same c < 2 ^ 62 ->
  Forall (fun m => m_end m <= iova_next_same c \/ IOMMU_MAX_SAME_IOVA <= m_vaddr m) ms ->
  alloc_same_loop ops mmap_fixed munmap fuel len indet c = (Ret (Some v), c') ->
  iova_next_same c <= v /\ v + len < IOMMU_MAX_SAME_IOVA /\
  forall w, iommu_translate_vaddr c' w =
    if (v <=? w) && (w <? v + len) then Some w else iommu_translate_vaddr c w.
Proof.
  intros Hmm Hfx Hl. revert c. induction fuel as [|fuel IH]; intros c Hok Hn Hfree; [done|].
  cbn [alloc_same_loop]. rewrite (bind_ret get _ c c c) by done. rewrite u64_small by lia.
  destruct (_ || _) eqn:E; [done|]. apply orb_false_iff in E as [_ E%Z.leb_gt].
  assert (IOMMU_MAX_SAME_IOVA < 2 ^ 62) as Hmax by done.
  unfold bind at 1, try, on_backend.
  destruct (mmap_fixed (iova_next_same c) len (backend c)) as [[v'|e|] b] eqn:Em; [| |done].
  - apply Hmm in Em as ->. set (c1 := set_backend b c).
    assert (region_free ms (iova_next_same c) len) as Hrf.
    { eapply Forall_impl; [exact Hfree|]. simpl. lia. }
    assert (iommu_translate_vaddr c1 (iova_next_same c) = None) as Ht.
    { rewrite (translate_vaddr_spec c1 ms) by done. eapply region_free_translation; [|done]. lia. }
    unfold bind at 1. rewrite iommu_map_vaddr_unfold by done.
    pose proof (map_run_spec (backend_map ops (iova_next_same c) len (Some (iova_next_same c))
      IOMMU_MAP_FIXED_IOVA indet) c1 ms (iova_next_same c) len IOMMU_MAP_FIXED_IOVA Hok) as Hs.
    destruct (backend_map _ _ _ _ _ _ _) as [[i|e|] b'] eqn:Eb.
    + assert (i = iova_next_same c) as -> by (unfold backend_map, bind in Eb; simpl in Eb; by apply Hfx in Eb).
      destruct Hs as (c2 & m1 & m2 & -> & -> & Hok' & _); [lia|lia|unfold UINT64_MAX; lia|done|].
      unfold modify, ret, bind. intros [= <- <-]. split; [lia|]. split; [done|]. intros w.
      rewrite (translate_vaddr_spec _ _ w Hok), (translate_vaddr_spec (set_next_same _ _) _ w Hok').
      rewrite translation_insert by done. unfold in_mapping, m_end. simpl.
      destruct (_ && _) eqn:Ew; [|done]. apply andb_true_iff in Ew as [?%Z.leb_le ?%Z.ltb_lt].
      rewrite u64_small by lia. f_equal. lia.
    + rewrite Hs by (done || unfold UINT64_MAX; lia). unfold bind.
      by destruct (munmap _ _ _) as [[]].
    + by rewrite Hs by (done || unfold UINT64_MAX; lia).
  - destruct e; try done. unfold bind, modify. intros Hrun.
    destruct (IH (set_next_same (u64 (iova_next_same c + len)) (set_backend b c))) as (H1 & H2 & H3);
      try done; cbn [iova_next_same set_next_same set_backend] in *; rewrite ?u64_small in * by lia.
    + lia.
    + eapply Forall_impl; [exact Hfree|]. simpl. lia.
    + split; [lia|]. done.
Qed.

End SameIova.

Definition bump_mmap_fixed (a l : Z) : M Z Z := ret a.


(** ** DMA buffers *)

Section Dmabuf.
Context {page : PageSize} {B : Type} (ops : iommu_ctx_ops B).
Context (mmap : Z -> M B Z) (munmap : Z -> Z -> M B unit).
Implicit Types c : iommu_ctx B.

(** A successful [iommu_get_dmabuf] is a [pgmap] followed by a successful
    [iommu_map_vaddr] of the pages. *)
Lemma get_dmabuf_inv buf len flags indet c buf' c' :
  iommu_get_dmabuf ops mmap munmap buf len flags indet c = (Ret (buf', None), c') ->
  let alen := ALIGN_UP len __VFN_PAGESIZE in
  exists v b i, mmap alen (backend c) = (Ret v, b) /\ buf' = mk_dmabuf v i alen /\
    iommu_map_vaddr ops v alen (Some (buf_iova buf)) flags indet (set_backend b c) = (Ret i, c').
Proof.
  unfold iommu_get_dmabuf, bind, try, on_backend, pgmap, bind, ret.
  set (alen := ALIGN_UP len __VFN_PAGESIZE).
  destruct (mmap alen (backend c)) as [[v|e|] b]; [|done..]. cbn [buf_iova buf_vaddr buf_len].
  destruct (iommu_map_vaddr _ _ _ _ _ _ _) as [[i|e|] c1] eqn:E.
  - intros [= <- <-]. exists v, b, i. done.
  - by destruct (pgunmap munmap v alen (backend c1)) as [[]].
  - done.
Qed.

(** Two lists of the same mappings translate alike. *)
Lemma translation_perm ms ms' c c' w :
  ms ≡ₚ ms' -> map_ok (map c) ms -> map_ok (map c') ms' ->
  iommu_translate_vaddr c w = iommu_translate_vaddr (B := B) c' w.
Proof using Type.
  intros Hp Hok Hok'. rewrite (translate_vaddr_spec _ _ w Hok), (translate_vaddr_spec _ _ w Hok').
  unfold translation. f_equal. destruct (mfind ms w) as [x|] eqn:E.
  - apply List.find_some in E as [Hx%list_elem_of_In Hw%in_mapping_spec].
    symmetry. apply (mfind_in _ _ _ (proj1 Hok')); [by rewrite <- Hp|done].
  - destruct (mfind ms' w) as [x|] eqn:E'; [|done].
    apply List.find_some in E' as [Hx%list_elem_of_In Hw%in_mapping_spec].
    rewrite <- Hp in Hx. by rewrite (mfind_in _ _ _ (proj1 Hok) Hx Hw) in E.
Qed.

(** A successful mapping of unmapped memory, and its removal later: only the
    backend may change in between. *)
Lemma map_then_unmap c ms vaddr len iova flags indet i c1 :
  map_ok (map c) ms -> 0 <= vaddr -> 0 < len -> vaddr + len <= UINT64_MAX -> region_free ms vaddr len ->
  iommu_map_vaddr ops vaddr len iova flags indet c = (Ret i, c1) ->
  (forall k, 0 <= k < len -> iommu_translate_vaddr c1 (vaddr + k) = Some (u64 (i + k))) /\
  (forall w, iommu_translate_vaddr c1 w =
     if (vaddr <=? w) && (w <? vaddr + len) then Some (u64 (i + (w - vaddr))) else iommu_translate_vaddr c w) /\
  (exists m1 m2, ms = m1 ++ m2 /\ map_ok (map c1) (m1 ++ mk_mapping vaddr len i flags :: m2)) /\
  forall c1' n c2, map c1' = map c1 -> iommu_unmap_vaddr ops vaddr c1' = (Ret n, c2) ->
    (exists ms', map_ok (map c2) ms' /\ ms ≡ₚ ms') /\
    forall w, iommu_translate_vaddr c2 w = iommu_translate_vaddr c w.
Proof using Type.
  clear mmap munmap.
  intros Hok Hv Hl Hmax Hrf Hmap. rewrite iommu_map_vaddr_unfold in Hmap.
  2: { rewrite (translate_vaddr_spec _ ms) by done. by eapply region_free_translation. }
  pose proof (map_run_spec (backend_map ops vaddr len iova flags indet) c ms vaddr len flags Hok Hv Hl Hmax Hrf) as Hs.
  destruct (backend_map _ _ _ _ _ _ _) as [[i'|e|] b']; [|rewrite Hs in Hmap; done..].
  destruct Hs as (c' & m1 & m2 & Hs & -> & Hok1 & _). rewrite Hs in Hmap. injection Hmap as -> ->.
  set (m := mk_mapping vaddr len i flags) in *. assert (m ∈ m1 ++ m :: m2) as Hin by set_solver.
  split.
  { intros k Hk. rewrite (translate_vaddr_spec _ _ _ Hok1). unfold translation.
    rewrite (mfind_in _ m _ (proj1 Hok1) Hin) by (unfold m_end; simpl; lia). simpl. do 2 f_equal. lia. }
  split.
  { intros w. rewrite (translate_vaddr_spec _ _ w Hok1), (translate_vaddr_spec _ _ w Hok).
    rewrite (translation_insert m1 m2 m w) by exact Hrf. done. }
  split; [by exists m1, m2|].
  intros c1' n c2 Em Hu'. assert (map_ok (map c1') (m1 ++ m :: m2)) as Hok1' by (by rewrite Em).
  pose proof (iommu_unmap_vaddr_spec ops c1' _ vaddr Hok1') as Hu.
  rewrite (mfind_in _ m _ (proj1 Hok1) Hin) in Hu by (unfold m_end; simpl; lia).
  destruct (backend_unmap _ _ _) as [[[]|e|] b'']; [|rewrite Hu in Hu'; done..].
  destruct Hu as (c' & n1 & n2 & Hu & Hms & Hok2 & _). rewrite Hu in Hu'. injection Hu' as _ <-.
  assert (n1 ++ n2 ≡ₚ m1 ++ m2) as Hp.
  { symmetry. apply (Permutation_cons_inv (a := m)). by rewrite !Permutation_middle, Hms. }
  split; [by exists (n1 ++ n2)|]. intros w. by apply (translation_perm (n1 ++ n2) (m1 ++ m2)).
Qed.

(** A DMA buffer is mapped while it is held and leaves no trace when it is
    put: after a successful [iommu_get_dmabuf] every byte of the buffer
    translates to the buffer's I/O address plus its offset; if the later
    [iommu_put_dmabuf] returns, the buffer is zeroed and every translation is
    what it was before the buffer was obtained. *)
Theorem dmabuf_lifecycle buf len flags indet c ms buf' c1 c2 buf2 :
  map_ok (map c) ms -> 0 < ALIGN_UP len __VFN_PAGESIZE ->
  (forall l b v b', mmap l b = (Ret v, b') -> 0 <= v /\ v + l <= UINT64_MAX /\ region_free ms v l) ->
  iommu_get_dmabuf ops mmap munmap buf len flags indet c = (Ret (buf', None), c1) ->
  iommu_put_dmabuf ops munmap buf' c1 = (Ret buf2, c2) ->
  (forall k, 0 <= k < buf_len buf' ->
     iommu_translate_vaddr c1 (buf_vaddr buf' + k) = Some (u64 (buf_iova buf' + k))) /\
  buf2 = zero_dmabuf /\ (forall v, iommu_translate_vaddr c2 v = iommu_translate_vaddr c v).
Proof.
  intros Hok Hl Hmm Hget Hput. apply get_dmabuf_inv in Hget as (v & b & i & Hm & -> & Hmap).
  set (alen := ALIGN_UP len __VFN_PAGESIZE) in *. destruct (Hmm _ _ _ _ Hm) as (Hv & Hmax & Hrf).
  destruct (map_then_unmap (set_backend b c) ms v alen (Some (buf_iova buf)) flags indet i c1 Hok Hv Hl Hmax Hrf Hmap)
    as (Htr & _ & _ & Hback).
  split; [exact Htr|]. unfold iommu_put_dmabuf in Hput. simpl in Hput. destruct (Z.eqb_spec alen 0); [lia|].
  unfold bind at 1, fatal_if in Hput. destruct (iommu_unmap_vaddr ops v c1) as [[n'|e|] c'] eqn:Hu; [|done..].
  destruct (Hback c1 n' c' eq_refl Hu) as [_ Hsame].
  unfold bind, on_backend, ret in Hput. destruct (pgunmap _ _ _ _) as [[[]|e|] b3]; [|done..].
  injection Hput as <- <-. split; [done|]. intros w. apply (Hsame w).
Qed.
End Dmabuf.

Definition bump_get : (outcome (iommu_dmabuf * option errno)) * iommu_ctx Z :=
  @iommu_get_dmabuf page_4k Z bump_ops (fun _ => ret 0x7f0000) (fun _ _ => ret tt)
    zero_dmabuf 0x1800 0 0 bump_ctx.

(** Memory at one address, for one size. *)
Definition bump_mmap (l : Z) : M Z Z := fun b => if l =? 0x2000 then (Ret 0x7f0000, b) else (Fail ENOMEM, b).

Lemma bump_mmap_free l b v b' :
  bump_mmap l b = (Ret v, b') -> 0 <= v /\ v + l <= UINT64_MAX /\ region_free [] v l.
Proof.
  unfold bump_mmap. destruct (Z.eqb_spec l 0x2000) as [->|]; intros E; simplify_eq.
  split; [lia|]. split; [unfold UINT64_MAX; lia|constructor].
Qed.

Lemma dmabuf_lifecycle_witness :
  iommu_translate_vaddr (snd bump_get) (0x7f0000 + 0x1fff) = Some (u64 (0x10000 + 0x1fff)).
Proof.
  apply (@dmabuf_lifecycle page_4k Z bump_ops bump_mmap (fun _ _ => ret tt)
    zero_dmabuf 0x1800 0 0 bump_ctx [] (mk_dmabuf 0x7f0000 0x10000 0x2000) (snd bump_get)
    (snd (@iommu_put_dmabuf Z bump_ops (fun _ _ => ret tt) (mk_dmabuf 0x7f0000 0x10000 0x2000) (snd bump_get)))
    zero_dmabuf empty_map_ok ltac:(vm_compute; reflexivity) bump_mmap_free
    ltac:(vm_compute; reflexivity) ltac:(vm_compute; reflexivity)).
  simpl. lia.
Defined.

(** When [iommu_get_dmabuf] fails to map, the buffer keeps its length and
    address, so the automatic cleanup of the buffer ends the process. *)
Lemma failed_dmabuf_cleanup_aborts :
  let get := @iommu_get_dmabuf page_4k Z bump_ops (fun _ => ret 0x7f0000) (fun _ _ => ret tt)
    zero_dmabuf 0x1800 0 0 (iommu_ctx_init [] UINT64_MAX) in
  fst get = Ret (mk_dmabuf 0x7f0000 0 0x2000, Some ENOMEM) /\
  fst (@iommu_put_dmabuf Z bump_ops (fun _ _ => ret tt) (mk_dmabuf 0x7f0000 0 0x2000) (snd get)) = Crash.
Proof. vm_compute. done. Qed.

(** Only the first address of a new mapping is checked against the others: a
    region whose end overlaps a mapping is accepted, and the addresses they
    share then translate through the new one. *)
Lemma overlapping_tail_accepted :
  let c2 := snd (iommu_map_vaddr bump_ops 0x7ef000 0x2000 None 0 0 bump_ctx1) in
  iommu_translate_vaddr bump_ctx1 0x7f0000 = Some 0x10000 /\
  iommu_translate_vaddr c2 0x7f0000 = Some 0x13000.
Proof. vm_compute. done. Qed.
