(* ===== verification/VfioDma.v ===== *)
(** * VfioDma: the vfio backend of the mapping layer

    [struct iommu_ctx_ops vfio_ops] (src/iommu/vfio.c): the address operations
    of [VfioIova] and the map/unmap ioctls.  The type 1 IOMMU driver of the
    kernel is the class [VfioKernel]: its ioctls with what their documentation
    says of the table of mappings it keeps.  The backend discharges the contract
    [BackendLaws], so what [Dma] proves of a context holds of a vfio container. *)

From S2P Require Import Prelude Support Skiplist IovaAlloc VfioIova Dma.
Local Open Scope Z_scope.
Local Open Scope vfn_scope.

Definition VFIO_DMA_MAP_FLAG_READ : Z := Z.shiftl 1 0.
Definition VFIO_DMA_MAP_FLAG_WRITE : Z := Z.shiftl 1 1.

(** The mappings of the kernel: address, size, virtual address. *)
Class VfioKernel (K : Type) : Type := {
  (** [ioctl(fd, VFIO_IOMMU_MAP_DMA, {vaddr, size, iova, flags})] *)
  k_map_dma : Z -> Z -> Z -> Z -> M K unit;
  (** [ioctl(fd, VFIO_IOMMU_UNMAP_DMA, {iova, size})] *)
  k_unmap_dma : Z -> Z -> M K unit;
  (** the same with [VFIO_DMA_UNMAP_FLAG_ALL] *)
  k_unmap_all : M K unit;
  k_table : K -> list (Z * Z * Z);
  k_map_law k vaddr size iova flags :
    match k_map_dma vaddr size iova flags k with
    | (Ret _, k') => k_table k' ≡ₚ (iova, size, vaddr) :: k_table k
    | (Fail _, k') => k_table k' ≡ₚ k_table k
    | (Crash, _) => False
    end;
  k_unmap_law k iova size vaddr t :
    k_table k ≡ₚ (iova, size, vaddr) :: t ->
    match k_unmap_dma iova size k with
    | (Ret _, k') => k_table k' ≡ₚ t
    | (Fail _, k') => k_table k' ≡ₚ k_table k
    | (Crash, _) => False
    end;
  k_unmap_all_law k :
    match k_unmap_all k with
    | (Ret _, k') => k_table k' = []
    | (Fail _, k') => k_table k' ≡ₚ k_table k
    | (Crash, _) => False
    end
}.

(** The part of a container its address-space operations use, the kernel
    behind its descriptor, and the random draws of new free-list nodes. *)
Record vfio_backend (K : Type) : Type := mk_backend {
  vb_alloc : iova_allocator;
  vb_rands : list (list bool);
  vb_kernel : K
}.
Arguments mk_backend {K}.
Arguments vb_alloc {K}.
Arguments vb_rands {K}.
Arguments vb_kernel {K}.

Section Ops.
Context {page : PageSize} {K : Type} {kernel : VfioKernel K}.

Definition on_alloc {A} (m : M iova_allocator A) : M (vfio_backend K) A := fun b =>
  let '(r, a) := m (vb_alloc b) in (r, mk_backend a (vb_rands b) (vb_kernel b)).
Definition on_kernel {A} (m : M K A) : M (vfio_backend K) A := fun b =>
  let '(r, k) := m (vb_kernel b) in (r, mk_backend (vb_alloc b) (vb_rands b) k).
Definition draw_level : M (vfio_backend K) (list bool) := fun b =>
  match vb_rands b with
  | [] => (Ret [], b)
  | r :: rs => (Ret r, mk_backend (vb_alloc b) rs (vb_kernel b))
  end.

Definition vfio_iommu_type1_do_dma_map (vaddr len iova flags : Z) : M (vfio_backend K) Z :=
  let fl := Z.lor VFIO_DMA_MAP_FLAG_READ VFIO_DMA_MAP_FLAG_WRITE in
  let fl := if flag_set flags IOMMU_MAP_NOWRITE then Z.land fl (Z.lnot VFIO_DMA_MAP_FLAG_WRITE) else fl in
  let fl := if flag_set flags IOMMU_MAP_NOREAD then Z.land fl (Z.lnot VFIO_DMA_MAP_FLAG_READ) else fl in
  if negb (ALIGNED (Z.lor (Z.lor vaddr len) iova) __VFN_PAGESIZE) then fail EINVAL
  else
    do* on_kernel (k_map_dma vaddr len iova fl) in
    ret iova.

Definition vfio_iommu_type1_do_dma_unmap (iova len : Z) : M (vfio_backend K) unit :=
  do* on_kernel (k_unmap_dma iova len) in
  let* rands := draw_level in
  on_alloc (vfio_iova_put iova len rands).

Definition vfio_iommu_type1_do_dma_unmap_all : M (vfio_backend K) unit :=
  do* on_kernel k_unmap_all in
  on_alloc clear_free_iovas.

Definition vfio_ops : iommu_ctx_ops (vfio_backend K) := {|
  iova_reserve := Some (fun len flags => on_alloc (vfio_iommu_type1_iova_reserve len flags));
  iova_reserve_align := Some (fun len align _ =>
    let* r1 := draw_level in
    let* r2 := draw_level in
    on_alloc (vfio_iommu_type1_iova_reserve_align len align r1 r2));
  iova_put_ephemeral := Some (on_alloc vfio_iommu_type1_iova_put_ephemeral);
  dma_map := vfio_iommu_type1_do_dma_map;
  dma_unmap := vfio_iommu_type1_do_dma_unmap;
  dma_unmap_all := Some vfio_iommu_type1_do_dma_unmap_all
|}.

(** ** The invariant of the backend *)

Definition is_ephemeral (m : iova_mapping) : Prop := flag_set (m_flags m) IOMMU_MAP_EPHEMERAL = true.
Definition live_of (ms : list iova_mapping) : list (Z * Z) := m_iv <$> filter (fun m => ~ is_ephemeral m) ms.
Definition eph_of (ms : list iova_mapping) : list (Z * Z) := m_iv <$> filter is_ephemeral ms.

(** The kernel maps exactly [ms]; the allocator has their addresses handed out,
    besides those that failed calls lost ([ll], [le]). *)
Definition vfio_inv (b : vfio_backend K) (ms : list iova_mapping) : Prop :=
  (exists ll le, bounded_inv (vb_alloc b) (ll ++ live_of ms) (le ++ eph_of ms)) /\
  k_table (vb_kernel b) ≡ₚ m_entry <$> ms.

Lemma window_inv_perm a eph eph' : eph ≡ₚ eph' -> window_inv a eph -> window_inv a eph'.
Proof.
  intros Hp [H1 H2 H3 H4 [H5 H6]]. split; try done; [by rewrite <- Hp..|].
  rewrite <- (Permutation_length Hp). split; [done|].
  destruct H6 as [->|?]; [left; by apply Permutation_nil in Hp|by right].
Qed.

Lemma bounded_inv_perm a live live' eph eph' :
  live ≡ₚ live' -> eph ≡ₚ eph' -> bounded_inv a live eph -> bounded_inv a live' eph'.
Proof. intros Hl He [[Hf Hw] Hb]. split; [|done]. split; [by rewrite <- Hl|by eapply window_inv_perm]. Qed.

Lemma live_of_cons m ms :
  live_of (m :: ms) = (if decide (is_ephemeral m) then [] else [m_iv m]) ++ live_of ms /\
  eph_of (m :: ms) = (if decide (is_ephemeral m) then [m_iv m] else []) ++ eph_of ms.
Proof.
  unfold live_of, eph_of. destruct (decide (is_ephemeral m)).
  - by rewrite filter_cons_False, filter_cons_True by tauto.
  - by rewrite filter_cons_True, filter_cons_False by tauto.
Qed.

#[global] Instance vfio_inv_perm b : Proper ((≡ₚ) ==> iff) (vfio_inv b).
Proof.
  assert (forall ms ms', ms ≡ₚ ms' -> vfio_inv b ms -> vfio_inv b ms') as H.
  { intros ms ms' Hp [(ll & le & Hi) Ht]. split; [|by rewrite <- Hp]. exists ll, le.
    eapply bounded_inv_perm; [..|exact Hi]; unfold live_of, eph_of; by rewrite Hp. }
  intros ms ms' Hp. split; apply H; [done|by symmetry].
Qed.

(** ** Crash freedom of the allocator *)

Lemma reserve_total a live eph len flags :
  bounded_inv a live eph -> 0 < len -> fst (vfio_iommu_type1_iova_reserve len flags a) <> Crash.
Proof.
  intros [[Hf _] _] Hlen. unfold vfio_iommu_type1_iova_reserve.
  destruct (ALIGNED len _); simpl; [|done]. destruct (flag_set _ _).
  - unfold bind, get, modify, ret. by destruct (__iova_reserve _ _ _) as [[]|].
  - destruct (fi_free _ _ Hf) as (rs & Hok & _).
    destruct (get_free_spec _ _ _ Hok Hlen) as [[Hg _]|(r & fl' & rs' & Hg & _)].
    + rewrite (bind_ret _ _ _ _ _ (on_free_same _ _ _ Hg)). unfold bind, get, modify, ret.
      by destruct (__iova_reserve _ _ _) as [[]|].
    + by rewrite (bind_ret _ _ _ _ _ (on_free_run _ _ _ _ Hg)).
Qed.

Lemma reserve_align_total a live eph len align r1 r2 :
  bounded_inv a live eph -> 0 < len -> fst (vfio_iommu_type1_iova_reserve_align len align r1 r2 a) <> Crash.
Proof.
  intros [[Hf _] _] Hlen. unfold vfio_iommu_type1_iova_reserve_align.
  destruct (ALIGNED len _); simpl; [|done]. destruct (_ || _); [done|].
  destruct (fi_free _ _ Hf) as (rs & Hok & _).
  destruct (get_free_align_spec _ _ _ align r1 r2 Hok Hlen) as [Hg|(r & fl' & rs' & Hg & _)].
  - rewrite (bind_ret _ _ _ _ _ (on_free_same _ _ _ Hg)). unfold bind, get, modify, ret.
    by destruct (__iova_reserve_align _ _ _ _) as [[]|].
  - by rewrite (bind_ret _ _ _ _ _ (on_free_run _ _ _ _ Hg)).
Qed.

(** ** The laws *)

(** The second half of a mapping call: the kernel maps the reserved address... *)
Lemma dma_map_table b vaddr len i flags :
  match vfio_iommu_type1_do_dma_map vaddr len i flags b with
  | (Ret i', b') => i' = i /\ vb_alloc b' = vb_alloc b /\
      k_table (vb_kernel b') ≡ₚ (i, len, vaddr) :: k_table (vb_kernel b)
  | (Fail _, b') => vb_alloc b' = vb_alloc b /\ k_table (vb_kernel b') ≡ₚ k_table (vb_kernel b)
  | (Crash, _) => False
  end.
Proof.
  unfold vfio_iommu_type1_do_dma_map. destruct (ALIGNED _ _); simpl; [|done]. unfold bind, on_kernel, ret.
  match goal with |- context [k_map_dma vaddr len i ?f (vb_kernel b)] =>
    pose proof (k_map_law (vb_kernel b) vaddr len i f) as Hk; destruct (k_map_dma vaddr len i f _) as [[[]|e|] k'] end;
    done.
Qed.

(** ... or the address is lost. *)
Lemma do_dma_map_inv b ms vaddr len i flags :
  (exists ll le, bounded_inv (vb_alloc b) (ll ++ live_of (mk_mapping vaddr len i flags :: ms))
     (le ++ eph_of (mk_mapping vaddr len i flags :: ms))) ->
  k_table (vb_kernel b) ≡ₚ m_entry <$> ms ->
  match vfio_iommu_type1_do_dma_map vaddr len i flags b with
  | (Ret i', b') => i' = i /\ vfio_inv b' (mk_mapping vaddr len i flags :: ms)
  | (Fail _, b') => vfio_inv b' ms
  | (Crash, _) => False
  end.
Proof.
  intros (ll & le & Hi) Ht. unfold vfio_iommu_type1_do_dma_map.
  assert (vfio_inv b ms) as Hlost.
  { split; [|done]. destruct (live_of_cons (mk_mapping vaddr len i flags) ms) as [El Ee].
    rewrite El, Ee in Hi. do 2 eexists. rewrite !(assoc_L (++)) in Hi. exact Hi. }
  pose proof (dma_map_table b vaddr len i flags) as Hd. unfold vfio_iommu_type1_do_dma_map in Hd.
  match goal with |- match ?r with _ => _ end => destruct r as [[i'|e|] b'] end; [| |done].
  - destruct Hd as (-> & Ea & Ek). split; [done|]. split; [exists ll, le; by rewrite Ea|]. by rewrite Ek, Ht.
  - destruct Hd as [Ea Ek], Hlost as [H1 _]. split; [by rewrite Ea|]. by rewrite Ek.
Qed.

Lemma vfio_law_map b ms vaddr len iova flags indet :
  vfio_inv b ms -> 0 < len -> flag_set flags IOMMU_MAP_FIXED_IOVA = false ->
  match backend_map vfio_ops vaddr len iova flags indet b with
  | (Ret i, b') => vfio_inv b' (mk_mapping vaddr len i flags :: ms)
  | (Fail _, b') => vfio_inv b' ms
  | (Crash, _) => False
  end.
Proof.
  intros [(ll & le & Hi) Ht] Hl Hfx. unfold backend_map. rewrite Hfx. simpl.
  unfold bind, on_alloc. pose proof (reserve_total _ _ _ _ flags Hi Hl) as Htot.
  destruct (vfio_iommu_type1_iova_reserve len flags (vb_alloc b)) as [[i|e|] a'] eqn:E; [| |done].
  - assert (exists ll le, bounded_inv a' (ll ++ live_of (mk_mapping vaddr len i flags :: ms))
      (le ++ eph_of (mk_mapping vaddr len i flags :: ms))) as Hnew.
    { destruct (live_of_cons (mk_mapping vaddr len i flags) ms) as [-> ->]. exists ll, le.
      unfold is_ephemeral. simpl. destruct (decide _) as [Efl|Efl].
      - pose proof (reserve_ephemeral_bounded _ _ _ _ _ _ _ Hi Hl Efl E) as Hr.
        eapply bounded_inv_perm; [..|exact Hr]; perm.
      - apply not_true_is_false in Efl. pose proof (reserve_bounded _ _ _ _ _ _ _ Hi Hl Efl E) as Hr.
        eapply bounded_inv_perm; [..|exact Hr]; perm. }
    pose proof (do_dma_map_inv (mk_backend a' (vb_rands b) (vb_kernel b)) ms vaddr len i flags Hnew Ht) as Hd.
    destruct (vfio_iommu_type1_do_dma_map _ _ _ _ _) as [[i'|e|] b']; [|done..]. by destruct Hd as [-> Hd].
  - assert (a' = vb_alloc b) as -> by (eapply reserve_fail; [exact (proj1 (proj1 Hi))|done|exact E]).
    split; [by exists ll, le|done].
Qed.

(** Drawing random levels touches neither the allocator nor the kernel. *)
Lemma draw_one {A} (f : list bool -> M (vfio_backend K) A) b :
  exists b1 r, vb_alloc b1 = vb_alloc b /\ vb_kernel b1 = vb_kernel b /\ bind draw_level f b = f r b1.
Proof.
  unfold bind, draw_level. destruct b as [a [|x l] k]; simpl;
    [by exists (mk_backend a [] k), []|by exists (mk_backend a l k), x].
Qed.
Lemma draw_two {A} (f : list bool -> list bool -> M (vfio_backend K) A) b :
  exists b1 r1 r2, vb_alloc b1 = vb_alloc b /\ vb_kernel b1 = vb_kernel b /\
    bind draw_level (fun r1 => bind draw_level (f r1)) b = f r1 r2 b1.
Proof.
  destruct (draw_one (fun r1 => bind draw_level (f r1)) b) as (b1 & r1 & Ea & Ek & ->).
  destruct (draw_one (f r1) b1) as (b2 & r2 & Ea' & Ek' & ->). exists b2, r1, r2. by rewrite Ea', Ek'.
Qed.

Lemma vfio_law_map_align b ms vaddr len align flags reserve :
  vfio_inv b ms -> 0 < len -> iova_reserve_align vfio_ops = Some reserve ->
  flag_set flags IOMMU_MAP_FIXED_IOVA = false -> flag_set flags IOMMU_MAP_EPHEMERAL = false ->
  match backend_map_align vfio_ops reserve vaddr len align flags b with
  | (Ret i, b') => vfio_inv b' (mk_mapping vaddr len i flags :: ms)
  | (Fail _, b') => vfio_inv b' ms
  | (Crash, _) => False
  end.
Proof.
  intros [(ll & le & Hi) Ht] Hl [= <-] Hfx Hep. unfold backend_map_align.
  destruct (draw_two (fun r1 r2 => on_alloc (vfio_iommu_type1_iova_reserve_align len align r1 r2)) b)
    as (b1 & r1 & r2 & Ea & Ek & Eq).
  unfold bind at 1. rewrite Eq. rewrite <- Ea in Hi. rewrite <- Ek in Ht. clear Eq Ea Ek b.
  unfold on_alloc. pose proof (reserve_align_total _ _ _ _ align r1 r2 Hi Hl) as Htot.
  destruct (vfio_iommu_type1_iova_reserve_align len align r1 r2 (vb_alloc b1)) as [[i|e|] a'] eqn:E; [| |done].
  - assert (exists ll le, bounded_inv a' (ll ++ live_of (mk_mapping vaddr len i flags :: ms))
      (le ++ eph_of (mk_mapping vaddr len i flags :: ms))) as Hnew.
    { destruct (live_of_cons (mk_mapping vaddr len i flags) ms) as [-> ->]. exists ll, le.
      unfold is_ephemeral. simpl. rewrite Hep. simpl.
      pose proof (reserve_align_bounded _ _ _ _ _ _ _ _ _ Hi Hl E) as Hr.
      eapply bounded_inv_perm; [..|exact Hr]; perm. }
    pose proof (do_dma_map_inv (mk_backend a' (vb_rands b1) (vb_kernel b1)) ms vaddr len i flags Hnew Ht) as Hd.
    simpl. destruct (vfio_iommu_type1_do_dma_map _ _ _ _ _) as [[i'|e|] b']; [|done..]. by destruct Hd as [-> Hd].
  - assert (a' = vb_alloc b1) as -> by (eapply reserve_align_fail; [exact (proj1 (proj1 Hi))|done|exact E]).
    split; [by exists ll, le|done].
Qed.

(** The kernel part of an unmap, and the return of the address. *)
Lemma kernel_unmap b m ms :
  k_table (vb_kernel b) ≡ₚ m_entry <$> m :: ms ->
  match k_unmap_dma (m_iova m) (m_len m) (vb_kernel b) with
  | (Ret _, k') => k_table k' ≡ₚ m_entry <$> ms
  | (Fail _, k') => k_table k' ≡ₚ m_entry <$> m :: ms
  | (Crash, _) => False
  end.
Proof.
  intros Ht. pose proof (k_unmap_law (vb_kernel b) _ _ _ _ Ht) as Hk.
  destruct (k_unmap_dma _ _ _) as [[[]|e|] k']; [done| |done]. by rewrite Hk.
Qed.

Lemma do_dma_unmap_run b m k' :
  k_unmap_dma (m_iova m) (m_len m) (vb_kernel b) = (Ret tt, k') ->
  exists rands rs, vfio_iommu_type1_do_dma_unmap (m_iova m) (m_len m) b =
    on_alloc (vfio_iova_put (m_iova m) (m_len m) rands) (mk_backend (vb_alloc b) rs k').
Proof.
  intros Hk. unfold vfio_iommu_type1_do_dma_unmap, bind, on_kernel, draw_level. rewrite Hk.
  destruct b as [a [|x l] k]; simpl; [by exists [], []|by exists x, l].
Qed.

(** Unmapping a mapping that is not ephemeral returns its address. *)
Lemma unmap_live b m ms ll le k' :
  ~ is_ephemeral m ->
  bounded_inv (vb_alloc b) (ll ++ live_of (m :: ms)) (le ++ eph_of (m :: ms)) ->
  k_unmap_dma (m_iova m) (m_len m) (vb_kernel b) = (Ret tt, k') -> k_table k' ≡ₚ m_entry <$> ms ->
  exists b', vfio_iommu_type1_do_dma_unmap (m_iova m) (m_len m) b = (Ret tt, b') /\ vfio_inv b' ms.
Proof.
  intros He Hi Hk Ht. destruct (do_dma_unmap_run b m k' Hk) as (rands & rs & ->).
  destruct (live_of_cons m ms) as [El Ee]. rewrite !decide_False in El, Ee by done. simpl in El, Ee.
  rewrite El, Ee in Hi. destruct (put_bounded _ _ _ _ _ _ rands Hi) as (a' & Hput & Hi').
  unfold on_alloc. simpl. rewrite Hput. eexists. split; [done|]. split; [|done].
  exists ll, le. done.
Qed.

Lemma vfio_law_unmap b m ms :
  vfio_inv b (m :: ms) ->
  match backend_unmap vfio_ops m b with
  | (Ret _, b') => vfio_inv b' ms
  | (Fail _, b') => vfio_inv b' (m :: ms)
  | (Crash, _) => False
  end.
Proof.
  intros [(ll & le & Hi) Ht]. pose proof (kernel_unmap b m ms Ht) as Hk.
  unfold backend_unmap. simpl. unfold bind at 1.
  destruct (k_unmap_dma (m_iova m) (m_len m) (vb_kernel b)) as [[[]|e|] k'] eqn:Ek; [| |done].
  2: { unfold vfio_iommu_type1_do_dma_unmap, bind, on_kernel. rewrite Ek. split; [by exists ll, le|done]. }
  destruct (decide (is_ephemeral m)) as [He|He].
  - rewrite He. unfold when. destruct (do_dma_unmap_run b m k' Ek) as (rands & rs & ->).
    destruct (live_of_cons m ms) as [El Ee]. rewrite !decide_True in El, Ee by done. simpl in El, Ee.
    rewrite El, Ee in Hi. destruct (unmap_ephemeral_bounded _ _ _ _ _ _ rands Hi) as (a' & Hput & Hi').
    unfold unmap_ephemeral, bind in Hput. unfold on_alloc. simpl.
    destruct (vfio_iova_put _ _ _ _) as [[[]|e|] a1]; [|done..]. simpl. rewrite Hput.
    split; [by exists ll, le|done].
  - destruct (unmap_live _ _ _ _ _ _ He Hi Ek Hk) as (b' & -> & Hb). unfold is_ephemeral in He.
    apply not_true_is_false in He. by rewrite He.
Qed.

Lemma vfio_law_dma_unmap b m ms :
  vfio_inv b (m :: ms) ->
  match dma_unmap vfio_ops (m_iova m) (m_len m) b with
  | (Ret _, b') => vfio_inv b' ms
  | (Fail _, b') => vfio_inv b' (m :: ms)
  | (Crash, _) => False
  end.
Proof.
  intros [(ll & le & Hi) Ht]. pose proof (kernel_unmap b m ms Ht) as Hk. simpl.
  destruct (k_unmap_dma (m_iova m) (m_len m) (vb_kernel b)) as [[[]|e|] k'] eqn:Ek; [| |done].
  2: { unfold vfio_iommu_type1_do_dma_unmap, bind, on_kernel. rewrite Ek. split; [by exists ll, le|done]. }
  destruct (decide (is_ephemeral m)) as [He|He].
  - destruct (do_dma_unmap_run b m k' Ek) as (rands & rs & ->).
    destruct (live_of_cons m ms) as [El Ee]. rewrite !decide_True in El, Ee by done. simpl in El, Ee.
    rewrite El, Ee in Hi. unfold on_alloc, vfio_iova_put, bind, get. simpl.
    assert ((r_start (ephemerals (vb_alloc b)) <=? m_iova m) && (m_iova m <=? r_last (ephemerals (vb_alloc b)))
      = true) as ->.
    { destruct Hi as [[_ [_ [Hn _] Hf _ _]] _]. apply Forall_app in Hf as [_ Hf].
      apply Forall_cons in Hf as [(? & ? & ? & _)%id _]. simpl in *. rewrite andb_true_iff, !Z.leb_le. lia. }
    simpl. split; [|done]. exists ll, (le ++ [m_iv m]). by rewrite <- (assoc_L (++)).
  - by destruct (unmap_live _ _ _ _ _ _ He Hi Ek Hk) as (b' & -> & Hb).
Qed.

Lemma vfio_law_unmap_all b ms unmap_all :
  vfio_inv b ms -> dma_unmap_all vfio_ops = Some unmap_all ->
  match unmap_all b with
  | (Ret _, b') => vfio_inv b' []
  | (Fail _, b') => vfio_inv b' ms
  | (Crash, _) => False
  end.
Proof.
  intros [(ll & le & Hi) Ht] [= <-]. unfold vfio_iommu_type1_do_dma_unmap_all, bind, on_kernel, on_alloc.
  pose proof (k_unmap_all_law (vb_kernel b)) as Hk.
  destruct (k_unmap_all (vb_kernel b)) as [[[]|e|] k']; [| |done].
  - destruct (clear_bounded _ _ _ Hi) as (a' & Hc & Hi'). cbn [vb_alloc vb_rands vb_kernel]. rewrite Hc.
    split; [|by simpl; rewrite Hk]. exists [], (le ++ eph_of ms). simpl. by rewrite app_nil_r.
  - split; [by exists ll, le|]. simpl. by rewrite Hk.
Qed.

Lemma vfio_inv_iova b ms :
  vfio_inv b ms ->
  apart (m_iv <$> ms) /\ Forall (fun m => 0 <= m_iova m /\ m_iova m + m_len m <= UINT64_MAX) ms.
Proof.
  intros [(ll & le & [[[Hwf _ Hbusy Hap] [(Hw1 & Hw2 & _) [Hn _] He Hea _]] _]) _].
  apply apart_cons in Hap as [Hdis Hap]. apply Forall_cons in Hbusy as [_ Hbusy].
  apply Forall_app in Hbusy as [_ Hbusy]. apply Forall_app in Hdis as [_ Hdis].
  apply Forall_app in He as [_ He]. pose proof (wf_next _ Hwf) as [Hnx _].
  assert (apart (live_of ms ++ eph_of ms)) as Hall.
  { unfold apart in *. rewrite StronglySorted_app in Hap, Hea. rewrite StronglySorted_app.
    split_and!; [|by destruct_and!..]. intros i j Hi Hj. rewrite Forall_forall in Hdis, He, Hbusy.
    specialize (Hdis i Hi). destruct (He j Hj) as (? & ? & ? & _). destruct (Hbusy i Hi) as (_ & ? & _).
    unfold disj, window in *. simpl in *. lia. }
  assert (live_of ms ++ eph_of ms ≡ₚ m_iv <$> ms) as Hp.
  { clear. induction ms as [|m ms IH]; [done|]. destruct (live_of_cons m ms) as [-> ->].
    rewrite fmap_cons, <- IH. destruct (decide (is_ephemeral m)); simpl; perm. }
  split; [by rewrite <- Hp|].
  assert (Forall (fun i => 0 <= i.1 /\ i.1 + i.2 <= UINT64_MAX) (m_iv <$> ms)) as Hb.
  { rewrite <- Hp. apply Forall_app. split.
    - eapply Forall_impl; [exact Hbusy|]. intros i (? & ? & ? & _). lia.
    - eapply Forall_impl; [exact He|]. intros i (? & ? & ? & _). lia. }
  by rewrite Forall_fmap in Hb.
Qed.

(** The vfio backend keeps the contract of the mapping layer. *)
#[global] Instance vfio_laws : BackendLaws vfio_ops := {|
  binv := vfio_inv;
  binv_perm := vfio_inv_perm;
  binv_iova := vfio_inv_iova;
  law_map := vfio_law_map;
  law_map_align := vfio_law_map_align;
  law_unmap := vfio_law_unmap;
  law_dma_unmap := vfio_law_dma_unmap;
  law_unmap_all := vfio_law_unmap_all
|}.

(** A container whose address space was just initialised, with ranges none of
    which ends at [UINT64_MAX]. *)
Definition vfio_fresh (ranges : list iommu_iova_range) (b : vfio_backend K) : Prop :=
  valid_ranges ranges /\ ends_below ranges /\ Forall (fun r => r_start r mod __VFN_PAGESIZE = 0) ranges /\
  reserve_ephemerals (new_allocator ranges) = (Ret tt, vb_alloc b) /\ k_table (vb_kernel b) = [].

Lemma vfio_fresh_inv ranges b : vfio_fresh ranges b -> vfio_inv b [].
Proof.
  intros (Hv & Hb & Hp & Hi & Ht). split; [|by rewrite Ht]. exists [], []. by eapply init_bounded.
Qed.

(** C1. End to end: a vfio container, none of whose ranges reaches the last byte
    of the address space, used through [iommu_map_vaddr], [iommu_map_vaddr_align], [iommu_unmap_vaddr] and [iommu_unmap_all] (by a
    client that leaves the addresses to the library) keeps its map, its address
    allocator and the kernel's table in agreement.  The process never ends in a
    call; every entry of the kernel's table translates, byte by byte, as the
    table says, and every translation is in the table; and no two entries share
    an I/O address. *)
Theorem vfio_context_coherent ranges rands b c :
  vfio_fresh ranges b ->
  rtc (fun c c' => exists r, ctx_step vfio_ops c r c') (iommu_ctx_init rands b) c ->
  (forall r c', ctx_step vfio_ops c r c' -> r <> Crash) /\
  (forall v i, iommu_translate_vaddr c v = Some i <->
     exists iova len vaddr, (iova, len, vaddr) ∈ k_table (vb_kernel (backend c)) /\
       vaddr <= v < vaddr + len /\ i = iova + (v - vaddr)) /\
  apart ((fun e => (e.1.1, e.1.2)) <$> k_table (vb_kernel (backend c))).
Proof.
  intros Hf Hs. assert (ctx_inv vfio_ops c) as Hi.
  { apply ctx_reachable_inv. exists rands, b. split; [by eapply vfio_fresh_inv|done]. }
  split; [intros r c' Hst; by apply (ctx_step_inv vfio_ops c r c')|].
  destruct Hi as (ms & Hok & Hb). destruct (binv_iova _ _ Hb) as [Hap Hbd].
  destruct Hb as [_ Ht]. split.
  - intros v i. by eapply table_translation.
  - rewrite Ht, <- list_fmap_compose. exact Hap.
Qed.
End Ops.

(** ** Concrete runs: a kernel that records its table *)

Definition at_iova (iova size : Z) (e : Z * Z * Z) : Prop := e.1 = (iova, size).
#[export] Instance at_iova_dec iova size e : Decision (at_iova iova size e).
Proof. unfold at_iova. apply _. Defined.

Definition table_map (vaddr size iova flags : Z) : M (list (Z * Z * Z)) unit :=
  modify (fun t => (iova, size, vaddr) :: t).
Definition table_unmap (iova size : Z) : M (list (Z * Z * Z)) unit := fun t =>
  match filter (at_iova iova size) t with
  | [_] => (Ret tt, filter (fun e => ~ at_iova iova size e) t)
  | _ => (Fail EINVAL, t)
  end.

Lemma table_unmap_law t iova size vaddr t' :
  t ≡ₚ (iova, size, vaddr) :: t' ->
  match table_unmap iova size t with
  | (Ret _, k) => k ≡ₚ t'
  | (Fail _, k) => k ≡ₚ t
  | (Crash, _) => False
  end.
Proof.
  intros Hp. unfold table_unmap.
  assert (filter (at_iova iova size) t ≡ₚ (iova, size, vaddr) :: filter (at_iova iova size) t') as Hf
    by (rewrite Hp, filter_cons_True by done; done).
  destruct (filter (at_iova iova size) t) as [|e [|e' l]]; try done.
  apply Permutation_length in Hf. simpl in Hf.
  assert (filter (at_iova iova size) t' = []) as Hnil by (apply nil_length_inv; lia).
  rewrite Hp, filter_cons_False by (intros Hne; by apply Hne). rewrite filter_all; [done|].
  apply Forall_forall. intros x Hx Hat. assert (x ∈ filter (at_iova iova size) t') as Hin
    by (by apply list_elem_of_filter). rewrite Hnil in Hin. by apply elem_of_nil in Hin.
Qed.

#[export] Instance table_kernel : VfioKernel (list (Z * Z * Z)).
Proof.
  refine {| k_map_dma := table_map; k_unmap_dma := table_unmap; k_unmap_all := put []; k_table t := t |}.
  - intros k vaddr size iova flags. simpl. reflexivity.
  - intros k iova size vaddr t. apply table_unmap_law.
  - intros k. reflexivity.
Defined.

Definition demo_backend : vfio_backend (list (Z * Z * Z)) := mk_backend demo0 [] [].
Definition demo_ctx0 : iommu_ctx (vfio_backend (list (Z * Z * Z))) := iommu_ctx_init [] demo_backend.
Definition demo_ctx1 : iommu_ctx (vfio_backend (list (Z * Z * Z))) :=
  snd (iommu_map_vaddr (@vfio_ops page_4k _ _) 0x7f0000 0x2000 None 0 0 demo_ctx0).
Definition demo_ctx2 : iommu_ctx (vfio_backend (list (Z * Z * Z))) :=
  snd (iommu_map_vaddr (@vfio_ops page_4k _ _) 0x7e0000 0x1000 None IOMMU_MAP_EPHEMERAL 0 demo_ctx1).

Lemma demo_ctx0_free v : iommu_translate_vaddr demo_ctx0 v = None.
Proof. by rewrite (translate_vaddr_spec demo_ctx0 [] v empty_map_ok). Qed.

Lemma demo_ctx1_free v : v < 0x7f0000 -> iommu_translate_vaddr demo_ctx1 v = None.
Proof.
  intros Hv. pose proof (map_run_spec (backend_map (@vfio_ops page_4k _ _) 0x7f0000 0x2000 None 0 0) demo_ctx0 []
    0x7f0000 0x2000 0 empty_map_ok ltac:(lia) ltac:(lia) ltac:(unfold UINT64_MAX; lia) ltac:(constructor)) as H.
  destruct (backend_map _ 0x7f0000 0x2000 None 0 0 (backend demo_ctx0)) as [o b] eqn:E.
  vm_compute in E. injection E as <- <-. destruct H as (c' & m1 & m2 & Hrun & Hm & Hok & _).
  symmetry in Hm. apply app_nil in Hm as [-> ->].
  assert (demo_ctx1 = c') as -> by (unfold demo_ctx1; by rewrite iommu_map_vaddr_unfold, Hrun).
  rewrite (translate_vaddr_spec c' _ v Hok). unfold translation, mfind. simpl.
  rewrite not_in_mapping; [done|]. simpl. lia.
Qed.

Lemma demo_fresh : @vfio_fresh page_4k _ table_kernel demo_ranges demo_backend.
Proof.
  split; [apply demo_ranges_ok|]. split; [apply demo_ranges_ok|]. split; [apply demo_ranges_ok|]. split; [vm_compute; reflexivity|reflexivity].
Qed.

Lemma demo_ctx2_reachable :
  rtc (fun c c' => exists r, ctx_step (@vfio_ops page_4k _ _) c r c') (iommu_ctx_init [] demo_backend) demo_ctx2.
Proof.
  eapply rtc_l.
  - exists (Ret tt). apply (ctx_map _ demo_ctx0 0x7f0000 0x2000 None 0 0 (Ret 0x20000) demo_ctx1);
        [|reflexivity|vm_compute; reflexivity].
      split; [lia|]. split; [lia|]. split; [unfold UINT64_MAX; lia|]. right. intros v _. apply demo_ctx0_free.
  - eapply rtc_l; [|apply rtc_refl]. exists (Ret tt).
      apply (ctx_map _ demo_ctx1 0x7e0000 0x1000 None IOMMU_MAP_EPHEMERAL 0 (Ret 0x10000) demo_ctx2);
        [|reflexivity|vm_compute; reflexivity].
      split; [lia|]. split; [lia|]. split; [unfold UINT64_MAX; lia|]. right. intros v Hv.
      apply demo_ctx1_free. lia.
Qed.

Lemma vfio_context_coherent_witness :
  apart ((fun e => (e.1.1, e.1.2)) <$> k_table (vb_kernel (backend demo_ctx2))) /\
  k_table (vb_kernel (backend demo_ctx2)) = [(0x10000, 0x1000, 0x7e0000); (0x20000, 0x2000, 0x7f0000)].
Proof.
  split; [|vm_compute; reflexivity].
  apply (@vfio_context_coherent page_4k _ table_kernel demo_ranges [] demo_backend demo_ctx2); [apply demo_fresh|apply demo_ctx2_reachable].
Defined.
