(* ===== verification/VfioThreads.v ===== *)
(** * VfioThreads: threads that map and unmap through one vfio container

    [Dma] and [VfioDma] take a call as one step.  Threads interleave within a
    call: the map of a context has a read-write lock ([map->lock], src/iommu/dma.c),
    the address allocator a mutex ([vfio->lock], src/iommu/vfio.c), the counter of
    ephemeral mappings is atomic, and an ioctl is atomic in the kernel, but no
    lock is held from one of these to the next.  Here a call is the sequence of
    its critical sections, a thread is the point it has reached, and a system is
    a list of threads over a context; any thread may take the next step.

    [run_alone] ties the steps to the calls: without interference they compute
    what the functions of [Dma] compute.  [vfio_threads_coherent] shows what holds
    when threads stay off each other's regions.  [race_on_one_address] and
    [ephemeral_window_race] show two interleavings that go wrong without that. *)

From S2P Require Import Prelude Support Skiplist IovaAlloc VfioIova Dma VfioDma.
Local Open Scope Z_scope.
Local Open Scope vfn_scope.

(** What a thread can call. *)
Inductive call : Type :=
| CMap (vaddr len : Z) (iova : option Z) (flags : Z)
| CMapAlign (vaddr len align flags : Z)
| CUnmap (vaddr : Z).

(** Where a thread is: the critical section it enters next, with its local
    variables, or the result of its last call.  A mapping found by a lookup is a
    pointer: the name [i] of the structure and what it holds. *)
Inductive pc : Type :=
| Done (r : outcome Z)
| MapReserve (align : option Z) (vaddr len flags : Z)
| MapDma (vaddr len flags iova : Z)
| MapAdd (vaddr len flags iova : Z)
| UnmapDma (i : nat) (m : iova_mapping)
| UnmapPut (i : nat) (m : iova_mapping)
| UnmapDec (i : nat) (m : iova_mapping)
| UnmapRecycle (i : nat) (m : iova_mapping)
| UnmapRemove (i : nat) (m : iova_mapping)
| UnmapFree (i : nat) (m : iova_mapping).

Section Threads.
Context {page : PageSize} {K : Type} {kernel : VfioKernel K}.
Abbreviation ctx := (iommu_ctx (vfio_backend K)).

(** A critical section: on success the thread goes on at [next], otherwise the
    call ends. *)
Definition section {A} (m : M ctx A) (next : A -> pc) (c : ctx) : pc * ctx :=
  match m c with
  | (Ret a, c') => (next a, c')
  | (Fail e, c') => (Done (Fail e), c')
  | (Crash, c') => (Done Crash, c')
  end.

(** The first section of a call: the lookup, under the read lock. *)
Definition start (cl : call) (c : ctx) : pc :=
  match cl with
  | CMap vaddr len iova flags =>
      match iommu_translate_vaddr c vaddr with
      | Some i => Done (Ret i)
      | None =>
          if flag_set flags IOMMU_MAP_FIXED_IOVA then
            match iova with Some i => MapDma vaddr len flags i | None => Done Crash end
          else MapReserve None vaddr len flags
      end
  | CMapAlign vaddr len align flags =>
      if flag_set flags IOMMU_MAP_FIXED_IOVA then Done (Fail EINVAL)
      else match iommu_translate_vaddr c vaddr with
      | Some i => Done (Ret i)
      | None => MapReserve (Some align) vaddr len flags
      end
  | CUnmap vaddr =>
      match iova_map_find (map c) vaddr with
      | None => Done (Fail ENOENT)
      | Some (i, m) => UnmapDma i m
      end
  end.

Definition dec_ephemerals : M iova_allocator Z :=
  do* modify (fun a => set_nephemerals (u64 (nephemerals a - 1)) a) in gets nephemerals.

(** The next section. *)
Definition step (p : pc) (c : ctx) : pc * ctx :=
  match p with
  | Done r => (Done r, c)
  | MapReserve align vaddr len flags =>
      section (on_backend match align with
        | None => on_alloc (vfio_iommu_type1_iova_reserve len flags)
        | Some align =>
            let* r1 := draw_level in
            let* r2 := draw_level in
            on_alloc (vfio_iommu_type1_iova_reserve_align len align r1 r2)
        end) (MapDma vaddr len flags) c
  | MapDma vaddr len flags iova =>
      section (on_backend (vfio_iommu_type1_do_dma_map vaddr len iova flags)) (MapAdd vaddr len flags) c
  | MapAdd vaddr len flags iova =>
      section (let* rands := draw in on_map (iova_map_add vaddr len iova flags rands))
        (fun _ => Done (Ret iova)) c
  | UnmapDma i m =>
      section (on_backend (on_kernel (k_unmap_dma (m_iova m) (m_len m)))) (fun _ => UnmapPut i m) c
  | UnmapPut i m =>
      section (on_backend (let* rands := draw_level in on_alloc (vfio_iova_put (m_iova m) (m_len m) rands)))
        (fun _ => if flag_set (m_flags m) IOMMU_MAP_EPHEMERAL then UnmapDec i m else UnmapRemove i m) c
  | UnmapDec i m =>
      section (on_backend (on_alloc dec_ephemerals))
        (fun n => if n =? 0 then UnmapRecycle i m else UnmapRemove i m) c
  | UnmapRecycle i m =>
      section (on_backend (on_alloc vfio_iommu_type1_recycle_ephemeral_iovas)) (fun _ => UnmapRemove i m) c
  | UnmapRemove i m =>
      section (on_map (iova_map_remove (m_vaddr m))) (fun _ => UnmapFree i m) c
  | UnmapFree i m =>
      section (free_mapping i) (fun _ => Done (Ret (m_len m))) c
  end.

(** A thread on its own. *)
Fixpoint steps (n : nat) (p : pc) (c : ctx) : pc * ctx :=
  match n with
  | O => (p, c)
  | S n => let '(p', c') := step p c in steps n p' c'
  end.

(** The call as one function, of [Dma]. *)
Definition whole_call (cl : call) : M ctx Z :=
  match cl with
  | CMap vaddr len iova flags => iommu_map_vaddr vfio_ops vaddr len iova flags 0
  | CMapAlign vaddr len align flags => iommu_map_vaddr_align vfio_ops vaddr len align flags
  | CUnmap vaddr => iommu_unmap_vaddr vfio_ops vaddr
  end.

Lemma steps_Done n r c : steps n (Done r) c = (Done r, c).
Proof. induction n; done. Qed.

Definition ended (r : outcome Z * ctx) : pc * ctx := (Done (fst r), snd r).

(** A section and the rest of the call. *)
Lemma steps_bind {A} n p (m : M ctx A) next (k : A -> M ctx Z) c :
  step p c = section m next c -> (forall a c', steps n (next a) c' = ended (k a c')) ->
  steps (S n) p c = ended (bind m k c).
Proof.
  intros Hs Hk. simpl. rewrite Hs. unfold section, bind.
  destruct (m c) as [[a|e|] c1]; [apply Hk|by rewrite steps_Done..].
Qed.

Lemma run_MapAdd n vaddr len flags i c :
  steps (1 + n) (MapAdd vaddr len flags i) c =
  ended ((let* rands := draw in do* on_map (iova_map_add vaddr len i flags rands) in ret i) c).
Proof.
  rewrite bind_assoc. eapply steps_bind; [done|]. intros a c'. apply steps_Done.
Qed.

Lemma run_MapDma n vaddr len flags i c :
  steps (2 + n) (MapDma vaddr len flags i) c =
  ended ((let* i := on_backend (vfio_iommu_type1_do_dma_map vaddr len i flags) in
          let* rands := draw in do* on_map (iova_map_add vaddr len i flags rands) in ret i) c).
Proof. eapply steps_bind; [done|]. intros a c'. apply run_MapAdd. Qed.

Lemma run_UnmapRemove n i m c :
  steps (2 + n) (UnmapRemove i m) c =
  ended ((do* on_map (iova_map_remove (m_vaddr m)) in do* free_mapping i in ret (m_len m)) c).
Proof.
  eapply steps_bind; [done|]. intros [] c1. eapply steps_bind; [done|]. intros [] c2. apply steps_Done.
Qed.

(** The ephemeral counter and the recycling are one call of the backend. *)
Lemma run_UnmapDec n i m c :
  steps (4 + n) (UnmapDec i m) c =
  ended ((do* on_backend (on_alloc vfio_iommu_type1_iova_put_ephemeral) in
          do* on_map (iova_map_remove (m_vaddr m)) in do* free_mapping i in ret (m_len m)) c).
Proof.
  transitivity (ended ((let* n := on_backend (on_alloc dec_ephemerals) in
    if n =? 0 then do* on_backend (on_alloc vfio_iommu_type1_recycle_ephemeral_iovas) in
      do* on_map (iova_map_remove (m_vaddr m)) in do* free_mapping i in ret (m_len m)
    else do* on_map (iova_map_remove (m_vaddr m)) in do* free_mapping i in ret (m_len m)) c)).
  - eapply steps_bind; [done|]. intros x c1. cbn beta. destruct (x =? 0); [|apply (run_UnmapRemove (S n))].
    eapply steps_bind; [done|]. intros [] c2. apply run_UnmapRemove.
  - unfold bind at 1 4, on_backend, on_alloc, dec_ephemerals, vfio_iommu_type1_iova_put_ephemeral, bind, gets, modify, when, ret.
    cbn -[u64]. by destruct (_ =? 0).
Qed.

(** Without interference the sections of a call compute what the call computes. *)
Theorem run_alone cl c : steps 7 (start cl c) c = ended (whole_call cl c).
Proof.
  destruct cl as [vaddr len iova flags|vaddr len align flags|vaddr]; cbn [start whole_call].
  - unfold iommu_map_vaddr. rewrite (bind_ret get _ c c c) by done.
    destruct (iommu_translate_vaddr c vaddr); [by rewrite steps_Done|].
    destruct (flag_set flags IOMMU_MAP_FIXED_IOVA).
    + destruct iova as [i|]; [|by rewrite steps_Done]. apply (run_MapDma 5).
    + eapply steps_bind; [done|]. intros i c1. apply (run_MapDma 4).
  - unfold iommu_map_vaddr_align. destruct (flag_set flags IOMMU_MAP_FIXED_IOVA); [by rewrite steps_Done|].
    rewrite (bind_ret get _ c c c) by done. destruct (iommu_translate_vaddr c vaddr); [by rewrite steps_Done|].
    eapply steps_bind; [done|]. intros i c1. apply (run_MapDma 4).
  - unfold iommu_unmap_vaddr. rewrite (bind_ret get _ c c c) by done.
    destruct (iova_map_find (map c) vaddr) as [[i m]|]; [|by rewrite steps_Done].
    transitivity (ended ((do* on_backend (on_kernel (k_unmap_dma (m_iova m) (m_len m))) in
      do* on_backend (let* rands := draw_level in on_alloc (vfio_iova_put (m_iova m) (m_len m) rands)) in
      do* when (flag_set (m_flags m) IOMMU_MAP_EPHEMERAL) (on_backend (on_alloc vfio_iommu_type1_iova_put_ephemeral)) in
      do* on_map (iova_map_remove (m_vaddr m)) in do* free_mapping i in ret (m_len m)) c)).
    + eapply steps_bind; [done|]. intros [] c1. eapply steps_bind; [done|]. intros [] c2. cbn beta.
      destruct (flag_set (m_flags m) IOMMU_MAP_EPHEMERAL); [apply (run_UnmapDec 1)|].
      rewrite (run_UnmapRemove 3). by unfold bind at 4, when, ret.
    + f_equal. simpl. rewrite bind_assoc. apply bind_ext. rewrite on_backend_bind. done.
Qed.

(** ** Systems of threads *)

(** The virtual region a call under way works on. *)
Definition region_of (p : pc) : option (Z * Z) :=
  match p with
  | Done _ => None
  | MapReserve _ vaddr len _ | MapDma vaddr len _ _ | MapAdd vaddr len _ _ => Some (vaddr, len)
  | UnmapDma _ m | UnmapPut _ m | UnmapDec _ m | UnmapRecycle _ m | UnmapRemove _ m | UnmapFree _ m =>
      Some (m_vaddr m, m_len m)
  end.

(** No call under way touches [vaddr, vaddr + len). *)
Definition quiet (pcs : list pc) (vaddr len : Z) : Prop :=
  Forall (fun p => match region_of p with Some r => disj (vaddr, len) r | None => True end) pcs.

(** What a client keeps to: as for one thread (memory that is not mapped, or an
    address within a mapping; the choice of I/O addresses left to the library), no
    ephemeral mappings, and regions on which no other call is under way. *)
Definition allowed (pcs : list pc) (cl : call) (c : ctx) : Prop :=
  match cl with
  | CMap vaddr len _ flags =>
      mappable c vaddr len /\ quiet pcs vaddr len /\
      flag_set flags IOMMU_MAP_FIXED_IOVA = false /\ flag_set flags IOMMU_MAP_EPHEMERAL = false
  | CMapAlign vaddr len _ flags =>
      mappable c vaddr len /\ quiet pcs vaddr len /\ flag_set flags IOMMU_MAP_EPHEMERAL = false
  | CUnmap vaddr => quiet pcs vaddr 1
  end.

Inductive sys_step : list pc * ctx -> list pc * ctx -> Prop :=
| sys_start pcs t r cl c :
    pcs !! t = Some (Done r) -> allowed pcs cl c -> sys_step (pcs, c) (<[t := start cl c]> pcs, c)
| sys_run pcs t p p' c c' :
    pcs !! t = Some p -> step p c = (p', c') -> sys_step (pcs, c) (<[t := p']> pcs, c').

(** ** The invariant *)

(** What a call under way holds: a node still in the map, an entry of the
    kernel's table, a reserved address, a region it will add, a node it will free. *)
Definition tab (p : pc) : list (nat * iova_mapping) :=
  match p with
  | UnmapDma i m | UnmapPut i m | UnmapDec i m | UnmapRecycle i m | UnmapRemove i m => [(i, m)]
  | _ => []
  end.
Definition ker (p : pc) : list iova_mapping :=
  match p with
  | MapAdd vaddr len flags iova => [mk_mapping vaddr len iova flags]
  | UnmapDma _ m => [m]
  | _ => []
  end.
Definition res (p : pc) : list iova_mapping :=
  match p with
  | MapDma vaddr len flags iova | MapAdd vaddr len flags iova => [mk_mapping vaddr len iova flags]
  | UnmapDma _ m | UnmapPut _ m => [m]
  | _ => []
  end.
Definition claim (p : pc) : list (Z * Z) :=
  match p with
  | MapReserve _ vaddr len _ | MapDma vaddr len _ _ | MapAdd vaddr len _ _ => [(vaddr, len)]
  | _ => []
  end.
Definition fr (p : pc) : list nat := match p with UnmapFree i _ => [i] | _ => [] end.

Definition plain (flags : Z) : Prop := flag_set flags IOMMU_MAP_EPHEMERAL = false.

Definition pc_ok (p : pc) : Prop :=
  match p with
  | Done r => r <> Crash
  | MapReserve _ vaddr len flags | MapDma vaddr len flags _ | MapAdd vaddr len flags _ =>
      plain flags /\ 0 <= vaddr /\ 0 < len /\ vaddr + len <= UINT64_MAX
  | UnmapDma _ m | UnmapPut _ m | UnmapRemove _ m | UnmapFree _ m => plain (m_flags m)
  | UnmapDec _ _ | UnmapRecycle _ _ => False
  end.

(** [P]: the nodes of the map in order, with what they hold; [act]: those no call
    under way works on. *)
Record sys_rep (pcs : list pc) (c : ctx) (P act : list (nat * iova_mapping)) : Prop := {
  si_chain : mchain 0 P.*2;
  si_rep : map_rep (map c) P.*1 P.*2;
  si_tab : P ≡ₚ act ++ (pcs ≫= tab);
  si_ker : k_table (vb_kernel (backend c)) ≡ₚ m_entry <$> (act.*2 ++ (pcs ≫= ker));
  si_res : exists ll le, bounded_inv (vb_alloc (backend c)) (ll ++ (m_iv <$> (act.*2 ++ (pcs ≫= res)))) le;
  si_act : Forall (fun m => plain (m_flags m)) act.*2;
  si_pcs : Forall pc_ok pcs;
  si_apart : apart (pcs ≫= claim);
  si_claim : Forall (fun r => region_free P.*2 r.1 r.2) (pcs ≫= claim);
  si_free : Forall (fun i => (i ∉ P.*1) /\ (i < map_fresh (map c))%nat) (pcs ≫= fr)
}.
Definition sys_inv (pcs : list pc) (c : ctx) : Prop := exists P act, sys_rep pcs c P act.

Lemma sys_inv_perm pcs pcs' c : pcs ≡ₚ pcs' -> sys_inv pcs c -> sys_inv pcs' c.
Proof.
  intros Hp (P & act & [H1 H2 H3 H4 (ll & le & H5) H6 H7 H8 H9 H10]). exists P, act. split; rewrite <- ?Hp; try done.
  exists ll, le. eapply bounded_inv_perm; [|done|exact H5]. by rewrite <- Hp.
Qed.

(** ** Nodes and what they hold *)

Lemma pairs_split (P : list (nat * iova_mapping)) n1 n2 m1 m2 :
  P.*1 = n1 ++ n2 -> P.*2 = m1 ++ m2 -> length n1 = length m1 ->
  exists P1 P2, P = P1 ++ P2 /\ P1.*1 = n1 /\ P2.*1 = n2 /\ P1.*2 = m1 /\ P2.*2 = m2.
Proof.
  intros E1 E2 El. apply fmap_app_inv in E1 as (P1 & P2 & -> & -> & ->).
  rewrite fmap_app in E2. apply app_inj_1 in E2 as [<- <-]; [|by rewrite !length_fmap in *].
  by exists P1, P2.
Qed.

Lemma find_pair mp P v i m :
  mchain 0 P.*2 -> map_rep mp P.*1 P.*2 -> iova_map_find mp v = Some (i, m) ->
  exists P1 P2, P = P1 ++ (i, m) :: P2 /\ m_vaddr m <= v < m_end m.
Proof.
  intros Hc Hr Hf. destruct (iova_map_remove_named _ _ _ _ _ _ Hc Hr Hf)
    as (mp' & n1 & n2 & m1 & m2 & _ & E1 & E2 & El & Hv & _).
  destruct (pairs_split P n1 (i :: n2) m1 (m :: m2) E1 E2 El) as (P1 & P2 & -> & _ & Hn & _ & Hm).
  destruct P2 as [|[j x] P2]; [done|]. simpl in *. simplify_eq. by exists P1, P2.
Qed.

Lemma pair_find mp P i m :
  mchain 0 P.*2 -> map_rep mp P.*1 P.*2 -> (i, m) ∈ P -> iova_map_find mp (m_vaddr m) = Some (i, m).
Proof.
  intros Hc Hr Hin. pose proof (mchain_bounds _ _ Hc) as Hb.
  assert (m ∈ P.*2) as Hm by (by apply (list_elem_of_fmap_2 snd _ (i, m))).
  rewrite Forall_forall in Hb. specialize (Hb m Hm).
  pose proof (iova_map_find_spec mp P.*2 (m_vaddr m) (conj Hc (ex_intro _ _ Hr))) as Hs.
  rewrite (mfind_in _ m) in Hs by (done || (unfold m_end in *; lia)).
  destruct (iova_map_find mp (m_vaddr m)) as [[j x]|] eqn:E; [|done]. simpl in Hs. simplify_eq.
  destruct (find_pair mp P _ _ _ Hc Hr E) as (P1 & P2 & -> & _). do 2 f_equal.
  rewrite fmap_app, fmap_cons in Hc. simpl in Hc. pose proof (mchain_before _ _ _ _ Hc) as Hbf.
  apply mchain_app in Hc as [_ (_ & Hl & _ & Hc)]. pose proof (mchain_bounds _ _ Hc) as Hb2.
  apply elem_of_app in Hin as [Hin|[Hin|Hin]%elem_of_cons]; [exfalso| by simplify_eq|exfalso].
  - apply (list_elem_of_fmap_2 snd) in Hin. rewrite Forall_forall in Hbf. specialize (Hbf _ Hin). simpl in Hbf.
    unfold m_end in *. lia.
  - apply (list_elem_of_fmap_2 snd) in Hin. clear -Hl Hc Hin. revert Hin. simpl.
    assert (forall lo ms, mchain lo ms -> m ∈ ms -> lo <= m_vaddr m) as H.
    { intros lo ms. revert lo. induction ms as [|y ms IH]; intros lo Hc' Hx; [by apply elem_of_nil in Hx|].
      destruct Hc' as (Hlo & Hly & _ & Hc'). apply elem_of_cons in Hx as [->|Hx]; [done|].
      specialize (IH _ Hc' Hx). unfold m_end in IH. lia. }
    intros Hin. specialize (H _ _ Hc Hin). unfold m_end in H. lia.
Qed.

Lemma pairs_nodup mp (P : list (nat * iova_mapping)) : map_rep mp P.*1 P.*2 -> NoDup P.*1.
Proof. intros Hr. eapply contents_nodup, Hr. Qed.

(** ** Starting a call *)

Lemma quiet_claims pcs vaddr len :
  quiet pcs vaddr len -> Forall (disj (vaddr, len)) (pcs ≫= claim).
Proof.
  unfold quiet. induction pcs as [|p pcs IH]; [constructor|]. rewrite !Forall_cons. intros [Hp Hq].
  simpl. apply Forall_app. split; [|by apply IH]. destruct p; simpl in *; by rewrite ?Forall_singleton, ?Forall_nil.
Qed.

Lemma quiet_tabs pcs vaddr i m :
  quiet pcs vaddr 1 -> m_vaddr m <= vaddr < m_end m -> (i, m) ∉ pcs ≫= tab.
Proof.
  intros Hq Hv (p & Hp & Hin)%list_elem_of_bind. unfold quiet in Hq. rewrite Forall_forall in Hq. specialize (Hq p Hin).
  unfold disj, m_end in *.
  destruct p; simpl in *; try (by apply elem_of_nil in Hp);
    apply list_elem_of_singleton in Hp as [= -> ->]; simpl in Hq; lia.
Qed.

Lemma start_map_inv align q vaddr len flags r c :
  sys_inv (Done r :: q) c -> mappable c vaddr len -> quiet q vaddr len -> plain flags ->
  iommu_translate_vaddr c vaddr = None -> sys_inv (MapReserve align vaddr len flags :: q) c.
Proof.
  intros (P & act & [H1 H2 H3 H4 H5 H6 H7 H8 H9 H10]) (Hv & Hl & Hm & Hmp) Hq Hp Ht.
  destruct Hmp as [?|Hmp]; [done|]. exists P, act. apply Forall_cons in H7 as [_ H7].
  split; try done.
  - constructor; [done|exact H7].
  - apply apart_cons. split; [by apply quiet_claims|exact H8].
  - constructor; [|exact H9]. apply (region_free_intro c); [split; eauto|done|exact Hmp].
Qed.

Lemma start_unmap_inv q vaddr r c i m :
  sys_inv (Done r :: q) c -> quiet q vaddr 1 -> iova_map_find (map c) vaddr = Some (i, m) ->
  sys_inv (UnmapDma i m :: q) c.
Proof.
  intros (P & act & [H1 H2 H3 H4 (ll & le & H5) H6 H7 H8 H9 H10]) Hq Hf.
  destruct (find_pair _ _ _ _ _ H1 H2 Hf) as (P1 & P2 & EP & Hv). simpl in *.
  assert ((i, m) ∈ act) as Hact.
  { assert ((i, m) ∈ act ++ (q ≫= tab)) as Hin by (rewrite <- H3, EP; set_solver).
    apply elem_of_app in Hin as [?|Hin]; [done|]. by eapply quiet_tabs in Hin. }
  apply elem_of_Permutation in Hact as [act' Ea]. apply Forall_cons in H7 as [_ H7].
  assert (act.*2 ≡ₚ m :: act'.*2) as Ea2 by (by rewrite Ea).
  rewrite Ea2 in H6. apply Forall_cons in H6 as [Hpm H6].
  exists P, act'. split; try done; simpl.
  - rewrite H3, Ea. simpl. by rewrite Permutation_middle.
  - rewrite H4, Ea2. simpl. rewrite !fmap_app. simpl. by rewrite Permutation_middle.
  - exists ll, le. eapply bounded_inv_perm; [|done|exact H5]. rewrite Ea2, !fmap_app. simpl. perm.
  - by constructor.
Qed.

Lemma start_inv q r cl c :
  sys_inv (Done r :: q) c -> allowed (Done r :: q) cl c -> sys_inv (start cl c :: q) c.
Proof.
  intros Hi Ha.
  assert (forall r', r' <> Crash -> sys_inv (Done r' :: q) c) as Hdone.
  { intros r' Hr'. destruct Hi as (P & act & [H1 H2 H3 H4 H5 H6 H7 H8 H9 H10]). exists P, act.
    apply Forall_cons in H7 as [_ H7]. split; try done. by constructor. }
  assert (forall v l, quiet (Done r :: q) v l -> quiet q v l) as Hq by (intros v l [_ ?]%Forall_cons; done).
  destruct cl as [vaddr len iova flags|vaddr len align flags|vaddr]; cbn [start allowed] in *.
  - destruct Ha as (Hm & Hqt & Hfx & Hep). rewrite Hfx.
    destruct (iommu_translate_vaddr c vaddr) eqn:Et; [by apply Hdone|]. by eapply start_map_inv; eauto.
  - destruct Ha as (Hm & Hqt & Hep). destruct (flag_set flags IOMMU_MAP_FIXED_IOVA); [by apply Hdone|].
    destruct (iommu_translate_vaddr c vaddr) eqn:Et; [by apply Hdone|]. by eapply start_map_inv; eauto.
  - destruct (iova_map_find (map c) vaddr) as [[i m]|] eqn:Ef; [|by apply Hdone].
    eapply start_unmap_inv; eauto.
Qed.

(** ** The sections *)

(** A reservation, aligned or not. *)
Definition reserve_of (align : option Z) (len flags : Z) : M (vfio_backend K) Z :=
  match align with
  | None => on_alloc (vfio_iommu_type1_iova_reserve len flags)
  | Some align =>
      let* r1 := draw_level in
      let* r2 := draw_level in
      on_alloc (vfio_iommu_type1_iova_reserve_align len align r1 r2)
  end.

Lemma reserve_of_spec align len flags live le b :
  bounded_inv (vb_alloc b) live le -> 0 < len -> plain flags ->
  match reserve_of align len flags b with
  | (Ret i, b') => vb_kernel b' = vb_kernel b /\ bounded_inv (vb_alloc b') ((i, len) :: live) le
  | (Fail _, b') => vb_kernel b' = vb_kernel b /\ vb_alloc b' = vb_alloc b
  | (Crash, _) => False
  end.
Proof.
  intros Hi Hl Hp. destruct align as [align|]; simpl.
  - assert (exists b1 r1 r2, vb_alloc b1 = vb_alloc b /\ vb_kernel b1 = vb_kernel b /\
      bind draw_level (fun r1 => bind draw_level (fun r2 =>
        on_alloc (vfio_iommu_type1_iova_reserve_align len align r1 r2))) b =
      on_alloc (vfio_iommu_type1_iova_reserve_align len align r1 r2) b1) as (b1 & r1 & r2 & Ea & Ek & ->)
      by apply draw_two.
    rewrite <- Ea in Hi. unfold on_alloc. pose proof (reserve_align_total _ _ _ _ align r1 r2 Hi Hl) as Htot.
    destruct (vfio_iommu_type1_iova_reserve_align len align r1 r2 (vb_alloc b1)) as [[i|e|] a'] eqn:E; [| |done]; simpl.
    + split; [done|]. by pose proof (reserve_align_bounded _ _ _ _ _ _ _ _ _ Hi Hl E) as Hr.
    + split; [done|]. rewrite <- Ea. eapply reserve_align_fail; [exact (proj1 (proj1 Hi))|done|exact E].
  - unfold on_alloc. pose proof (reserve_total _ _ _ _ flags Hi Hl) as Htot.
    destruct (vfio_iommu_type1_iova_reserve len flags (vb_alloc b)) as [[i|e|] a'] eqn:E; [| |done]; simpl.
    + split; [done|]. exact (reserve_bounded _ _ _ _ _ _ _ Hi Hl Hp E).
    + split; [done|]. eapply reserve_fail; [exact (proj1 (proj1 Hi))|done|exact E].
Qed.

Lemma reserve_section align vaddr len flags q c p' c' :
  sys_inv (MapReserve align vaddr len flags :: q) c ->
  step (MapReserve align vaddr len flags) c = (p', c') -> sys_inv (p' :: q) c'.
Proof.
  intros (P & act & [H1 H2 H3 H4 (ll & le & H5) H6 H7 H8 H9 H10]) Hs. cbn [step] in Hs. fold (reserve_of align len flags) in Hs.
  apply Forall_cons in H7 as [(Hp & Hv & Hl & Hm) H7].
  pose proof (reserve_of_spec align len flags _ _ _ H5 Hl Hp) as Hr.
  unfold section, on_backend in Hs. destruct (reserve_of align len flags (backend c)) as [[i|e|] b]; [| |done].
  - injection Hs as <- <-. destruct Hr as [Ek Ha]. exists P, act. split; try done; simpl.
    + by rewrite Ek.
    + exists ll, le. eapply bounded_inv_perm; [|done|exact Ha]. rewrite !fmap_app. simpl. perm.
    + by constructor.
  - injection Hs as <- <-. destruct Hr as [Ek Ea]. exists P, act. split; try done; simpl.
    + by rewrite Ek.
    + exists ll, le. by rewrite Ea.
    + by constructor.
    + by apply apart_cons in H8 as [_ H8].
    + by apply Forall_cons in H9 as [_ H9].
Qed.

Lemma dma_map_section vaddr len flags iova q c p' c' :
  sys_inv (MapDma vaddr len flags iova :: q) c ->
  step (MapDma vaddr len flags iova) c = (p', c') -> sys_inv (p' :: q) c'.
Proof.
  intros (P & act & [H1 H2 H3 H4 (ll & le & H5) H6 H7 H8 H9 H10]) Hs. cbn [step] in Hs.
  apply Forall_cons in H7 as [Hok H7]. unfold section, on_backend in Hs.
  pose proof (dma_map_table (backend c) vaddr len iova flags) as Hd.
  destruct (vfio_iommu_type1_do_dma_map vaddr len iova flags (backend c)) as [[i|e|] b]; [| |done].
  - injection Hs as <- <-. destruct Hd as (-> & Ea & Ek). exists P, act. split; try done; simpl.
    + rewrite Ek, H4. simpl. rewrite !fmap_app. simpl. by rewrite Permutation_middle.
    + exists ll, le. by rewrite Ea.
    + by constructor.
  - injection Hs as <- <-. destruct Hd as [Ea Ek]. exists P, act. split; try done; simpl.
    + by rewrite Ek.
    + exists ((iova, len) :: ll), le. rewrite Ea. eapply bounded_inv_perm; [|done|exact H5].
      rewrite !fmap_app. simpl. perm.
    + by constructor.
    + by apply apart_cons in H8 as [_ H8].
    + by apply Forall_cons in H9 as [_ H9].
Qed.

Lemma unmap_dma_section i m q c p' c' :
  sys_inv (UnmapDma i m :: q) c -> step (UnmapDma i m) c = (p', c') -> sys_inv (p' :: q) c'.
Proof.
  intros (P & act & [H1 H2 H3 H4 (ll & le & H5) H6 H7 H8 H9 H10]) Hs. cbn [step] in Hs.
  apply Forall_cons in H7 as [Hok H7]. unfold section, on_backend, on_kernel in Hs. simpl in *.
  assert (k_table (vb_kernel (backend c)) ≡ₚ m_entry <$> m :: act.*2 ++ (q ≫= ker)) as Ht.
  { rewrite H4, !fmap_app. simpl. rewrite fmap_app. by rewrite Permutation_middle. }
  pose proof (kernel_unmap (backend c) m _ Ht) as Hk.
  destruct (k_unmap_dma _ _ _) as [[[]|e|] k']; [| |done].
  - injection Hs as <- <-. exists P, act. split; try done; simpl.
    + by exists ll, le.
    + by constructor.
  - injection Hs as <- <-. exists P, ((i, m) :: act). split; try done; simpl.
    + rewrite H3. simpl. by rewrite Permutation_middle.
    + exists ll, le. eapply bounded_inv_perm; [|done|exact H5]. rewrite !fmap_app. simpl. perm.
    + by constructor.
    + by constructor.
Qed.

Lemma unmap_put_section i m q c p' c' :
  sys_inv (UnmapPut i m :: q) c -> step (UnmapPut i m) c = (p', c') -> sys_inv (p' :: q) c'.
Proof.
  intros (P & act & [H1 H2 H3 H4 (ll & le & H5) H6 H7 H8 H9 H10]) Hs. cbn [step] in Hs.
  apply Forall_cons in H7 as [Hok H7]. simpl in *. rewrite Hok in Hs.
  assert (exists b1 rands, vb_alloc b1 = vb_alloc (backend c) /\ vb_kernel b1 = vb_kernel (backend c) /\
    bind draw_level (fun rands => on_alloc (vfio_iova_put (m_iova m) (m_len m) rands)) (backend c) =
    on_alloc (vfio_iova_put (m_iova m) (m_len m) rands) b1) as (b1 & rands & Ea & Ek & E) by apply draw_one.
  unfold section, on_backend in Hs. rewrite E in Hs. unfold on_alloc in Hs.
  assert (bounded_inv (vb_alloc b1) (ll ++ m_iv m :: (m_iv <$> act.*2 ++ (q ≫= res))) le) as Hi.
  { rewrite Ea. eapply bounded_inv_perm; [|done|exact H5]. rewrite !fmap_app. simpl. perm. }
  destruct (put_bounded _ _ _ _ _ _ rands Hi) as (a' & Hput & Hi'). rewrite Hput in Hs.
  injection Hs as <- <-. exists P, act. split; try done; simpl.
  - by rewrite Ek.
  - by exists ll, le.
  - by constructor.
Qed.

Lemma region_free_app ms1 ms2 v l : region_free (ms1 ++ ms2) v l <-> region_free ms1 v l /\ region_free ms2 v l.
Proof. apply Forall_app. Qed.

Lemma map_add_section vaddr len flags iova q c p' c' :
  sys_inv (MapAdd vaddr len flags iova :: q) c ->
  step (MapAdd vaddr len flags iova) c = (p', c') -> sys_inv (p' :: q) c'.
Proof.
  intros (P & act & [H1 H2 H3 H4 (ll & le & H5) H6 H7 H8 H9 H10]) Hs. cbn [step] in Hs.
  apply Forall_cons in H7 as [(Hp & Hv & Hl & Hm) H7]. simpl in H8, H9.
  apply apart_cons in H8 as [Hdis H8]. apply Forall_cons in H9 as [Hfree H9]. simpl in Hfree.
  assert (exists rands c1, map c1 = map c /\ backend c1 = backend c /\
    (let* rands := draw in on_map (iova_map_add vaddr len iova flags rands)) c =
      on_map (iova_map_add vaddr len iova flags rands) c1) as (rands & c1 & Em & Eb & E).
  { unfold bind, draw. destruct (rng c) as [|r rs]; [by exists [], c|by exists r, (set_rng rs c)]. }
  unfold section in Hs. rewrite E in Hs. unfold on_map in Hs. rewrite Em in Hs.
  destruct (iova_map_add_named _ _ _ vaddr len iova flags rands H1 H2 Hv Hl Hm Hfree)
    as (mp & n1 & n2 & m1 & m2 & Eadd & E1 & E2 & El & Hc' & Hr' & Ef). rewrite Eadd in Hs. injection Hs as <- <-.
  destruct (pairs_split P n1 n2 m1 m2 E1 E2 El) as (P1 & P2 & -> & <- & <- & <- & <-).
  set (m := mk_mapping vaddr len iova flags) in *.
  exists (P1 ++ (map_fresh (map c), m) :: P2), ((map_fresh (map c), m) :: act).
  split; simpl; rewrite ?fmap_app, ?fmap_cons; simpl; try done.
  - simpl in H3. by rewrite <- Permutation_middle, H3.
  - rewrite Eb, H4. simpl. rewrite !fmap_app. simpl. by rewrite Permutation_middle.
  - exists ll, le. rewrite Eb. eapply bounded_inv_perm; [|done|exact H5]. rewrite !fmap_app. simpl. perm.
  - by constructor.
  - by constructor.
  - rewrite Forall_forall in H9, Hdis |- *. intros r Hr. specialize (H9 r Hr). specialize (Hdis r Hr).
    rewrite fmap_app, region_free_app in H9. destruct H9 as [A B]. apply region_free_app. split; [done|].
    constructor; [|done]. unfold disj in Hdis. unfold m_end. simpl in *. lia.
  - simpl in H10. rewrite Forall_forall in H10 |- *. intros i Hi. destruct (H10 i Hi) as [A B].
    rewrite fmap_app in A. rewrite Ef. split; [|lia]. rewrite elem_of_app, elem_of_cons in *. intros [?|[?|?]]; [tauto|lia|tauto].
Qed.

Lemma unmap_remove_section i m q c p' c' :
  sys_inv (UnmapRemove i m :: q) c -> step (UnmapRemove i m) c = (p', c') -> sys_inv (p' :: q) c'.
Proof.
  intros (P & act & [H1 H2 H3 H4 H5 H6 H7 H8 H9 H10]) Hs. cbn [step] in Hs.
  apply Forall_cons in H7 as [Hok H7]. simpl in *.
  assert ((i, m) ∈ P) as Hin by (rewrite H3; set_solver).
  pose proof (pair_find _ _ _ _ H1 H2 Hin) as Hf.
  destruct (iova_map_remove_named _ _ _ _ _ _ H1 H2 Hf)
    as (mp & n1 & n2 & m1 & m2 & Erm & E1 & E2 & El & _ & Hc' & Hr' & Efr).
  unfold section, on_map in Hs. rewrite Erm in Hs. injection Hs as <- <-.
  destruct (pairs_split P n1 (i :: n2) m1 (m :: m2) E1 E2 El) as (P1 & P2 & -> & <- & Hn & <- & Hm).
  destruct P2 as [|[j x] P2]; [done|]. simpl in Hn, Hm. injection Hn as -> <-. injection Hm as -> <-.
  pose proof (pairs_nodup _ _ H2) as Hnd. pose proof (mr_ids _ _ _ H2) as Hids. rewrite fmap_app, fmap_cons in Hnd, Hids.
  destruct (nodup_mid _ _ _ Hnd) as [Hi1 Hi2].
  exists (P1 ++ P2), act. split; simpl; try done; rewrite ?fmap_app; try done.
  - rewrite <- !Permutation_middle in H3. by apply Permutation_cons_inv in H3.
  - by constructor.
  - rewrite Forall_forall in H9 |- *. intros r Hr. specialize (H9 r Hr).
    rewrite fmap_app, fmap_cons, region_free_app in H9. destruct H9 as [A [_ B]%Forall_cons]. by apply region_free_app.
  - rewrite Efr. constructor.
    + split; [rewrite elem_of_app; tauto|]. rewrite Forall_app, Forall_cons in Hids. simpl in Hids. tauto.
    + eapply Forall_impl; [exact H10|]. intros j [A B]. split; [|done]. rewrite fmap_app, fmap_cons in A.
      rewrite elem_of_app in *. rewrite elem_of_cons in A. tauto.
Qed.

Lemma unmap_free_section i m q c p' c' :
  sys_inv (UnmapFree i m :: q) c -> step (UnmapFree i m) c = (p', c') -> sys_inv (p' :: q) c'.
Proof.
  intros (P & act & [H1 H2 H3 H4 H5 H6 H7 H8 H9 H10]) Hs. cbn [step] in Hs.
  apply Forall_cons in H7 as [Hok H7]. simpl in *. apply Forall_cons in H10 as [[Hi _] H10].
  unfold section, free_mapping, modify in Hs. injection Hs as <- <-.
  exists P, act. split; simpl; try done.
  - by apply free_node_rep.
  - by constructor.
Qed.

Lemma step_inv p q c p' c' : sys_inv (p :: q) c -> step p c = (p', c') -> sys_inv (p' :: q) c'.
Proof.
  assert (forall i m, ~ sys_inv (UnmapDec i m :: q) c /\ ~ sys_inv (UnmapRecycle i m :: q) c) as Hno.
  { intros i m. split; by intros (P & act & [_ _ _ _ _ _ [[] _]%Forall_cons _ _ _]). }
  destruct p as [r|align v l f|v l f i|v l f i|i m|i m|i m|i m|i m|i m].
  - by intros Hi [= <- <-].
  - apply reserve_section.
  - apply dma_map_section.
  - apply map_add_section.
  - apply unmap_dma_section.
  - apply unmap_put_section.
  - by intros []%Hno.
  - by intros []%Hno.
  - apply unmap_remove_section.
  - apply unmap_free_section.
Qed.

Lemma threads_step_inv s s' : sys_step s s' -> sys_inv s.1 s.2 -> sys_inv s'.1 s'.2.
Proof.
  intros Hs. destruct Hs as [pcs t r cl c Ht Ha|pcs t p p' c c' Ht Hs]; simpl; intros Hi.
  - apply list_elem_of_split_length in Ht as (l1 & l2 & -> & ->). rewrite insert_app_r_alt, Nat.sub_diag by lia. simpl.
    eapply sys_inv_perm; [apply Permutation_middle|]. apply (sys_inv_perm _ (Done r :: l1 ++ l2)) in Hi;
      [|by rewrite Permutation_middle]. eapply start_inv; [exact Hi|].
    assert (forall v l, quiet (l1 ++ Done r :: l2) v l -> quiet (Done r :: l1 ++ l2) v l) as Hq.
    { intros v l H. unfold quiet in *. by rewrite Permutation_middle. }
    destruct cl; simpl in *; destruct_and?; split_and?; auto.
  - apply list_elem_of_split_length in Ht as (l1 & l2 & -> & ->). rewrite insert_app_r_alt, Nat.sub_diag by lia. simpl.
    eapply sys_inv_perm; [apply Permutation_middle|]. eapply step_inv; [|exact Hs].
    eapply sys_inv_perm; [|exact Hi]. by rewrite Permutation_middle.
Qed.

(** ** What holds at any moment *)

(** Reserved and not in the kernel's table. *)
Definition extra (p : pc) : list iova_mapping :=
  match p with
  | MapDma vaddr len flags iova => [mk_mapping vaddr len iova flags]
  | UnmapPut _ m => [m]
  | _ => []
  end.

Lemma res_split pcs : pcs ≫= res ≡ₚ (pcs ≫= ker) ++ (pcs ≫= extra).
Proof.
  induction pcs as [|p pcs IH]; [done|]. simpl. rewrite IH. destruct p; simpl; try done. all: by rewrite Permutation_middle.
Qed.

Lemma ker_plain pcs : Forall pc_ok pcs -> Forall (fun m => plain (m_flags m)) (pcs ≫= ker).
Proof.
  induction 1 as [|p pcs Hp _ IH]; [constructor|]. simpl. apply Forall_app. split; [|done].
  destruct p; simpl in *; rewrite ?Forall_singleton, ?Forall_nil; tauto.
Qed.

Lemma plain_live ms : Forall (fun m => plain (m_flags m)) ms -> live_of ms = m_iv <$> ms /\ eph_of ms = [].
Proof.
  intros H. unfold live_of, eph_of, is_ephemeral, plain in *. split.
  - rewrite filter_all; [done|]. eapply Forall_impl; [exact H|]. intros m Hm. simpl in Hm. by rewrite Hm.
  - rewrite filter_none; [done|]. eapply Forall_impl; [exact H|]. intros m Hm. simpl in Hm. by rewrite Hm.
Qed.

(** The backend serves what the kernel maps. *)
Lemma sys_backend pcs c P act :
  sys_rep pcs c P act -> vfio_inv (backend c) (act.*2 ++ (pcs ≫= ker)).
Proof.
  intros [H1 H2 H3 H4 (ll & le & H5) H6 H7 H8 H9 H10]. split; [|exact H4].
  destruct (plain_live (act.*2 ++ (pcs ≫= ker))) as [-> ->]; [apply Forall_app; split; [done|by apply ker_plain]|].
  exists (ll ++ (m_iv <$> (pcs ≫= extra))), le. rewrite app_nil_r.
  eapply bounded_inv_perm; [|done|exact H5]. rewrite res_split, !fmap_app. perm.
Qed.

Lemma quiet_kers pcs v m : quiet pcs v 1 -> m_vaddr m <= v < m_end m -> m ∉ pcs ≫= ker.
Proof.
  intros Hq Hv (p & Hp & Hin)%list_elem_of_bind. unfold quiet in Hq. rewrite Forall_forall in Hq. specialize (Hq p Hin).
  unfold disj, m_end in *.
  destruct p; simpl in *; try (by apply elem_of_nil in Hp);
    apply list_elem_of_singleton in Hp as ->; simpl in *; lia.
Qed.

Lemma sys_translation pcs c v i :
  sys_inv pcs c -> quiet pcs v 1 ->
  iommu_translate_vaddr c v = Some i <->
    exists iova len vaddr, (iova, len, vaddr) ∈ k_table (vb_kernel (backend c)) /\
      vaddr <= v < vaddr + len /\ i = iova + (v - vaddr).
Proof.
  intros (P & act & Hr) Hq. pose proof (vfio_inv_iova _ _ (sys_backend _ _ _ _ Hr)) as [_ Hb].
  apply Forall_app in Hb as [Hb _]. rewrite Forall_forall in Hb. destruct Hr as [H1 H2 H3 H4 _ _ _ _ _ _].
  pose proof (mchain_bounds _ _ H1) as Hmb. rewrite Forall_forall in Hmb.
  assert (map_ok (map c) P.*2) as Hok by (split; eauto). rewrite (translate_vaddr_spec _ _ _ Hok). unfold translation.
  assert (forall m, m ∈ act.*2 -> m ∈ P.*2) as Hsub by (intros m Hm; rewrite H3, fmap_app; set_solver).
  split.
  - destruct (mfind P.*2 v) as [m|] eqn:E; [|done]. simpl. intros [= <-].
    apply List.find_some in E as [Hin%list_elem_of_In Hv%in_mapping_spec].
    assert (m ∈ act.*2) as Ha.
    { rewrite H3, fmap_app in Hin. apply elem_of_app in Hin as [?|([j x] & -> & Hin)%list_elem_of_fmap]; [done|].
      exfalso. by eapply quiet_tabs in Hin. }
    exists (m_iova m), (m_len m), (m_vaddr m). split; [rewrite H4; apply (list_elem_of_fmap_2 m_entry); set_solver|].
    specialize (Hb m Ha). specialize (Hmb m Hin). unfold m_end, UINT64_MAX in *. rewrite u64_small by lia. lia.
  - intros (iova & len & vaddr & Hin & Hv & ->). rewrite H4 in Hin.
    apply list_elem_of_fmap in Hin as (m & [= -> -> ->] & Hin). apply elem_of_app in Hin as [Hin|Hin];
      [|exfalso; by eapply quiet_kers in Hin].
    rewrite (mfind_in _ m _ H1 (Hsub m Hin)) by done. simpl. specialize (Hb m Hin). specialize (Hmb m (Hsub m Hin)).
    unfold m_end, UINT64_MAX in *. by rewrite u64_small by lia.
Qed.

Lemma sys_init_inv ranges rands b n :
  vfio_fresh ranges b -> sys_inv (replicate n (Done (Ret 0))) (iommu_ctx_init rands b).
Proof.
  intros Hf. destruct (vfio_fresh_inv _ _ Hf) as [(ll & le & Hi) Ht].
  assert (forall {A} (f : pc -> list A), f (Done (Ret 0)) = [] -> replicate n (Done (Ret 0)) ≫= f = []) as Hnil.
  { intros A f Hd. induction n; simpl; [done|]. by rewrite Hd. }
  exists [], []. split; simpl; rewrite ?Hnil by done; try done.
  - split; [apply skiplist_init_contents|constructor|constructor].
  - exists ll, le. change (live_of []) with (@nil (Z * Z)) in Hi. change (eph_of []) with (@nil (Z * Z)) in Hi.
    rewrite !app_nil_r in *. exact Hi.
  - by apply Forall_replicate.
  - constructor.
Qed.

(** C14. Any number of threads that map and unmap through one container (none of
    whose ranges reaches the last byte of the address space), at any
    interleaving of their critical sections, as long as each works on regions no
    other call is under way on and none asks for an ephemeral mapping: no call
    ever ends the process; at every moment no two entries of the kernel's table
    share an I/O address, whatever is half done; and an address outside the
    regions under way is translated exactly as the kernel maps it. *)
Theorem vfio_threads_coherent ranges rands b n pcs c :
  vfio_fresh ranges b ->
  rtc sys_step (replicate n (Done (Ret 0)), iommu_ctx_init rands b) (pcs, c) ->
  (forall t, pcs !! t <> Some (Done Crash)) /\
  apart ((fun e => (e.1.1, e.1.2)) <$> k_table (vb_kernel (backend c))) /\
  (forall v i, quiet pcs v 1 ->
     iommu_translate_vaddr c v = Some i <->
       exists iova len vaddr, (iova, len, vaddr) ∈ k_table (vb_kernel (backend c)) /\
         vaddr <= v < vaddr + len /\ i = iova + (v - vaddr)).
Proof.
  intros Hf Hs. assert (sys_inv pcs c) as Hi.
  { refine (rtc_ind_r (R := sys_step) (fun s => sys_inv s.1 s.2) _ _ _ (pcs, c) Hs).
    - by eapply sys_init_inv.
    - intros s1 s2 _ Hst IH. by eapply threads_step_inv. }
  split_and!.
  - intros t Ht. destruct Hi as (P & act & Hr). pose proof (si_pcs _ _ _ _ Hr) as Hp.
    eapply Forall_lookup_1 in Hp; [|exact Ht]. done.
  - destruct Hi as (P & act & Hr). destruct (vfio_inv_iova _ _ (sys_backend _ _ _ _ Hr)) as [Hap _].
    rewrite (si_ker _ _ _ _ Hr), <- list_fmap_compose. exact Hap.
  - intros v i. by apply sys_translation.
Qed.
End Threads.

(** ** Concrete schedules *)

(** The next thing that happens: thread [t] begins a call, or takes a step. *)
Definition run_schedule {page : PageSize} {K} {kernel : VfioKernel K} :
    list (nat * option call) -> list pc * iommu_ctx (vfio_backend K) -> list pc * iommu_ctx (vfio_backend K) :=
  fix run evs s :=
    match evs with
    | [] => s
    | (t, e) :: evs =>
        let '(pcs, c) := s in
        match e, pcs !! t with
        | Some cl, Some (Done _) => run evs (<[t := start cl c]> pcs, c)
        | None, Some p => let '(p', c') := step p c in run evs (<[t := p']> pcs, c')
        | _, _ => run evs s
        end
    end.

Definition demo_threads : list pc * iommu_ctx (vfio_backend (list (Z * Z * Z))) :=
  (replicate 2 (Done (Ret 0)), demo_ctx0).

Lemma sys_next {page : PageSize} {K} {kernel : VfioKernel K} (t : nat) p (pcs : list pc) (c : iommu_ctx (vfio_backend K)) s' :
  pcs !! t = Some p -> rtc sys_step (<[t := fst (step p c)]> pcs, snd (step p c)) s' -> rtc sys_step (pcs, c) s'.
Proof. intros Ht Hs. eapply rtc_l; [|exact Hs]. apply (sys_run _ t p); [done|apply surjective_pairing]. Qed.

(** Two threads map two regions, in lock step. *)
Definition lock_step : list (nat * option call) :=
  [(0%nat, Some (CMap 0x7f0000 0x2000 None 0)); (1%nat, Some (CMap 0x7e0000 0x1000 None 0));
   (0%nat, None); (1%nat, None); (1%nat, None); (0%nat, None)].

Lemma vfio_threads_coherent_witness :
  apart ((fun e => (e.1.1, e.1.2)) <$>
    k_table (vb_kernel (backend (snd (@run_schedule page_4k _ table_kernel lock_step demo_threads))))) /\
  k_table (vb_kernel (backend (snd (@run_schedule page_4k _ table_kernel lock_step demo_threads)))) =
    [(0x20000, 0x2000, 0x7f0000); (0x22000, 0x1000, 0x7e0000)].
Proof.
  split; [|vm_compute; reflexivity].
  apply (@vfio_threads_coherent page_4k _ table_kernel demo_ranges [] demo_backend 2
    (fst (@run_schedule page_4k _ table_kernel lock_step demo_threads)) _).
  - split; [apply demo_ranges_ok|]. split; [apply demo_ranges_ok|]. split; [apply demo_ranges_ok|]. split; [vm_compute; reflexivity|reflexivity].
  - eapply rtc_l; [apply (sys_start _ 0%nat (Ret 0) (CMap 0x7f0000 0x2000 None 0)); [reflexivity|]|].
    { split; [|split; [|split; reflexivity]].
      - split; [lia|]. split; [lia|]. split; [unfold UINT64_MAX; lia|]. right. intros v _. apply demo_ctx0_free.
      - repeat constructor. }
    eapply rtc_l; [apply (sys_start _ 1%nat (Ret 0) (CMap 0x7e0000 0x1000 None 0)); [reflexivity|]|].
    { split; [|split; [|split; reflexivity]].
      - split; [lia|]. split; [lia|]. split; [unfold UINT64_MAX; lia|]. right. intros v _. apply demo_ctx0_free.
      - constructor; [|constructor; [exact I|constructor]]. unfold disj. simpl. lia. }
    eapply (sys_next 0%nat); [reflexivity|].
    eapply (sys_next 1%nat); [reflexivity|].
    eapply (sys_next 1%nat); [reflexivity|].
    eapply (sys_next 0%nat); [reflexivity|].
    match goal with |- rtc _ ?a ?b => replace b with a by (vm_compute; reflexivity) end. apply rtc_refl.
Defined.

(** Two threads map the same address at the same time: both look it up before
    either adds it, the kernel maps it twice, one call fails with [EEXIST] and
    leaves its entry in the kernel's table, which no later call can remove. *)
Theorem race_on_one_address :
  let sched := [(0%nat, Some (CMap 0x7f0000 0x2000 None 0)); (1%nat, Some (CMap 0x7f0000 0x2000 None 0));
    (0%nat, None); (0%nat, None); (0%nat, None); (1%nat, None); (1%nat, None); (1%nat, None);
    (0%nat, Some (CUnmap 0x7f0000)); (0%nat, None); (0%nat, None); (0%nat, None); (0%nat, None)] in
  let '(pcs, c) := @run_schedule page_4k _ table_kernel sched demo_threads in
  pcs = [Done (Ret 0x2000); Done (Fail EEXIST)] /\
  k_table (vb_kernel (backend c)) = [(0x22000, 0x2000, 0x7f0000)] /\
  iommu_translate_vaddr c 0x7f0000 = None.
Proof. vm_compute. done. Qed.

(** The counter of ephemeral mappings reaches zero outside the lock, and the
    window is recycled later: a thread that maps in between gets an address of
    the window, which the recycling then offers again while it is mapped. *)
Theorem ephemeral_window_race :
  let E := IOMMU_MAP_EPHEMERAL in
  let sched := [(0%nat, Some (CMap 0x7f0000 0x1000 None E)); (0%nat, None); (0%nat, None); (0%nat, None);
    (0%nat, Some (CUnmap 0x7f0000)); (0%nat, None); (0%nat, None); (0%nat, None);
    (1%nat, Some (CMap 0x7e0000 0x1000 None E)); (1%nat, None); (1%nat, None); (1%nat, None);
    (0%nat, None); (0%nat, None); (0%nat, None);
    (0%nat, Some (CMap 0x7d0000 0x1000 None E)); (0%nat, None); (0%nat, None); (0%nat, None);
    (0%nat, Some (CMap 0x7c0000 0x1000 None E)); (0%nat, None); (0%nat, None); (0%nat, None)] in
  let '(pcs, c) := @run_schedule page_4k _ table_kernel sched demo_threads in
  pcs = [Done (Ret 0x11000); Done (Ret 0x11000)] /\
  k_table (vb_kernel (backend c)) =
    [(0x11000, 0x1000, 0x7c0000); (0x10000, 0x1000, 0x7d0000); (0x11000, 0x1000, 0x7e0000)].
Proof. vm_compute. done. Qed.
