(* ===== verification/CStr.v ===== *)
(** * CStr: strings and numbers of the C library

    A C string is the list of the characters before its terminator.  The
    functions of <string.h>, <stdlib.h> and <stdio.h> the code uses on strings,
    and the round trips of numbers. *)

From Stdlib Require Export Ascii.
From Stdlib Require String.
From stdpp Require Export strings.
From S2P Require Import Prelude.
Local Open Scope Z_scope.
Local Open Scope vfn_scope.

(** ** Strings *)

(** A C string is the characters before its terminator. *)
Abbreviation cstr := (list ascii).
Definition terminator : ascii := "000"%char.
Definition char_at (s : cstr) : ascii := default terminator (head s).

(** [strncmp(a, b, n) == 0] *)
Fixpoint strncmp_eq (n : nat) (a b : cstr) : bool :=
  match n with
  | O => true
  | S n' =>
      if negb (bool_decide (char_at a = char_at b)) then false
      else if bool_decide (char_at a = terminator) then true
      else strncmp_eq n' (tail a) (tail b)
  end.

Definition ERANGE : errno := Eother 34.
Definition NUL : ascii := terminator.

(** ** Numbers *)

Definition digit_char (d : Z) : ascii := ascii_of_nat (Z.to_nat (if d <? 10 then 48 + d else 87 + d)).

Definition digit_value (c : ascii) : Z :=
  let n := Z.of_nat (nat_of_ascii c) in
  if (48 <=? n) && (n <=? 57) then n - 48
  else if (97 <=? n) && (n <=? 122) then n - 87
  else if (65 <=? n) && (n <=? 90) then n - 55
  else 99.

(** The conversions [%d] and [%x] of a number that is not negative; a number of
    [log2 n + 1] bits has no more digits than that. *)
Fixpoint digits (fuel : nat) (base n : Z) (acc : list ascii) : list ascii :=
  match fuel with
  | O => acc
  | S fuel' =>
      let acc := digit_char (n mod base) :: acc in
      if n <? base then acc else digits fuel' base (n / base) acc
  end.
Definition print (base n : Z) : list ascii := digits (S (Z.to_nat (Z.log2 n))) base n [].
Definition print_str (base n : Z) : string := String.string_of_list_ascii (print base n).

(** The longest prefix of digits, its value added to [v]. *)
Fixpoint scan (base v : Z) (s : list ascii) : Z :=
  match s with
  | c :: s' => if digit_value c <? base then scan base (v * base + digit_value c) s' else v
  | [] => v
  end.

Fixpoint scan_end (base : Z) (s : list ascii) : list ascii :=
  match s with
  | c :: s' => if digit_value c <? base then scan_end base s' else s
  | [] => []
  end.

Definition isspace (c : ascii) : bool :=
  let n := nat_of_ascii c in (n =? 32)%nat || ((9 <=? n)%nat && (n <=? 13)%nat).

Definition tolower (c : ascii) : ascii :=
  let n := nat_of_ascii c in if ((65 <=? n) && (n <=? 90))%nat then ascii_of_nat (n + 32) else c.

Fixpoint skip_space (s : list ascii) : list ascii :=
  match s with
  | c :: s' => if isspace c then skip_space s' else s
  | [] => []
  end.

(** The sign and the rest. *)
Definition sign (s : list ascii) : bool * list ascii :=
  match s with
  | "-"%char :: s' => (true, s')
  | "+"%char :: s' => (false, s')
  | _ => (false, s)
  end.

Definition starts_digit (base : Z) (s : list ascii) : bool :=
  match s with c :: _ => digit_value c <? base | [] => false end.

(** The base of a number with base 0, and its digits. *)
Definition detect_base (s : list ascii) : Z * list ascii :=
  match s with
  | "0"%char :: (("x" | "X")%char :: s') => if starts_digit 16 s' then (16, s') else (8, s)
  | "0"%char :: _ => (8, s)
  | _ => (10, s)
  end.

(** A number with base 0: whether it is negative, its magnitude, the rest;
    [None] when nothing is converted. *)
Definition strto (s : list ascii) : option (bool * Z * list ascii) :=
  let '(neg, s) := sign (skip_space s) in
  let '(base, s) := detect_base s in
  if starts_digit base s then Some (neg, scan base 0 s, scan_end base s) else None.

Definition LONG_MAX : Z := 0x7fffffffffffffff.
Definition LONG_MIN : Z := - LONG_MAX - 1.

(** [strtoull(s, &endptr, 0)]: [None] when nothing is converted ([endptr] is
    [s]), otherwise the value and [ERANGE] if it does not fit. *)
Definition strtoull (s : list ascii) : option (Z * option errno) :=
  match strto s with
  | Some (neg, v, _) =>
    if UINT64_MAX <? v then Some (UINT64_MAX, Some ERANGE)
    else Some (if neg then u64 (- v) else v, None)
  | None => None
  end.

(** [strtol(s, &endptr, 0)] and [strtoll]: the value, [endptr] and whether [errno]
    was set to [ERANGE]; [endptr] is [s] when nothing is converted. *)
Definition strtol (s : list ascii) : Z * list ascii * bool :=
  match strto s with
  | None => (0, s, false)
  | Some (neg, v, rest) =>
      let x := if neg then - v else v in
      if LONG_MAX <? x then (LONG_MAX, rest, true)
      else if x <? LONG_MIN then (LONG_MIN, rest, true)
      else (x, rest, false)
  end.

(** [atoi]: [strtol] in base 10, converted to [int]. *)
Definition atoi (s : list ascii) : Z :=
  let '(neg, s) := sign (skip_space s) in
  let v := scan 10 0 s in
  s32 (if neg then Z.max (- LONG_MAX - 1) (- v) else Z.min LONG_MAX v).

(** The C string at the start of a buffer. *)
Fixpoint c_string (bs : list ascii) : list ascii :=
  match bs with
  | c :: bs' => if (c =? NUL)%char then [] else c :: c_string bs'
  | [] => []
  end.


Lemma digit_roundtrip d : 0 <= d < 16 -> digit_value (digit_char d) = d.
Proof.
  intros Hd. assert (d ∈ seqZ 0 16) as Hin by (apply elem_of_seqZ; lia).
  assert (Forall (fun d => digit_value (digit_char d) = d) (seqZ 0 16)) as H by (repeat constructor).
  rewrite Forall_forall in H. by apply H.
Qed.

(** Scanning what [digits] produced reads the number, then the rest. *)
Lemma scan_digits fuel base n acc v :
  2 <= base <= 16 -> 0 <= n < 2 ^ Z.of_nat fuel -> (n = 0 -> (0 < fuel)%nat) ->
  exists v', scan base v (digits fuel base n acc) = scan base v' acc /\ (v = 0 -> v' = n).
Proof.
  intros Hb. revert n acc v. induction fuel as [|fuel IH]; intros n acc v Hn H0.
  { assert (n = 0) by (change (2 ^ Z.of_nat 0) with 1 in Hn; lia). lia. }
  cbn [digits]. pose proof (Z.mod_pos_bound n base ltac:(lia)) as Hm.
  assert (forall w, scan base w (digit_char (n mod base) :: acc) = scan base (w * base + n mod base) acc) as Hc.
  { intros w. cbn [scan]. rewrite digit_roundtrip by lia. by rewrite (proj2 (Z.ltb_lt _ _)) by lia. }
  destruct (Z.ltb_spec n base).
  - exists (v * base + n mod base). split; [apply Hc|]. rewrite Z.mod_small by lia. lia.
  - pose proof (Z.div_mod n base ltac:(lia)) as Hdm.
    destruct (IH (n / base) (digit_char (n mod base) :: acc) v) as (v1 & E & Hv).
    + split; [apply Z.div_pos; lia|]. apply Z.div_lt_upper_bound; [lia|].
      rewrite Nat2Z.inj_succ, Z.pow_succ_r in Hn by lia. nia.
    + intros Hz. rewrite Hz in Hdm. nia.
    + exists (v1 * base + n mod base). rewrite E. split; [apply Hc|]. intros Hv0. rewrite (Hv Hv0). lia.
Qed.

Lemma print_bits n : 0 <= n -> 0 <= n < 2 ^ Z.of_nat (S (Z.to_nat (Z.log2 n))).
Proof.
  intros Hn. split; [done|]. rewrite Nat2Z.inj_succ, Z2Nat.id by apply Z.log2_nonneg.
  destruct (decide (n = 0)) as [->|]; [done|]. apply Z.log2_spec. lia.
Qed.

Lemma digits_app fuel base n acc rest : digits fuel base n acc ++ rest = digits fuel base n (acc ++ rest).
Proof.
  revert n acc. induction fuel as [|k IH]; intros n acc; [done|]. cbn [digits]. destruct (_ <? _); [done|].
  by rewrite IH.
Qed.

Lemma scan_print base n rest :
  2 <= base <= 16 -> 0 <= n -> starts_digit base rest = false -> scan base 0 (print base n ++ rest) = n.
Proof.
  intros Hb Hn Hr.
  unfold print. rewrite digits_app. cbn [app].
  destruct (scan_digits (S (Z.to_nat (Z.log2 n))) base n rest 0 Hb) as (v & -> & Hv); [|lia|].
  - by apply print_bits.
  - rewrite (Hv eq_refl). destruct rest as [|c rest]; simpl in *; [done|]. by rewrite Hr.
Qed.

(** A digit is neither white space nor a sign. *)
Lemma digit_plain c : (digit_value c <? 16) = true -> isspace c = false /\ c <> "-"%char /\ c <> "+"%char.
Proof. destruct c as [[] [] [] [] [] [] [] []]; vm_compute; (done || by split_and!). Qed.

Lemma print_head base n :
  2 <= base <= 16 -> 0 <= n -> exists c rest, print base n = c :: rest /\ (digit_value c <? base) = true.
Proof.
  intros Hb Hn. unfold print. assert (forall k acc n, 0 <= n ->
    (exists c rest, acc = c :: rest /\ (digit_value c <? base) = true) ->
    exists c rest, digits k base n acc = c :: rest /\ (digit_value c <? base) = true) as H.
  { induction k as [|k IH]; intros acc m Hm Hacc; [done|]. cbn [digits].
    pose proof (Z.mod_pos_bound m base ltac:(lia)).
    assert ((digit_value (digit_char (m mod base)) <? base) = true) as Hd
      by (rewrite digit_roundtrip by lia; apply Z.ltb_lt; lia).
    destruct (m <? base); [by do 2 eexists|]. apply IH; [apply Z.div_pos; lia|by do 2 eexists]. }
  cbn [digits]. pose proof (Z.mod_pos_bound n base ltac:(lia)).
  assert ((digit_value (digit_char (n mod base)) <? base) = true) as Hd
    by (rewrite digit_roundtrip by lia; apply Z.ltb_lt; lia).
  destruct (n <? base); [by do 2 eexists|]. apply H; [apply Z.div_pos; lia|by do 2 eexists].
Qed.

Lemma sign_digit c s : (digit_value c <? 16) = true -> sign (skip_space (c :: s)) = (false, c :: s).
Proof.
  intros Hd. destruct (digit_plain _ Hd) as (H1 & H2 & H3). simpl. rewrite H1.
  destruct c as [[] [] [] [] [] [] [] []]; done.
Qed.

Lemma atoi_print n : 0 <= n <= 0x7fffffff -> atoi (print 10 n) = n.
Proof.
  intros Hn. unfold atoi. destruct (print_head 10 n) as (c & rest & E & Hd); [lia..|].
  rewrite E, sign_digit, <- E by (apply Z.ltb_lt in Hd; apply Z.ltb_lt; lia).
  rewrite <- (app_nil_r (print 10 n)), scan_print by (lia || done). unfold LONG_MAX.
  rewrite Z.min_r, s32_small by lia. done.
Qed.

(** A positive number does not start with the digit zero. *)
Lemma print_head_pos base n :
  2 <= base <= 16 -> 0 < n ->
  exists c rest, print base n = c :: rest /\ (digit_value c <? base) = true /\ c <> "0"%char.
Proof.
  intros Hb Hn. unfold print. assert (forall k acc n, 0 < n < 2 ^ Z.of_nat k ->
    exists c rest, digits k base n acc = c :: rest /\ (digit_value c <? base) = true /\ c <> "0"%char) as H.
  { induction k as [|k IH]; intros acc m Hm; [change (2 ^ Z.of_nat 0) with 1 in Hm; lia|]. cbn [digits].
    pose proof (Z.div_mod m base ltac:(lia)) as Hdm. destruct (Z.ltb_spec m base) as [Hlt|Hge].
    - rewrite Z.mod_small by lia. do 2 eexists. split; [done|]. rewrite digit_roundtrip by lia.
      split; [apply Z.ltb_lt; lia|]. intros E%(f_equal digit_value). rewrite digit_roundtrip in E by lia.
      change (digit_value "0"%char) with 0 in E. lia.
    - apply IH. pose proof (Z.mod_pos_bound m base ltac:(lia)).
      split; [nia|]. apply Z.div_lt_upper_bound; [lia|].
      rewrite Nat2Z.inj_succ, Z.pow_succ_r in Hm by lia. nia. }
  apply H. split; [done|]. apply print_bits. lia.
Qed.

Lemma scan_end_digits fuel base n acc :
  2 <= base <= 16 -> scan_end base (digits fuel base n acc) = scan_end base acc.
Proof.
  intros Hb. revert n acc. induction fuel as [|fuel IH]; intros n acc; [done|]. cbn [digits].
  pose proof (Z.mod_pos_bound n base ltac:(lia)) as Hm.
  assert (scan_end base (digit_char (n mod base) :: acc) = scan_end base acc) as Hc.
  { cbn [scan_end]. rewrite digit_roundtrip by lia. by rewrite (proj2 (Z.ltb_lt _ _)) by lia. }
  destruct (_ <? _); [done|]. by rewrite IH.
Qed.

Lemma scan_end_print base n rest :
  2 <= base <= 16 -> starts_digit base rest = false -> scan_end base (print base n ++ rest) = rest.
Proof.
  intros Hb Hr. unfold print. rewrite digits_app, scan_end_digits by done.
  destruct rest as [|c rest]; simpl in *; [done|]. by rewrite Hr.
Qed.

Lemma detect_decimal c s : c <> "0"%char -> detect_base (c :: s) = (10, c :: s).
Proof. intros Hc. destruct c as [[] [] [] [] [] [] [] []]; done. Qed.

(** A positive number in decimal, followed by something that is not a digit. *)
Lemma strto_print n rest :
  0 < n -> starts_digit 10 rest = false ->
  strto (print 10 n ++ rest) = Some (false, n, rest) /\
  strto ("-"%char :: print 10 n ++ rest) = Some (true, n, rest).
Proof.
  intros Hn Hr. destruct (print_head_pos 10 n ltac:(lia) Hn) as (c & tl & E & Hd & H0).
  assert (scan 10 0 (print 10 n ++ rest) = n /\ scan_end 10 (print 10 n ++ rest) = rest) as [E1 E2].
  { split; [apply scan_print; (lia || done)|apply scan_end_print; (lia || done)]. }
  assert (starts_digit 10 (print 10 n ++ rest) = true) as Hs by (by rewrite E).
  unfold strto. split.
  - rewrite E. cbn [app]. rewrite sign_digit by (apply Z.ltb_lt in Hd; apply Z.ltb_lt; lia).
    rewrite detect_decimal by done. change (c :: tl ++ rest) with ((c :: tl) ++ rest). rewrite <- E.
    by rewrite Hs, E1, E2.
  - change (sign (skip_space ("-"%char :: print 10 n ++ rest))) with (true, print 10 n ++ rest).
    rewrite E. cbn [app]. rewrite detect_decimal by done.
    change (c :: tl ++ rest) with ((c :: tl) ++ rest). rewrite <- E. by rewrite Hs, E1, E2.
Qed.

(** No more digits than bits. *)
Lemma digits_length fuel base n acc : (length (digits fuel base n acc) <= fuel + length acc)%nat.
Proof.
  revert n acc. induction fuel as [|k IH]; intros n acc; [done|]. cbn [digits]. destruct (_ <? _); [simpl; lia|].
  specialize (IH (n / base) (digit_char (n mod base) :: acc)). simpl in IH. lia.
Qed.

Lemma print_length base n k : 0 <= n < 2 ^ Z.of_nat k -> (0 < k)%nat -> (length (print base n) <= k)%nat.
Proof.
  intros Hn Hk. unfold print. pose proof (digits_length (S (Z.to_nat (Z.log2 n))) base n []) as Hl.
  cbn [length] in Hl. assert (Z.log2 n < Z.of_nat k); [|pose proof (Z.log2_nonneg n); lia].
  destruct (decide (n = 0)) as [->|]; [simpl; lia|]. apply Z.log2_lt_pow2; lia.
Qed.

(** Every character is a digit. *)
Lemma digits_forall (P : ascii -> Prop) fuel base n acc :
  2 <= base <= 16 -> 0 <= n -> (forall d, 0 <= d < 16 -> P (digit_char d)) -> Forall P acc ->
  Forall P (digits fuel base n acc).
Proof.
  intros Hb Hn HP. revert n acc Hn. induction fuel as [|fuel IH]; intros n acc Hn Hacc; [done|]. cbn [digits].
  pose proof (Z.mod_pos_bound n base ltac:(lia)).
  assert (Forall P (digit_char (n mod base) :: acc)) by (constructor; [apply HP; lia|done]).
  destruct (_ <? _); [done|]. apply IH; [apply Z.div_pos; lia|done].
Qed.

Lemma digit_chars d : 0 <= d < 16 -> digit_char d <> NUL.
Proof. intros Hd E%(f_equal digit_value). rewrite digit_roundtrip in E by done. change (digit_value NUL) with 99 in E. lia. Qed.

Lemma c_string_all bs rest : Forall (fun c => c <> NUL) bs -> c_string (bs ++ NUL :: rest) = bs.
Proof.
  induction 1 as [|c bs Hc _ IH]; simpl; [done|]. destruct (Ascii.eqb_spec c NUL); [done|]. by rewrite IH.
Qed.

Lemma c_string_id bs : Forall (fun c => c <> NUL) bs -> c_string bs = bs.
Proof. induction 1 as [|c bs Hc _ IH]; simpl; [done|]. destruct (Ascii.eqb_spec c NUL); [done|]. by rewrite IH. Qed.
