(* ===== verification/Log.v ===== *)
(** * Log: verbosity of messages, src/support/log.c and
      include/vfn/support/log.h

    The state is the verbosity, what the process has written to its standard
    error, and the status it has ended with.  A message is given with its format
    applied; the atomic accesses to the verbosity are single steps. *)

From Stdlib Require String.
From S2P Require Import Prelude CStr.
Local Open Scope Z_scope.
Local Open Scope vfn_scope.

Record log_state : Type := mk_log {
  log_v : Z;
  log_stderr : list cstr;
  (** the status the process has ended with *)
  log_exit : option Z
}.

Inductive __log_level : Type := LOG_ERROR | LOG_INFO | LOG_DEBUG.
Definition level_num (l : __log_level) : Z :=
  match l with LOG_ERROR => 0 | LOG_INFO => 1 | LOG_DEBUG => 2 end.

Definition logv (v : Z) : M log_state bool := gets (fun st => v <=? log_v st).
Definition logv_set (v : Z) : M log_state unit := modify (fun st => mk_log v (log_stderr st) (log_exit st)).

Definition __do_log (v : Z) (msg : cstr) : M log_state unit :=
  let* b := logv v in
  if (b : bool) then modify (fun st => mk_log (log_v st) (log_stderr st ++ [msg]) (log_exit st)) else ret tt.

(** Where a message is written: [__func__], [__FILE__], [__LINE__]. *)
Record place : Type := mk_place { pl_func : cstr; pl_file : cstr; pl_line : Z }.

Section Log.
(** Whether the library is compiled with [DEBUG], and the value of [LOGV]. *)
Context (DEBUG : bool) (getenv_LOGV : option cstr).

Definition init_log_level : M log_state unit :=
  let set_default := logv_set (if DEBUG then level_num LOG_DEBUG else 0) in
  match getenv_LOGV with
  | None => set_default
  | Some buf =>
      let '(v, endptr, _) := strtol buf in
      if bool_decide (endptr = buf) then set_default else logv_set (s32 v)
  end.

(** The prefix of a message in a build with [DEBUG]. *)
Definition prefixed (letter : ascii) (at_ : place) (msg : cstr) : cstr :=
  if DEBUG then
    letter :: " "%char :: pl_func at_ ++ String.list_ascii_of_string " (" ++ pl_file at_ ++ ":"%char :: print 10 (pl_line at_)
      ++ String.list_ascii_of_string "): " ++ msg
  else msg.

Definition log_error (at_ : place) (msg : cstr) := __do_log (level_num LOG_ERROR) (prefixed "E" at_ msg).
Definition log_info (at_ : place) (msg : cstr) := __do_log (level_num LOG_INFO) (prefixed "I" at_ msg).
Definition log_debug (at_ : place) (msg : cstr) := __do_log (level_num LOG_DEBUG) (prefixed "D" at_ msg).

(** [exit(errno)]: the status is the low byte of [errno]. *)
Definition log_fatal (errno : Z) (at_ : place) (msg : cstr) : M log_state unit :=
  do* log_error at_ msg in
  do* modify (fun st => mk_log (log_v st) (log_stderr st) (Some (Z.land errno 0xff))) in
  crash.

Definition log_fatal_if (expr : bool) (errno : Z) (at_ : place) (msg : cstr) : M log_state unit :=
  when expr (log_fatal errno at_ msg).

(** ** The verbosity *)

(** A message appears when its level is at most the verbosity, once, after
    the messages before it; nothing else changes. *)
Lemma log_shown v msg st :
  __do_log v msg st =
    (Ret tt, if v <=? log_v st then mk_log (log_v st) (log_stderr st ++ [msg]) (log_exit st) else st).
Proof. unfold __do_log, logv, bind, gets, modify, ret. by destruct (v <=? log_v st). Qed.

(** [LOGV] set to a number of type [int], in decimal, is the verbosity; without
    it errors are shown and nothing else, or everything in a [DEBUG] build. *)
Lemma init_log_level_from_env st n :
  (getenv_LOGV = Some (print 10 n) -> 0 < n <= 0x7fffffff -> log_v (snd (init_log_level st)) = n) /\
  (getenv_LOGV = Some ("-"%char :: print 10 n) -> 0 < n <= 0x7fffffff -> log_v (snd (init_log_level st)) = - n) /\
  (getenv_LOGV = None -> log_v (snd (init_log_level st)) = if DEBUG then 2 else 0).
Proof.
  unfold init_log_level. split_and!; intros ->; [intros Hn..|by destruct DEBUG];
    destruct (strto_print n [] ltac:(lia) eq_refl) as [Hp Hm]; rewrite ?app_nil_r in Hp, Hm;
    destruct (print_head_pos 10 n ltac:(lia) ltac:(lia)) as (c & s & E & _);
    unfold strtol; rewrite ?Hp, ?Hm, ?E; unfold LONG_MIN, LONG_MAX; zcases; simpl; apply s32_small; lia.
Qed.

(** An error ends the process, and its message is shown unless the verbosity is
    negative. *)
Lemma log_fatal_ends errno at_ msg st :
  exists st', log_fatal errno at_ msg st = (Crash, st') /\ log_exit st' = Some (Z.land errno 0xff) /\
    log_stderr st' = log_stderr st ++ (if 0 <=? log_v st then [prefixed "E" at_ msg] else []).
Proof.
  unfold log_fatal, log_error, bind. rewrite log_shown. cbn [level_num].
  destruct (0 <=? log_v st); eexists; simpl; rewrite ?app_nil_r; done.
Qed.
End Log.

(** [LOGV] in octal, beyond [int], and without a number. *)
Lemma init_log_level_examples :
  let v s := log_v (snd (init_log_level false (Some (String.list_ascii_of_string s)) (mk_log 7 [] None))) in
  v "010"%string = 8 /\ v "4294967297"%string = 1 /\ v "high"%string = 0 /\ v "-1"%string = -1.
Proof. vm_compute. done. Qed.

(** [log_fatal] with [errno] zero ends the process with the status of success. *)
Lemma fatal_without_errno at_ msg st : log_exit (snd (log_fatal false 0 at_ msg st)) = Some 0.
Proof. unfold log_fatal, bind, log_error. by rewrite log_shown. Qed.
