(* ===== verification/CFloat.v ===== *)
(** * CFloat: numbers with a fraction as text

    What the C library does for [strtod], the conversion [%lf] of [sscanf] and
    the conversion [%f] of [printf], which ccan/opt/helpers.c and
    src/support/ticks.c call.  A floating point number is a [spec_float] of the
    Standard Library; a decimal is converted to the nearest one, ties to even. *)

From Stdlib Require Import SpecFloat.
From S2P Require Import Prelude CStr.
Local Open Scope Z_scope.

(** What the C standard leaves to the implementation. *)
Class FloatText : Type := {
  (** whether a conversion of [num / den], which is below the smallest normal
      number, sets [errno] to [ERANGE] *)
  erange_underflow : Z -> Z -> bool;
  (** what [%f] prints for a NaN *)
  nan_text : cstr
}.

(** ** Rounding *)

Definition round_ratio (neg : bool) (num den : Z) : spec_float :=
  if num =? 0 then S754_zero neg
  else
    let '(q, e, l) := SFdiv_core_binary 53 1024 num 0 den 0 in
    binary_round_aux 53 1024 neg q e l.

(** ** Reading *)

(** The rest of [s] after [word], whatever the case of its letters. *)
Definition strip_word (word s : cstr) : option cstr :=
  if bool_decide (tolower <$> take (length word) s = word) then Some (drop (length word) s) else None.

(** Digits with an optional point: the number without the point, the count
    of digits after it, and the rest. *)
Definition mantissa (base : Z) (s : cstr) : option (Z * Z * cstr) :=
  let whole := scan base 0 s in
  match scan_end base s with
  | "."%char :: f =>
      if starts_digit base s || starts_digit base f then
        Some (scan base whole f, Z.of_nat (length f - length (scan_end base f)), scan_end base f)
      else None
  | rest => if starts_digit base s then Some (whole, 0, rest) else None
  end.

(** The exponent after [letter]; [None] when there is none. *)
Definition exponent (letter : ascii) (s : cstr) : option (Z * cstr) :=
  match s with
  | c :: s' =>
      if bool_decide (tolower c = letter) then
        let '(neg, d) := sign s' in
        if starts_digit 10 d then Some (if neg then - scan 10 0 d else scan 10 0 d, scan_end 10 d) else None
      else None
  | [] => None
  end.

(** What a number stands for. *)
Inductive subject : Type := Infinite | NotANumber | Ratio (num den : Z).

Definition scaled (m base e : Z) : subject :=
  if 0 <=? e then Ratio (m * base ^ e) 1 else Ratio m (base ^ (- e)).

Definition decimal (s : cstr) : option (subject * cstr) :=
  match mantissa 10 s with
  | Some (m, k, rest) =>
      let '(e, rest) := default (0, rest) (exponent "e" rest) in
      Some (scaled m 10 (e - k), rest)
  | None => None
  end.

Definition hexadecimal (s : cstr) : option (subject * cstr) :=
  match s with
  | "0"%char :: (("x" | "X")%char :: h) =>
      match mantissa 16 h with
      | Some (m, k, rest) =>
          let '(e, rest) := default (0, rest) (exponent "p" rest) in
          Some (scaled m 2 (e - 4 * k), rest)
      | None => None
      end
  | _ => None
  end.

(** The characters allowed between the parentheses after [nan]. *)
Definition nan_char (c : ascii) : bool := (digit_value c <? 36) || bool_decide (c = "_"%char).
Fixpoint nan_close (s : cstr) : option cstr :=
  match s with
  | ")"%char :: s' => Some s'
  | c :: s' => if nan_char c then nan_close s' else None
  | [] => None
  end.

Definition special (s : cstr) : option (subject * cstr) :=
  match strip_word (String.list_ascii_of_string "infinity") s, strip_word (String.list_ascii_of_string "inf") s with
  | Some rest, _ => Some (Infinite, rest)
  | None, Some rest => Some (Infinite, rest)
  | None, None =>
      match strip_word (String.list_ascii_of_string "nan") s with
      | Some (("("%char :: rest) as after) => Some (NotANumber, default after (nan_close rest))
      | Some after => Some (NotANumber, after)
      | None => None
      end
  end.

(** The number at the start of [s], which has neither space nor sign before
    it, and the rest. *)
Definition subject_of (s : cstr) : option (subject * cstr) :=
  match special s, hexadecimal s with
  | Some r, _ => Some r
  | None, Some r => Some r
  | None, None => decimal s
  end.

Definition float_of (neg : bool) (v : subject) : spec_float :=
  match v with
  | Infinite => S754_infinity neg
  | NotANumber => S754_nan
  | Ratio num den => round_ratio neg num den
  end.

Section Text.
Context {text : FloatText}.

(** Whether the conversion of a number reports that it is out of range: it is too
    large for a finite number, or too small for a normal one. *)
Definition out_of_range (neg : bool) (v : subject) : bool :=
  match v with
  | Ratio num den =>
      match round_ratio neg num den with
      | S754_infinity _ => true
      | _ => negb (num =? 0) && (num * 2 ^ 1022 <? den) && erange_underflow num den
      end
  | _ => false
  end.

(** [strtod(s, &endptr)]: the value, [endptr], and whether [errno] is [ERANGE]. *)
Definition strtod (s : cstr) : spec_float * cstr * bool :=
  let '(neg, t) := sign (skip_space s) in
  match subject_of t with
  | Some (v, rest) => (float_of neg v, rest, out_of_range neg v)
  | None => (S754_zero false, s, false)
  end.

(** ** Printing *)

(** The nearest integer to [num / den], ties to even. *)
Definition nearest (num den : Z) : Z :=
  let q := num / den in
  let r := num mod den in
  if (2 * r <? den) || (2 * r =? den) && Z.even q then q else q + 1.

(** [%f] of a number of millionths. *)
Definition print_millionths (n : Z) : cstr :=
  let f := print 10 (n mod 1000000) in
  print 10 (n / 1000000) ++ "."%char :: replicate (6 - length f) "0"%char ++ f.

Definition printf_f (x : spec_float) : cstr :=
  let signed (neg : bool) (s : cstr) := if neg then "-"%char :: s else s in
  match x with
  | S754_zero neg => signed neg (print_millionths 0)
  | S754_infinity neg => signed neg (String.list_ascii_of_string "inf")
  | S754_nan => nan_text
  | S754_finite neg m e =>
      signed neg (print_millionths
        (if 0 <=? e then Zpos m * 2 ^ e * 1000000 else nearest (Zpos m * 1000000) (2 ^ (- e))))
  end.
End Text.

(** ** [sscanf] *)

(** [sscanf] takes the longest input that starts a number, and fails when
    that is not a number: an exponent without digits, [0x] without digits, a
    part of [infinity], an open parenthesis after [nan]. *)
Definition starts (letter : ascii) (s : cstr) : bool :=
  match s with c :: _ => bool_decide (tolower c = letter) | [] => false end.
Definition open_exponent (letter : ascii) (m : option (Z * Z * cstr)) : bool :=
  match m with
  | Some (_, _, rest) => starts letter rest && bool_decide (exponent letter rest = None)
  | None => false
  end.
Definition dangling (s : cstr) : bool :=
  match special s, hexadecimal s with
  | Some (Infinite, rest), _ => (length s - length rest =? 3)%nat && starts "i" rest
  | Some (_, rest), _ => (length s - length rest =? 3)%nat && starts "(" rest
  | None, Some _ => open_exponent "p" (mantissa 16 (drop 2 s))
  | None, None => open_exponent "e" (mantissa 10 s) || bool_decide (head s = Some "0"%char) && starts "x" (drop 1 s)
  end.

Definition scan_lf (s : cstr) : option spec_float :=
  let '(neg, t) := sign (skip_space s) in
  match subject_of t with
  | Some (v, _) => if dangling t then None else Some (float_of neg v)
  | None => None
  end.

(** [%d]: an integer in decimal.  One that does not fit [int] is undefined. *)
Definition scan_d (s : cstr) : outcome (option Z) :=
  let '(neg, t) := sign (skip_space s) in
  if starts_digit 10 t then
    let v := if neg then - scan 10 0 t else scan 10 0 t in
    if (v <? -0x80000000) || (0x7fffffff <? v) then Crash else Ret (Some v)
  else Ret None.

(** The text of a format before its conversion: a space stands for any
    amount of space, other characters for themselves.  [None] when the input does
    not match. *)
Fixpoint scan_text (fmt s : cstr) : option cstr :=
  match fmt with
  | [] => Some s
  | c :: fmt' =>
      if isspace c then scan_text fmt' (skip_space s)
      else match s with
           | c' :: s' => if bool_decide (c = c') then scan_text fmt' s' else None
           | [] => None
           end
  end.

(** ** Integers *)

Lemma digits2_log2 p : Zpos (digits2_pos p) = Z.log2 (Zpos p) + 1.
Proof.
  assert (digits2_pos p = Pos.size p) as -> by (induction p; simpl; congruence).
  destruct p; simpl; lia.
Qed.

(** A mantissa of 53 bits is not rounded. *)
Lemma round_aux_canonical neg m e :
  Z.log2 m = 52 -> -1074 <= e <= 971 ->
  binary_round_aux 53 1024 neg m e loc_Exact = S754_finite neg (Z.to_pos m) e.
Proof.
  intros Hm He. destruct m as [|p|]; [done| |done].
  assert (forall l, shr_fexp 53 1024 (Zpos p) e l = (shr_record_of_loc (Zpos p) l, e)) as Hs.
  { intros l. unfold shr_fexp, fexp, emin, Zdigits2. rewrite digits2_log2, Hm.
    replace (Z.max (52 + 1 + e - 53) (3 - 1024 - 53) - e) with 0 by lia. done. }
  unfold binary_round_aux. rewrite Hs. cbn [shr_record_of_loc shr_m loc_of_shr_record round_nearest_even].
  rewrite Hs. cbn [shr_record_of_loc shr_m Z.to_pos]. by rewrite (proj2 (Z.leb_le _ _)) by lia.
Qed.

(** The double of an integer below [2 ^ 53]. *)
Definition int_float (neg : bool) (n : Z) : spec_float :=
  S754_finite neg (Z.to_pos (n * 2 ^ (52 - Z.log2 n))) (Z.log2 n - 52).

Lemma log2_lt n k : 0 < n < 2 ^ k -> 0 <= Z.log2 n < k.
Proof. intros Hn. split; [apply Z.log2_nonneg|]. apply Z.log2_lt_pow2; lia. Qed.

Lemma log2_scaled n : 0 < n < 2 ^ 53 -> Z.log2 (n * 2 ^ (52 - Z.log2 n)) = 52.
Proof. intros Hn. pose proof (log2_lt n 53 Hn). rewrite Z.log2_mul_pow2 by lia. lia. Qed.

Lemma round_integer neg p : Zpos p < 2 ^ 53 -> binary_round 53 1024 neg p 0 = int_float neg (Zpos p).
Proof.
  intros Hp. pose proof (log2_lt (Zpos p) 53 ltac:(lia)) as Hl. pose proof (log2_scaled (Zpos p) ltac:(lia)) as Hs.
  unfold binary_round, shl_align, fexp, emin. rewrite digits2_log2.
  replace (Z.max (Z.log2 (Zpos p) + 1 + 0 - 53) (3 - 1024 - 53) - 0) with (Z.log2 (Zpos p) - 52) by lia.
  replace (Z.max _ _) with (Z.log2 (Zpos p) - 52) by lia. unfold int_float.
  destruct (Z.log2 (Zpos p) - 52) as [|d|d] eqn:E; [|lia|].
  - replace (52 - Z.log2 (Zpos p)) with 0 by lia. rewrite round_aux_canonical by lia. by rewrite Z.mul_1_r.
  - assert (Zpos (Pos.iter xO p d) = Zpos p * 2 ^ (52 - Z.log2 (Zpos p))) as Ed.
    { replace (52 - Z.log2 (Zpos p)) with (Zpos d) by lia. rewrite <- Z.shiftl_mul_pow2 by lia.
      apply Pos.iter_swap_gen. done. }
    rewrite Ed, round_aux_canonical; (done || lia).
Qed.

(** One bit too many, which is zero, is cut off. *)
Lemma round_aux_even neg m e :
  Z.log2 m = 52 -> -1073 <= e <= 971 ->
  binary_round_aux 53 1024 neg (2 * m) (e - 1) loc_Exact = S754_finite neg (Z.to_pos m) e.
Proof.
  intros Hm He. destruct m as [|p|]; [done| |done]. change (2 * Zpos p) with (Zpos p~0).
  rewrite <- (round_aux_canonical neg (Zpos p) e) by lia. unfold binary_round_aux at 1.
  assert (shr_fexp 53 1024 (Zpos p~0) (e - 1) loc_Exact = (shr_record_of_loc (Zpos p) loc_Exact, e)) as ->.
  { unfold shr_fexp, fexp, emin, Zdigits2. rewrite digits2_log2. change (Zpos p~0) with (2 * Zpos p).
    rewrite Z.log2_double, Hm by lia.
    replace (Z.max _ _ - (e - 1)) with 1 by lia. simpl. f_equal. lia. }
  unfold binary_round_aux.
  assert (shr_fexp 53 1024 (Zpos p) e loc_Exact = (shr_record_of_loc (Zpos p) loc_Exact, e)) as ->; [|done].
  unfold shr_fexp, fexp, emin, Zdigits2. rewrite digits2_log2, Hm. replace (Z.max _ _ - e) with 0 by lia. done.
Qed.

Lemma ratio_integer neg n d : 0 < n < 2 ^ 53 -> 0 < d < 2 ^ 900 -> round_ratio neg (n * d) d = int_float neg n.
Proof.
  intros Hn Hd. pose proof (log2_lt n 53 Hn) as Hl. pose proof (log2_lt d 900 Hd) as Hld.
  pose proof (log2_scaled n Hn) as Hs. unfold round_ratio. destruct (Z.eqb_spec (n * d) 0); [nia|].
  pose proof (Z.log2_mul_below n d ltac:(lia) ltac:(lia)). pose proof (Z.log2_mul_above n d ltac:(lia) ltac:(lia)).
  assert (forall z, 0 < z -> Zdigits2 z = Z.log2 z + 1) as Hdig.
  { intros [|z|z] Hz; [lia|apply digits2_log2|lia]. }
  unfold SFdiv_core_binary, fexp, emin. rewrite !Hdig by nia.
  set (k := Z.log2 (n * d) - Z.log2 d - Z.log2 n) in *.
  replace (Z.min _ _) with (Z.log2 n + k - 53) by lia.
  assert (match 0 - 0 - (Z.log2 n + k - 53) with
          | 0 => n * d | Z.pos _ => Z.shiftl (n * d) (0 - 0 - (Z.log2 n + k - 53)) | Z.neg _ => 0 end
          = n * 2 ^ (53 - Z.log2 n - k) * d) as ->.
  { replace (0 - 0 - (Z.log2 n + k - 53)) with (53 - Z.log2 n - k) by lia.
    destruct (53 - Z.log2 n - k) eqn:E; [rewrite Z.pow_0_r; lia| |lia].
    rewrite <- E, Z.shiftl_mul_pow2 by lia. lia. }
  assert (Z.div_eucl (n * 2 ^ (53 - Z.log2 n - k) * d) d = (n * 2 ^ (53 - Z.log2 n - k), 0)) as ->.
  { rewrite (surjective_pairing (Z.div_eucl _ _)). change (fst _) with (n * 2 ^ (53 - Z.log2 n - k) * d / d).
    change (snd _) with ((n * 2 ^ (53 - Z.log2 n - k) * d) mod d). by rewrite Z.div_mul, Z.mod_mul by lia. }
  assert (new_location d 0 = loc_Exact) as -> by (unfold new_location, new_location_even, new_location_odd; by destruct (Z.even d)).
  assert (k = 0 \/ k = 1) as [-> | ->] by lia.
  - replace (53 - Z.log2 n - 0) with (Z.succ (52 - Z.log2 n)) by lia. rewrite Z.pow_succ_r by lia.
    replace (n * (2 * 2 ^ (52 - Z.log2 n))) with (2 * (n * 2 ^ (52 - Z.log2 n))) by lia.
    replace (Z.log2 n + 0 - 53) with ((Z.log2 n - 52) - 1) by lia. apply round_aux_even; lia.
  - replace (53 - Z.log2 n - 1) with (52 - Z.log2 n) by lia. replace (Z.log2 n + 1 - 53) with (Z.log2 n - 52) by lia.
    apply round_aux_canonical; lia.
Qed.

(** ** Integers as text *)

Definition zeros : cstr := String.list_ascii_of_string ".000000".

Lemma nearest_exact q d : 0 < d -> nearest (q * d) d = q.
Proof. intros Hd. unfold nearest. rewrite Z.div_mul, Z.mod_mul by lia. destruct d; (lia || done). Qed.

Lemma print_whole n : print_millionths (n * 1000000) = print 10 n ++ zeros.
Proof. unfold print_millionths. by rewrite Z.div_mul, Z.mod_mul by lia. Qed.

Lemma printf_integer `{FloatText} neg n :
  0 < n < 2 ^ 53 -> printf_f (int_float neg n) = (if neg then ["-"%char] else []) ++ print 10 n ++ zeros.
Proof.
  intros Hn. pose proof (log2_lt n 53 Hn) as Hl. unfold printf_f, int_float.
  assert (0 < 2 ^ (52 - Z.log2 n)) by (apply Z.pow_pos_nonneg; lia). rewrite Z2Pos.id by nia.
  replace (if 0 <=? Z.log2 n - 52 then _ else _) with (n * 1000000); [rewrite print_whole; by destruct neg|].
  destruct (Z.leb_spec 0 (Z.log2 n - 52)).
  - replace (Z.log2 n) with 52 by lia. lia.
  - replace (- (Z.log2 n - 52)) with (52 - Z.log2 n) by lia.
    replace (n * 2 ^ (52 - Z.log2 n) * 1000000) with (n * 1000000 * 2 ^ (52 - Z.log2 n)) by lia. by rewrite nearest_exact.
Qed.

Lemma digit_decimal c s :
  (digit_value c <? 10) = true -> c <> "0"%char -> subject_of (c :: s) = decimal (c :: s).
Proof.
  intros Hc H0. unfold subject_of.
  assert (special (c :: s) = None) as ->.
  { unfold special, strip_word. simpl. destruct c as [[] [] [] [] [] [] [] []]; try done. }
  unfold hexadecimal. destruct c as [[] [] [] [] [] [] [] []]; done.
Qed.

Lemma decimal_integer n :
  0 < n -> decimal (print 10 n ++ zeros) = Some (Ratio (n * 1000000) 1000000, []).
Proof.
  intros Hn. unfold decimal, mantissa. rewrite scan_end_print, scan_print by (lia || done).
  destruct (print_head 10 n ltac:(lia) ltac:(lia)) as (c & tl & -> & Hd). unfold zeros.
  cbn -[Z.mul Z.add Z.ltb scan]. rewrite Hd.
  replace (scan 10 n _) with (n * 1000000) 
    by (cbn [scan]; change (digit_value "0"%char) with 0; change (0 <? 10) with true; cbv iota; lia). done.
Qed.

Lemma strtod_integer `{FloatText} (neg : bool) n :
  0 < n < 2 ^ 53 ->
  strtod ((if neg then ["-"%char] else []) ++ print 10 n ++ zeros) = (int_float neg n, [], false).
Proof.
  intros Hn. destruct (print_head_pos 10 n ltac:(lia) ltac:(lia)) as (c & tl & E & Hd & H0).
  assert (sign (skip_space ((if neg then ["-"%char] else []) ++ print 10 n ++ zeros)) = (neg, print 10 n ++ zeros)) as Hs.
  { destruct neg; [done|]. rewrite E. apply sign_digit. apply Z.ltb_lt in Hd. apply Z.ltb_lt. lia. }
  unfold strtod. rewrite Hs. pose proof (decimal_integer n ltac:(lia)) as Ed. rewrite E in Ed |- *.
  cbn [app] in Ed |- *. rewrite digit_decimal, Ed by done. unfold float_of, out_of_range.
  rewrite ratio_integer by lia. unfold int_float. f_equal.
  rewrite (proj2 (Z.ltb_ge _ _)) by nia. by rewrite andb_false_r.
Qed.
