(* ===== verification/Io.v ===== *)
(** * Io: whole reads and writes of files, src/support/io.c

    [write] and [read] may take or give less than asked for and may be
    interrupted; [writeallfd] and [readmaxfd] repeat them.  The files behind the
    descriptors are the class [Files]: the system calls, and what their manual
    pages say of the data they move. *)

From Stdlib Require Export Ascii.
From Stdlib Require String.
From stdpp Require Export strings.
From S2P Require Import Prelude.
Local Open Scope Z_scope.
Local Open Scope vfn_scope.

(** [f_written f fd] is the data accepted through a descriptor, [f_input f fd]
    the data it has yet to deliver.  [f_quota] bounds how often the calls are
    going to be interrupted or to take nothing: the loops below have no bound of
    their own. *)
Class Files (F : Type) : Type := {
  (** [open(path, O_WRONLY)], [open(path, O_RDONLY)], [close] *)
  f_open_wronly : string -> M F Z;
  f_open_rdonly : string -> M F Z;
  f_close : Z -> M F unit;
  (** [write(fd, buf, count)]: the number of bytes taken *)
  f_write : Z -> list ascii -> M F Z;
  (** [read(fd, buf, count)]: the bytes stored in the buffer *)
  f_read : Z -> Z -> M F (list ascii);
  f_close_law fd f : fst (f_close fd f) <> Crash;
  f_written : F -> Z -> list ascii;
  f_input : F -> Z -> list ascii;
  f_quota : F -> nat;
  f_write_law f fd bs :
    match f_write fd bs f with
    | (Ret n, f') =>
        0 <= n <= Z.of_nat (length bs) /\ f_written f' fd = f_written f fd ++ take (Z.to_nat n) bs /\
        (f_quota f' <= f_quota f)%nat /\ (n = 0 -> bs <> [] -> (f_quota f' < f_quota f)%nat)
    | (Fail e, f') =>
        f_written f' fd = f_written f fd /\ (e = EINTR \/ e = EAGAIN -> (f_quota f' < f_quota f)%nat)
    | (Crash, _) => False
    end;
  f_read_law f fd n :
    0 <= n ->
    match f_read fd n f with
    | (Ret bs, f') =>
        Z.of_nat (length bs) <= n /\ f_input f fd = bs ++ f_input f' fd /\
        (f_quota f' <= f_quota f)%nat /\ (bs = [] -> 0 < n -> f_input f fd = [])
    | (Fail e, f') =>
        f_input f' fd = f_input f fd /\ (e = EINTR \/ e = EAGAIN -> (f_quota f' < f_quota f)%nat)
    | (Crash, _) => False
    end
}.

Definition interrupted (e : errno) : bool :=
  match e with EINTR | EAGAIN => true | _ => false end.

Section Ops.
Context {F : Type} {files : Files F}.

(** The loop with [pos] bytes written; [continue] goes to its condition. *)
Fixpoint write_loop (fuel : nat) (fd : Z) (buf : list ascii) (pos : Z) : M F Z :=
  match fuel with
  | O => crash
  | S fuel' =>
      let count := Z.of_nat (length buf) in
      let* r := try (f_write fd (drop (Z.to_nat pos) buf)) in
      match r with
      | inl e =>
          if interrupted e then
            if pos <? count then write_loop fuel' fd buf pos else ret count
          else fail e
      | inr n =>
          if pos + n <? count then write_loop fuel' fd buf (pos + n) else ret count
      end
  end.

Definition writeallfd (fuel : nat) (fd : Z) (buf : list ascii) : M F Z := write_loop fuel fd buf 0.

(** [do] [close] on both ways out, then the result. *)
Definition closing {A} (fd : Z) (m : M F A) : M F A :=
  let* r := try m in
  do* fatal_if (f_close fd) in
  match r with inl e => fail e | inr a => ret a end.

Definition writeall (fuel : nat) (path : string) (buf : list ascii) : M F Z :=
  let* fd := f_open_wronly path in
  closing fd (writeallfd fuel fd buf).

(** The loop with [got] read so far: [pos] is its length. *)
Fixpoint read_loop (fuel : nat) (fd count : Z) (got : list ascii) : M F (list ascii) :=
  match fuel with
  | O => crash
  | S fuel' =>
      let pos := Z.of_nat (length got) in
      let* r := try (f_read fd (count - pos)) in
      match r with
      | inl e =>
          if interrupted e then
            if pos <? count then read_loop fuel' fd count got else ret got
          else fail e
      | inr bs =>
          match bs with
          | [] => ret got
          | _ =>
              if pos + Z.of_nat (length bs) <? count then read_loop fuel' fd count (got ++ bs)
              else ret (got ++ bs)
          end
      end
  end.

(** The bytes stored in the buffer; the C function returns their number. *)
Definition readmaxfd (fuel : nat) (fd count : Z) : M F (list ascii) := read_loop fuel fd count [].

Definition readmax (fuel : nat) (path : string) (count : Z) : M F (list ascii) :=
  let* fd := f_open_rdonly path in
  closing fd (readmaxfd fuel fd count).

(** ** What the loops do *)

Lemma interrupted_spec e : interrupted e = true -> e = EINTR \/ e = EAGAIN.
Proof. destruct e; simpl; auto; done. Qed.

Lemma write_loop_spec fuel fd buf pos f :
  0 <= pos <= Z.of_nat (length buf) -> (pos < Z.of_nat (length buf) \/ buf = []) ->
  (f_quota f + (length buf - Z.to_nat pos) < fuel)%nat ->
  match write_loop fuel fd buf pos f with
  | (Ret n, f') =>
      n = Z.of_nat (length buf) /\ f_written f' fd = f_written f fd ++ drop (Z.to_nat pos) buf
  | (Fail e, f') =>
      interrupted e = false /\
      exists k, f_written f' fd = f_written f fd ++ take k (drop (Z.to_nat pos) buf)
  | (Crash, _) => False
  end.
Proof.
  revert pos f. induction fuel as [|fuel IH]; intros pos f Hp Hc Hfuel; [lia|].
  cbn [write_loop]. unfold bind, try. pose proof (f_write_law f fd (drop (Z.to_nat pos) buf)) as Hw.
  rewrite length_drop in Hw. destruct (f_write _ _ _) as [[n|e|] f1]; [..|done].
  - destruct Hw as (Hn & Hout & Hq & Hz). destruct (Z.ltb_spec (pos + n) (Z.of_nat (length buf))) as [Hlt|Hge].
    + assert (Z.to_nat (pos + n) = Z.to_nat pos + Z.to_nat n)%nat as Ea by lia.
      specialize (IH (pos + n) f1 ltac:(lia) ltac:(by left)). rewrite Ea in IH.
      assert (f_quota f1 + (length buf - (Z.to_nat pos + Z.to_nat n)) < fuel)%nat as Hf1.
      { destruct (decide (n = 0)) as [->|]; [|lia]. assert (f_quota f1 < f_quota f)%nat; [|lia].
        apply Hz; [done|]. intros E%(f_equal length). rewrite length_drop in E. simpl in E. lia. }
      specialize (IH Hf1). rewrite Hout, <- drop_drop in IH. destruct (write_loop _ _ _ _ _) as [[m|e|] f2]; [..|done].
      * destruct IH as [-> ->]. split; [done|]. by rewrite <- (assoc_L (++)), take_drop.
      * destruct IH as (He & k & ->). split; [done|]. exists (Z.to_nat n + k)%nat. rewrite <- (assoc_L (++)).
        f_equal. rewrite <- (take_drop (Z.to_nat n) (drop (Z.to_nat pos) buf)) at 3.
        rewrite take_app, take_take, length_take, length_drop, drop_drop.
        repeat f_equal; lia.
    + split; [done|]. rewrite Hout, take_ge; [done|]. rewrite length_drop. lia.
  - destruct Hw as [Hout Hq]. destruct (interrupted e) eqn:Ee.
    + apply interrupted_spec, Hq in Ee. destruct (Z.ltb_spec pos (Z.of_nat (length buf))).
      * specialize (IH pos f1 Hp Hc ltac:(lia)). by rewrite Hout in IH.
      * destruct Hc as [? | ->]; [lia|]. split; [done|]. rewrite drop_nil, app_nil_r. done.
    + split; [done|]. exists 0%nat. by rewrite take_0, app_nil_r.
Qed.

Lemma read_loop_spec fuel fd count got f :
  (Z.of_nat (length got) < count \/ got = []) -> 0 <= count ->
  (f_quota f + (Z.to_nat count - length got) < fuel)%nat ->
  match read_loop fuel fd count got f with
  | (Ret bs, f') =>
      exists rest, bs = got ++ rest /\ f_input f fd = rest ++ f_input f' fd /\
        rest = take (Z.to_nat count - length got) (f_input f fd)
  | (Fail e, _) => interrupted e = false /\ exists n g g', f_read fd n g = (Fail e, g')
  | (Crash, _) => False
  end.
Proof.
  revert got f. induction fuel as [|fuel IH]; intros got f Hg Hcount Hfuel; [lia|].
  cbn [read_loop]. unfold bind, try. 
  pose proof (f_read_law f fd (count - Z.of_nat (length got))) as Hr. specialize (Hr ltac:(destruct Hg as [? | ->]; simpl; lia)).
  destruct (f_read _ _ _) as [[bs|e|] f1] eqn:Er; [..|done].
  - destruct Hr as (Hn & Hin & Hq & Hz). destruct bs as [|x bs].
    + exists []. rewrite app_nil_r. split; [done|]. split; [by rewrite Hin|].
      destruct (decide (Z.of_nat (length got) < count)).
      * by rewrite Hz, take_nil by (done || lia).
      * destruct Hg as [? | ->]; [lia|]. simpl in *. assert (count = 0) as -> by lia. done.
    + assert (x :: bs = take (length (x :: bs)) (f_input f fd)) as Ebs by (by rewrite Hin, take_app_length).
      destruct (Z.ltb_spec (Z.of_nat (length got) + Z.of_nat (length (x :: bs))) count) as [Hlt|Hge].
      * specialize (IH (got ++ x :: bs) f1). rewrite length_app in IH.
        specialize (IH ltac:(left; lia) Hcount ltac:(simpl; simpl in Hlt; lia)).
        destruct (read_loop _ _ _ _ _) as [[bs'|e|] f2]; [|done..].
        destruct IH as (rest & -> & Hi2 & Hrest). exists (x :: bs ++ rest).
        split; [by rewrite <- (assoc_L (++))|]. split; [rewrite Hin, Hi2; simpl; by rewrite (assoc_L (++))|].
        rewrite Hin, take_app, (take_ge (x :: bs)) by lia.
        change (x :: bs ++ rest) with ((x :: bs) ++ rest). rewrite Hrest at 1. do 2 f_equal. lia.
      * exists (x :: bs). split; [done|]. split; [done|]. rewrite Ebs at 1. f_equal. lia.
  - destruct Hr as [Hin Hq]. destruct (interrupted e) eqn:Ee; [|split; [done|by do 3 eexists]]. apply interrupted_spec, Hq in Ee.
    destruct (Z.ltb_spec (Z.of_nat (length got)) count).
    + specialize (IH got f1 ltac:(by left) Hcount ltac:(lia)). by rewrite Hin in IH.
    + destruct Hg as [? | ->]; [lia|]. exists []. simpl in *. split; [done|]. split; [by rewrite Hin|].
      assert (count = 0) as -> by lia. done.
Qed.

(** C32. [writeallfd] returns however the calls are interrupted or cut short:
    with success it has written exactly the buffer, in order, once, and returns
    its length; with an error, which is never an interruption, it has written a
    prefix of the buffer. *)
Theorem writeallfd_complete fuel fd buf f :
  (f_quota f + length buf < fuel)%nat ->
  match writeallfd fuel fd buf f with
  | (Ret n, f') => n = Z.of_nat (length buf) /\ f_written f' fd = f_written f fd ++ buf
  | (Fail e, f') =>
      interrupted e = false /\ exists k, f_written f' fd = f_written f fd ++ take k buf
  | (Crash, _) => False
  end.
Proof.
  intros Hf. apply (write_loop_spec fuel fd buf 0 f); [lia| |lia].
  destruct buf; [by right|left; simpl; lia].
Qed.

(** [readmaxfd] returns however the calls are interrupted or cut short:
    with success it has read the first [count] bytes of what there was, or all
    of it when there was less, and left the rest; an error, which is never an
    interruption, is the error of one of the reads. *)
Theorem readmaxfd_complete fuel fd count f :
  0 <= count -> (f_quota f + Z.to_nat count < fuel)%nat ->
  match readmaxfd fuel fd count f with
  | (Ret bs, f') =>
      bs = take (Z.to_nat count) (f_input f fd) /\ f_input f' fd = drop (Z.to_nat count) (f_input f fd)
  | (Fail e, _) => interrupted e = false /\ exists n g g', f_read fd n g = (Fail e, g')
  | (Crash, _) => False
  end.
Proof.
  intros Hc Hf. pose proof (read_loop_spec fuel fd count [] f ltac:(by right) Hc ltac:(simpl; lia)) as H.
  unfold readmaxfd. destruct (read_loop _ _ _ _ _) as [[bs|e|] f']; [|done..].
  destruct H as (rest & -> & Hin & Hrest). simpl in *. rewrite Nat.sub_0_r in Hrest. split; [done|].
  rewrite <- (take_drop (Z.to_nat count) (f_input f fd)), <- Hrest in Hin at 1.
  by apply app_inv_head in Hin.
Qed.
End Ops.

(** ** A concrete descriptor

    One pipe in each direction; [p_script] says how the next calls are
    interrupted or cut short. *)
Record pipe : Type := mk_pipe { p_in : list ascii; p_out : list ascii; p_script : list (errno + nat) }.

Definition pipe_write (fd : Z) (bs : list ascii) : M pipe Z := fun p =>
  match p_script p with
  | [] => (Ret (Z.of_nat (length bs)), mk_pipe (p_in p) (p_out p ++ bs) [])
  | inl e :: sc => (Fail e, mk_pipe (p_in p) (p_out p) sc)
  | inr n :: sc =>
      (Ret (Z.of_nat (length (take n bs))), mk_pipe (p_in p) (p_out p ++ take n bs) sc)
  end.

Definition pipe_read (fd n : Z) : M pipe (list ascii) := fun p =>
  match p_script p with
  | inl e :: sc => (Fail e, mk_pipe (p_in p) (p_out p) sc)
  | sc =>
      let k := match sc with inr k :: _ => Nat.min (S k) (Z.to_nat n) | _ => Z.to_nat n end in
      (Ret (take k (p_in p)), mk_pipe (drop k (p_in p)) (p_out p) (tail sc))
  end.

#[local] Instance pipe_files : Files pipe.
Proof.
  refine {| f_open_wronly _ := ret 3; f_open_rdonly _ := ret 3; f_close _ := ret tt;
    f_write := pipe_write; f_read := pipe_read;
    f_written p _ := p_out p; f_input p _ := p_in p; f_quota p := length (p_script p) |}.
  - done.
  - intros [i o [|[e|n] sc]] fd bs; simpl.
    + split; [lia|]. rewrite Nat2Z.id, take_ge by lia. split; [done|]. split; [lia|]. by destruct bs.
    + split; [done|lia].
    + rewrite Nat2Z.id, length_take. split; [lia|]. split; [|lia]. f_equal.
      destruct (decide (n <= length bs)%nat); [by rewrite Nat.min_l by lia|].
      rewrite Nat.min_r, !take_ge by lia. done.
  - intros [i o [|[e|n] sc]] fd k Hk; cbn -[take drop Nat.min]; [|split; [done|lia]|];
      (rewrite length_take, take_drop; split; [lia|]; split; [done|]; split; [lia|]);
      intros E%(f_equal length) ?; rewrite length_take in E; cbn -[Nat.min] in E; apply nil_length_inv; lia.
Defined.

Definition demo_pipe : pipe :=
  mk_pipe (String.list_ascii_of_string "0x010802") [] [inr 2%nat; inl EINTR; inr 0%nat; inl EAGAIN].

Lemma writeallfd_complete_witness :
  f_written (snd (writeallfd 20 3 (String.list_ascii_of_string "0000:01:00.0") demo_pipe)) 3 =
    String.list_ascii_of_string "0000:01:00.0".
Proof.
  pose proof (writeallfd_complete 20 3 (String.list_ascii_of_string "0000:01:00.0") demo_pipe
    ltac:(apply Nat.ltb_lt; vm_compute; reflexivity)) as H.
  destruct (writeallfd 20 3 _ demo_pipe) as [o f'] eqn:E. vm_compute in E. injection E as <- <-.
  exact (proj2 H).
Defined.

Lemma readmaxfd_complete_witness :
  fst (readmaxfd 60 3 32 demo_pipe) = Ret (String.list_ascii_of_string "0x010802").
Proof.
  pose proof (readmaxfd_complete 60 3 32 demo_pipe ltac:(lia)
    ltac:(apply Nat.ltb_lt; vm_compute; reflexivity)) as H.
  destruct (readmaxfd 60 3 32 demo_pipe) as [o f'] eqn:E. vm_compute in E. injection E as <- <-.
  exact (f_equal Ret (proj1 H)).
Defined.
