(* ===== verification/Trace.v ===== *)
(** * Trace: trace events, src/trace.c

    Which events are active is set by name prefix, from the environment when the
    library is loaded ([init_trace_events]) or by a call; messages of an event
    can be rate limited by the tick counter ([__trace_ratelimited]).  The table
    of events is generated by the build, so it is an argument. *)

From Stdlib Require String.
From S2P Require Import Prelude CStr Io.
Local Open Scope Z_scope.
Local Open Scope vfn_scope.

(** ** Tokens *)

Definition comma : ascii := ",".

(** The characters before the first comma, and the rest from it on. *)
Fixpoint until_comma (s : cstr) : cstr * cstr :=
  match s with
  | [] => ([], [])
  | c :: s' => if bool_decide (c = comma) then ([], s) else let '(t, r) := until_comma s' in (c :: t, r)
  end.
Fixpoint skip_commas (s : cstr) : cstr :=
  match s with
  | c :: s' => if bool_decide (c = comma) then skip_commas s' else s
  | [] => []
  end.

(** [strtok] with the delimiter ",": the next token and the position it saves. *)
Definition strtok (s : cstr) : option (cstr * cstr) :=
  match skip_commas s with
  | [] => None
  | s' => let '(tok, r) := until_comma s' in Some (tok, tail r)
  end.

(** ** Events *)

Record trace_event : Type := mk_event { te_name : cstr; te_active : bool }.

Definition trace_set_active (prefix : cstr) (active : bool) (events : list trace_event) : list trace_event :=
  map (fun e => if strncmp_eq (length prefix) prefix (te_name e) then mk_event (te_name e) active else e) events.

(** The sign a token may start with. *)
Definition token_sign (tok : cstr) : bool * cstr :=
  match tok with
  | c :: tok' => if bool_decide (c = "-"%char) then (false, tok')
                 else if bool_decide (c = "+"%char) then (true, tok') else (true, tok)
  | [] => (true, [])
  end.

(** The loop over the tokens of [buf]. *)
Fixpoint token_loop (fuel : nat) (buf : cstr) (events : list trace_event) : outcome (list trace_event) :=
  match fuel with
  | O => Crash
  | S fuel' =>
      match strtok buf with
      | None => Ret events
      | Some (tok, buf') =>
          let '(activate, prefix) := token_sign tok in
          token_loop fuel' buf' (trace_set_active prefix activate events)
      end
  end.

(** [orig] is [getenv("VFN_TRACE_EVENTS")]. *)
Definition init_trace_events (orig : option cstr) (events : list trace_event) : outcome (list trace_event) :=
  match orig with
  | None => Ret events
  | Some buf => token_loop (S (length buf)) buf events
  end.

(** ** Rate limiting *)

Record trace_ratelimit_state : Type := mk_rs {
  rs_interval : Z; rs_skipped : Z; rs_tag : Z; rs_begin : Z; rs_end : Z
}.

(** The tick counter: [get_ticks()] reads it, and time passes. *)
Class Ticks (T : Type) : Type := {
  get_ticks : T -> Z * T;
  ticks_now : T -> Z;
  get_ticks_law t : ticks_now t <= fst (get_ticks t) <= ticks_now (snd (get_ticks t)) /\ 0 <= fst (get_ticks t) <= UINT64_MAX
}.

(** What the rate limiter works on: its state, the counter, and the numbers of
    skipped events it has reported on stderr. *)
Record limiter (T : Type) : Type := mk_limiter { l_rs : trace_ratelimit_state; l_ticks : T; l_reports : list Z }.
Arguments mk_limiter {T}.
Arguments l_rs {T}.
Arguments l_ticks {T}.
Arguments l_reports {T}.

Section Limit.
Context {T : Type} `{Ticks T} (freq : Z).

Definition read_ticks : M (limiter T) Z := fun l =>
  let '(v, t) := get_ticks (l_ticks l) in (Ret v, mk_limiter (l_rs l) t (l_reports l)).

(** [!rs->begin || rs->tag != tag || get_ticks() > rs->end], left to right. *)
Definition window_over (rs : trace_ratelimit_state) (tag : Z) : M (limiter T) bool :=
  if (rs_begin rs =? 0) || negb (rs_tag rs =? tag) then ret true
  else let* now := read_ticks in ret (rs_end rs <? now).

(** Report the skipped events and start a window. *)
Definition start_window (rs : trace_ratelimit_state) (tag : Z) : M (limiter T) unit :=
  do* when (negb (rs_skipped rs =? 0))
        (modify (fun l => mk_limiter (l_rs l) (l_ticks l) (l_reports l ++ [rs_skipped rs]))) in
  let* now := read_ticks in
  modify (fun l => mk_limiter
    (mk_rs (rs_interval rs) 0 tag now (u64 (now + u64 (rs_interval rs * freq)))) (l_ticks l) (l_reports l)).

(** Counting past [INT_MAX] is undefined. *)
Definition __trace_ratelimited (tag : Z) : M (limiter T) bool :=
  let* rs := gets l_rs in
  if rs_interval rs =? 0 then ret false
  else
    let* over := window_over rs tag in
    if over then do* start_window rs tag in ret false
    else if rs_skipped rs =? 0x7fffffff then crash
    else
      do* modify (fun l => mk_limiter
            (mk_rs (rs_interval rs) (rs_skipped rs + 1) (rs_tag rs) (rs_begin rs) (rs_end rs))
            (l_ticks l) (l_reports l)) in
      ret true.

(** A sequence of messages with their tags: the time each was emitted at, or
    [None] if it was suppressed. *)
Fixpoint emit_all (tags : list Z) : M (limiter T) (list (option Z)) :=
  match tags with
  | [] => ret []
  | tag :: tags' =>
      let* limited := __trace_ratelimited tag in
      let* rs := gets l_rs in
      let* rest := emit_all tags' in
      ret ((if limited : bool then None else Some (rs_begin rs)) :: rest)
  end.
End Limit.

(** ** The environment variable: the last matching token decides *)

(** The fields between commas, and the tokens: the fields that are not empty. *)
Fixpoint fields (s : cstr) : list cstr :=
  match s with
  | [] => [[]]
  | c :: s' =>
      if bool_decide (c = comma) then [] :: fields s'
      else match fields s' with f :: fs => (c :: f) :: fs | [] => [[c]] end
  end.
Definition tokens (s : cstr) : list cstr := filter (fun f => f <> []) (fields s).

Lemma strncmp_prefix p s : terminator ∉ p -> strncmp_eq (length p) p s = bool_decide (p `prefix_of` s).
Proof.
  revert s. induction p as [|c p IH]; intros s Hp; [done|].
  rewrite not_elem_of_cons in Hp. destruct Hp as [Hc Hp]. destruct s as [|c' s]; cbn [strncmp_eq length char_at head tail default].
  - by rewrite bool_decide_eq_false_2.
  - destruct (decide (c = c')) as [<-|Hne].
    + rewrite bool_decide_eq_true_2 by done. simpl. rewrite bool_decide_eq_false_2 by done. rewrite IH by done.
      apply bool_decide_ext. split; [apply prefix_cons|apply prefix_cons_inv_2].
    + rewrite bool_decide_eq_false_2 by done. simpl. symmetry. apply bool_decide_eq_false_2.
      intros ?%prefix_cons_inv_1. done.
Qed.

Lemma tokens_comma s : tokens (comma :: s) = tokens s.
Proof. unfold tokens. simpl. by rewrite filter_cons_False by naive_solver. Qed.

Lemma skip_commas_tokens s : tokens (skip_commas s) = tokens s /\ (length (skip_commas s) <= length s)%nat.
Proof.
  induction s as [|c s IH]; [done|]. simpl. case_bool_decide as Hc; [|done].
  subst c. rewrite tokens_comma. destruct IH. split; [done|lia].
Qed.

Lemma skip_commas_head s : match skip_commas s with [] => True | c :: _ => c <> comma end.
Proof. induction s as [|c s IH]; [done|]. simpl. by case_bool_decide. Qed.

Lemma until_comma_fields s :
  let '(t, r) := until_comma s in
  s = t ++ r /\ fields s = t :: match r with [] => [] | _ :: r' => fields r' end.
Proof.
  induction s as [|c s IH]; [done|]. simpl. case_bool_decide as Hc; [by subst|].
  destruct (until_comma s) as [t r]. destruct IH as [-> E]. split; [done|]. by rewrite E.
Qed.

Lemma strtok_tokens s :
  match strtok s with
  | None => tokens s = []
  | Some (tok, r) => tokens s = tok :: tokens r /\ (length r < length s)%nat
  end.
Proof.
  unfold strtok. destruct (skip_commas_tokens s) as [<- Hl]. pose proof (skip_commas_head s) as Hh.
  destruct (skip_commas s) as [|c s'] eqn:E; [done|].
  pose proof (until_comma_fields (c :: s')) as Hu. destruct (until_comma (c :: s')) as [t r] eqn:Et.
  destruct Hu as [Happ Hf]. assert (t <> []) as Ht.
  { intros ->. simpl in Et. rewrite bool_decide_eq_false_2 in Et by done. by destruct (until_comma s'). }
  split.
  - unfold tokens. rewrite Hf, filter_cons_True by done. f_equal. by destruct r.
  - apply (f_equal length) in Happ. rewrite length_app in Happ. destruct t; [done|]. simpl in *.
    destruct r; simpl in *; lia.
Qed.

Definition apply_token (events : list trace_event) (tok : cstr) : list trace_event :=
  let '(activate, prefix) := token_sign tok in trace_set_active prefix activate events.

Lemma token_loop_fold fuel s events :
  (length s < fuel)%nat -> token_loop fuel s events = Ret (fold_left apply_token (tokens s) events).
Proof.
  revert s events. induction fuel as [|fuel IH]; intros s events Hl; [lia|]. simpl.
  pose proof (strtok_tokens s) as Hs. destruct (strtok s) as [[tok r]|]; [|by rewrite Hs].
  destruct Hs as [-> Hr]. simpl. unfold apply_token at 2. destruct (token_sign tok). apply IH. lia.
Qed.

(** The setting a list of signed prefixes gives an event. *)
Definition decides (name : cstr) (t : bool * cstr) : Prop := t.2 `prefix_of` name.
#[export] Instance decides_dec name t : Decision (decides name t).
Proof. unfold decides. apply _. Defined.
Definition setting (e : trace_event) (toks : list (bool * cstr)) : bool :=
  match last (filter (decides (te_name e)) toks) with Some t => t.1 | None => te_active e end.

Lemma fields_chars s : Forall (fun f => Forall (fun c => c ∈ s) f) (fields s).
Proof.
  induction s as [|c s IH]; [by repeat constructor|]. simpl.
  assert (Forall (fun f => Forall (fun x => x ∈ c :: s) f) (fields s)) as H.
  { eapply Forall_impl; [exact IH|]. intros f Hf. eapply Forall_impl; [exact Hf|]. intros x. by right. }
  case_bool_decide; [by constructor|]. destruct (fields s) as [|f fs]; [repeat constructor; by left|].
  apply Forall_cons in H as [Hf Hfs]. constructor; [|done]. constructor; [by left|done].
Qed.

Lemma token_sign_chars tok c : c ∈ (token_sign tok).2 -> c ∈ tok.
Proof. destruct tok as [|x tok]; [done|]. simpl. repeat case_bool_decide; simpl; [by right|by right|done]. Qed.

Lemma fold_tokens toks events :
  Forall (fun t => terminator ∉ t) toks ->
  fold_left apply_token toks events = map (fun e => mk_event (te_name e) (setting e (token_sign <$> toks))) events.
Proof.
  revert events. induction toks as [|tok toks IH]; intros events Ht; simpl.
  { rewrite <- (map_id events) at 1. apply map_ext. by intros []. }
  apply Forall_cons in Ht as [Htok Ht]. rewrite IH by done. unfold apply_token.
  destruct (token_sign tok) as [a p] eqn:E. unfold trace_set_active. rewrite map_map. apply map_ext. intros e.
  rewrite strncmp_prefix by (intros Hin; apply Htok, token_sign_chars; by rewrite E).
  unfold setting. case_bool_decide as Hp; simpl.
  - rewrite filter_cons_True by done. rewrite last_cons. by destruct (last (filter _ _)).
  - rewrite filter_cons_False by done. done.
Qed.

(** The variable VFN_TRACE_EVENTS: the tokens between commas (empty ones
    ignored) are a sign and a prefix, and for every event of the table the last
    token whose prefix its name starts with decides whether it is active; an
    event no token matches keeps its setting. *)
Theorem trace_env_last_wins s events :
  terminator ∉ s ->
  init_trace_events (Some s) events =
    Ret (map (fun e => mk_event (te_name e) (setting e (token_sign <$> tokens s))) events).
Proof.
  intros Hs. unfold init_trace_events. rewrite token_loop_fold by lia. f_equal. apply fold_tokens.
  unfold tokens. apply Forall_forall. intros f [_ Hf]%list_elem_of_filter Hc.
  pose proof (fields_chars s) as Hall. rewrite Forall_forall in Hall. specialize (Hall f Hf).
  rewrite Forall_forall in Hall. auto.
Qed.

(** ** Rate limiting: at most one message per window, none lost uncounted *)

(** The messages that were emitted, with their tags and times. *)
Definition emitted (tags : list Z) (out : list (option Z)) : list (Z * Z) :=
  omap (fun x => pair x.1 <$> x.2) (zip tags out).
Definition suppressed (out : list (option Z)) : Z := Z.of_nat (length (filter (fun o => o = None) out)).

(** A message with the tag of the one before it comes later by more than [gap]. *)
Fixpoint spaced (gap : Z) (prev : Z * Z) (l : list (Z * Z)) : Prop :=
  match l with
  | [] => True
  | x :: l' => (x.1 = prev.1 -> prev.2 + gap < x.2) /\ spaced gap x l'
  end.

Section LimitSpec.
Context {T : Type} `{Ticks T} (freq interval : Z).
Local Abbreviation gap := (interval * freq).
Hypothesis interval_pos : 0 < interval.
Hypothesis freq_nonneg : 0 <= freq.
(** The counter does not come near its end. *)
Hypothesis no_wrap : forall t, fst (get_ticks t) + gap <= UINT64_MAX.

Definition reported (l : limiter T) : Z := foldr Z.add 0 (l_reports l).
Definition accounted (l : limiter T) : Z := reported l + rs_skipped (l_rs l).

Lemma report_sum xs x : foldr Z.add 0 (xs ++ [x]) = foldr Z.add 0 xs + x.
Proof. induction xs as [|y xs IH]; simpl; [|rewrite IH]; lia. Qed.

(** In a window that began with the message [prev]. *)
Record window (prev : Z * Z) (l : limiter T) : Prop := {
  w_interval : rs_interval (l_rs l) = interval;
  w_tag : rs_tag (l_rs l) = prev.1;
  w_begin : rs_begin (l_rs l) = prev.2;
  w_end : rs_end (l_rs l) = prev.2 + gap;
  w_skipped : 0 <= rs_skipped (l_rs l);
  w_time : 0 < prev.2 <= ticks_now (l_ticks l)
}.

(** Starting a window. *)
Lemma new_window tag l rs :
  rs_interval rs = interval -> 0 < ticks_now (l_ticks l) -> rs_skipped rs = rs_skipped (l_rs l) ->
  exists l', start_window freq rs tag l = (Ret tt, l') /\ window (tag, rs_begin (l_rs l')) l' /\
    rs_skipped (l_rs l') = 0 /\ accounted l' = accounted l /\ ticks_now (l_ticks l) <= rs_begin (l_rs l').
Proof using interval_pos freq_nonneg no_wrap.
  intros Hi Hpos Hsk. pose proof (get_ticks_law (l_ticks l)) as [Hlaw Hr]. pose proof (no_wrap (l_ticks l)) as Hnw.
  destruct (get_ticks (l_ticks l)) as [now t] eqn:Et. simpl in *. assert (0 <= gap) by nia.
  assert (u64 (now + u64 gap) = now + gap) as Eend.
  { unfold UINT64_MAX in *. rewrite (u64_small gap) by lia. apply u64_small. lia. }
  exists (mk_limiter (mk_rs interval 0 tag now (now + gap)) t
    (if rs_skipped rs =? 0 then l_reports l else l_reports l ++ [rs_skipped rs])).
  split; [|split; [split|split; [|split]]]; simpl; try lia; try done.
  - unfold start_window, when. rewrite <- Eend.
    destruct (rs_skipped rs =? 0); unfold bind, modify, read_ticks, ret; simpl; rewrite Et, Hi; done.
  - unfold accounted, reported. simpl. destruct (Z.eqb_spec (rs_skipped rs) 0); [|rewrite report_sum]; lia.
Qed.

(** The first call, and a call while a window is open. *)
Lemma ratelimited_first tag l :
  rs_interval (l_rs l) <> 0 -> rs_begin (l_rs l) = 0 ->
  __trace_ratelimited freq tag l = (do* start_window freq (l_rs l) tag in ret false) l.
Proof.
  intros Hi Hb. unfold __trace_ratelimited, window_over. unfold bind at 1, gets.
  by rewrite (proj2 (Z.eqb_neq _ _) Hi), Hb.
Qed.


Lemma ratelimited_open tag l now t :
  rs_interval (l_rs l) <> 0 -> rs_begin (l_rs l) <> 0 -> get_ticks (l_ticks l) = (now, t) ->
  __trace_ratelimited freq tag l =
    if negb (rs_tag (l_rs l) =? tag) then (do* start_window freq (l_rs l) tag in ret false) l
    else
      let rs := l_rs l in
      let l1 := mk_limiter rs t (l_reports l) in
      if rs_end rs <? now then (do* start_window freq rs tag in ret false) l1
      else if rs_skipped rs =? 0x7fffffff then (Crash, l1)
      else (Ret true, mk_limiter (mk_rs (rs_interval rs) (rs_skipped rs + 1) (rs_tag rs) (rs_begin rs) (rs_end rs)) t
              (l_reports l)).
Proof.
  intros Hi Hb Et. unfold __trace_ratelimited, window_over. unfold bind at 1, gets.
  rewrite (proj2 (Z.eqb_neq _ _) Hi), (proj2 (Z.eqb_neq _ _) Hb). simpl orb.
  destruct (negb _); [done|]. unfold bind at 1 2, read_ticks. rewrite Et. simpl.
  destruct (_ <? _); [done|]. by destruct (_ =? _).
Qed.

Lemma limited_step tag prev l :
  window prev l -> rs_skipped (l_rs l) < 0x7fffffff ->
  (exists l', __trace_ratelimited freq tag l = (Ret true, l') /\ window prev l' /\
     rs_skipped (l_rs l') = rs_skipped (l_rs l) + 1 /\ accounted l' = accounted l + 1) \/
  (exists l', __trace_ratelimited freq tag l = (Ret false, l') /\ window (tag, rs_begin (l_rs l')) l' /\
     (tag = prev.1 -> prev.2 + gap < rs_begin (l_rs l')) /\ rs_skipped (l_rs l') = 0 /\ accounted l' = accounted l).
Proof using interval_pos freq_nonneg no_wrap.
  intros [Hi Ht Hb He Hs Htime] Hmax. destruct (get_ticks (l_ticks l)) as [now t] eqn:Et.
  pose proof (get_ticks_law (l_ticks l)) as [Hlaw _]. rewrite Et in Hlaw. simpl in Hlaw.
  rewrite (ratelimited_open tag l now t) by (lia || done).
  destruct (Z.eqb_spec (rs_tag (l_rs l)) tag) as [Etag|Etag]; simpl negb; cbv iota zeta.
  - destruct (Z.ltb_spec (rs_end (l_rs l)) now) as [Hover|Hin].
    + right. destruct (new_window tag (mk_limiter (l_rs l) t (l_reports l)) (l_rs l))
        as (l' & E & Hw & Hs' & Ha & Hn); [done|simpl; lia|done|].
      exists l'. rewrite (bind_ret _ _ _ _ _ E). simpl in Hn. split; [done|]. split; [done|]. split; [lia|]. done.
    + left. destruct (Z.eqb_spec (rs_skipped (l_rs l)) 0x7fffffff); [lia|].
      eexists. split; [done|]. unfold accounted, reported. simpl. split; [split; simpl; try done; lia|].
      split; [done|lia].
  - right. destruct (new_window tag l (l_rs l)) as (l' & E & Hw & Hs' & Ha & Hn); [done|lia|done|].
    exists l'. rewrite (bind_ret _ _ _ _ _ E). split; [done|]. split; [done|]. split; [lia|]. done.
Qed.

Lemma emit_all_spaced tags prev l :
  window prev l -> rs_skipped (l_rs l) + Z.of_nat (length tags) <= 0x7fffffff ->
  exists out l', emit_all freq tags l = (Ret out, l') /\ length out = length tags /\
    spaced gap prev (emitted tags out) /\ accounted l' = accounted l + suppressed out.
Proof using interval_pos freq_nonneg no_wrap.
  revert prev l. induction tags as [|tag tags IH]; intros prev l Hw Hlen.
  { exists [], l. split; [done|]. split; [done|]. split; [done|]. unfold suppressed. simpl. lia. }
  simpl length in Hlen. pose proof (w_skipped _ _ Hw) as Hnn.
  assert (forall b l1 p1, __trace_ratelimited freq tag l = (Ret b, l1) -> window p1 l1 ->
    rs_skipped (l_rs l1) <= rs_skipped (l_rs l) + 1 ->
    exists out l', emit_all freq (tag :: tags) l =
        (Ret ((if b : bool then None else Some (rs_begin (l_rs l1))) :: out), l') /\ length out = length tags /\
      spaced gap p1 (emitted tags out) /\ accounted l' = accounted l1 + suppressed out) as Hnext.
  { intros b l1 p1 E1 Hw1 Hs1. destruct (IH p1 l1 Hw1 ltac:(lia)) as (out & l' & E & Hl & Hsp & Ha).
    exists out, l'. split; [|done]. simpl. unfold bind at 1. rewrite E1. unfold bind, gets. by rewrite E. }
  destruct (limited_step tag prev l Hw ltac:(lia)) as [(l1 & E1 & Hw1 & Hs1 & Ha1)|(l1 & E1 & Hw1 & Hgap & Hs1 & Ha1)].
  - destruct (Hnext _ _ _ E1 Hw1 ltac:(lia)) as (out & l' & E & Hl & Hsp & Ha).
    exists (None :: out), l'. split; [exact E|]. simpl. split; [lia|]. split; [done|].
    unfold suppressed in *. rewrite filter_cons_True by done. simpl length. lia.
  - destruct (Hnext _ _ _ E1 Hw1 ltac:(lia)) as (out & l' & E & Hl & Hsp & Ha).
    eexists (Some _ :: out), l'. split; [exact E|]. simpl. split; [lia|]. split; [split; [exact Hgap|exact Hsp]|].
    unfold suppressed in *. rewrite filter_cons_False by done. lia.
Qed.

(** The rate limiter, from its initial state and for any sequence of
    messages: the first message is emitted, a message with the tag of the last
    emitted one is emitted only when more than the interval has passed, a
    message with another tag is always emitted, and every suppressed message is
    counted, in a number reported on stderr or in the pending count. *)
Theorem ratelimit_spaced_and_counted tags t :
  0 < ticks_now t -> Z.of_nat (length tags) <= 0x7fffffff ->
  exists out l', emit_all freq tags (mk_limiter (mk_rs interval 0 0 0 0) t []) = (Ret out, l') /\
    length out = length tags /\
    match emitted tags out with [] => tags = [] | x :: rest => Some x.1 = head tags /\ spaced gap x rest end /\
    suppressed out = foldr Z.add 0 (l_reports l') + rs_skipped (l_rs l').
Proof using interval_pos freq_nonneg no_wrap.
  intros Ht Hlen. destruct tags as [|tag tags].
  { eexists [], _. done. }
  destruct (new_window tag (mk_limiter (mk_rs interval 0 0 0 0) t []) (mk_rs interval 0 0 0 0))
    as (l1 & E & Hw & Hs & Ha & Hn); try done.
  simpl length in Hlen. destruct (emit_all_spaced tags _ _ Hw ltac:(lia)) as (out & l' & Eo & Hl & Hsp & Hacc).
  exists (Some (rs_begin (l_rs l1)) :: out), l'. split.
  { simpl. rewrite (bind_ret _ _ _ false l1); [unfold bind, gets; by rewrite Eo|].
    rewrite ratelimited_first by (simpl; lia). by rewrite (bind_ret _ _ _ _ _ E). }
  split; [simpl; lia|]. split; [done|]. unfold accounted, reported in *. simpl in *.
  unfold suppressed in *. rewrite filter_cons_False by done. lia.
Qed.
End LimitSpec.

(** ** The theorems on concrete inputs *)

Definition cq_spin : cstr := String.list_ascii_of_string "nvme_cq_spin".
Definition sq_post : cstr := String.list_ascii_of_string "nvme_sq_post".
Definition demo_env : cstr := String.list_ascii_of_string "nvme_,,-nvme_cq".

Lemma trace_env_last_wins_witness :
  init_trace_events (Some demo_env) [mk_event cq_spin false; mk_event sq_post false] =
    Ret [mk_event cq_spin false; mk_event sq_post true].
Proof. rewrite trace_env_last_wins; [vm_compute; reflexivity|]. by apply (bool_decide_unpack _). Defined.

(** A counter that advances by ten with each reading, up to 1000. *)
#[local] Instance demo_ticks : Ticks nat.
Proof.
  refine {| get_ticks t := (Z.min 1000 (Z.of_nat t * 10), S t); ticks_now t := Z.min 1000 (Z.of_nat t * 10) |}.
  intros n. unfold UINT64_MAX. simpl fst. simpl snd. lia.
Defined.

Lemma demo_ticks_low (t : nat) : fst (get_ticks t) + 1 * 25 <= UINT64_MAX.
Proof. unfold get_ticks, demo_ticks, UINT64_MAX. simpl fst. lia. Qed.

(** A window of 25 ticks: the second and third message of tag 7 fall into the
    first window, the fourth starts another one and reports them. *)
Lemma ratelimit_spaced_and_counted_witness :
  exists l' : limiter nat,
    emit_all 25 [7; 7; 7; 7; 8] (mk_limiter (mk_rs 1 0 0 0 0) 1%nat []) =
      (Ret [Some 10; None; None; Some 50; Some 60], l') /\
    spaced 25 (7, 10) [(7, 50); (8, 60)] /\ foldr Z.add 0 (l_reports l') = 2.
Proof.
  destruct (ratelimit_spaced_and_counted 25 1 ltac:(lia) ltac:(lia) demo_ticks_low [7; 7; 7; 7; 8] 1%nat) as (out & l' & E & _ & Hs & Hc).
  - simpl. lia.
  - simpl. lia.
  - vm_compute in E. injection E as <- <-. eexists. split; [vm_compute; reflexivity|].
    split; [exact (proj2 Hs)|vm_compute; reflexivity].
Defined.
