(* ===== verification/CcanTime.v ===== *)
(** * CcanTime: ccan/ccan/time/time.{h,c}

    Times as pairs of seconds and nanoseconds: comparison, arithmetic and
    conversions, and the scaling by an integer, which falls back to doubles when
    64 bits may not be enough (the binary64 format of the standard library's
    [SpecFloat]).  [time_t] and [long] are 64 bits; sums that leave that range are
    undefined in C and outside the hypotheses here.  The three C types [timerel],
    [timeabs] and [timemono] wrap the same structure, and the checks of a debug
    build are the identity in the others.

    [NvmeCore] and [Ticks] count nanoseconds; [time_counts_nanoseconds] shows that
    the operations on normalised times are the ones on their numbers of
    nanoseconds. *)

From Stdlib Require Import SpecFloat.
From S2P Require Import Prelude.
Local Open Scope Z_scope.
Local Open Scope vfn_scope.

Definition NS_PER_SEC : Z := 1000000000.

(** A [uint64_t] stored in a signed 64-bit field. *)
Definition s64 (x : Z) : Z := let y := u64 x in if y <? 0x8000000000000000 then y else y - 0x10000000000000000.

Record timespec : Type := mk_ts { tv_sec : Z; tv_nsec : Z }.
Record timeval : Type := mk_tv { tvv_sec : Z; tvv_usec : Z }.

(** ** Comparison *)

Definition time_greater_ (a b : timespec) : bool :=
  if tv_sec b <? tv_sec a then true
  else if tv_sec a <? tv_sec b then false
  else tv_nsec b <? tv_nsec a.
Definition time_after (a b : timespec) : bool := time_greater_ a b.
Definition time_greater (a b : timespec) : bool := time_greater_ a b.

Definition time_less_ (a b : timespec) : bool :=
  if tv_sec a <? tv_sec b then true
  else if tv_sec b <? tv_sec a then false
  else tv_nsec a <? tv_nsec b.
Definition time_before (a b : timespec) : bool := time_less_ a b.
Definition time_less (a b : timespec) : bool := time_less_ a b.

Definition timeabs_eq (a b : timespec) : bool := (tv_sec a =? tv_sec b) && (tv_nsec a =? tv_nsec b).
Definition timemono_eq (a b : timespec) : bool := (tv_sec a =? tv_sec b) && (tv_nsec a =? tv_nsec b).
Definition timerel_eq (a b : timespec) : bool := (tv_sec a =? tv_sec b) && (tv_nsec a =? tv_nsec b).

(** ** Sums and differences *)

Definition time_sub_ (recent old : timespec) : timespec :=
  if tv_nsec recent <? tv_nsec old
  then mk_ts (tv_sec recent - tv_sec old - 1) (1000000000 + tv_nsec recent - tv_nsec old)
  else mk_ts (tv_sec recent - tv_sec old) (tv_nsec recent - tv_nsec old).
Definition time_sub (a b : timespec) : timespec := time_sub_ a b.
Definition time_between (recent old : timespec) : timespec := time_sub_ recent old.
Definition timemono_between (recent old : timespec) : timespec := time_sub_ recent old.
Definition timeabs_sub (abs rel : timespec) : timespec := time_sub_ abs rel.

(** [now]: the monotonic clock. *)
Definition timemono_since {S} (time_mono : M S timespec) (old : timespec) : M S timespec :=
  let* now := time_mono in ret (timemono_between now old).

Definition time_add_ (a b : timespec) : timespec :=
  let sec := tv_sec a + tv_sec b in
  let nsec := tv_nsec a + tv_nsec b in
  if 1000000000 <=? nsec then mk_ts (sec + 1) (nsec - 1000000000) else mk_ts sec nsec.
Definition timeabs_add (a b : timespec) : timespec := time_add_ a b.
Definition timemono_add (a b : timespec) : timespec := time_add_ a b.
Definition timerel_add (a b : timespec) : timespec := time_add_ a b.

(** ** Conversions *)

Definition time_to_sec (t : timespec) : Z := u64 (tv_sec t).
Definition time_to_msec (t : timespec) : Z := u64 (Z.quot (tv_nsec t) 1000000 + u64 (tv_sec t * 1000)).
Definition time_to_usec (t : timespec) : Z := u64 (Z.quot (tv_nsec t) 1000 + u64 (tv_sec t * 1000000)).
Definition time_to_nsec (t : timespec) : Z := u64 (tv_nsec t + u64 (tv_sec t * 1000000000)).

Definition time_from_sec (sec : Z) : timespec := mk_ts (s64 sec) 0.
Definition time_from_msec (msec : Z) : timespec := mk_ts (msec / 1000) ((msec mod 1000) * 1000000).
Definition time_from_usec (usec : Z) : timespec := mk_ts (usec / 1000000) ((usec mod 1000000) * 1000).
Definition time_from_nsec (nsec : Z) : timespec := mk_ts (nsec / 1000000000) (nsec mod 1000000000).

Definition timespec_to_timeval (ts : timespec) : timeval := mk_tv (tv_sec ts) (Z.quot (tv_nsec ts) 1000).
Definition timerel_to_timeval (t : timespec) : timeval := timespec_to_timeval t.
Definition timeabs_to_timeval (t : timespec) : timeval := timespec_to_timeval t.
Definition timeval_to_timespec (tv : timeval) : timespec := mk_ts (tvv_sec tv) (tvv_usec tv * 1000).
Definition timeval_to_timerel (tv : timeval) : timespec := timeval_to_timespec tv.
Definition timeval_to_timeabs (tv : timeval) : timespec := timeval_to_timespec tv.

(** ** Doubles *)

Definition double (x : Z) : spec_float := binary_normalize 53 1024 x 0 false.
Definition double_div (x y : spec_float) : spec_float := SFdiv 53 1024 x y.
Definition double_mul (x y : spec_float) : spec_float := SFmul 53 1024 x y.
Definition double_add (x y : spec_float) : spec_float := SFadd 53 1024 x y.
Definition double_sub (x y : spec_float) : spec_float := SFsub 53 1024 x y.

(** The conversion of a double to an integer type truncates and is undefined out
    of the range of the type. *)
Definition int_of_double (lo hi : Z) (x : spec_float) : outcome Z :=
  match x with
  | S754_zero _ => Ret 0
  | S754_finite s m e =>
      let a := Z.shiftl (Zpos m) e in
      let v := if s : bool then - a else a in
      if (v <? lo) || (hi <? v) then Crash else Ret v
  | _ => Crash
  end.
Definition u64_of_double (x : spec_float) : outcome Z := int_of_double 0 UINT64_MAX x.
Definition long_of_double (x : spec_float) : outcome Z := int_of_double (- 0x8000000000000000) 0x7fffffffffffffff x.

(** ** Scaling *)

Definition time_divide (t : timespec) (div : Z) : outcome timespec :=
  if div =? 0 then Crash
  else
    let sec := s64 (u64 (tv_sec t) / div) in
    let rem := u64 (tv_sec t) mod div in
    if negb (Z.land rem (u64 (Z.lnot (Z.shiftl 1 30 - 1))) =? 0) then
      let nsec := double_add (double_mul (double rem) (double 1000000000)) (double (tv_nsec t)) in
      match long_of_double (double_div nsec (double div)) with
      | Ret ns => Ret (mk_ts sec ns)
      | Fail e => Fail e
      | Crash => Crash
      end
    else
      let ns := u64 (u64 (rem * 1000000000) + tv_nsec t) in
      Ret (mk_ts sec (s64 (ns / div))).

Definition time_multiply (t : timespec) (mult : Z) : outcome timespec :=
  let add_sec (sec nsec : Z) := mk_ts (s64 (sec + u64 (tv_sec t * mult))) nsec in
  if negb (Z.land mult (u64 (Z.lnot (Z.shiftl 1 30 - 1))) =? 0) then
    let nsec := double_mul (double (tv_nsec t)) (double mult) in
    match long_of_double (double_div nsec (double 1000000000)) with
    | Ret sec =>
        match long_of_double (double_sub nsec (double_mul (double sec) (double 1000000000))) with
        | Ret ns => Ret (add_sec sec ns)
        | Fail e => Fail e
        | Crash => Crash
        end
    | Fail e => Fail e
    | Crash => Crash
    end
  else
    let nsec := u64 (tv_nsec t * mult) in
    Ret (add_sec (nsec / 1000000000) (nsec mod 1000000000)).

(** ** Checks of a debug build: a malformed time ends the process, or is put
    right when no message was given *)

Definition time_check_ (t : timespec) (abortstr : bool) : outcome timespec :=
  if (tv_sec t <? 0) || (1000000000 <=? tv_nsec t) then
    if abortstr then Crash
    else
      let t := if 1000000000 <=? tv_nsec t
               then mk_ts (tv_sec t + tv_nsec t / 1000000000) (tv_nsec t mod 1000000000) else t in
      Ret (if tv_sec t <? 0 then mk_ts 0 (tv_nsec t) else t)
  else Ret t.
Definition timerel_check (t : timespec) (abortstr : bool) : outcome timespec := time_check_ t abortstr.
Definition timeabs_check (t : timespec) (abortstr : bool) : outcome timespec := time_check_ t abortstr.
Definition timemono_check (t : timespec) (abortstr : bool) : outcome timespec := time_check_ t abortstr.

(** ** What a normalised time stands for *)

Definition ts_wf (t : timespec) : Prop := 0 <= tv_sec t /\ 0 <= tv_nsec t < NS_PER_SEC.
Definition ts_ns (t : timespec) : Z := tv_sec t * NS_PER_SEC + tv_nsec t.

Ltac time_lia :=
  unfold ts_wf, ts_ns, NS_PER_SEC in *; simpl in *; Z.to_euclidean_division_equations; lia.

Lemma time_from_usec_wf usec : 0 <= usec -> ts_wf (time_from_usec usec) /\ ts_ns (time_from_usec usec) = usec * 1000.
Proof. intros Hu. unfold time_from_usec. time_lia. Qed.

Lemma time_compare a b :
  ts_wf a -> ts_wf b ->
  time_greater_ a b = (ts_ns b <? ts_ns a) /\ time_less_ a b = (ts_ns a <? ts_ns b) /\
  timerel_eq a b = (ts_ns a =? ts_ns b).
Proof.
  intros Ha Hb. unfold time_greater_, time_less_, timerel_eq. split_and!.
  - apply eq_true_iff_eq. rewrite Z.ltb_lt. repeat case_match; time_lia.
  - apply eq_true_iff_eq. rewrite Z.ltb_lt. repeat case_match; time_lia.
  - apply eq_true_iff_eq. rewrite andb_true_iff, !Z.eqb_eq. time_lia.
Qed.

Lemma time_add_ns a b : ts_wf a -> ts_wf b -> ts_wf (time_add_ a b) /\ ts_ns (time_add_ a b) = ts_ns a + ts_ns b.
Proof. intros Ha Hb. unfold time_add_. case_match; time_lia. Qed.

Lemma time_sub_ns a b : ts_wf a -> ts_wf b ->
  ts_ns (time_sub_ a b) = ts_ns a - ts_ns b /\ (ts_wf (time_sub_ a b) <-> ts_ns b <= ts_ns a).
Proof. intros Ha Hb. unfold time_sub_. case_match; time_lia. Qed.

Lemma land_high_bits x : 0 <= x < 0x10000000000000000 -> Z.land x (u64 (Z.lnot (Z.shiftl 1 30 - 1))) = 0 <-> x < 2 ^ 30.
Proof.
  intros Hx. change (u64 (Z.lnot (Z.shiftl 1 30 - 1))) with (Z.shiftl (2 ^ 34 - 1) 30).
  assert (Z.land x (Z.shiftl (2 ^ 34 - 1) 30) = Z.shiftl (Z.shiftr x 30) 30) as ->.
  { apply Z.bits_inj'. intros n Hn. rewrite Z.land_spec, !Z.shiftl_spec by done.
    destruct (Z.ltb_spec n 30).
    - rewrite (Z.testbit_neg_r _ (n - 30)), (Z.testbit_neg_r _ (n - 30)) by lia. apply andb_false_r.
    - rewrite Z.shiftr_spec by lia. replace (n - 30 + 30) with n by lia.
      change (2 ^ 34 - 1) with (Z.ones 34). destruct (Z.ltb_spec n 64).
      + rewrite Z.ones_spec_low by lia. apply andb_true_r.
      + rewrite (Z.bits_above_log2 x n); [done|lia|]. destruct (decide (x = 0)) as [->|]; [simpl; lia|].
        apply Z.log2_lt_pow2; [lia|]. apply Z.lt_le_trans with (2 ^ 64); [lia|]. apply Z.pow_le_mono_r; lia. }
  rewrite Z.shiftl_eq_0_iff by lia. rewrite Z.shiftr_div_pow2 by lia. split; intros H.
  - Z.to_euclidean_division_equations. lia.
  - apply Z.div_small. lia.
Qed.

Lemma s64_small x : 0 <= x < 0x8000000000000000 -> s64 x = x.
Proof. intros H. unfold s64. rewrite u64_small by lia. case_match; lia. Qed.

(** Dividing: exact as long as the remainder of the seconds is below 2^30. *)
Lemma time_divide_ns t div :
  ts_wf t -> tv_sec t < 0x8000000000000000 -> 0 < div -> tv_sec t mod div < 2 ^ 30 ->
  exists r, time_divide t div = Ret r /\ ts_wf r /\ ts_ns r = ts_ns t / div.
Proof.
  intros [Hs Hn] Hmax Hd Hr. unfold time_divide, NS_PER_SEC in *. rewrite (proj2 (Z.eqb_neq div 0)) by lia.
  rewrite (u64_small (tv_sec t)) by lia.
  pose proof (Z.mod_pos_bound (tv_sec t) div Hd) as Hm. pose proof (Z.div_mod (tv_sec t) div ltac:(lia)) as Hdm.
  set (q := tv_sec t / div) in *. set (rem := tv_sec t mod div) in *.
  assert (0 <= q <= tv_sec t) as Hq by (split; [by apply Z.div_pos|apply Z.div_le_upper_bound; nia]).
  rewrite (proj2 (land_high_bits rem ltac:(lia))) by lia. simpl.
  rewrite (u64_small (rem * _)), (u64_small (_ + _)), !s64_small by lia.
  assert (0 <= (rem * 1000000000 + tv_nsec t) / div < 1000000000) as Hns.
  { split; [apply Z.div_pos; lia|]. apply Z.div_lt_upper_bound; nia. }
  rewrite s64_small by lia. eexists. split; [done|]. unfold ts_wf, ts_ns, NS_PER_SEC. simpl. split; [lia|].
  rewrite Hdm. replace ((div * q + rem) * 1000000000 + tv_nsec t) with
    (rem * 1000000000 + tv_nsec t + (q * 1000000000) * div) by ring.
  rewrite Z.div_add by lia. lia.
Qed.

(** Multiplying: exact below 2^30, if the product of the seconds fits. *)
Lemma time_multiply_ns t mult :
  ts_wf t -> 0 <= mult < 2 ^ 30 -> tv_sec t * mult < 0x4000000000000000 ->
  exists r, time_multiply t mult = Ret r /\ ts_wf r /\ ts_ns r = ts_ns t * mult.
Proof.
  intros [Hs Hn] Hm Hmax. unfold time_multiply, NS_PER_SEC in *.
  rewrite (proj2 (land_high_bits mult ltac:(lia))) by lia. simpl.
  assert (0 <= tv_nsec t * mult < 2 ^ 60) as Hp by nia.
  rewrite (u64_small (tv_nsec t * mult)), (u64_small (tv_sec t * mult)) by nia.
  pose proof (Z.div_mod (tv_nsec t * mult) 1000000000 ltac:(lia)) as Hdm.
  pose proof (Z.mod_pos_bound (tv_nsec t * mult) 1000000000 ltac:(lia)) as Hmb.
  assert (0 <= tv_nsec t * mult / 1000000000 <= 2 ^ 60) as Hq by (split; [apply Z.div_pos; lia|apply Z.div_le_upper_bound; lia]).
  rewrite s64_small by nia. eexists. split; [done|]. unfold ts_wf, ts_ns, NS_PER_SEC. simpl. split; [nia|]. lia.
Qed.

(** Conversions there and back. *)
Lemma time_conversions x :
  0 <= x < 0x8000000000000000 ->
  time_to_sec (time_from_sec x) = x /\ time_to_msec (time_from_msec x) = x /\
  time_to_usec (time_from_usec x) = x /\ time_to_nsec (time_from_nsec x) = x.
Proof.
  intros Hx. unfold time_to_sec, time_from_sec, time_to_msec, time_from_msec, time_to_usec, time_from_usec,
    time_to_nsec, time_from_nsec. simpl. rewrite s64_small by done.
  split_and!; [by rewrite u64_small by lia|..].
  - rewrite Z.quot_mul by lia. rewrite (u64_small (_ * 1000)) by time_lia. rewrite u64_small by time_lia. time_lia.
  - rewrite Z.quot_mul by lia. rewrite (u64_small (_ * 1000000)) by time_lia. rewrite u64_small by time_lia. time_lia.
  - rewrite (u64_small (_ * 1000000000)) by time_lia. rewrite u64_small by time_lia. time_lia.
Qed.

(** Normalised times are their numbers of nanoseconds: comparisons decide
    the order of the numbers, a sum is normalised and is their sum, a difference
    is their difference and is normalised exactly when the first time is not
    earlier, and adding a difference back gives the later time. *)
Theorem time_counts_nanoseconds a b :
  ts_wf a -> ts_wf b ->
  (time_after a b = true <-> ts_ns b < ts_ns a) /\
  (time_before a b = true <-> ts_ns a < ts_ns b) /\
  (timeabs_eq a b = true <-> ts_ns a = ts_ns b) /\
  ts_wf (timeabs_add a b) /\ ts_ns (timeabs_add a b) = ts_ns a + ts_ns b /\
  ts_ns (time_between a b) = ts_ns a - ts_ns b /\ (ts_wf (time_between a b) <-> ts_ns b <= ts_ns a) /\
  (ts_ns b <= ts_ns a -> timeabs_add b (time_between a b) = a).
Proof.
  intros Ha Hb. destruct (time_compare a b Ha Hb) as (G & L & E).
  destruct (time_add_ns a b Ha Hb) as [A1 A2]. destruct (time_sub_ns a b Ha Hb) as [S1 S2].
  split; [unfold time_after; by rewrite G, Z.ltb_lt|]. split; [unfold time_before; by rewrite L, Z.ltb_lt|].
  split; [change (timeabs_eq a b) with (timerel_eq a b); by rewrite E, Z.eqb_eq|].
  split_and!; [done..|]. intros Hle. unfold timeabs_add, time_between.
  destruct a as [s1 n1], b as [s2 n2]. unfold time_add_, time_sub_. simpl in *.
  case_match; simpl; case_match; f_equal; time_lia.
Qed.

Lemma time_counts_nanoseconds_witness :
  timeabs_add (mk_ts 4 900000000) (time_between (mk_ts 7 100000000) (mk_ts 4 900000000)) = mk_ts 7 100000000.
Proof.
  apply (time_counts_nanoseconds (mk_ts 7 100000000) (mk_ts 4 900000000));
    unfold ts_wf, ts_ns, NS_PER_SEC; simpl; lia.
Defined.

(** Beyond 2^30 the product goes through a double and loses bits. *)
Lemma time_multiply_inexact : time_multiply (mk_ts 0 1) 9007199254740993 = Ret (mk_ts 9007199 254740992).
Proof. vm_compute. reflexivity. Qed.
