(* ===== verification/CpuFreq.v ===== *)
(** * CpuFreq: the frequency of the processor as the system reports it,
      read_cpu_freq_from_sys of src/support/ticks.c

    [sched_getcpu] is the number it returns, and a file is what can be read of it
    up to its end or an error; [None] is a file that cannot be opened. *)

From Stdlib Require String.
From Stdlib Require Import SpecFloat.
From S2P Require Import Prelude Support CStr CFloat CcanTime.
Local Open Scope Z_scope.

Definition TICKS_PER_10MHZ : Z := 10000000.
Definition newline : ascii := "010"%char.
Definition str (s : string) : cstr := String.list_ascii_of_string s.

(** [fgets] with room for [n] characters: what it stores, without the
    terminator, and what is left of the file. *)
Fixpoint fgets (n : nat) (s : cstr) : cstr * cstr :=
  match n, s with
  | O, _ => ([], s)
  | _, [] => ([], [])
  | S n', c :: s' =>
      if bool_decide (c = newline) then ([c], s')
      else let '(l, r) := fgets n' s' in (c :: l, r)
  end.

(** [strtoull(s, NULL, 10)] *)
Definition strtoull_10 (s : cstr) : Z :=
  let '(neg, t) := sign (skip_space s) in
  let v := scan 10 0 t in
  if UINT64_MAX <? v then UINT64_MAX else if neg then u64 (- v) else v.

(** [sscanf(buf, fmt, &x) == 1] for a format that ends with the conversion. *)
Definition sscanf_d (fmt : string) (buf : cstr) : outcome (option Z) :=
  match scan_text (str fmt) buf with Some rest => scan_d rest | None => Ret None end.
Definition sscanf_lf (fmt : string) (buf : cstr) : option spec_float :=
  match scan_text (str fmt) buf with Some rest => scan_lf rest | None => None end.

(** [hz = (uint64_t)(mhz * 1000000)] *)
Definition hz_of_mhz (mhz : spec_float) : outcome Z := u64_of_double (double_mul mhz (double 1000000)).

(** The loop over /proc/cpuinfo; each round takes at least one character. *)
Fixpoint cpuinfo_loop (fuel : nat) (cpu current_cpu : Z) (f : cstr) : outcome Z :=
  match fuel, f with
  | _, [] => Ret 0
  | O, _ => Crash
  | S fuel', _ =>
      let '(line, f') := fgets 255 f in
      let buf := c_string line in
      match sscanf_d "processor : " buf with
      | Ret (Some proc_cpu) => cpuinfo_loop fuel' cpu proc_cpu f'
      | Ret None =>
          if current_cpu =? cpu then
            match sscanf_lf "cpu MHz : " buf with
            | Some mhz => hz_of_mhz mhz
            | None => cpuinfo_loop fuel' cpu current_cpu f'
            end
          else cpuinfo_loop fuel' cpu current_cpu f'
      | Fail e => Fail e
      | Crash => Crash
      end
  end.

Section System.
Context (sched_getcpu : Z) (fopen : string -> option cstr).

Definition the_cpu : Z := if sched_getcpu <? 0 then 0 else sched_getcpu.

Definition cpufreq_path : string :=
  String.append "/sys/devices/system/cpu/cpu" (String.append (print_str 10 the_cpu) "/cpufreq/cpuinfo_max_freq").

(** The maximal frequency of sysfs, in Hz; zero when there is none. *)
Definition sysfs_hz : Z :=
  match fopen cpufreq_path with
  | Some ((_ :: _) as f) => u64 (strtoull_10 (c_string (fst (fgets 255 f))) * 1000)
  | _ => 0
  end.

Definition read_cpu_freq_from_sys : outcome Z :=
  if negb (sysfs_hz =? 0) then Ret (ROUND sysfs_hz TICKS_PER_10MHZ)
  else
    match fopen "/proc/cpuinfo" with
    | None => Ret 0
    | Some f =>
        match cpuinfo_loop (length f) the_cpu 0 f with
        | Ret hz => if negb (hz =? 0) then Ret (ROUND hz TICKS_PER_10MHZ) else Ret 0
        | r => r
        end
    end.
End System.

(** ** Lines *)

(** A line of a file that fits the buffer. *)
Definition a_line (l : cstr) : Prop :=
  exists s, l = s ++ [newline] /\ (newline ∉ s) /\ (length s < 255)%nat.

Lemma fgets_line n s rest : newline ∉ s -> (length s < n)%nat -> fgets n (s ++ newline :: rest) = (s ++ [newline], rest).
Proof.
  revert n. induction s as [|c s IH]; intros [|n] Hs Hn; simpl in *; [lia|done|lia|].
  apply not_elem_of_cons in Hs as [Hc Hs]. rewrite bool_decide_false by congruence. by rewrite IH by (done || lia).
Qed.

(** What the loop does with the lines of a file. *)
Fixpoint search (cpu current_cpu : Z) (lines : list cstr) : outcome Z :=
  match lines with
  | [] => Ret 0
  | l :: lines =>
      match sscanf_d "processor : " (c_string l) with
      | Ret (Some proc_cpu) => search cpu proc_cpu lines
      | Ret None =>
          match (if current_cpu =? cpu then sscanf_lf "cpu MHz : " (c_string l) else None) with
          | Some mhz => hz_of_mhz mhz
          | None => search cpu current_cpu lines
          end
      | Fail e => Fail e
      | Crash => Crash
      end
  end.

Lemma cpuinfo_loop_lines fuel cpu current_cpu lines :
  Forall a_line lines -> (length (concat lines) <= fuel)%nat ->
  cpuinfo_loop fuel cpu current_cpu (concat lines) = search cpu current_cpu lines.
Proof.
  intros Hl. revert fuel current_cpu. induction Hl as [|l lines (s & -> & Hs & Hn) _ IH]; intros fuel cur Hf.
  { by destruct fuel. }
  cbn [concat] in *. rewrite <- app_assoc in *. cbn [app] in *. rewrite length_app in Hf. simpl in Hf.
  assert (exists c tl, s ++ newline :: concat lines = c :: tl) as (c & tl & E) by (destruct s; by do 2 eexists).
  destruct fuel as [|fuel]; [lia|]. cbn [cpuinfo_loop search]. rewrite E, <- E, fgets_line by (done || lia).
  destruct (sscanf_d _ _) as [[n|]| |]; [apply IH; lia| |done..].
  destruct (cur =? cpu); [destruct (sscanf_lf _ _); [done|]|]; apply IH; lia.
Qed.

(** ** Stanzas of /proc/cpuinfo *)

(** The lines of a processor: its number, others, its frequency, others. *)
Record stanza : Type := mk_stanza {
  sz_head : cstr; sz_cpu : Z; sz_before : list cstr; sz_freq : cstr; sz_mhz : spec_float; sz_after : list cstr
}.
Definition no_processor (l : cstr) : Prop := sscanf_d "processor : " (c_string l) = Ret None.
Definition plain (l : cstr) : Prop := no_processor l /\ sscanf_lf "cpu MHz : " (c_string l) = None.
Definition stanza_ok (z : stanza) : Prop :=
  sscanf_d "processor : " (c_string (sz_head z)) = Ret (Some (sz_cpu z)) /\
  Forall plain (sz_before z) /\ Forall no_processor (sz_after z) /\
  no_processor (sz_freq z) /\ sscanf_lf "cpu MHz : " (c_string (sz_freq z)) = Some (sz_mhz z).
Definition stanza_lines (z : stanza) : list cstr := sz_head z :: sz_before z ++ sz_freq z :: sz_after z.

Lemma search_skip cpu cur ls rest :
  Forall no_processor ls -> (cur = cpu -> Forall plain ls) -> search cpu cur (ls ++ rest) = search cpu cur rest.
Proof.
  induction 1 as [|l ls Hl _ IH]; intros Hp; [done|]. cbn [app search]. rewrite Hl.
  destruct (Z.eqb_spec cur cpu) as [->|Hne].
  - specialize (Hp eq_refl). apply Forall_cons in Hp as [[_ ->] Hp]. by apply IH.
  - by apply IH.
Qed.

Lemma search_stanzas cpu cur zs z :
  Forall stanza_ok zs -> find (fun z => sz_cpu z =? cpu) zs = Some z ->
  search cpu cur (concat (map stanza_lines zs)) = hz_of_mhz (sz_mhz z).
Proof.
  intros Hz. revert cur. induction Hz as [|y zs (Hh & Hb & Ha & Hf & Hm) _ IH]; intros cur Hfind; [done|].
  cbn [map concat]. unfold stanza_lines at 1. cbn [app search]. rewrite Hh, <- app_assoc.
  assert (Forall no_processor (sz_before y)) by (eapply Forall_impl; [exact Hb|]; by intros ? []).
  rewrite search_skip by done. cbn [app search find] in *. rewrite Hf.
  destruct (Z.eqb_spec (sz_cpu y) cpu) as [E|E].
  - rewrite Hm. by injection Hfind as <-.
  - rewrite search_skip by done. by apply IH.
Qed.

Lemma print_no_newline n : 0 <= n -> newline ∉ print 10 n.
Proof.
  intros Hn. assert (Forall (fun c => c <> newline) (print 10 n)) as Hf.
  { apply digits_forall; [lia..| |done]. intros d Hd E%(f_equal digit_value). rewrite digit_roundtrip in E by done.
    change (digit_value newline) with 99 in E. lia. }
  intros Hin. rewrite Forall_forall in Hf. by apply (Hf newline).
Qed.

Lemma strtoull_print n : 0 <= n <= UINT64_MAX -> strtoull_10 (c_string (print 10 n ++ [newline])) = n.
Proof.
  intros Hn. rewrite c_string_id.
  2: { apply Forall_app. split; [|by repeat constructor]. apply digits_forall; [lia..| |done]. apply digit_chars. }
  unfold strtoull_10. destruct (print_head 10 n ltac:(lia) ltac:(lia)) as (c & tl & E & Hd).
  rewrite E. cbn [app]. rewrite sign_digit by (apply Z.ltb_lt in Hd; apply Z.ltb_lt; lia).
  change (c :: tl ++ [newline]) with ((c :: tl) ++ [newline]). rewrite <- E, scan_print by (lia || done).
  by rewrite (proj2 (Z.ltb_ge _ _)) by lia.
Qed.

(** The frequency of the processor the thread runs on: the maximum sysfs
    reports for it, or else the one of its stanza in /proc/cpuinfo, to the
    nearest 10 MHz. *)
Theorem cpu_freq_of_this_cpu getcpu fopen zs z hz :
  (forall khz, fopen (cpufreq_path getcpu) = Some (print 10 khz ++ [newline]) -> 0 < khz < 2 ^ 40 ->
    read_cpu_freq_from_sys getcpu fopen = Ret (ROUND (khz * 1000) TICKS_PER_10MHZ)) /\
  (fopen (cpufreq_path getcpu) = None ->
   fopen "/proc/cpuinfo"%string = Some (concat (concat (map stanza_lines zs))) ->
   Forall a_line (concat (map stanza_lines zs)) -> Forall stanza_ok zs ->
   find (fun z => sz_cpu z =? the_cpu getcpu) zs = Some z -> hz_of_mhz (sz_mhz z) = Ret hz -> hz <> 0 ->
   read_cpu_freq_from_sys getcpu fopen = Ret (ROUND hz TICKS_PER_10MHZ)).
Proof.
  split.
  - intros khz Hf Hk. unfold read_cpu_freq_from_sys.
    assert (sysfs_hz getcpu fopen = khz * 1000) as ->; [|destruct (Z.eqb_spec (khz * 1000) 0); [lia|done]].
    unfold sysfs_hz. rewrite Hf. destruct (print_head 10 khz ltac:(lia) ltac:(lia)) as (c & tl & E & Hd).
    rewrite E. cbn [app]. change (c :: tl ++ [newline]) with ((c :: tl) ++ [newline]). rewrite <- E.
    rewrite fgets_line.
    + cbn [fst]. rewrite strtoull_print by (unfold UINT64_MAX; lia). apply u64_small. lia.
    + apply print_no_newline. lia.
    + pose proof (print_length 10 khz 40 ltac:(lia) ltac:(lia)). lia.
  - intros Hnone Hc Hl Hz Hfind Hhz H0. unfold read_cpu_freq_from_sys, sysfs_hz. rewrite Hnone, Hc. simpl negb.
    rewrite cpuinfo_loop_lines, (search_stanzas _ _ _ z), Hhz by done. destruct (Z.eqb_spec hz 0); [lia|done].
Qed.

(** ** Concrete inputs and departures *)

(** Two processors; the first line of a file is a stanza's head. *)
Definition demo_cpuinfo : list stanza :=
  let line s := str s ++ [newline] in
  [ mk_stanza (line "processor : 0") 0 [line "model name : CPU @ 2.40GHz"] (line "cpu MHz : 2400.000") (double 2400)
      [line "cache size : 512 KB"; [newline]];
    mk_stanza (line "processor : 1") 1 [line "model name : CPU @ 2.40GHz"] (line "cpu MHz : 1800.000") (double 1800)
      [line "cache size : 512 KB"; [newline]] ].
Definition demo_fopen (path : string) : option cstr :=
  if String.eqb path "/proc/cpuinfo" then Some (concat (concat (map stanza_lines demo_cpuinfo))) else None.

Lemma line_of s : (negb (bool_decide (newline ∈ s)) && (length s <? 255)%nat) = true -> a_line (s ++ [newline]).
Proof.
  intros [H%negb_true_iff%bool_decide_eq_false Hl%Nat.ltb_lt]%andb_true_iff. by exists s.
Qed.
Lemma demo_lines : Forall a_line (concat (map stanza_lines demo_cpuinfo)).
Proof.
  unfold demo_cpuinfo. cbn [map stanza_lines sz_head sz_before sz_freq sz_after app concat].
  repeat (constructor; [first [apply line_of; vm_compute; reflexivity|apply (line_of []); reflexivity]|]). constructor.
Qed.
Lemma demo_stanzas : Forall stanza_ok demo_cpuinfo.
Proof. repeat constructor; vm_compute; reflexivity. Qed.

Lemma cpu_freq_of_this_cpu_witness : read_cpu_freq_from_sys 1 demo_fopen = Ret 1800000000.
Proof.
  destruct (cpu_freq_of_this_cpu 1 demo_fopen demo_cpuinfo (nth 1 demo_cpuinfo (mk_stanza [] 0 [] [] S754_nan []))
    1800000000) as [_ H]. rewrite H.
  - vm_compute. reflexivity.
  - vm_compute. reflexivity.
  - reflexivity.
  - apply demo_lines.
  - apply demo_stanzas.
  - vm_compute. reflexivity.
  - vm_compute. reflexivity.
  - done.
Defined.

(** A line longer than the buffer is read in pieces, and a piece can look like a
    line: here the end of a long line is taken for the number of a processor. *)
Lemma long_line_read_in_pieces :
  let long := str "model name : " ++ replicate 242 "x"%char ++ str "processor : 1" ++ [newline] in
  let file := str "processor : 0" ++ [newline] ++ long ++ str "cpu MHz : 2400.000" ++ [newline] in
  read_cpu_freq_from_sys 0 (fun p => if String.eqb p "/proc/cpuinfo" then Some file else None) = Ret 0.
Proof. vm_compute. reflexivity. Qed.
