(* ===== verification/Ticks.v ===== *)
(** * Ticks: sleeping and the frequency of the tick counter,
      src/support/{timer,ticks}.c and src/support/arch/x86_64/rdtsc.c

    The calls of the operating system are the class [Clock] over the counter
    of [Trace]; times and doubles are those of [CcanTime]. *)

From Stdlib Require Import SpecFloat.
From S2P Require Import Prelude Support Io Trace CStr CcanTime CpuFreq.
Local Open Scope Z_scope.
Local Open Scope vfn_scope.

(** [k_time] is the time that has passed; [k_quota] bounds the signals still to
    come, which is all that bounds the loop of [__usleep]. *)
Class Clock (K : Type) : Type := {
  k_ticks :: Ticks K;
  (** [nanosleep(req, rem)]: its error with the time it has stored, if it failed *)
  k_nanosleep : timespec -> K -> option (errno * timespec) * K;
  (** [clock_gettime(CLOCK_MONOTONIC_RAW, ...)] *)
  k_monotonic : M K timespec;
  k_time : K -> Z;
  k_quota : K -> nat;
  k_nanosleep_law req k :
    ts_wf req ->
    match k_nanosleep req k with
    | (None, k') => k_time k + ts_ns req <= k_time k'
    | (Some (e, rem), k') =>
        e = EINTR /\ ts_wf rem /\ k_time k + ts_ns req <= k_time k' + ts_ns rem /\ (k_quota k' < k_quota k)%nat
    end
}.

Section Clock.
Context {K : Type} {clock : Clock K}.

(** ** timer.c *)

(** [wait] is the array of two times, [idx] the one slept for next. *)
Fixpoint usleep_loop (fuel : nat) (wait : list timespec) (idx : nat) : M K unit := fun k =>
  match fuel, wait !! idx with
  | S fuel', Some req =>
      match k_nanosleep req k with
      | (None, k') => (Ret tt, k')
      | (Some (e, rem), k') =>
          if bool_decide (e = EINTR) then usleep_loop fuel' (<[(1 - idx)%nat := rem]> wait) (1 - idx) k' else (Ret tt, k')
      end
  | _, _ => (Crash, k)
  end.

(** [indet] is the indeterminate second element. *)
Definition __usleep (fuel : nat) (indet : timespec) (usec : Z) : M K unit :=
  usleep_loop fuel [time_from_usec usec; indet] 0.

(** ** rdtsc.c *)

(** [maxleaf] and the registers of leaf 0x15 are what the processor reports.
    The arithmetic is on [uint32_t]; dividing by zero traps. *)
Definition __x86_64_get_tsc_freq (maxleaf a b c : Z) : outcome Z :=
  if maxleaf <? 0x15 then Ret 0
  else if (b =? 0) || (c =? 0) then Ret 0
  else if a =? 0 then Crash
  else Ret (u32 (c * (b / a))).

(** ** ticks.c *)

Definition read_counter : M K Z := fun k => let '(v, k') := get_ticks k in (Ret v, k').

Definition measure_ticks_freq : M K Z :=
  let t_sleep := time_from_nsec (NS_PER_SEC / 10) in
  let* t_start := try k_monotonic in
  match t_start with
  | inl _ => ret 0
  | inr t_start =>
      let* start := read_counter in
      do* (fun k => (Ret tt, snd (k_nanosleep t_sleep k))) in
      let* t_end := try k_monotonic in
      match t_end with
      | inl _ => ret 0
      | inr t_end =>
          let* stop := read_counter in
          let ns := time_to_nsec (timemono_between t_end t_start) in
          let secs := double_div (double ns) (double NS_PER_SEC) in
          let* hz := (fun k => (u64_of_double (double_div (double (u64 (stop - start))) secs), k)) in
          ret (ROUND hz TICKS_PER_10MHZ)
      end
  end.

Definition estimate_ticks_freq (fuel : nat) (indet : timespec) : M K Z :=
  let* start := read_counter in
  do* __usleep fuel indet 1000000 in
  let* stop := read_counter in
  ret (ROUND (u64 (stop - start)) TICKS_PER_10MHZ).

(** [arch] is [get_ticks_freq_arch()]; [sched_getcpu] and the files are those
    of [CpuFreq]. *)
Definition init_ticks_freq (fuel : nat) (indet : timespec) (arch : outcome Z) (sched_getcpu : Z)
    (fopen : string -> option cstr) : M K Z :=
  let* freq := (fun k => (arch, k)) in
  let* freq := if freq =? 0 then (fun k => (read_cpu_freq_from_sys sched_getcpu fopen, k)) else ret freq in
  let* freq := if freq =? 0 then measure_ticks_freq else ret freq in
  if freq =? 0 then estimate_ticks_freq fuel indet else ret freq.

(** ** Sleeping *)

Lemma usleep_loop_sleeps fuel wait idx req k :
  length wait = 2%nat -> (idx < 2)%nat -> wait !! idx = Some req -> ts_wf req -> (k_quota k < fuel)%nat ->
  exists k', usleep_loop fuel wait idx k = (Ret tt, k') /\ k_time k + ts_ns req <= k_time k'.
Proof.
  revert wait idx req k. induction fuel as [|fuel IH]; intros wait idx req k Hl Hi Hreq Hwf Hq; [lia|].
  simpl. rewrite Hreq. pose proof (k_nanosleep_law req k Hwf) as Hlaw.
  destruct (k_nanosleep req k) as [[[e rem]|] k']; [|by eexists].
  destruct Hlaw as (-> & Hrem & Ht & Hq'). rewrite bool_decide_eq_true_2 by done.
  destruct (IH (<[(1 - idx)%nat := rem]> wait) (1 - idx)%nat rem k') as (k2 & E & Ht2).
  - by rewrite length_insert.
  - lia.
  - apply list_lookup_insert_eq. lia.
  - done.
  - lia.
  - exists k2. split; [exact E|lia].
Qed.

(** [__usleep] sleeps at least as long as it is asked to, however often
    signals interrupt it, and returns once they stop. *)
Theorem usleep_sleeps fuel indet usec k :
  0 <= usec -> (k_quota k < fuel)%nat ->
  exists k', __usleep fuel indet usec k = (Ret tt, k') /\ k_time k + usec * 1000 <= k_time k'.
Proof.
  intros Hu Hq. destruct (time_from_usec_wf usec Hu) as [Hwf Hns]. rewrite <- Hns.
  by apply usleep_loop_sleeps; try lia.
Qed.
End Clock.

(** The frequency of the processor is exact when the ratio is whole and the
    product fits 32 bits. *)
Lemma tsc_freq_exact maxleaf a b c :
  0x15 <= maxleaf -> 0 < a -> 0 < b -> 0 < c -> (a | b) -> c * b / a < 0x100000000 ->
  __x86_64_get_tsc_freq maxleaf a b c = Ret (c * b / a).
Proof.
  intros Hm Ha Hb Hc [q ->] Hf. unfold __x86_64_get_tsc_freq. zcases.
  rewrite Z.div_mul by lia. rewrite Z.mul_assoc, Z.div_mul in Hf |- * by lia. rewrite u32_small by nia. done.
Qed.

(** ** Concrete inputs and departures *)

(** A clock that is interrupted while the second number is positive, each time
    after half the time; the counter runs at 2.4 GHz. *)
#[local] Instance demo_clock : Clock (Z * nat).
Proof.
  unshelve refine {|
    k_ticks := {| get_ticks k := (Z.min UINT64_MAX (Z.max 0 (k.1 * 24 / 10)), k); ticks_now k := Z.min UINT64_MAX (Z.max 0 (k.1 * 24 / 10)) |};
    k_nanosleep req k :=
      match k.2 with
      | O => (None, (k.1 + Z.max 0 (ts_ns req), O))
      | S n => (Some (EINTR, time_from_nsec (Z.max 0 (ts_ns req) / 2)), (k.1 + Z.max 0 (ts_ns req) - Z.max 0 (ts_ns req) / 2, n))
      end;
    k_monotonic k := (Ret (time_from_nsec k.1), k);
    k_time k := k.1;
    k_quota k := k.2
  |}.
  - intros [t n]. unfold UINT64_MAX. simpl fst. simpl snd. lia.
  - intros req [t [|n]] [H1 H2]; unfold ts_ns, ts_wf, NS_PER_SEC in *; cbn -[Z.mul Z.add Z.div Z.modulo Z.max]; [lia|].
    set (x := Z.max 0 _ / 2). assert (0 <= x) by (apply Z.div_pos; lia).
    pose proof (Z.div_mod x 1000000000 ltac:(lia)). pose proof (Z.mod_pos_bound x 1000000000 ltac:(lia)).
    pose proof (Z.div_pos x 1000000000). repeat split; lia.
Defined.

Lemma usleep_sleeps_witness :
  exists k', __usleep 4 (mk_ts 0 0) 1500000 (5, 3%nat) = (Ret tt, k') /\ k_time (5, 3%nat) + 1500000 * 1000 <= k_time k'.
Proof. apply (usleep_sleeps 4 (mk_ts 0 0) 1500000 (5, 3%nat)); [lia|simpl; lia]. Defined.

Lemma measured_frequency : fst (measure_ticks_freq (1000, 0%nat)) = Ret 2400000000.
Proof. vm_compute. reflexivity. Qed.

(** A crystal of 38.4 MHz and a ratio of 125: 4.8 GHz does not fit 32 bits.  A
    ratio that is not whole is cut off. *)
Lemma tsc_freq_wraps : __x86_64_get_tsc_freq 0x16 2 250 38400000 = Ret 505032704.
Proof. reflexivity. Qed.
Lemma tsc_freq_truncates : __x86_64_get_tsc_freq 0x16 2 167 24000000 = Ret (24000000 * 83).
Proof. reflexivity. Qed.
