(* ===== verification/Pci.v ===== *)
(** * Pci: device attributes, drivers and virtual functions in sysfs,
    src/pci/util.c

    The functions build paths under /sys/bus/pci and read, write and resolve
    what is there.  The file system is the class [SysFs] over the files of [Io].
    C strings are [string]s; a buffer is a list of characters.  [asprintf] is
    taken not to run out of memory. *)

From Stdlib Require String.
From S2P Require Import Prelude CStr Io.
Local Open Scope Z_scope.
Local Open Scope vfn_scope.

(** What the functions use of a file system, besides its files, and the
    environment of the process. *)
Class SysFs (F : Type) : Type := {
  sysfs_files :: Files F;
  (** [stat(path, &sb)]: its error, or whether the path is a directory *)
  s_stat : F -> string -> errno + bool;
  (** [readlink(path, ...)]: the target of the link *)
  s_readlink : F -> string -> errno + string;
  (** [access(path, F_OK) == 0] *)
  s_access : F -> string -> bool;
  (** [opendir(path)]: what [readdir] returns until it returns NULL, and the
      error it then reports *)
  s_opendir : F -> string -> errno + (list string * option errno);
  (** the error of [closedir], if it fails *)
  s_closedir : F -> string -> option errno;
  (** [getenv(name)] *)
  s_getenv : F -> string -> option string
}.

(** [errno] of a function that returns its error value without setting it. *)
Definition errno_unset : errno := Eother 0.

Definition PATH_MAX : nat := 4096.

(** ** The C library: strings and numbers *)

Definition slash : ascii := "/"%char.
(** [strrchr(s, '/') + 1], or [None] for a null result. *)
Fixpoint strrchr_slash (s : string) : option string :=
  match s with
  | EmptyString => None
  | String c s' =>
      match strrchr_slash s' with
      | Some r => Some r
      | None => if (c =? slash)%char then Some s' else None
      end
  end.

(** [&s[n]] *)
Fixpoint str_skip (n : nat) (s : string) : string :=
  match n, s with
  | S n', String _ s' => str_skip n' s'
  | _, _ => s
  end.

(** The contents of a buffer of [size] bytes after [readlink] and the
    terminating zero. *)
Definition link_buffer (size : nat) (target : string) : string := String.substring 0 size target.

(** ** The functions *)

Section Ops.
Context {F : Type} {fs : SysFs F}.
(** The bound on the calls of one [writeall] or [readmax]. *)
Variable fuel : nat.

Definition devices : string := "/sys/bus/pci/devices/".
Definition drivers : string := "/sys/bus/pci/drivers/".

Definition write_string (path s : string) : M F unit :=
  do* writeall fuel path (String.list_ascii_of_string s) in ret tt.

Definition pci_unbind (bdf : string) : M F unit :=
  let path := (devices +:+ bdf +:+ "/driver/unbind") in
  let* f := get in
  match s_stat f path with
  | inl e => fail e
  | inr _ => write_string path bdf
  end.

Definition pci_bind (bdf driver : string) : M F unit :=
  write_string (drivers +:+ driver +:+ "/bind") bdf.

Definition pci_driver_new_id (driver : string) (vid did : Z) : M F unit :=
  write_string (drivers +:+ driver +:+ "/new_id") (print_str 16 vid +:+ " " +:+ print_str 16 did).

Definition pci_driver_remove_id (driver : string) (vid did : Z) : M F unit :=
  write_string (drivers +:+ driver +:+ "/remove_id") (print_str 16 vid +:+ " " +:+ print_str 16 did).

(** The buffer has 32 bytes; a store past its end is undefined. *)
Definition pci_device_info_get_ull (bdf prop : string) : M F Z :=
  let* buf := readmax fuel (devices +:+ bdf +:+ "/" +:+ prop) 32 in
  if (length buf <? 32)%nat then
    match strtoull (c_string (buf ++ [NUL])) with
    | None => fail EINVAL
    | Some (v, None) => ret v
    | Some (_, Some e) => fail e
    end
  else crash.

(** The last component of the target of a link. *)
Definition link_name (path : string) (no_slash : errno) : M F string := fun f =>
  match s_readlink f path with
  | inl e => (Fail e, f)
  | inr target =>
      match strrchr_slash (link_buffer (PATH_MAX - 1) target) with
      | None => (Fail no_slash, f)
      | Some name => (Ret name, f)
      end
  end.

Definition pci_get_driver (bdf : string) : M F string :=
  link_name (devices +:+ bdf +:+ "/driver") errno_unset.

Definition pci_get_iommu_group (bdf : string) : M F string :=
  let* name := link_name (devices +:+ bdf +:+ "/iommu_group") errno_unset in
  ret ("/dev/vfio/" +:+ name).

(** The first entry whose name starts with [pre]. *)
Definition pci_get_device_vfio_id (bdf : string) : M F string := fun f =>
  let path := (devices +:+ bdf +:+ "/vfio-dev") in
  match s_opendir f path with
  | inl e => (Fail e, f)
  | inr (names, err) =>
      if s_closedir f path is Some _ then (Crash, f)
      else
        match List.find (String.prefix "vfio") names with
        | Some name => (Ret name, f)
        | None => (Fail (default EINVAL err), f)
        end
  end.

Definition pci_is_vf (f : F) (bdf : string) : bool := s_access f (devices +:+ bdf +:+ "/physfn").
Definition pci_is_pf (f : F) (bdf : string) : bool := s_access f (devices +:+ bdf +:+ "/sriov_numvfs").
Definition pci_is_sriov_supported (f : F) (bdf : string) : bool := pci_is_pf f bdf || pci_is_vf f bdf.

Definition pci_vf_get_pf_bdf (bdf : string) : M F string :=
  link_name (devices +:+ bdf +:+ "/physfn") EINVAL.

(** The loop over the entries of the physical function's directory. *)
Fixpoint vfnum_loop (path bdf : string) (names : list string) (err : option errno) : M F string :=
  match names with
  | [] => fail (default EINVAL err)
  | name :: names' =>
      if String.prefix "virtfn" name then
        let* vf := link_name (path +:+ "/" +:+ name) EINVAL in
        if String.eqb vf bdf then ret name else vfnum_loop path bdf names' err
      else vfnum_loop path bdf names' err
  end.

Definition pci_vf_get_vfnum (bdf : string) : M F Z :=
  let* pf_bdf := pci_vf_get_pf_bdf bdf in
  let path := (devices +:+ pf_bdf) in
  let* f := get in
  match s_opendir f path with
  | inl e => fail e
  | inr (names, err) =>
      let* r := try (vfnum_loop path bdf names err) in
      let* f := get in
      if s_closedir f path is Some _ then crash
      else
        match r with
        | inl e => fail e
        | inr name => ret (atoi (String.list_ascii_of_string (str_skip 6 name)) + 1)
        end
  end.

Definition pci_get_vf_bdf (pf_bdf : string) (vfnum : Z) : M F string :=
  if vfnum <? 1 then fail EINVAL
  else link_name (devices +:+ pf_bdf +:+ "/virtfn" +:+ print_str 10 (vfnum - 1)) errno_unset.
End Ops.

(** A number as sysfs prints it, with any number of leading zeros. *)
Definition hex_attribute (zeros : nat) (v : Z) : list ascii :=
  "0"%char :: "x"%char :: replicate zeros "0"%char ++ print 16 v ++ ["010"%char].

Lemma strtoull_hex zeros v :
  0 <= v <= UINT64_MAX -> strtoull (hex_attribute zeros v) = Some (v, None).
Proof.
  intros Hv. unfold strtoull, strto, hex_attribute. rewrite sign_digit by done. unfold detect_base.
  destruct (print_head 16 v ltac:(lia) ltac:(lia)) as (c & rest & E & Hd).
  assert (starts_digit 16 (replicate zeros "0"%char ++ print 16 v ++ ["010"%char]) = true) as Hs.
  { destruct zeros; simpl; [rewrite E; simpl; done|done]. }
  rewrite Hs, Hs. assert (scan 16 0 (replicate zeros "0"%char ++ print 16 v ++ ["010"%char]) = v) as ->.
  { clear Hs. induction zeros as [|zeros IH]; [apply scan_print; [lia|lia|done]|]. exact IH. }
  by rewrite (proj2 (Z.ltb_ge _ _)) by lia.
Qed.

Lemma hex_attribute_chars zeros v : 0 <= v -> Forall (fun c => c <> NUL) (hex_attribute zeros v).
Proof.
  intros Hv. repeat constructor; [done..|]. apply Forall_app. split; [by apply Forall_replicate|].
  apply Forall_app. split; [|by repeat constructor]. apply digits_forall; [lia..| |done]. apply digit_chars.
Qed.

(** ** Links and directories *)

Fixpoint no_slash (s : string) : bool :=
  match s with
  | EmptyString => true
  | String c s' => negb (c =? slash)%char && no_slash s'
  end.

Lemma strrchr_plain s : no_slash s = true -> strrchr_slash s = None.
Proof.
  induction s as [|c s IH]; simpl; [done|]. intros [Hc Hs]%andb_true_iff. rewrite (IH Hs).
  by destruct (c =? slash)%char.
Qed.

Lemma strrchr_last dir name : no_slash name = true -> strrchr_slash (dir +:+ "/" +:+ name) = Some name.
Proof.
  intros Hn. induction dir as [|c dir IH]; simpl; [by rewrite strrchr_plain|]. by rewrite IH.
Qed.

Lemma substring_all s n : (String.length s <= n)%nat -> String.substring 0 n s = s.
Proof.
  revert n. induction s as [|c s IH]; intros [|n] Hl; simpl in *; try done; try lia.
  f_equal. apply IH. lia.
Qed.

Lemma append_assoc (s t u : string) : (s +:+ t) +:+ u = s +:+ (t +:+ u).
Proof. induction s as [|c s IH]; [done|]. exact (f_equal (String.String c) IH). Qed.

Lemma prefix_append s t : String.prefix s (s +:+ t) = true.
Proof. induction s as [|c s IH]; simpl; [by destruct t|]. by destruct (ascii_dec c c). Qed.

Lemma print_str_inj i j : 0 <= i -> 0 <= j -> print_str 10 i = print_str 10 j -> i = j.
Proof.
  intros Hi Hj E%(f_equal String.list_ascii_of_string). unfold print_str in E.
  rewrite !String.list_ascii_of_string_of_list_ascii in E.
  rewrite <- (scan_print 10 i []), <- (scan_print 10 j []) by (lia || done). by rewrite E.
Qed.

Section Spec.
Context {F : Type} {fs : SysFs F}.

(** A link whose target is [name] in some directory. *)
Definition links_to (f : F) (path name : string) : Prop :=
  exists dir, s_readlink f path = inr (dir +:+ "/" +:+ name) /\
    (String.length (dir +:+ "/" +:+ name) < PATH_MAX)%nat /\ no_slash name = true.

Lemma link_name_spec f path name e : links_to f path name -> link_name path e f = (Ret name, f).
Proof.
  intros (dir & Hl & Hs & Hn). unfold link_name. rewrite Hl. unfold link_buffer.
  rewrite substring_all by lia. by rewrite strrchr_last.
Qed.

(** The directory of a physical function [pf] whose virtual functions are [vfs]:
    the links virtfn0, virtfn1, ... to them, among other entries, and their links
    back. *)
Record sriov (f : F) (pf : string) (vfs : list string) (names : list string) : Prop := {
  sv_virtfn i vf : vfs !! i = Some vf ->
    links_to f (devices +:+ pf +:+ "/virtfn" +:+ print_str 10 (Z.of_nat i)) vf;
  sv_physfn vf : vf ∈ vfs -> links_to f (devices +:+ vf +:+ "/physfn") pf;
  sv_dir : s_opendir f (devices +:+ pf) = inr (names, None);
  sv_close : s_closedir f (devices +:+ pf) = None;
  sv_names name : name ∈ names -> String.prefix "virtfn" name = true ->
    exists i, (i < length vfs)%nat /\ name = "virtfn" +:+ print_str 10 (Z.of_nat i);
  sv_all i : (i < length vfs)%nat -> ("virtfn" +:+ print_str 10 (Z.of_nat i)) ∈ names;
  sv_nodup : NoDup vfs
}.

Lemma vfnum_loop_spec f pf vfs all names i vf :
  sriov f pf vfs all -> vfs !! i = Some vf -> names ⊆ all ->
  ("virtfn" +:+ print_str 10 (Z.of_nat i)) ∈ names ->
  vfnum_loop (devices +:+ pf) vf names None f = (Ret ("virtfn" +:+ print_str 10 (Z.of_nat i)), f).
Proof.
  intros Hs Hi. induction names as [|name names IH]; intros Hsub Hin; [set_solver|]. cbn [vfnum_loop].
  destruct (String.prefix "virtfn" name) eqn:Ep.
  - destruct (sv_names _ _ _ _ Hs name) as (j & Hj & ->); [set_solver|done|].
    destruct (lookup_lt_is_Some_2 vfs j Hj) as [w Hw].
    assert (links_to f ((devices +:+ pf) +:+ "/" +:+ "virtfn" +:+ print_str 10 (Z.of_nat j)) w) as Hl
      by (rewrite append_assoc; exact (sv_virtfn _ _ _ _ Hs j w Hw)).
    unfold bind. rewrite (link_name_spec _ _ _ _ Hl). destruct (String.eqb_spec w vf) as [->|Hne].
    + unfold ret. by rewrite (NoDup_lookup _ _ _ _ (sv_nodup _ _ _ _ Hs) Hw Hi).
    + apply IH; [set_solver|]. apply elem_of_cons in Hin as [E|]; [|done]. exfalso. apply Hne.
      simpl in E. injection E as E. apply print_str_inj in E; [|lia..]. apply Nat2Z.inj in E as ->. congruence.
  - apply IH; [set_solver|]. apply elem_of_cons in Hin as [<-|]; [|done]. by rewrite prefix_append in Ep.
Qed.

(** In a consistent sysfs tree the virtual functions of a device are
    numbered from 1 by [pci_get_vf_bdf], [pci_vf_get_vfnum] recovers the number
    from the address it returned, and [pci_vf_get_pf_bdf] the device. *)
Theorem vf_numbering_roundtrip f pf vfs names i vf :
  sriov f pf vfs names -> Z.of_nat i < 0x7fffffff -> vfs !! i = Some vf ->
  pci_get_vf_bdf pf (Z.of_nat i + 1) f = (Ret vf, f) /\
  pci_vf_get_vfnum vf f = (Ret (Z.of_nat i + 1), f) /\
  pci_vf_get_pf_bdf vf f = (Ret pf, f).
Proof.
  intros Hs Hmax Hi. assert (pci_vf_get_pf_bdf vf f = (Ret pf, f)) as Hpf.
  { apply link_name_spec, (sv_physfn _ _ _ _ Hs). by apply list_elem_of_lookup_2 with i. }
  split; [|split; [|done]].
  - unfold pci_get_vf_bdf. rewrite (proj2 (Z.ltb_ge _ _)) by lia.
    replace (Z.of_nat i + 1 - 1) with (Z.of_nat i) by lia. apply link_name_spec. by apply (sv_virtfn _ _ _ _ Hs).
  - unfold pci_vf_get_vfnum. rewrite (bind_ret _ _ _ _ _ Hpf). unfold bind at 1, get at 1.
    rewrite (sv_dir _ _ _ _ Hs). unfold bind at 1, try.
    rewrite (vfnum_loop_spec f pf vfs names names i vf Hs Hi) by (done || apply (sv_all _ _ _ _ Hs), lookup_lt_is_Some_1; by eexists).
    unfold bind, get. rewrite (sv_close _ _ _ _ Hs). unfold ret.
    change (str_skip 6 ("virtfn" +:+ ?x)) with x. unfold print_str.
    rewrite String.list_ascii_of_string_of_list_ascii, atoi_print by lia. done.
Qed.

(** A number in an attribute of at most 31 characters, printed the way the
    kernel prints it, is what [pci_device_info_get_ull] returns; an error is the
    error of a read. *)
Theorem device_info_hex fuel bdf prop f fd f1 zeros v :
  f_open_rdonly (devices +:+ bdf +:+ "/" +:+ prop) f = (Ret fd, f1) ->
  (forall g : F, fst (f_close fd g) = Ret tt) -> (f_quota f1 + 32 < fuel)%nat ->
  0 <= v <= UINT64_MAX -> f_input f1 fd = hex_attribute zeros v -> (length (hex_attribute zeros v) < 32)%nat ->
  match pci_device_info_get_ull fuel bdf prop f with
  | (Ret x, _) => x = v
  | (Fail e, _) => exists n g g', f_read fd n g = (Fail e, g')
  | (Crash, _) => False
  end.
Proof.
  intros Ho Hcl Hq Hv Hin Hlen. unfold pci_device_info_get_ull, readmax.
  unfold bind at 1, bind at 1. rewrite Ho. unfold closing, bind at 1, try.
  pose proof (read_loop_spec fuel fd 32 [] f1 ltac:(by right) ltac:(lia) ltac:(simpl; lia)) as H.
  unfold readmaxfd. destruct (read_loop _ _ _ _ _) as [[bs|e|] f2]; [..|done].
  - destruct H as (rest & -> & _ & ->). specialize (Hcl f2). unfold bind, fatal_if.
    destruct (f_close fd f2) as [o f3]. simpl in Hcl. rewrite Hcl. simpl. rewrite Hin, take_ge by lia.
    rewrite (proj2 (Nat.ltb_lt _ _)) by done.
    rewrite c_string_all by (apply hex_attribute_chars; lia). by rewrite strtoull_hex.
  - destruct H as [_ H]. specialize (Hcl f2). unfold bind, fatal_if. destruct (f_close fd f2) as [o f3].
    simpl in Hcl. by rewrite Hcl.
Qed.
End Spec.

(** ** A concrete tree: one physical function with two virtual functions *)

Definition tree_links : list (string * string) :=
  [("/sys/bus/pci/devices/0000:01:00.0/virtfn0", "../0000:01:00.1");
   ("/sys/bus/pci/devices/0000:01:00.0/virtfn1", "../0000:01:00.2");
   ("/sys/bus/pci/devices/0000:01:00.1/physfn", "../0000:01:00.0");
   ("/sys/bus/pci/devices/0000:01:00.2/physfn", "../0000:01:00.0");
   ("/sys/bus/pci/devices/0000:01:00.0/driver", "../../../../bus/pci/drivers/vfio-pci");
   ("/sys/bus/pci/devices/0000:01:00.0/iommu_group", "../../../kernel/iommu_groups/12")]%string.

Definition tree_readlink (path : string) : errno + string :=
  match List.find (fun l => String.eqb l.1 path) tree_links with
  | Some l => inr l.2
  | None => inl ENOENT
  end.

Definition tree_names : list string := [".";  "virtfn1"; "driver"; "virtfn0"; "iommu_group"]%string.

#[local] Instance tree : SysFs pipe := {|
  sysfs_files := pipe_files;
  s_stat _ _ := inr false;
  s_readlink _ := tree_readlink;
  s_access _ path := match tree_readlink path with inr _ => true | inl _ => false end;
  s_opendir _ path :=
    if String.eqb path "/sys/bus/pci/devices/0000:01:00.0" then inr (tree_names, None) else inl ENOENT;
  s_closedir _ _ := None;
  s_getenv _ _ := None
|}.

Definition tree_vfs : list string := ["0000:01:00.1"; "0000:01:00.2"]%string.

Lemma tree_sriov : sriov demo_pipe "0000:01:00.0" tree_vfs tree_names.
Proof.
  split.
  - intros [|[|i]] vf [= <-]; exists ".."%string; by vm_compute; split_and!; try lia.
  - intros vf [-> | [-> | []%elem_of_nil]%elem_of_cons]%elem_of_cons; exists ".."%string; by vm_compute; split_and!; try lia.
  - done.
  - done.
  - intros name Hin Hp. unfold tree_names in Hin. rewrite !elem_of_cons in Hin.
    destruct Hin as [-> |[-> |[-> |[-> |[-> |Hin]]]]]; try done; [by exists 1%nat; vm_compute; split; [lia|]..| |].
    + exists 0%nat. vm_compute. split; [lia|done].
    + by apply elem_of_nil in Hin.
  - intros [|[|i]] Hi; [vm_compute; set_solver..|]. simpl in Hi. lia.
  - vm_compute. repeat constructor; set_solver.
Qed.

Lemma vf_numbering_roundtrip_witness :
  pci_vf_get_vfnum "0000:01:00.2" demo_pipe = (Ret 2, demo_pipe).
Proof.
  apply (vf_numbering_roundtrip demo_pipe "0000:01:00.0" tree_vfs tree_names 1 "0000:01:00.2" tree_sriov);
    [lia|reflexivity].
Defined.

Definition class_attribute : pipe :=
  mk_pipe (String.list_ascii_of_string "0x010802" ++ ["010"%char]) [] [inr 2%nat; inl EINTR].

Lemma device_info_hex_witness :
  match pci_device_info_get_ull 60 "0000:01:00.0" "class" class_attribute with
  | (Ret x, _) => x = 0x010802
  | _ => False
  end.
Proof.
  exact (device_info_hex 60 "0000:01:00.0" "class" class_attribute 3 class_attribute 1 0x010802 eq_refl (fun _ => eq_refl)
    ltac:(apply Nat.ltb_lt; reflexivity) ltac:(unfold UINT64_MAX; lia) eq_refl ltac:(apply Nat.ltb_lt; reflexivity)).
Defined.

(** An attribute that fills the buffer has its terminator stored one byte past
    the end of it. *)
Lemma long_attribute_overflows :
  fst (pci_device_info_get_ull 60 "0000:01:00.0" "resource"
    (mk_pipe (String.list_ascii_of_string "0x00000000f7d00000 0x00000000f7d03fff") [] [])) = Crash.
Proof. vm_compute. reflexivity. Qed.
