(* ===== verification/OptHelpers.v ===== *)
(** * OptHelpers: values of command line options, ccan/opt/helpers.c

    Callbacks that set a variable from the argument of an option, and callbacks
    that show the value of a variable.  A setter is a computation on the variable
    it stores to; it returns the text of the problem, or [None] for the NULL of a
    success.  A shower gives the contents of the buffer up to its terminator or
    its end.  [int] has 32 bits, [long] and [long long] have 64. *)

From Stdlib Require String.
From S2P Require Import Prelude CStr.
Local Open Scope Z_scope.
Local Open Scope vfn_scope.

Definition INT_MAX : Z := 0x7fffffff.
Definition INT_MIN : Z := - INT_MAX - 1.
Definition OPT_SHOW_LEN : nat := 80.

(** A string literal. *)
Definition lit (s : string) : cstr := String.list_ascii_of_string s.

(** [sprintf(str, fmt, arg)] for a format with [%s] conversions. *)
Fixpoint sprintf_s (fmt arg : cstr) : cstr :=
  match fmt with
  | "%"%char :: (("s"%char) :: fmt') => arg ++ sprintf_s fmt' arg
  | c :: fmt' => c :: sprintf_s fmt' arg
  | [] => []
  end.

(** [malloc(n)] and a string written there: one that does not fit is undefined. *)
Definition alloc_str (n : nat) (s : cstr) : outcome cstr := if (length s <? n)%nat then Ret s else Crash.

Definition arg_bad {S} (fmt : string) (arg : cstr) : M S (option cstr) := fun v =>
  match alloc_str (length (lit fmt) + length arg) (sprintf_s (lit fmt) arg) with
  | Ret str => (Ret (Some str), v)
  | Fail e => (Fail e, v)
  | Crash => (Crash, v)
  end.

(** [sizeof] counts the terminator. *)
Definition opt_invalid_argument {S} (arg : cstr) : M S (option cstr) := fun v =>
  let fmt := lit "Invalid argument '%s'" in
  match alloc_str (length fmt + 1 + length arg) (sprintf_s fmt arg) with
  | Ret str => (Ret (Some str), v)
  | Fail e => (Fail e, v)
  | Crash => (Crash, v)
  end.

(** ** Setters *)

Definition opt_set_bool : M bool (option cstr) := fun _ => (Ret None, true).
Definition opt_set_invbool : M bool (option cstr) := fun _ => (Ret None, false).

Definition strcasecmp_eq (a b : cstr) : bool := bool_decide (tolower <$> a = tolower <$> b).

Definition opt_set_bool_arg (arg : cstr) : M bool (option cstr) :=
  if strcasecmp_eq arg (lit "yes") || strcasecmp_eq arg (lit "true") then opt_set_bool
  else if strcasecmp_eq arg (lit "no") || strcasecmp_eq arg (lit "false") then opt_set_invbool
  else opt_invalid_argument arg.

Definition opt_set_invbool_arg (arg : cstr) : M bool (option cstr) :=
  let* err := opt_set_bool_arg arg in
  match err with
  | None => do* modify negb in ret None
  | Some _ => ret err
  end.

(** A [char *] variable; [None] is NULL. *)
Definition opt_set_charp (arg : cstr) : M (option cstr) (option cstr) := do* put (Some arg) in ret None.

(** A callee that stores to a local variable of the caller, which has no value
    before ([indet]); the outcome and the local. *)
Definition local {S T A} (indet : T) (m : M T A) : M S (A * T) := fun v =>
  match m indet with
  | (Ret a, x) => (Ret (a, x), v)
  | (Fail e, _) => (Fail e, v)
  | (Crash, _) => (Crash, v)
  end.

Definition opt_set_longval (arg : cstr) : M Z (option cstr) :=
  let '(v, endp, range) := strtol arg in
  do* put v in
  if negb (bool_decide (endp = [])) || bool_decide (arg = []) then arg_bad "'%s' is not a number" arg
  else if range : bool then arg_bad "'%s' is out of range" arg
  else ret None.

Definition opt_set_intval (arg : cstr) : M Z (option cstr) :=
  let* (err, l) := local 0 (opt_set_longval arg) in
  match err with
  | Some _ => ret err
  | None =>
      do* put (s32 l) in
      if negb (s32 l =? l) then arg_bad "value '%s' does not fit into an integer" arg else ret None
  end.

Definition opt_set_uintval (arg : cstr) : M Z (option cstr) :=
  let* (err, i) := local 0 (opt_set_intval arg) in
  match err with
  | Some _ => ret err
  | None =>
      if i <? 0 then arg_bad "'%s' is negative but destination is unsigned" arg
      else do* put i in ret None
  end.

Definition opt_set_ulongval (arg : cstr) : M Z (option cstr) :=
  let* (err, l) := local 0 (opt_set_longval arg) in
  match err with
  | Some _ => ret err
  | None =>
      do* put (u64 l) in
      if l <? 0 then arg_bad "'%s' is negative but destination is unsigned" arg else ret None
  end.

(** Signed overflow is undefined. *)
Definition opt_inc_intval : M Z (option cstr) :=
  let* i := get in if i =? INT_MAX then crash else do* put (i + 1) in ret None.
Definition opt_dec_intval : M Z (option cstr) :=
  let* i := get in if i =? INT_MIN then crash else do* put (i - 1) in ret None.

(** ** Setters with a multiplier suffix *)

(** The [switch] on the suffix. *)
Definition suffix_mul (c : ascii) (base : Z) : option Z :=
  match c with
  | "K"%char | "k"%char => Some base
  | "M"%char | "m"%char => Some (base * base)
  | "G"%char | "g"%char => Some (base * base * base)
  | "T"%char | "t"%char => Some (base * base * base * base)
  | "P"%char => Some (base * base * base * base * base)
  | "E"%char => Some (base * base * base * base * base * base)
  | _ => None
  end.

(** C division rounds towards zero. *)
Definition set_llong_with_suffix (arg : cstr) (base : Z) : M Z (option cstr) :=
  if bool_decide (arg = []) then do* put 0 in arg_bad "'%s' (an empty string) is not a number" arg
  else
    let '(ll, endp, range) := strtol arg in
    do* put ll in
    if range : bool then arg_bad "'%s' is out of range" arg
    else
      match endp with
      | [] => ret None
      | c :: endp' =>
          if negb (bool_decide (endp' = [])) then arg_bad "'%s' is not a number (suffix too long)" arg
          else
            match suffix_mul c base with
            | None => arg_bad "'%s' is not a number (unknown suffix)" arg
            | Some mul =>
                if (Z.quot LONG_MAX mul <? ll) || (ll <? Z.quot LONG_MIN mul)
                then arg_bad "'%s' is out of range" arg
                else do* put (ll * mul) in ret None
            end
      end.

Definition set_ulonglong_with_suffix (arg : cstr) (base : Z) : M Z (option cstr) :=
  let* (err, ll) := local 0 (set_llong_with_suffix arg base) in
  match err with
  | Some _ => ret err
  | None =>
      if ll <? 0 then arg_bad "'%s' is negative but destination is unsigned" arg
      else do* put (u64 ll) in ret None
  end.

(** [long] has the width of [long long]: its check never applies. *)
Definition set_long_with_suffix (arg : cstr) (base : Z) : M Z (option cstr) :=
  let* (err, ll) := local 0 (set_llong_with_suffix arg base) in
  match err with
  | Some _ => ret err
  | None => do* put ll in ret None
  end.

Definition set_ulong_with_suffix (arg : cstr) (base : Z) : M Z (option cstr) :=
  let* (err, ll) := local 0 (set_llong_with_suffix arg base) in
  match err with
  | Some _ => ret err
  | None =>
      if ll <? 0 then arg_bad "'%s' is negative but destination is unsigned" arg
      else do* put (u64 ll) in ret None
  end.

Definition set_int_with_suffix (arg : cstr) (base : Z) : M Z (option cstr) :=
  let* (err, ll) := local 0 (set_llong_with_suffix arg base) in
  match err with
  | Some _ => ret err
  | None =>
      do* put (s32 ll) in
      if negb (s32 ll =? ll) then arg_bad "value '%s' does not fit into an int" arg else ret None
  end.

Definition set_uint_with_suffix (arg : cstr) (base : Z) : M Z (option cstr) :=
  let* (err, ll) := local 0 (set_llong_with_suffix arg base) in
  match err with
  | Some _ => ret err
  | None =>
      if ll <? 0 then arg_bad "'%s' is negative but destination is unsigned" arg
      else
        do* put (u32 ll) in
        if negb (u32 ll =? ll) then arg_bad "value '%s' does not fit into an unsigned int" arg else ret None
  end.

Definition opt_set_ulonglongval_bi (arg : cstr) := set_ulonglong_with_suffix arg 1024.
Definition opt_set_ulonglongval_si (arg : cstr) := set_ulonglong_with_suffix arg 1000.
Definition opt_set_longlongval_bi (arg : cstr) := set_llong_with_suffix arg 1024.
Definition opt_set_longlongval_si (arg : cstr) := set_llong_with_suffix arg 1000.
Definition opt_set_longval_bi (arg : cstr) := set_long_with_suffix arg 1024.
Definition opt_set_longval_si (arg : cstr) := set_long_with_suffix arg 1000.
Definition opt_set_ulongval_bi (arg : cstr) := set_ulong_with_suffix arg 1024.
Definition opt_set_ulongval_si (arg : cstr) := set_ulong_with_suffix arg 1000.
Definition opt_set_intval_bi (arg : cstr) := set_int_with_suffix arg 1024.
Definition opt_set_intval_si (arg : cstr) := set_int_with_suffix arg 1000.
Definition opt_set_uintval_bi (arg : cstr) := set_uint_with_suffix arg 1024.
Definition opt_set_uintval_si (arg : cstr) := set_uint_with_suffix arg 1000.

(** ** Showers *)

(** [snprintf(buf, OPT_SHOW_LEN, ...)] and [strncpy(buf, s, OPT_SHOW_LEN)] *)
Definition snprintf (s : cstr) : cstr := take (OPT_SHOW_LEN - 1) s.
Definition strncpy (s : cstr) : cstr := take OPT_SHOW_LEN s.

(** [%i] *)
Definition print_int (x : Z) : cstr := if x <? 0 then "-"%char :: print 10 (- x) else print 10 x.

Definition opt_show_bool (b : bool) : cstr := strncpy (lit (if b then "true" else "false")).
Definition opt_show_invbool (b : bool) : cstr := strncpy (lit (if b then "false" else "true")).

Definition quote : ascii := "034"%char.
Definition opt_show_charp (p : option cstr) : cstr :=
  match p with
  | Some s => quote :: take (Nat.min (length s) (OPT_SHOW_LEN - 2)) s ++ [quote]
  | None => strncpy (lit "(nil)")
  end.

Definition opt_show_intval (i : Z) : cstr := snprintf (print_int i).
Definition opt_show_uintval (ui : Z) : cstr := snprintf (print 10 ui).
Definition opt_show_longval (l : Z) : cstr := snprintf (print_int l).
Definition opt_show_ulongval (ul : Z) : cstr := snprintf (print 10 ul).

Definition suffixes : cstr := lit "kMGTPE".

(** The loop: from suffix [i] on, what is left of the number and the number of
    times it was divided. *)
Fixpoint show_loop (todo i : nat) (base ll : Z) : Z * nat :=
  match todo with
  | O => (ll, i)
  | S todo' =>
      let tmp := Z.quot ll base in
      if negb (tmp * base =? ll) then (ll, i) else show_loop todo' (i + 1) base tmp
  end.

Definition show_llong_with_suffix (ll base : Z) : cstr :=
  if ll =? 0 then snprintf (lit "0")
  else
    let '(ll, i) := show_loop (length suffixes) 0 base ll in
    if (i =? 0)%nat then snprintf (print_int ll)
    else snprintf (print_int ll ++ option_list (suffixes !! (i - 1)%nat)).

Definition show_ullong_with_suffix (ull base : Z) : cstr :=
  if ull =? 0 then snprintf (lit "0")
  else
    let '(ull, i) := show_loop (length suffixes) 0 base ull in
    if (i =? 0)%nat then snprintf (print 10 ull)
    else snprintf (print 10 ull ++ option_list (suffixes !! (i - 1)%nat)).

Definition opt_show_intval_bi (x : Z) := show_llong_with_suffix x 1024.
Definition opt_show_longval_bi (x : Z) := show_llong_with_suffix x 1024.
Definition opt_show_longlongval_bi (x : Z) := show_llong_with_suffix x 1024.
Definition opt_show_uintval_bi (x : Z) := show_ullong_with_suffix x 1024.
Definition opt_show_ulongval_bi (x : Z) := show_ullong_with_suffix x 1024.
Definition opt_show_ulonglongval_bi (x : Z) := show_ullong_with_suffix x 1024.
Definition opt_show_intval_si (x : Z) := show_llong_with_suffix x 1000.
Definition opt_show_longval_si (x : Z) := show_llong_with_suffix x 1000.
Definition opt_show_longlongval_si (x : Z) := show_llong_with_suffix x 1000.
Definition opt_show_uintval_si (x : Z) := show_ullong_with_suffix x 1000.
Definition opt_show_ulongval_si (x : Z) := show_ullong_with_suffix x 1000.
Definition opt_show_ulonglongval_si (x : Z) := show_ullong_with_suffix x 1000.

(** ** Messages fit their allocations *)

(** A format with one conversion. *)
Fixpoint conversions (fmt : cstr) : nat :=
  match fmt with
  | "%"%char :: (("s"%char) :: fmt') => S (conversions fmt')
  | _ :: fmt' => conversions fmt'
  | [] => 0
  end.

Lemma sprintf_length fmt arg :
  (length (sprintf_s fmt arg) + 2 * conversions fmt = length fmt + conversions fmt * length arg)%nat.
Proof.
  remember (length fmt) as n eqn:En. revert fmt En. induction n as [n IH] using lt_wf_ind. intros fmt ->.
  destruct fmt as [|c [|d fmt]]; [done|..].
  { destruct c as [[] [] [] [] [] [] [] []]; done. }
  assert ((c = "%"%char /\ d = "s"%char) \/
    (sprintf_s (c :: d :: fmt) arg = c :: sprintf_s (d :: fmt) arg /\
     conversions (c :: d :: fmt) = conversions (d :: fmt))) as [[-> ->]|[-> ->]].
  { destruct (decide (c = "%"%char)) as [->|Hc].
    - destruct (decide (d = "s"%char)) as [->|Hd]; [by left|right].
      by destruct d as [[] [] [] [] [] [] [] []].
    - right. by destruct c as [[] [] [] [] [] [] [] []]. }
  - specialize (IH (length fmt) ltac:(simpl; lia) fmt eq_refl). cbn [sprintf_s conversions length]. rewrite length_app. lia.
  - specialize (IH (length (d :: fmt)) ltac:(simpl; lia) (d :: fmt) eq_refl). cbn [length] in *. lia.
Qed.

Lemma arg_bad_ok {S} fmt arg (v : S) :
  conversions (lit fmt) = 1%nat -> arg_bad fmt arg v = (Ret (Some (sprintf_s (lit fmt) arg)), v).
Proof.
  intros Hf. unfold arg_bad, alloc_str. pose proof (sprintf_length (lit fmt) arg) as Hl. rewrite Hf in Hl.
  by rewrite (proj2 (Nat.ltb_lt _ _)) by lia.
Qed.

Lemma invalid_argument_ok {S} arg (v : S) :
  opt_invalid_argument arg v = (Ret (Some (sprintf_s (lit "Invalid argument '%s'") arg)), v).
Proof.
  unfold opt_invalid_argument, alloc_str. pose proof (sprintf_length (lit "Invalid argument '%s'") arg) as Hl.
  change (conversions _) with 1%nat in Hl. by rewrite (proj2 (Nat.ltb_lt _ _)) by lia.
Qed.

(** Running a setter: the problem is reported, never a crash. *)
Ltac setter :=
  repeat first
    [ rewrite arg_bad_ok by reflexivity | rewrite invalid_argument_ok
    | progress unfold bind, put, ret, modify, local, get ].

(** ** What the suffix setters compute *)

Definition in_long (x : Z) : bool := (LONG_MIN <=? x) && (x <=? LONG_MAX).

Lemma suffix_mul_pos c base mul : 1 < base -> suffix_mul c base = Some mul -> 0 < mul.
Proof.
  intros Hb. assert (forall x, 0 < x -> 0 < x * base) as Hx by (intros; nia).
  destruct c as [[] [] [] [] [] [] [] []]; simpl; intros [=]; subst; repeat apply Hx; lia.
Qed.

(** The range check is exact: it refuses just the products a [long long] cannot
    hold. *)
Lemma suffix_range ll mul :
  0 < mul -> ((Z.quot LONG_MAX mul <? ll) || (ll <? Z.quot LONG_MIN mul)) = negb (in_long (ll * mul)).
Proof.
  intros Hm. unfold in_long. rewrite negb_andb, orb_comm. f_equal.
  - unfold LONG_MIN. replace (- LONG_MAX - 1) with (- (LONG_MAX + 1)) by lia.
    rewrite Z.quot_opp_l, Z.quot_div_nonneg by (unfold LONG_MAX; lia).
    rewrite <- Z.ltb_antisym. apply eq_true_iff_eq. rewrite !Z.ltb_lt.
    pose proof (Z.div_mod (LONG_MAX + 1) mul ltac:(lia)). pose proof (Z.mod_pos_bound (LONG_MAX + 1) mul Hm). nia.
  - rewrite Z.quot_div_nonneg by (unfold LONG_MAX; lia).
    rewrite <- Z.ltb_antisym. apply eq_true_iff_eq. rewrite !Z.ltb_lt.
    pose proof (Z.div_mod LONG_MAX mul ltac:(lia)). pose proof (Z.mod_pos_bound LONG_MAX mul Hm). nia.
Qed.

(** The number an argument stands for: digits in C notation, then nothing or one
    suffix letter. *)
Definition suffix_value (arg : cstr) (base : Z) : option Z :=
  let '(v, endp, range) := strtol arg in
  if bool_decide (arg = []) || range then None
  else
    match endp with
    | [] => Some v
    | [c] => (fun mul => v * mul) <$> suffix_mul c base
    | _ => None
    end.

Lemma llong_suffix arg base d :
  1 < base ->
  match suffix_value arg base with
  | Some x => if in_long x then set_llong_with_suffix arg base d = (Ret None, x)
              else exists why d', set_llong_with_suffix arg base d = (Ret (Some why), d')
  | None => exists why d', set_llong_with_suffix arg base d = (Ret (Some why), d')
  end.
Proof.
  intros Hb. unfold suffix_value, set_llong_with_suffix. destruct (bool_decide (arg = [])) eqn:Ea.
  { destruct (strtol arg) as [[v endp] range]. simpl. setter. eauto. }
  assert (in_long (strtol arg).1.1 = true) as Hv.
  { unfold strtol, in_long. destruct (strto arg) as [[[neg v] rest]|]; [|done].
    destruct (Z.ltb_spec LONG_MAX (if neg then - v else v)); [done|].
    destruct (Z.ltb_spec (if neg then - v else v) LONG_MIN); [done|]. simpl.
    apply andb_true_iff. rewrite !Z.leb_le. lia. }
  destruct (strtol arg) as [[v endp] range]. simpl in Hv |- *. destruct range; [setter; eauto|].
  destruct endp as [|c [|c' endp]]; [rewrite Hv; by setter| |simpl; setter; eauto]. simpl.
  destruct (suffix_mul c base) as [mul|] eqn:Em; simpl; [|setter; eauto].
  unfold bind, put. rewrite suffix_range by (by eapply suffix_mul_pos).
  destruct (in_long (v * mul)); simpl; setter; eauto.
Qed.

(** [set] stores the number of the argument if it is from [lo] to [hi], and
    reports a problem otherwise. *)
Definition exact (set : cstr -> M Z (option cstr)) (base lo hi : Z) : Prop := forall arg d,
  match suffix_value arg base with
  | Some x => if (lo <=? x) && (x <=? hi) then set arg d = (Ret None, x)
              else exists why d', set arg d = (Ret (Some why), d')
  | None => exists why d', set arg d = (Ret (Some why), d')
  end.

Lemma exact_llong base : 1 < base -> exact (fun arg => set_llong_with_suffix arg base) base LONG_MIN LONG_MAX.
Proof. intros Hb arg d. by apply llong_suffix. Qed.

(** The narrower setters check what the wide one computed. *)
Lemma exact_from base (set : cstr -> M Z (option cstr)) lo hi :
  1 < base -> LONG_MIN <= lo -> hi <= LONG_MAX ->
  (forall arg d why ll, set_llong_with_suffix arg base 0 = (Ret (Some why), ll) -> set arg d = (Ret (Some why), d)) ->
  (forall arg d x, set_llong_with_suffix arg base 0 = (Ret None, x) -> LONG_MIN <= x <= LONG_MAX ->
     if (lo <=? x) && (x <=? hi) then set arg d = (Ret None, x)
     else exists why d', set arg d = (Ret (Some why), d')) ->
  exact set base lo hi.
Proof.
  intros Hb Hlo Hhi Hbad Hok arg d. pose proof (llong_suffix arg base 0 Hb) as H.
  destruct (suffix_value arg base) as [x|]; [|destruct H as (why & ll & H); eauto].
  destruct (in_long x) eqn:Ex.
  - apply Hok; [done|]. unfold in_long in Ex. apply andb_true_iff in Ex as [?%Z.leb_le ?%Z.leb_le]. lia.
  - destruct H as (why & ll & H). unfold in_long in Ex.
    rewrite (proj2 (andb_false_iff _ _)); [eauto|]. apply andb_false_iff in Ex as [?%Z.leb_gt|?%Z.leb_gt];
      rewrite !Z.leb_gt; lia.
Qed.

Ltac exact_setter :=
  apply exact_from; [done|unfold LONG_MIN, LONG_MAX, INT_MIN, INT_MAX; lia..| |];
  [intros arg d why ll H; setter; by rewrite H|];
  intros arg d x H Hx; unfold LONG_MIN, LONG_MAX, INT_MIN, INT_MAX in *; setter; rewrite H; setter;
  destruct (Z.leb_spec 0 x), (Z.ltb_spec x 0); try lia; simpl; setter.

Definition setters_exact (base : Z) : Prop :=
  exact (fun arg => set_llong_with_suffix arg base) base LONG_MIN LONG_MAX /\
  exact (fun arg => set_long_with_suffix arg base) base LONG_MIN LONG_MAX /\
  exact (fun arg => set_ulonglong_with_suffix arg base) base 0 LONG_MAX /\
  exact (fun arg => set_ulong_with_suffix arg base) base 0 LONG_MAX /\
  exact (fun arg => set_int_with_suffix arg base) base INT_MIN INT_MAX /\
  exact (fun arg => set_uint_with_suffix arg base) base 0 0xffffffff.

Lemma base_exact base : 1 < base -> setters_exact base.
Proof.
  intros Hb. split; [by apply exact_llong|]. split_and!.
  - apply exact_from; [done|done|done|intros arg d why ll H; unfold set_long_with_suffix; setter; by rewrite H|].
    intros arg d x H Hx. unfold set_long_with_suffix. setter. rewrite H.
    rewrite (proj2 (andb_true_iff _ _)) by (rewrite !Z.leb_le; lia). by setter.
  - unfold set_ulonglong_with_suffix. exact_setter; rewrite ?u64_small by lia; destruct (Z.leb_spec x 0x7fffffffffffffff); try lia; eauto.
  - unfold set_ulong_with_suffix. exact_setter; rewrite ?u64_small by lia; destruct (Z.leb_spec x 0x7fffffffffffffff); try lia; eauto.
  - apply exact_from; [done|unfold LONG_MIN, LONG_MAX, INT_MIN, INT_MAX; lia..| |].
    + intros arg d why ll H. unfold set_int_with_suffix. setter. by rewrite H.
    + intros arg d x H Hx. unfold set_int_with_suffix. setter. rewrite H. setter.
      destruct (_ && _) eqn:E.
      * apply andb_true_iff in E as [?%Z.leb_le ?%Z.leb_le]. unfold INT_MIN, INT_MAX in *.
        rewrite s32_small, Z.eqb_refl by lia. done.
      * destruct (Z.eqb_spec (s32 x) x) as [Es|]; simpl; [exfalso|setter; eauto].
        apply andb_false_iff in E as [?%Z.leb_gt|?%Z.leb_gt]; unfold INT_MIN, INT_MAX in *; word_lia.
  - unfold set_uint_with_suffix. exact_setter; [|eauto].
    destruct (Z.leb_spec x 0xffffffff).
    + by rewrite u32_small, Z.eqb_refl by lia.
    + destruct (Z.eqb_spec (u32 x) x) as [Es|]; simpl; [pose proof (u32_range x); lia|setter; eauto].
Qed.

(** ** Showing a value and setting it *)

Lemma show_loop_spec todo i base ll ll' i' :
  1 < base -> show_loop todo i base ll = (ll', i') ->
  (i <= i' <= i + todo)%nat /\ ll = ll' * base ^ Z.of_nat (i' - i) /\ Z.abs ll' <= Z.abs ll.
Proof.
  intros Hb. revert i ll. induction todo as [|todo IH]; intros i ll; simpl.
  { intros [= <- <-]. rewrite Nat.sub_diag. simpl. lia. }
  destruct (Z.eqb_spec (Z.quot ll base * base) ll) as [E|E]; simpl.
  - intros (Hi & Hq & Ha)%IH. split; [lia|]. split.
    + rewrite <- E, Hq. replace (i' - i)%nat with (S (i' - (i + 1))) by lia.
      rewrite Nat2Z.inj_succ, Z.pow_succ_r by lia. lia.
    + etransitivity; [exact Ha|]. rewrite <- E at 2. rewrite Z.abs_mul. nia.
  - intros [= <- <-]. rewrite Nat.sub_diag. simpl. lia.
Qed.

Lemma snprintf_fits x c : - 2 ^ 64 < x < 2 ^ 64 -> (length c <= 1)%nat -> snprintf (print_int x ++ c) = print_int x ++ c.
Proof.
  intros Hx Hc. unfold snprintf. apply take_ge. rewrite length_app. unfold print_int, OPT_SHOW_LEN.
  destruct (Z.ltb_spec x 0); cbn [length].
  - pose proof (print_length 10 (- x) 64 ltac:(lia) ltac:(lia)). lia.
  - pose proof (print_length 10 x 64 ltac:(lia) ltac:(lia)). lia.
Qed.

(** A decimal number is read back, up to what follows it. *)
Lemma strtol_print_int x rest :
  x <> 0 -> LONG_MIN <= x <= LONG_MAX -> starts_digit 10 rest = false ->
  strtol (print_int x ++ rest) = (x, rest, false).
Proof.
  intros H0 Hx Hr. unfold strtol, print_int. destruct (Z.ltb_spec x 0).
  - destruct (strto_print (- x) rest ltac:(lia) Hr) as [_ E]. cbn [app]. rewrite E.
    rewrite Z.opp_involutive, (proj2 (Z.ltb_ge _ _)), (proj2 (Z.ltb_ge _ _)) by lia. done.
  - destruct (strto_print x rest ltac:(lia) Hr) as [E _]. rewrite E.
    rewrite (proj2 (Z.ltb_ge _ _)), (proj2 (Z.ltb_ge _ _)) by lia. done.
Qed.

Lemma print_int_nonempty x rest : print_int x ++ rest <> [].
Proof.
  unfold print_int. destruct (Z.ltb_spec x 0); [done|].
  destruct (print_head 10 x ltac:(lia) ltac:(lia)) as (c & tl & -> & _). done.
Qed.

(** The suffix letter shown is read as the power it stands for. *)
Lemma suffix_letter i base c :
  suffixes !! i = Some c -> suffix_mul c base = Some (base ^ Z.of_nat (S i)) /\ starts_digit 10 [c] = false.
Proof.
  intros Hc. do 6 (destruct i as [|i]; [injection Hc as <-; split; [cbn [suffix_mul]; f_equal; lia|done]|]).
  by apply lookup_lt_Some in Hc; simpl in Hc; lia.
Qed.

(** What is shown stands for the number. *)
Lemma shown_value base x :
  1 < base -> LONG_MIN <= x <= LONG_MAX -> suffix_value (show_llong_with_suffix x base) base = Some x.
Proof.
  intros Hb Hx. unfold show_llong_with_suffix. destruct (Z.eqb_spec x 0) as [->|H0]; [done|].
  destruct (show_loop (length suffixes) 0 base x) as [y i] eqn:E.
  apply show_loop_spec in E as (Hi & Ex & Ha); [|done]. rewrite Nat.sub_0_r in Ex.
  assert (y <> 0) as Hy by (intros ->; lia). assert (LONG_MIN <= y <= LONG_MAX) as Hr.
  { assert (0 < base ^ Z.of_nat i) by (apply Z.pow_pos_nonneg; lia).
    unfold LONG_MIN in *. destruct (decide (0 <= y)); nia. }
  assert (- 2 ^ 64 < y < 2 ^ 64) as Hw by (unfold LONG_MIN, LONG_MAX in Hr; lia).
  destruct i as [|i]; cbn [Nat.eqb].
  - rewrite <- (app_nil_r (print_int y)), snprintf_fits by (simpl; lia). unfold suffix_value.
    rewrite strtol_print_int by done. rewrite bool_decide_false by apply print_int_nonempty. simpl. f_equal. lia.
  - replace (S i - 1)%nat with i by lia. destruct (suffixes !! i) as [c|] eqn:Ec; [|apply lookup_ge_None in Ec; lia].
    destruct (suffix_letter i base c Ec) as [Em Hd]. cbn [option_list]. rewrite snprintf_fits by (simpl; lia).
    unfold suffix_value. rewrite strtol_print_int by done. rewrite bool_decide_false by apply print_int_nonempty.
    simpl. by rewrite Em, Ex.
Qed.

(** Of a number that is not negative the two showers show the same. *)
Lemma show_unsigned base x : 1 < base -> 0 <= x -> show_ullong_with_suffix x base = show_llong_with_suffix x base.
Proof.
  intros Hb Hx. unfold show_ullong_with_suffix, show_llong_with_suffix. destruct (x =? 0); [done|].
  destruct (show_loop (length suffixes) 0 base x) as [y i] eqn:E.
  apply show_loop_spec in E as (Hi & Ex & Ha); [|done].
  assert (0 <= y) as Hy by (assert (0 < base ^ Z.of_nat (i - 0)) by (apply Z.pow_pos_nonneg; lia); nia).
  unfold print_int. by rewrite (proj2 (Z.ltb_ge _ _)) by lia.
Qed.

Definition reads_back (set : cstr -> M Z (option cstr)) (show : Z -> cstr) (lo hi : Z) : Prop :=
  forall x d, lo <= x <= hi -> set (show x) d = (Ret None, x).

Lemma exact_reads_back set show base lo hi :
  1 < base -> exact set base lo hi -> LONG_MIN <= lo -> hi <= LONG_MAX ->
  (forall x, lo <= x -> show x = show_llong_with_suffix x base) -> reads_back set show lo hi.
Proof.
  intros Hb He Hlo Hhi Hs x d Hx. rewrite Hs by lia. specialize (He (show_llong_with_suffix x base) d).
  rewrite shown_value in He by lia. by rewrite (proj2 (andb_true_iff _ _)) in He by (rewrite !Z.leb_le; lia).
Qed.

(** Plain numbers. *)
Lemma longval_shown x d : LONG_MIN <= x <= LONG_MAX -> opt_set_longval (opt_show_longval x) d = (Ret None, x).
Proof.
  intros Hx. unfold opt_show_longval. destruct (decide (x = 0)) as [->|H0]; [reflexivity|].
  rewrite <- (app_nil_r (print_int x)), snprintf_fits by (unfold LONG_MIN, LONG_MAX in Hx; simpl; lia).
  unfold opt_set_longval. rewrite strtol_print_int by done.
  rewrite (bool_decide_false (print_int x ++ [] = [])) by apply print_int_nonempty. by setter.
Qed.

Lemma print_unsigned x : 0 <= x -> print 10 x = print_int x.
Proof. intros Hx. unfold print_int. by rewrite (proj2 (Z.ltb_ge _ _)) by lia. Qed.

(** An [unsigned int] without suffix is read as an [int] first. *)
Lemma large_uintval_refused x d :
  INT_MAX < x <= 0xffffffff -> exists why, opt_set_uintval (opt_show_uintval x) d = (Ret (Some why), d).
Proof.
  intros Hx. unfold opt_show_uintval. rewrite print_unsigned by (unfold INT_MAX in *; lia).
  change (snprintf (print_int x)) with (opt_show_longval x).
  unfold opt_set_uintval, opt_set_intval. setter. rewrite longval_shown by (unfold LONG_MIN, LONG_MAX, INT_MAX in *; lia).
  rewrite (proj2 (Z.eqb_neq (s32 x) x)); [cbn [negb]; rewrite arg_bad_ok by reflexivity; eexists; reflexivity|]. unfold s32, INT_MAX in *. Z.div_mod_to_equations. lia.
Qed.

(** ** Properties *)

(** Integer options with a multiplier: for each destination type, an argument
    is accepted just if it is a number in C notation, alone or with one suffix
    letter, whose product with the power of 1000 or 1024 is in the range; the
    variable then holds that product.  No other argument is accepted, no
    multiplication overflows, and the text of the problem fits its allocation. *)
Theorem suffix_setters_exact : setters_exact 1000 /\ setters_exact 1024.
Proof. split; by apply base_exact. Qed.

(** C37. Values of options are read back as they are shown: the setter given what
    the shower of the same type and base printed stores the number shown, and the
    buffer is never too short.  This holds of every value of the signed types,
    and of [unsigned int] with a suffix; of the values of [unsigned long] and
    [unsigned long long], up to the largest [long]; of those of [unsigned int]
    without suffix, up to the largest [int], and the larger ones are refused. *)
Theorem shown_values_read_back :
  reads_back opt_set_intval opt_show_intval INT_MIN INT_MAX /\
  reads_back opt_set_uintval opt_show_uintval 0 INT_MAX /\
  reads_back opt_set_longval opt_show_longval LONG_MIN LONG_MAX /\
  reads_back opt_set_ulongval opt_show_ulongval 0 LONG_MAX /\
  reads_back opt_set_intval_bi opt_show_intval_bi INT_MIN INT_MAX /\
  reads_back opt_set_intval_si opt_show_intval_si INT_MIN INT_MAX /\
  reads_back opt_set_uintval_bi opt_show_uintval_bi 0 0xffffffff /\
  reads_back opt_set_uintval_si opt_show_uintval_si 0 0xffffffff /\
  reads_back opt_set_longval_bi opt_show_longval_bi LONG_MIN LONG_MAX /\
  reads_back opt_set_longval_si opt_show_longval_si LONG_MIN LONG_MAX /\
  reads_back opt_set_ulongval_bi opt_show_ulongval_bi 0 LONG_MAX /\
  reads_back opt_set_ulongval_si opt_show_ulongval_si 0 LONG_MAX /\
  reads_back opt_set_longlongval_bi opt_show_longlongval_bi LONG_MIN LONG_MAX /\
  reads_back opt_set_longlongval_si opt_show_longlongval_si LONG_MIN LONG_MAX /\
  reads_back opt_set_ulonglongval_bi opt_show_ulonglongval_bi 0 LONG_MAX /\
  reads_back opt_set_ulonglongval_si opt_show_ulonglongval_si 0 LONG_MAX /\
  (forall x d, INT_MAX < x <= 0xffffffff -> exists why, opt_set_uintval (opt_show_uintval x) d = (Ret (Some why), d)).
Proof.
  destruct (base_exact 1000 ltac:(lia)) as (S1 & S2 & S3 & S4 & S5 & S6).
  destruct (base_exact 1024 ltac:(lia)) as (B1 & B2 & B3 & B4 & B5 & B6).
  assert (forall x, 0 <= x -> opt_show_ulongval x = opt_show_longval x) as Hu
    by (intros; unfold opt_show_ulongval; by rewrite print_unsigned).
  assert (forall x d, INT_MIN <= x <= INT_MAX -> opt_set_intval (opt_show_longval x) d = (Ret None, x)) as Hint.
  { intros x d Hx. unfold opt_set_intval. setter.
    rewrite longval_shown, s32_small, Z.eqb_refl by (unfold LONG_MIN, LONG_MAX, INT_MIN, INT_MAX in *; lia). done. }
  split; [exact Hint|]. split; [|split; [intros x d; apply longval_shown|split]].
  - intros x d Hx. change (opt_show_uintval x) with (opt_show_ulongval x). rewrite Hu by lia.
    unfold opt_set_uintval. setter. rewrite Hint by (unfold INT_MIN, INT_MAX in *; lia).
    by rewrite (proj2 (Z.ltb_ge _ _)) by lia.
  - intros x d Hx. rewrite Hu by lia. unfold opt_set_ulongval. setter.
    rewrite longval_shown by (unfold LONG_MIN, LONG_MAX in *; lia).
    rewrite u64_small, (proj2 (Z.ltb_ge _ _)) by (unfold LONG_MAX in *; lia). done.
  - split_and!; (eapply exact_reads_back;
      [|first [exact S1|exact S2|exact S3|exact S4|exact S5|exact S6|exact B1|exact B2|exact B3|exact B4|exact B5|exact B6]|..];
      [lia|unfold LONG_MIN, LONG_MAX, INT_MIN, INT_MAX; lia..|]; intros x Hx; first [reflexivity|by apply show_unsigned])
    || (intros x d Hx; by apply large_uintval_refused).
Qed.

(** ** Where the setters depart from their description *)

(** A suffix with no number before it is read as zero. *)
Lemma bare_suffix_accepted : opt_set_intval_bi (lit "k") 7 = (Ret None, 0).
Proof. reflexivity. Qed.

(** An unsigned value of more than [LONG_MAX] is shown, but not read back. *)
Lemma large_unsigned_refused :
  exists why d, opt_set_ulongval_bi (opt_show_ulongval_bi (2 ^ 63)) 0 = (Ret (Some why), d).
Proof. do 2 eexists. vm_compute. reflexivity. Qed.

(** A refused argument has changed the variable. *)
Lemma refused_value_stored : exists why, opt_set_ulongval (lit "-1") 7 = (Ret (Some why), UINT64_MAX).
Proof. eexists. vm_compute. reflexivity. Qed.
