(* ===== verification/OptFloat.v ===== *)
(** * OptFloat: floating point values of command line options,
      ccan/opt/helpers.c

    The setters and showers of [OptHelpers] for [double] and [float], over the
    conversions of [CFloat].  A [float] is a number of 24 bits. *)

From Stdlib Require Import SpecFloat.
From S2P Require Import Prelude CStr CFloat CcanTime OptHelpers.
Local Open Scope Z_scope.
Local Open Scope vfn_scope.

(** The conversions between the two types. *)
Definition float_of_double (d : spec_float) : spec_float :=
  match d with S754_finite s m e => binary_round 24 128 s m e | _ => d end.
Definition double_of_float (f : spec_float) : spec_float :=
  match f with S754_finite s m e => binary_round 53 1024 s m e | _ => f end.

Definition FLT_MAX : spec_float := double (0xffffff * 2 ^ 104).
Definition is_zero (x : spec_float) : bool := SFeqb x (S754_zero false).

Section Text.
Context {text : FloatText}.

Definition opt_set_doubleval (arg : cstr) : M spec_float (option cstr) :=
  let '(d, endp, range) := strtod arg in
  do* put d in
  if negb (bool_decide (endp = [])) || bool_decide (arg = []) then arg_bad "'%s' is not a number" arg
  else if range : bool then arg_bad "'%s' is out of range" arg
  else ret None.

(** The variable is written before the range is checked. *)
Definition opt_set_floatval (arg : cstr) : M spec_float (option cstr) :=
  let* (err, d) := local S754_nan (opt_set_doubleval arg) in
  match err with
  | Some _ => ret err
  | None =>
      let f := float_of_double d in
      do* put f in
      let inf := S754_infinity false in
      if (SFltb FLT_MAX d || SFltb d (SFopp FLT_MAX)) && negb (SFeqb d inf) && negb (SFeqb d (SFopp inf)) then
        arg_bad "'%s' is out of range for a 32 bit float" arg
      else if negb (is_zero d) && is_zero f then arg_bad "'%s' is out of range (truncated to zero)" arg
      else ret None
  end.

Definition opt_show_doubleval (d : spec_float) : cstr := snprintf (printf_f d).
Definition opt_show_floatval (f : spec_float) : cstr := opt_show_doubleval (double_of_float f).

(** ** Integers are shown and read back *)

Lemma double_integer x :
  0 < Z.abs x < 2 ^ 53 -> double x = int_float (x <? 0) (Z.abs x).
Proof. intros Hx. unfold double, binary_normalize. destruct x; [lia|apply round_integer; lia..]. Qed.

(** An integer below [2 ^ 53] is shown exactly, and the text sets the variable
    to it again. *)
Lemma doubleval_shown x d :
  - 2 ^ 53 < x < 2 ^ 53 -> opt_set_doubleval (opt_show_doubleval (double x)) d = (Ret None, double x).
Proof.
  intros Hx. destruct (decide (x = 0)) as [->|H0]; [reflexivity|]. rewrite double_integer by lia.
  unfold opt_show_doubleval. rewrite printf_integer by lia.
  set (s := (if x <? 0 then ["-"%char] else []) ++ print 10 (Z.abs x) ++ zeros).
  assert (snprintf s = s) as ->.
  { apply take_ge. unfold s, OPT_SHOW_LEN. rewrite !length_app.
    pose proof (print_length 10 (Z.abs x) 53 ltac:(lia) ltac:(lia)). destruct (x <? 0); simpl; lia. }
  unfold opt_set_doubleval. unfold s at 1. rewrite strtod_integer by lia.
  rewrite (bool_decide_false (s = [])); [done|].
  unfold s. intros [_ [_ E]%app_eq_nil]%app_eq_nil. done.
Qed.

(** The setter accepts exactly the texts that are one number in range. *)
Lemma doubleval_accepts arg d :
  fst (opt_set_doubleval arg d) = Ret None <->
  exists x, strtod arg = (x, [], false) /\ arg <> [] /\ opt_set_doubleval arg d = (Ret None, x).
Proof.
  split; [|by intros (x & _ & _ & ->)]. unfold opt_set_doubleval. destruct (strtod arg) as [[x endp] range] eqn:E.
  unfold bind, put. case_bool_decide as He; simpl; [subst endp|by unfold arg_bad; destruct (alloc_str _ _)].
  case_bool_decide as Ha; simpl; [by unfold arg_bad; destruct (alloc_str _ _)|].
  destruct range; [by unfold arg_bad; destruct (alloc_str _ _)|]. intros _. by exists x.
Qed.
End Text.

(** ** Concrete inputs and departures *)

#[local] Instance glibc_text : FloatText := {| erange_underflow _ _ := true; nan_text := lit "nan" |}.

Lemma strtod_examples :
  strtod (lit " 0.1 ") = (S754_finite false 7205759403792794 (-56), lit " ", false) /\
  strtod (lit "-0x1.8p1") = (S754_finite true 6755399441055744 (-51), [], false) /\
  strtod (lit "1e400") = (S754_infinity false, [], true) /\
  strtod (lit "-1e-400") = (S754_zero true, [], true) /\
  strtod (lit "infinite") = (S754_infinity false, lit "inite", false) /\
  strtod (lit "nan(x_1)") = (S754_nan, [], false) /\
  strtod (lit "nan(x") = (S754_nan, lit "(x", false) /\
  strtod (lit "0x") = (S754_zero false, lit "x", false) /\
  strtod (lit "2e") = (S754_finite false 4503599627370496 (-51), lit "e", false).
Proof. vm_compute. done. Qed.

Lemma floatval_examples :
  let r s := opt_set_floatval (lit s) S754_nan in
  r "1.5"%string = (Ret None, S754_finite false 12582912 (-23)) /\
  r "INF"%string = (Ret None, S754_infinity false) /\
  fst (r "1e39"%string) = Ret (Some (lit "'1e39' is out of range for a 32 bit float")) /\
  fst (r "1e-60"%string) = Ret (Some (lit "'1e-60' is out of range (truncated to zero)")) /\
  fst (r "1.5x"%string) = Ret (Some (lit "'1.5x' is not a number")).
Proof. vm_compute. done. Qed.

(** A refused number has been stored: the variable is infinite. *)
Lemma refused_float_stored :
  snd (opt_set_floatval (lit "1e39") (S754_zero false)) = S754_infinity false.
Proof. vm_compute. done. Qed.

(** What is shown of a number with more than 79 characters, or below a
    millionth, is another number. *)
Lemma shown_double_differs :
  let again s := snd (opt_set_doubleval (opt_show_doubleval (snd (opt_set_doubleval (lit s) S754_nan))) S754_nan) in
  again "1e100"%string <> snd (opt_set_doubleval (lit "1e100") S754_nan) /\
  again "1e-7"%string = S754_zero false.
Proof. vm_compute. done. Qed.
