(* ===== verification/Opt.v ===== *)
(** * Opt: registering and parsing command line options, ccan/opt/{opt,parse}.c

    A table of options is registered, then the arguments of the program are
    parsed: options are consumed, their callbacks called, and what is left are the
    operands.  A pointer into the names of an option is the position there;
    reading past the terminator of a string is undefined and ends the
    computation.  The strings of the arguments do not overlap, so that a pointer
    to an argument is equal to an element of [argv] just if it was read there.

    [parse_spec] parses the arguments from left to right by recursion, with the
    options as a list of names; [opt_parse], which starts over from the first
    argument for every option and looks names up in the text of the table, is
    proved equal to it. *)

From Stdlib Require String.
From S2P Require Import Prelude CStr OptHelpers.
Local Open Scope Z_scope.
Local Open Scope vfn_scope.

(** ** The process and its variables *)

(** What the callbacks can reach: the standard streams, the exit status once the
    process has ended, and the variables options are stored to. *)
Record process (V : Type) : Type := mk_process {
  p_stdout : cstr;
  p_stderr : cstr;
  p_status : option Z;
  p_vars : V
}.
Arguments mk_process {V}.
Arguments p_stdout {V}.
Arguments p_stderr {V}.
Arguments p_status {V}.
Arguments p_vars {V}.

Section Process.
Context {V : Type}.

Definition print_out (s : cstr) : M (process V) unit :=
  modify (fun p => mk_process (p_stdout p ++ s) (p_stderr p) (p_status p) (p_vars p)).
Definition print_err (s : cstr) : M (process V) unit :=
  modify (fun p => mk_process (p_stdout p) (p_stderr p ++ s) (p_status p) (p_vars p)).
(** [exit(status)] *)
Definition exit {A} (status : Z) : M (process V) A :=
  do* modify (fun p => mk_process (p_stdout p) (p_stderr p) (Some status) (p_vars p)) in crash.

(** A callback on one of the variables. *)
Definition on_var {X A} (get_x : V -> X) (set_x : X -> V -> V) (m : M X A) : M (process V) A := fun p =>
  match m (get_x (p_vars p)) with
  | (r, x) => (r, mk_process (p_stdout p) (p_stderr p) (p_status p) (set_x x (p_vars p)))
  end.
End Process.

Definition newline : ascii := "010"%char.

(** ** Options *)

Definition OPT_NOARG : Z := 1.
Definition OPT_HASARG : Z := 2.
Definition OPT_SUBTABLE : Z := 4.
Definition OPT_EARLY : Z := 8.
Definition OPT_END : Z := 16.

(** A description; [opt_hidden] is recognised by its address. *)
Inductive description : Type :=
| desc_null
| opt_hidden
| desc_text (s : cstr).
#[export] Instance description_eq_dec : EqDecision description.
Proof. solve_decision. Defined.

(** struct opt_table.  [u.arg] is part of the callbacks; [opt_extra] is [u.carg] of
    an entry whose callback is [opt_usage_and_exit], [opt_tlen] is [u.tlen] of a
    heading. *)
Record opt_entry (V : Type) : Type := mk_opt {
  opt_names : cstr;
  opt_type : Z;
  opt_cb : M (process V) (option cstr);
  opt_cb_arg : cstr -> M (process V) (option cstr);
  opt_show : option (V -> cstr);
  opt_extra : option cstr;
  opt_tlen : nat;
  opt_desc : description
}.
Arguments mk_opt {V}.
Arguments opt_names {V}.
Arguments opt_type {V}.
Arguments opt_cb {V}.
Arguments opt_cb_arg {V}.
Arguments opt_show {V}.
Arguments opt_extra {V}.
Arguments opt_tlen {V}.
Arguments opt_desc {V}.

(** A table as a client writes it: options and headings with a table of their own,
    up to [OPT_ENDTABLE]. *)
Inductive client_table (V : Type) : Type :=
| OPT_ENDTABLE
| table_opt (e : opt_entry V) (rest : client_table V)
| table_sub (sub : client_table V) (desc : description) (rest : client_table V).
Arguments OPT_ENDTABLE {V}.
Arguments table_opt {V}.
Arguments table_sub {V}.

(** The variables of the library, and the process. *)
Record opt_lib (V : Type) : Type := mk_lib {
  opt_table : list (opt_entry V);
  opt_num_short : Z;
  opt_num_short_arg : Z;
  opt_num_long : Z;
  opt_argv0 : option cstr;
  l_proc : process V
}.
Arguments mk_lib {V}.
Arguments opt_table {V}.
Arguments opt_num_short {V}.
Arguments opt_num_short_arg {V}.
Arguments opt_num_long {V}.
Arguments opt_argv0 {V}.
Arguments l_proc {V}.

(** ** Names *)

Definition is_sep (c : ascii) : bool := bool_decide (c ∈ ["|"; "="; " "]%char).

(** [strcspn(s, "|= ")] *)
Fixpoint span_name (s : cstr) : nat :=
  match s with
  | c :: s' => if is_sep c then 0 else S (span_name s')
  | [] => 0
  end.

(** [s[n]] *)
Definition read_char (s : cstr) (n : nat) : outcome ascii :=
  if (n <=? length s)%nat then Ret (char_at (drop n s)) else Crash.

(** The position of a name in [s] and its length; [pos] is the position of the
    dash before it. *)
Definition first_name (s : cstr) (pos : nat) : outcome (nat * nat) :=
  if (pos + 1 <=? length s)%nat then Ret ((pos + 1)%nat, span_name (drop (pos + 1) s)) else Crash.

Definition next_name (s : cstr) (p len : nat) : outcome (option (nat * nat)) :=
  match read_char s (p + len) with
  | Ret c =>
      if bool_decide (c = " "%char) || bool_decide (c = "="%char) || bool_decide (c = NUL) then Ret None
      else match first_name s (p + len + 1) with Ret r => Ret (Some r) | _ => Crash end
  | _ => Crash
  end.

Section Iterate.
Context {V : Type}.
Implicit Types t : list (opt_entry V).

(** A name of the table: the entry, and the position and length of the name. *)
Definition cursor : Type := nat * nat * nat.

Definition is_subtable (e : opt_entry V) : bool := opt_type e =? OPT_SUBTABLE.

(** The loops over the entries from [i] on; [t] are those entries. *)
Fixpoint first_from t (i : nat) : outcome (option cursor) :=
  match t with
  | [] => Ret None
  | e :: t' =>
      if is_subtable e then first_from t' (i + 1)
      else match first_name (opt_names e) 0 with Ret (p, len) => Ret (Some (i, p, len)) | _ => Crash end
  end.
Definition first_opt t : outcome (option cursor) := first_from t 0.

Fixpoint next_from t (i : nat) (p : option nat) (len : nat) : outcome (option cursor) :=
  match t with
  | [] => Ret None
  | e :: t' =>
      if is_subtable e then next_from t' (i + 1) p len
      else
        match p with
        | None => match first_name (opt_names e) 0 with Ret (p, len) => Ret (Some (i, p, len)) | _ => Crash end
        | Some p =>
            match next_name (opt_names e) p len with
            | Ret (Some (p, len)) => Ret (Some (i, p, len))
            | Ret None => next_from t' (i + 1) None len
            | _ => Crash
            end
        end
  end.
Definition next_opt t (c : cursor) : outcome (option cursor) :=
  let '(i, p, len) := c in next_from (drop i t) i (Some p) len.

(** [p[0] == '-'] *)
Definition is_long t (c : cursor) : outcome bool :=
  let '(i, p, len) := c in
  match t !! i with
  | Some e => match read_char (opt_names e) p with Ret a => Ret (bool_decide (a = "-"%char)) | _ => Crash end
  | None => Crash
  end.

(** [for (p = c; p; p = next_opt(...)) if (...) break;]: the first name from [c] on
    that is long, or short. *)
Fixpoint seek (fuel : nat) t (long : bool) (c : option cursor) : outcome (option cursor) :=
  match c with
  | None => Ret None
  | Some c =>
      match is_long t c with
      | Ret b =>
          if Bool.eqb b long then Ret (Some c)
          else
            match fuel with
            | O => Crash
            | S fuel' => match next_opt t c with Ret c' => seek fuel' t long c' | _ => Crash end
            end
      | _ => Crash
      end
  end.

(** More steps than there are names. *)
Definition names_fuel t : nat := foldr (fun e n => (length (opt_names e) + n)%nat) 0%nat t.

(** The pointers of the long names skip the dash. *)
Definition skip_dash (r : outcome (option cursor)) : outcome (option cursor) :=
  match r with
  | Ret (Some (i, p, len)) => Ret (Some (i, (p + 1)%nat, (len - 1)%nat))
  | r => r
  end.

Definition first_lopt t : outcome (option cursor) :=
  match first_opt t with Ret c => skip_dash (seek (names_fuel t) t true c) | _ => Crash end.
Definition next_lopt t (c : cursor) : outcome (option cursor) :=
  match next_opt t c with Ret c => skip_dash (seek (names_fuel t) t true c) | _ => Crash end.
Definition first_sopt t : outcome (option cursor) :=
  match first_opt t with Ret c => seek (names_fuel t) t false c | _ => Crash end.
(** [len] starts as 1. *)
Definition next_sopt t (c : cursor) : outcome (option cursor) :=
  let '(i, p, _) := c in
  match next_opt t (i, p, 1%nat) with Ret c => seek (names_fuel t) t false c | _ => Crash end.
End Iterate.

(** ** Registration *)

Section Register.
Context {V : Type}.

Definition on_proc {A} (m : M (process V) A) : M (opt_lib V) A := fun l =>
  match m (l_proc l) with
  | (r, p) => (r, mk_lib (opt_table l) (opt_num_short l) (opt_num_short_arg l) (opt_num_long l) (opt_argv0 l) p)
  end.

(** [failmsg]: the text on the standard error stream, then [exit(1)]. *)
Definition failmsg {A} (msg : cstr) : M (opt_lib V) A := on_proc (do* print_err msg in exit 1).

Definition with_table (t : list (opt_entry V)) (l : opt_lib V) : opt_lib V :=
  mk_lib t (opt_num_short l) (opt_num_short_arg l) (opt_num_long l) (opt_argv0 l) (l_proc l).
Definition count_long (l : opt_lib V) : opt_lib V :=
  mk_lib (opt_table l) (opt_num_short l) (opt_num_short_arg l) (opt_num_long l + 1) (opt_argv0 l) (l_proc l).
Definition count_short (arg : bool) (l : opt_lib V) : opt_lib V :=
  mk_lib (opt_table l) (opt_num_short l + 1) (opt_num_short_arg l + c_bool arg) (opt_num_long l) (opt_argv0 l)
    (l_proc l).

(** A value of the C library, or the end of the computation. *)
Definition lift {S A} (r : outcome A) : M S A := fun s => (r, s).

(** The loop over the names of an entry; [c] is the name at hand. *)
Fixpoint check_names (fuel : nat) (e : opt_entry V) (c : option (nat * nat)) : M (opt_lib V) unit :=
  match c with
  | None => ret tt
  | Some (p, len) =>
      let names := opt_names e in
      let option_ := lit "Option " ++ names in
      let* a := lift (read_char names p) in
      do* (if bool_decide (a = "-"%char) then
             if (len =? 1)%nat then failmsg (option_ ++ lit ": invalid long option '--'")
             else modify count_long
           else if negb (len =? 1)%nat then
             failmsg (option_ ++ lit ": invalid short option '" ++ take (len + 1) (drop (p - 1) names) ++ lit "'")
           else modify (count_short (opt_type e =? OPT_HASARG))) in
      do* (if opt_type e =? OPT_NOARG then
             let* b := lift (read_char names (p + len)) in
             if bool_decide (b = " "%char) || bool_decide (b = "="%char)
             then failmsg (option_ ++ lit ": does not take arguments '" ++ drop (p + len + 1) names ++ lit "'")
             else ret tt
           else ret tt) in
      match fuel with
      | O => crash
      | S fuel' => let* c' := lift (next_name names p len) in check_names fuel' e c'
      end
  end.

Definition check_opt (e : opt_entry V) : M (opt_lib V) unit :=
  let option_ := lit "Option " ++ opt_names e in
  let type := opt_type e in
  if negb (type =? OPT_HASARG) && negb (type =? OPT_NOARG) && negb (type =? Z.lor OPT_EARLY OPT_HASARG) &&
     negb (type =? Z.lor OPT_EARLY OPT_NOARG)
  then failmsg (option_ ++ lit ": unknown entry type " ++ print 10 type)
  else if bool_decide (opt_desc e = desc_null) then failmsg (option_ ++ lit ": description cannot be NULL")
  else if negb (bool_decide (char_at (opt_names e) = "-"%char))
  then failmsg (option_ ++ lit ": does not begin with '-'")
  else
    let* c := lift (first_name (opt_names e) 0) in
    check_names (length (opt_names e)) e (Some c).

Definition add_opt (e : opt_entry V) : M (opt_lib V) unit := modify (fun l => with_table (opt_table l ++ [e]) l).

Definition _opt_register (e : opt_entry V) : M (opt_lib V) unit := do* check_opt e in add_opt e.

(** The index of the last entry with these names. *)
Fixpoint find_names (names : cstr) (t : list (opt_entry V)) (i : nat) (found : option nat) : option nat :=
  match t with
  | [] => found
  | e :: t' =>
      find_names names t' (i + 1)
        (if negb (is_subtable e) && bool_decide (opt_names e = names) then Some i else found)
  end.

Definition opt_unregister (names : cstr) : M (opt_lib V) bool :=
  let* l := get in
  match find_names names (opt_table l) 0 None with
  | None => ret false
  | Some found => do* put (with_table (delete found (opt_table l)) l) in ret true
  end.

Definition heading (desc : description) : opt_entry V :=
  mk_opt [] OPT_SUBTABLE (ret None) (fun _ => ret None) None None 0 desc.
Definition set_tlen (n : nat) (e : opt_entry V) : opt_entry V :=
  mk_opt (opt_names e) (opt_type e) (opt_cb e) (opt_cb_arg e) (opt_show e) (opt_extra e) n (opt_desc e).

(** The part of [opt_register_table] around the loop over the entries. *)
Definition with_heading (desc : description) (loop : M (opt_lib V) unit) : M (opt_lib V) unit :=
  let* l := get in
  let start := length (opt_table l) in
  match desc with
  | desc_null => loop
  | _ =>
      do* add_opt (heading desc) in
      do* loop in
      modify (fun l => with_table (alter (set_tlen (length (opt_table l) - start)) start (opt_table l)) l)
  end.

Fixpoint register_entries (es : client_table V) : M (opt_lib V) unit :=
  match es with
  | OPT_ENDTABLE => ret tt
  | table_opt e es' => do* check_opt e in do* add_opt e in register_entries es'
  | table_sub sub desc es' => do* with_heading desc (register_entries sub) in register_entries es'
  end.

Definition opt_register_table (es : client_table V) (desc : description) : M (opt_lib V) unit :=
  with_heading desc (register_entries es).

Definition opt_free_table : M (opt_lib V) unit :=
  modify (fun l => mk_lib [] 0 0 0 (opt_argv0 l) (l_proc l)).
End Register.

(** ** Parsing *)

Section Parse.
Context {V : Type}.

(** The library, and the arguments and the position in a cluster of short
    options, which belong to the caller.  [argc] is the length of [argv]. *)
Record parse : Type := mk_parse {
  pr_lib : opt_lib V;
  pr_argv : list cstr;
  pr_offset : nat
}.

Definition on_lib {A} (m : M (opt_lib V) A) : M parse A := fun s =>
  match m (pr_lib s) with (r, l) => (r, mk_parse l (pr_argv s) (pr_offset s)) end.
Definition call {A} (m : M (process V) A) : M parse A := on_lib (on_proc m).

Context (errlog : cstr -> M (process V) unit).

(** [len] characters of [arg] *)
Definition parse_err (argv0 arg : cstr) (len : nat) (problem : cstr) : M parse Z :=
  do* call (errlog (argv0 ++ lit ": " ++ take len arg ++ lit ": " ++ problem)) in ret (-1).

Definition consume_option (optnum : nat) : M parse unit :=
  modify (fun s => mk_parse (pr_lib s) (delete optnum (pr_argv s)) (pr_offset s)).
Definition set_offset (n : nat) : M parse unit := modify (fun s => mk_parse (pr_lib s) (pr_argv s) n).

(** [argv[n]]; the element after the last one is NULL. *)
Definition argv_at (argv : list cstr) (n : nat) : outcome (option cstr) :=
  if (n <=? length argv)%nat then Ret (argv !! n) else Crash.

(** [for (arg = 1; argv[arg]; arg++) if (argv[arg][0] == '-') break;] on the
    arguments from [arg] on *)
Fixpoint find_option (args : list cstr) (arg : nat) : nat :=
  match args with
  | [] => arg
  | a :: args' => if bool_decide (char_at a = "-"%char) then arg else find_option args' (arg + 1)
  end.

(** The argument of an option: none, part of the same string, or the string after
    it. *)
Inductive optarg_ : Type :=
| no_arg
| inline_arg (s : cstr)
| next_arg (s : cstr).

(** The loop over the long options: the matching name, if any, and the text
    after a '='. *)
Fixpoint long_loop (fuel : nat) (t : list (opt_entry V)) (a : cstr) (o : option cursor)
    : outcome (option (cursor * optarg_)) :=
  match o with
  | None => Ret None
  | Some (i, p, len) =>
      match t !! i with
      | None => Crash
      | Some e =>
          let continue :=
            match fuel with
            | O => Crash
            | S fuel' => match next_lopt t (i, p, len) with Ret o' => long_loop fuel' t a o' | _ => Crash end
            end in
          if negb (strncmp_eq len (drop 2 a) (drop p (opt_names e))) then continue
          else
            match read_char a (2 + len) with
            | Ret c =>
                if bool_decide (c = "="%char) then Ret (Some (i, p, len, inline_arg (drop (2 + len + 1) a)))
                else if negb (bool_decide (c = NUL)) then continue
                else Ret (Some (i, p, len, no_arg))
            | _ => Crash
            end
      end
  end.

(** The loop over the short options, for the letter [c]. *)
Fixpoint short_loop (fuel : nat) (t : list (opt_entry V)) (c : ascii) (o : option cursor)
    : outcome (option cursor) :=
  match o with
  | None => Ret None
  | Some (i, p, len) =>
      match t !! i with
      | None => Crash
      | Some e =>
          match read_char (opt_names e) p with
          | Ret b =>
              if bool_decide (c = b) then Ret (Some (i, p, len))
              else
                match fuel with
                | O => Crash
                | S fuel' => match next_sopt t (i, p, len) with Ret o' => short_loop fuel' t c o' | _ => Crash end
                end
          | _ => Crash
          end
      end
  end.

(** From the label [ok] on. *)
Definition parse_ok (arg : nat) (a : cstr) (optarg : optarg_) : M parse Z :=
  let* offset := gets pr_offset in
  do* (if negb (offset =? 0)%nat then
         let* c := lift (read_char a (offset + 1)) in
         if bool_decide (c = NUL) then set_offset 0 else ret tt
       else ret tt) in
  let* offset := gets pr_offset in
  do* (if (offset =? 0)%nat then
         do* consume_option arg in
         match optarg with
         | next_arg _ => consume_option arg
         | _ => ret tt
         end
       else ret tt) in
  ret 1.

(** The argument of an option that takes one: the rest of a cluster of letters, or
    the next string. *)
Definition find_optarg (arg : nat) (a : cstr) (optarg : optarg_) : M parse optarg_ :=
  match optarg with
  | no_arg =>
      let* offset := gets pr_offset in
      let* swallow := if (offset =? 0)%nat then ret false
                      else let* c := lift (read_char a (offset + 1)) in ret (negb (bool_decide (c = NUL))) in
      if swallow : bool then do* set_offset 0 in ret (inline_arg (drop (offset + 1) a))
      else
        let* argv := gets pr_argv in
        let* n := lift (argv_at argv (arg + 1)) in
        ret (match n with Some s => next_arg s | None => no_arg end)
  | _ => ret optarg
  end.

(** After an option was found: [o] and [len] are its name for messages. *)
Definition run_option (is_early : Z) (argv0 : cstr) (arg : nat) (a : cstr) (e : opt_entry V) (o : cstr) (len : nat)
    (optarg : optarg_) : M parse Z :=
  if Z.land (opt_type e) (Z.lnot OPT_EARLY) =? OPT_NOARG then
    match optarg with
    | no_arg =>
        let* problem := if Z.land (opt_type e) OPT_EARLY =? is_early then call (opt_cb e) else ret None in
        match problem with
        | Some why => parse_err argv0 o len why
        | None => parse_ok arg a optarg
        end
    | _ => parse_err argv0 o len (lit "doesn't allow an argument")
    end
  else
    let* optarg := find_optarg arg a optarg in
    match optarg with
    | no_arg => parse_err argv0 o len (lit "requires an argument")
    | inline_arg s | next_arg s =>
        let* problem := if Z.land (opt_type e) OPT_EARLY =? is_early then call (opt_cb_arg e s) else ret None in
        match problem with
        | Some why => parse_err argv0 o len why
        | None => parse_ok arg a optarg
        end
    end.

(** [posix]: whether POSIXLY_CORRECT is in the environment. *)
Definition parse_one (posix : bool) (is_early : Z) (unknown_ok : bool) : M parse Z :=
  let* argv := gets pr_argv in
  let* t := gets (fun s => opt_table (pr_lib s)) in
  let arg := if posix then 1%nat else find_option (drop 1 argv) 1 in
  let* r := lift (argv_at argv arg) in
  match r with
  | None => ret 0
  | Some a =>
      let argv0 := default [] (argv !! 0%nat) in
      if negb (bool_decide (char_at a = "-"%char)) then ret 0
      else if bool_decide (a = lit "--") then do* consume_option arg in ret 0
      else
        let* offset := gets pr_offset in
        if bool_decide (char_at (drop 1 a) = "-"%char) then
          if negb (offset =? 0)%nat then crash
          else
            let* o := lift (first_lopt t) in
            let* found := lift (long_loop (names_fuel t) t a o) in
            match found with
            | None =>
                if unknown_ok then parse_ok arg a no_arg
                else parse_err argv0 a (length a) (lit "unrecognized option")
            | Some (i, p, len, optarg) =>
                match t !! i with
                | None => crash
                | Some e =>
                    run_option is_early argv0 arg a e (drop (p - 2) (opt_names e)) (len + 2) optarg
                end
            end
        else
          let* c := lift (read_char a (offset + 1)) in
          let* o := lift (first_sopt t) in
          let* found := lift (short_loop (names_fuel t) t c o) in
          match found with
          | None =>
              if unknown_ok then do* set_offset (offset + 1) in parse_ok arg a no_arg
              else parse_err argv0 a (length a) (lit "unrecognized option")
          | Some (i, p, _) =>
              do* set_offset (offset + 1) in
              match t !! i with
              | None => crash
              | Some e => run_option is_early argv0 arg a e (drop (p - 1) (opt_names e)) 2 no_arg
              end
          end
  end.

(** [while ((ret = parse_one(...)) == 1);] *)
Fixpoint parse_all (fuel : nat) (posix : bool) (is_early : Z) (unknown_ok : bool) : M parse Z :=
  let* r := parse_one posix is_early unknown_ok in
  if r =? 1 then
    match fuel with
    | O => crash
    | S fuel' => parse_all fuel' posix is_early unknown_ok
    end
  else ret r.

(** One step more than there are characters and arguments. *)
Definition parse_fuel (argv : list cstr) : nat := foldr (fun a n => (length a + n)%nat) 0%nat argv.

Definition set_argv0 : M parse unit := fun s =>
  let l := pr_lib s in
  (Ret tt, mk_parse (mk_lib (opt_table l) (opt_num_short l) (opt_num_short_arg l) (opt_num_long l)
    (pr_argv s !! 0%nat) (l_proc l)) (pr_argv s) (pr_offset s)).

Definition opt_parse (posix : bool) : M parse bool :=
  do* set_offset 0 in
  do* set_argv0 in
  let* argv := gets pr_argv in
  let* r := parse_all (parse_fuel argv) posix 0 false in
  ret (r =? 0).

(** The arguments are copied, and the copy is given up. *)
Definition early_parse (posix ignore_unknown : bool) : M parse bool :=
  let* argv := gets pr_argv in
  do* set_offset 0 in
  do* set_argv0 in
  let* r := parse_all (parse_fuel argv) posix OPT_EARLY ignore_unknown in
  do* modify (fun s => mk_parse (pr_lib s) argv (pr_offset s)) in
  ret (r =? 0).

Definition opt_early_parse (posix : bool) : M parse bool := early_parse posix false.
Definition opt_early_parse_incomplete (posix : bool) : M parse bool := early_parse posix true.
End Parse.
Arguments parse : clear implicits.
Arguments mk_parse {V}.
Arguments pr_lib {V}.
Arguments pr_argv {V}.
Arguments pr_offset {V}.
