(* ===== verification/OptSpec.v ===== *)
(** * OptSpec: what [opt_parse] does, and that it does it

    [parse_spec] parses arguments from left to right by recursion on them, with
    the registered options as a list of names.  [Opt] instead starts over from the
    first argument for every option, keeps its place in a cluster of letters in a
    variable, and walks through the text of the table.  They agree on every list
    of arguments; in particular parsing ends and never reads out of bounds. *)

From Stdlib Require String.
From S2P Require Import Prelude CStr OptHelpers Opt.
Local Open Scope Z_scope.
Local Open Scope vfn_scope.

(** ** The names of a table *)

(** The names in the text of an entry, with the character before each. *)
Fixpoint names_list (fuel : nat) (s : cstr) : list cstr :=
  match s, fuel with
  | c :: s', S fuel' =>
      let n := span_name s' in
      (c :: take n s') :: match drop n s' with "|"%char :: rest => names_list fuel' rest | _ => [] end
  | _, _ => []
  end.

Definition long_name (full : cstr) : bool := bool_decide (char_at (drop 1 full) = "-"%char).

(** A short name is one letter, a long one has letters after the dashes. *)
Definition good_name (full : cstr) : bool :=
  if long_name full then (3 <=? length full)%nat else (length full =? 2)%nat.

(** The text is a sequence of good names. *)
Inductive names_ok : cstr -> list cstr -> Prop :=
| names_last c s :
    head (drop (span_name s) s) <> Some "|"%char -> good_name (c :: take (span_name s) s) = true ->
    names_ok (c :: s) [c :: take (span_name s) s]
| names_more c s rest l :
    drop (span_name s) s = "|"%char :: rest -> good_name (c :: take (span_name s) s) = true ->
    names_ok rest l -> names_ok (c :: s) ((c :: take (span_name s) s) :: l).

Definition nonul (s : cstr) : Prop := Forall (fun c => c <> NUL) s.

Lemma span_name_le s : (span_name s <= length s)%nat.
Proof. induction s as [|c s IH]; [done|]. simpl. destruct (is_sep c); simpl; lia. Qed.

(** The character after a name is a separator or the end. *)
Lemma span_name_stop s c : head (drop (span_name s) s) = Some c -> is_sep c = true.
Proof.
  induction s as [|d s IH]; [done|]. simpl. destruct (is_sep d) eqn:E; [|exact IH].
  rewrite drop_0. intros [= <-]. done.
Qed.

Lemma names_ok_list s l fuel : names_ok s l -> (length s <= fuel)%nat -> names_list fuel s = l.
Proof.
  intros H. revert fuel. induction H as [c s Hs Hg|c s rest l Hs Hg H IH]; intros [|fuel] Hf; simpl in *; try lia.
  - destruct (drop (span_name s) s) as [|d r]; [done|]. simpl in Hs.
    by destruct d as [[] [] [] [] [] [] [] []].
  - rewrite Hs. f_equal. apply IH. apply (f_equal length) in Hs. rewrite length_drop in Hs. simpl in Hs. lia.
Qed.

Section Names.
Context {V : Type}.
Implicit Types t : list (opt_entry V).

Definition entry_names (e : opt_entry V) : list cstr :=
  if is_subtable e then [] else names_list (length (opt_names e)) (opt_names e).

(** The names of a table whose first entry has index [i]: the entry, the name. *)
Fixpoint flat_from t (i : nat) : list (nat * cstr) :=
  match t with
  | [] => []
  | e :: t' => ((fun full => (i, full)) <$> entry_names e) ++ flat_from t' (i + 1)
  end.
Definition flat t : list (nat * cstr) := flat_from t 0.

Definition valid_type (ty : Z) : Prop := ty ∈ [OPT_HASARG; OPT_NOARG; Z.lor OPT_EARLY OPT_HASARG; Z.lor OPT_EARLY OPT_NOARG].

(** What registration checks. *)
Definition entry_ok (e : opt_entry V) : Prop :=
  is_subtable e = false -> valid_type (opt_type e) /\ names_ok (opt_names e) (entry_names e) /\ nonul (opt_names e).
Definition table_ok t : Prop := Forall entry_ok t.

(** The cursor is at a name of entry [i]; [l] are the names of the table from
    there on. *)
Inductive stands t : cursor -> list (nat * cstr) -> Prop :=
| stands_at i pos e c s l :
    t !! i = Some e -> is_subtable e = false -> drop pos (opt_names e) = c :: s -> nonul (opt_names e) ->
    names_ok (c :: s) ((c :: take (span_name s) s) :: l) ->
    stands t (i, (pos + 1)%nat, span_name s)
      ((i, c :: take (span_name s) s) :: ((fun full => (i, full)) <$> l) ++ flat_from (drop (i + 1) t) (i + 1)).

Definition stands_opt t (oc : option cursor) (l : list (nat * cstr)) : Prop :=
  match oc with
  | None => l = []
  | Some c => stands t c l
  end.

Lemma read_in s n c r : drop n s = c :: r -> read_char s n = Ret c.
Proof.
  intros H. unfold read_char. rewrite H. assert (n < length s)%nat; [|by rewrite (proj2 (Nat.leb_le _ _)) by lia].
  apply (f_equal length) in H. rewrite length_drop in H. simpl in H. lia.
Qed.

Lemma read_end s n : drop n s = [] -> (n <= length s)%nat -> read_char s n = Ret NUL.
Proof. intros H Hn. unfold read_char. by rewrite (proj2 (Nat.leb_le _ _)), H by lia. Qed.

Lemma drop_cons_lt {A} (s : list A) n c r : drop n s = c :: r -> (n < length s)%nat.
Proof. intros H%(f_equal length). rewrite length_drop in H. simpl in H. lia. Qed.

Lemma drop_next {A} (s : list A) n c r : drop n s = c :: r -> drop (n + 1) s = r.
Proof. intros H. rewrite <- drop_drop, H. done. Qed.

Lemma first_name_at s pos c r : drop pos s = c :: r -> first_name s pos = Ret ((pos + 1)%nat, span_name r).
Proof.
  intros H. unfold first_name. pose proof (drop_cons_lt _ _ _ _ H).
  by rewrite (proj2 (Nat.leb_le _ _)), (drop_next _ _ _ _ H) by lia.
Qed.

(** The names from the first entry of [skipn i t] on. *)
Lemma first_from_stands t i :
  table_ok t -> exists oc, first_from (drop i t) i = Ret oc /\ stands_opt t oc (flat_from (drop i t) i).
Proof.
  intros Ht. remember (drop i t) as d eqn:Ed. revert i Ed. induction d as [|e d IH]; intros i Ed.
  { exists None. done. }
  simpl. assert (t !! i = Some e) as Hi.
  { rewrite <- (Nat.add_0_r i), <- lookup_drop, <- Ed. done. }
  assert (d = drop (i + 1) t) as Ed' by (symmetry; by eapply drop_next).
  destruct (is_subtable e) eqn:Es.
  { destruct (IH (i + 1)%nat Ed') as (oc & H1 & H2). exists oc. split; [done|]. unfold entry_names. by rewrite Es. }
  unfold table_ok in Ht. rewrite Forall_forall in Ht.
  destruct (Ht e (list_elem_of_lookup_2 _ _ _ Hi) Es) as (_ & Hok & Hnul).
  assert (exists c s l, opt_names e = c :: s /\ entry_names e = (c :: take (span_name s) s) :: l) as (c & s & l & En & El).
  { inversion Hok; subst; eauto. }
  rewrite (first_name_at (opt_names e) 0 c s) by (by rewrite drop_0). exists (Some (i, 1%nat, span_name s)).
  split; [done|]. rewrite El. simpl. rewrite Ed'. apply (stands_at t i 0 e c s l); try done.
  by rewrite <- En, <- El.
Qed.

Lemma next_from_first t i len : next_from t i None len = first_from t i.
Proof. revert i. induction t as [|e t IH]; intros i; [done|]. simpl. destruct (is_subtable e); [apply IH|done]. Qed.

Lemma next_opt_stands t c l :
  table_ok t -> stands t c l -> exists oc, next_opt t c = Ret oc /\ stands_opt t oc (tail l).
Proof.
  intros Ht Hs. destruct Hs as [i pos e c s l Hi Hsub Hd Hnul Hok]. unfold next_opt.
  assert (drop i t = e :: drop (i + 1) t) as Edr.
  { rewrite (drop_S _ _ _ Hi). by rewrite Nat.add_1_r. }
  rewrite Edr. cbn [next_from]. rewrite Hsub. unfold next_name.
  assert (drop (pos + 1 + span_name s) (opt_names e) = drop (span_name s) s) as Eds.
  { rewrite <- drop_drop. by rewrite (drop_next _ _ _ _ Hd). }
  pose proof (drop_cons_lt _ _ _ _ Hd) as Hlt. pose proof (span_name_le s) as Hle.
  assert (length s = length (opt_names e) - pos - 1)%nat as Els.
  { apply (f_equal length) in Hd. rewrite length_drop in Hd. simpl in Hd. lia. }
  cbn [tail]. inversion Hok as [c' s' Hh Hg|c' s' rest l' Hr Hg Hok']; subst.
  - (* the last name of the entry *)
    cbn [fmap list_fmap app].
    assert (exists a, read_char (opt_names e) (pos + 1 + span_name s) = Ret a /\
      (bool_decide (a = " "%char) || bool_decide (a = "="%char) || bool_decide (a = NUL)) = true) as (a & -> & ->).
    { destruct (drop (span_name s) s) as [|d r] eqn:Ed.
      - exists NUL. rewrite (read_end _ _ Eds) by lia. done.
      - exists d. rewrite (read_in _ _ _ _ Eds). split; [done|]. pose proof (span_name_stop s d) as Hst.
        rewrite Ed in Hst. specialize (Hst eq_refl). unfold is_sep in Hst. apply bool_decide_eq_true in Hst.
        simpl in Hh. apply elem_of_cons in Hst as [->|Hst]; [done|].
        apply elem_of_cons in Hst as [->|Hst]; [done|]. apply elem_of_cons in Hst as [->|Hst]; [done|].
        by apply elem_of_nil in Hst. }
    destruct (first_from_stands t (i + 1) Ht) as (oc & H1 & H2). exists oc. split; [|done]. rewrite <- H1.
    apply next_from_first.
  - rewrite (read_in _ _ _ _ (eq_trans Eds Hr)). cbn [bool_decide decide_rel orb].
    inversion Hok' as [c2 s2 Hh2 Hg2|c2 s2 r2 l2 Hr2 Hg2 Hok2]; subst.
    all: assert (drop (pos + 1 + span_name s + 1) (opt_names e) = c2 :: s2) as Ed2
      by (rewrite (drop_next _ _ _ _ (eq_trans Eds Hr)); done).
    all: rewrite (first_name_at _ _ _ _ Ed2); eexists; (split; [reflexivity|]).
    + by apply (stands_at t i (pos + 1 + span_name s + 1) e c2 s2 []).
    + by apply (stands_at t i (pos + 1 + span_name s + 1) e c2 s2 l2).
Qed.
End Names.

(** ** Looking names up *)

Section Lookup.
Context {V : Type}.
Implicit Types t : list (opt_entry V).

(** The names from the first long, or short, one on. *)
Fixpoint drop_until (long : bool) (l : list (nat * cstr)) : list (nat * cstr) :=
  match l with
  | [] => []
  | x :: l' => if Bool.eqb (long_name x.2) long then l else drop_until long l'
  end.

Lemma drop_until_le long l : (length (drop_until long l) <= length l)%nat.
Proof. induction l as [|x l IH]; [done|]. simpl. destruct (Bool.eqb _ _); simpl; lia. Qed.

Lemma names_ok_length s l : names_ok s l -> (length l <= length s)%nat.
Proof.
  induction 1 as [|c s rest l Hs _ _ IH]; simpl; [lia|]. apply (f_equal length) in Hs. rewrite length_drop in Hs.
  simpl in Hs. lia.
Qed.

Lemma names_list_length fuel s : (length (names_list fuel s) <= length s)%nat.
Proof.
  revert s. induction fuel as [|fuel IH]; intros [|c s]; simpl; try lia.
  destruct (drop (span_name s) s) as [|d r] eqn:E; [simpl; lia|].
  apply (f_equal length) in E. rewrite length_drop in E. simpl in E. specialize (IH r).
  destruct d as [[] [] [] [] [] [] [] []]; simpl; lia.
Qed.

Lemma flat_from_length t i : (length (flat_from t i) <= names_fuel t)%nat.
Proof.
  revert i. induction t as [|e t IH]; intros i; [done|]. cbn [flat_from]. rewrite length_app, length_fmap.
  change (names_fuel (e :: t)) with (length (opt_names e) + names_fuel t)%nat.
  specialize (IH (i + 1)%nat). assert (length (entry_names e) <= length (opt_names e))%nat; [|lia].
  unfold entry_names. destruct (is_subtable e); [simpl; lia|apply names_list_length].
Qed.

Lemma stands_length t c l : stands t c l -> (length l <= names_fuel t)%nat.
Proof.
  intros [i pos e c' s l' Hi _ Hd _ Hok]. apply names_ok_length in Hok. simpl in *.
  rewrite length_app, length_fmap. pose proof (flat_from_length (drop (i + 1) t) (i + 1)) as Hf.
  assert (length (opt_names e) + names_fuel (drop (i + 1) t) <= names_fuel t)%nat as Hn.
  { clear -Hi. revert i Hi. induction t as [|x t IH]; intros [|i] Hi; simplify_eq/=; [by rewrite drop_0|].
    specialize (IH i Hi). change (names_fuel (x :: t)) with (length (opt_names x) + names_fuel t)%nat. lia. }
  apply (f_equal length) in Hd. rewrite length_drop in Hd. simpl in Hd. lia.
Qed.

(** What a name at the head of the list is. *)
Lemma stands_head t i p len full l l' :
  stands t (i, p, len) l -> l = (i, full) :: l' \/ (exists j, l = (j, full) :: l') ->
  exists e, t !! i = Some e /\ is_subtable e = false /\ (1 <= p)%nat /\ (1 <= len)%nat /\ nonul (opt_names e) /\
    take (len + 1) (drop (p - 1) (opt_names e)) = full /\ (len + 1 = length full)%nat /\ good_name full = true /\
    l = (i, full) :: l' /\ (p + len <= length (opt_names e))%nat.
Proof.
  intros Hs Hl. inversion Hs as [i' pos e c s l2 Hi Hsub Hd Hnul Hok]; subst.
  assert (full = c :: take (span_name s) s) as -> by (destruct Hl as [[=]|[j [=]]]; done).
  exists e. replace (pos + 1 - 1)%nat with pos by lia. rewrite Hd. pose proof (span_name_le s).
  assert (good_name (c :: take (span_name s) s) = true) as Hg by (by inversion Hok).
  assert (length (c :: take (span_name s) s) = span_name s + 1)%nat as Hlen by (simpl; rewrite length_take; lia).
  pose proof (drop_cons_lt _ _ _ _ Hd). apply (f_equal length) in Hd. rewrite length_drop in Hd. simpl in Hd.
  split_and!; try done; try lia.
  - unfold good_name in Hg. rewrite Hlen in Hg.
    destruct (long_name _); [apply Nat.leb_le in Hg|apply Nat.eqb_eq in Hg]; lia.
  - by rewrite Nat.add_1_r.
  - by destruct Hl as [[=]|[j [=]]]; subst.
Qed.

Lemma stands_cons t c l : stands t c l -> exists full l', l = (c.1.1, full) :: l'.
Proof. intros []. simpl. eauto. Qed.

Lemma is_long_stands t i p len full l : stands t (i, p, len) ((i, full) :: l) -> is_long t (i, p, len) = Ret (long_name full).
Proof.
  intros Hs. destruct (stands_head _ _ _ _ _ _ _ Hs (or_introl eq_refl)) as (e & Hi & _ & Hp & Hl & _ & Ef & _ & _ & _ & Hb).
  unfold is_long. rewrite Hi, <- Ef. unfold long_name. replace p with (p - 1 + 1)%nat at 1 by lia.
  assert (drop 1 (take (len + 1) (drop (p - 1) (opt_names e))) = take len (drop (p - 1 + 1) (opt_names e))) as ->.
  { rewrite skipn_firstn_comm, drop_drop. f_equal. lia. }
  unfold read_char. rewrite (proj2 (Nat.leb_le _ _)) by lia. do 2 f_equal.
  destruct (drop (p - 1 + 1) (opt_names e)) as [|a r]; [by destruct len|]. by destruct len; [lia|].
Qed.

Lemma seek_stands fuel t long oc l :
  table_ok t -> stands_opt t oc l -> (length l <= fuel)%nat ->
  exists oc', seek fuel t long oc = Ret oc' /\ stands_opt t oc' (drop_until long l).
Proof.
  intros Ht. revert oc l. induction fuel as [|fuel IH]; intros [c|] l Hs Hf; simpl in Hs.
  - destruct (stands_cons _ _ _ Hs) as (full & l' & ->). simpl in Hf. lia.
  - subst. by exists None.
  - destruct (stands_cons _ _ _ Hs) as (full & l' & ->). destruct c as [[i p] len]. simpl in *.
    pose proof (is_long_stands _ _ _ _ _ _ Hs) as Hl. unfold is_long in Hl. rewrite Hl.
    destruct (Bool.eqb (long_name full) long); [by exists (Some (i, p, len))|].
    destruct (next_opt_stands t _ _ Ht Hs) as (oc & H1 & H2). unfold next_opt in H1. rewrite H1.
    apply IH; [done|]. simpl. lia.
  - subst. by exists None.
Qed.

Lemma seek_head long l x l' : drop_until long l = x :: l' -> long_name x.2 = long.
Proof. induction l as [|y l IH]; [done|]. simpl. destruct (Bool.eqb_spec (long_name y.2) long); [by intros [= -> ->]|done]. Qed.

Lemma stands_opt_length t oc l : stands_opt t oc l -> (length l <= names_fuel t)%nat.
Proof. destruct oc; [apply stands_length|intros ->; simpl; lia]. Qed.

(** The pointer of a long name is one further, and its length one less. *)
Definition stands_long t (oc : option cursor) (l : list (nat * cstr)) : Prop :=
  match oc with
  | None => l = []
  | Some (i, p, len) => (2 <= p)%nat /\ stands t (i, (p - 1)%nat, (len + 1)%nat) l
  end.

Lemma skip_dash_stands t oc l :
  stands_opt t oc (drop_until true l) -> exists oc', skip_dash (Ret oc) = Ret oc' /\ stands_long t oc' (drop_until true l).
Proof.
  intros Hs. destruct oc as [[[i p] len]|]; [|by exists None].
  destruct (stands_cons _ _ _ Hs) as (full & l' & E). simpl in E. rewrite E in Hs |- *.
  destruct (stands_head _ _ _ _ _ _ _ Hs (or_introl eq_refl)) as (e & _ & _ & Hp & Hl & _).
  eexists. split; [done|]. simpl. replace (p + 1 - 1)%nat with p by lia. replace (len - 1 + 1)%nat with len by lia.
  split; [lia|done].
Qed.

Lemma first_lopt_stands t : table_ok t -> exists oc, first_lopt t = Ret oc /\ stands_long t oc (drop_until true (flat t)).
Proof.
  intros Ht. unfold first_lopt, first_opt. destruct (first_from_stands t 0 Ht) as (oc & H1 & H2).
  rewrite drop_0 in H1, H2. rewrite H1.
  destruct (seek_stands (names_fuel t) t true oc _ Ht H2 (stands_opt_length _ _ _ H2)) as (oc' & -> & H3).
  by apply skip_dash_stands.
Qed.

Lemma next_lopt_stands t c l :
  table_ok t -> stands_long t (Some c) l -> exists oc, next_lopt t c = Ret oc /\ stands_long t oc (drop_until true (tail l)).
Proof.
  intros Ht Hs. destruct c as [[i p] len]. destruct Hs as [Hp Hs]. unfold next_lopt.
  destruct (next_opt_stands t _ _ Ht Hs) as (oc & H1 & H2).
  assert (next_opt t (i, p, len) = next_opt t (i, (p - 1)%nat, (len + 1)%nat)) as E.
  { destruct (stands_cons _ _ _ Hs) as (full & l' & ->).
    destruct (stands_head _ _ _ _ _ _ _ Hs (or_introl eq_refl)) as (e & Hi & Hsub & _).
    unfold next_opt. rewrite (drop_S _ _ _ Hi). cbn [next_from]. rewrite Hsub. unfold next_name.
    rewrite !next_from_first. by replace (p - 1 + (len + 1))%nat with (p + len)%nat by lia. }
  rewrite E, H1.
  destruct (seek_stands (names_fuel t) t true oc _ Ht H2 (stands_opt_length _ _ _ H2)) as (oc' & -> & H3).
  by apply skip_dash_stands.
Qed.

Definition stands_short t (oc : option cursor) (l : list (nat * cstr)) : Prop := stands_opt t oc l /\ drop_until false l = l.

Lemma drop_until_idem long l : drop_until long (drop_until long l) = drop_until long l.
Proof.
  induction l as [|x l IH]; [done|]. simpl. destruct (Bool.eqb _ _) eqn:E; [|done]. simpl. by rewrite E.
Qed.

Lemma first_sopt_stands t : table_ok t -> exists oc, first_sopt t = Ret oc /\ stands_short t oc (drop_until false (flat t)).
Proof.
  intros Ht. unfold first_sopt, first_opt. destruct (first_from_stands t 0 Ht) as (oc & H1 & H2).
  rewrite drop_0 in H1, H2. rewrite H1.
  destruct (seek_stands (names_fuel t) t false oc _ Ht H2 (stands_opt_length _ _ _ H2)) as (oc' & -> & H3).
  exists oc'. split; [done|]. split; [done|apply drop_until_idem].
Qed.

Lemma next_sopt_stands t c l :
  table_ok t -> stands_short t (Some c) l -> exists oc, next_sopt t c = Ret oc /\ stands_short t oc (drop_until false (tail l)).
Proof.
  intros Ht [Hs Hd]. destruct c as [[i p] len]. unfold next_sopt. simpl in Hs.
  destruct (stands_cons _ _ _ Hs) as (full & l' & ->).
  destruct (stands_head _ _ _ _ _ _ _ Hs (or_introl eq_refl)) as (e & _ & _ & _ & _ & _ & _ & El & Hg & _).
  apply seek_head in Hd. simpl in Hd. unfold good_name in Hg. rewrite Hd in Hg. apply Nat.eqb_eq in Hg.
  assert (len = 1%nat) as -> by lia. destruct (next_opt_stands t _ _ Ht Hs) as (oc & H1 & H2). rewrite H1.
  destruct (seek_stands (names_fuel t) t false oc _ Ht H2 (stands_opt_length _ _ _ H2)) as (oc' & -> & H3).
  exists oc'. split; [done|]. split; [done|apply drop_until_idem].
Qed.

(** ** The lookups, as searches in the list of names *)

(** The part of an argument after its first two dashes against a long name. *)
Definition match_long (name arg : cstr) : option optarg_ :=
  if bool_decide (arg = name) then Some no_arg
  else if bool_decide (take (length name + 1) arg = name ++ ["="%char]) then Some (inline_arg (drop (length name + 1) arg))
  else None.

Fixpoint find_long (l : list (nat * cstr)) (a : cstr) : option (nat * cstr * optarg_) :=
  match l with
  | [] => None
  | (i, full) :: l' =>
      if long_name full then
        match match_long (drop 2 full) (drop 2 a) with
        | Some oa => Some (i, full, oa)
        | None => find_long l' a
        end
      else find_long l' a
  end.

Fixpoint find_short (l : list (nat * cstr)) (c : ascii) : option (nat * cstr) :=
  match l with
  | [] => None
  | (i, full) :: l' =>
      if negb (long_name full) && bool_decide (c = char_at (drop 1 full)) then Some (i, full) else find_short l' c
  end.

Lemma find_long_until l a : find_long (drop_until true l) a = find_long l a.
Proof. induction l as [|[i full] l IH]; [done|]. simpl. destruct (long_name full) eqn:E; [|done]. simpl. by rewrite E. Qed.
Lemma find_short_until l c : find_short (drop_until false l) c = find_short l c.
Proof. induction l as [|[i full] l IH]; [done|]. simpl. destruct (long_name full) eqn:E; [done|]. simpl. by rewrite E. Qed.

Lemma strncmp_take n (a b : cstr) :
  nonul b -> (n <= length b)%nat -> strncmp_eq n a b = bool_decide (take n a = take n b).
Proof.
  intros Hb. revert a b Hb. induction n as [|n IH]; intros a b Hb Hn; [done|].
  destruct b as [|y b]; [simpl in Hn; lia|]. apply Forall_cons in Hb as [Hy Hb]. simpl in Hn.
  destruct a as [|x a]; simpl.
  - by rewrite (bool_decide_false (terminator = y)) by (intros <-; done).
  - unfold char_at. simpl. destruct (decide (x = y)) as [->|Hne].
    + rewrite (bool_decide_true (y = y)), (bool_decide_false (y = terminator)) by done. simpl. rewrite IH by (done || lia).
      apply bool_decide_ext. split; [by intros ->|by intros [=]].
    + rewrite (bool_decide_false (x = y)), (bool_decide_false (_ :: _ = _)) by (done || congruence). done.
Qed.

(** How an argument that starts with the name goes on decides the match. *)
Lemma match_long_spec name arg :
  nonul arg ->
  match_long name arg =
    if bool_decide (take (length name) arg = name) then
      if bool_decide (char_at (drop (length name) arg) = "="%char) then Some (inline_arg (drop (length name + 1) arg))
      else if bool_decide (char_at (drop (length name) arg) = NUL) then Some no_arg
      else None
    else None.
Proof.
  intros Hn. unfold match_long. destruct (decide (take (length name) arg = name)) as [E|E].
  - assert (exists r, arg = name ++ r) as [r ->].
    { exists (drop (length name) arg). rewrite <- E at 1. by rewrite take_drop. }
    rewrite (bool_decide_true (take (length name) _ = name)), drop_app_length by done.
    apply Forall_app in Hn as [_ Hd]. destruct r as [|c r].
    + rewrite (bool_decide_true (name ++ [] = name)) by apply app_nil_r. done.
    + apply Forall_cons in Hd as [Hc _]. rewrite (bool_decide_false (name ++ c :: r = name)).
      2: { intros H%(f_equal length). rewrite length_app in H. simpl in H. lia. }
      unfold char_at. simpl. rewrite (bool_decide_false (c = NUL)) by done.
      destruct (decide (c = "="%char)) as [->|Hne].
      * rewrite !bool_decide_true; [done|done|]. rewrite take_app_ge by lia. do 2 f_equal.
        replace (length name + 1 - length name)%nat with 1%nat by lia. done.
      * rewrite !bool_decide_false; [done|done|]. rewrite take_app_ge by lia.
        replace (length name + 1 - length name)%nat with 1%nat by lia. intros H. by simplify_list_eq.
  - rewrite (bool_decide_false (take _ _ = name)) by done. rewrite (bool_decide_false (arg = name)).
    2: { intros ->. apply E. apply take_ge. lia. }
    rewrite bool_decide_false; [done|]. intros H. apply E.
    apply (f_equal (take (length name))) in H. rewrite take_take, Nat.min_l in H by lia.
    by rewrite take_app_length in H.
Qed.

Definition long_found t (r : option (cursor * optarg_)) (spec : option (nat * cstr * optarg_)) : Prop :=
  match spec with
  | None => r = None
  | Some (i, full, oa) => exists p len e, r = Some (i, p, len, oa) /\ t !! i = Some e /\ is_subtable e = false /\
      take (len + 2) (drop (p - 2) (opt_names e)) = full
  end.

Lemma long_loop_spec fuel t a oc l :
  table_ok t -> nonul a -> (2 <= length a)%nat -> stands_long t oc (drop_until true l) ->
  (length (drop_until true l) <= fuel)%nat ->
  exists r, long_loop fuel t a oc = Ret r /\ long_found t r (find_long l a).
Proof.
  intros Ht Ha Hlen. rewrite <- find_long_until. revert oc l.
  induction fuel as [|fuel IH]; intros oc l Hs Hf.
  { destruct (drop_until true l) eqn:E; [|simpl in Hf; lia]. destruct oc as [[[i p] len]|]; [|by exists None].
    destruct Hs as [_ Hs]. apply stands_cons in Hs as (? & ? & ?). done. }
  destruct oc as [[[i p] len]|]; [|simpl in Hs; rewrite Hs; by exists None].
  pose proof Hs as [Hp Hs1]. destruct (stands_cons _ _ _ Hs1) as (full & l' & E). simpl in E.
  pose proof (seek_head _ _ _ _ E) as Hlong. simpl in Hlong. rewrite E in Hs, Hs1, Hf |- *.
  destruct (stands_head _ _ _ _ _ _ _ Hs1 (or_introl eq_refl)) as (e & Hi & Hsub & _ & _ & Hnul & Efull & Elen & Hg & _ & Hb).
  assert (drop 2 full = take len (drop p (opt_names e))) as Ename.
  { rewrite <- Efull, skipn_firstn_comm, drop_drop. f_equal; [lia|]. f_equal. lia. }
  assert (length (take len (drop p (opt_names e))) = len) as En by (rewrite length_take, length_drop; lia).
  destruct (next_lopt_stands t _ _ Ht Hs) as (oc' & Hnext & Hs').
  pose proof (drop_until_le true l') as Hle. simpl in Hf. cbn [tail] in Hs'.
  destruct (IH oc' l' Hs' ltac:(lia)) as (r & Hr & Hfound). rewrite find_long_until in Hfound.
  cbn [long_loop find_long]. rewrite Hi, Hlong, Ename, match_long_spec by (by apply Forall_drop).
  rewrite En, strncmp_take by (try (by apply Forall_drop); rewrite length_drop; lia). rewrite Hnext.
  destruct (decide (take len (drop 2 a) = take len (drop p (opt_names e)))) as [Em|Em].
  2: { rewrite bool_decide_false by done. simpl. eauto. }
  rewrite bool_decide_true by done. cbn [negb].
  assert (len <= length (drop 2 a))%nat as Hal by (rewrite <- Em, length_take in En; lia). rewrite length_drop in Hal.
  unfold read_char. rewrite (proj2 (Nat.leb_le _ _)) by lia. rewrite drop_drop.
  assert (long_found t (Some (i, p, len, inline_arg (drop (2 + len + 1) a))) (Some (i, full, inline_arg (drop (2 + (len + 1)) a)))) as Hin.
  { exists p, len, e. rewrite <- Efull. split_and!; [do 3 f_equal; lia|done|done|]. f_equal; [lia|]. f_equal. lia. }
  rewrite drop_drop. destruct (bool_decide (_ = "="%char)); [eauto|].
  destruct (bool_decide (_ = NUL)); [|simpl; eauto]. simpl. eexists. split; [done|].
  exists p, len, e. rewrite <- Efull. split_and!; [done..|]. f_equal; [lia|]. f_equal. lia.
Qed.

Definition short_found t (r : option cursor) (spec : option (nat * cstr)) : Prop :=
  match spec with
  | None => r = None
  | Some (i, full) => exists p len e, r = Some (i, p, len) /\ t !! i = Some e /\ is_subtable e = false /\
      take 2 (drop (p - 1) (opt_names e)) = full
  end.

Lemma short_loop_spec fuel t c oc l :
  table_ok t -> stands_short t oc (drop_until false l) -> (length (drop_until false l) <= fuel)%nat ->
  exists r, short_loop fuel t c oc = Ret r /\ short_found t r (find_short l c).
Proof.
  intros Ht. rewrite <- find_short_until. revert oc l.
  induction fuel as [|fuel IH]; intros oc l Hs Hf.
  { destruct (drop_until false l) eqn:E; [|simpl in Hf; lia]. destruct oc as [[[i p] len]|]; [|by exists None].
    destruct Hs as [Hs _]. apply stands_cons in Hs as (? & ? & ?). done. }
  destruct oc as [[[i p] len]|]; [|destruct Hs as [Hs _]; simpl in Hs; rewrite Hs; by exists None].
  pose proof Hs as [Hs1 _]. destruct (stands_cons _ _ _ Hs1) as (full & l' & E). simpl in E.
  pose proof (seek_head _ _ _ _ E) as Hshort. simpl in Hshort. rewrite E in Hs, Hs1, Hf |- *.
  destruct (stands_head _ _ _ _ _ _ _ Hs1 (or_introl eq_refl)) as (e & Hi & Hsub & Hp & _ & Hnul & Efull & Elen & Hg & _ & Hb).
  unfold good_name in Hg. rewrite Hshort in Hg. apply Nat.eqb_eq in Hg. assert (len = 1%nat) as -> by lia.
  destruct (next_sopt_stands t _ _ Ht Hs) as (oc' & Hnext & Hs').
  pose proof (drop_until_le false l') as Hle. simpl in Hf. cbn [tail] in Hs'.
  destruct (IH oc' l' Hs' ltac:(lia)) as (r & Hr & Hfound). rewrite find_short_until in Hfound.
  cbn [short_loop find_short]. rewrite Hi, Hshort. unfold read_char. rewrite (proj2 (Nat.leb_le _ _)), Hnext by lia.
  assert (char_at (drop p (opt_names e)) = char_at (drop 1 full)) as ->.
  { rewrite <- Efull, skipn_firstn_comm, drop_drop. replace (p - 1 + 1)%nat with p by lia.
    by destruct (drop p (opt_names e)). }
  cbn [negb andb]. destruct (bool_decide (c = _)); [|eauto]. eexists. split; [done|].
  exists p, 1%nat, e. rewrite <- Efull. done.
Qed.
End Lookup.

(** ** Parsing from left to right *)

Definition dash (a : cstr) : bool := bool_decide (char_at a = "-"%char).

(** Whether the option takes an argument, and whether its callback is called in
    this pass. *)
Definition takes_arg {V} (e : opt_entry V) : bool := negb (Z.land (opt_type e) (Z.lnot OPT_EARLY) =? OPT_NOARG).

Section Spec.
Context {V : Type} (errlog : cstr -> M (process V) unit).
Context (t : list (opt_entry V)) (posix : bool) (is_early : Z) (argv0 : cstr).

(** The operands, or [None] after an error was logged. *)
Definition result : Type := option (list cstr).

Definition spec_err (text problem : cstr) : M (process V) result :=
  do* errlog (argv0 ++ lit ": " ++ text ++ lit ": " ++ problem) in ret None.

(** Calling back for an option, then going on. *)
Definition spec_call (e : opt_entry V) (full : cstr) (cb : M (process V) (option cstr)) (k : M (process V) result)
    : M (process V) result :=
  let* problem := if Z.land (opt_type e) OPT_EARLY =? is_early then cb else ret None in
  match problem with
  | Some why => spec_err full why
  | None => k
  end.

(** The letters of a cluster: [next] is the argument after it; [k] and [k_next] go on
    after the cluster and after [next]. *)
Fixpoint spec_letters (a letters : cstr) (next : option cstr) (k k_next : M (process V) result)
    : M (process V) result :=
  match letters with
  | [] => k
  | c :: letters' =>
      match find_short (flat t) c with
      | None => spec_err a (lit "unrecognized option")
      | Some (i, full) =>
          match t !! i with
          | None => crash
          | Some e =>
              if takes_arg e then
                match letters', next with
                | _ :: _, _ => spec_call e full (opt_cb_arg e letters') k
                | [], Some s => spec_call e full (opt_cb_arg e s) k_next
                | [], None => spec_err full (lit "requires an argument")
                end
              else spec_call e full (opt_cb e) (spec_letters a letters' next k k_next)
          end
      end
  end.

(** Operands are kept (the first one ends the options if the environment asks for
    that), "--" ends the options, a long option has its argument after '=' or in
    the next string. *)
Fixpoint parse_spec (args : list cstr) : M (process V) result :=
  match args with
  | [] => ret (Some [])
  | a :: rest =>
      let k_next := match rest with _ :: rest' => parse_spec rest' | [] => crash end in
      if negb (dash a) then
        if posix then ret (Some args)
        else let* r := parse_spec rest in ret ((fun l => a :: l) <$> r)
      else if bool_decide (a = lit "--") then ret (Some rest)
      else if dash (drop 1 a) then
        match find_long (flat t) a with
        | None => spec_err a (lit "unrecognized option")
        | Some (i, full, oa) =>
            match t !! i with
            | None => crash
            | Some e =>
                if takes_arg e then
                  match oa, rest with
                  | inline_arg s, _ => spec_call e full (opt_cb_arg e s) (parse_spec rest)
                  | _, s :: _ => spec_call e full (opt_cb_arg e s) k_next
                  | _, [] => spec_err full (lit "requires an argument")
                  end
                else
                  match oa with
                  | no_arg => spec_call e full (opt_cb e) (parse_spec rest)
                  | _ => spec_err full (lit "doesn't allow an argument")
                  end
            end
        end
      else if bool_decide (drop 1 a = []) then spec_err a (lit "unrecognized option")
      else spec_letters a (drop 1 a) (head rest) (parse_spec rest) k_next
  end.

(** ** The parser's steps *)

Context (Htable : table_ok t).
Context (lib : process V -> opt_lib V).
Hypothesis lib_table : forall p, opt_table (lib p) = t.
Hypothesis lib_proc : forall p, l_proc (lib p) = p.
Hypothesis lib_on_proc : forall {A} (m : M (process V) A) p,
  on_proc m (lib p) = match m p with (r, p') => (r, lib p') end.

(** The outcome of the loop against that of the specification; [kept] are the
    operands before. *)
Definition agrees (kept : list cstr) (r : outcome Z * parse V) (q : outcome result * process V) : Prop :=
  match q with
  | (Ret (Some ops), p) => r = (Ret 0, mk_parse (lib p) (argv0 :: kept ++ ops) 0)
  | (Ret None, p) => exists s, r = (Ret (-1), s) /\ l_proc (pr_lib s) = p
  | (Fail e, p) => exists s, r = (Fail e, s) /\ l_proc (pr_lib s) = p
  | (Crash, p) => exists s, r = (Crash, s) /\ l_proc (pr_lib s) = p
  end.

(** The loop from a state on, when the first step is [m]. *)
Definition continue (fuel : nat) (m : M (parse V) Z) : M (parse V) Z :=
  let* r := m in
  if r =? 1 then match fuel with O => crash | S fuel' => parse_all errlog fuel' posix is_early false end else ret r.

Lemma call_run {A} (m : M (process V) A) p argv off :
  call m (mk_parse (lib p) argv off) = match m p with (r, p') => (r, mk_parse (lib p') argv off) end.
Proof using lib_on_proc. unfold call, on_lib. simpl. rewrite lib_on_proc. by destruct (m p). Qed.

Lemma err_agrees kept fuel text len problem p argv off :
  agrees kept (continue fuel (parse_err errlog argv0 text len problem) (mk_parse (lib p) argv off))
    (spec_err (take len text) problem p).
Proof using lib_on_proc lib_proc.
  unfold continue, parse_err, spec_err, bind. rewrite call_run. destruct (errlog _ p) as [[u|e|] p']; simpl; eauto.
Qed.

Lemma unknown_agrees kept fuel a problem p argv off :
  agrees kept (continue fuel (parse_err errlog argv0 a (length a) problem) (mk_parse (lib p) argv off))
    (spec_err a problem p).
Proof using lib_on_proc lib_proc. pose proof (err_agrees kept fuel a (length a) problem p argv off) as H. by rewrite firstn_all in H. Qed.

(** Calling back and going on with the label [ok]. *)
Lemma callback_agrees kept fuel e text len cb k p argv off arg a oa :
  (forall p', agrees kept (continue fuel (parse_ok arg a oa) (mk_parse (lib p') argv off)) (k p')) ->
  agrees kept
    (continue fuel (let* problem := if Z.land (opt_type e) OPT_EARLY =? is_early then call cb else ret None in
       match problem with Some why => parse_err errlog argv0 text len why | None => parse_ok arg a oa end)
      (mk_parse (lib p) argv off))
    (spec_call e (take len text) cb k p).
Proof using lib_on_proc lib_proc.
  intros Hk. unfold spec_call. destruct (_ =? is_early).
  - unfold continue, bind at 1 2. unfold bind at 1. rewrite call_run.
    destruct (cb p) as [[[why|]|x|] p']; simpl; [apply err_agrees|apply Hk|eauto..].
  - unfold bind, ret. apply Hk.
Qed.

Lemma parse_all_continue fuel s :
  parse_all errlog fuel posix is_early false s = continue fuel (parse_one errlog posix is_early false) s.
Proof. by destruct fuel. Qed.

Lemma continue_one fuel (m : M (parse V) Z) s s' :
  m s = (Ret 1, s') -> continue (S fuel) m s = parse_all errlog fuel posix is_early false s'.
Proof. intros H. unfold continue, bind. by rewrite H. Qed.

Lemma delete_kept (kept : list cstr) a rest :
  delete (S (length kept)) (argv0 :: kept ++ a :: rest) = argv0 :: kept ++ rest.
Proof. simpl. f_equal. by rewrite delete_middle. Qed.

(** The option at hand is the first argument with a dash. *)
Lemma find_option_kept kept a rest i :
  Forall (fun x => dash x = false) kept -> dash a = true -> find_option (kept ++ a :: rest) i = (i + length kept)%nat.
Proof.
  intros Hk Ha. revert i. induction Hk as [|x kept Hx Hk IH]; intros i; simpl.
  - unfold dash in Ha. rewrite Ha. lia.
  - unfold dash in Hx. rewrite Hx, IH. lia.
Qed.

Lemma find_option_none kept i : Forall (fun x => dash x = false) kept -> find_option kept i = (i + length kept)%nat.
Proof.
  intros Hk. revert i. induction Hk as [|x kept Hx Hk IH]; intros i; simpl; [lia|]. unfold dash in Hx. rewrite Hx, IH. lia.
Qed.

Definition skippable (kept : list cstr) : Prop := Forall (fun x => dash x = false) kept /\ (posix = true -> kept = []).

Lemma option_index kept a rest :
  skippable kept -> dash a = true ->
  (if posix then 1%nat else find_option (drop 1 (argv0 :: kept ++ a :: rest)) 1) = S (length kept).
Proof.
  intros [Hk Hp] Ha. destruct posix; [by rewrite (Hp eq_refl)|].
  change (drop 1 (argv0 :: kept ++ a :: rest)) with (kept ++ a :: rest). by rewrite find_option_kept.
Qed.

Lemma argv_at_kept kept a rest : argv_at (argv0 :: kept ++ a :: rest) (S (length kept)) = Ret (Some a).
Proof.
  unfold argv_at. rewrite (proj2 (Nat.leb_le _ _)) by (simpl; rewrite length_app; simpl; lia).
  simpl. by rewrite list_lookup_middle.
Qed.

Lemma argv_at_next kept a rest : argv_at (argv0 :: kept ++ a :: rest) (S (length kept) + 1) = Ret (head rest).
Proof.
  unfold argv_at. rewrite (proj2 (Nat.leb_le _ _)) by (simpl; rewrite length_app; simpl; lia).
  f_equal. rewrite Nat.add_1_r. simpl. rewrite lookup_app_r by lia.
  replace (S (length kept) - length kept)%nat with 1%nat by lia. by destruct rest.
Qed.

(** The label [ok] once the string is done with. *)
Lemma ok_done kept a rest off oa (l : opt_lib V) :
  (match oa with next_arg _ => rest <> [] | _ => True end) ->
  off = O \/ ((off + 1 = length a)%nat) ->
  parse_ok (S (length kept)) a oa (mk_parse l (argv0 :: kept ++ a :: rest) off) =
    (Ret 1, mk_parse l (argv0 :: kept ++ match oa with next_arg _ => tail rest | _ => rest end) 0).
Proof.
  intros Hoa Hoff. unfold parse_ok, gets, bind at 1. cbn [pr_offset].
  assert ((if negb (off =? 0)%nat then let* c := lift (read_char a (off + 1)) in
      if bool_decide (c = NUL) then set_offset 0 else ret tt else ret tt)
      (mk_parse l (argv0 :: kept ++ a :: rest) off) = (Ret tt, mk_parse l (argv0 :: kept ++ a :: rest) 0)) as E.
  { destruct (Nat.eqb_spec off 0) as [->|Hne]; [done|]. destruct Hoff as [->|Hl]; [done|]. simpl negb.
    unfold bind, lift. rewrite (read_end a (off + 1)) by (rewrite ?drop_ge; (done || lia)). done. }
  unfold bind at 1. rewrite E. unfold bind, consume_option, modify, ret. cbn [pr_offset pr_lib pr_argv Nat.eqb].
  rewrite delete_kept. destruct oa as [|s|s]; try done. destruct rest as [|r rest]; [done|].
  cbn [pr_offset pr_lib pr_argv tail]. by rewrite delete_kept.
Qed.

(** In the middle of a cluster. *)
Lemma ok_more kept a rest off (l : opt_lib V) :
  (0 < off)%nat -> (off + 1 < length a)%nat -> nonul a ->
  parse_ok (S (length kept)) a no_arg (mk_parse l (argv0 :: kept ++ a :: rest) off) =
    (Ret 1, mk_parse l (argv0 :: kept ++ a :: rest) off).
Proof.
  intros Ho Hl Hn. unfold parse_ok, gets, bind at 1. cbn [pr_offset].
  rewrite (proj2 (Nat.eqb_neq off 0)) by lia. destruct (drop (off + 1) a) as [|c r] eqn:Ed.
  { apply (f_equal length) in Ed. rewrite length_drop in Ed. simpl in Ed. lia. }
  unfold bind, lift. simpl negb. cbv iota. rewrite (read_in _ _ _ _ Ed).
  rewrite bool_decide_false; [simpl; rewrite (proj2 (Nat.eqb_neq off 0)) by lia; done|].
  assert (Forall (fun c => c <> NUL) (drop (off + 1) a)) as Hd by (by apply Forall_drop). rewrite Ed in Hd. by inversion Hd.
Qed.

Lemma parse_one_at kept a rest off p :
  skippable kept -> dash a = true -> a <> lit "--" ->
  parse_one errlog posix is_early false (mk_parse (lib p) (argv0 :: kept ++ a :: rest) off) =
  (if dash (drop 1 a) then
     if negb (off =? 0)%nat then crash
     else
       let* o := lift (first_lopt t) in
       let* found := lift (long_loop (names_fuel t) t a o) in
       match found with
       | None => parse_err errlog argv0 a (length a) (lit "unrecognized option")
       | Some (i, p, len, optarg) =>
           match t !! i with
           | None => crash
           | Some e => run_option errlog is_early argv0 (S (length kept)) a e (drop (p - 2) (opt_names e)) (len + 2) optarg
           end
       end
   else
     let* c := lift (read_char a (off + 1)) in
     let* o := lift (first_sopt t) in
     let* found := lift (short_loop (names_fuel t) t c o) in
     match found with
     | None => parse_err errlog argv0 a (length a) (lit "unrecognized option")
     | Some (i, p, _) =>
         do* set_offset (off + 1) in
         match t !! i with
         | None => crash
         | Some e => run_option errlog is_early argv0 (S (length kept)) a e (drop (p - 1) (opt_names e)) 2 no_arg
         end
     end) (mk_parse (lib p) (argv0 :: kept ++ a :: rest) off).
Proof using lib_table.
  intros Hk Ha Hne. unfold parse_one, gets, bind at 1. cbn [pr_argv]. unfold bind at 1. cbn [pr_lib].
  rewrite lib_table, (option_index _ _ _ Hk Ha). unfold bind at 1, lift at 1. rewrite argv_at_kept.
  unfold dash in Ha. rewrite Ha, (bool_decide_false (a = _)) by done. cbn [negb]. unfold bind at 1. cbn [pr_offset].
  unfold dash. cbn [lookup list_lookup default]. by destruct (bool_decide _).
Qed.

Lemma parse_one_long kept a rest p :
  skippable kept -> dash a = true -> a <> lit "--" -> dash (drop 1 a) = true -> nonul a ->
  let s := mk_parse (lib p) (argv0 :: kept ++ a :: rest) 0 in
  (find_long (flat t) a = None /\
   parse_one errlog posix is_early false s = parse_err errlog argv0 a (length a) (lit "unrecognized option") s) \/
  (exists i full oa e o len, find_long (flat t) a = Some (i, full, oa) /\ t !! i = Some e /\ take len o = full /\
   parse_one errlog posix is_early false s = run_option errlog is_early argv0 (S (length kept)) a e o len oa s).
Proof using Htable lib_table.
  intros Hk Ha Hne Hd Hn s. unfold s. rewrite parse_one_at, Hd by done. cbn [Nat.eqb negb].
  assert (2 <= length a)%nat as Hlen.
  { destruct a as [|x [|y a]]; [done|done|simpl; lia]. }
  destruct (first_lopt_stands t Htable) as (oc & Hf & Hs). unfold bind, lift. rewrite Hf.
  assert (length (drop_until true (flat t)) <= names_fuel t)%nat as Hfuel.
  { etransitivity; [apply drop_until_le|apply flat_from_length]. }
  destruct (long_loop_spec (names_fuel t) t a oc (flat t) Htable Hn Hlen Hs Hfuel) as (r & -> & Hr).
  destruct (find_long (flat t) a) as [[[i full] oa]|]; simpl in Hr; [right|left; by subst r].
  destruct Hr as (q & len & e & -> & Hi & _ & Ef). exists i, full, oa, e, (drop (q - 2) (opt_names e)), (len + 2)%nat.
  rewrite Hi. done.
Qed.

Lemma parse_one_short kept a rest off p c :
  skippable kept -> dash a = true -> dash (drop 1 a) = false -> read_char a (off + 1) = Ret c ->
  let s o := mk_parse (lib p) (argv0 :: kept ++ a :: rest) o in
  (find_short (flat t) c = None /\
   parse_one errlog posix is_early false (s off) = parse_err errlog argv0 a (length a) (lit "unrecognized option") (s off)) \/
  (exists i full e o, find_short (flat t) c = Some (i, full) /\ t !! i = Some e /\ take 2 o = full /\
   parse_one errlog posix is_early false (s off) =
     run_option errlog is_early argv0 (S (length kept)) a e o 2 no_arg (s (off + 1)%nat)).
Proof using Htable lib_table.
  intros Hk Ha Hd Hc s. unfold s. rewrite parse_one_at, Hd by (done || by intros ->). unfold bind, lift. rewrite Hc.
  destruct (first_sopt_stands t Htable) as (oc & Hf & Hs). rewrite Hf.
  assert (length (drop_until false (flat t)) <= names_fuel t)%nat as Hfuel.
  { etransitivity; [apply drop_until_le|apply flat_from_length]. }
  destruct (short_loop_spec (names_fuel t) t c oc (flat t) Htable Hs Hfuel) as (r & -> & Hr).
  destruct (find_short (flat t) c) as [[i full]|]; simpl in Hr; [right|left; by subst r].
  destruct Hr as (q & len & e & -> & Hi & _ & Ef). exists i, full, e, (drop (q - 1) (opt_names e)).
  rewrite Hi. done.
Qed.

(** An option without an argument, and one whose argument is known. *)
Lemma run_noarg kept fuel arg a e o len k p argv off :
  takes_arg e = false ->
  (forall p', agrees kept (continue fuel (parse_ok arg a no_arg) (mk_parse (lib p') argv off)) (k p')) ->
  agrees kept (continue fuel (run_option errlog is_early argv0 arg a e o len no_arg) (mk_parse (lib p) argv off))
    (spec_call e (take len o) (opt_cb e) k p).
Proof using lib_on_proc lib_proc.
  intros Ht Hk. unfold run_option. unfold takes_arg in Ht. apply negb_false_iff in Ht. rewrite Ht.
  by apply callback_agrees.
Qed.

(** Where the argument is found. *)
Lemma find_rest arg a c r l argv off :
  (0 < off)%nat -> drop (off + 1) a = c :: r -> c <> NUL ->
  find_optarg arg a no_arg (mk_parse l argv off) = (Ret (inline_arg (c :: r)), mk_parse (V := V) l argv 0).
Proof.
  intros Ho Hd Hc. unfold find_optarg, gets, bind, lift. cbn [pr_offset].
  rewrite (proj2 (Nat.eqb_neq off 0)), (read_in _ _ _ _ Hd), (bool_decide_false (c = NUL)), Hd by (done || lia). done.
Qed.

Lemma find_next kept a rest l off :
  off = O \/ (off + 1 = length a)%nat ->
  let s := mk_parse (V := V) l (argv0 :: kept ++ a :: rest) off in
  find_optarg (S (length kept)) a no_arg s = (Ret (match head rest with Some str => next_arg str | None => no_arg end), s).
Proof.
  intros Ho s. unfold s, find_optarg, gets, bind, lift. cbn [pr_offset].
  destruct (Nat.eqb_spec off 0) as [->|Hne].
  - unfold ret. cbn [pr_argv]. by rewrite argv_at_next.
  - destruct Ho as [->|Ho]; [done|]. rewrite (read_end a (off + 1)) by (rewrite ?drop_ge; (done || lia)).
    unfold ret. rewrite (bool_decide_true (NUL = NUL)) by done. cbn [negb pr_argv]. by rewrite argv_at_next.
Qed.

(** An option with an argument. *)
Lemma run_arg kept fuel arg a e o len oa str k p p' argv off oa' argv' off' :
  takes_arg e = true ->
  find_optarg arg a oa (mk_parse (lib p) argv off) = (Ret oa', mk_parse (lib p') argv' off') ->
  oa' = inline_arg str \/ oa' = next_arg str ->
  (forall q, agrees kept (continue fuel (parse_ok arg a oa') (mk_parse (lib q) argv' off')) (k q)) ->
  agrees kept (continue fuel (run_option errlog is_early argv0 arg a e o len oa) (mk_parse (lib p) argv off))
    (spec_call e (take len o) (opt_cb_arg e str) k p').
Proof using lib_on_proc lib_proc.
  intros Ht Hf Hoa Hk. unfold run_option. unfold takes_arg in Ht. apply negb_true_iff in Ht. rewrite Ht.
  pose proof (callback_agrees kept fuel e o len (opt_cb_arg e str) k p' argv' off' arg a oa' Hk) as H.
  unfold continue in H |- *. unfold bind at 1 2. rewrite Hf. by destruct Hoa as [-> | ->].
Qed.

Lemma run_missing kept fuel a e o len p off :
  takes_arg e = true -> off = O \/ (off + 1 = length a)%nat ->
  agrees kept
    (continue fuel (run_option errlog is_early argv0 (S (length kept)) a e o len no_arg)
      (mk_parse (lib p) (argv0 :: kept ++ [a]) off))
    (spec_err (take len o) (lit "requires an argument") p).
Proof using lib_on_proc lib_proc.
  intros Ht Ho. unfold run_option. unfold takes_arg in Ht. apply negb_true_iff in Ht. rewrite Ht.
  pose proof (err_agrees kept fuel o len (lit "requires an argument") p (argv0 :: kept ++ [a]) off) as H.
  unfold continue in H |- *. unfold bind at 1 2. by rewrite find_next.
Qed.

(** What is left of the arguments is parsed as specified. *)
Definition rest_agrees (rest : list cstr) : Prop := forall kept fuel p,
  skippable kept -> (parse_fuel rest <= fuel)%nat ->
  agrees kept (parse_all errlog fuel posix is_early false (mk_parse (lib p) (argv0 :: kept ++ rest) 0)) (parse_spec rest p).

Definition after_next (rest : list cstr) : M (process V) result :=
  match rest with _ :: rest' => parse_spec rest' | [] => crash end.

(** The string is done with: on to the rest. *)
Lemma done_agrees kept fuel a rest off oa p :
  skippable kept -> (match oa with next_arg _ => rest <> [] | _ => True end) -> off = O \/ (off + 1 = length a)%nat ->
  rest_agrees (match oa with next_arg _ => tail rest | _ => rest end) -> (parse_fuel rest < fuel)%nat ->
  agrees kept (continue fuel (parse_ok (S (length kept)) a oa) (mk_parse (lib p) (argv0 :: kept ++ a :: rest) off))
    (parse_spec (match oa with next_arg _ => tail rest | _ => rest end) p).
Proof.
  intros Hk Hoa Ho Hr Hf. destruct fuel as [|fuel]; [lia|]. rewrite (continue_one _ _ _ _ (ok_done _ _ _ _ _ _ Hoa Ho)).
  apply Hr; [done|]. destruct oa as [|str|str]; try lia. destruct rest as [|x rest]; [done|]. unfold parse_fuel in *. simpl in *. lia.
Qed.

Lemma letters_agree a rest kept letters :
  skippable kept -> dash a = true -> dash (drop 1 a) = false -> nonul a ->
  rest_agrees rest -> rest_agrees (tail rest) ->
  forall off fuel p, letters <> [] -> drop (off + 1) a = letters -> (length letters + parse_fuel rest <= fuel)%nat ->
  agrees kept (parse_all errlog fuel posix is_early false (mk_parse (lib p) (argv0 :: kept ++ a :: rest) off))
    (spec_letters a letters (head rest) (parse_spec rest) (after_next rest) p).
Proof using Htable lib_on_proc lib_proc lib_table.
  intros Hk Ha Hd Hn Hr Hr'. induction letters as [|c letters IH]; [done|]. intros off fuel p _ Hoff Hf. simpl in Hf.
  rewrite parse_all_continue. destruct (parse_one_short kept a rest off p c Hk Ha Hd (read_in _ _ _ _ Hoff)) as [[Hs Hone]|Hone].
  { cbn [spec_letters]. rewrite Hs. unfold continue, bind at 1. rewrite Hone.
    apply unknown_agrees. }
  destruct Hone as (i & full & e & o & Hs & Hi & Hfull & Hone). cbn [spec_letters]. rewrite Hs, Hi, <- Hfull.
  unfold continue, bind at 1. rewrite Hone.
  assert (drop (off + 1 + 1) a = letters) as Hnext by (by eapply drop_next).
  pose proof (f_equal length Hnext) as Hlen. rewrite length_drop in Hlen.
  pose proof (drop_cons_lt _ _ _ _ Hoff) as Hlt.
  destruct (takes_arg e) eqn:Ht.
  - destruct letters as [|d r].
    + simpl in Hlen. assert (off + 1 = O \/ off + 1 + 1 = length a)%nat as Ho by lia.
      destruct rest as [|str rest]; [by apply run_missing|]. eapply run_arg; [done|by apply find_next|by right|].
      intros q. apply (done_agrees kept fuel a (str :: rest) (off + 1) (next_arg str)); done.
    + eapply run_arg; [done|apply find_rest; [lia|exact Hnext|]|by left|].
      * assert (nonul (drop (off + 1 + 1) a)) as Hd' by (by apply Forall_drop). rewrite Hnext in Hd'. by inversion Hd'.
      * intros q. apply (done_agrees kept fuel a rest 0 (inline_arg (d :: r))); try done; [by left|simpl in *; lia].
  - apply run_noarg; [done|]. intros q. destruct letters as [|d r].
    + simpl in Hlen. apply (done_agrees kept fuel a rest (off + 1) no_arg); try done. right. lia.
    + simpl in Hlen. destruct fuel as [|fuel]; [lia|]. rewrite (continue_one _ _ _ _ (ok_more kept a rest (off + 1) _ ltac:(lia) ltac:(lia) Hn)).
      apply IH; [done|done|simpl in *; lia].
Qed.

(** A long option. *)
Lemma long_agrees a rest kept fuel e o len oa p :
  skippable kept -> rest_agrees rest -> rest_agrees (tail rest) -> (forall s, oa <> next_arg s) -> (parse_fuel rest < fuel)%nat ->
  agrees kept
    (continue fuel (run_option errlog is_early argv0 (S (length kept)) a e o len oa)
      (mk_parse (lib p) (argv0 :: kept ++ a :: rest) 0))
    ((if takes_arg e then
        match oa, rest with
        | inline_arg s, _ => spec_call e (take len o) (opt_cb_arg e s) (parse_spec rest)
        | _, s :: _ => spec_call e (take len o) (opt_cb_arg e s) (after_next rest)
        | _, [] => spec_err (take len o) (lit "requires an argument")
        end
      else
        match oa with
        | no_arg => spec_call e (take len o) (opt_cb e) (parse_spec rest)
        | _ => spec_err (take len o) (lit "doesn't allow an argument")
        end) p).
Proof using lib_on_proc lib_proc.
  intros Hk Hr Hr' Hoa Hf. destruct (takes_arg e) eqn:Ht.
  - destruct oa as [|str|str]; [|..|by destruct (Hoa str)].
    + destruct rest as [|str rest]; [apply run_missing; [done|by left]|].
      eapply run_arg; [done|apply find_next; by left|by right|].
      intros q. apply (done_agrees kept fuel a (str :: rest) 0 (next_arg str)); try done. by left.
    + eapply run_arg; [done|done|by left|]. intros q.
      apply (done_agrees kept fuel a rest 0 (inline_arg str)); try done. by left.
  - destruct oa as [|str|str]; [|..|by destruct (Hoa str)].
    + apply run_noarg; [done|]. intros q. apply (done_agrees kept fuel a rest 0 no_arg); try done. by left.
    + unfold run_option. unfold takes_arg in Ht. apply negb_false_iff in Ht. rewrite Ht. apply err_agrees.
Qed.

Lemma find_long_arg l a i full oa : find_long l a = Some (i, full, oa) -> forall s, oa <> next_arg s.
Proof.
  induction l as [|[j f] l IH]; [done|]. simpl. destruct (long_name f); [|done]. unfold match_long.
  destruct (bool_decide _); [by intros [= <- <- <-]|]. destruct (bool_decide _); [by intros [= <- <- <-]|done].
Qed.

(** No option is named by the terminator. *)
Lemma flat_good i x : x ∈ flat_from t i -> good_name x.2 = true /\ nonul x.2.
Proof using Htable.
  clear -Htable. revert i. induction Htable as [|e t' He Ht' IH]; intros i; [by intros ?%elem_of_nil|].
  simpl. rewrite elem_of_app. intros [Hx|Hx]; [|by eapply IH].
  apply list_elem_of_fmap in Hx as (full & -> & Hx). simpl. unfold entry_ok in He.
  destruct (is_subtable e) eqn:Es; [unfold entry_names in Hx; rewrite Es in Hx; by apply elem_of_nil in Hx|].
  destruct (He eq_refl) as (_ & Hok & Hnul). clear -Hok Hnul Hx.
  induction Hok as [c s _ Hg|c s rest l Hr Hg Hok IH].
  - apply elem_of_cons in Hx as [->|Hx]; [|by apply elem_of_nil in Hx]. split; [done|].
    apply Forall_cons in Hnul as [Hc Hs]. constructor; [done|]. by apply Forall_take.
  - apply Forall_cons in Hnul as [Hc Hs]. apply elem_of_cons in Hx as [->|Hx].
    + split; [done|]. constructor; [done|]. by apply Forall_take.
    + apply IH; [done|]. assert (nonul (drop (span_name s) s)) as H by (by apply Forall_drop). rewrite Hr in H. by inversion H.
Qed.

Lemma find_short_nul : find_short (flat t) NUL = None.
Proof using Htable.
  assert (forall x, x ∈ flat t -> good_name x.2 = true /\ nonul x.2) as H by (intros x; apply flat_good).
  clear -H. induction (flat t) as [|[i full] l IH]; [done|]. cbn [find_short].
  destruct (H (i, full) ltac:(left)) as [Hg Hn]. simpl in Hg, Hn. unfold good_name in Hg.
  destruct (long_name full); simpl; [apply IH; intros x Hx; apply H; by right|].
  apply Nat.eqb_eq in Hg. destruct full as [|x [|y [|]]]; try done. unfold nonul in Hn. rewrite !Forall_cons in Hn.
  unfold char_at. simpl. rewrite bool_decide_false by (by destruct Hn as (_ & ? & _); congruence).
  apply IH. intros z Hz. apply H. by right.
Qed.

Lemma agrees_kept kept a r (q : outcome result * process V) :
  agrees (kept ++ [a]) r q ->
  agrees kept r (bind (fun _ => q) (fun x => ret ((fun l => a :: l) <$> x)) (snd q)).
Proof.
  destruct q as [[[ops|]|e|] p]; simpl; try done. intros ->. by rewrite <- app_assoc.
Qed.

(** The loop and the specification agree on every list of arguments. *)
Lemma args_agree args : Forall nonul args -> rest_agrees args.
Proof using Htable lib_on_proc lib_proc lib_table.
  remember (length args) as n eqn:En. revert args En. induction n as [n IH] using lt_wf_ind. intros args -> Hn.
  destruct args as [|a rest]; intros kept fuel p Hk Hf.
  { rewrite parse_all_continue, app_nil_r. unfold continue, parse_one, gets, bind, lift. cbn [pr_argv pr_lib].
    assert ((if posix then 1%nat else find_option (drop 1 (argv0 :: kept)) 1) = length (argv0 :: kept)) as ->.
    { destruct Hk as [Hk Hp]. destruct posix; [by rewrite (Hp eq_refl)|].
      change (drop 1 (argv0 :: kept)) with kept. by rewrite find_option_none. }
    unfold argv_at. rewrite Nat.leb_refl, lookup_ge_None_2 by lia. simpl. by rewrite app_nil_r. }
  apply Forall_cons in Hn as [Ha Hn].
  assert (rest_agrees rest) as Hr by (apply (IH (length rest)); [simpl; lia|done|done]).
  assert (rest_agrees (tail rest)) as Hr'.
  { destruct rest as [|b rest]; [done|]. apply Forall_cons in Hn as [_ Hn]. apply (IH (length rest)); [simpl; lia|done|done]. }
  unfold parse_fuel in Hf. simpl in Hf. fold (parse_fuel rest) in Hf. cbn [parse_spec]. fold (after_next rest).
  destruct (dash a) eqn:Hd; cbn [negb].
  2: { destruct (decide (posix = true)) as [Ep|Ep].
       - rewrite parse_all_continue, (proj2 Hk Ep). unfold continue, parse_one, gets, bind, lift.
         cbn [pr_argv pr_lib app]. rewrite Ep. simpl. unfold dash in Hd. by rewrite Hd.
       - apply not_true_is_false in Ep. assert (forall A (x y : A), (if posix then x else y) = y) as -> by (intros; by rewrite Ep).
         specialize (Hr (kept ++ [a]) fuel p). rewrite <- app_assoc in Hr. cbn [app] in Hr.
         specialize (Hr ltac:(split; [apply Forall_app; split; [apply Hk|by constructor]|by rewrite Ep]) ltac:(lia)).
         apply agrees_kept in Hr. unfold bind in Hr |- *. by destruct (parse_spec rest p) as [[x|e|] p']. }
  destruct (decide (a = lit "--")) as [->|Hne].
  { rewrite bool_decide_true by done. rewrite parse_all_continue. unfold continue, parse_one, gets, bind, lift.
    cbn [pr_argv pr_lib]. rewrite option_index, argv_at_kept by done. simpl. by rewrite delete_middle. }
  rewrite (bool_decide_false (a = _)) by done. destruct (dash (drop 1 a)) eqn:Hd1.
  - rewrite parse_all_continue.
    destruct (parse_one_long kept a rest p Hk Hd Hne Hd1 Ha) as [[Hs Hone]|(i & full & oa & e & o & len & Hs & Hi & Hfull & Hone)].
    { rewrite Hs. unfold continue, bind at 1. rewrite Hone. apply unknown_agrees. }
    rewrite Hs, Hi, <- Hfull. unfold continue, bind at 1. rewrite Hone.
    apply long_agrees; try done; [by eapply find_long_arg|]. destruct a; [done|simpl in Hf; lia].
  - destruct (decide (drop 1 a = [])) as [E1|E1].
    + rewrite bool_decide_true by done. rewrite parse_all_continue.
      destruct (parse_one_short kept a rest 0 p NUL Hk Hd Hd1) as [[Hs Hone]|(i & full & e & o & Hs & _)].
      { apply read_end; [done|]. destruct a; [done|simpl; lia]. }
      * unfold continue, bind at 1. rewrite Hone. apply unknown_agrees.
      * by rewrite find_short_nul in Hs.
    + rewrite bool_decide_false by done. apply letters_agree; try done. rewrite length_drop. lia.
Qed.
End Spec.

(** ** Registered tables *)

Section Registered.
Context {V : Type}.

(** Running through a check that let the option pass. *)
Lemma failmsg_Ret {A} msg (l : opt_lib V) (a : A) l' : failmsg msg l <> (Ret a, l').
Proof. unfold failmsg, on_proc, bind, print_err, exit, modify, crash. simpl. by unfold bind. Qed.

Lemma good_from_check c s :
  (if bool_decide (char_at s = "-"%char) then span_name s <> 1%nat else span_name s = 1%nat) ->
  good_name (c :: take (span_name s) s) = true.
Proof.
  intros H. unfold good_name, long_name. change (drop 1 (c :: take (span_name s) s)) with (take (span_name s) s).
  pose proof (span_name_le s) as Hle.
  assert (span_name s <> O -> char_at (take (span_name s) s) = char_at s) as Hc.
  { destruct s; [done|]. by destruct (span_name _). }
  destruct (bool_decide (char_at s = _)) eqn:E.
  - assert (2 <= span_name s)%nat as H2.
    { destruct s as [|x s]; [done|]. apply bool_decide_eq_true in E. unfold char_at in E. simpl in E. subst x.
      simpl in *. lia. }
    rewrite Hc, E by lia. apply Nat.leb_le. simpl. rewrite length_take. lia.
  - rewrite Hc, E by lia. apply Nat.eqb_eq. simpl. rewrite length_take. lia.
Qed.

Lemma check_names_ok fuel (e : opt_entry V) pos c s l l' :
  drop pos (opt_names e) = c :: s -> nonul (opt_names e) ->
  check_names fuel e (Some ((pos + 1)%nat, span_name s)) l = (Ret tt, l') ->
  (exists ns, names_ok (c :: s) ns) /\ opt_table l' = opt_table l /\ l_proc l' = l_proc l.
Proof.
  revert pos c s l. induction fuel as [|fuel IH]; intros pos c s l Hd Hnul Hrun.
  all: cbn [check_names] in Hrun.
  all: apply bind_Ret in Hrun as (a & l1 & Hread & Hrun).
  all: assert (read_char (opt_names e) (pos + 1) = Ret (char_at s)) as Hc
    by (unfold read_char; rewrite (drop_next _ _ _ _ Hd), (proj2 (Nat.leb_le _ _)) by (pose proof (drop_cons_lt _ _ _ _ Hd); lia); done).
  all: unfold lift in Hread; rewrite Hc in Hread; injection Hread as <- <-.
  all: apply bind_Ret in Hrun as ([] & l2 & Hkind & Hrun).
  all: apply bind_Ret in Hrun as ([] & l3 & Hnoarg & Hrun).
  { done. }
  assert ((if bool_decide (char_at s = "-"%char) then span_name s <> 1%nat else span_name s = 1%nat) /\
    opt_table l2 = opt_table l /\ l_proc l2 = l_proc l) as (Hg & Et2 & Ep2).
  { destruct (bool_decide _); destruct (Nat.eqb_spec (span_name s) 1); simpl in Hkind;
      try (exfalso; exact (failmsg_Ret _ _ _ _ Hkind)); injection Hkind as <-; done. }
  apply (good_from_check c) in Hg.
  assert (opt_table l3 = opt_table l2 /\ l_proc l3 = l_proc l2) as [Et3 Ep3].
  { destruct (opt_type e =? OPT_NOARG); [|by injection Hnoarg as <-].
    apply bind_Ret in Hnoarg as (b & l4 & Hb & Hnoarg). unfold lift in Hb.
    destruct (read_char _ _); try done. injection Hb as <- <-.
    destruct (_ || _); [exfalso; exact (failmsg_Ret _ _ _ _ Hnoarg)|by injection Hnoarg as <-]. }
  apply bind_Ret in Hrun as (c' & l4 & Hnext & Hrun). unfold lift in Hnext. injection Hnext as Hnext <-.
  assert (drop (pos + 1 + span_name s) (opt_names e) = drop (span_name s) s) as Eds.
  { rewrite <- drop_drop. by rewrite (drop_next _ _ _ _ Hd). }
  assert (nonul s) as Hs.
  { assert (nonul (drop pos (opt_names e))) as H by (by apply Forall_drop). rewrite Hd in H. by inversion H. }
  unfold next_name in Hnext. destruct (read_char _ _) as [x| |] eqn:Ex; try done.
  unfold read_char in Ex. destruct (_ <=? _)%nat; [|done]. injection Ex as Ex. rewrite Eds in Ex.
  destruct (_ || _) eqn:Eo.
  - injection Hnext as <-. assert (l' = l3) as -> by (by destruct fuel; injection Hrun). split; [|by rewrite Et3, Et2, Ep3, Ep2].
    eexists. apply names_last; [|done]. destruct (drop (span_name s) s) as [|y r]; [done|]. simpl. intros [= ->].
    unfold char_at in Ex. simpl in Ex. by subst x.
  - destruct (first_name _ _) as [[p' len']| |] eqn:Ef; try done. injection Hnext as <-.
    unfold first_name in Ef. destruct (Nat.leb_spec (pos + 1 + span_name s + 1 + 1) (length (opt_names e))) as [Hl|]; [|done].
    injection Ef as <- <-.
    destruct (drop (span_name s) s) as [|y r] eqn:Ed.
    { unfold char_at in Ex. simpl in Ex. subst x. done. }
    unfold char_at in Ex. simpl in Ex. subst y.
    assert (x = "|"%char) as ->.
    { pose proof (span_name_stop s x) as Hst. rewrite Ed in Hst. specialize (Hst eq_refl). unfold is_sep in Hst.
      apply bool_decide_eq_true in Hst. apply orb_false_iff in Eo as [[Eo1 Eo2]%orb_false_iff _].
      apply bool_decide_eq_false in Eo1, Eo2. apply elem_of_cons in Hst as [->|Hst]; [done|].
      apply elem_of_cons in Hst as [->|Hst]; [done|]. apply elem_of_cons in Hst as [->|Hst]; [done|].
      by apply elem_of_nil in Hst. }
    assert (drop (pos + 1 + span_name s + 1) (opt_names e) = r) as Er by (by eapply drop_next).
    destruct r as [|c2 s2]; [apply (f_equal length) in Er; rewrite length_drop in Er; simpl in Er; lia|].
    rewrite (drop_next _ _ _ _ Er) in Hrun. apply (IH _ c2 s2) in Hrun as ((ns & Hns) & Et4 & Ep4); [|done|done].
    split; [|by rewrite Et4, Ep4, Et3, Et2, Ep3, Ep2]. eexists. by eapply names_more.
Qed.

Lemma check_opt_ok (e : opt_entry V) l l' :
  nonul (opt_names e) -> check_opt e l = (Ret tt, l') ->
  entry_ok e /\ opt_table l' = opt_table l /\ l_proc l' = l_proc l.
Proof.
  intros Hnul Hrun. unfold check_opt in Hrun.
  destruct (_ && _) eqn:Et; [exfalso; exact (failmsg_Ret _ _ _ _ Hrun)|].
  destruct (bool_decide _); [exfalso; exact (failmsg_Ret _ _ _ _ Hrun)|].
  destruct (negb (bool_decide _)); [exfalso; exact (failmsg_Ret _ _ _ _ Hrun)|].
  apply bind_Ret in Hrun as ([p len] & l1 & Hf & Hrun). unfold lift in Hf. injection Hf as Hf <-.
  unfold first_name in Hf. destruct (opt_names e) as [|c s] eqn:En; [done|]. injection Hf as <- <-.
  apply (check_names_ok _ e 0 c s) in Hrun as ((ns & Hns) & H1 & H2); [|by rewrite En|by rewrite En].
  split; [|done]. intros Hsub. split_and!; [| |by rewrite En].
  - unfold valid_type. rewrite !andb_false_iff, !negb_false_iff, !Z.eqb_eq in Et. rewrite !elem_of_cons. tauto.
  - unfold entry_names. rewrite Hsub, En. by rewrite (names_ok_list _ _ _ Hns).
Qed.

(** Strings have no terminator in them. *)
Fixpoint strings_ok (es : client_table V) : Prop :=
  match es with
  | OPT_ENDTABLE => True
  | table_opt e es' => nonul (opt_names e) /\ strings_ok es'
  | table_sub sub _ es' => strings_ok sub /\ strings_ok es'
  end.

Lemma with_heading_ok desc m (l l' : opt_lib V) :
  (forall l l', m l = (Ret tt, l') -> table_ok (opt_table l) -> table_ok (opt_table l') /\ l_proc l' = l_proc l) ->
  with_heading desc m l = (Ret tt, l') -> table_ok (opt_table l) -> table_ok (opt_table l') /\ l_proc l' = l_proc l.
Proof.
  intros Hm Hrun Hl. unfold with_heading in Hrun. apply bind_Ret in Hrun as (l0 & l1 & [= <- <-] & Hrun).
  assert (forall (l1 : opt_lib V), table_ok (opt_table l1) -> table_ok (opt_table l1 ++ [heading desc])) as Hh.
  { intros l1 H1. apply Forall_app. split; [done|]. by repeat constructor. }
  assert (forall start n (t : list (opt_entry V)), table_ok t -> table_ok (alter (set_tlen n) start t)) as Ha.
  { intros start n t Ht. apply Forall_alter; [done|]. intros x _ Hx. exact Hx. }
  destruct desc; [by apply Hm|..];
    (apply bind_Ret in Hrun as ([] & l2 & [= <-] & Hrun); apply bind_Ret in Hrun as ([] & l3 & Hrun & [= <-]);
     apply Hm in Hrun as [H1 H2]; [|by apply Hh]; split; [by apply Ha|done]).
Qed.

Lemma register_entries_ok es (l l' : opt_lib V) :
  strings_ok es -> register_entries es l = (Ret tt, l') -> table_ok (opt_table l) ->
  table_ok (opt_table l') /\ l_proc l' = l_proc l.
Proof.
  revert l l'. induction es as [|e es IH|sub IHs desc es IH]; intros l l' Hs Hrun Hl; simpl in Hs.
  - by injection Hrun as <-.
  - destruct Hs as [He Hs]. cbn [register_entries] in Hrun. apply bind_Ret in Hrun as ([] & l1 & Hc & Hrun).
    apply bind_Ret in Hrun as ([] & l2 & [= <-] & Hrun). apply check_opt_ok in Hc as (Hok & Et & Ep); [|done].
    apply IH in Hrun as [H1 H2]; [|done|]; [by rewrite H2|]. simpl. rewrite Et. apply Forall_app. split; [done|by constructor].
  - destruct Hs as [Hs1 Hs2]. cbn [register_entries] in Hrun. apply bind_Ret in Hrun as ([] & l1 & Hc & Hrun).
    apply with_heading_ok in Hc as [H1 H2]; [|intros; by eapply IHs|done].
    apply IH in Hrun as [H3 H4]; [|done|done]. by rewrite H4, H2.
Qed.
End Registered.

(** ** Properties *)

Section Properties.
Context {V : Type} (errlog : cstr -> M (process V) unit).

(** The variables of the library with the process at hand. *)
Definition lib_with (l : opt_lib V) (argv0 : cstr) (p : process V) : opt_lib V :=
  mk_lib (opt_table l) (opt_num_short l) (opt_num_short_arg l) (opt_num_long l) (Some argv0) p.

Lemma registered_agrees es desc l0 l posix is_early argv0 args :
  opt_table l0 = [] -> strings_ok es -> opt_register_table es desc l0 = (Ret tt, l) -> Forall nonul args ->
  agrees argv0 (lib_with l argv0) [] (parse_all errlog (parse_fuel (argv0 :: args)) posix is_early false
    (mk_parse (lib_with l argv0 (l_proc l)) (argv0 :: args) 0)) (parse_spec errlog (opt_table l) posix is_early argv0 args (l_proc l)).
Proof.
  intros H0 Hs Hreg Hn.
  assert (table_ok (opt_table l)) as Ht.
  { unfold opt_register_table in Hreg. eapply with_heading_ok; [|exact Hreg|by rewrite H0; constructor].
    intros. by eapply register_entries_ok. }
  apply (args_agree errlog (opt_table l) posix is_early argv0 Ht (lib_with l argv0) (fun _ => eq_refl) (fun _ => eq_refl)
    (fun A m p => eq_refl) args Hn [] (parse_fuel (argv0 :: args)) (l_proc l)); [by split|].
  unfold parse_fuel. simpl. lia.
Qed.

(** [opt_parse] is the loop, from the first argument on. *)
Lemma opt_parse_loop posix l argv0 args off :
  opt_parse errlog posix (mk_parse l (argv0 :: args) off) =
    bind (parse_all errlog (parse_fuel (argv0 :: args)) posix 0 false) (fun r => ret (r =? 0))
      (mk_parse (lib_with l argv0 (l_proc l)) (argv0 :: args) 0).
Proof. done. Qed.

(** C34. [opt_parse] on a registered table does what [parse_spec] says, for any
    arguments, callbacks and error function: it ends, it never reads out of
    bounds, it calls back for the options from left to right, stops at the first
    problem, and on success leaves the operands, in order, in [argv].  If a
    callback ends the process, so do both. *)
Theorem opt_parse_correct es desc l0 l posix argv0 args off :
  opt_table l0 = [] -> strings_ok es -> opt_register_table es desc l0 = (Ret tt, l) -> Forall nonul args ->
  let run := opt_parse errlog posix (mk_parse l (argv0 :: args) off) in
  match parse_spec errlog (opt_table l) posix 0 argv0 args (l_proc l) with
  | (Ret (Some operands), p) => run = (Ret true, mk_parse (lib_with l argv0 p) (argv0 :: operands) 0)
  | (Ret None, p) => exists s, run = (Ret false, s) /\ l_proc (pr_lib s) = p
  | (Fail e, p) => exists s, run = (Fail e, s) /\ l_proc (pr_lib s) = p
  | (Crash, p) => exists s, run = (Crash, s) /\ l_proc (pr_lib s) = p
  end.
Proof.
  intros H0 Hs Hreg Hn run. pose proof (registered_agrees es desc l0 l posix 0 argv0 args H0 Hs Hreg Hn) as H.
  unfold run. rewrite opt_parse_loop. unfold bind. destruct (parse_spec _ _ _ _ _ _ _) as [[[ops|]|e|] p]; cbn [agrees app] in H.
  - by rewrite H.
  - destruct H as (s & -> & Hp). by exists s.
  - destruct H as (s & -> & Hp). by exists s.
  - destruct H as (s & -> & Hp). by exists s.
Qed.

(** [opt_early_parse] does the same for the early options, and leaves the arguments
    as they were. *)
Lemma opt_early_parse_correct es desc l0 l posix argv0 args off :
  opt_table l0 = [] -> strings_ok es -> opt_register_table es desc l0 = (Ret tt, l) -> Forall nonul args ->
  let run := opt_early_parse errlog posix (mk_parse l (argv0 :: args) off) in
  match parse_spec errlog (opt_table l) posix OPT_EARLY argv0 args (l_proc l) with
  | (Ret (Some _), p) => run = (Ret true, mk_parse (lib_with l argv0 p) (argv0 :: args) 0)
  | (Ret None, p) => exists s, run = (Ret false, s) /\ l_proc (pr_lib s) = p
  | (Fail e, p) => exists s, run = (Fail e, s) /\ l_proc (pr_lib s) = p
  | (Crash, p) => exists s, run = (Crash, s) /\ l_proc (pr_lib s) = p
  end.
Proof.
  intros H0 Hs Hreg Hn run. pose proof (registered_agrees es desc l0 l posix OPT_EARLY argv0 args H0 Hs Hreg Hn) as H.
  unfold run, opt_early_parse, early_parse, set_offset, set_argv0, gets, bind, modify.
  cbn [pr_lib pr_argv pr_offset app lookup list_lookup].
  unfold lib_with in H at 2. destruct (parse_spec _ _ _ _ _ _ _) as [[[ops|]|e|] p]; cbn [agrees app] in H.
  - by rewrite H.
  - destruct H as (s & -> & Hp). eexists. split; [done|exact Hp].
  - destruct H as (s & -> & Hp). by exists s.
  - destruct H as (s & -> & Hp). by exists s.
Qed.
End Properties.

(** What is left after parsing: if no argument is "--" and operands do not end the
    options, no operand looks like an option. *)
Lemma spec_operands {V} (errlog : cstr -> M (process V) unit) t is_early argv0 args p ops p' :
  lit "--" ∉ args -> parse_spec errlog t false is_early argv0 args p = (Ret (Some ops), p') ->
  ops `sublist_of` args /\ Forall (fun a => dash a = false) ops.
Proof.
  assert (forall text problem p, spec_err errlog argv0 text problem p <> (Ret (Some ops), p')) as Herr.
  { intros text problem q. unfold spec_err, bind, ret. by destruct (errlog _ q) as [[] ?]. }
  assert (forall e full cb (k : M (process V) result) q ops0, spec_call errlog is_early argv0 e full cb k q = (Ret (Some ops0), p') ->
    exists q', k q' = (Ret (Some ops0), p')) as Hcall.
  { intros e full cb k q ops0 H. unfold spec_call in H. apply bind_Ret in H as ([why|] & q' & _ & H); [|eauto].
    unfold spec_err, bind, ret in H. by destruct (errlog _ _) as [[] ?]. }
  remember (length args) as n eqn:En. revert args En p ops Herr.
  induction n as [n IH] using lt_wf_ind. intros args -> p ops Herr Hn Hrun.
  destruct args as [|a rest]; [injection Hrun as <- <-; split; [done|constructor]|].
  assert (forall q, parse_spec errlog t false is_early argv0 rest q = (Ret (Some ops), p') ->
    ops `sublist_of` a :: rest /\ Forall (fun a => dash a = false) ops) as Hk.
  { intros q Hq. apply not_elem_of_cons in Hn as [_ Hn].
    destruct (IH (length rest) ltac:(simpl; lia) rest eq_refl q ops Herr Hn Hq) as [H1 H2]. split; [by apply sublist_cons|done]. }
  assert (forall q, match rest with _ :: rest' => parse_spec errlog t false is_early argv0 rest' | [] => crash end q =
    (Ret (Some ops), p') -> ops `sublist_of` a :: rest /\ Forall (fun a => dash a = false) ops) as Hk2.
  { intros q Hq. destruct rest as [|b rest]; [done|]. apply not_elem_of_cons in Hn as [_ [_ Hn]%not_elem_of_cons].
    destruct (IH (length rest) ltac:(simpl; lia) rest eq_refl q ops Herr Hn Hq) as [H1 H2].
    split; [by do 2 apply sublist_cons|done]. }
  cbn [parse_spec] in Hrun. destruct (dash a) eqn:Ha; simpl in Hrun.
  2: { apply bind_Ret in Hrun as ([ops'|] & q & Hrun & [= <- <-]). apply not_elem_of_cons in Hn as [_ Hn].
       destruct (IH (length rest) ltac:(simpl; lia) rest eq_refl p ops') as [H1 H2]; [|done|done|].
       - intros text problem q'. unfold spec_err, bind, ret. by destruct (errlog _ q') as [[] ?].
       - split; [by apply sublist_skip|by constructor]. }
  destruct (decide (a = lit "--")) as [->|Hne]; [by destruct Hn; left|].
  rewrite (bool_decide_false (a = _)) in Hrun by done. destruct (dash (drop 1 a)).
  - destruct (find_long _ _) as [[[i full] oa]|]; [|by apply Herr in Hrun]. destruct (t !! i) as [e|]; [|done].
    destruct (takes_arg e).
    + destruct oa, rest; try (by apply Herr in Hrun); apply Hcall in Hrun as [q Hrun]; eauto.
    + destruct oa; try (by apply Herr in Hrun); apply Hcall in Hrun as [q Hrun]; eauto.
  - destruct (bool_decide _); [by apply Herr in Hrun|]. revert Hrun. generalize (drop 1 a) as letters.
    intros letters. revert p. induction letters as [|c letters IHl]; intros p Hrun; [by eapply Hk|]. cbn [spec_letters] in Hrun.
    destruct (find_short _ _) as [[i full]|]; [|by apply Herr in Hrun]. destruct (t !! i) as [e|]; [|done].
    destruct (takes_arg e); [destruct letters, (head rest); try (by apply Herr in Hrun)|];
      apply Hcall in Hrun as [q Hrun]; eauto.
Qed.

(** ** A table, and names the checks let pass *)

Definition demo_opts : client_table (bool * option cstr) :=
  table_opt (mk_opt (lit "-v|--verbose") OPT_NOARG (on_var fst (fun x v => (x, snd v)) opt_set_bool) (fun _ => ret None)
    None None 0 (desc_text (lit "verbose")))
  (table_opt (mk_opt (lit "-d|--device BDF") OPT_HASARG (ret None)
    (fun a => on_var snd (fun x v => (fst v, x)) (opt_set_charp a)) None None 0 (desc_text (lit "device")))
  OPT_ENDTABLE).
Definition demo_lib : opt_lib (bool * option cstr) := mk_lib [] 0 0 0 None (mk_process [] [] None (false, None)).
Definition demo_table : opt_lib (bool * option cstr) := snd (opt_register_table demo_opts (desc_text (lit "Options")) demo_lib).
Definition demo_log (msg : cstr) : M (process (bool * option cstr)) unit := print_err (msg ++ [newline]).
Definition demo_args : list cstr := lit <$> ["a"; "-vd"; "-x"; "--device=y"; "b"]%string.

Lemma opt_parse_correct_witness :
  exists l, opt_parse demo_log false (mk_parse demo_table (lit "prog" :: demo_args) 0) =
    (Ret true, mk_parse l [lit "prog"; lit "a"; lit "b"] 0) /\ p_vars (l_proc l) = (true, Some (lit "y")).
Proof.
  pose proof (opt_parse_correct demo_log demo_opts (desc_text (lit "Options")) demo_lib demo_table false (lit "prog") demo_args 0
    eq_refl ltac:(vm_compute; repeat constructor; discriminate) ltac:(vm_compute; reflexivity)
    ltac:(vm_compute; repeat constructor; discriminate)) as H. cbv zeta in H.
  destruct (parse_spec demo_log (opt_table demo_table) false 0 (lit "prog") demo_args (l_proc demo_table)) as [o p] eqn:E.
  vm_compute in E. injection E as <- <-. eexists. split; [exact H|reflexivity].
Defined.

(** Ignoring unknown options, a lone dash is read past its end. *)
Lemma lone_dash_overread :
  let r := opt_early_parse_incomplete demo_log false (mk_parse demo_table [lit "prog"; lit "-"] 0) in
  fst r = Crash /\ p_status (l_proc (pr_lib (snd r))) = None.
Proof. split; vm_compute; reflexivity. Qed.

(** Only the first name is checked for a dash: the character before the others is
    skipped, whatever it is. *)
Lemma undashed_name_accepted :
  fst (check_opt (mk_opt (lit "-a|bc") OPT_NOARG (ret None) (fun _ => ret None) None None 0 (desc_text (lit "d"))) demo_lib) = Ret tt.
Proof. vm_compute. reflexivity. Qed.

(** A separator at the end is followed by a read past the terminator. *)
Lemma trailing_separator_overread :
  let r := check_opt (mk_opt (lit "-a|") OPT_NOARG (ret None) (fun _ => ret None) None None 0 (desc_text (lit "d"))) demo_lib in
  fst r = Crash /\ p_status (l_proc (snd r)) = None.
Proof. split; vm_compute; reflexivity. Qed.
