(* ===== verification/OptUsage.v ===== *)
(** * OptUsage: the usage message, ccan/opt/usage.c

    The message is built in a buffer that is reallocated as it grows; a write past
    its end, or a read outside a string, is undefined and ends the computation.
    Columns are given by the environment or by the terminal. *)

From Stdlib Require String.
From S2P Require Import Prelude CStr OptHelpers Opt OptSpec.
Local Open Scope Z_scope.
Local Open Scope vfn_scope.

Definition MIN_DESC_WIDTH : Z := 40.
Definition MIN_TOTAL_WIDTH : Z := 50.

(** [env] is the variable COLUMNS, [window] the width the terminal reports, if it
    can be asked. *)
Definition get_columns (env : option cstr) (window : option Z) : Z :=
  let ws_col := match env with Some s => atoi s | None => 0 end in
  let ws_col := if ws_col =? 0 then default 0 window else ws_col in
  let ws_col := if ws_col =? 0 then 80 else ws_col in
  u32 ws_col.

(** ** Words *)

(** [strspn] and [strcspn] for a set of characters *)
Fixpoint strspn (P : ascii -> bool) (s : cstr) : nat :=
  match s with
  | c :: s' => if P c then S (strspn P s') else 0
  | [] => 0
  end.
Definition strcspn (P : ascii -> bool) (s : cstr) : nat := strspn (fun c => negb (P c)) s.

Definition is_space (c : ascii) : bool := bool_decide (c = " "%char).
Definition is_newline (c : ascii) : bool := bool_decide (c = newline).
Definition is_blank (c : ascii) : bool := is_space c || is_newline c.

(** The [while] loop over words. *)
Fixpoint words_loop (fuel : nat) (words : cstr) (maxlen : Z) (len oldlen : nat) : outcome nat :=
  if maxlen <? Z.of_nat len then Ret oldlen
  else
    let oldlen := len in
    let len := (len + strspn is_space (drop len words))%nat in
    if is_newline (char_at (drop len words)) then Ret oldlen
    else
      let len := (len + strcspn is_blank (drop len words))%nat in
      if (len =? oldlen)%nat then Ret oldlen
      else
        match fuel with
        | O => Crash
        | S fuel' => words_loop fuel' words maxlen len oldlen
        end.

(** [p] is the position in [desc].  The number of characters for the line, the
    number to skip before them, and whether a line of the description starts after
    them. *)
Definition consume_words (desc : cstr) (p : nat) (maxlen : Z) (start : bool) : outcome (nat * nat * bool) :=
  let words := drop p desc in
  let prefix := strspn is_blank words in
  let words := drop prefix words in
  let oldlen :=
    if start && negb (prefix =? 0)%nat then Ret (strcspn is_newline words)
    else let len := strcspn is_space words in words_loop (length words) words maxlen len len in
  match oldlen with
  | Ret oldlen =>
      (* words[oldlen - 1] *)
      if (p + prefix + oldlen =? 0)%nat then Crash
      else Ret (oldlen, prefix, is_newline (char_at (drop (p + prefix + oldlen - 1) desc)))
  | _ => Crash
  end.

(** ** The buffer *)

(** The characters written and the size of the allocation. *)
Record text : Type := mk_text { t_str : cstr; t_max : nat }.

(** Room for [n] more characters and a terminator. *)
Definition grow (n : nat) (b : text) : text :=
  if (t_max b - length (t_str b) <=? n)%nat then mk_text (t_str b) (t_max b * 2 + n + 1) else b.

(** [memcpy] or [memset] at the end of what was written. *)
Definition append (s : cstr) : M text unit := fun b =>
  if (length (t_str b) + length s <=? t_max b)%nat then (Ret tt, mk_text (t_str b ++ s) (t_max b)) else (Crash, b).

Definition add_str_len (str : cstr) (slen : nat) : M text unit :=
  do* modify (grow slen) in
  if (slen <=? length str)%nat then append (take slen str) else crash.
Definition add_str (str : cstr) : M text unit := add_str_len str (length str).
Definition add_indent (indent : nat) : M text unit :=
  do* modify (grow indent) in append (replicate indent " "%char).

(** [( *len)--] *)
Definition drop_last : M text unit := fun b =>
  match t_str b with
  | [] => (Crash, b)
  | _ => (Ret tt, mk_text (removelast (t_str b)) (t_max b))
  end.

(** ** Descriptions *)

(** The buffer of a shower, with "..." after its end. *)
Definition shown (s : cstr) : cstr := if (length s <? OPT_SHOW_LEN)%nat then s else take OPT_SHOW_LEN s ++ lit "...".

Definition has_char (P : ascii -> bool) (s : cstr) : bool := existsb P s.
Definition names_arg (names : cstr) : bool :=
  negb (has_char is_space names) && negb (has_char (fun c => bool_decide (c = "="%char)) names).

(** The loop over the lines of a description: [same_line] and the column after the
    last one. *)
Fixpoint desc_loop (fuel : nat) (desc : cstr) (indent : nat) (maxlen : Z) (p off : nat) (same_line start : bool)
    : M text (bool * nat) :=
  let* (l, prefix, start') := lift (consume_words desc p maxlen start) in
  if (l =? 0)%nat then ret (same_line, off)
  else
    do* (if same_line then ret tt else add_indent indent) in
    do* add_str_len (drop (p + prefix) desc) l in
    do* add_str [newline] in
    match fuel with
    | O => crash
    | S fuel' => desc_loop fuel' desc indent maxlen (p + prefix + l) (indent + l) false start'
    end.

Section Usage.
Context {V : Type} (vars : V).

Definition add_desc (indent : nat) (width : Z) (e : opt_entry V) : M text unit :=
  let names := opt_names e in
  do* add_str names in
  let arg := negb (Z.land (opt_type e) OPT_HASARG =? 0) && names_arg names in
  do* (if arg then add_str (lit " <arg>") else ret tt) in
  let off := (length names + if arg then length (lit " <arg>") else 0)%nat in
  let same_line := negb (indent <? off + 2)%nat in
  do* (if same_line then add_indent (indent - off) else add_str [newline]) in
  let off := if same_line then indent else 0%nat in
  match opt_desc e with
  | desc_text desc =>
      let* (same_line, off) := desc_loop (length desc) desc indent (width - Z.of_nat indent) 0 off same_line true in
      do* (if same_line : bool then add_str [newline] else ret tt) in
      match opt_show e with
      | None => ret tt
      | Some show =>
          let buf := shown (show vars) in
          let needed := (off + length (lit " (default: ") + length buf + length (lit ")"))%nat in
          do* (if width <? Z.of_nat needed then add_indent indent else drop_last) in
          do* add_str (lit " (default: ") in
          do* add_str buf in
          add_str (lit ")" ++ [newline])
      end
  | _ => crash
  end.

(** The longest names, with the room for " <arg>". *)
Definition name_width (e : opt_entry V) : nat :=
  (length (opt_names e) +
   if ((opt_type e =? OPT_HASARG)%Z && names_arg (opt_names e)) then length (lit " <arg>") else 0)%nat.

Definition hidden (e : opt_entry V) : bool := bool_decide (opt_desc e = opt_hidden).

Definition indent_for (t : list (opt_entry V)) : nat :=
  foldl (fun indent e =>
    if hidden e || is_subtable e then indent
    else if (indent <? name_width e + 2)%nat then (name_width e + 2)%nat else indent) 0%nat t.

Fixpoint find_extra (t : list (opt_entry V)) : cstr :=
  match t with
  | [] => []
  | e :: t' => match opt_extra e with Some s => s | None => find_extra t' end
  end.

Fixpoint add_entries (indent : nat) (width : Z) (t : list (opt_entry V)) : M text unit :=
  match t with
  | [] => ret tt
  | e :: t' =>
      do* (if hidden e then ret tt
           else if is_subtable e then
             match opt_desc e with
             | desc_text s => do* add_str s in add_str (lit ":" ++ [newline])
             | _ => crash
             end
           else add_desc indent width e) in
      add_entries indent width t'
  end.

Definition usage_text (env : option cstr) (window : option Z) (t : list (opt_entry V)) (argv0 : cstr) (extra : option cstr)
    : M text unit :=
  let width := get_columns env window in
  let width := if width <? MIN_TOTAL_WIDTH then MIN_TOTAL_WIDTH else width in
  let indent := indent_for t in
  let indent := if width <? Z.of_nat indent + MIN_DESC_WIDTH then Z.to_nat (width - MIN_DESC_WIDTH) else indent in
  do* add_str (lit "Usage: ") in
  do* add_str argv0 in
  let extra := match extra with Some s => s | None => find_extra t end in
  do* add_str (lit " ") in
  do* add_str extra in
  do* add_str [newline] in
  add_entries indent width t.

(** [ret[len] = 0] is the last write. *)
Definition opt_usage (env : option cstr) (window : option Z) (t : list (opt_entry V)) (argv0 : cstr) (extra : option cstr)
    : outcome cstr :=
  match usage_text env window t argv0 extra (mk_text [] 0) with
  | (Ret _, b) => if (length (t_str b) <? t_max b)%nat then Ret (t_str b) else Crash
  | (Fail e, _) => Fail e
  | (Crash, _) => Crash
  end.
End Usage.

(** ** Words are kept *)

(** What is not layout. *)
Definition ink (s : cstr) : cstr := filter (fun c => is_blank c = false) s.

Lemma ink_app a b : ink (a ++ b) = ink a ++ ink b.
Proof. apply filter_app. Qed.

Lemma ink_blank s : Forall (fun c => is_blank c = true) s -> ink s = [].
Proof.
  induction 1 as [|c s Hc _ IH]; [done|]. unfold ink in *. rewrite filter_cons_False; [done|]. by rewrite Hc.
Qed.

Lemma strspn_le P s : (strspn P s <= length s)%nat.
Proof. induction s as [|c s IH]; [done|]. simpl. destruct (P c); simpl; lia. Qed.

Lemma strspn_all P s : Forall (fun c => P c = true) (take (strspn P s) s).
Proof. induction s as [|c s IH]; [by constructor|]. simpl. destruct (P c) eqn:E; simpl; [by constructor|by constructor]. Qed.

Lemma strspn_stop P s c r : drop (strspn P s) s = c :: r -> P c = false.
Proof.
  induction s as [|d s IH]; [done|]. simpl. destruct (P d) eqn:E; simpl; [exact IH|]. intros [= <- <-]. done.
Qed.

(** A word that does not start with a character of the set is not empty. *)
Lemma strcspn_pos P c r : P c = false -> (1 <= strcspn P (c :: r))%nat.
Proof. intros H. unfold strcspn. simpl. rewrite H. simpl. lia. Qed.

Lemma words_loop_ok fuel words maxlen len oldlen :
  (len <= length words)%nat -> (oldlen <= length words)%nat -> (length words - len <= fuel)%nat ->
  exists r, words_loop fuel words maxlen len oldlen = Ret r /\ (r <= length words)%nat /\
    ((1 <= len)%nat -> (1 <= oldlen)%nat -> (1 <= r)%nat).
Proof.
  revert len oldlen. induction fuel as [|fuel IH]; intros len oldlen Hl Ho Hf.
  all: cbn [words_loop]; destruct (maxlen <? Z.of_nat len); [by exists oldlen|].
  all: set (l1 := (len + strspn is_space (drop len words))%nat).
  all: destruct (is_newline _); [by exists len|].
  all: set (l2 := (l1 + strcspn is_blank (drop l1 words))%nat).
  all: assert (l2 <= length words)%nat as Hl2 by
    (pose proof (strspn_le is_space (drop len words)) as H1; pose proof (strspn_le (fun c => negb (is_blank c)) (drop l1 words)) as H2;
     unfold l2, strcspn; rewrite length_drop in *; lia).
  all: destruct (Nat.eqb_spec l2 len) as [E|E]; [by exists len|].
  - unfold l2, l1 in *. lia.
  - destruct (IH l2 len) as (r & Hr & Hle & Hpos); [done|lia|unfold l2, l1 in *; lia|]. exists r. split; [done|]. split; [done|].
    intros H1 H2. apply Hpos; [unfold l2, l1; lia|done].
Qed.

(** A line takes blanks and then at least one character, unless nothing is left. *)
Lemma consume_words_ok desc p maxlen start :
  desc <> [] -> (p <= length desc)%nat ->
  exists l prefix start', consume_words desc p maxlen start = Ret (l, prefix, start') /\
    (p + prefix + l <= length desc)%nat /\ ink (take prefix (drop p desc)) = [] /\
    (l = O -> drop (p + prefix) desc = []).
Proof.
  intros Hne Hp. unfold consume_words. set (words := drop p desc). set (prefix := strspn is_blank words).
  set (w := drop prefix words).
  assert (length w = length desc - p - prefix)%nat as Hw by (unfold w, words; rewrite !length_drop; lia).
  pose proof (strspn_le is_blank words) as Hple. fold prefix in Hple.
  assert (length words = length desc - p)%nat as Hwords by (unfold words; by rewrite length_drop).
  assert (exists r, (if start && negb (prefix =? 0)%nat then Ret (strcspn is_newline w)
      else words_loop (length w) w maxlen (strcspn is_space w) (strcspn is_space w)) = Ret r /\ (r <= length w)%nat /\
      (r = O -> w = [])) as (r & -> & Hr & H0).
  { assert (forall c r, w = c :: r -> is_blank c = false) as Hhead by (intros c r; apply strspn_stop).
    destruct (_ && _).
    - eexists. split; [done|]. split; [apply strspn_le|]. destruct w as [|c w']; [done|].
      specialize (Hhead c w' eq_refl). apply orb_false_iff in Hhead as [_ Hn]. pose proof (strcspn_pos is_newline c w' Hn). lia.
    - pose proof (strspn_le (fun c => negb (is_space c)) w) as Hle.
      destruct (words_loop_ok (length w) w maxlen (strcspn is_space w) (strcspn is_space w)) as (r & Er & Hrl & Hpos);
        [done|done|lia|]. exists r. split; [done|]. split; [done|]. destruct w as [|c w']; [done|].
      specialize (Hhead c w' eq_refl). apply orb_false_iff in Hhead as [Hn _]. pose proof (strcspn_pos is_space c w' Hn). lia. }
  destruct (Nat.eqb_spec (p + prefix + r) 0) as [E|E].
  { exfalso. apply Hne. assert (r = O) as E0 by lia. specialize (H0 E0). apply length_zero_iff_nil.
    apply (f_equal length) in H0. simpl in H0. lia. }
  do 3 eexists. split; [done|]. split; [lia|]. split; [apply ink_blank, strspn_all|]. intros E0. rewrite <- drop_drop. by apply H0.
Qed.

(** ** The buffer is large enough *)

Definition fits (b : text) : Prop := (length (t_str b) < t_max b)%nat.

Lemma append_grow s b :
  (length (t_str b) <= t_max b)%nat ->
  exists b', append s (grow (length s) b) = (Ret tt, b') /\ t_str b' = t_str b ++ s /\ fits b'.
Proof.
  intros Hb. unfold append, grow, fits.
  destruct (Nat.leb_spec (t_max b - length (t_str b)) (length s)) as [H|H]; cbn [t_str t_max];
    rewrite (proj2 (Nat.leb_le _ _)) by lia; eexists; (split; [done|]); cbn [t_str t_max]; (split; [done|]); rewrite length_app; lia.
Qed.

(** Each addition is in bounds and leaves room for the terminator. *)
Definition adds (m : M text unit) (s : cstr) : Prop := forall b, (length (t_str b) <= t_max b)%nat ->
  exists b', m b = (Ret tt, b') /\ t_str b' = t_str b ++ s /\ fits b'.

Lemma add_str_len_adds str n : (n <= length str)%nat -> adds (add_str_len str n) (take n str).
Proof.
  intros Hn b Hb. unfold add_str_len, bind, modify. rewrite (proj2 (Nat.leb_le _ _)) by done.
  destruct (append_grow (take n str) b Hb) as (b' & H & Hs & Hf). rewrite length_take, Nat.min_l in H by done. eauto.
Qed.
Lemma add_str_adds str : adds (add_str str) str.
Proof. pose proof (add_str_len_adds str (length str) ltac:(lia)) as H. by rewrite firstn_all in H. Qed.
Lemma add_indent_adds n : adds (add_indent n) (replicate n " "%char).
Proof.
  intros b Hb. unfold add_indent, bind, modify. destruct (append_grow (replicate n " "%char) b Hb) as (b' & H & Hs & Hf).
  rewrite length_replicate in H. eauto.
Qed.

Lemma ink_indent n : ink (replicate n " "%char) = [].
Proof. apply ink_blank, Forall_replicate. done. Qed.

(** ** Writing, up to layout *)

(** [m] ends with [Q], having written [s] and white space. *)
Definition writes {A} (m : M text A) (b : text) (s : cstr) (Q : A -> text -> Prop) : Prop :=
  exists a b', m b = (Ret a, b') /\ ink (t_str b') = ink (t_str b) ++ s /\ fits b' /\ Q a b'.

Lemma writes_bind {A B} (m : M text A) (k : A -> M text B) b s s' Q Q' :
  writes m b s Q -> (forall a b', fits b' -> Q a b' -> writes (k a) b' s' Q') -> writes (bind m k) b (s ++ s') Q'.
Proof.
  intros (a & b1 & Hm & Hs & Hf & HQ) Hk. destruct (Hk a b1 Hf HQ) as (a' & b2 & Hk2 & Hs2 & Hf2 & HQ2).
  exists a', b2. unfold bind. rewrite Hm. split; [done|]. by rewrite Hs2, Hs, app_assoc.
Qed.

Lemma writes_ret {A} (a : A) b (Q : A -> text -> Prop) : fits b -> Q a b -> writes (ret a) b [] Q.
Proof. intros Hf HQ. exists a, b. by rewrite app_nil_r. Qed.

Lemma writes_imp {A} (m : M text A) b s (Q Q' : A -> text -> Prop) :
  writes m b s Q -> (forall a b, Q a b -> Q' a b) -> writes m b s Q'.
Proof. intros (a & b' & H1 & H2 & H3 & H4) HQ. exists a, b'. eauto. Qed.

Definition any {A} : A -> text -> Prop := fun _ _ => True.
Definition line_end {A} : A -> text -> Prop := fun _ b => last (t_str b) = Some newline.

Lemma adds_writes m s b : adds m s -> (length (t_str b) <= t_max b)%nat -> writes m b (ink s) any.
Proof. intros Hm Hb. destruct (Hm b Hb) as (b' & H & Hs & Hf). exists tt, b'. by rewrite Hs, ink_app. Qed.

Lemma adds_line m s b :
  adds m (s ++ [newline]) -> (length (t_str b) <= t_max b)%nat -> writes m b (ink s) line_end.
Proof.
  intros Hm Hb. destruct (Hm b Hb) as (b' & H & Hs & Hf). exists tt, b'. unfold line_end. rewrite Hs, !ink_app.
  change (ink [newline]) with (@nil ascii). rewrite app_nil_r. split_and!; [done..|]. by rewrite app_assoc, last_snoc.
Qed.

Lemma fits_le b : fits b -> (length (t_str b) <= t_max b)%nat.
Proof. unfold fits. lia. Qed.
#[local] Hint Resolve fits_le : core.

Lemma writes_line b : (length (t_str b) <= t_max b)%nat -> writes (add_str [newline]) b [] line_end.
Proof. intros Hb. apply (adds_line _ []); [apply (add_str_adds [newline])|done]. Qed.

Lemma writes_indent n b : (length (t_str b) <= t_max b)%nat -> writes (add_indent n) b [] any.
Proof. intros Hb. rewrite <- (ink_indent n). by apply adds_writes; [apply add_indent_adds|]. Qed.

Lemma writes_str s b : (length (t_str b) <= t_max b)%nat -> writes (add_str s) b (ink s) any.
Proof. intros Hb. by apply adds_writes; [apply add_str_adds|]. Qed.

(** Removing the end of the line. *)
Lemma writes_drop_last b : fits b -> last (t_str b) = Some newline -> writes drop_last b [] any.
Proof.
  intros Hf Hl. apply last_Some in Hl as (s & Hs). exists tt, (mk_text s (t_max b)). unfold drop_last. rewrite Hs.
  rewrite removelast_last, ink_app. change (ink [newline]) with (@nil ascii). rewrite !app_nil_r.
  split; [by destruct s|]. split; [done|]. split; [|done]. unfold fits in *. simpl. rewrite Hs, length_app in Hf. simpl in Hf. lia.
Qed.

(** The description, line by line. *)
Lemma writes_desc fuel desc indent maxlen p off same_line start b :
  desc <> [] -> (p <= length desc)%nat -> (length desc - p <= fuel)%nat -> fits b ->
  (same_line = false -> last (t_str b) = Some newline) ->
  writes (desc_loop fuel desc indent maxlen p off same_line start) b (ink (drop p desc))
    (fun r b' => r.1 = false -> last (t_str b') = Some newline).
Proof.
  intros Hne. revert p off same_line start b. induction fuel as [|fuel IH]; intros p off same_line start b Hp Hf Hb Hl.
  all: destruct (consume_words_ok desc p maxlen start Hne Hp) as (l & prefix & start' & Hc & Hle & Hblank & H0).
  all: assert (ink (drop p desc) = ink (drop (p + prefix) desc)) as -> by
    (rewrite <- (take_drop prefix (drop p desc)) at 1; rewrite ink_app, Hblank, drop_drop; done).
  all: cbn [desc_loop]; unfold bind at 1, lift at 1; unfold writes; rewrite Hc; fold (@writes (bool * nat)).
  all: destruct (Nat.eqb_spec l 0) as [El|El];
    [exists (same_line, off), b; rewrite (H0 El), app_nil_r; done|].
  { lia. }
  assert (ink (drop (p + prefix) desc) =
    [] ++ ink (take l (drop (p + prefix) desc)) ++ [] ++ ink (drop (p + prefix + l) desc)) as ->.
  { rewrite <- (take_drop l (drop (p + prefix) desc)) at 1. by rewrite ink_app, drop_drop. }
  assert (l <= length (drop (p + prefix) desc))%nat as Hl2 by (rewrite length_drop; lia).
  eapply writes_bind; [destruct same_line; [by apply (writes_ret tt b any)|by apply writes_indent, fits_le]|].
  intros [] b1 H1 _. eapply writes_bind; [apply adds_writes; [by apply add_str_len_adds|by apply fits_le]|].
  intros [] b2 H2 _. eapply writes_bind; [by apply writes_line, fits_le|].
  intros [] b3 H3 Hend. apply IH; [lia|lia|done|]. intros _. exact Hend.
Qed.

Section UsageProofs.
Context {V : Type} (vars : V).

(** What the message says of an entry. *)
Definition entry_ink (e : opt_entry V) : cstr :=
  if hidden e then []
  else
    match opt_desc e with
    | desc_text s =>
        if is_subtable e then ink s ++ lit ":"
        else
          ink (opt_names e) ++
          (if negb (Z.land (opt_type e) OPT_HASARG =? 0) && names_arg (opt_names e) then lit "<arg>" else []) ++
          ink s ++
          match opt_show e with
          | Some show => lit "(default:" ++ ink (shown (show vars)) ++ lit ")"
          | None => []
          end
    | _ => []
    end.

(** Entries the message can show: an option has a description that is not empty. *)
Definition describable (e : opt_entry V) : Prop :=
  hidden e = true \/ exists s, opt_desc e = desc_text s /\ (is_subtable e = true \/ s <> []).

Lemma writes_add_desc indent width e s b :
  opt_desc e = desc_text s -> s <> [] -> hidden e = false -> is_subtable e = false -> fits b ->
  writes (add_desc vars indent width e) b (entry_ink e) any.
Proof.
  intros Hd Hs Hh Hsub Hb. unfold entry_ink. rewrite Hh, Hd, Hsub. unfold add_desc. rewrite Hd.
  set (arg := negb _ && names_arg _). eapply writes_bind; [by apply writes_str, fits_le|]. intros [] b1 H1 _.
  eapply writes_bind; [destruct arg; [apply (writes_str (lit " <arg>")), fits_le, H1|by apply (writes_ret tt b1 any)]|].
  intros [] b2 H2 _. set (off := (length (opt_names e) + _)%nat). set (same_line := negb (indent <? off + 2)%nat).
  rewrite <- (app_nil_l (ink s ++ _)). eapply (writes_bind _ _ _ _ _ (fun _ b => same_line = false -> last (t_str b) = Some newline)).
  { destruct same_line; [eapply writes_imp; [by apply writes_indent, fits_le|done]|].
    eapply writes_imp; [by apply writes_line, fits_le|]. intros [] b' H _. exact H. }
  intros [] b3 H3 Hl3. eapply writes_bind; [apply (writes_desc _ _ indent _ 0); [done|lia|lia|done|exact Hl3]|].
  intros [sl off'] b4 H4 Hl4. simpl in Hl4. rewrite <- (app_nil_l (match opt_show e with Some _ => _ | None => _ end)).
  eapply (writes_bind _ _ _ _ _ line_end).
  { destruct sl; [by apply writes_line, fits_le|]. apply writes_ret; [done|]. by apply Hl4. }
  intros [] b5 H5 Hl5. destruct (opt_show e) as [show|]; [|by apply writes_ret].
  rewrite <- (app_nil_l (lit "(default:" ++ _)). eapply (writes_bind _ _ _ _ _ any).
  { destruct (width <? _); [by apply writes_indent, fits_le|by apply writes_drop_last]. }
  intros [] b6 H6 _. eapply writes_bind; [apply (writes_str (lit " (default: ")), fits_le, H6|].
  intros [] b7 H7 _. eapply writes_bind; [by apply writes_str, fits_le|]. intros [] b8 H8 _.
  apply (writes_str (lit ")" ++ [newline])). by apply fits_le.
Qed.

Lemma writes_entries indent width t b :
  Forall describable t -> fits b -> writes (add_entries vars indent width t) b (concat (entry_ink <$> t)) any.
Proof.
  intros Ht. revert b. induction Ht as [|e t He Ht IH]; intros b Hb; [by apply writes_ret|].
  cbn [add_entries fmap list_fmap concat]. eapply (writes_bind _ _ _ _ _ any); [|intros [] b' H' _; by apply IH].
  destruct (hidden e) eqn:Eh.
  { unfold entry_ink. rewrite Eh. by apply writes_ret. }
  destruct He as [He|(s & Hd & He)]; [congruence|]. destruct (is_subtable e) eqn:Es.
  - unfold entry_ink. rewrite Eh, Hd, Es. eapply writes_bind; [by apply writes_str, fits_le|]. intros [] b1 H1 _.
    apply (writes_str (lit ":" ++ [newline])). by apply fits_le.
  - destruct He as [He|He]; [done|]. by eapply writes_add_desc.
Qed.

(** The whole message. *)
Lemma usage_written env window t argv0 extra :
  Forall describable t ->
  exists s, opt_usage vars env window t argv0 extra = Ret s /\
    ink s = lit "Usage:" ++ ink argv0 ++ ink (match extra with Some x => x | None => find_extra t end) ++
      concat (entry_ink <$> t).
Proof.
  intros Ht. set (x := match extra with Some x => x | None => find_extra t end).
  assert (writes (usage_text vars env window t argv0 extra) (mk_text [] 0)
    (lit "Usage:" ++ ink argv0 ++ [] ++ ink x ++ [] ++ concat (entry_ink <$> t)) any) as ([] & b & Hrun & Hs & Hf & _).
  { unfold usage_text. eapply writes_bind; [apply (writes_str (lit "Usage: ")); simpl; lia|]. intros [] b1 H1 _.
    eapply writes_bind; [by apply writes_str, fits_le|]. intros [] b2 H2 _.
    eapply writes_bind; [apply (writes_str (lit " ")); by apply fits_le|]. intros [] b3 H3 _.
    eapply writes_bind; [by apply writes_str, fits_le|]. intros [] b4 H4 _.
    eapply writes_bind; [by apply writes_line, fits_le|]. intros [] b5 H5 _. by apply writes_entries. }
  exists (t_str b). unfold opt_usage. rewrite Hrun, (proj2 (Nat.ltb_lt _ _)) by done. split; [done|]. exact Hs.
Qed.

(** C36. The usage message.  If every option has a description that is not empty,
    [opt_usage] ends with a message, whatever the width of the terminal: no write
    is outside the buffer, no read outside a string.  Up to white space, the
    message is the program's name, the text after it, and for each entry in order
    its names, "<arg>" where it takes an argument it does not name, every word of
    its description, and the value it has: the layout loses nothing. *)
Theorem usage_complete env window t argv0 extra :
  Forall describable t ->
  exists s, opt_usage vars env window t argv0 extra = Ret s /\
    ink s = lit "Usage:" ++ ink argv0 ++ ink (match extra with Some x => x | None => find_extra t end) ++
      concat (entry_ink <$> t).
Proof. apply usage_written. Qed.
End UsageProofs.

(** ** Ending the process *)

(** The environment of the process and its terminal. *)
Class Terminal : Type := { t_columns : option cstr; t_window : option Z; t_posix : bool }.

Section Exit.
Context {V : Type} {term : Terminal}.

Definition usage_of (argv0 : cstr) (extra : option cstr) : M (opt_lib V) cstr := fun l =>
  (opt_usage (p_vars (l_proc l)) t_columns t_window (opt_table l) argv0 extra, l).

(** The messages, formatted. *)
Definition opt_log_stderr (msg : cstr) : M (process V) unit := print_err (msg ++ [newline]).
Definition opt_log_stderr_exit (msg : cstr) : M (process V) unit := do* print_err (msg ++ [newline]) in exit 1.

Definition opt_version_and_exit {A} (version : cstr) : M (opt_lib V) A :=
  do* on_proc (print_out (version ++ [newline])) in
  do* opt_free_table in
  on_proc (exit 0).

(** [opt_argv0] is NULL before anything was parsed, which [strlen] cannot take. *)
Definition opt_usage_and_exit {A} (extra : option cstr) : M (opt_lib V) A :=
  let* l := get in
  match opt_argv0 l with
  | None => crash
  | Some argv0 =>
      let* usage := usage_of argv0 extra in
      do* on_proc (print_out usage) in
      do* opt_free_table in
      on_proc (exit 0)
  end.

Definition opt_usage_exit_fail {A} (msg : cstr) : M (opt_lib V) A :=
  let* l := get in
  do* match opt_argv0 l with Some argv0 => on_proc (print_err (argv0 ++ lit ": ")) | None => ret tt end in
  do* on_proc (print_err msg) in
  let* usage := usage_of (default (lit "<program>") (opt_argv0 l)) None in
  do* on_proc (print_err ([newline] ++ usage)) in
  on_proc (exit 1).
End Exit.

(** ** A message, and an empty description *)

Definition demo_entry (names desc : string) (show : option (bool -> cstr)) : opt_entry bool :=
  mk_opt (lit names) (if show is Some _ then OPT_HASARG else OPT_NOARG) (ret None) (fun _ => ret None) show None 0 (desc_text (lit desc)).
Definition demo_usage : list (opt_entry bool) :=
  [heading (desc_text (lit "Options")); demo_entry "-h|--help" "show usage" None;
   demo_entry "-f|--flag" "a flag with a long description that does not fit the line of a narrow terminal" (Some opt_show_bool)].

Lemma usage_complete_witness :
  exists s, opt_usage true (Some (lit "20")) None demo_usage (lit "prog") None = Ret s /\
    ink s = lit "Usage:progOptions:-h|--helpshowusage-f|--flag<arg>aflagwithalongdescriptionthatdoesnotfitthelineofanarrowterminal(default:true)".
Proof.
  destruct (usage_complete true (Some (lit "20")) None demo_usage (lit "prog") None) as (s & H & Hs).
  - apply Forall_cons. split; [right; eexists; split; [reflexivity|by left]|].
    repeat (apply Forall_cons; split; [right; eexists; split; [reflexivity|by right]|]). constructor.
  - exists s. split; [exact H|]. rewrite Hs. vm_compute. reflexivity.
Defined.

(** The character before an empty description is read. *)
Lemma empty_description_read : opt_usage true None None [demo_entry "-h" "" None] (lit "prog") None = Crash.
Proof. vm_compute. reflexivity. Qed.
