(* ===== verification/VfnTool.v ===== *)
(** * VfnTool: the command line tool, tools/vfntool/vfntool.c

    [main] parses the options with [Opt] and rebinds a PCI device to another driver
    with the functions of [Pci], whose effect is stated on the attributes of the kernel
    ([driver_core]).  The state is the library of options with its
    process, and the file system.  [err] and [errx] print a message and end the
    process; the text of [strerror] is left out of it. *)

From Stdlib Require String.
From S2P Require Import Prelude CStr Io Pci OptHelpers Opt OptSpec OptUsage.
Local Open Scope Z_scope.
Local Open Scope vfn_scope.

(** ** Options *)

(** The static variables; the pointers are never NULL. *)
Record tool_vars : Type := mk_vars {
  bdf : option cstr;
  target : option cstr;
  show_usage : bool;
  verbose : bool
}.

Definition vars0 : tool_vars := mk_vars (Some (lit "")) (Some (lit "vfio-pci")) false false.

Definition set_bdf (x : option cstr) (v : tool_vars) := mk_vars x (target v) (show_usage v) (verbose v).
Definition set_target (x : option cstr) (v : tool_vars) := mk_vars (bdf v) x (show_usage v) (verbose v).
Definition set_show_usage (x : bool) (v : tool_vars) := mk_vars (bdf v) (target v) x (verbose v).
Definition set_verbose (x : bool) (v : tool_vars) := mk_vars (bdf v) (target v) (show_usage v) x.

(** [OPT_WITHOUT_ARG] and [OPT_WITH_ARG]: the other callback is NULL. *)
Definition OPT_WITHOUT_ARG (names : string) (cb : M (process tool_vars) (option cstr)) (desc : string) : opt_entry tool_vars :=
  mk_opt (lit names) OPT_NOARG cb (fun _ => crash) None None 0 (desc_text (lit desc)).
Definition OPT_WITH_ARG (names : string) (cb_arg : cstr -> M (process tool_vars) (option cstr)) (show : tool_vars -> cstr)
    (desc : string) : opt_entry tool_vars :=
  mk_opt (lit names) OPT_HASARG crash cb_arg (Some show) None 0 (desc_text (lit desc)).

Definition opts : client_table tool_vars :=
  table_opt (OPT_WITHOUT_ARG "-h|--help" (on_var show_usage set_show_usage opt_set_bool) "show usage")
  (table_opt (OPT_WITHOUT_ARG "-v|--verbose" (on_var verbose set_verbose opt_set_bool) "verbose")
  (table_opt (OPT_WITH_ARG "-d|--device BDF" (fun arg => on_var bdf set_bdf (opt_set_charp arg))
     (fun v => opt_show_charp (bdf v)) "pci device")
  (table_opt (OPT_WITH_ARG "-t|--target DRIVER" (fun arg => on_var target set_target (opt_set_charp arg))
     (fun v => opt_show_charp (target v)) "bind to DRIVER")
  OPT_ENDTABLE))).

(** ** The tool *)

Section Tool.
Context {F : Type} {fs : SysFs F} {term : Terminal}.
(** The bound on the calls of one read or write of a file. *)
Variable fuel : nat.

Record tool : Type := mk_tool { tl_parse : parse tool_vars; tl_fs : F }.

Definition on_fs {A} (m : M F A) : M tool A := fun s =>
  match m (tl_fs s) with (r, f) => (r, mk_tool (tl_parse s) f) end.
Definition on_parse {A} (m : M (parse tool_vars) A) : M tool A := fun s =>
  match m (tl_parse s) with (r, p) => (r, mk_tool p (tl_fs s)) end.
Definition on_process {A} (m : M (process tool_vars) A) : M tool A := on_parse (call m).

Definition vars_of (s : tool) : tool_vars := p_vars (l_proc (pr_lib (tl_parse s))).
Definition status_of (s : tool) : option Z := p_status (l_proc (pr_lib (tl_parse s))).

(** A string variable, for the functions of [Pci]. *)
Definition str (x : option cstr) : string := String.string_of_list_ascii (default [] x).

Definition err {A} (msg : cstr) : M tool A := on_process (do* print_err (msg ++ [newline]) in exit 1).
Definition printf (s : cstr) : M tool unit := on_process (print_out s).

(** [if (m) err(1, msg);] *)
Definition or_err {A} (m : M F A) (msg : string) : M tool A :=
  let* r := try (on_fs m) in
  match r with inl _ => err (lit msg) | inr a => ret a end.

(** The identifiers are passed as [uint16_t]. *)
Definition do_bind : M tool Z :=
  let* v := gets vars_of in
  let dev := str (bdf v) in
  let drv := str (target v) in
  let* vid := or_err (pci_device_info_get_ull fuel dev "vendor") "could not get device vendor id" in
  let* did := or_err (pci_device_info_get_ull fuel dev "device") "could not get device id" in
  do* (if String.eqb "nvme" drv then
         let* classcode := or_err (pci_device_info_get_ull fuel dev "class") "could not get device class code" in
         if negb (Z.land classcode 0xffff00 =? 0x010800)
         then err (default [] (bdf v) ++ lit " is not an NVMe device") else ret tt
       else ret tt) in
  let* driver := try (on_fs (pci_get_driver dev)) in
  let* bound :=
    match driver with
    | inr driver =>
        do* (if verbose v then printf (lit "device is bound to '" ++ lit driver ++ lit "'; ") else ret tt) in
        if String.eqb driver drv then
          do* (if verbose v then printf (lit "exiting" ++ [newline]) else ret tt) in
          ret true
        else
          do* (if verbose v then printf (lit "unbinding" ++ [newline]) else ret tt) in
          do* or_err (pci_unbind fuel dev) "could not unbind device" in
          let* r := try (on_fs (pci_driver_remove_id fuel driver (u16 vid) (u16 did))) in
          match r with
          | inl ENODEV | inr _ => ret false
          | inl _ => err (lit "could not remove device id from '" ++ lit driver ++ lit "' driver")
          end
    | inl _ => ret false
    end in
  if bound : bool then ret 0
  else
    do* (if verbose v then printf (lit "binding to '" ++ default [] (target v) ++ lit "'" ++ [newline]) else ret tt) in
    let* r := try (on_fs (pci_driver_new_id fuel drv (u16 vid) (u16 did))) in
    match r with
    | inr _ => ret 0
    | inl EEXIST =>
        let* r := try (on_fs (pci_bind fuel dev drv)) in
        match r with
        | inr _ => ret 0
        | inl _ => err (lit "could not bind device to '" ++ default [] (target v) ++ lit "'")
        end
    | inl _ => err (lit "could not add device id to '" ++ default [] (target v) ++ lit "' driver")
    end.

(** The result of [opt_parse] is not looked at: its error function ends the
    process. *)
Definition main : M tool Z :=
  do* on_parse (on_lib (opt_register_table opts desc_null)) in
  do* on_parse (opt_parse opt_log_stderr_exit t_posix) in
  let* v := gets vars_of in
  do* (if show_usage v then on_parse (on_lib (opt_usage_and_exit None)) else ret tt) in
  let* v := gets vars_of in
  do* (if bool_decide (default [] (bdf v) = []) then on_parse (on_lib (opt_usage_exit_fail (lit "missing --device parameter")))
       else ret tt) in
  do_bind.

(** A process just started. *)
Definition tool0 (argv : list cstr) (f : F) : tool :=
  mk_tool (mk_parse (mk_lib [] 0 0 0 None (mk_process [] [] None vars0)) argv 0) f.
End Tool.
Arguments tool : clear implicits.
Arguments mk_tool {F}.
Arguments tl_parse {F}.
Arguments tl_fs {F}.

(** ** What the kernel does *)

(** Where the driver core keeps its attributes. *)
Definition unbind_attr (dev : string) : string := "/sys/bus/pci/devices/" +:+ dev +:+ "/driver/unbind".
Definition driver_link (dev : string) : string := "/sys/bus/pci/devices/" +:+ dev +:+ "/driver".
Definition bind_attr (drv : string) : string := "/sys/bus/pci/drivers/" +:+ drv +:+ "/bind".
Definition new_id_attr (drv : string) : string := "/sys/bus/pci/drivers/" +:+ drv +:+ "/new_id".
Definition remove_id_attr (drv : string) : string := "/sys/bus/pci/drivers/" +:+ drv +:+ "/remove_id".

(** One device: its address, and the numbers in its attributes. *)
Record pci_device : Type := mk_pci_device { d_bdf : string; d_vendor : Z; d_device : Z; d_class : Z }.
(** The identifiers as [new_id] and [remove_id] take them. *)
Definition ids (d : pci_device) : cstr := lit (print_str 16 (d_vendor d) +:+ " " +:+ print_str 16 (d_device d)).

(** A view of the kernel: the attribute a descriptor was opened for writing on, the
    stores to attributes that were accepted, in order, and the driver the device is
    bound to. *)
Record kernel (F : Type) : Type := mk_kernel {
  k_open : F -> Z -> option string;
  k_stores : F -> list (string * cstr);
  k_bound : F -> option string
}.
Arguments mk_kernel {F}.
Arguments k_open {F}.
Arguments k_stores {F}.
Arguments k_bound {F}.

(** What an accepted store does to the binding of the device ([b] before, [b']
    after): the stores of the address to [unbind] and to a driver's [bind] return an
    error unless the device was detached, attached; the driver that gets the identifiers
    through [new_id] attempts to bind a device without a driver, and the outcome of the
    attempt is not reported; [remove_id] leaves devices alone. *)
Record accepted (d : pci_device) (path : string) (text : cstr) (b b' : option string) : Prop := {
  ac_unbind : path = unbind_attr (d_bdf d) -> text = lit (d_bdf d) -> b' = None;
  ac_bind drv : path = bind_attr drv -> text = lit (d_bdf d) -> b' = Some drv;
  ac_new_id drv : path = new_id_attr drv -> text = ids d -> b = None -> b' = None \/ b' = Some drv;
  ac_remove_id drv : path = remove_id_attr drv -> b' = b
}.

(** sysfs and the driver core, as far as the attributes of the device [d] and of the
    drivers go. Only a write changes them. A write to an attribute is taken whole or
    refused, and the store that is taken is carried out as [accepted] says. The
    attributes of the device hold its numbers as the kernel prints them; the link to the
    driver is there just if there is one. [fuel] is more than the interruptions of a
    read or write. *)
Record driver_core {F : Type} {fs : SysFs F} (fuel : nat) (k : kernel F) (d : pci_device) : Prop := {
  dc_open_wronly path f :
    match f_open_wronly path f with
    | (Ret fd, f') => k_open k f' fd = Some path /\ k_stores k f' = k_stores k f /\ k_bound k f' = k_bound k f
    | (Fail _, f') => k_stores k f' = k_stores k f /\ k_bound k f' = k_bound k f
    | (Crash, _) => False
    end;
  dc_open_rdonly path f :
    match f_open_rdonly path f with
    | (Crash, _) => False
    | (_, f') => k_stores k f' = k_stores k f /\ k_bound k f' = k_bound k f
    end;
  dc_read fd n f f' : f' = snd (f_read fd n f) -> k_stores k f' = k_stores k f /\ k_bound k f' = k_bound k f;
  dc_close fd f f' : f' = snd (f_close fd f) ->
    fst (f_close fd f) = Ret tt /\ k_stores k f' = k_stores k f /\ k_bound k f' = k_bound k f;
  dc_write fd bs f path : k_open k f fd = Some path ->
    match f_write fd bs f with
    | (Ret n, f') =>
        n = Z.of_nat (length bs) /\ k_stores k f' = k_stores k f ++ [(path, bs)] /\
        accepted d path bs (k_bound k f) (k_bound k f')
    | (_, f') => k_open k f' fd = Some path /\ k_stores k f' = k_stores k f /\ k_bound k f' = k_bound k f
    end;
  dc_attribute prop n fd f f' :
    (prop, n) ∈ [("vendor", d_vendor d); ("device", d_device d); ("class", d_class d)]%string ->
    f_open_rdonly ("/sys/bus/pci/devices/" +:+ d_bdf d +:+ "/" +:+ prop) f = (Ret fd, f') ->
    exists zeros, f_input f' fd = hex_attribute zeros n /\ (length (hex_attribute zeros n) < 32)%nat;
  dc_driver f :
    match k_bound k f with
    | Some drv => links_to f (driver_link (d_bdf d)) drv
    | None => s_readlink f (driver_link (d_bdf d)) = inl ENOENT
    end;
  dc_numbers : 0 <= d_vendor d < 0x10000 /\ 0 <= d_device d < 0x10000 /\ 0 <= d_class d < 0x1000000;
  dc_fuel f : (f_quota f + 32 < fuel)%nat
}.

Section Kernel.
Context {F : Type} {fs : SysFs F} (fuel : nat) (k : kernel F) (d : pci_device) (core : driver_core fuel k d).

Definition same (f f' : F) : Prop := k_stores k f' = k_stores k f /\ k_bound k f' = k_bound k f.

#[local] Instance same_preorder : PreOrder same.
Proof. split; [done|]. intros f g h [] []. split; congruence. Qed.

Lemma close_same fd f : fst (f_close fd f) = Ret tt /\ same f (snd (f_close fd f)).
Proof using core. by apply (dc_close _ _ _ core). Qed.

(** A computation on an open file, closed after it. *)
Lemma closing_result {A} fd (m : M F A) f :
  match m f with
  | (Crash, _) => True
  | (o, f1) => exists f2, closing fd m f = (o, f2) /\ same f1 f2
  end.
Proof using core.
  unfold closing, bind, try, fatal_if. destruct (m f) as [[a|e|] f1]; [| |done];
    (destruct (close_same fd f1) as [Hc Hs]; destruct (f_close fd f1) as [o f2]; simpl in Hc, Hs; subst o; by exists f2).
Qed.

Lemma write_loop_attr n fd path bs f :
  bs <> [] -> k_open k f fd = Some path -> (f_quota f < n)%nat ->
  match write_loop n fd bs 0 f with
  | (Ret _, f') => k_stores k f' = k_stores k f ++ [(path, bs)] /\ accepted d path bs (k_bound k f) (k_bound k f')
  | (Fail _, f') => same f f'
  | (Crash, _) => False
  end.
Proof using core.
  intros Hbs. revert f. induction n as [|n IH]; intros f Ho Hq; [lia|]. cbn [write_loop]. unfold bind, try.
  change (drop (Z.to_nat 0) bs) with bs. pose proof (f_write_law f fd bs) as Hl. pose proof (dc_write _ _ _ core fd bs f path Ho) as Hw.
  destruct (f_write fd bs f) as [[m|e|] f1]; [..|done].
  - destruct Hw as (-> & Hst & Ha). by rewrite Z.add_0_l, Z.ltb_irrefl.
  - destruct Hw as (Ho1 & Hs). destruct (interrupted e) eqn:Ee; [|done].
    apply interrupted_spec, (proj2 Hl) in Ee. rewrite (proj2 (Z.ltb_lt _ _)) by (destruct bs; simpl; [done|lia]).
    specialize (IH f1 Ho1 ltac:(lia)). destruct Hs as [Hs1 Hs2]. destruct (write_loop _ _ _ _ _) as [[m|e'|] f2]; [..|done].
    + by rewrite Hs1, Hs2 in IH.
    + etrans; [by split|exact IH].
Qed.

(** Storing a string in an attribute. *)
Lemma store_attr path text f :
  text <> EmptyString ->
  match write_string fuel path text f with
  | (Ret _, f') =>
      k_stores k f' = k_stores k f ++ [(path, lit text)] /\ accepted d path (lit text) (k_bound k f) (k_bound k f')
  | (Fail _, f') => same f f'
  | (Crash, _) => False
  end.
Proof using core.
  intros Ht. unfold write_string, writeall. unfold bind at 1, bind at 1.
  pose proof (dc_open_wronly _ _ _ core path f) as Hop. destruct (f_open_wronly path f) as [[fd|e|] f1]; [|exact Hop|done].
  destruct Hop as (Ho & Hs1 & Hb1). pose proof (dc_fuel _ _ _ core f1) as Hq.
  pose proof (write_loop_attr fuel fd path (lit text) f1) as Hw. rewrite Hs1, Hb1 in Hw.
  specialize (Hw ltac:(by destruct text) Ho ltac:(lia)).
  pose proof (closing_result fd (writeallfd fuel fd (lit text)) f1) as Hc. unfold writeallfd, lit in *.
  destruct (write_loop _ _ _ _ _) as [[m|e|] f2]; [| |done]; destruct Hc as (f3 & -> & Hs3 & Hb3); simpl.
  - by rewrite Hs3, Hb3.
  - destruct Hw as [H1 H2]. split; congruence.
Qed.

Lemma read_loop_same n fd count got f : same f (snd (read_loop n fd count got f)).
Proof using core.
  revert got f. induction n as [|n IH]; intros got f; [done|]. cbn [read_loop]. unfold bind, try.
  pose proof (dc_read _ _ _ core fd (count - Z.of_nat (length got)) f _ eq_refl) as Hr.
  destruct (f_read _ _ _) as [[bs|e|] f1]; simpl in Hr; [..|exact Hr].
  - destruct bs as [|c bs]; [exact Hr|]. destruct (_ <? _); [|exact Hr]. etrans; [exact Hr|apply IH].
  - destruct (interrupted e); [|exact Hr]. destruct (_ <? _); [|exact Hr]. etrans; [exact Hr|apply IH].
Qed.

(** Reading a number of the device. *)
Lemma read_attr prop n f :
  (prop, n) ∈ [("vendor", d_vendor d); ("device", d_device d); ("class", d_class d)]%string ->
  match pci_device_info_get_ull fuel (d_bdf d) prop f with
  | (Ret x, f') => x = n /\ same f f'
  | (Fail _, f') => same f f'
  | (Crash, _) => False
  end.
Proof using core.
  intros Hin. assert (0 <= n <= UINT64_MAX) as Hn.
  { destruct (dc_numbers _ _ _ core) as (? & ? & ?). unfold UINT64_MAX.
    rewrite !elem_of_cons, elem_of_nil in Hin. destruct Hin as [[= _ ->]|[[= _ ->]|[[= _ ->]|[]]]]; lia. }
  unfold pci_device_info_get_ull, readmax. unfold bind at 1, bind at 1.
  pose proof (dc_open_rdonly _ _ _ core (devices +:+ d_bdf d +:+ "/" +:+ prop) f) as Hop.
  destruct (f_open_rdonly _ f) as [[fd|e|] f1] eqn:Ef; [|exact Hop|done].
  destruct (dc_attribute _ _ _ core _ _ _ _ _ Hin Ef) as (zeros & Hinp & Hlen). pose proof (dc_fuel _ _ _ core f1) as Hq.
  pose proof (read_loop_spec fuel fd 32 [] f1 ltac:(by right) ltac:(lia) ltac:(simpl; lia)) as H.
  pose proof (read_loop_same fuel fd 32 [] f1) as Hsame. pose proof (closing_result fd (readmaxfd fuel fd 32) f1) as Hc.
  unfold readmaxfd in *. destruct (read_loop _ _ _ _ _) as [[bs|e|] f2]; [| |done];
    destruct Hc as (f3 & -> & Hs3); simpl in Hsame; assert (same f f3) as Hff by (etrans; [exact Hop|]; by etrans).
  - destruct H as (rest & -> & _ & ->). simpl. rewrite Hinp, take_ge by lia. rewrite (proj2 (Nat.ltb_lt _ _)) by done.
    rewrite c_string_all by (apply hex_attribute_chars; lia). by rewrite strtoull_hex.
  - exact Hff.
Qed.

Lemma get_driver_attr f :
  match k_bound k f with
  | Some drv => pci_get_driver (d_bdf d) f = (Ret drv, f)
  | None => pci_get_driver (d_bdf d) f = (Fail ENOENT, f)
  end.
Proof using core.
  pose proof (dc_driver _ _ _ core f) as H. unfold pci_get_driver. destruct (k_bound k f) as [drv|].
  - by apply link_name_spec.
  - unfold link_name. change (devices +:+ d_bdf d +:+ "/driver") with (driver_link (d_bdf d)). by rewrite H.
Qed.
End Kernel.

(** ** What a run of the tool stores *)

(** The requests to release the device from the driver it had ([b0]) before the
    run, and the binding they leave: none yet; the device unbound; and its identifiers
    removed from the driver. *)
Inductive released (d : pci_device) (b0 : option string) : list (string * cstr) -> option string -> Prop :=
  | rel_untouched : released d b0 [] b0
  | rel_unbound old : b0 = Some old -> released d b0 [(unbind_attr (d_bdf d), lit (d_bdf d))] None
  | rel_removed old : b0 = Some old ->
      released d b0 [(unbind_attr (d_bdf d), lit (d_bdf d)); (remove_id_attr old, ids d)] None.

(** The requests of a run that succeeds.  After [new_id] the driver has made its
    attempt; after [bind] the device has the driver. *)
Inductive rebound (d : pci_device) (drv : string) (b0 : option string) : list (string * cstr) -> option string -> Prop :=
  | re_already : b0 = Some drv -> rebound d drv b0 [] b0
  | re_new_id log b : b0 <> Some drv -> released d b0 log None -> b = None \/ b = Some drv ->
      rebound d drv b0 (log ++ [(new_id_attr drv, ids d)]) b
  | re_bind log : b0 <> Some drv -> released d b0 log None ->
      rebound d drv b0 (log ++ [(bind_attr drv, lit (d_bdf d))]) (Some drv).

Section Bind.
Context {F : Type} {fs : SysFs F} {term : Terminal} (fuel : nat) (k : kernel F).
Context (v : tool_vars) (d : pci_device) (core : driver_core fuel k d) (Hdev : str (bdf v) = d_bdf d) (Hne : d_bdf d <> EmptyString).
(** At the start. *)
Context (st0 : list (string * cstr)) (b0 : option string).

Definition running (log : list (string * cstr)) (b : option string) (s : tool F) : Prop :=
  vars_of s = v /\ status_of s = None /\ k_stores k (tl_fs s) = st0 ++ log /\ k_bound k (tl_fs s) = b.

(** The process ended with status 1, having at most released the device. *)
Definition ended (s : tool F) : Prop :=
  status_of s = Some 1 /\ exists log, k_stores k (tl_fs s) = st0 ++ log /\ released d b0 log (k_bound k (tl_fs s)).

Definition triple {A} (m : M (tool F) A) (s : tool F) (Q : A -> tool F -> Prop) : Prop :=
  match m s with
  | (Ret a, s') => Q a s'
  | (Fail _, _) => False
  | (Crash, s') => ended s'
  end.

Lemma triple_bind {A B} (m : M (tool F) A) (c : A -> M (tool F) B) s P Q :
  triple m s P -> (forall a s', P a s' -> triple (c a) s' Q) -> triple (bind m c) s Q.
Proof. intros Hm Hk. unfold triple, bind in *. destruct (m s) as [[a|e|] s']; [by apply Hk|done..]. Qed.

Lemma triple_ret {A} (a : A) s (Q : A -> tool F -> Prop) : Q a s -> triple (ret a) s Q.
Proof. done. Qed.

Lemma triple_printf log b (c : bool) txt s :
  running log b s -> triple (if c then printf txt else ret tt) s (fun _ => running log b).
Proof. intros H. by destruct c. Qed.

Lemma triple_err {A} log b msg s (Q : A -> tool F -> Prop) : running log b s -> released d b0 log b -> triple (err msg) s Q.
Proof. intros (Hv & Hs & Hl & Hb) H. split; [done|]. exists log. split; [done|]. by rewrite <- Hb in H. Qed.

(** A call on files that stores nothing when it fails. *)
Lemma triple_try {A} log b (m : M F A) s (Q : errno + A -> tool F -> Prop) :
  running log b s ->
  match m (tl_fs s) with
  | (Ret a, f) => forall s', vars_of s' = v -> status_of s' = None -> tl_fs s' = f -> Q (inr a) s'
  | (Fail e, f) => same k (tl_fs s) f /\ (forall s', running log b s' -> Q (inl e) s')
  | (Crash, _) => False
  end -> triple (try (on_fs m)) s Q.
Proof.
  intros (Hv & Hs & Hl & Hb) H. unfold triple, try, on_fs. destruct (m (tl_fs s)) as [[a|e|] f]; [..|done].
  - by apply H.
  - destruct H as [[H1 H2] H]. apply H. split_and!; [done|done|simpl; congruence..].
Qed.

Lemma triple_or_err {A} log b (m : M F A) msg s (Q : A -> tool F -> Prop) :
  running log b s -> released d b0 log b ->
  match m (tl_fs s) with
  | (Ret a, f) => forall s', vars_of s' = v -> status_of s' = None -> tl_fs s' = f -> Q a s'
  | (Fail _, f) => same k (tl_fs s) f
  | (Crash, _) => False
  end -> triple (or_err m msg) s Q.
Proof.
  intros Hr Hb H. unfold or_err.
  apply (triple_bind _ _ _ (fun r s' => match r with inr a => Q a s' | inl _ => running log b s' end)).
  - apply (triple_try log b); [done|]. destruct (m (tl_fs s)) as [[a|e|] f]; done.
  - intros [e|a] s' H'; [by eapply triple_err|exact H'].
Qed.

(** Reading a number of the device. *)
Lemma triple_read log b prop n msg s :
  running log b s -> released d b0 log b ->
  (prop, n) ∈ [("vendor", d_vendor d); ("device", d_device d); ("class", d_class d)]%string ->
  triple (or_err (pci_device_info_get_ull fuel (d_bdf d) prop) msg) s (fun x s' => x = n /\ running log b s').
Proof using core.
  intros Hr Hb Hin. apply (triple_or_err log b); [done|done|]. pose proof (read_attr fuel k d core prop n (tl_fs s) Hin) as H.
  destruct Hr as (Hv & Hs & Hl & Hbs). destruct (pci_device_info_get_ull fuel _ prop _) as [[x|e|] f]; [|done|done].
  destruct H as [-> [H1 H2]]. intros s' Hv' Hs' <-. split; [done|]. split_and!; [done|done|congruence..].
Qed.

(** Storing a string. *)
Lemma triple_store log b path text s (Q : errno + unit -> tool F -> Prop) :
  running log b s -> text <> EmptyString ->
  (forall b' s', accepted d path (lit text) b b' -> running (log ++ [(path, lit text)]) b' s' -> Q (inr tt) s') ->
  (forall e s', running log b s' -> Q (inl e) s') ->
  triple (try (on_fs (write_string fuel path text))) s Q.
Proof using core.
  intros Hr Ht HQ He. apply (triple_try log b); [done|]. pose proof (store_attr fuel k d core path text (tl_fs s) Ht) as H.
  destruct Hr as (Hv & Hs & Hl & Hbs). destruct (write_string _ _ _ _) as [[[]|e|] f]; [..|done].
  - intros s' Hv' Hs' <-. destruct H as [H1 H2]. rewrite Hbs in H2. eapply HQ; [exact H2|].
    split_and!; [done|done| |done]. by rewrite H1, Hl, (assoc_L (++)).
  - split; [done|]. apply He.
Qed.

Lemma ids_text : print_str 16 (d_vendor d) +:+ " " +:+ print_str 16 (d_device d) <> EmptyString.
Proof. by destruct (print_str 16 (d_vendor d)). Qed.

(** After the identifiers were read: whether the device has the driver already, or
    else no driver is left. *)
Definition free_or_done (r : bool) (s : tool F) : Prop :=
  if r then b0 = Some (str (target v)) /\ running [] b0 s
  else b0 <> Some (str (target v)) /\ exists log, released d b0 log None /\ running log None s.

Lemma triple_unbind_device s old :
  running [] b0 s -> b0 = Some old ->
  triple (or_err (pci_unbind fuel (d_bdf d)) "could not unbind device") s
    (fun _ => running [(unbind_attr (d_bdf d), lit (d_bdf d))] None).
Proof using core Hne.
  intros Hr Hb. assert (triple (try (on_fs (pci_unbind fuel (d_bdf d)))) s
    (fun r => match r with inr _ => running [(unbind_attr (d_bdf d), lit (d_bdf d))] None | inl _ => running [] b0 end)) as H.
  { unfold pci_unbind. destruct (s_stat (tl_fs s) (devices +:+ d_bdf d +:+ "/driver/unbind")) as [e|x] eqn:Est.
    - apply (triple_try [] b0); [done|]. unfold bind, get. rewrite Est. by split.
    - pose proof (triple_store [] b0 (unbind_attr (d_bdf d)) (d_bdf d) s (fun r => match r with
        inr _ => running [(unbind_attr (d_bdf d), lit (d_bdf d))] None | inl _ => running [] b0 end) Hr Hne) as Hst.
      unfold triple, try, on_fs in Hst |- *. unfold bind at 1, get at 1. rewrite Est. apply Hst; [|done].
      intros b' s' Ha Hs'. by rewrite (ac_unbind _ _ _ _ _ Ha eq_refl eq_refl) in Hs'. }
  unfold or_err. eapply triple_bind; [exact H|]. intros [e|[]] s' H'; [|exact H']. eapply triple_err; [exact H'|constructor].
Qed.

Lemma triple_release s old :
  running [] b0 s -> b0 = Some old ->
  triple (if String.eqb old (str (target v)) then
      do* (if verbose v then printf (lit "exiting" ++ [newline]) else ret tt) in ret true
    else
      do* (if verbose v then printf (lit "unbinding" ++ [newline]) else ret tt) in
      do* or_err (pci_unbind fuel (d_bdf d)) "could not unbind device" in
      let* r := try (on_fs (pci_driver_remove_id fuel old (d_vendor d) (d_device d))) in
      match r with
      | inl ENODEV | inr _ => ret false
      | inl _ => err (lit "could not remove device id from '" ++ lit old ++ lit "' driver")
      end) s free_or_done.
Proof using core Hne.
  intros Hr Hb. destruct (String.eqb_spec old (str (target v))) as [E|Hold].
  { eapply triple_bind; [by apply (triple_printf [] b0)|]. intros [] s1 H1. simpl in H1. apply triple_ret.
    split; [by rewrite <- E|done]. }
  assert (b0 <> Some (str (target v))) as Hnb by congruence.
  eapply triple_bind; [by apply (triple_printf [] b0)|]. intros [] s1 H1.
  eapply triple_bind; [by eapply triple_unbind_device|]. intros [] s2 H2.
  apply (triple_bind _ _ _ (fun r s' => exists log, released d b0 log None /\ running log None s')).
  { eapply triple_store; [exact H2|apply ids_text| |].
    - intros b' s' Ha Hs'. rewrite (ac_remove_id _ _ _ _ _ Ha old eq_refl) in Hs'.
      eexists. split; [|exact Hs']. by apply (rel_removed _ _ old).
    - intros e s' Hs'. eexists. split; [|exact Hs']. by apply (rel_unbound _ _ old). }
  intros r s3 (log & Hrel & H3).
  assert (free_or_done false s3) as Hf by (split; [done|by exists log]).
  destruct r as [[]|[]]; try exact Hf; (eapply triple_err; [exact H3|done]).
Qed.

(** The last part of [do_bind]. *)
Lemma triple_new_id log s :
  b0 <> Some (str (target v)) -> released d b0 log None -> running log None s ->
  triple (do* (if verbose v then printf (lit "binding to '" ++ default [] (target v) ++ lit "'" ++ [newline]) else ret tt) in
    let* r := try (on_fs (pci_driver_new_id fuel (str (target v)) (d_vendor d) (d_device d))) in
    match r with
    | inr _ => ret 0
    | inl EEXIST =>
        let* r := try (on_fs (pci_bind fuel (d_bdf d) (str (target v)))) in
        match r with
        | inr _ => ret 0
        | inl _ => err (lit "could not bind device to '" ++ default [] (target v) ++ lit "'")
        end
    | inl _ => err (lit "could not add device id to '" ++ default [] (target v) ++ lit "' driver")
    end) s (fun r s' => r = 0 /\ exists log b, rebound d (str (target v)) b0 log b /\ running log b s').
Proof using core Hne.
  intros Hnb Hrel Hr. set (Q := fun (r : Z) (s' : tool F) => r = 0 /\ exists log b, rebound d (str (target v)) b0 log b /\ running log b s').
  eapply triple_bind; [by apply (triple_printf log None)|]. intros [] s1 H1.
  apply (triple_bind _ _ _ (fun r s' => match r with inr _ => Q 0 s' | inl _ => running log None s' end)).
  { eapply triple_store; [exact H1|apply ids_text| |done]. intros b' s' Ha Hs'. split; [done|].
    eexists _, b'. split; [|exact Hs']. apply re_new_id; [done|done|]. by apply (ac_new_id _ _ _ _ _ Ha). }
  intros r s2 H2. destruct r as [e|[]]; [|by apply triple_ret].
  assert (triple (let* r := try (on_fs (pci_bind fuel (d_bdf d) (str (target v)))) in
    match r with inr _ => ret 0 | inl _ => err (lit "could not bind device to '" ++ default [] (target v) ++ lit "'") end) s2 Q) as Hbind.
  { apply (triple_bind _ _ _ (fun r s' => match r with inr _ => Q 0 s' | inl _ => running log None s' end)).
    - eapply triple_store; [exact H2|exact Hne| |done]. intros b' s' Ha Hs'. split; [done|].
      rewrite (ac_bind _ _ _ _ _ Ha (str (target v)) eq_refl eq_refl) in Hs'. eexists _, _. split; [|exact Hs']. by apply re_bind.
    - intros [e'|[]] s3 H3; [eapply triple_err; [exact H3|done]|by apply triple_ret]. }
  destruct e; try exact Hbind; (eapply triple_err; [exact H2|done]).
Qed.
End Bind.

Section Main.
Context {F : Type} {fs : SysFs F} {term : Terminal} (fuel : nat) (k : kernel F).

(** [do_bind] from any state of a running process. *)
Lemma do_bind_spec v d s :
  driver_core fuel k d -> str (bdf v) = d_bdf d -> d_bdf d <> EmptyString -> vars_of s = v -> status_of s = None ->
  let b0 := k_bound k (tl_fs s) in
  let st0 := k_stores k (tl_fs s) in
  triple k d st0 b0 (do_bind fuel) s (fun r s' => r = 0 /\
    (str (target v) = "nvme"%string -> Z.land (d_class d) 0xffff00 = 0x010800) /\
    exists log b, rebound d (str (target v)) b0 log b /\ running k v st0 log b s').
Proof.
  intros core Hdev Hne Hv Hs b0 st0.
  assert (running k v st0 [] b0 s) as Hr by (split_and!; [done|done|by rewrite app_nil_r|done]).
  destruct (dc_numbers _ _ _ core) as (Hvid & Hdid & _).
  unfold do_bind. apply (triple_bind _ _ _ _ _ _ _ (fun x s' => x = v /\ s' = s)); [done|]. intros ? ? [-> ->]. rewrite Hdev.
  eapply triple_bind; [apply (triple_read fuel k v d core st0 b0 [] b0 "vendor" (d_vendor d) _ s Hr); [constructor|set_solver]|].
  intros x s1 [-> H1].
  eapply triple_bind; [apply (triple_read fuel k v d core st0 b0 [] b0 "device" (d_device d) _ s1 H1); [constructor|set_solver]|].
  intros y s2 [-> H2]. rewrite !u16_small by done.
  apply (triple_bind _ _ _ _ _ _ _ (fun _ s' => (str (target v) = "nvme"%string -> Z.land (d_class d) 0xffff00 = 0x010800) /\
    running k v st0 [] b0 s')).
  { destruct (String.eqb_spec "nvme" (str (target v))) as [E|Hn]; [|by split].
    eapply triple_bind; [apply (triple_read fuel k v d core st0 b0 [] b0 "class" (d_class d) _ s2 H2); [constructor|set_solver]|].
    intros cc s3 [-> H3]. destruct (Z.eqb_spec (Z.land (d_class d) 0xffff00) 0x010800) as [Ec|]; [by apply triple_ret|].
    eapply triple_err; [exact H3|constructor]. }
  intros [] s3 [Hclass H3].
  apply (triple_bind _ _ _ _ _ _ _ (fun r s' => running k v st0 [] b0 s' /\
    match r with inr old => b0 = Some old | inl _ => b0 = None end)).
  { pose proof (get_driver_attr fuel k d core (tl_fs s3)) as H. pose proof H3 as (_ & _ & _ & Hb3). rewrite Hb3 in H.
    unfold triple, try, on_fs. destruct b0 as [old|]; rewrite H; by destruct s3. }
  intros r s4 [H4 Hd]. apply (triple_bind _ _ _ _ _ _ _ (free_or_done k v d st0 b0)).
  { destruct r as [e|old].
    - apply triple_ret. split; [by rewrite Hd|]. exists []. rewrite <- Hd. split; [constructor|done].
    - eapply triple_bind; [by apply (triple_printf k v d st0 b0 [] b0)|]. intros [] s5 H5. by eapply triple_release. }
  intros [] s5 H5.
  - destruct H5 as [E5 H5]. apply triple_ret. split; [done|]. split; [done|]. exists [], b0. split; [by constructor|done].
  - destruct H5 as (Hnb & log & Hrel & H5).
    pose proof (triple_new_id fuel k v d core Hne st0 b0 log s5 Hnb Hrel H5) as H6. unfold triple in *.
    destruct (bind _ _ s5) as [[r'|e|] s6]; [|done|done]. by destruct H6 as [-> H6].
Qed.
(** The table of the tool, registered. *)
Definition tool_lib : opt_lib tool_vars := snd (opt_register_table opts desc_null (mk_lib [] 0 0 0 None (mk_process [] [] None vars0))).

Lemma opts_register : opt_register_table opts desc_null (mk_lib [] 0 0 0 None (mk_process [] [] None vars0)) = (Ret tt, tool_lib).
Proof. vm_compute. reflexivity. Qed.

Lemma opts_strings : strings_ok opts.
Proof. vm_compute. repeat constructor; discriminate. Qed.

Lemma opts_describable : Forall describable (opt_table tool_lib).
Proof.
  vm_compute. repeat (apply Forall_cons; split; [right; eexists; split; [reflexivity|by right]|]). constructor.
Qed.

(** The error function ends the process with status 1. *)
Lemma log_exit msg (p : process tool_vars) : exists p', opt_log_stderr_exit msg p = (Crash, p') /\ p_status p' = Some 1.
Proof. eexists. split; reflexivity. Qed.

(** ** Parsing with callbacks that store and an error function that exits *)

Definition storing (e : opt_entry tool_vars) : Prop := forall p arg, p_status p = None ->
  exists p', (if takes_arg e then opt_cb_arg e arg p else opt_cb e p) = (Ret None, p') /\ p_status p' = None.

(** The process goes on with operands, or has ended with status 1. *)
Definition exits_or_goes_on (q : outcome result * process tool_vars) : Prop :=
  match q with
  | (Ret (Some _), p) => p_status p = None
  | (Crash, p) => p_status p = Some 1
  | _ => False
  end.

Lemma flat_index (t : list (opt_entry tool_vars)) j x : x ∈ flat_from t j -> exists e, t !! (x.1 - j)%nat = Some e /\ (j <= x.1)%nat.
Proof.
  revert j. induction t as [|e t IH]; intros j; [by intros ?%elem_of_nil|]. simpl. rewrite elem_of_app.
  intros [Hx|Hx].
  - apply list_elem_of_fmap in Hx as (full & -> & _). simpl. rewrite Nat.sub_diag. eauto.
  - destruct (IH _ Hx) as (e' & He & Hk). exists e'. replace (x.1 - j)%nat with (S (x.1 - (j + 1)))%nat by lia. split; [done|lia].
Qed.

Lemma find_long_in l a i full oa : find_long l a = Some (i, full, oa) -> (i, full) ∈ l.
Proof.
  induction l as [|[j f] l IH]; [done|]. simpl. destruct (long_name f); [|intros H; right; by apply IH].
  destruct (match_long _ _); [intros [= <- <- <-]; left|intros H; right; by apply IH].
Qed.
Lemma find_short_in l c i full : find_short l c = Some (i, full) -> (i, full) ∈ l.
Proof.
  induction l as [|[j f] l IH]; [done|]. simpl. destruct (_ && _); [intros [= <- <-]; left|intros H; right; by apply IH].
Qed.

Lemma spec_total t posix argv0 args p :
  Forall storing t -> p_status p = None ->
  exits_or_goes_on (parse_spec opt_log_stderr_exit t posix 0 argv0 args p).
Proof.
  intros Hst. rewrite Forall_forall in Hst.
  assert (forall text problem q, exits_or_goes_on (spec_err opt_log_stderr_exit argv0 text problem q)) as Herr by (intros; done).
  assert (forall x, x ∈ flat t -> exists e, t !! x.1 = Some e /\ storing e) as Hidx.
  { intros x Hx. destruct (flat_index t 0 x Hx) as (e & He & _). rewrite Nat.sub_0_r in He. exists e.
    split; [done|]. apply Hst. by eapply list_elem_of_lookup_2. }
  assert (forall e full m (j : M (process tool_vars) result) q, p_status q = None ->
    (exists q', m q = (Ret None, q') /\ p_status q' = None) ->
    (forall q', p_status q' = None -> exits_or_goes_on (j q')) ->
    exits_or_goes_on (spec_call opt_log_stderr_exit 0 argv0 e full m j q)) as Hcall.
  { intros e full m j q Hq (q' & Hm & Hq') Hk. unfold spec_call, bind. destruct (_ =? 0); [rewrite Hm|unfold ret]; by apply Hk. }
  remember (length args) as n eqn:En. revert args En p. induction n as [n IH] using lt_wf_ind. intros args -> p Hp.
  destruct args as [|a rest]; [done|]. cbn [parse_spec].
  assert (forall q, p_status q = None -> exits_or_goes_on (parse_spec opt_log_stderr_exit t posix 0 argv0 rest q)) as Hk
    by (intros q Hq; apply (IH (length rest)); [simpl; lia|done|done]).
  assert (forall q b rest', rest = b :: rest' -> p_status q = None ->
    exits_or_goes_on (parse_spec opt_log_stderr_exit t posix 0 argv0 rest' q)) as Hk2
    by (intros q b rest' -> Hq; apply (IH (length rest')); [simpl; lia|done|done]).
  destruct (negb (dash a)).
  { destruct posix; [done|]. specialize (Hk p Hp). unfold bind. destruct (parse_spec _ _ _ _ _ _ _) as [[[ops|]|e|] q]; done. }
  destruct (bool_decide (a = _)); [done|]. destruct (dash (drop 1 a)).
  - destruct (find_long (flat t) a) as [[[i full] oa]|] eqn:Ef; [|done]. apply find_long_in in Ef.
    destruct (Hidx _ Ef) as (e & He & Hs). simpl in He. rewrite He. destruct (takes_arg e) eqn:Et.
    + assert (forall s q, p_status q = None -> exists q', opt_cb_arg e s q = (Ret None, q') /\ p_status q' = None) as Hcb
        by (intros s q Hq; specialize (Hs q s Hq); by rewrite Et in Hs).
      destruct oa, rest; try done; apply Hcall; eauto.
    + assert (forall q, p_status q = None -> exists q', opt_cb e q = (Ret None, q') /\ p_status q' = None) as Hcb
        by (intros q Hq; specialize (Hs q [] Hq); by rewrite Et in Hs).
      destruct oa; try done; apply Hcall; eauto.
  - destruct (bool_decide _); [done|]. revert p Hp. generalize (drop 1 a) as letters.
    induction letters as [|c letters IHl]; intros p Hp; [by apply Hk|]. cbn [spec_letters].
    destruct (find_short (flat t) c) as [[i full]|] eqn:Ef; [|done]. apply find_short_in in Ef.
    destruct (Hidx _ Ef) as (e & He & Hs). simpl in He. rewrite He. destruct (takes_arg e) eqn:Et.
    + assert (forall s q, p_status q = None -> exists q', opt_cb_arg e s q = (Ret None, q') /\ p_status q' = None) as Hcb
        by (intros s q Hq; specialize (Hs q s Hq); by rewrite Et in Hs).
      destruct letters; [|by apply Hcall; eauto]. destruct rest as [|b rest]; [done|]. simpl. apply Hcall; eauto.
    + assert (forall q, p_status q = None -> exists q', opt_cb e q = (Ret None, q') /\ p_status q' = None) as Hcb
        by (intros q Hq; specialize (Hs q [] Hq); by rewrite Et in Hs).
      apply Hcall; eauto.
Qed.

Lemma opts_storing : Forall storing (opt_table tool_lib).
Proof. repeat (apply Forall_cons; split; [intros [o e st vs] arg Hst; simpl in Hst; subst st; eexists; split; reflexivity|]). constructor. Qed.

(** ** Properties *)

Definition parsed (argv0 : cstr) (args : list cstr) : outcome result * process tool_vars :=
  parse_spec opt_log_stderr_exit (opt_table tool_lib) t_posix 0 argv0 args (mk_process [] [] None vars0).

Lemma tool_lib_proc : l_proc tool_lib = mk_process [] [] None vars0.
Proof. reflexivity. Qed.

#[local] Opaque tool_lib.

(** [main] up to the end of [opt_parse]. *)
Lemma main_parsed argv0 args f :
  Forall nonul args ->
  match parsed argv0 args with
  | (Ret (Some operands), p) =>
      p_status p = None /\
      main fuel (tool0 (argv0 :: args) f) =
        (let* v := gets vars_of in
         do* (if show_usage v then on_parse (on_lib (opt_usage_and_exit None)) else ret tt) in
         let* v := gets vars_of in
         do* (if bool_decide (default [] (bdf v) = [])
              then on_parse (on_lib (opt_usage_exit_fail (lit "missing --device parameter"))) else ret tt) in
         do_bind fuel) (mk_tool (mk_parse (lib_with tool_lib argv0 p) (argv0 :: operands) 0) f)
  | _ => exists s, main fuel (tool0 (argv0 :: args) f) = (Crash, s) /\ status_of s = Some 1 /\ tl_fs s = f
  end.
Proof.
  intros Hn. pose proof (spec_total (opt_table tool_lib) t_posix argv0 args (mk_process [] [] None vars0) opts_storing eq_refl) as Ht.
  pose proof (registered_agrees opt_log_stderr_exit opts desc_null (mk_lib [] 0 0 0 None (mk_process [] [] None vars0))
    tool_lib t_posix 0 argv0 args eq_refl opts_strings opts_register Hn) as H.
  rewrite tool_lib_proc in H. fold (parsed argv0 args) in Ht, H.
  assert (forall j : M (tool F) Z,
    bind (on_parse (on_lib (opt_register_table opts desc_null)))
      (fun _ => bind (on_parse (opt_parse opt_log_stderr_exit t_posix)) (fun _ => j)) (tool0 (argv0 :: args) f) =
    bind (on_parse (opt_parse opt_log_stderr_exit t_posix)) (fun _ => j)
      (mk_tool (mk_parse tool_lib (argv0 :: args) 0) f)) as E.
  { intros j. unfold bind at 1, on_parse at 1, on_lib, tool0. cbn [tl_parse pr_lib pr_argv pr_offset tl_fs].
    rewrite opts_register. done. }
  unfold main. rewrite E. clear E.
  pose proof (opt_parse_loop opt_log_stderr_exit t_posix tool_lib argv0 args 0) as Ep.
  rewrite tool_lib_proc in Ep.
  destruct (parsed argv0 args) as [[[ops|]|e|] p]; cbn [agrees app] in H; cbn [exits_or_goes_on] in Ht; [|contradiction Ht..|].
  - split; [done|]. unfold bind at 1, on_parse at 1. cbn [tl_parse tl_fs]. rewrite Ep. unfold bind at 1. by rewrite H.
  - destruct H as (s & H & Hp). exists (mk_tool s f). unfold bind at 1, on_parse at 1. cbn [tl_parse tl_fs]. rewrite Ep.
    unfold bind at 1. rewrite H. split; [done|]. split; [|done]. unfold status_of. simpl. by rewrite Hp.
Qed.

(** Ending with the usage message. *)
Lemma usage_exit argv0 p operands (f : F) :
  exists s, on_parse (on_lib (opt_usage_and_exit (A := unit) None)) (mk_tool (mk_parse (lib_with tool_lib argv0 p) operands 0) f) = (Crash, s) /\
    status_of s = Some 0 /\ tl_fs s = f.
Proof.
  destruct (usage_written (p_vars p) t_columns t_window (opt_table tool_lib) argv0 None opts_describable) as (u & Hu & _).
  unfold on_parse, on_lib, opt_usage_and_exit, usage_of, bind, get. cbn [tl_parse pr_lib lib_with opt_argv0 l_proc opt_table].
  rewrite Hu. eexists. split; [reflexivity|]. done.
Qed.

Lemma usage_exit_fail argv0 p operands msg (f : F) :
  exists s, on_parse (on_lib (opt_usage_exit_fail (A := unit) msg)) (mk_tool (mk_parse (lib_with tool_lib argv0 p) operands 0) f) = (Crash, s) /\
    status_of s = Some 1 /\ tl_fs s = f.
Proof.
  destruct (usage_written (p_vars p) t_columns t_window (opt_table tool_lib) argv0 None opts_describable) as (u & Hu & _).
  unfold on_parse, on_lib, opt_usage_exit_fail, usage_of, bind, get. cbn [tl_parse pr_lib lib_with opt_argv0 l_proc opt_table].
  unfold on_proc at 1. cbn. rewrite Hu. eexists. split; [reflexivity|]. done.
Qed.

(** C35. vfntool, from its arguments to the attributes of the kernel. Whatever the
    arguments: a mistake in them, or no device, ends the process with status 1, and a
    request for help with status 0, before any file is touched. Otherwise, on a kernel
    whose attributes behave as [driver_core] says, [main] always ends, with one of two
    results. It returns 0, and then either the device had the driver asked for and
    nothing was stored; or the device was released from the driver it had (its address
    stored in that driver's unbind and, unless that is refused, its identifiers in its
    remove_id), and the last store accepted is that of its identifiers in the new_id of the
    driver asked for, which then has attempted to bind it, or that of its address in the
    bind of that driver, which then has the device; the device is never left to a third
    driver, and the driver nvme was asked for only for an NVMe device. Or it ends with
    status 1, and then it stored at most the requests that release the device, which is
    bound as before or not at all. *)
Theorem vfntool_main argv0 args f d :
  Forall nonul args ->
  match parsed argv0 args with
  | (Ret (Some _), p) =>
      let v := p_vars p in
      if show_usage v then
        exists s, main fuel (tool0 (argv0 :: args) f) = (Crash, s) /\ status_of s = Some 0 /\ tl_fs s = f
      else if bool_decide (default [] (bdf v) = []) then
        exists s, main fuel (tool0 (argv0 :: args) f) = (Crash, s) /\ status_of s = Some 1 /\ tl_fs s = f
      else
        driver_core fuel k d -> d_bdf d = str (bdf v) ->
        match main fuel (tool0 (argv0 :: args) f) with
        | (Ret r, s) =>
            r = 0 /\ (str (target v) = "nvme"%string -> Z.land (d_class d) 0xffff00 = 0x010800) /\
            exists log, k_stores k (tl_fs s) = k_stores k f ++ log /\
              rebound d (str (target v)) (k_bound k f) log (k_bound k (tl_fs s))
        | (Fail _, _) => False
        | (Crash, s) =>
            status_of s = Some 1 /\
            exists log, k_stores k (tl_fs s) = k_stores k f ++ log /\
              released d (k_bound k f) log (k_bound k (tl_fs s))
        end
  | _ => exists s, main fuel (tool0 (argv0 :: args) f) = (Crash, s) /\ status_of s = Some 1 /\ tl_fs s = f
  end.
Proof.
  intros Hn. pose proof (main_parsed argv0 args f Hn) as H. destruct (parsed argv0 args) as [[[ops|]|e|] p]; try done.
  destruct H as [Hst H]. cbv zeta. rewrite H. clear H. set (s0 := mk_tool _ f).
  assert (gets vars_of s0 = (Ret (p_vars p), s0)) as Ev by done. rewrite (bind_ret _ _ _ _ _ Ev).
  destruct (show_usage (p_vars p)).
  { destruct (usage_exit argv0 p (argv0 :: ops) f) as (s & Hs & H). exists s. fold s0 in Hs. by rewrite (bind_crash _ _ _ _ Hs). }
  rewrite (bind_ret _ _ s0 tt s0), (bind_ret _ _ _ _ _ Ev) by done. destruct (bool_decide_reflect (default [] (bdf (p_vars p)) = [])) as [|Hbdf].
  { destruct (usage_exit_fail argv0 p (argv0 :: ops) (lit "missing --device parameter") f) as (s & Hs & H). exists s.
    fold s0 in Hs. by rewrite (bind_crash _ _ _ _ Hs). }
  intros core Hd. rewrite (bind_ret _ _ s0 tt s0) by done.
  assert (d_bdf d <> EmptyString) as Hne by (rewrite Hd; unfold str; by destruct (default [] (bdf (p_vars p)))).
  pose proof (do_bind_spec (p_vars p) d s0 core (eq_sym Hd) Hne eq_refl Hst) as H.
  unfold triple in H. destruct (do_bind fuel s0) as [[r|e|] s]; [|done|done].
  destruct H as (Hr & Hc & log & b & Hre & _ & _ & Hl & Hb). split; [done|]. split; [done|]. exists log. split; [done|]. by rewrite Hb.
Qed.
End Main.

(** ** A run: one device and the drivers nvme and vfio-pci *)

Definition demo_dev : pci_device := mk_pci_device "0000:01:00.0" 0x144d 0xa808 0x010802.

Inductive demo_driver : Type := nvme_driver | vfio_driver.
Definition driver_name (x : demo_driver) : string := match x with nvme_driver => "nvme" | vfio_driver => "vfio-pci" end.

(** The attributes that can be opened for writing. *)
Inductive demo_attr : Type := at_unbind | at_bind (x : demo_driver) | at_new_id (x : demo_driver) | at_remove_id (x : demo_driver).
Definition attr_path (a : demo_attr) : string :=
  match a with
  | at_unbind => unbind_attr (d_bdf demo_dev)
  | at_bind x => bind_attr (driver_name x)
  | at_new_id x => new_id_attr (driver_name x)
  | at_remove_id x => remove_id_attr (driver_name x)
  end.
Definition demo_attrs : list demo_attr :=
  [at_unbind; at_bind nvme_driver; at_bind vfio_driver; at_new_id nvme_driver; at_new_id vfio_driver;
   at_remove_id nvme_driver; at_remove_id vfio_driver].

(** The driver of the device; the attribute open for writing; the stores accepted
    and the bytes written; what is left to read of the one open for reading. *)
Record demo_host : Type := mk_host {
  h_driver : option demo_driver;
  h_attr : option demo_attr;
  h_log : list (string * cstr);
  h_out : cstr;
  h_in : cstr
}.

Definition attribute (path : string) : cstr :=
  if String.eqb path (devices +:+ d_bdf demo_dev +:+ "/vendor") then lit "0x144d" ++ [newline]
  else if String.eqb path (devices +:+ d_bdf demo_dev +:+ "/device") then lit "0xa808" ++ [newline]
  else lit "0x010802" ++ [newline].

Definition store (a : demo_attr) (text : cstr) (x : option demo_driver) : option demo_driver :=
  match a with
  | at_unbind => if bool_decide (text = lit (d_bdf demo_dev)) then None else x
  | at_bind y => if bool_decide (text = lit (d_bdf demo_dev)) then Some y else x
  | at_new_id y => if bool_decide (text = ids demo_dev) then match x with None => Some y | _ => x end else x
  | at_remove_id _ => x
  end.

Definition host_open (path : string) : M demo_host Z := fun h =>
  match List.find (fun a => String.eqb (attr_path a) path) demo_attrs with
  | Some a => (Ret 3, mk_host (h_driver h) (Some a) (h_log h) (h_out h) (h_in h))
  | None => (Fail ENOENT, h)
  end.
Definition host_write (fd : Z) (bs : cstr) : M demo_host Z := fun h =>
  match h_attr h with
  | Some a => (Ret (Z.of_nat (length bs)),
      mk_host (store a bs (h_driver h)) (h_attr h) (h_log h ++ [(attr_path a, bs)]) (h_out h ++ bs) (h_in h))
  | None => (Fail EINVAL, h)
  end.
Definition host_read (fd n : Z) : M demo_host cstr := fun h =>
  (Ret (take (Z.to_nat n) (h_in h)), mk_host (h_driver h) (h_attr h) (h_log h) (h_out h) (drop (Z.to_nat n) (h_in h))).

#[local] Instance host_files : Files demo_host.
Proof.
  refine {| f_open_wronly := host_open;
    f_open_rdonly path h := (Ret 3, mk_host (h_driver h) (h_attr h) (h_log h) (h_out h) (attribute path)); f_close _ := ret tt;
    f_write := host_write; f_read := host_read;
    f_written h _ := h_out h; f_input h _ := h_in h; f_quota _ := 0%nat |}.
  - done.
  - intros h fd bs. unfold host_write. destruct (h_attr h); [|by split; [|intros []]]. simpl. rewrite Nat2Z.id, firstn_all.
    split_and!; [lia..|done|done|]. intros Hz Hne. by destruct bs.
  - intros h fd n Hn. simpl. rewrite length_take. split; [lia|]. split; [by rewrite take_drop|]. split; [done|].
    intros Ht Hn0. destruct (h_in h); [done|]. destruct (Z.to_nat n) eqn:E; [lia|done].
Defined.

#[local] Instance host_sysfs : SysFs demo_host := {|
  sysfs_files := host_files;
  s_stat h _ := if h_driver h is None then inl ENOENT else inr false;
  s_readlink h _ := match h_driver h with Some x => inr ("../../../bus/pci/drivers/" +:+ driver_name x) | None => inl ENOENT end;
  s_access _ _ := true;
  s_opendir _ _ := inl ENOENT;
  s_closedir _ _ := None;
  s_getenv _ _ := None
|}.

#[local] Instance demo_terminal : Terminal := {| t_columns := None; t_window := None; t_posix := false |}.

Definition demo_kernel : kernel demo_host :=
  mk_kernel (fun h _ => attr_path <$> h_attr h) h_log (fun h => driver_name <$> h_driver h).

Lemma list_of_append (s t : string) :
  String.list_ascii_of_string (s +:+ t) = String.list_ascii_of_string s ++ String.list_ascii_of_string t.
Proof. induction s as [|c s IH]; [done|]. exact (f_equal (cons c) IH). Qed.

(** The path of an attribute of a driver tells the driver and the attribute. *)
Lemma driver_attr_inj x y a b :
  no_slash a = true -> no_slash b = true ->
  "/sys/bus/pci/drivers/" +:+ x +:+ "/" +:+ a = "/sys/bus/pci/drivers/" +:+ y +:+ "/" +:+ b -> x = y /\ a = b.
Proof.
  intros Ha Hb E. assert (a = b) as ->.
  { apply (f_equal strrchr_slash) in E. rewrite <- (append_assoc _ x), <- (append_assoc _ y), !strrchr_last in E by done. by injection E. }
  split; [|done]. apply (f_equal String.list_ascii_of_string) in E. rewrite !list_of_append in E.
  apply app_inv_head, app_inv_tail, (f_equal String.string_of_list_ascii) in E.
  by rewrite !String.string_of_list_ascii_of_string in E.
Qed.

Lemma device_not_driver x y a : unbind_attr x <> "/sys/bus/pci/drivers/" +:+ y +:+ a.
Proof. by unfold unbind_attr. Qed.

Lemma store_accepted a text x : accepted demo_dev (attr_path a) text (driver_name <$> x) (driver_name <$> store a text x).
Proof.
  split.
  - intros E ->. destruct a as [|y|y|y]; [done|..]; exfalso; symmetry in E; by apply device_not_driver in E.
  - intros drv E ->. destruct a as [|y|y|y]; [by apply device_not_driver in E|..];
      apply (driver_attr_inj _ _ _ "bind") in E as [<- E]; done.
  - intros drv E -> Hx. destruct a as [|y|y|y]; [by apply device_not_driver in E|..];
      apply (driver_attr_inj _ _ _ "new_id") in E as [<- E]; try done. destruct x; [done|]. by right.
  - intros drv E. destruct a as [|y|y|y]; [by apply device_not_driver in E|..];
      apply (driver_attr_inj _ _ _ "remove_id") in E as [<- E]; done.
Qed.

Lemma host_open_law path h :
  match host_open path h with
  | (Ret fd, h') => k_open demo_kernel h' fd = Some path /\ k_stores demo_kernel h' = k_stores demo_kernel h /\
      k_bound demo_kernel h' = k_bound demo_kernel h
  | (Fail _, h') => k_stores demo_kernel h' = k_stores demo_kernel h /\ k_bound demo_kernel h' = k_bound demo_kernel h
  | (Crash, _) => False
  end.
Proof.
  unfold host_open. destruct (List.find _ _) as [a|] eqn:E; [|done]. apply List.find_some in E as [_ E%String.eqb_eq].
  simpl. by rewrite E.
Qed.

Lemma demo_core : driver_core 40 demo_kernel demo_dev.
Proof.
  split.
  - apply host_open_law.
  - done.
  - intros fd n h h' ->. done.
  - intros fd h h' ->. done.
  - intros fd bs h path Ho. cbn [f_write sysfs_files host_sysfs host_files]. unfold host_write. simpl in Ho.
    destruct (h_attr h) as [a|] eqn:Ea; [|done]. injection Ho as <-. split; [done|]. split; [done|]. apply store_accepted.
  - intros prop n fd h h' Hin [= <- <-]. rewrite !elem_of_cons, elem_of_nil in Hin.
    destruct Hin as [[= -> ->]|[[= -> ->]|[[= -> ->]|[]]]]; [exists 0%nat|exists 0%nat|exists 1%nat]; (split; [reflexivity|vm_compute; lia]).
  - intros [[[]|] ? ? ? ?]; [| |done];
      (exists "../../../bus/pci/drivers"%string; split; [reflexivity|split; [unfold PATH_MAX; simpl; lia|reflexivity]]).
  - simpl. lia.
  - intros h. simpl. lia.
Qed.

Definition demo_argv : list cstr := [lit "-v"; lit "--device=0000:01:00.0"].
Definition demo_start : demo_host := mk_host (Some nvme_driver) None [] [] [].

(** The device is bound to nvme at first. *)
Lemma vfntool_main_witness :
  match main 40 (tool0 (lit "vfntool" :: demo_argv) demo_start) with
  | (Ret r, s) =>
      r = 0 /\ exists b, rebound demo_dev "vfio-pci" (Some "nvme"%string)
        [(unbind_attr (d_bdf demo_dev), lit "0000:01:00.0"); (remove_id_attr "nvme", lit "144d a808");
         (new_id_attr "vfio-pci", lit "144d a808")] b
  | _ => False
  end.
Proof.
  pose proof (vfntool_main 40 demo_kernel (lit "vfntool") demo_argv demo_start demo_dev
    ltac:(vm_compute; repeat constructor; discriminate)) as H.
  assert (exists p, parsed (lit "vfntool") demo_argv = (Ret (Some []), p) /\ show_usage (p_vars p) = false /\
    bdf (p_vars p) = Some (lit (d_bdf demo_dev)) /\ target (p_vars p) = Some (lit "vfio-pci")) as (p & Ep & E1 & E2 & E3)
    by (eexists; split; [vm_compute; reflexivity|split_and!; reflexivity]).
  rewrite Ep in H. cbv zeta in H. rewrite E1, E2, E3 in H. specialize (H demo_core eq_refl).
  assert (match main 40 (tool0 (lit "vfntool" :: demo_argv) demo_start) with
    | (o, s) => o = Ret 0 /\ h_log (tl_fs s) = [(unbind_attr (d_bdf demo_dev), lit "0000:01:00.0");
         (remove_id_attr "nvme", lit "144d a808"); (new_id_attr "vfio-pci", lit "144d a808")]
    end) as Er by (vm_compute; split; reflexivity).
  destruct (main 40 _) as [[r|e|] s]; [|destruct Er as [Er _]; discriminate Er..].
  destruct Er as [_ Er]. destruct H as (Hr & _ & log & El & Hre). split; [exact Hr|]. eexists.
  simpl in El. rewrite Er in El. rewrite El. exact Hre.
Defined.
