(* ===== verification/Client.v ===== *)
(** * Client: what the command lines of the programs in examples/ and tests/ share

    Entries of a table of options for each kind of variable the programs have, and
    lemmas on programs that end when a check fails. *)

From Stdlib Require String.
From S2P Require Import Prelude Support CStr OptHelpers Opt OptUsage.
Local Open Scope Z_scope.
Local Open Scope vfn_scope.

(** ** Options *)

Section Options.
Context {V : Type}.

(** [OPT_WITHOUT_ARG] with [opt_set_bool]. *)
Definition flag_opt (names : string) (get : V -> bool) (set : V -> bool -> V) (desc : string) : opt_entry V :=
  mk_opt (lit names) OPT_NOARG (on_var get (fun x v => set v x) opt_set_bool) (fun _ => crash) None None 0 (desc_text (lit desc)).

(** [OPT_WITH_ARG] with the setter and the function that shows the value. *)
Definition opt_with (names : string) (cb_arg : cstr -> M (process V) (option cstr)) (show : V -> cstr)
    (desc : string) : opt_entry V :=
  mk_opt (lit names) OPT_HASARG crash cb_arg (Some show) None 0 (desc_text (lit desc)).
Definition charp_opt (names : string) (get : V -> option cstr) (set : V -> option cstr -> V) (desc : string) : opt_entry V :=
  opt_with names (fun arg => on_var get (fun x v => set v x) (opt_set_charp arg)) (fun v => opt_show_charp (get v)) desc.
Definition ulong_opt (names : string) (get : V -> Z) (set : V -> Z -> V) (desc : string) : opt_entry V :=
  opt_with names (fun arg => on_var get (fun x v => set v x) (opt_set_ulongval arg)) (fun v => opt_show_ulongval (get v)) desc.
Definition int_opt (names : string) (get : V -> Z) (set : V -> Z -> V) (desc : string) : opt_entry V :=
  opt_with names (fun arg => on_var get (fun x v => set v x) (opt_set_intval arg)) (fun v => opt_show_intval (get v)) desc.
Definition uint_bi_opt (names : string) (get : V -> Z) (set : V -> Z -> V) (desc : string) : opt_entry V :=
  opt_with names (fun arg => on_var get (fun x v => set v x) (opt_set_uintval_bi arg)) (fun v => opt_show_uintval_bi (get v)) desc.
End Options.

(** ** Constants of the NVMe specification, which the programs take from libnvme *)

Definition nvme_cmd_flush : Z := 0x00.
Definition nvme_cmd_write : Z := 0x01.
Definition nvme_cmd_read : Z := 0x02.
Definition NVME_IDENTIFY_CNS_NS : Z := 0x00.
Definition NVME_NSID_ALL : Z := 0xffffffff.

(** ** Programs that end *)

(** The call ends the process, or fails. *)
Definition never {S A} (m : M S A) : Prop := forall s x s', m s <> (Ret x, s').

Lemma never_bind {S A C} (m : M S A) (k : A -> M S C) : (forall a, never (k a)) -> never (bind m k).
Proof. intros Hk s x s' (a & s1 & _ & E)%bind_Ret. by apply Hk in E. Qed.
Lemma never_crash {S A} : never (@crash S A).
Proof. done. Qed.
Lemma never_on_proc {V A} (m : M (process V) A) : never m -> never (on_proc m).
Proof. intros Hm s x s'. unfold on_proc. destruct (m _) as [[a|e|] p] eqn:E; [by apply Hm in E|done..]. Qed.
Lemma never_on_lib {V A} (m : M (opt_lib V) A) : never m -> never (on_lib m).
Proof. intros Hm s x s'. unfold on_lib. destruct (m _) as [[a|e|] p] eqn:E; [by apply Hm in E|done..]. Qed.
Lemma never_exit {V A} status : never (@exit V A status).
Proof. apply never_bind. intros _. apply never_crash. Qed.

Lemma usage_and_exit_never {term : Terminal} {V A} extra : never (A := A) (opt_usage_and_exit (V := V) extra).
Proof.
  apply never_bind. intros l. destruct (opt_argv0 l); [|apply never_crash].
  do 3 (apply never_bind; intros ?). apply never_on_proc, never_exit.
Qed.
Lemma usage_exit_fail_never {term : Terminal} {V A} msg : never (A := A) (opt_usage_exit_fail (V := V) msg).
Proof. do 5 (apply never_bind; intros ?). apply never_on_proc, never_exit. Qed.

(** A check that was passed. *)
Lemma guard_Ret {S} (b : bool) (m : M S unit) s x s' :
  never m -> (if b then m else ret tt) s = (Ret x, s') -> b = false /\ s' = s.
Proof. intros Hm. destruct b; [by intros ?%Hm|]. by intros [= _ ->]. Qed.
Lemma unless_Ret {S} (b : bool) (m : M S unit) s x s' :
  never m -> (if b then ret tt else m) s = (Ret x, s') -> b = true /\ s' = s.
Proof. intros Hm. destruct b; [|by intros ?%Hm]. by intros [= _ ->]. Qed.
