(* ===== verification/Tap.v ===== *)
(** * Tap: the test harness, ccan/tap/tap.c

    The static variables, the text written to the two streams and the exit status.
    A formatted name or message is given as the text [vasprintf] makes of it, or
    [None] if it runs out of memory.  The harness is compiled without threads. *)

From Stdlib Require String.
From S2P Require Import Prelude CStr OptHelpers Opt.
Local Open Scope Z_scope.
Local Open Scope vfn_scope.

(** ** State *)

(** [todo_msg]: a null pointer, a message on the heap, or one that was freed. *)
Inductive todo_ptr : Type := TodoNull | TodoText (s : cstr) | TodoFreed.

Record tap : Type := mk_tap {
  no_plan : bool;
  skip_all : bool;
  have_plan : bool;
  test_count : Z;
  e_tests : Z;
  failures : Z;
  todo_msg : todo_ptr;
  todo : bool;
  test_died : bool;
  run_once : bool;
  out : cstr;
  err : cstr;
  status : option Z
}.
Definition tap0 : tap := mk_tap false false false 0 0 0 TodoNull false false false [] [] None.

Definition set_plan (np hp : bool) (t : tap) : tap :=
  mk_tap np (skip_all t) hp (test_count t) (e_tests t) (failures t) (todo_msg t) (todo t) (test_died t) (run_once t) (out t) (err t) (status t).
Definition set_skip_all (t : tap) : tap :=
  mk_tap (no_plan t) true (have_plan t) (test_count t) (e_tests t) (failures t) (todo_msg t) (todo t) (test_died t) (run_once t) (out t) (err t) (status t).
Definition set_counts (n e f : Z) (t : tap) : tap :=
  mk_tap (no_plan t) (skip_all t) (have_plan t) n e f (todo_msg t) (todo t) (test_died t) (run_once t) (out t) (err t) (status t).
Definition set_todo (m : todo_ptr) (b : bool) (t : tap) : tap :=
  mk_tap (no_plan t) (skip_all t) (have_plan t) (test_count t) (e_tests t) (failures t) m b (test_died t) (run_once t) (out t) (err t) (status t).
Definition set_died (t : tap) : tap :=
  mk_tap (no_plan t) (skip_all t) (have_plan t) (test_count t) (e_tests t) (failures t) (todo_msg t) (todo t) true (run_once t) (out t) (err t) (status t).
Definition set_once (t : tap) : tap :=
  mk_tap (no_plan t) (skip_all t) (have_plan t) (test_count t) (e_tests t) (failures t) (todo_msg t) (todo t) (test_died t) true (out t) (err t) (status t).
Definition set_status (n : Z) (t : tap) : tap :=
  mk_tap (no_plan t) (skip_all t) (have_plan t) (test_count t) (e_tests t) (failures t) (todo_msg t) (todo t) (test_died t) (run_once t) (out t) (err t) (Some n).

Definition put_out (s : cstr) : M tap unit := modify (fun t =>
  mk_tap (no_plan t) (skip_all t) (have_plan t) (test_count t) (e_tests t) (failures t) (todo_msg t) (todo t) (test_died t) (run_once t)
    (out t ++ s) (err t) (status t)).
Definition put_err (s : cstr) : M tap unit := modify (fun t =>
  mk_tap (no_plan t) (skip_all t) (have_plan t) (test_count t) (e_tests t) (failures t) (todo_msg t) (todo t) (test_died t) (run_once t)
    (out t) (err t ++ s) (status t)).

(** [%d] of an [unsigned int]. *)
Definition fmt_d (n : Z) : cstr := print_int (s32 n).

Definition todo_msg_fixed : cstr := lit "libtap malloc issue".

Definition _diag (msg : cstr) : M tap unit := put_out (lit "# " ++ msg ++ [newline]).

(** [todo_msg ? todo_msg : todo_msg_fixed] *)
Definition load_todo : M tap cstr :=
  let* t := get in
  match todo_msg t with TodoNull => ret todo_msg_fixed | TodoText s => ret s | TodoFreed => crash end.

(** ** Results *)

Definition isdigit (c : ascii) : bool := (48 <=? Z.of_nat (nat_of_ascii c)) && (Z.of_nat (nat_of_ascii c) <=? 57).
Definition name_is_digits (s : cstr) : bool := forallb (fun c => isdigit c || isspace c) s.

Definition escape (s : cstr) : cstr := s ≫= fun c => if bool_decide (c = "#"%char) then ["\"%char; c] else [c].

Section Tap.
(** [tap_fail_callback], if set. *)
Context (tap_fail_callback : option (M tap unit)).

(** [test_name] is [None] for a null pointer, [Some None] when formatting fails;
    [func], [file] and [line] are the place of the test. *)
Definition _gen_result (ok : bool) (func file : cstr) (line : Z) (test_name : option (option cstr)) : M tap Z :=
  do* modify (fun t => set_counts (u32 (test_count t + 1)) (e_tests t) (failures t) t) in
  do* match test_name with
      | Some (Some name) =>
          when (name_is_digits name)
            (do* _diag (lit "    You named your test '" ++ name ++ lit "'.  You shouldn't use numbers for your test names.") in
             _diag (lit "    Very confusing."))
      | _ => ret tt
      end in
  do* when (negb ok)
        (do* put_out (lit "not ") in
         modify (fun t => set_counts (test_count t) (e_tests t) (u32 (failures t + 1)) t)) in
  let* t := get in
  do* put_out (lit "ok " ++ fmt_d (test_count t)) in
  do* match test_name with
      | Some name => put_out (lit " - " ++ match name with Some s => escape s | None => todo_msg_fixed end)
      | None => ret tt
      end in
  do* when (todo t)
        (let* msg := load_todo in
         do* put_out (lit " # TODO " ++ msg) in
         when (negb ok) (modify (fun t => set_counts (test_count t) (e_tests t) (u32 (failures t - 1)) t))) in
  do* put_out [newline] in
  do* when (negb ok)
        (_diag (lit "    Failed " ++ (if todo t then lit "(TODO) " else []) ++ lit "test (" ++ file ++ lit ":" ++ func ++
                lit "() at line " ++ fmt_d line ++ lit ")")) in
  do* match tap_fail_callback with Some cb => when (negb ok) cb | None => ret tt end in
  ret (if ok then 1 else 0).

(** [while (n-- > 0)] *)
Fixpoint skip_loop (n : nat) (msg : cstr) : M tap unit :=
  match n with
  | O => ret tt
  | S n =>
      do* modify (fun t => set_counts (u32 (test_count t + 1)) (e_tests t) (failures t) t) in
      let* t := get in
      do* put_out (lit "ok " ++ fmt_d (test_count t) ++ lit " # skip " ++ msg ++ [newline]) in
      skip_loop n msg
  end.
Definition skip (n : Z) (skip_msg : option cstr) : M tap unit :=
  skip_loop (Z.to_nat n) (default (lit "libtap():malloc() failed") skip_msg).

Definition todo_start (msg : option cstr) : M tap unit :=
  modify (set_todo match msg with Some s => TodoText s | None => TodoNull end true).
(** [free(todo_msg)] leaves the pointer: freeing it again ends the process. *)
Definition todo_end : M tap unit :=
  let* t := get in
  match todo_msg t with
  | TodoNull => modify (set_todo TodoNull false)
  | TodoText _ => modify (set_todo TodoFreed false)
  | TodoFreed => crash
  end.
Definition diag (msg : cstr) : M tap unit := _diag msg.

(** ** The plan and the end *)

(** [forked]: the process is a child of the one that made the plan. *)
Context (forked : bool).

Definition _cleanup : M tap unit :=
  if forked then ret tt
  else
    let* t := get in
    let count := fmt_d (test_count t) in
    if negb (no_plan t) && negb (have_plan t) && negb (skip_all t)
    then _diag (lit "Looks like your test died before it could output anything.")
    else if test_died t then _diag (lit "Looks like your test died just after " ++ count ++ lit ".")
    else
      do* when (negb (skip_all t) && (no_plan t || negb (have_plan t))) (put_out (lit "1.." ++ count ++ [newline])) in
      if (have_plan t && negb (no_plan t)) && (e_tests t <? test_count t)
      then _diag (lit "Looks like you planned " ++ fmt_d (e_tests t) ++ lit " tests but ran " ++
                  fmt_d (u32 (test_count t - e_tests t)) ++ lit " extra.")
      else if (have_plan t || negb (no_plan t)) && (test_count t <? e_tests t) then
        do* _diag (lit "Looks like you planned " ++ fmt_d (e_tests t) ++ lit " tests but only ran " ++ count ++ lit ".") in
        when (negb (failures t =? 0))
          (_diag (lit "Looks like you failed " ++ fmt_d (failures t) ++ lit " tests of " ++ count ++ lit " run."))
      else when (negb (failures t =? 0))
             (_diag (lit "Looks like you failed " ++ fmt_d (failures t) ++ lit " tests of " ++ count ++ lit ".")).

(** [atexit (_cleanup)], once. *)
Definition _tap_init : M tap unit := modify set_once.

(** [exit(n)]: the registered function runs, then the process is gone. *)
Definition exit {A} (n : Z) : M tap A :=
  let* t := get in
  do* when (run_once t) _cleanup in
  do* modify (set_status n) in
  crash.

Definition die {A} (msg : cstr) : M tap A :=
  do* put_err (msg ++ [newline]) in
  do* modify set_died in
  exit 255.

Definition plan_no_plan : M tap unit :=
  do* _tap_init in
  let* t := get in
  if have_plan t then die (lit "You tried to plan twice!") else modify (set_plan true true).

Definition plan_skip_all (reason : option cstr) : M tap unit :=
  do* _tap_init in
  do* modify set_skip_all in
  put_out (lit "1..0" ++ match reason with Some r => lit " # Skip " ++ r | None => [] end ++ [newline]).

Definition _expected_tests (tests : Z) : M tap unit :=
  do* put_out (lit "1.." ++ fmt_d tests ++ [newline]) in
  modify (fun t => set_counts (test_count t) tests (failures t) t).

Definition plan_tests (tests : Z) : M tap unit :=
  do* _tap_init in
  let* t := get in
  if have_plan t then die (lit "You tried to plan twice!")
  else if tests =? 0 then die (lit "You said to run 0 tests!  You've got to run something.")
  else
    do* modify (fun t => set_plan (no_plan t) true t) in
    _expected_tests tests.

Definition exit_status_ : M tap Z := gets (fun t =>
  if no_plan t || negb (have_plan t) then s32 (failures t)
  else if e_tests t <? test_count t then s32 (u32 (test_count t - e_tests t))
  else s32 (u32 (failures t + e_tests t - test_count t))).

Definition exit_status : M tap Z :=
  let* r := exit_status_ in
  ret (if 255 <? r then 255 else r).
End Tap.

(** ** The verdict *)

(** What a test program does between the plan and the end. *)
Inductive event : Type :=
| Ok (ok : bool) (func file : cstr) (line : Z) (name : option (option cstr))
| Skip (n : Z) (msg : option cstr)
| TodoStart (msg : option cstr)
| TodoEnd
| Diag (msg : cstr).

Definition run_event (e : event) : M tap unit :=
  match e with
  | Ok ok func file line name => do* _gen_result None ok func file line name in ret tt
  | Skip n msg => skip n msg
  | TodoStart msg => todo_start msg
  | TodoEnd => todo_end
  | Diag msg => diag msg
  end.
Fixpoint run_events (es : list event) : M tap unit :=
  match es with
  | [] => ret tt
  | e :: es => do* run_event e in run_events es
  end.

(** The tests run, and those that failed and were not expected to. *)
Definition tests_in (e : event) : Z := match e with Ok _ _ _ _ _ => 1 | Skip n _ => n | _ => 0 end.
Fixpoint tests_run (es : list event) : Z := match es with [] => 0 | e :: es => tests_in e + tests_run es end.
Fixpoint tests_failed (in_todo : bool) (es : list event) : Z :=
  match es with
  | [] => 0
  | Ok ok _ _ _ _ :: es => (if ok || in_todo then 0 else 1) + tests_failed in_todo es
  | TodoStart _ :: es => tests_failed true es
  | TodoEnd :: es => tests_failed false es
  | _ :: es => tests_failed in_todo es
  end.

(** No message is freed twice, from the pointer [p] on. *)
Fixpoint freed_once (p : todo_ptr) (es : list event) : bool :=
  match es with
  | [] => true
  | TodoStart msg :: es => freed_once match msg with Some s => TodoText s | None => TodoNull end es
  | TodoEnd :: es => match p with TodoNull => freed_once TodoNull es | TodoText _ => freed_once TodoFreed es | TodoFreed => false end
  | _ :: es => freed_once p es
  end.

(** In a part that is expected to fail the message is there. *)
Definition todo_ok (t : tap) : Prop := todo t = true -> todo_msg t <> TodoFreed.

(** The counters of the harness, and what no event changes. *)
Definition counts (n f : Z) (td : bool) (p : todo_ptr) (t t' : tap) : Prop :=
  test_count t' = n /\ failures t' = f /\ todo t' = td /\ todo_msg t' = p /\ e_tests t' = e_tests t /\
  no_plan t' = no_plan t /\ have_plan t' = have_plan t /\ skip_all t' = skip_all t /\ test_died t' = test_died t.

Lemma counts_trans n f td p n' f' td' p' t t1 t2 :
  counts n f td p t t1 -> counts n' f' td' p' t1 t2 -> counts n' f' td' p' t t2.
Proof. unfold counts. intros (? & ? & ? & ? & ? & ? & ? & ? & ?) (? & ? & ? & ? & ? & ? & ? & ? & ?). split_and!; congruence. Qed.

Lemma gen_result_counts ok func file line name t :
  0 <= test_count t < 0x7fffffff -> 0 <= failures t < 0x7fffffff -> todo_ok t ->
  exists t', run_event (Ok ok func file line name) t = (Ret tt, t') /\
    counts (test_count t + 1) (failures t + if ok || todo t then 0 else 1) (todo t) (todo_msg t) t t'.
Proof.
  intros Hn Hf Ht. unfold run_event, _gen_result, load_todo, bind, modify, get, put_out, _diag, when, ret.
  destruct ok; destruct (todo t) eqn:Et; destruct name as [[name|]|]; simpl;
    try destruct (name_is_digits name); simpl; rewrite ?Et; simpl;
    destruct (todo_msg t) eqn:Em; try (exfalso; by apply (Ht Et)); simpl; rewrite ?Em; simpl; (eexists; split; [reflexivity|]);
    unfold counts; simpl; rewrite ?Et; unfold u32; split_and!; try done; Z.div_mod_to_equations; lia.
Qed.

Lemma skip_counts n msg t :
  0 <= test_count t -> test_count t + Z.of_nat n < 0x100000000 ->
  exists t', skip_loop n msg t = (Ret tt, t') /\ counts (test_count t + Z.of_nat n) (failures t) (todo t) (todo_msg t) t t'.
Proof.
  revert t. induction n as [|n IH]; intros t Hn Hb.
  { exists t. split; [done|]. unfold counts. rewrite Z.add_0_r. by split_and!. }
  cbn [skip_loop]. unfold bind at 1, modify at 1. unfold bind at 1, get at 1. unfold bind at 1, put_out, modify.
  match goal with |- exists t', skip_loop n msg ?t1 = _ /\ _ => destruct (IH t1) as (t' & E & Hc) end; simpl in *.
  - unfold u32. rewrite Z.mod_small; lia.
  - unfold u32. rewrite Z.mod_small; lia.
  - exists t'. split; [done|]. unfold counts in *. simpl in Hc. unfold u32 in Hc. rewrite Z.mod_small in Hc by lia.
    destruct Hc as (-> & Hc). split; [lia|done].
Qed.

(** What an event that is carried out does to the failures and the pointer. *)
Definition event_effect (e : event) (t : tap) (f : Z) (td : bool) (p : todo_ptr) : Prop :=
  (forall es, tests_failed (todo t) (e :: es) = f - failures t + tests_failed td es) /\ failures t <= f <= failures t + tests_in e /\
  (forall es, freed_once (todo_msg t) (e :: es) = freed_once p es).

Lemma event_counts e t :
  0 <= test_count t -> 0 <= failures t <= test_count t -> 0 <= tests_in e -> test_count t + tests_in e < 0x80000000 -> todo_ok t ->
  (exists t' f td p, run_event e t = (Ret tt, t') /\ counts (test_count t + tests_in e) f td p t t' /\ event_effect e t f td p /\ todo_ok t') \/
  (e = TodoEnd /\ todo_msg t = TodoFreed).
Proof.
  intros Hn Hf He Hb Ht. unfold event_effect, todo_ok in *. destruct e as [ok func file line name|n msg|msg| |msg]; simpl in *.
  - destruct (gen_result_counts ok func file line name t) as (t' & E & Hc); [lia|lia|done|]. left. eexists t', _, _, _.
    split; [exact E|]. split; [exact Hc|]. destruct Hc as (_ & _ & -> & -> & _). split; [|done].
    split; [intros es|split; [|done]]; destruct (ok || todo t); lia.
  - destruct (skip_counts (Z.to_nat n) (default (lit "libtap():malloc() failed") msg) t) as (t' & E & Hc); [lia|lia|].
    rewrite Z2Nat.id in Hc by done. left. eexists t', _, _, _. split; [exact E|]. split; [exact Hc|].
    destruct Hc as (_ & _ & -> & -> & _). split; [|done]. split; [intros es|split; [|done]]; lia.
  - left. eexists _, (failures t), true, _. split; [reflexivity|]. rewrite Z.add_0_r. split; [by split_and!|]. simpl.
    split; [|by destruct msg]. split; [intros es; lia|]. split; [lia|done].
  - destruct (todo_msg t) as [|m|] eqn:Em; [left|left|by right]; unfold todo_end, bind, get; rewrite Em;
      eexists _, (failures t), false, _; (split; [reflexivity|]); rewrite Z.add_0_r; (split; [by split_and!|]);
      (split; [|done]); (split; [intros es; lia|]); (split; [lia|by rewrite ?Em]).
  - left. eexists _, (failures t), (todo t), _. split; [reflexivity|]. rewrite Z.add_0_r. split; [by split_and!|]. split; [|done].
    split; [intros es; lia|]. split; [lia|done].
Qed.

Lemma events_counts es t :
  0 <= test_count t -> 0 <= failures t <= test_count t -> Forall (fun e => 0 <= tests_in e) es ->
  test_count t + tests_run es < 0x80000000 -> todo_ok t ->
  if freed_once (todo_msg t) es then
    exists t' td p, run_events es t = (Ret tt, t') /\
      counts (test_count t + tests_run es) (failures t + tests_failed (todo t) es) td p t t' /\
      0 <= tests_failed (todo t) es <= tests_run es
  else fst (run_events es t) = Crash.
Proof.
  revert t. induction es as [|e es IH]; intros t Hn Hf HF Hb Ht.
  { simpl. exists t, (todo t), (todo_msg t). rewrite !Z.add_0_r. split; [done|]. split; [by split_and!|lia]. }
  apply Forall_cons in HF as [He HF]. simpl in Hb.
  assert (0 <= tests_run es) as Hpos by (clear -HF; induction HF; simpl; lia).
  destruct (event_counts e t) as [(t1 & f & td & p & E1 & Hc1 & (Hfail & Hf1 & Hfree) & Ht1)|[-> Em]]; [lia|lia|lia|lia|done| |].
  2: { cbn [run_events freed_once]. rewrite Em. cbn [run_event]. unfold todo_end, bind, get. by rewrite Em. }
  pose proof Hc1 as (C1 & C2 & C3 & C4 & _).
  specialize (IH t1 ltac:(lia) ltac:(lia) HF ltac:(lia) Ht1). rewrite Hfree. simpl run_events. rewrite (bind_ret _ _ _ _ _ E1).
  rewrite C4, C3 in IH. destruct (freed_once p es); [|done]. destruct IH as (t' & td' & p' & E' & Hc' & Hr').
  exists t', td', p'. split; [done|]. rewrite Hfail. simpl tests_run. split; [|lia].
  pose proof (counts_trans _ _ _ _ _ _ _ _ _ _ _ Hc1 Hc') as Hc. rewrite C1, C2 in Hc.
  replace (test_count t + (tests_in e + tests_run es)) with (test_count t + tests_in e + tests_run es) by lia.
  replace (failures t + (f - failures t + tests_failed td es)) with (f + tests_failed td es) by lia. done.
Qed.

Lemma plan_tests_counts plan :
  plan <> 0 -> exists t, plan_tests false plan tap0 = (Ret tt, t) /\ test_count t = 0 /\ failures t = 0 /\ todo t = false /\
    todo_msg t = TodoNull /\ e_tests t = plan /\ no_plan t = false /\ have_plan t = true.
Proof.
  intros Hp. eexists. split; [|shelve]. unfold plan_tests, _tap_init, bind, modify, get. simpl.
  rewrite (proj2 (Z.eqb_neq plan 0) Hp). reflexivity.
  Unshelve. by split_and!.
Qed.

(** C39. The verdict of a test program, for fewer than 2^31 tests and without a
    failure callback.  After [plan_tests], whatever tests it runs, skips or expects to fail: unless it ends a part that is expected to
    fail twice and so frees its message twice, which ends the process, the exit
    status is 0 exactly if as many tests were run as were planned and none failed
    that was not expected to; otherwise it is the number of tests too many, or of
    failures and of tests not run, up to 255. *)
Theorem tap_verdict plan es :
  0 < plan < 0x80000000 -> Forall (fun e => 0 <= tests_in e) es -> plan + tests_run es < 0x80000000 ->
  let run := (do* plan_tests false plan in do* run_events es in exit_status) tap0 in
  if freed_once TodoNull es then
    exists t' r, run = (Ret r, t') /\
      r = Z.min 255 (if plan <? tests_run es then tests_run es - plan else tests_failed false es + (plan - tests_run es)) /\
      0 <= r /\ (r = 0 <-> tests_run es = plan /\ tests_failed false es = 0)
  else fst run = Crash.
Proof.
  intros Hp HF Hb run. destruct (plan_tests_counts plan) as (t0 & E0 & P1 & P2 & P3 & P7 & P4 & P5 & P6); [lia|].
  pose proof (events_counts es t0 ltac:(lia) ltac:(lia) HF ltac:(lia) ltac:(unfold todo_ok; congruence)) as He.
  unfold run. rewrite (bind_ret _ _ _ _ _ E0). rewrite P7 in He. destruct (freed_once TodoNull es).
  2: { unfold bind. destruct (run_events es t0) as [[]]; done. }
  destruct He as (t' & td & p & E & (C1 & C2 & _ & _ & C4 & C5 & C6 & _) & Hr).
  rewrite P1, P2, P3, P4, P5, P6 in *. rewrite (bind_ret _ _ _ _ _ E).
  unfold exit_status, exit_status_, bind, gets, ret. rewrite C1, C2, C4, C5, C6, !Z.add_0_l. cbn [orb negb].
  eexists t', _. split; [reflexivity|]. assert (0 <= tests_run es) by lia. unfold s32, u32. destruct (Z.ltb_spec plan (tests_run es)).
  - rewrite (Z.mod_small (tests_run es - plan)), Z.mod_small by lia. destruct (Z.ltb_spec 255 (tests_run es - plan + 0x80000000 - 0x80000000)); lia.
  - rewrite (Z.mod_small (tests_failed false es + plan - tests_run es)), Z.mod_small by lia.
    destruct (Z.ltb_spec 255 (tests_failed false es + plan - tests_run es + 0x80000000 - 0x80000000)); lia.
Qed.

Lemma tap_verdict_witness :
  exists t' r, (do* plan_tests false 3 in
    do* run_events [Ok true [] [] 1 None; TodoStart (Some []); Ok false [] [] 2 None; TodoEnd; Skip 1 None] in exit_status) tap0 = (Ret r, t') /\ r = 0.
Proof.
  destruct (tap_verdict 3 [Ok true [] [] 1 None; TodoStart (Some []); Ok false [] [] 2 None; TodoEnd; Skip 1 None]) as (t' & r & H1 & _ & _ & H2).
  - lia.
  - repeat constructor; simpl; lia.
  - simpl. lia.
  - exists t', r. split; [exact H1|]. apply H2. split; reflexivity.
Defined.

(** ** Where the code departs *)

(** A part that is ended twice: [todo_end] frees the message and keeps the pointer. *)
Lemma todo_end_frees_twice : fst (run_events [TodoStart (Some []); TodoEnd; TodoEnd] tap0) = Crash.
Proof. reflexivity. Qed.
