(* ===== verification/Iommufd.v ===== *)
(** * Iommufd: the iommufd backend, src/iommu/iommufd.c

    A context of this backend is an I/O address space (IOAS) of the kernel's
    iommufd; devices are bound to the iommufd and attached to the address space
    ([iommufd_get_device_fd]), and the address space is freed with its last
    device ([iommufd_put_device_fd]).  The kernel is the class [IommufdKernel]:
    the ioctls, and what their documentation says of the table of mappings of
    each address space.  The backend discharges the contract [BackendLaws]. *)

From Stdlib Require String.
From S2P Require Import Prelude CStr Io Pci Support Skiplist IovaAlloc VfioIova Dma VfioDma.
Local Open Scope Z_scope.
Local Open Scope vfn_scope.

Definition IOMMU_IOAS_MAP_FIXED_IOVA : Z := Z.shiftl 1 0.
Definition IOMMU_IOAS_MAP_WRITEABLE : Z := Z.shiftl 1 1.
Definition IOMMU_IOAS_MAP_READABLE : Z := Z.shiftl 1 2.

(** An entry of the table of an address space: address, length, virtual
    address.  The kernel maps where it was asked to, or at an address it
    chooses; either way apart from the mappings there are.  The last byte of the
    64-bit address space is assumed not to be mapped. *)
Class IommufdKernel (K : Type) {fs : SysFs K} : Type := {
  (** [open(path, O_RDWR)] *)
  k_open : string -> M K Z;
  (** [IOMMU_IOAS_ALLOC]: the identifier *)
  io_alloc : Z -> M K Z;
  (** [IOMMU_IOAS_IOVA_RANGES] with room for [num_iovas] ranges: the error, the
      number of ranges there are, the ranges stored *)
  io_iova_ranges : Z -> Z -> Z -> K -> (option errno * Z * list iommu_iova_range) * K;
  (** [IOMMU_IOAS_MAP] of the identifier, flags, virtual address, length and
      address *)
  io_map : Z -> Z -> Z -> Z -> Z -> Z -> M K Z;
  (** [IOMMU_IOAS_UNMAP] of the identifier, address and length *)
  io_unmap : Z -> Z -> Z -> Z -> M K unit;
  (** [VFIO_DEVICE_BIND_IOMMUFD] of a device: its identifier *)
  io_bind : Z -> Z -> M K Z;
  (** [VFIO_DEVICE_ATTACH_IOMMUFD_PT] *)
  io_attach : Z -> Z -> M K unit;
  (** [IOMMU_FAULT_QUEUE_ALLOC]: identifier and descriptor *)
  io_fault_queue_alloc : Z -> M K (Z * Z);
  (** [IOMMU_HWPT_ALLOC] of the page table, device and fault queue *)
  io_hwpt_alloc : Z -> Z -> Z -> Z -> M K Z;
  io_table : K -> Z -> list (Z * Z * Z);
  io_map_law k fd id flags vaddr len iova :
    0 < len ->
    match io_map fd id flags vaddr len iova k with
    | (Ret i, k') =>
        io_table k' id ≡ₚ (i, len, vaddr) :: io_table k id /\
        Forall (fun e => disj (i, len) (e.1.1, e.1.2)) (io_table k id) /\
        0 <= i /\ i + len <= UINT64_MAX /\
        (flag_set flags IOMMU_IOAS_MAP_FIXED_IOVA = true -> i = iova) /\
        (forall id', id' <> id -> io_table k' id' = io_table k id')
    | (Fail _, k') => forall id', io_table k' id' = io_table k id'
    | (Crash, _) => False
    end;
  io_unmap_law k fd id iova len vaddr t :
    io_table k id ≡ₚ (iova, len, vaddr) :: t ->
    match io_unmap fd id iova len k with
    | (Ret _, k') => io_table k' id ≡ₚ t /\ (forall id', id' <> id -> io_table k' id' = io_table k id')
    | (Fail _, k') => forall id', io_table k' id' = io_table k id'
    | (Crash, _) => False
    end;
  io_unmap_all_law k fd id :
    match io_unmap fd id 0 UINT64_MAX k with
    | (Ret _, k') => io_table k' id = [] /\ (forall id', id' <> id -> io_table k' id' = io_table k id')
    | (Fail _, k') => forall id', io_table k' id' = io_table k id'
    | (Crash, _) => False
    end
}.

(** struct iommu_ioas, besides its context; the ranges are those of the context. *)
Record iommu_ioas : Type := mk_ioas {
  io_id : Z;
  io_name : string;
  io_ranges : list iommu_iova_range
}.

(** What the operations of a context see: the descriptor [__iommufd], the
    address space and the kernel. *)
Record ioas_backend (K : Type) : Type := mk_ib {
  ib_fd : Z;
  ib_ioas : iommu_ioas;
  ib_kernel : K
}.
Arguments mk_ib {K}.
Arguments ib_fd {K}.
Arguments ib_ioas {K}.
Arguments ib_kernel {K}.

(** ** Mappings *)

Section Ops.
Context {K : Type} {fs : SysFs K} {kernel : IommufdKernel K}.

Definition on_ib_kernel {A} (m : M K A) : M (ioas_backend K) A := fun b =>
  let '(r, k) := m (ib_kernel b) in (r, mk_ib (ib_fd b) (ib_ioas b) k).

Definition ioas_map_flags (flags : Z) : Z :=
  let fl := Z.lor IOMMU_IOAS_MAP_READABLE IOMMU_IOAS_MAP_WRITEABLE in
  let fl := if flag_set flags IOMMU_MAP_FIXED_IOVA then Z.lor fl IOMMU_IOAS_MAP_FIXED_IOVA else fl in
  let fl := if flag_set flags IOMMU_MAP_NOWRITE then Z.land fl (Z.lnot IOMMU_IOAS_MAP_WRITEABLE) else fl in
  if flag_set flags IOMMU_MAP_NOREAD then Z.land fl (Z.lnot IOMMU_IOAS_MAP_READABLE) else fl.

(** The field [iova] of the argument is zero unless the address is fixed. *)
Definition iommu_ioas_do_dma_map (vaddr len iova flags : Z) : M (ioas_backend K) Z :=
  let* b := get in
  let map_iova := if flag_set flags IOMMU_MAP_FIXED_IOVA then iova else 0 in
  let* out := on_ib_kernel (io_map (ib_fd b) (io_id (ib_ioas b)) (ioas_map_flags flags) vaddr len map_iova) in
  if flag_set flags IOMMU_MAP_FIXED_IOVA then ret iova else ret out.

Definition iommu_ioas_do_dma_unmap (iova len : Z) : M (ioas_backend K) unit :=
  let* b := get in
  on_ib_kernel (io_unmap (ib_fd b) (io_id (ib_ioas b)) iova len).

Definition iommu_ioas_do_dma_unmap_all : M (ioas_backend K) unit := iommu_ioas_do_dma_unmap 0 UINT64_MAX.

Definition iommufd_ops : iommu_ctx_ops (ioas_backend K) := {|
  iova_reserve := None;
  iova_reserve_align := None;
  iova_put_ephemeral := None;
  dma_map := iommu_ioas_do_dma_map;
  dma_unmap := iommu_ioas_do_dma_unmap;
  dma_unmap_all := Some iommu_ioas_do_dma_unmap_all
|}.

(** ** The contract of the mapping layer *)

Definition ib_table (b : ioas_backend K) : list (Z * Z * Z) := io_table (ib_kernel b) (io_id (ib_ioas b)).

(** The identifier of the address space, and the tables of the others. *)
Variables (id0 : Z) (others : Z -> list (Z * Z * Z)).

(** The kernel maps exactly [ms] in the address space, apart from each other,
    and [others] in the others. *)
Definition ioas_inv (b : ioas_backend K) (ms : list iova_mapping) : Prop :=
  ib_table b ≡ₚ m_entry <$> ms /\ apart (m_iv <$> ms) /\
  Forall (fun m => 0 <= m_iova m /\ m_iova m + m_len m <= UINT64_MAX) ms /\
  io_id (ib_ioas b) = id0 /\ (forall id, id <> id0 -> io_table (ib_kernel b) id = others id).

#[global] Instance ioas_inv_perm b : Proper ((≡ₚ) ==> iff) (ioas_inv b).
Proof. intros ms ms' Hp. unfold ioas_inv. by rewrite Hp. Qed.

Lemma ioas_fixed_flag flags :
  flag_set (ioas_map_flags flags) IOMMU_IOAS_MAP_FIXED_IOVA = flag_set flags IOMMU_MAP_FIXED_IOVA.
Proof.
  unfold ioas_map_flags. by destruct (flag_set flags IOMMU_MAP_FIXED_IOVA), (flag_set flags IOMMU_MAP_NOWRITE),
    (flag_set flags IOMMU_MAP_NOREAD).
Qed.

(** One mapping call of the backend, at a fixed address or not: the other
    address spaces are left alone. *)
Lemma ioas_dma_map_inv b ms vaddr len iova flags :
  ioas_inv b ms -> 0 < len ->
  match iommu_ioas_do_dma_map vaddr len iova flags b with
  | (Ret i, b') => ioas_inv b' (mk_mapping vaddr len i flags :: ms)
  | (Fail _, b') => ioas_inv b' ms
  | (Crash, _) => False
  end.
Proof.
  intros (Ht & Hap & Hb & Hid0 & Hoth) Hl. unfold iommu_ioas_do_dma_map, bind, get, on_ib_kernel.
  pose proof (io_map_law (ib_kernel b) (ib_fd b) (io_id (ib_ioas b)) (ioas_map_flags flags) vaddr len
    (if flag_set flags IOMMU_MAP_FIXED_IOVA then iova else 0) Hl) as H.
  rewrite ioas_fixed_flag in H. destruct (io_map _ _ _ _ _ _ _) as [[i|e|] k']; [..|done].
  - destruct H as (H1 & H2 & H3 & H4 & H5 & H6). fold (ib_table b) in H1, H2.
    assert (ioas_inv (mk_ib (ib_fd b) (ib_ioas b) k') (mk_mapping vaddr len i flags :: ms)) as Hinv.
    { split; [unfold ib_table; simpl; by rewrite H1, Ht|]. split; [|split; [by constructor|split; [done|]; intros id Hid; simpl; rewrite H6 by congruence; by apply Hoth]].
      simpl. apply apart_cons. split; [|done]. rewrite Ht, Forall_fmap in H2. rewrite Forall_fmap.
      eapply Forall_impl; [exact H2|]. done. }
    destruct (flag_set flags IOMMU_MAP_FIXED_IOVA); [|done]. by rewrite <- (H5 eq_refl).
  - split; [unfold ib_table; simpl; by rewrite H|]. split; [done|]. split; [done|]. split; [done|].
    intros id Hid. simpl. rewrite H. by apply Hoth.
Qed.

Lemma ioas_law_dma_unmap b m ms :
  ioas_inv b (m :: ms) ->
  match iommu_ioas_do_dma_unmap (m_iova m) (m_len m) b with
  | (Ret _, b') => ioas_inv b' ms
  | (Fail _, b') => ioas_inv b' (m :: ms)
  | (Crash, _) => False
  end.
Proof.
  intros (Ht & Hap & Hb & Hid0 & Hoth). unfold iommu_ioas_do_dma_unmap, bind, get, on_ib_kernel.
  pose proof (io_unmap_law (ib_kernel b) (ib_fd b) _ _ _ _ _ Ht) as H.
  destruct (io_unmap _ _ _ _ _) as [[[]|e|] k']; [..|done].
  - split; [apply H|]. apply apart_cons in Hap as [_ Hap]. apply Forall_cons in Hb as [_ Hb].
    split; [done|]. split; [done|]. split; [done|]. intros id Hid. simpl. rewrite (proj2 H) by congruence. by apply Hoth.
  - split; [unfold ib_table; simpl; by rewrite H|]. split; [done|]. split; [done|]. split; [done|].
    intros id Hid. simpl. rewrite H. by apply Hoth.
Qed.

Lemma ioas_law_unmap b m ms :
  ioas_inv b (m :: ms) ->
  match backend_unmap iommufd_ops m b with
  | (Ret _, b') => ioas_inv b' ms
  | (Fail _, b') => ioas_inv b' (m :: ms)
  | (Crash, _) => False
  end.
Proof.
  intros Hi. pose proof (ioas_law_dma_unmap _ _ _ Hi) as H. unfold backend_unmap. simpl. unfold bind at 1.
  by destruct (iommu_ioas_do_dma_unmap _ _ _) as [[[]|e|] b'].
Qed.

Lemma ioas_law_map b ms vaddr len iova flags indet :
  ioas_inv b ms -> 0 < len -> flag_set flags IOMMU_MAP_FIXED_IOVA = false ->
  match backend_map iommufd_ops vaddr len iova flags indet b with
  | (Ret i, b') => ioas_inv b' (mk_mapping vaddr len i flags :: ms)
  | (Fail _, b') => ioas_inv b' ms
  | (Crash, _) => False
  end.
Proof. intros Hi Hl Hf. unfold backend_map. rewrite Hf. by apply ioas_dma_map_inv. Qed.

Lemma ioas_law_unmap_all b ms unmap_all :
  ioas_inv b ms -> dma_unmap_all iommufd_ops = Some unmap_all ->
  match unmap_all b with
  | (Ret _, b') => ioas_inv b' []
  | (Fail _, b') => ioas_inv b' ms
  | (Crash, _) => False
  end.
Proof.
  intros (Ht & Hap & Hb & Hid0 & Hoth) [= <-].
  unfold iommu_ioas_do_dma_unmap_all, iommu_ioas_do_dma_unmap, bind, get, on_ib_kernel.
  pose proof (io_unmap_all_law (ib_kernel b) (ib_fd b) (io_id (ib_ioas b))) as H.
  destruct (io_unmap _ _ _ _ _) as [[[]|e|] k']; [..|done].
  - split; [unfold ib_table; simpl; by rewrite (proj1 H)|]. split; [constructor|]. split; [constructor|]. split; [done|].
    intros id Hid. simpl. rewrite (proj2 H) by congruence. by apply Hoth.
  - split; [unfold ib_table; simpl; by rewrite H|]. split; [done|]. split; [done|]. split; [done|].
    intros id Hid. simpl. rewrite H. by apply Hoth.
Qed.

Definition iommufd_laws : BackendLaws iommufd_ops.
Proof.
  refine {| binv := ioas_inv; binv_perm := ioas_inv_perm; law_map := ioas_law_map;
    law_unmap := ioas_law_unmap; law_dma_unmap := ioas_law_dma_unmap;
    law_unmap_all := ioas_law_unmap_all |}.
  - by intros b ms (_ & ? & ? & _).
  - done.
Defined.
End Ops.

Section Coherence.
Context {K : Type} {fs : SysFs K} {kernel : IommufdKernel K}.

(** C8. End to end: a context of the iommufd backend used through
    [iommu_map_vaddr], [iommu_unmap_vaddr] and [iommu_unmap_all] keeps its map
    and the kernel's table of its address space in agreement.  The process
    never ends in a call; every entry of the table translates as the table
    says, and every translation is in the table; no two entries share an I/O
    address; and the tables of the other address spaces never change. *)
Theorem iommufd_context_coherent rands b c :
  ib_table b = [] ->
  rtc (fun c c' => exists r, ctx_step iommufd_ops c r c') (iommu_ctx_init rands b) c ->
  (forall r c', ctx_step iommufd_ops c r c' -> r <> Crash) /\
  (forall v i, iommu_translate_vaddr c v = Some i <->
     exists iova len vaddr, (iova, len, vaddr) ∈ ib_table (backend c) /\
       vaddr <= v < vaddr + len /\ i = iova + (v - vaddr)) /\
  apart ((fun e => (e.1.1, e.1.2)) <$> ib_table (backend c)) /\
  (forall id, id <> io_id (ib_ioas b) -> io_table (ib_kernel (backend c)) id = io_table (ib_kernel b) id).
Proof.
  intros Ht Hs. set (laws := iommufd_laws (io_id (ib_ioas b)) (io_table (ib_kernel b))).
  assert (@ctx_inv _ iommufd_ops laws c) as Hi.
  { apply ctx_reachable_inv. exists rands, b. split; [|done]. split; [by rewrite Ht|].
    split; [constructor|]. split; [constructor|done]. }
  split; [intros r c' Hst; by apply (@ctx_step_inv _ iommufd_ops laws c r c')|].
  destruct Hi as (ms & Hok & (Hc & Hap & Hbd & _ & Hoth)). split; [|split; [|exact Hoth]].
  - intros v i. by eapply table_translation.
  - rewrite Hc, <- list_fmap_compose. exact Hap.
Qed.
End Coherence.

(** ** Address spaces and devices *)

(** struct iommufd_device_info; the address space is named by its address. *)
Record iommufd_device_info : Type := mk_info {
  info_bdf : string;
  info_dev_fd : Z;
  info_dev_id : Z;
  info_hwpt_id : Z;
  info_ioas : nat
}.

(** struct iommufd_fault_queue *)
Record iommufd_fault_queue : Type := mk_fq { fault_id : Z; fault_fd : Z }.

(** The globals [__iommufd] and [iommufd_devices], the address spaces that are
    allocated, by address, and the kernel. *)
Record iommufd_sys (K : Type) : Type := mk_sys {
  sys_fd : Z;
  sys_devices : list iommufd_device_info;
  sys_ioas : gmap nat (iommu_ctx iommu_ioas);
  sys_fresh : nat;
  sys_kernel : K
}.
Arguments mk_sys {K}.
Arguments sys_fd {K}.
Arguments sys_devices {K}.
Arguments sys_ioas {K}.
Arguments sys_fresh {K}.
Arguments sys_kernel {K}.

Section Devices.
Context {K : Type} {fs : SysFs K} {kernel : IommufdKernel K}.

Definition on_sys_kernel {A} (m : M K A) : M (iommufd_sys K) A := fun s =>
  let '(r, k) := m (sys_kernel s) in
  (r, mk_sys (sys_fd s) (sys_devices s) (sys_ioas s) (sys_fresh s) k).

Definition set_devices (l : list iommufd_device_info) (s : iommufd_sys K) : iommufd_sys K :=
  mk_sys (sys_fd s) l (sys_ioas s) (sys_fresh s) (sys_kernel s).

(** A context of the store, with what its operations see of the rest. *)
Definition attach (fd : Z) (k : K) (c : iommu_ctx iommu_ioas) : iommu_ctx (ioas_backend K) :=
  mk_ctx (map c) (iova_max c) (iova_next_same c) (rng c) (mk_ib fd (backend c) k).
Definition detach (c : iommu_ctx (ioas_backend K)) : iommu_ctx iommu_ioas :=
  mk_ctx (map c) (iova_max c) (iova_next_same c) (rng c) (ib_ioas (backend c)).

(** Run an operation of the context at [p]; a freed context ends the process. *)
Definition on_ioas {A} (p : nat) (m : M (iommu_ctx (ioas_backend K)) A) : M (iommufd_sys K) A := fun s =>
  match sys_ioas s !! p with
  | None => (Crash, s)
  | Some c =>
      let '(r, c') := m (attach (sys_fd s) (sys_kernel s) c) in
      (r, mk_sys (sys_fd s) (sys_devices s) (<[p := detach c']> (sys_ioas s)) (sys_fresh s)
            (ib_kernel (backend c')))
  end.

(** [indet] is what new elements of the reallocated array hold. *)
Definition set_ranges (rs : list iommu_iova_range) : M (iommu_ctx (ioas_backend K)) unit :=
  modify (fun c => set_backend (mk_ib (ib_fd (backend c))
    (mk_ioas (io_id (ib_ioas (backend c))) (io_name (ib_ioas (backend c))) rs) (ib_kernel (backend c))) c).

Definition get_iova_ranges (num : Z) : M (iommu_ctx (ioas_backend K)) (option errno * Z * list iommu_iova_range) :=
  fun c =>
    let b := backend c in
    let '(r, k) := io_iova_ranges (ib_fd b) (io_id (ib_ioas b)) num (ib_kernel b) in
    (Ret r, set_backend (mk_ib (ib_fd b) (ib_ioas b) k) c).

Definition iommu_ioas_update_iova_ranges (indet : iommu_iova_range) : M (iommu_ctx (ioas_backend K)) unit :=
  let* (e, num, _) := get_iova_ranges 0 in
  do* match e with
      | None => ret tt
      | Some EMSGSIZE =>
          let* c := get in
          let arr := resize (Z.to_nat num) indet (io_ranges (ib_ioas (backend c))) in
          do* set_ranges arr in
          let* (e, _, rs) := get_iova_ranges num in
          do* set_ranges (rs ++ drop (length rs) arr) in
          match e with Some e => fail e | None => ret tt end
      | Some e => fail e
      end in
  modify (fun c =>
    iommu_init_next_same
      (mk_ctx (map c) (max_last (io_ranges (ib_ioas (backend c)))) (iova_next_same c) (rng c) (backend c))).

Definition iommufd_get_device_info (s : iommufd_sys K) (fd : Z) : option iommufd_device_info :=
  List.find (fun info => info_dev_fd info =? fd) (sys_devices s).

Definition iommufd_get_device_fd (indet : iommu_iova_range) (p : nat) (bdf : string) : M (iommufd_sys K) Z :=
  let* s := get in
  match sys_ioas s !! p with
  | None => crash
  | Some c =>
      let* vfio_id := on_sys_kernel (pci_get_device_vfio_id bdf) in
      let* devfd := on_sys_kernel (k_open ("/dev/vfio/devices/" +:+ vfio_id)) in
      let* r := try
        (let* devid := on_sys_kernel (io_bind devfd (sys_fd s)) in
         do* on_sys_kernel (io_attach devfd (io_id (backend c))) in
         do* on_ioas p (iommu_ioas_update_iova_ranges indet) in
         ret devid) in
      match r with
      | inl e => do* fatal_if (on_sys_kernel (f_close devfd)) in fail e
      | inr devid =>
          do* modify (fun s => set_devices (mk_info bdf devfd devid (-1) p :: sys_devices s) s) in
          ret devfd
      end
  end.

Definition iommu_ioas_destroy (p : nat) (s : iommufd_sys K) : iommufd_sys K :=
  mk_sys (sys_fd s) (sys_devices s) (delete p (sys_ioas s)) (sys_fresh s) (sys_kernel s).

(** The loop: the devices that stay, [found] and [ioas_in_use]. *)
Fixpoint put_device_loop (p : nat) (bdf : string) (infos : list iommufd_device_info) (found in_use : bool)
    : list iommufd_device_info * bool * bool :=
  match infos with
  | [] => ([], found, in_use)
  | info :: infos' =>
      if negb found && (info_ioas info =? p)%nat && String.eqb (info_bdf info) bdf then
        put_device_loop p bdf infos' true in_use
      else
        let '(l, f, u) := put_device_loop p bdf infos' found (if (info_ioas info =? p)%nat then true else in_use) in
        (info :: l, f, u)
  end.

Definition iommufd_put_device_fd (p : nat) (bdf : string) : M (iommufd_sys K) unit :=
  let* s := get in
  let '(l, found, in_use) := put_device_loop p bdf (sys_devices s) false false in
  do* modify (set_devices l) in
  if negb found then fail ENOENT
  else if negb in_use then modify (iommu_ioas_destroy p)
  else ret tt.

Definition iommufd_open : M (iommufd_sys K) unit := fun s =>
  match k_open "/dev/iommu" (sys_kernel s) with
  | (Ret fd, k) => (Ret tt, mk_sys fd (sys_devices s) (sys_ioas s) (sys_fresh s) k)
  | (Fail e, k) => (Fail e, mk_sys (-1) (sys_devices s) (sys_ioas s) (sys_fresh s) k)
  | (Crash, k) => (Crash, s)
  end.

(** Returns the address of the new context. *)
Definition iommufd_get_iommu_context (rands : list (list bool)) (name : string) : M (iommufd_sys K) nat :=
  let* s := get in
  do* when (sys_fd s =? -1) (fatal_if iommufd_open) in
  let* s := get in
  let* id := on_sys_kernel (io_alloc (sys_fd s)) in
  fun s =>
    let p := sys_fresh s in
    let c := iommu_ctx_init rands (mk_ioas id name default_iova_ranges) in
    (Ret p, mk_sys (sys_fd s) (sys_devices s) (<[p := c]> (sys_ioas s)) (S p) (sys_kernel s)).

Definition iommufd_alloc_fault_queue : M (iommufd_sys K) iommufd_fault_queue :=
  let* s := get in
  let* (i, fd) := on_sys_kernel (io_fault_queue_alloc (sys_fd s)) in
  ret (mk_fq i fd).

Fixpoint set_hwpt (fd hwpt : Z) (infos : list iommufd_device_info) : list iommufd_device_info :=
  match infos with
  | [] => []
  | info :: infos' =>
      if info_dev_fd info =? fd
      then mk_info (info_bdf info) (info_dev_fd info) (info_dev_id info) hwpt (info_ioas info) :: infos'
      else info :: set_hwpt fd hwpt infos'
  end.

Definition iommufd_set_fault_queue (p : nat) (fq : iommufd_fault_queue) (devfd : Z) : M (iommufd_sys K) unit :=
  let* s := get in
  match sys_ioas s !! p with
  | None => crash
  | Some c =>
      match iommufd_get_device_info s devfd with
      | None => fail ENOENT
      | Some info =>
          let* hwpt := on_sys_kernel
            (io_hwpt_alloc (sys_fd s) (io_id (backend c)) (info_dev_id info) (fault_id fq)) in
          do* modify (fun s => set_devices (set_hwpt devfd hwpt (sys_devices s)) s) in
          on_sys_kernel (io_attach devfd hwpt)
      end
  end.

(** ** Lifetimes *)

Definition sys_init (k : K) : iommufd_sys K := mk_sys (-1) [] ∅ 0 k.

(** Every listed device has an address space that is not freed. *)
Definition sys_inv (s : iommufd_sys K) : Prop :=
  Forall (fun info => is_Some (sys_ioas s !! info_ioas info)) (sys_devices s).

(** The calls of a client: on contexts that are not freed, except that a device
    may be put through any pointer.  [m] is any operation on a context. *)
Inductive sys_step : iommufd_sys K -> iommufd_sys K -> Prop :=
| step_get_context s rands name : sys_step s (snd (iommufd_get_iommu_context rands name s))
| step_get_device s indet p bdf :
    is_Some (sys_ioas s !! p) -> sys_step s (snd (iommufd_get_device_fd indet p bdf s))
| step_put_device s p bdf : sys_step s (snd (iommufd_put_device_fd p bdf s))
| step_on_context {A} s p (m : M (iommu_ctx (ioas_backend K)) A) : sys_step s (snd (on_ioas p m s))
| step_alloc_fault_queue s : sys_step s (snd (iommufd_alloc_fault_queue s))
| step_set_fault_queue s p fq devfd : sys_step s (snd (iommufd_set_fault_queue p fq devfd s)).

(** What the operations that take no device away preserve. *)
Definition live_inv (p : nat) (s : iommufd_sys K) : Prop := sys_inv s /\ is_Some (sys_ioas s !! p).

Lemma on_sys_kernel_inv {A} (P : iommufd_sys K -> Prop) (m : M K A) :
  (forall s k, P s -> P (mk_sys (sys_fd s) (sys_devices s) (sys_ioas s) (sys_fresh s) k)) ->
  preserves P (on_sys_kernel m).
Proof. intros HP s Hs. unfold on_sys_kernel. destruct (m (sys_kernel s)) as [r k]. by apply HP. Qed.

Lemma on_ioas_inv {A} p q (m : M (iommu_ctx (ioas_backend K)) A) : preserves (live_inv p) (on_ioas q m).
Proof.
  intros s [Hs Hp]. unfold on_ioas. destruct (sys_ioas s !! q) as [c|] eqn:E; [|done].
  destruct (m _) as [r c']. simpl.
  assert (forall x, is_Some (sys_ioas s !! x) -> is_Some (<[q := detach c']> (sys_ioas s) !! x)) as H.
  { intros x Hx. destruct (decide (x = q)) as [->|]; [by rewrite lookup_insert_eq|by rewrite lookup_insert_ne]. }
  split; [|by apply H]. eapply Forall_impl; [exact Hs|]. intros info. apply H.
Qed.

#[local] Hint Resolve on_ioas_inv : preserves.
#[local] Hint Extern 1 (preserves (live_inv _) (on_sys_kernel _)) =>
  apply on_sys_kernel_inv; intros ?s ?k; done : preserves.

Lemma get_device_inv indet p bdf : preserves (live_inv p) (iommufd_get_device_fd indet p bdf).
Proof.
  unfold iommufd_get_device_fd. apply preserves_bind; [apply preserves_get|]. intros s0.
  destruct (sys_ioas s0 !! p); [|apply preserves_crash].
  do 2 (apply preserves_bind; [auto with preserves|intros]).
  apply preserves_bind; [auto 10 with preserves|]. intros [e|devid]; [auto with preserves|].
  apply preserves_bind; [|intros; apply preserves_ret]. apply preserves_modify. intros s [Hs Hp].
  split; [|done]. by constructor.
Qed.

Definition devices_are (l : list iommufd_device_info) (s : iommufd_sys K) : Prop := sys_devices s = l.

(** A device that was opened heads the list. *)
Lemma get_device_head indet p bdf s fd s' :
  iommufd_get_device_fd indet p bdf s = (Ret fd, s') ->
  exists info, sys_devices s' = info :: sys_devices s /\ info_bdf info = bdf /\ info_ioas info = p.
Proof.
  intros Hrun. unfold iommufd_get_device_fd in Hrun.
  assert (forall A (m : M K A), preserves (devices_are (sys_devices s)) (on_sys_kernel m)) as Hk by (intros; by apply on_sys_kernel_inv).
  assert (forall A (m : M _ A), preserves (devices_are (sys_devices s)) (on_ioas p m)) as Hi.
  { intros A m s1 H1. unfold on_ioas. destruct (sys_ioas s1 !! p); [|done]. by destruct (m _) as [r c']. }
  unfold bind at 1, get in Hrun. destruct (sys_ioas s !! p); [|done].
  apply (preserves_Ret (devices_are (sys_devices s))) in Hrun as (id & s1 & H1 & Hrun); [|apply Hk|done].
  apply (preserves_Ret (devices_are (sys_devices s))) in Hrun as (devfd & s2 & H2 & Hrun); [|apply Hk|done].
  apply (preserves_Ret (devices_are (sys_devices s))) in Hrun as (r & s3 & H3 & Hrun); [|auto 10 with preserves|done].
  destruct r as [e|devid].
  { apply bind_Ret in Hrun as (? & ? & _ & Hrun). done. }
  injection Hrun as <- <-. eexists. simpl. rewrite H3. done.
Qed.

(** The list after [put_device_loop], once it found its device and before. *)
Lemma put_device_loop_found p bdf infos u :
  put_device_loop p bdf infos true u = (infos, true, u || existsb (fun i => (info_ioas i =? p)%nat) infos).
Proof.
  revert u. induction infos as [|i infos IH]; intros u; simpl; [by rewrite orb_false_r|]. rewrite IH.
  destruct (info_ioas i =? p)%nat; simpl; [by rewrite orb_true_r|done].
Qed.

Lemma put_device_loop_spec p bdf infos u :
  (put_device_loop p bdf infos false u = (infos, false, u || existsb (fun i => (info_ioas i =? p)%nat) infos) /\
   Forall (fun i => ~ (info_ioas i = p /\ info_bdf i = bdf)) infos) \/
  exists l1 i l2, infos = l1 ++ i :: l2 /\ info_ioas i = p /\ info_bdf i = bdf /\
    put_device_loop p bdf infos false u = (l1 ++ l2, true, u || existsb (fun i => (info_ioas i =? p)%nat) (l1 ++ l2)).
Proof.
  revert u. induction infos as [|i infos IH]; intros u; simpl; [left; by rewrite orb_false_r|].
  destruct (Nat.eqb_spec (info_ioas i) p) as [Ei|Ei]; simpl.
  - destruct (String.eqb_spec (info_bdf i) bdf) as [Eb|Eb].
    + right. exists [], i, infos. rewrite put_device_loop_found. done.
    + destruct (IH true) as [[-> Hn]|(l1 & j & l2 & -> & Hj & Hb & ->)].
      * left. simpl. rewrite orb_true_r. split; [done|]. constructor; [naive_solver|done].
      * right. exists (i :: l1), j, l2. simpl. rewrite (proj2 (Nat.eqb_eq _ _) Ei), orb_true_r. done.
  - destruct (IH u) as [[-> Hn]|(l1 & j & l2 & -> & Hj & Hb & ->)].
    + left. split; [done|]. constructor; [naive_solver|done].
    + right. exists (i :: l1), j, l2. simpl. rewrite (proj2 (Nat.eqb_neq _ _) Ei). done.
Qed.

(** [iommufd_put_device_fd]: no such device, or one taken off the list and the
    address space freed with the last. *)
Lemma put_device_spec p bdf s :
  (Forall (fun i => ~ (info_ioas i = p /\ info_bdf i = bdf)) (sys_devices s) /\
   iommufd_put_device_fd p bdf s = (Fail ENOENT, s)) \/
  exists l1 i l2, sys_devices s = l1 ++ i :: l2 /\ info_ioas i = p /\ info_bdf i = bdf /\
    iommufd_put_device_fd p bdf s =
      (Ret tt, mk_sys (sys_fd s) (l1 ++ l2)
        (if decide (Exists (fun i => info_ioas i = p) (l1 ++ l2)) then sys_ioas s else delete p (sys_ioas s))
        (sys_fresh s) (sys_kernel s)).
Proof.
  unfold iommufd_put_device_fd, bind, get, modify.
  destruct (put_device_loop_spec p bdf (sys_devices s) false) as [[-> Hn]|(l1 & i & l2 & E & Hi & Hb & ->)].
  - left. split; [done|]. by destruct s.
  - right. exists l1, i, l2. split_and!; [done..|]. simpl.
    destruct (decide _) as [He|He].
    + rewrite (proj2 (existsb_exists _ _)); [done|]. apply List.Exists_exists in He as (x & Hx & Ex).
      exists x. by rewrite Ex, Nat.eqb_refl.
    + destruct (existsb _ _) eqn:Ex; [|done]. exfalso. apply He.
      apply existsb_exists in Ex as (x & Hx & Ex%Nat.eqb_eq). apply List.Exists_exists. by exists x.
Qed.

(** The device at the head of the list is the one taken off. *)
Lemma put_device_first s info l :
  sys_devices s = info :: l ->
  exists s', iommufd_put_device_fd (info_ioas info) (info_bdf info) s = (Ret tt, s') /\ sys_devices s' = l.
Proof.
  intros E. unfold iommufd_put_device_fd, bind, get, modify. rewrite E. simpl.
  rewrite Nat.eqb_refl, String.eqb_refl, put_device_loop_found. simpl. destruct (existsb _ l); by eexists.
Qed.

Lemma put_device_inv p bdf : preserves sys_inv (iommufd_put_device_fd p bdf).
Proof.
  intros s Hs. destruct (put_device_spec p bdf s) as [[_ ->]|(l1 & i & l2 & E & Hi & Hb & ->)]; [done|].
  unfold sys_inv in *. rewrite E in Hs. simpl. rewrite Forall_app, Forall_cons in Hs.
  destruct Hs as (H1 & _ & H2). assert (Forall (fun i => is_Some (sys_ioas s !! info_ioas i)) (l1 ++ l2)) as H
    by (by apply Forall_app).
  destruct (decide _) as [He|He]; [done|]. rewrite Forall_forall in *. intros x Hx.
  rewrite lookup_delete_ne; [by apply H|]. intros Ep. apply He, Exists_exists. by exists x.
Qed.

Lemma sys_step_inv s s' : sys_step s s' -> sys_inv s -> sys_inv s'.
Proof.
  intros Hst Hs. destruct Hst as [s rands name|s indet p bdf Hp|s p bdf|A s p m|s|s p fq devfd].
  - revert s Hs. change (preserves sys_inv (iommufd_get_iommu_context rands name)).
    unfold iommufd_get_iommu_context. apply preserves_bind; [apply preserves_get|]. intros s0.
    apply preserves_bind.
    { apply preserves_when, preserves_fatal_if. intros s Hs. unfold iommufd_open.
      by destruct (k_open _ _) as [[] k]. }
    intros _. apply preserves_bind; [apply preserves_get|]. intros s1. apply preserves_bind.
    { by apply on_sys_kernel_inv. }
    intros id s Hs. simpl. eapply Forall_impl; [exact Hs|]. intros info Hi. simpl.
    destruct (decide (info_ioas info = sys_fresh s)) as [->|]; [by rewrite lookup_insert_eq|by rewrite lookup_insert_ne].
  - by apply (get_device_inv indet p bdf).
  - by apply put_device_inv.
  - destruct (sys_ioas s !! p) as [c|] eqn:E.
    + apply (on_ioas_inv p p m). split; [done|by eexists].
    + unfold on_ioas. by rewrite E.
  - revert s Hs. change (preserves sys_inv iommufd_alloc_fault_queue). unfold iommufd_alloc_fault_queue.
    apply preserves_bind; [apply preserves_get|]. intros s0.
    apply preserves_bind; [by apply on_sys_kernel_inv|]. intros []. apply preserves_ret.
  - revert s Hs. change (preserves sys_inv (iommufd_set_fault_queue p fq devfd)). unfold iommufd_set_fault_queue.
    apply preserves_bind; [apply preserves_get|]. intros s0.
    destruct (sys_ioas s0 !! p); [|apply preserves_crash].
    destruct (iommufd_get_device_info s0 devfd); [|apply preserves_fail].
    apply preserves_bind; [by apply on_sys_kernel_inv|]. intros hwpt.
    apply preserves_bind; [|intros; by apply on_sys_kernel_inv]. apply preserves_modify. intros s Hs.
    unfold sys_inv in *. simpl. induction Hs as [|info l Hi Hl IH]; simpl; [constructor|].
    destruct (_ =? _); constructor; done.
Qed.

(** C11. Whatever contexts and devices a process opens and closes, every device
    it has open belongs to an address space that is not freed; and closing a
    device removes exactly its entry, and frees its address space exactly when
    no other device uses it. *)
Theorem ioas_lifetime k s :
  rtc sys_step (sys_init k) s ->
  Forall (fun info => is_Some (sys_ioas s !! info_ioas info)) (sys_devices s) /\
  forall info, info ∈ sys_devices s ->
    exists l1 i l2 s', sys_devices s = l1 ++ i :: l2 /\
      info_ioas i = info_ioas info /\ info_bdf i = info_bdf info /\
      iommufd_put_device_fd (info_ioas info) (info_bdf info) s = (Ret tt, s') /\
      sys_devices s' = l1 ++ l2 /\
      forall p, sys_ioas s' !! p =
        if decide (p = info_ioas info /\ Forall (fun j => info_ioas j <> p) (l1 ++ l2)) then None
        else sys_ioas s !! p.
Proof.
  intros Hr. assert (sys_inv s) as Hs.
  { assert (sys_inv (sys_init k)) as H0 by constructor. induction Hr as [|s1 s2 s3 Hst _ IH]; [done|].
    apply IH. by apply (sys_step_inv s1). }
  split; [exact Hs|]. intros info Hin.
  destruct (put_device_spec (info_ioas info) (info_bdf info) s) as [[Hn _]|(l1 & i & l2 & E & Hi & Hb & Hrun)].
  { rewrite Forall_forall in Hn. by destruct (Hn info Hin). }
  eexists l1, i, l2, _. split_and!; [done..|exact Hrun|done|]. intros p. simpl.
  destruct (decide (Exists _ _)) as [He|He].
  - rewrite decide_False; [done|]. intros [-> Hf]. apply Exists_exists in He as (x & Hx & Ex).
    rewrite Forall_forall in Hf. by apply (Hf x).
  - assert (Forall (fun j => info_ioas j <> info_ioas info) (l1 ++ l2)) as Hf.
    { apply Forall_forall. intros x Hx Ex. apply He, Exists_exists. by exists x. }
    destruct (decide (p = info_ioas info)) as [->|Hne].
    + rewrite decide_True by done. by rewrite lookup_delete_eq.
    + rewrite decide_False by tauto. by rewrite lookup_delete_ne.
Qed.
End Devices.

(** ** A kernel for concrete runs *)

(** The tables by identifier, the next identifier and descriptor, and the files. *)
Record demo_kernel : Type := mk_dk {
  dk_tables : gmap Z (list (Z * Z * Z));
  dk_next : Z;
  dk_files : pipe
}.

Definition dk_table (k : demo_kernel) (id : Z) : list (Z * Z * Z) := default [] (dk_tables k !! id).
Definition set_table (id : Z) (t : list (Z * Z * Z)) (k : demo_kernel) : demo_kernel :=
  mk_dk (<[id := t]> (dk_tables k)) (dk_next k) (dk_files k).

Definition top (t : list (Z * Z * Z)) : Z := foldr (fun e m => Z.max (e.1.1 + e.1.2) m) 0x10000 t.

Definition overlaps (i len : Z) (e : Z * Z * Z) : bool := (i <? e.1.1 + e.1.2) && (e.1.1 <? i + len).

Definition dk_map (fd id flags vaddr len iova : Z) : M demo_kernel Z := fun k =>
  let t := dk_table k id in
  let i := if flag_set flags IOMMU_IOAS_MAP_FIXED_IOVA then iova else top t in
  if (0 <=? i) && (i + len <=? UINT64_MAX) && negb (existsb (overlaps i len) t)
  then (Ret i, set_table id ((i, len, vaddr) :: t) k)
  else (Fail ENOMEM, k).

Definition dk_unmap (fd id iova len : Z) : M demo_kernel unit := fun k =>
  let t := dk_table k id in
  if (iova =? 0) && (len =? UINT64_MAX) then
    if (length (filter (at_iova 0 UINT64_MAX) t) =? 0)%nat || (length t =? 1)%nat
    then (Ret tt, set_table id [] k) else (Fail EINVAL, k)
  else
    match table_unmap iova len t with
    | (Ret _, t') => (Ret tt, set_table id t' k)
    | (_, _) => (Fail ENOENT, k)
    end.

Lemma set_table_same id t k : dk_table (set_table id t k) id = t.
Proof. unfold dk_table. simpl. by rewrite lookup_insert_eq. Qed.
Lemma set_table_other id id' t k : id' <> id -> dk_table (set_table id t k) id' = dk_table k id'.
Proof. intros H. unfold dk_table. simpl. by rewrite lookup_insert_ne. Qed.

Lemma dk_map_law k fd id flags vaddr len iova :
  0 < len ->
  match dk_map fd id flags vaddr len iova k with
  | (Ret i, k') =>
      dk_table k' id ≡ₚ (i, len, vaddr) :: dk_table k id /\
      Forall (fun e => disj (i, len) (e.1.1, e.1.2)) (dk_table k id) /\
      0 <= i /\ i + len <= UINT64_MAX /\
      (flag_set flags IOMMU_IOAS_MAP_FIXED_IOVA = true -> i = iova) /\
      (forall id', id' <> id -> dk_table k' id' = dk_table k id')
  | (Fail _, k') => forall id', dk_table k' id' = dk_table k id'
  | (Crash, _) => False
  end.
Proof.
  intros Hl. unfold dk_map. set (i := if flag_set _ _ then _ else _).
  destruct (_ && _) eqn:E; [|done]. rewrite !andb_true_iff, Z.leb_le, Z.leb_le, negb_true_iff in E.
  destruct E as [[H1 H2] H3]. rewrite set_table_same. split; [done|]. split; [|split_and!; try done].
  - apply Forall_forall. intros e He. destruct (overlaps i len e) eqn:Eo.
    + exfalso. enough (existsb (overlaps i len) (dk_table k id) = true) by congruence.
      apply existsb_exists. exists e. by rewrite <- list_elem_of_In.
    + unfold overlaps in Eo. apply andb_false_iff in Eo. rewrite !Z.ltb_ge in Eo. unfold disj. simpl. lia.
  - intros Hf. unfold i. by rewrite Hf.
  - intros id' Hid. by apply set_table_other.
Qed.

Lemma dk_unmap_law k fd id iova len vaddr t :
  dk_table k id ≡ₚ (iova, len, vaddr) :: t ->
  match dk_unmap fd id iova len k with
  | (Ret _, k') => dk_table k' id ≡ₚ t /\ (forall id', id' <> id -> dk_table k' id' = dk_table k id')
  | (Fail _, k') => forall id', dk_table k' id' = dk_table k id'
  | (Crash, _) => False
  end.
Proof.
  intros Ht. unfold dk_unmap. destruct ((iova =? 0) && (len =? UINT64_MAX)) eqn:E.
  - apply andb_true_iff in E as [->%Z.eqb_eq ->%Z.eqb_eq].
    assert (length (filter (at_iova 0 UINT64_MAX) (dk_table k id)) <> 0)%nat as Hne
      by (rewrite Ht, filter_cons_True by done; done).
    rewrite (proj2 (Nat.eqb_neq _ _) Hne). simpl. destruct (Nat.eqb_spec (length (dk_table k id)) 1) as [E|]; [|done].
    apply Permutation_length in Ht. rewrite E in Ht. simpl in Ht.
    rewrite set_table_same, (nil_length_inv t) by lia. split; [done|]. intros. by apply set_table_other.
  - pose proof (table_unmap_law _ _ _ _ _ Ht) as H. destruct (table_unmap _ _ _) as [[[]|e|] t']; [|done..].
    rewrite set_table_same. split; [done|]. intros. by apply set_table_other.
Qed.

Definition on_files {A} (m : M pipe A) : M demo_kernel A := fun k =>
  let '(r, p) := m (dk_files k) in (r, mk_dk (dk_tables k) (dk_next k) p).
Definition dk_new : M demo_kernel Z := fun k => (Ret (dk_next k), mk_dk (dk_tables k) (dk_next k + 1) (dk_files k)).

#[local] Instance demo_files : Files demo_kernel.
Proof.
  refine {| f_open_wronly _ := ret 3; f_open_rdonly _ := ret 3; f_close _ := ret tt;
    f_write fd bs := on_files (pipe_write fd bs); f_read fd n := on_files (pipe_read fd n);
    f_written k fd := p_out (dk_files k); f_input k fd := p_in (dk_files k);
    f_quota k := length (p_script (dk_files k)) |}.
  - done.
  - intros k fd bs. pose proof (@f_write_law _ pipe_files (dk_files k) fd bs) as H. unfold on_files.
    simpl in H. by destruct (pipe_write _ _ _) as [[] ?].
  - intros k fd n Hn. pose proof (@f_read_law _ pipe_files (dk_files k) fd n Hn) as H. unfold on_files.
    simpl in H. by destruct (pipe_read _ _ _) as [[] ?].
Defined.

#[local] Instance demo_sysfs : SysFs demo_kernel := {|
  sysfs_files := demo_files;
  s_stat _ _ := inr false;
  s_readlink _ := tree_readlink;
  s_access _ _ := true;
  s_opendir _ _ := inr (["."; ".."; "vfio3"]%string, None);
  s_closedir _ _ := None;
  s_getenv _ _ := None
|}.

#[local] Instance demo_iommufd : IommufdKernel demo_kernel.
Proof.
  refine {| k_open _ := dk_new; io_alloc _ := dk_new;
    io_iova_ranges _ _ num k :=
      ((if num =? 0 then Some EMSGSIZE else None, 1, [mk_iova_range 0x10000 0xffffffff]), k);
    io_map := dk_map; io_unmap := dk_unmap; io_bind _ _ := dk_new; io_attach _ _ := ret tt;
    io_fault_queue_alloc _ := ret (1, 2); io_hwpt_alloc _ _ _ _ := dk_new; io_table := dk_table |}.
  - exact dk_map_law.
  - exact dk_unmap_law.
  - intros k fd id. unfold dk_unmap. simpl. destruct (_ || _); [|done].
    rewrite set_table_same. split; [done|]. intros. by apply set_table_other.
Defined.

Definition demo_k : demo_kernel := mk_dk {[ 7 := [(0x10000, 0x1000, 0x7a0000)] ]} 10 (mk_pipe [] [] []).
Definition demo_ib : ioas_backend demo_kernel := mk_ib 3 (mk_ioas 9 "0000:01:00.0" default_iova_ranges) demo_k.
Definition demo_ic0 : iommu_ctx (ioas_backend demo_kernel) := iommu_ctx_init [] demo_ib.
Definition demo_ic1 : iommu_ctx (ioas_backend demo_kernel) :=
  snd (iommu_map_vaddr iommufd_ops 0x7f0000 0x2000 None 0 0 demo_ic0).

Lemma iommufd_context_coherent_witness :
  ib_table (backend demo_ic1) = [(0x10000, 0x2000, 0x7f0000)] /\
  io_table (ib_kernel (backend demo_ic1)) 7 = [(0x10000, 0x1000, 0x7a0000)] /\
  (iommu_translate_vaddr demo_ic1 0x7f1234 = Some 0x11234 <->
   exists iova len vaddr, (iova, len, vaddr) ∈ ib_table (backend demo_ic1) /\
     vaddr <= 0x7f1234 < vaddr + len /\ 0x11234 = iova + (0x7f1234 - vaddr)).
Proof.
  pose proof (iommufd_context_coherent [] demo_ib demo_ic1 eq_refl) as H.
  destruct H as (_ & Ht & _ & Ho).
  { apply rtc_once. exists (Ret tt).
    apply (ctx_map _ demo_ic0 0x7f0000 0x2000 None 0 0 (Ret 0x10000) demo_ic1);
      [|reflexivity|vm_compute; reflexivity].
    split; [lia|]. split; [lia|]. split; [unfold UINT64_MAX; lia|]. right. intros v _.
    by rewrite (translate_vaddr_spec demo_ic0 [] v empty_map_ok). }
  split; [vm_compute; reflexivity|]. split; [|apply Ht].
  rewrite (Ho 7); [reflexivity|]. simpl. lia.
Defined.

Definition demo_s1 : iommufd_sys demo_kernel := snd (iommufd_get_iommu_context [] "0000:01:00.0" (sys_init demo_k)).
Definition demo_s2 : iommufd_sys demo_kernel :=
  snd (iommufd_get_device_fd (mk_iova_range 0 0) 0 "0000:01:00.0" demo_s1).

Lemma ioas_lifetime_witness :
  is_Some (sys_ioas demo_s2 !! 0%nat) /\
  exists s', iommufd_put_device_fd 0 "0000:01:00.0" demo_s2 = (Ret tt, s') /\ sys_devices s' = [].
Proof.
  destruct (ioas_lifetime demo_k demo_s2) as [Hl Hp].
  { eapply rtc_l; [exact (step_get_context (sys_init demo_k) [] "0000:01:00.0")|].
    apply rtc_once. exact (step_get_device demo_s1 (mk_iova_range 0 0) 0 "0000:01:00.0" ltac:(by vm_compute; eexists)). }
  assert (sys_devices demo_s2 = [mk_info "0000:01:00.0" 12 13 (-1) 0]) as E by (vm_compute; reflexivity).
  rewrite E in Hl, Hp. apply Forall_cons in Hl as [Hl _]. split; [exact Hl|].
  destruct (Hp (mk_info "0000:01:00.0" 12 13 (-1) 0)) as (l1 & i & l2 & s' & El & _ & _ & Hrun & Hd & _).
  { by apply list_elem_of_here. }
  exists s'. split; [exact Hrun|]. rewrite Hd. destruct l1 as [|? [|]]; simplify_eq/=; done.
Defined.
