(* ===== verification/VfioContainer.v ===== *)
(** * VfioContainer: containers and groups, src/iommu/vfio.c

    With the vfio backend a context is a container: a descriptor of
    /dev/vfio/vfio to which the IOMMU groups of its devices are attached.  The
    code keeps one container per group, finds it again through the list of
    active containers ([vfio_get_iommu_context]), attaches the group when its
    first device is opened ([vfio_get_device_fd]) and detaches and frees in
    [vfio_put_device_fd].  The kernel is the class [VfioGroups].  Every entry
    point runs under a lock, so an execution is a sequence of them. *)

From Stdlib Require String.
From S2P Require Import Prelude CStr Io Pci Support Skiplist IovaAlloc VfioIova Dma.
Local Open Scope Z_scope.
Local Open Scope vfn_scope.

Definition VFN_MAX_VFIO_GROUPS : nat := 256.
Definition VFIO_API_VERSION : Z := 0.
Definition VFIO_GROUP_FLAGS_VIABLE : Z := Z.shiftl 1 0.
Definition VFIO_IOMMU_INFO_CAPS : Z := Z.shiftl 1 1.
Definition VFIO_IOMMU_TYPE1_INFO_CAP_IOVA_RANGE : Z := 1.

(** A capability of struct vfio_iommu_type1_info: its header, and the ranges
    that follow it when it is the capability of the address ranges. *)
Record vfio_info_cap : Type := mk_cap {
  cap_id : Z;
  cap_next : Z;
  cap_ranges : list iommu_iova_range
}.

(** struct vfio_iommu_type1_info as the kernel fills it: [info_cap off] is the
    capability at an offset. *)
Record vfio_iommu_type1_info : Type := mk_iommu_info {
  info_argsz : Z;
  info_flags : Z;
  info_cap_offset : Z;
  info_cap : Z -> vfio_info_cap
}.
Definition sizeof_iommu_info : Z := 24.

(** The ioctls of containers and groups. *)
Class VfioGroups (K : Type) {fs : SysFs K} : Type := {
  (** [open(path, O_RDWR)] *)
  vk_open : string -> M K Z;
  vk_open_law path k fd k' : vk_open path k = (Ret fd, k') -> 0 <= fd;
  (** [VFIO_GET_API_VERSION], [VFIO_CHECK_EXTENSION] of the type 1 IOMMU *)
  vk_api_version : Z -> K -> Z;
  vk_check_type1 : Z -> K -> bool;
  (** [VFIO_SET_IOMMU] *)
  vk_set_iommu : Z -> M K unit;
  (** [VFIO_IOMMU_GET_INFO] with a buffer of the given size *)
  vk_get_info : Z -> Z -> M K vfio_iommu_type1_info;
  (** [VFIO_GROUP_GET_STATUS]: the flags *)
  vk_group_status : Z -> M K Z;
  (** [VFIO_GROUP_SET_CONTAINER], [VFIO_GROUP_UNSET_CONTAINER] *)
  vk_set_container : Z -> Z -> M K unit;
  vk_unset_container : Z -> M K unit;
  (** [VFIO_GROUP_GET_DEVICE_FD] *)
  vk_get_device_fd : Z -> string -> M K Z
}.

(** struct vfio_group *)
Record vfio_group : Type := mk_group {
  g_fd : Z;
  g_path : option string;
  g_nr_devs : Z
}.

(** struct vfio_container, besides the map of its context; the allocator holds
    its address space. *)
Record vfio_container : Type := mk_container {
  vc_name : string;
  vc_fd : Z;
  vc_groups : list vfio_group;
  vc_nr_groups : Z;
  vc_alloc : iova_allocator;
  vc_iommu_set : bool;
  vc_refcount : Z
}.

(** The containers that are allocated, by address, the list of the active ones,
    and the kernel. *)
Record vfio_sys (K : Type) : Type := mk_vsys {
  vs_active : list nat;
  vs_containers : gmap nat (iommu_ctx vfio_container);
  vs_fresh : nat;
  vs_kernel : K
}.
Arguments mk_vsys {K}.
Arguments vs_active {K}.
Arguments vs_containers {K}.
Arguments vs_fresh {K}.
Arguments vs_kernel {K}.

(** A call on one container works on it and the kernel. *)
Definition con (K : Type) : Type := iommu_ctx vfio_container * K.

Definition empty_group : vfio_group := mk_group 0 None 0.

Section Ops.
Context {page : PageSize} {K : Type} {fs : SysFs K} {vg : VfioGroups K}.

(** ** Field updates *)

Definition set_vc (f : vfio_container -> vfio_container) (c : con K) : con K :=
  (set_backend (f (backend c.1)) c.1, c.2).
Definition set_fd (fd : Z) (v : vfio_container) : vfio_container :=
  mk_container (vc_name v) fd (vc_groups v) (vc_nr_groups v) (vc_alloc v) (vc_iommu_set v) (vc_refcount v).
Definition set_name (n : string) (v : vfio_container) : vfio_container :=
  mk_container n (vc_fd v) (vc_groups v) (vc_nr_groups v) (vc_alloc v) (vc_iommu_set v) (vc_refcount v).
Definition set_groups (g : list vfio_group) (v : vfio_container) : vfio_container :=
  mk_container (vc_name v) (vc_fd v) g (vc_nr_groups v) (vc_alloc v) (vc_iommu_set v) (vc_refcount v).
Definition set_nr_groups (n : Z) (v : vfio_container) : vfio_container :=
  mk_container (vc_name v) (vc_fd v) (vc_groups v) n (vc_alloc v) (vc_iommu_set v) (vc_refcount v).
Definition set_alloc (a : iova_allocator) (v : vfio_container) : vfio_container :=
  mk_container (vc_name v) (vc_fd v) (vc_groups v) (vc_nr_groups v) a (vc_iommu_set v) (vc_refcount v).
Definition set_iommu_set (b : bool) (v : vfio_container) : vfio_container :=
  mk_container (vc_name v) (vc_fd v) (vc_groups v) (vc_nr_groups v) (vc_alloc v) b (vc_refcount v).
Definition set_refcount (n : Z) (v : vfio_container) : vfio_container :=
  mk_container (vc_name v) (vc_fd v) (vc_groups v) (vc_nr_groups v) (vc_alloc v) (vc_iommu_set v) n.
Definition set_group (i : nat) (g : vfio_group) (v : vfio_container) : vfio_container :=
  set_groups (<[i := g]> (vc_groups v)) v.

Definition on_k {A} (m : M K A) : M (con K) A := fun c =>
  let '(r, k) := m c.2 in (r, (c.1, k)).
Definition on_vc_alloc {A} (m : M iova_allocator A) : M (con K) A := fun c =>
  let '(r, a) := m (vc_alloc (backend c.1)) in (r, set_vc (set_alloc a) c).
Definition vc : M (con K) vfio_container := gets (fun c => backend c.1).

(** ** The IOMMU of a container *)

Definition set_iova_ranges (rs : list iommu_iova_range) (a : iova_allocator) : iova_allocator :=
  mk_allocator rs (next a) (next_ephemeral a) (nephemerals a) (ephemerals a) (free_iovas a).

Definition vfio_iommu_type1_get_cap_iova_ranges (cap : vfio_info_cap) : M (con K) unit :=
  match __abort_on_overflow (Z.of_nat (length (cap_ranges cap))) 16 with
  | Ret _ =>
      modify (fun c =>
        let v := backend c.1 in
        let v := set_alloc (set_iova_ranges (cap_ranges cap) (vc_alloc v)) v in
        (iommu_init_next_same
           (mk_ctx (map c.1) (max_last (cap_ranges cap)) (iova_next_same c.1) (rng c.1) v), c.2))
  | _ => crash
  end.

Definition vfio_iommu_type1_get_iommu_info : M (con K) vfio_iommu_type1_info :=
  let* v := vc in
  let* info := on_k (vk_get_info (vc_fd v) sizeof_iommu_info) in
  if sizeof_iommu_info <? info_argsz info then on_k (vk_get_info (vc_fd v) (info_argsz info))
  else ret info.

(** The chain of capabilities; only the address ranges change state (the
    remaining ones are logged). *)
Fixpoint cap_loop (fuel : nat) (info : vfio_iommu_type1_info) (cap : vfio_info_cap) : M (con K) unit :=
  match fuel with
  | O => crash
  | S fuel' =>
      do* when (cap_id cap =? VFIO_IOMMU_TYPE1_INFO_CAP_IOVA_RANGE)
            (vfio_iommu_type1_get_cap_iova_ranges cap) in
      if cap_next cap =? 0 then ret tt else cap_loop fuel' info (info_cap info (cap_next cap))
  end.

Variable fuel : nat.

Definition vfio_iommu_type1_get_capabilities : M (con K) unit :=
  let* info := vfio_iommu_type1_get_iommu_info in
  if negb (flag_set (info_flags info) VFIO_IOMMU_INFO_CAPS) then ret tt
  else cap_loop fuel info (info_cap info (info_cap_offset info)).

Definition vfio_iommu_type1_init : M (con K) unit :=
  let* v := vc in
  if vc_iommu_set v then ret tt
  else
    do* on_k (vk_set_iommu (vc_fd v)) in
    do* modify (set_vc (set_iommu_set true)) in
    do* vfio_iommu_type1_get_capabilities in
    on_vc_alloc reserve_ephemerals.

(** ** Groups *)

(** [group] is a slot of the container. *)
Definition vfio_group_set_container (gfd : Z) : M (con K) unit :=
  let* v := vc in
  do* on_k (vk_set_container gfd (vc_fd v)) in
  let* r := try vfio_iommu_type1_init in
  match r with
  | inr _ => ret tt
  | inl e => do* fatal_if (on_k (vk_unset_container gfd)) in fail e
  end.

Definition vfio_group_open (path : string) : M (con K) Z :=
  let* fd := on_k (vk_open path) in
  let* r := try
    (let* flags := on_k (vk_group_status fd) in
     if negb (flag_set flags VFIO_GROUP_FLAGS_VIABLE) then fail EINVAL else ret tt) in
  match r with
  | inr _ => ret fd
  | inl e => do* fatal_if (on_k (f_close fd)) in fail e
  end.

Definition group_at (v : vfio_container) (i : nat) : vfio_group := default empty_group (vc_groups v !! i).

Definition vfio_get_group_fd (i : nat) : M (con K) Z :=
  let* v := vc in
  let group := group_at v i in
  if negb (g_fd group =? -1) then ret (g_fd group)
  else
    let* r := try
      (let* fd := vfio_group_open (default "" (g_path group)) in
       do* modify (set_vc (set_group i (mk_group fd (g_path group) (g_nr_devs group)))) in
       let* r := try (vfio_group_set_container fd) in
       match r with
       | inl e => do* fatal_if (on_k (f_close fd)) in fail e
       | inr _ => ret fd
       end) in
    match r with
    | inr fd =>
        do* modify (set_vc (fun v => set_nr_groups (vc_nr_groups v + 1) v)) in
        ret fd
    | inl e =>
        do* modify (set_vc (set_group i (mk_group (-1) None (g_nr_devs group)))) in
        fail e
    end.

Definition has_path (path : string) (g : vfio_group) : bool :=
  match g_path g with Some p => String.eqb p path | None => false end.
Definition no_path (g : vfio_group) : bool := match g_path g with Some _ => false | None => true end.

(** The index of the first slot that satisfies a predicate. *)
Fixpoint find_slot (f : vfio_group -> bool) (gs : list vfio_group) : option nat :=
  match gs with
  | [] => None
  | g :: gs' => if f g then Some 0%nat else S <$> find_slot f gs'
  end.

(** Returns the slot; [None] is a null result. *)
Definition __vfio_get_group (bdf : string) (alloc : bool) : M (con K) (option nat) :=
  let* r := try (on_k (pci_get_iommu_group bdf)) in
  match r with
  | inl _ => ret None
  | inr path =>
      let* v := vc in
      match find_slot (has_path path) (vc_groups v) with
      | Some i => ret (Some i)
      | None =>
          if negb alloc then ret None
          else
            match find_slot no_path (vc_groups v) with
            | Some i =>
                do* modify (set_vc (set_group i (mk_group (-1) (Some path) 0))) in
                ret (Some i)
            | None => ret None
            end
      end
  end.

Definition vfio_get_or_create_group (bdf : string) : M (con K) (option nat) := __vfio_get_group bdf true.
Definition vfio_get_group (bdf : string) : M (con K) (option nat) := __vfio_get_group bdf false.

Definition vfio_get_device_fd (bdf : string) : M (con K) Z :=
  let* group := vfio_get_or_create_group bdf in
  match group with
  | None => fail EMFILE
  | Some i =>
      let* gfd := vfio_get_group_fd i in
      let* k := gets snd in
      let name :=
        match s_getenv k "VFTOKEN" with
        | Some vf_token =>
            if pci_is_sriov_supported k bdf then (bdf +:+ " vf_token=" +:+ vf_token) else bdf
        | None => bdf
        end in
      let* ret_fd := on_k (vk_get_device_fd gfd name) in
      do* modify (set_vc (fun v =>
            let g := group_at v i in
            set_group i (mk_group (g_fd g) (g_path g) (g_nr_devs g + 1)) v)) in
      ret ret_fd
  end.

(** [skiplist_clear_with(&vfio->free_iovas, free_iova_range_node, NULL)]: every
    range is freed. *)
Definition free_free_iovas (a : iova_allocator) : iova_allocator :=
  let fl := free_iovas a in
  let '(sl, nodes) := skiplist_clear_with (fl_list fl) true in
  set_free_iovas (mk_free_list sl
    (foldr (fun n st => match n with Node i => delete i st | Sentinel => st end) (fl_store fl) nodes)
    (fl_fresh fl)) a.

(** The part of [vfio_put_device_fd] under the lock that works on the container;
    [true] when its last reference went. *)
Definition put_group (i : nat) : M (con K) bool :=
  let* v := vc in
  let g := group_at v i in
  let nr_devs := g_nr_devs g - 1 in
  do* modify (set_vc (set_group i (mk_group (g_fd g) (g_path g) nr_devs))) in
  do* when (nr_devs =? 0)
    (do* try (on_k (f_close (g_fd g))) in
     do* modify (set_vc (set_group i (mk_group (-1) None nr_devs))) in
     do* modify (set_vc (fun v => set_nr_groups (vc_nr_groups v - 1) v)) in
     let* v := vc in
     when (vc_nr_groups v =? 0)
       (do* try (on_k (f_close (vc_fd v))) in
        modify (set_vc (fun v =>
          set_alloc (free_free_iovas (set_nephemerals 0 (set_next_ephemeral 0 (set_next 0 (vc_alloc v)))))
            (set_iommu_set false (set_fd (-1) v)))))) in
  do* modify (set_vc (fun v => set_refcount (vc_refcount v - 1) v)) in
  let* v := vc in
  ret (vc_refcount v =? 0).

Definition vfio_init_container : M (con K) unit :=
  let* r := try (on_k (vk_open "/dev/vfio/vfio")) in
  match r with
  | inl e => do* modify (set_vc (set_fd (-1))) in fail e
  | inr fd =>
      do* modify (set_vc (set_fd fd)) in
      let* k := gets snd in
      if negb (vk_api_version fd k =? VFIO_API_VERSION) then fail errno_unset
      else if negb (vk_check_type1 fd k) then fail errno_unset
      else modify (set_vc (fun v => set_alloc (set_free_iovas empty_free_list (vc_alloc v)) v))
  end.

(** ** Containers *)

(** [znew_t] and [iommu_ctx_init]. *)
Definition new_container (rands : list (list bool)) : iommu_ctx vfio_container :=
  iommu_ctx_init rands
    (mk_container "" 0 (replicate VFN_MAX_VFIO_GROUPS empty_group) 0 (new_allocator default_iova_ranges) false 0).

(** Run a call on the container at [p]; a freed container ends the process. *)
Definition on_container {A} (p : nat) (m : M (con K) A) : M (vfio_sys K) A := fun s =>
  match vs_containers s !! p with
  | None => (Crash, s)
  | Some c =>
      let '(r, (c', k)) := m (c, vs_kernel s) in
      (r, mk_vsys (vs_active s) (<[p := c']> (vs_containers s)) (vs_fresh s) k)
  end.

Definition on_vkernel {A} (m : M K A) : M (vfio_sys K) A := fun s =>
  let '(r, k) := m (vs_kernel s) in (r, mk_vsys (vs_active s) (vs_containers s) (vs_fresh s) k).

Definition vfio_find_container_by_group (s : vfio_sys K) (path : string) : option nat :=
  List.find (fun p =>
    match vs_containers s !! p with
    | Some c => existsb (has_path path) (vc_groups (backend c))
    | None => false
    end) (vs_active s).

Definition vfio_get_iommu_context (rands : list (list bool)) (bdf : string) : M (vfio_sys K) nat :=
  let* group_path := on_vkernel (pci_get_iommu_group bdf) in
  let* s := get in
  match vfio_find_container_by_group s group_path with
  | Some existing =>
      do* on_container existing (modify (set_vc (fun v => set_refcount (vc_refcount v + 1) v))) in
      ret existing
  | None =>
      fun s =>
        let p := vs_fresh s in
        match vfio_init_container (new_container rands, vs_kernel s) with
        | (Ret _, (c, k)) =>
            let v := backend c in
            let v := set_refcount 1 (set_name group_path v) in
            let v := set_group 0 (mk_group (-1) (Some group_path) (g_nr_devs (group_at v 0))) v in
            (Ret p, mk_vsys (p :: vs_active s) (<[p := set_backend v c]> (vs_containers s)) (S p) k)
        | (Fail e, (_, k)) => (Fail e, mk_vsys (vs_active s) (vs_containers s) (S p) k)
        | (Crash, (_, k)) => (Crash, s)
        end
  end.

Definition vfio_container_free (p : nat) (s : vfio_sys K) : vfio_sys K :=
  mk_vsys (vs_active s) (delete p (vs_containers s)) (vs_fresh s) (vs_kernel s).

Definition vfio_put_device_fd (p : nat) (bdf : string) : M (vfio_sys K) unit :=
  let* group := on_container p (vfio_get_group bdf) in
  match group with
  | None => fail ENODEV
  | Some i =>
      let* last := on_container p (put_group i) in
      when last
        (do* modify (fun s => mk_vsys (filter (fun q => q <> p) (vs_active s)) (vs_containers s)
               (vs_fresh s) (vs_kernel s)) in
         modify (vfio_container_free p))
  end.

(** ** Lifetimes *)

(** The first slot of the container holds a group with a path and [n] devices,
    the others none. *)
Definition shape (c : con K) (gfd : Z) (path : string) (n nr rc : Z) : Prop :=
  exists rest, vc_groups (backend c.1) = mk_group gfd (Some path) n :: rest /\
    Forall (fun g => g_path g = None) rest /\
    vc_nr_groups (backend c.1) = nr /\ vc_refcount (backend c.1) = rc.

Definition same_shape (gs : list vfio_group) (nr rc : Z) (c : con K) : Prop :=
  vc_groups (backend c.1) = gs /\ vc_nr_groups (backend c.1) = nr /\ vc_refcount (backend c.1) = rc.

Lemma on_k_shape {A} gs nr rc (m : M K A) : preserves (same_shape gs nr rc) (on_k m).
Proof. intros [c k] H. unfold on_k. simpl. by destruct (m k) as [r k']. Qed.

Lemma on_vc_alloc_shape {A} gs nr rc (m : M iova_allocator A) : preserves (same_shape gs nr rc) (on_vc_alloc m).
Proof. intros [c k] H. unfold on_vc_alloc. simpl. by destruct (m _) as [r a]. Qed.

Lemma vc_shape gs nr rc : preserves (same_shape gs nr rc) vc.
Proof. by intros c H. Qed.

#[local] Hint Resolve on_k_shape on_vc_alloc_shape vc_shape : preserves.

Lemma cap_ranges_shape gs nr rc cap : preserves (same_shape gs nr rc) (vfio_iommu_type1_get_cap_iova_ranges cap).
Proof.
  unfold vfio_iommu_type1_get_cap_iova_ranges. destruct (__abort_on_overflow _ _); auto with preserves.
Qed.

Lemma cap_loop_shape gs nr rc n info cap : preserves (same_shape gs nr rc) (cap_loop n info cap).
Proof.
  revert cap. induction n as [|n IH]; intros cap; simpl; [apply preserves_crash|].
  apply preserves_bind; [apply preserves_when, cap_ranges_shape|]. intros _.
  destruct (_ =? _); [apply preserves_ret|apply IH].
Qed.

Lemma init_shape gs nr rc : preserves (same_shape gs nr rc) vfio_iommu_type1_init.
Proof.
  unfold vfio_iommu_type1_init. apply preserves_bind; [apply vc_shape|]. intros v.
  destruct (vc_iommu_set v); [apply preserves_ret|].
  apply preserves_bind; [apply on_k_shape|]. intros _.
  apply preserves_bind; [apply preserves_modify; by intros c|]. intros _.
  apply preserves_bind; [|intros; apply on_vc_alloc_shape]. unfold vfio_iommu_type1_get_capabilities.
  apply preserves_bind.
  - unfold vfio_iommu_type1_get_iommu_info. apply preserves_bind; [apply vc_shape|]. intros v'.
    apply preserves_bind; [apply on_k_shape|]. intros info. destruct (_ <? _); auto with preserves.
  - intros info. destruct (negb _); [apply preserves_ret|apply cap_loop_shape].
Qed.

Lemma set_container_shape gs nr rc gfd : preserves (same_shape gs nr rc) (vfio_group_set_container gfd).
Proof.
  unfold vfio_group_set_container. apply preserves_bind; [apply vc_shape|]. intros v.
  apply preserves_bind; [apply on_k_shape|]. intros _.
  apply preserves_bind; [apply preserves_try, init_shape|]. intros [e|]; auto with preserves.
Qed.

Lemma group_open_shape gs nr rc path : preserves (same_shape gs nr rc) (vfio_group_open path).
Proof.
  unfold vfio_group_open. apply preserves_bind; [apply on_k_shape|]. intros fd. apply preserves_bind.
  - apply preserves_try, preserves_bind; [apply on_k_shape|]. intros fl. destruct (negb _); auto with preserves.
  - intros [e|]; auto with preserves.
Qed.

Lemma group_open_fd path c fd c' : vfio_group_open path c = (Ret fd, c') -> 0 <= fd.
Proof.
  unfold vfio_group_open. unfold bind at 1, on_k at 1. destruct (vk_open path c.2) as [[fd0|e|] k] eqn:E; [|done..].
  apply vk_open_law in E. unfold bind at 1. destruct (try _ _) as [[[e|]|e|] c1]; [..|done|done].
  - unfold bind. by destruct (fatal_if _ _) as [[] ?].
  - intros [= <- <-]. done.
Qed.

Lemma group_at_first v g rest : vc_groups v = g :: rest -> group_at v 0 = g.
Proof. intros H. unfold group_at. by rewrite H. Qed.

(** The group is opened and attached. *)
Lemma get_group_fd_new c path n nr rc fd c' :
  shape c (-1) path n nr rc -> vfio_get_group_fd 0 c = (Ret fd, c') ->
  exists gfd, gfd <> -1 /\ shape c' gfd path n (nr + 1) rc.
Proof.
  intros (rest & Hg & Hr & Hn & Hrc). unfold vfio_get_group_fd. unfold bind at 1, vc, gets.
  cbv beta. rewrite (group_at_first _ _ _ Hg). cbn [g_fd g_path g_nr_devs].
  change (-1 =? -1) with true. cbn [negb]. change (default "" (Some path)) with path.
  unfold bind at 1, try at 1. unfold bind at 1.
  destruct (vfio_group_open path c) as [[gfd|e|] c1] eqn:Eo; [|done..].
  pose proof (group_open_fd _ _ _ _ Eo) as Hfd.
  assert (same_shape (mk_group (-1) (Some path) n :: rest) nr rc c1) as (Hg1 & Hn1 & Hr1).
  { pose proof (group_open_shape (vc_groups (backend c.1)) nr rc path c ltac:(done)) as H.
    by rewrite Eo, Hg in H. }
  unfold bind at 1, modify at 1. unfold bind at 1, try at 1.
  set (c2 := set_vc _ c1).
  assert (same_shape (mk_group gfd (Some path) n :: rest) nr rc c2) as H2.
  { unfold c2, same_shape. simpl. by rewrite Hg1. }
  apply (set_container_shape _ _ _ gfd) in H2.
  destruct (vfio_group_set_container gfd c2) as [[[]|e|] c3]; [|..|done].
  - unfold ret at 1, bind, modify, ret. intros [= <- <-]. destruct H2 as (Hg3 & Hn3 & Hr3). simpl in Hg3, Hn3, Hr3.
    exists gfd. split; [lia|]. exists rest. simpl. rewrite Hn3. done.
  - unfold bind. by destruct (fatal_if _ _) as [[] ?].
Qed.

(** The IOMMU groups of the devices do not change. *)
Context (grp : string -> string).
Hypothesis grp_stable : forall bdf (k : K), pci_get_iommu_group bdf k = (Ret (grp bdf), k).

Lemma get_group_first c gfd bdf n nr rc alloc :
  shape c gfd (grp bdf) n nr rc -> __vfio_get_group bdf alloc c = (Ret (Some 0%nat), c).
Proof.
  intros (rest & Hg & _). unfold __vfio_get_group, bind, try, on_k, vc, gets. rewrite grp_stable.
  destruct c as [c k]. simpl in *. rewrite Hg. simpl. unfold has_path. simpl. by rewrite String.eqb_refl.
Qed.

Lemma get_device_fd_shape c gfd bdf n nr rc fd c' :
  shape c gfd (grp bdf) n nr rc -> vfio_get_device_fd bdf c = (Ret fd, c') ->
  exists gfd', gfd' <> -1 /\ shape c' gfd' (grp bdf) (n + 1) (if decide (gfd = -1) then nr + 1 else nr) rc.
Proof.
  intros Hs. unfold vfio_get_device_fd, vfio_get_or_create_group.
  rewrite (bind_ret _ _ _ _ _ (get_group_first _ _ _ _ _ _ true Hs)).
  assert (forall gfd1 c1, vfio_get_group_fd 0 c = (Ret gfd1, c1) -> exists gfd',
    gfd' <> -1 /\ shape c1 gfd' (grp bdf) n (if decide (gfd = -1) then nr + 1 else nr) rc) as Hgrp.
  { intros gfd1 c1 E. destruct (decide (gfd = -1)) as [->|Hne]; [by eapply get_group_fd_new|].
    exists gfd. split; [done|]. destruct Hs as (rest & Hg & Hr). unfold vfio_get_group_fd, bind at 1, vc, gets in E.
    rewrite (group_at_first _ _ _ Hg) in E. simpl in E. rewrite (proj2 (Z.eqb_neq _ _) Hne) in E.
    injection E as <- <-. by exists rest. }
  unfold bind at 1. destruct (vfio_get_group_fd 0 c) as [[gfd1|e|] c1]; [|done..].
  destruct (Hgrp _ _ eq_refl) as (gfd' & Hne & (rest & Hg & Hr & Hn & Hrc)). clear Hgrp.
  unfold bind at 1, gets. unfold bind at 1, on_k. destruct (vk_get_device_fd _ _ _) as [[fd2|e|] k2]; [|done..].
  unfold bind, modify, ret. intros [= <- <-]. exists gfd'. split; [done|]. exists rest. simpl.
  unfold group_at. rewrite Hg. done.
Qed.

Lemma close_runs fd c : exists r k, try (on_k (f_close fd)) c = (Ret r, (c.1, k)).
Proof.
  unfold try, on_k. pose proof (f_close_law fd c.2) as H.
  destruct (f_close fd c.2) as [[u|e|] k]; [by do 2 eexists..|done].
Qed.

(** Closing a group, and the container with its last group, always returns. *)
Lemma close_group_runs (c : con K) gfd g :
  exists c', (do* try (on_k (f_close gfd)) in
     do* modify (set_vc (set_group 0 g)) in
     do* modify (set_vc (fun v => set_nr_groups (vc_nr_groups v - 1) v)) in
     let* v := vc in
     when (vc_nr_groups v =? 0)
       (do* try (on_k (f_close (vc_fd v))) in
        modify (set_vc (fun v =>
          set_alloc (free_free_iovas (set_nephemerals 0 (set_next_ephemeral 0 (set_next 0 (vc_alloc v)))))
            (set_iommu_set false (set_fd (-1) v)))))) c = (Ret tt, c') /\
    vc_refcount (backend c'.1) = vc_refcount (backend c.1).
Proof.
  destruct (close_runs gfd c) as (r & k & Ec). rewrite (bind_ret _ _ _ _ _ Ec).
  unfold bind at 1, modify at 1, bind at 1, modify at 1, bind at 1, vc at 1, gets at 1.
  destruct (_ =? 0); cbn [when]; [|by eexists].
  set (c2 := set_vc _ _). set (fd := vc_fd _). destruct (close_runs fd c2) as (r2 & k2 & Ec2).
  rewrite (bind_ret _ _ _ _ _ Ec2). by eexists.
Qed.

Lemma put_group_shape c gfd path n rc :
  shape c gfd path n 1 rc ->
  exists c', put_group 0 c = (Ret (rc - 1 =? 0), c') /\ (n <> 1 -> shape c' gfd path (n - 1) 1 (rc - 1)).
Proof.
  intros (rest & Hg & Hr & Hn & Hrc). unfold put_group. unfold bind at 1, vc at 1, gets at 1.
  cbv beta. rewrite (group_at_first _ _ _ Hg). cbn [g_fd g_path g_nr_devs].
  unfold bind at 1, modify at 1. destruct (Z.eqb_spec (n - 1) 0) as [E|E]; cbn [when].
  - set (c1 := set_vc _ c). destruct (close_group_runs c1 gfd (mk_group (-1) None (n - 1))) as (c2 & H2 & Hrc2).
    rewrite (bind_ret _ _ _ _ _ H2). unfold bind, modify, vc, gets, ret. eexists. split; [|lia].
    simpl. by rewrite Hrc2, <- Hrc.
  - unfold bind, modify, vc, gets, ret. eexists. split; [simpl; by rewrite Hrc|]. intros _.
    exists rest. simpl. rewrite Hg, Hn, Hrc. done.
Qed.

(** *** Executions *)

Definition vsys_init (k : K) : vfio_sys K := mk_vsys [] ∅ 0 k.

(** Opening a device as [vfio_pci_open] does, with success; closing one that is
    open.  The second component lists the open devices. *)
Inductive dev_step : vfio_sys K * list (nat * string) -> vfio_sys K * list (nat * string) -> Prop :=
| dev_open s o rands bdf p s1 fd s2 :
    vfio_get_iommu_context rands bdf s = (Ret p, s1) ->
    on_container p (vfio_get_device_fd bdf) s1 = (Ret fd, s2) ->
    dev_step (s, o) (s2, (p, bdf) :: o)
| dev_close s o1 p bdf o2 r s' :
    vfio_put_device_fd p bdf s = (r, s') -> dev_step (s, o1 ++ (p, bdf) :: o2) (s', o1 ++ o2).

(** The number of open devices of a container. *)
Definition open_in (p : nat) (o : list (nat * string)) : Z := Z.of_nat (length (filter (fun d => d.1 = p) o)).

(** A container counts its open devices, which are all of one group. *)
Definition con_ok (o : list (nat * string)) (p : nat) (c : iommu_ctx vfio_container) (path : string) : Prop :=
  (exists gfd, gfd <> -1 /\ forall k, shape (c, k) gfd path (open_in p o) 1 (open_in p o)) /\
  0 < open_in p o /\ Forall (fun d => d.1 = p -> grp d.2 = path) o.

Record vsys_inv (s : vfio_sys K) (o : list (nat * string)) : Prop := {
  vi_active : forall p, p ∈ vs_active s <-> is_Some (vs_containers s !! p);
  vi_fresh : forall p, is_Some (vs_containers s !! p) -> (p < vs_fresh s)%nat;
  vi_con : forall p c, vs_containers s !! p = Some c -> exists path, con_ok o p c path;
  vi_path : forall d d', d ∈ o -> d' ∈ o -> grp d.2 = grp d'.2 -> d.1 = d'.1;
  vi_open : Forall (fun d => is_Some (vs_containers s !! d.1)) o
}.

Lemma open_in_mid p q b o1 o2 :
  open_in p (o1 ++ (q, b) :: o2) = open_in p (o1 ++ o2) + (if decide (q = p) then 1 else 0).
Proof.
  unfold open_in. rewrite !filter_app, filter_cons, !length_app. simpl.
  destruct (decide (q = p)); simpl; lia.
Qed.

Lemma open_in_pos p o : 0 < open_in p o <-> exists b, (p, b) ∈ o.
Proof.
  unfold open_in. split.
  - destruct (filter _ o) as [|[q b] l] eqn:E; simpl; [lia|]. intros _. exists b.
    assert ((q, b) ∈ filter (fun d => d.1 = p) o) as [Hq Hin]%list_elem_of_filter by (rewrite E; by apply list_elem_of_here).
    simpl in Hq. by subst.
  - intros [b Hb]. destruct (filter _ o) eqn:E; simpl; [|lia].
    assert ((p, b) ∈ filter (fun d => d.1 = p) o) as Hf by (by apply list_elem_of_filter).
    rewrite E in Hf. by apply elem_of_nil in Hf.
Qed.

Lemma vsys_get_group bdf (s : vfio_sys K) : on_vkernel (pci_get_iommu_group bdf) s = (Ret (grp bdf), s).
Proof. unfold on_vkernel. rewrite grp_stable. by destruct s. Qed.

(** A container found by its group is the container of the group's devices. *)
Lemma find_container_spec s o path :
  vsys_inv s o ->
  match vfio_find_container_by_group s path with
  | Some p => exists c, vs_containers s !! p = Some c /\ con_ok o p c path
  | None => Forall (fun d => grp d.2 <> path) o
  end.
Proof.
  intros Hi.
  assert (forall p c, vs_containers s !! p = Some c -> exists path0, con_ok o p c path0 /\
    existsb (has_path path) (vc_groups (backend c)) = String.eqb path0 path) as Hp.
  { intros p c Hc. destruct (vi_con _ _ Hi p c Hc) as [path0 Hok]. exists path0. split; [done|].
    destruct Hok as ((gfd & _ & Hs) & _). destruct (Hs (vs_kernel s)) as (rest & Hg & Hr & _). simpl in Hg.
    rewrite Hg. simpl. unfold has_path at 1. simpl. destruct (String.eqb path0 path); [done|]. simpl.
    clear Hg Hs. induction Hr as [|g rest Hgn _ IH]; simpl; [done|]. unfold has_path at 1. by rewrite Hgn. }
  unfold vfio_find_container_by_group. destruct (List.find _ _) as [p|] eqn:E.
  - apply List.find_some in E as [_ E]. destruct (vs_containers s !! p) as [c|] eqn:Hc; [|done].
    exists c. split; [done|]. destruct (Hp p c Hc) as (path0 & Hok & He). rewrite He in E.
    apply String.eqb_eq in E as ->. done.
  - apply Forall_forall. intros d Hd <-. pose proof (vi_open _ _ Hi) as Ho. rewrite Forall_forall in Ho.
    destruct (Ho d Hd) as [c Hc]. destruct (Hp _ c Hc) as (path0 & Hok & He).
    eapply List.find_none in E; [|apply list_elem_of_In, (vi_active _ _ Hi); by eexists].
    rewrite Hc, He in E. apply String.eqb_neq in E. destruct Hok as (_ & _ & Hf). rewrite Forall_forall in Hf.
    by apply E, eq_sym, Hf.
Qed.

Lemma init_container_shape gs nr rc : preserves (same_shape gs nr rc) vfio_init_container.
Proof.
  unfold vfio_init_container. apply preserves_bind; [apply preserves_try, on_k_shape|].
  intros [e|fd]; (apply preserves_bind; [apply preserves_modify; by intros c|]; intros _); [apply preserves_fail|].
  apply preserves_bind; [by intros c H|]. intros k.
  destruct (negb _); [apply preserves_fail|]. destruct (negb _); [apply preserves_fail|].
  apply preserves_modify. by intros c.
Qed.

(** The system with a device opened in the container at [p], whose new contents
    are [c]. *)
Lemma open_inv s o p bdf c gfd act fresh k :
  vsys_inv s o -> gfd <> -1 ->
  (forall q, q ∈ act <-> q = p \/ q ∈ vs_active s) -> (p < fresh)%nat -> (vs_fresh s <= fresh)%nat ->
  (forall k, shape (c, k) gfd (grp bdf) (open_in p o + 1) 1 (open_in p o + 1)) ->
  Forall (fun d => grp d.2 = grp bdf <-> d.1 = p) o ->
  vsys_inv (mk_vsys act (<[p := c]> (vs_containers s)) fresh k) ((p, bdf) :: o).
Proof.
  intros Hi Hgfd Hact Hp Hfr Hsh Hd. rewrite Forall_forall in Hd. split; simpl.
  - intros q. rewrite Hact, (vi_active _ _ Hi). destruct (decide (q = p)) as [->|Hne].
    + rewrite lookup_insert_eq. split; [by eexists|by left].
    + rewrite lookup_insert_ne by done. intuition.
  - intros q. destruct (decide (q = p)) as [->|Hne]; [done|]. rewrite lookup_insert_ne by done.
    intros Hq%(vi_fresh _ _ Hi). lia.
  - intros q c' Hc'. destruct (decide (q = p)) as [->|Hne].
    + rewrite lookup_insert_eq in Hc'. injection Hc' as <-. exists (grp bdf). split; [|split].
      * exists gfd. split; [done|]. intros k'. pose proof (open_in_mid p p bdf [] o) as E. simpl in E.
        rewrite decide_True in E by done. by rewrite E.
      * apply open_in_pos. exists bdf. by apply list_elem_of_here.
      * constructor; [done|]. apply Forall_forall. intros d Hin. by apply Hd.
    + rewrite lookup_insert_ne in Hc' by done. destruct (vi_con _ _ Hi q c' Hc') as (path & H1 & H2 & H3).
      exists path. unfold con_ok. pose proof (open_in_mid q p bdf [] o) as E. simpl in E.
      rewrite decide_False in E by done. rewrite E, Z.add_0_r. split; [done|]. split; [done|].
      constructor; [|done]. simpl. done.
  - intros d d' [->|H1]%elem_of_cons [->|H2]%elem_of_cons; simpl; [done|..].
    + intros E. symmetry in E. by apply Hd in E.
    + intros E. by apply Hd in E.
    + by apply (vi_path _ _ Hi).
  - constructor; simpl; [by rewrite lookup_insert_eq; eexists|].
    eapply Forall_impl; [exact (vi_open _ _ Hi)|]. intros d Hsome. simpl.
    destruct (decide (d.1 = p)) as [->|]; [by rewrite lookup_insert_eq; eexists|by rewrite lookup_insert_ne].
Qed.

Lemma on_container_run {A} p c (m : M (con K) A) (s : vfio_sys K) r c' k :
  vs_containers s !! p = Some c -> m (c, vs_kernel s) = (r, (c', k)) ->
  on_container p m s = (r, mk_vsys (vs_active s) (<[p := c']> (vs_containers s)) (vs_fresh s) k).
Proof. intros Hc Hm. unfold on_container. by rewrite Hc, Hm. Qed.

Lemma no_groups :
  exists rest, replicate VFN_MAX_VFIO_GROUPS empty_group = empty_group :: rest /\
    Forall (fun g => g_path g = None) rest.
Proof.
  exists (replicate (VFN_MAX_VFIO_GROUPS - 1) empty_group). split; [done|].
  generalize (VFN_MAX_VFIO_GROUPS - 1)%nat as n. induction n; constructor; done.
Qed.

Lemma dev_open_inv s o rands bdf p s1 fd s2 :
  vsys_inv s o -> vfio_get_iommu_context rands bdf s = (Ret p, s1) ->
  on_container p (vfio_get_device_fd bdf) s1 = (Ret fd, s2) -> vsys_inv s2 ((p, bdf) :: o).
Proof.
  intros Hi Hctx Hdev. unfold vfio_get_iommu_context in Hctx.
  rewrite (bind_ret _ _ _ _ _ (vsys_get_group bdf s)) in Hctx. unfold bind at 1, get in Hctx.
  pose proof (find_container_spec s o (grp bdf) Hi) as Hf.
  destruct (vfio_find_container_by_group s (grp bdf)) as [q|].
  - destruct Hf as (c & Hc & ((gfd & Hgfd & Hsh) & Hpos & Hall)).
    unfold bind in Hctx. erewrite (on_container_run q c) in Hctx; [|exact Hc|reflexivity]. injection Hctx as <- <-.
    unfold on_container in Hdev. simpl in Hdev. rewrite lookup_insert_eq in Hdev.
    assert (shape (set_backend (set_refcount (vc_refcount (backend c) + 1) (backend c)) c, vs_kernel s) gfd (grp bdf)
      (open_in q o) 1 (open_in q o + 1)) as Hs1.
    { destruct (Hsh (vs_kernel s)) as (rest & H1 & H2 & H3 & H4). exists rest. simpl in *. by rewrite H4. }
    destruct (vfio_get_device_fd bdf _) as [r [c2 k2]] eqn:Ed. injection Hdev as -> <-.
    destruct (get_device_fd_shape _ _ _ _ _ _ _ _ Hs1 Ed) as (gfd' & Hne & Hs2).
    rewrite decide_False in Hs2 by done. rewrite insert_insert_eq.
    eapply (open_inv s o q bdf c2 gfd'); [done|done|..|done|].
    + intros x. split; [by right|]. intros [->|]; [|done]. apply (vi_active _ _ Hi). by eexists.
    + apply (vi_fresh _ _ Hi). by eexists.
    + done.
    + rewrite Forall_forall in Hall |- *. intros d Hd. split; [|by apply Hall].
      intros E. apply open_in_pos in Hpos as [b Hb].
      apply (vi_path _ _ Hi d (q, b) Hd Hb). rewrite E. symmetry. by apply (Hall (q, b)).
  - destruct (vfio_init_container (new_container rands, vs_kernel s)) as [[[]|e|] [c k]] eqn:Ei; [|done..].
    injection Hctx as <- <-. unfold on_container in Hdev. simpl in Hdev. rewrite lookup_insert_eq in Hdev.
    destruct no_groups as (rest & Eg & Hrest).
    pose proof (init_container_shape _ 0 0 (new_container rands, vs_kernel s) ltac:(by split; [exact Eg|]))
      as (Hg & Hn & Hr). rewrite Ei in Hg, Hn, Hr. simpl in Hg, Hn, Hr.
    set (v := set_group 0 _ _) in Hdev.
    assert (shape (set_backend v c, k) (-1) (grp bdf) 0 0 1) as Hs1.
    { exists rest. unfold v. simpl. rewrite Hg. split; [|done]. by rewrite (group_at_first _ empty_group rest). }
    destruct (vfio_get_device_fd bdf _) as [r [c2 k2]] eqn:Ed. injection Hdev as -> <-.
    destruct (get_device_fd_shape _ _ _ _ _ _ _ _ Hs1 Ed) as (gfd' & Hne & Hs2). rewrite insert_insert_eq.
    assert (forall b, ((vs_fresh s, b) : nat * string) ∉ o) as Hnew.
    { intros b Hb. pose proof (vi_open _ _ Hi) as Ho. rewrite Forall_forall in Ho.
      specialize (Ho _ Hb). apply (vi_fresh _ _ Hi) in Ho. simpl in Ho. lia. }
    assert (open_in (vs_fresh s) o = 0) as Hz.
    { destruct (decide (0 < open_in (vs_fresh s) o)) as [[b Hb]%open_in_pos|]; [by destruct (Hnew b)|].
      unfold open_in in *. lia. }
    eapply (open_inv s o (vs_fresh s) bdf c2 gfd'); [done|done|..].
    + intros x. apply elem_of_cons.
    + lia.
    + lia.
    + intros k'. rewrite Hz. exact Hs2.
    + rewrite Forall_forall in Hf |- *. intros [q b] Hd. split; [intros E; by destruct (Hf _ Hd)|].
      simpl. intros ->. by destruct (Hnew b).
Qed.

Lemma dev_close_inv s o1 p bdf o2 :
  vsys_inv s (o1 ++ (p, bdf) :: o2) ->
  exists s', vfio_put_device_fd p bdf s = (Ret tt, s') /\ vsys_inv s' (o1 ++ o2).
Proof.
  intros Hi. pose proof (vi_open _ _ Hi) as Ho. apply Forall_app in Ho as [Ho1 [[c Hc] Ho2]%Forall_cons].
  simpl in Hc. destruct (vi_con _ _ Hi p c Hc) as (path & (gfd & Hgfd & Hsh) & Hpos & Hall).
  assert (path = grp bdf) as ->.
  { apply Forall_app in Hall as [_ [H _]%Forall_cons]. symmetry. by apply H. }
  pose proof (open_in_mid p p bdf o1 o2) as En. rewrite decide_True in En by done.
  assert (forall q, q <> p -> open_in q (o1 ++ (p, bdf) :: o2) = open_in q (o1 ++ o2)) as Eo.
  { intros q Hq. rewrite open_in_mid, decide_False by done. lia. }
  assert (Forall (fun d => d ∈ o1 ++ (p, bdf) :: o2) (o1 ++ o2)) as Hsub.
  { apply Forall_forall. set_solver. }
  rewrite Forall_forall in Hsub.
  assert (forall q c', q <> p -> vs_containers s !! q = Some c' -> exists path, con_ok (o1 ++ o2) q c' path) as Hcon.
  { intros q c' Hq Hc'. destruct (vi_con _ _ Hi q c' Hc') as (path & H1 & H2 & H3). exists path. unfold con_ok.
    rewrite Eo in H1, H2 by done. split; [done|]. split; [done|].
    rewrite Forall_forall in H3 |- *. intros d Hd. by apply H3, Hsub. }
  assert (forall d d', d ∈ o1 ++ o2 -> d' ∈ o1 ++ o2 -> grp d.2 = grp d'.2 -> d.1 = d'.1) as Hpath.
  { intros d d' Hd Hd'. apply (vi_path _ _ Hi); by apply Hsub. }
  destruct (put_group_shape _ _ _ _ _ (Hsh (vs_kernel s))) as ([c' k'] & Hput & Hsh').
  unfold vfio_put_device_fd. unfold vfio_get_group. unfold bind at 1.
  erewrite (on_container_run p c); [|exact Hc|by eapply get_group_first]. rewrite insert_id by done.
  unfold bind at 1. erewrite (on_container_run p c); [|exact Hc|exact Hput]. simpl vs_active. simpl vs_containers.
  destruct (Z.eqb_spec (open_in p (o1 ++ (p, bdf) :: o2) - 1) 0) as [Ez|Ez]; cbn [when].
  - unfold bind, modify. eexists. split; [done|]. unfold vfio_container_free. simpl. rewrite delete_insert_eq.
    assert (forall b, ((p, b) : nat * string) ∉ o1 ++ o2) as Hnone.
    { intros b Hb. assert (0 < open_in p (o1 ++ o2)) by (apply open_in_pos; by eexists). lia. }
    split; simpl.
    + intros q. rewrite list_elem_of_filter, (vi_active _ _ Hi). destruct (decide (q = p)) as [->|].
      * rewrite lookup_delete_eq. split; [by intros [? _]|by intros [? ?]].
      * rewrite lookup_delete_ne by done. intuition.
    + intros q [x [_ Hq]%lookup_delete_Some]. apply (vi_fresh _ _ Hi). by eexists.
    + intros q c1 [Hq Hc1]%lookup_delete_Some. by eapply Hcon.
    + done.
    + apply Forall_forall. intros d Hd. pose proof (vi_open _ _ Hi) as Ho. rewrite Forall_forall in Ho.
      rewrite lookup_delete_ne; [by apply Ho, Hsub|]. intros ->. destruct d. by eapply Hnone.
  - eexists. split; [done|]. split; simpl.
    + intros q. rewrite (vi_active _ _ Hi). destruct (decide (q = p)) as [->|].
      * rewrite lookup_insert_eq, Hc. split; by eexists.
      * by rewrite lookup_insert_ne.
    + intros q Hq. apply (vi_fresh _ _ Hi). destruct (decide (q = p)) as [->|]; [by eexists|].
      by rewrite lookup_insert_ne in Hq.
    + intros q c1 Hc1. destruct (decide (q = p)) as [->|]; [|rewrite lookup_insert_ne in Hc1 by done; by eapply Hcon].
      rewrite lookup_insert_eq in Hc1. injection Hc1 as <-. exists (grp bdf). split; [|split; [lia|]].
      * exists gfd. split; [done|]. intros k. replace (open_in p (o1 ++ o2)) with
          (open_in p (o1 ++ (p, bdf) :: o2) - 1) by lia. apply Hsh'. lia.
      * rewrite Forall_forall in Hall |- *. intros d Hd. by apply Hall, Hsub.
    + done.
    + apply Forall_forall. intros d Hd. pose proof (vi_open _ _ Hi) as Ho. rewrite Forall_forall in Ho.
      destruct (decide (d.1 = p)) as [->|]; [rewrite lookup_insert_eq; by eexists|].
      rewrite lookup_insert_ne by done. by apply Ho, Hsub.
Qed.

Lemma live_iff_open s o p : vsys_inv s o -> is_Some (vs_containers s !! p) <-> p ∈ o.*1.
Proof.
  intros Hi. rewrite list_elem_of_fmap. split.
  - intros [c Hc]. destruct (vi_con _ _ Hi p c Hc) as (path & _ & Hpos & _).
    apply open_in_pos in Hpos as [b Hb]. by exists (p, b).
  - intros (d & -> & Hd). pose proof (vi_open _ _ Hi) as Ho. rewrite Forall_forall in Ho. by apply Ho.
Qed.

Lemma dev_reachable_inv k s o : rtc dev_step (vsys_init k, []) (s, o) -> vsys_inv s o.
Proof.
  assert (forall x y, rtc dev_step x y -> vsys_inv x.1 x.2 -> vsys_inv y.1 y.2) as H.
  { induction 1 as [|x y z Hst _ IH]; [done|]. intros Hx. apply IH.
    destruct Hst as [s0 o0 rands bdf p s1 fd s2 H1 H2|s0 o1 p bdf o2 r s' H1]; simpl in *.
    - by eapply dev_open_inv.
    - destruct (dev_close_inv _ _ _ _ _ Hx) as (s2 & E & Hi). rewrite E in H1. by injection H1 as <- <-. }
  intros Hr. apply (H _ _ Hr). split; simpl.
  - intros p. rewrite lookup_empty. split; [by intros ?%elem_of_nil|by intros [? ?]].
  - intros p [c Hc]. by rewrite lookup_empty in Hc.
  - intros p c Hc. by rewrite lookup_empty in Hc.
  - intros d d' []%elem_of_nil.
  - constructor.
Qed.

(** C9. Whatever devices a process opens and closes, the containers follow
    them: the container of an open device is not freed and counts the open
    devices it has; two open devices share a container exactly when they are in
    the same IOMMU group; closing an open device succeeds and frees its
    container exactly when it was the last one in it; and when no device is open
    no container is left. *)
Theorem container_lifecycle k s o :
  rtc dev_step (vsys_init k, []) (s, o) ->
  (forall d, d ∈ o -> exists c, vs_containers s !! d.1 = Some c /\ vc_refcount (backend c) = open_in d.1 o) /\
  (forall d d', d ∈ o -> d' ∈ o -> d.1 = d'.1 <-> grp d.2 = grp d'.2) /\
  (forall o1 p bdf o2, o = o1 ++ (p, bdf) :: o2 ->
     exists s', vfio_put_device_fd p bdf s = (Ret tt, s') /\
       (is_Some (vs_containers s' !! p) <-> p ∈ (o1 ++ o2).*1)) /\
  (o = [] -> vs_containers s = ∅ /\ vs_active s = []).
Proof.
  intros Hr. apply dev_reachable_inv in Hr as Hi. pose proof (vi_open _ _ Hi) as Ho. rewrite Forall_forall in Ho.
  split_and!.
  - intros d Hd. destruct (Ho d Hd) as [c Hc]. exists c. split; [done|].
    destruct (vi_con _ _ Hi _ c Hc) as (path & (gfd & _ & Hsh) & _).
    by destruct (Hsh (vs_kernel s)) as (rest & _ & _ & _ & Hrc).
  - intros d d' Hd Hd'. split; [|by apply (vi_path _ _ Hi)]. intros E. destruct (Ho d Hd) as [c Hc].
    destruct (vi_con _ _ Hi _ c Hc) as (path & _ & _ & Hall). rewrite Forall_forall in Hall.
    rewrite (Hall d Hd eq_refl). symmetry. by apply Hall.
  - intros o1 p bdf o2 ->. destruct (dev_close_inv _ _ _ _ _ Hi) as (s' & Hp & Hi'). exists s'. split; [done|].
    by apply live_iff_open.
  - intros ->. assert (forall p, vs_containers s !! p = None) as Hn.
    { intros p. destruct (vs_containers s !! p) as [c|] eqn:E; [|done].
      assert (is_Some (vs_containers s !! p)) as Hs%(live_iff_open _ _ _ Hi) by (by eexists).
      by apply elem_of_nil in Hs. }
    split; [by apply map_empty|]. destruct (vs_active s) as [|p l] eqn:E; [done|].
    assert (p ∈ vs_active s) as Hp%(vi_active _ _ Hi) by (rewrite E; by apply list_elem_of_here).
    rewrite Hn in Hp. by destruct Hp.
Qed.
End Ops.

(** ** A concrete kernel: two groups *)

#[local] Existing Instance pipe_files.

Definition two_groups (path : string) : errno + string :=
  if String.eqb path "/sys/bus/pci/devices/0000:02:00.0/iommu_group"
  then inr "../../kernel/iommu_groups/13"%string else inr "../../kernel/iommu_groups/12"%string.

#[local] Instance groups_tree : SysFs pipe := {|
  sysfs_files := pipe_files;
  s_stat _ _ := inr false;
  s_readlink _ := two_groups;
  s_access _ _ := false;
  s_opendir _ _ := inl ENOENT;
  s_closedir _ _ := None;
  s_getenv _ _ := None
|}.

Definition demo_info : vfio_iommu_type1_info :=
  mk_iommu_info 64 VFIO_IOMMU_INFO_CAPS 24
    (fun off => if off =? 24 then mk_cap 3 40 [] else mk_cap 1 0 [mk_iova_range 0x10000 0xffffffff]).

#[local] Instance demo_groups : VfioGroups pipe.
Proof.
  refine {| vk_open _ := ret 5; vk_api_version _ _ := 0; vk_check_type1 _ _ := true;
    vk_set_iommu _ := ret tt; vk_get_info _ _ := ret demo_info; vk_group_status _ := ret 1;
    vk_set_container _ _ := ret tt; vk_unset_container _ := ret tt; vk_get_device_fd _ _ := ret 9 |}.
  intros path k fd k' [= <- <-]. lia.
Defined.

Definition demo_grp (bdf : string) : string :=
  if String.eqb (devices +:+ bdf +:+ "/iommu_group") "/sys/bus/pci/devices/0000:02:00.0/iommu_group"
  then "/dev/vfio/13"%string else "/dev/vfio/12"%string.

Lemma demo_grp_stable bdf (k : pipe) : pci_get_iommu_group bdf k = (Ret (demo_grp bdf), k).
Proof.
  unfold pci_get_iommu_group, link_name, bind, demo_grp. simpl. unfold two_groups.
  by destruct (String.eqb _ _).
Qed.

Definition open_demo (bdf : string) (s : vfio_sys pipe) : outcome Z * vfio_sys pipe :=
  match vfio_get_iommu_context [] bdf s with
  | (Ret p, s1) => on_container p (vfio_get_device_fd (page := page_4k) 8 bdf) s1
  | (_, s1) => (Crash, s1)
  end.

Definition demo_v1 : vfio_sys pipe := snd (open_demo "0000:01:00.0" (vsys_init demo_pipe)).
Definition demo_v2 : vfio_sys pipe := snd (open_demo "0000:02:00.0" demo_v1).
Definition demo_open : list (nat * string) := [(1%nat, "0000:02:00.0"%string); (0%nat, "0000:01:00.0"%string)].

Lemma container_lifecycle_witness :
  exists s', vfio_put_device_fd 1 "0000:02:00.0" demo_v2 = (Ret tt, s') /\
    (is_Some (vs_containers s' !! 1%nat) <-> 1%nat ∈ [0%nat]).
Proof.
  pose proof (@container_lifecycle page_4k pipe _ demo_groups 8 demo_grp demo_grp_stable demo_pipe demo_v2 demo_open)
    as H. destruct H as (_ & _ & H & _); [|exact (H [] 1%nat "0000:02:00.0"%string _ eq_refl)].
  eapply rtc_l; [|apply rtc_once].
  - apply (dev_open (page := page_4k) 8 (vsys_init demo_pipe) [] [] "0000:01:00.0" 0
      (snd (vfio_get_iommu_context [] "0000:01:00.0" (vsys_init demo_pipe))) 9 demo_v1); vm_compute; reflexivity.
  - apply (dev_open (page := page_4k) 8 demo_v1 [(0%nat, "0000:01:00.0"%string)] [] "0000:02:00.0" 1
      (snd (vfio_get_iommu_context [] "0000:02:00.0" demo_v1)) 9 demo_v2); vm_compute; reflexivity.
Defined.

(** ** Departures *)

(** A container whose initialisation failed counts as initialised: the next
    attempt succeeds without reserving the ephemeral window. *)
Lemma failed_init_forgotten :
  let failing : VfioGroups pipe :=
    {| vk_open := vk_open; vk_open_law := vk_open_law; vk_api_version := vk_api_version;
       vk_check_type1 := vk_check_type1; vk_set_iommu := vk_set_iommu; vk_get_info _ _ := fail EIO;
       vk_group_status := vk_group_status; vk_set_container := vk_set_container;
       vk_unset_container := vk_unset_container; vk_get_device_fd := vk_get_device_fd |} in
  let s1 := vfio_iommu_type1_init (page := page_4k) (vg := failing) 8 (new_container [], demo_pipe) in
  let s2 := vfio_iommu_type1_init (page := page_4k) (vg := failing) 8 (snd s1) in
  fst s1 = Fail EIO /\ fst s2 = Ret tt /\ ephemerals (vc_alloc (backend (snd s2).1)) = mk_iova_range 0 0.
Proof. vm_compute. done. Qed.

(** A context held twice outlives the last device of its group with a closed
    descriptor, which nothing opens again: the context is of no further use, and
    the group's next device gets another container. *)
Lemma container_not_reopened :
  let s1 := snd (vfio_get_iommu_context [] "0000:01:00.0" (vsys_init demo_pipe)) in
  let s2 := snd (open_demo "0000:01:00.0" s1) in
  let s3 := snd (vfio_put_device_fd 0 "0000:01:00.0" s2) in
  (fun c : iommu_ctx vfio_container => (vc_fd (backend c), vc_refcount (backend c))) <$> vs_containers s3 !! 0%nat = Some (-1, 1) /\
  fst (vfio_get_iommu_context [] "0000:01:00.0" s3) = Ret 1%nat.
Proof. vm_compute. done. Qed.
