(* ===== verification/VfioReady.v ===== *)
(** * VfioReady: from opening a device to mapping memory with vfio

    The container set up by the first device of a group ([VfioContainer]) is
    where the mapping layer starts from ([VfioDma]): the address ranges are the
    ones the kernel reports, or the conservative default; the ephemeral window
    is reserved; nothing is mapped. *)

From S2P Require Import Prelude CStr Io Pci Support Skiplist IovaAlloc VfioIova Dma VfioDma VfioContainer.
Local Open Scope Z_scope.
Local Open Scope vfn_scope.

Section Ready.
Context {page : PageSize} {K : Type} {fs : SysFs K} {vg : VfioGroups K} {vk : VfioKernel K}.
Variable fuel : nat.

(** Ranges of 64-bit addresses that start at a page; one may end at
    [UINT64_MAX], as with AMD-Vi. *)
Definition page_ranges (ranges : list iommu_iova_range) : Prop :=
  valid_ranges ranges /\ Forall (fun r => r_start r mod __VFN_PAGESIZE = 0) ranges.

(** What the kernel documents of the ranges it reports: pairs of 64-bit
    addresses, starting at pages. *)
Hypothesis ranges_reported : forall fd size k info k' off,
  vk_get_info fd size k = (Ret info, k') ->
  cap_id (info_cap info off) = VFIO_IOMMU_TYPE1_INFO_CAP_IOVA_RANGE -> page_ranges (cap_ranges (info_cap info off)).
Hypothesis page_small : (__VFN_PAGESIZE | IOVA_MIN).

(** Before the IOMMU is set up, and after. *)
Definition unset (mp : iova_map) (c : con K) : Prop :=
  Dma.map c.1 = mp /\ exists r, page_ranges r /\ vc_alloc (backend c.1) = new_allocator r.
Definition ready (mp : iova_map) (c : con K) : Prop :=
  Dma.map c.1 = mp /\ exists r, page_ranges r /\ reserve_ephemerals (new_allocator r) = (Ret tt, vc_alloc (backend c.1)).

Lemma on_k_unset {A} mp (m : M K A) : preserves (unset mp) (on_k m).
Proof. intros [c k] Hc. unfold on_k. simpl. by destruct (m k). Qed.
Lemma on_k_ready {A} mp (m : M K A) c r c' : on_k m c = (r, c') -> ready mp c -> ready mp c'.
Proof. unfold on_k. destruct (m c.2) as [x k]. by intros [= _ <-] Hc. Qed.
Lemma vc_unset mp : preserves (unset mp) (vc (K := K)).
Proof. by intros c. Qed.
#[local] Hint Resolve on_k_unset vc_unset : preserves.

Lemma cap_ranges_unset mp cap : page_ranges (cap_ranges cap) -> preserves (unset mp) (vfio_iommu_type1_get_cap_iova_ranges cap).
Proof.
  intros Hr. unfold vfio_iommu_type1_get_cap_iova_ranges. destruct (__abort_on_overflow _ _); [|auto with preserves..].
  apply preserves_modify. intros [c k] [Hm (r & _ & Ha)]. split; [exact Hm|]. exists (cap_ranges cap). split; [done|].
  simpl in *. by rewrite Ha.
Qed.

Lemma cap_loop_unset mp n info off :
  (forall off, cap_id (info_cap info off) = VFIO_IOMMU_TYPE1_INFO_CAP_IOVA_RANGE -> page_ranges (cap_ranges (info_cap info off))) ->
  preserves (unset mp) (cap_loop n info (info_cap info off)).
Proof.
  intros Hg. revert off. induction n as [|n IH]; intros off; simpl; [auto with preserves|].
  apply preserves_bind.
  - destruct (Z.eqb_spec (cap_id (info_cap info off)) VFIO_IOMMU_TYPE1_INFO_CAP_IOVA_RANGE);
      [by apply cap_ranges_unset, Hg|simpl; auto with preserves].
  - intros _. destruct (_ =? 0); [auto with preserves|apply IH].
Qed.

(** The information of the second or only call is the kernel's. *)
Lemma get_info_reported (c : con K) info c' :
  vfio_iommu_type1_get_iommu_info c = (Ret info, c') ->
  exists fd size k k', vk_get_info fd size k = (Ret info, k').
Proof.
  unfold vfio_iommu_type1_get_iommu_info. intros Hrun.
  apply bind_Ret in Hrun as (v & c1 & _ & Hrun). apply bind_Ret in Hrun as (i1 & c2 & E & Hrun).
  assert (forall size (c : con K) x c', on_k (vk_get_info (vc_fd v) size) c = (Ret x, c') ->
    exists k', vk_get_info (vc_fd v) size c.2 = (Ret x, k')) as Hk.
  { intros size [c0 k] x c0' H. unfold on_k in H. simpl in *. destruct (vk_get_info _ _ k) as [r k']. injection H as -> _. by exists k'. }
  destruct (_ <? _).
  - apply Hk in Hrun as [k' Hrun]. by eexists _, _, _, _.
  - injection Hrun as -> _. apply Hk in E as [k' E]. by eexists _, _, _, _.
Qed.

Lemma capabilities_unset mp c c' :
  unset mp c -> vfio_iommu_type1_get_capabilities fuel c = (Ret tt, c') -> unset mp c'.
Proof using ranges_reported.
  intros Hu Hrun. unfold vfio_iommu_type1_get_capabilities in Hrun.
  apply bind_Ret in Hrun as (info & c1 & E & Hrun). pose proof (get_info_reported _ _ _ E) as (fd & size & k & k' & Hi).
  assert (unset mp c1) as Hu1.
  { assert (preserves (unset mp) (vfio_iommu_type1_get_iommu_info (K := K))) as Hp.
    { unfold vfio_iommu_type1_get_iommu_info. apply preserves_bind; [auto with preserves|]. intros v.
      apply preserves_bind; [auto with preserves|]. intros i. destruct (_ <? _); auto with preserves. }
    specialize (Hp c Hu). by rewrite E in Hp. }
  destruct (negb _); [by injection Hrun as <-|].
  pose proof (cap_loop_unset mp fuel info (info_cap_offset info) (fun off => ranges_reported _ _ _ _ _ off Hi) c1 Hu1) as Hp.
  by rewrite Hrun in Hp.
Qed.

Lemma init_ready mp c c' :
  unset mp c -> vc_iommu_set (backend c.1) = false -> vfio_iommu_type1_init fuel c = (Ret tt, c') -> ready mp c'.
Proof using ranges_reported.
  intros Hu Hset Hrun. unfold vfio_iommu_type1_init in Hrun. unfold bind at 1, vc, gets in Hrun. rewrite Hset in Hrun.
  apply bind_Ret in Hrun as ([] & c1 & E1 & Hrun). pose proof (on_k_unset mp (vk_set_iommu (vc_fd (backend c.1))) c Hu) as Hu1.
  rewrite E1 in Hu1. simpl in Hu1. apply bind_Ret in Hrun as ([] & c2 & E2 & Hrun). injection E2 as <-.
  apply bind_Ret in Hrun as ([] & c3 & E3 & Hrun). apply (capabilities_unset mp) in E3 as (Hm & r & Hr & Ha); [|exact Hu1].
  unfold on_vc_alloc in Hrun. rewrite Ha in Hrun.
  destruct (reserve_ephemerals (new_allocator r)) as [o a] eqn:Er. injection Hrun as -> <-.
  split; [exact Hm|]. exists r. split; [done|exact Er].
Qed.

Definition closed (mp : iova_map) (c : con K) : Prop := unset mp c /\ vc_iommu_set (backend c.1) = false.

Lemma on_k_closed {A} mp (m : M K A) : preserves (closed mp) (on_k m).
Proof. intros [c k] Hc. unfold on_k. simpl. by destruct (m k). Qed.
#[local] Hint Resolve on_k_closed : preserves.

Lemma group_open_closed mp path : preserves (closed mp) (vfio_group_open (K := K) path).
Proof.
  unfold vfio_group_open. apply preserves_bind; [auto with preserves|]. intros fd.
  apply preserves_bind; [|intros []; auto with preserves].
  apply preserves_try, preserves_bind; [auto with preserves|]. intros fl. destruct (negb _); auto with preserves.
Qed.

(** The group is opened and attached to a container that is not set up. *)
Lemma group_fd_ready mp i c fd c' :
  closed mp c -> g_fd (group_at (backend c.1) i) = -1 -> vfio_get_group_fd fuel i c = (Ret fd, c') -> ready mp c'.
Proof using ranges_reported.
  intros Hc Hfd Hrun. unfold vfio_get_group_fd in Hrun. unfold bind at 1, vc, gets in Hrun. rewrite Hfd in Hrun.
  change (-1 =? -1) with true in Hrun. cbn [negb] in Hrun.
  apply bind_Ret in Hrun as (r & c1 & Etry & Hrun). destruct r as [e|fd1].
  { by apply bind_Ret in Hrun as (? & ? & _ & Hrun). }
  apply bind_Ret in Hrun as ([] & c2 & E2 & Hrun). injection E2 as <-. injection Hrun as _ <-.
  unfold try at 1 in Etry. destruct (bind (vfio_group_open _) _ c) as [[x|e|] c1'] eqn:Eb; [|done..].
  injection Etry as -> ->. cut (ready mp c1); [by intros [? ?]|].
  apply bind_Ret in Eb as (gfd & c3 & E3 & Eb).
  pose proof (group_open_closed mp (default "" (g_path (group_at (backend c.1) i))) c Hc) as Hc3. rewrite E3 in Hc3. simpl in Hc3.
  apply bind_Ret in Eb as ([] & c4 & E4 & Eb). injection E4 as <-. set (c4 := set_vc _ c3) in Eb.
  assert (closed mp c4) as Hc4 by exact Hc3.
  apply bind_Ret in Eb as (r & c5 & E5 & Eb). destruct r as [e|[]]; [by apply bind_Ret in Eb as (? & ? & _ & Eb)|].
  injection Eb as _ <-. unfold try in E5.
  destruct (vfio_group_set_container fuel gfd c4) as [[[]|e|] c6] eqn:Es; [|done..]. injection E5 as <-.
  unfold vfio_group_set_container in Es. apply bind_Ret in Es as (v & c7 & E7 & Es). injection E7 as <- <-.
  apply bind_Ret in Es as ([] & c7 & E7 & Es).
  assert (closed mp c7) as Hc7 by (revert E7; unfold on_k; destruct (vk_set_container _ _ _); by intros [= _ <-]).
  apply bind_Ret in Es as (r & c8 & E8 & Es). destruct r as [e|[]]; [by apply bind_Ret in Es as (? & ? & _ & Es)|].
  injection Es as <-. unfold try in E8. destruct (vfio_iommu_type1_init fuel c7) as [[[]|e|] c9] eqn:Ei; [|done..].
  injection E8 as <-. destruct Hc7 as [Hu Hset]. exact (init_ready mp c7 _ Hu Hset Ei).
Qed.

(** *** The whole way *)

Context (grp : string -> string).
Hypothesis grp_stable : forall bdf (k : K), pci_get_iommu_group bdf k = (Ret (grp bdf), k).

Lemma default_page_ranges : page_ranges default_iova_ranges.
Proof using page_small.
  split; [repeat constructor; vm_compute; done|]. constructor; [|constructor]. simpl r_start.
  apply Z.mod_divide; [pose proof pagesize_min; lia|done].
Qed.

Lemma init_container_closed rands (k : K) c k' :
  vfio_init_container (new_container rands, k) = (Ret tt, (c, k')) ->
  closed (Dma.map (new_container rands)) (c, k') /\ vc_groups (backend c) = replicate VFN_MAX_VFIO_GROUPS empty_group.
Proof using page_small.
  intros Hrun. unfold vfio_init_container in Hrun. apply bind_Ret in Hrun as (r & c1 & E & Hrun).
  unfold try, on_k in E. simpl in E. destruct (vk_open "/dev/vfio/vfio" k) as [[fd|e|] k1]; [| |done].
  2: { injection E as <- <-. by apply bind_Ret in Hrun as (? & ? & _ & Hrun). }
  injection E as <- <-. apply bind_Ret in Hrun as ([] & c2 & E2 & Hrun). injection E2 as <-.
  apply bind_Ret in Hrun as (k2 & c2 & E2 & Hrun). injection E2 as <- <-.
  destruct (negb _); [done|]. destruct (negb _); [done|]. injection Hrun as <- <-.
  split; [|done]. split; [|done]. split; [done|]. exists default_iova_ranges. split; [apply default_page_ranges|done].
Qed.

Lemma get_device_fd_ready mp c bdf fd c' :
  closed mp c -> (exists rest, vc_groups (backend c.1) = mk_group (-1) (Some (grp bdf)) 0 :: rest) ->
  vfio_get_device_fd fuel bdf c = (Ret fd, c') -> ready mp c'.
Proof using ranges_reported grp_stable.
  intros Hc [rest Hg] Hrun. unfold vfio_get_device_fd in Hrun. apply bind_Ret in Hrun as (group & c1 & E & Hrun).
  assert (group = Some 0%nat /\ c1 = c) as [-> ->].
  { revert E. unfold vfio_get_or_create_group, __vfio_get_group, bind, try, on_k, vc, gets. rewrite grp_stable.
    destruct c as [c k]. simpl in *. rewrite Hg. simpl. unfold has_path. simpl. rewrite String.eqb_refl.
    by intros [= <- <-]. }
  apply bind_Ret in Hrun as (gfd & c2 & E2 & Hrun).
  apply (group_fd_ready mp) in E2; [|done|by rewrite (group_at_first _ _ _ Hg)].
  apply bind_Ret in Hrun as (k & c3 & E3 & Hrun). injection E3 as <- <-.
  apply bind_Ret in Hrun as (dfd & c3 & E3 & Hrun). apply (on_k_ready mp) in E3 as Hr3; [|done].
  apply bind_Ret in Hrun as ([] & c4 & E4 & Hrun). injection E4 as <-. injection Hrun as _ <-.
  exact Hr3.
Qed.

(** The context of the container as the mapping layer works on it. *)
Definition dma_view (draws : list (list bool)) (k : K) (c : iommu_ctx vfio_container) : iommu_ctx (vfio_backend K) :=
  mk_ctx (Dma.map c) (iova_max c) (iova_next_same c) (rng c) (mk_backend (vc_alloc (backend c)) draws k).

End Ready.

(** ** A concrete kernel: one group, two ranges, a table of mappings *)

Definition table : Type := list (Z * Z * Z).

#[local] Instance table_files : Files table.
Proof.
  refine {| f_open_wronly _ := fail ENOENT; f_open_rdonly _ := fail ENOENT; f_close _ := ret tt;
    f_write _ _ := fail ENOENT; f_read _ _ := fail ENOENT; f_written _ _ := []; f_input _ _ := []; f_quota _ := 0%nat |}.
  - done.
  - intros f fd bs. split; [done|]. by intros [|].
  - intros f fd n _. split; [done|]. by intros [|].
Defined.

#[local] Instance table_tree : SysFs table := {|
  sysfs_files := table_files;
  s_stat _ _ := inl ENOENT;
  s_readlink _ _ := inr "../../../kernel/iommu_groups/12"%string;
  s_access _ _ := false;
  s_opendir _ _ := inl ENOENT;
  s_closedir _ _ := None;
  s_getenv _ _ := None
|}.

Definition table_info : vfio_iommu_type1_info :=
  mk_iommu_info 64 VFIO_IOMMU_INFO_CAPS 24
    (fun off => if off =? 24 then mk_cap 3 40 [] else mk_cap 1 0 [mk_iova_range 0 0xfedfffff; mk_iova_range 0xfef00000 0xffffffffff]).

#[local] Instance table_groups : VfioGroups table.
Proof.
  refine {| vk_open _ := ret 5; vk_api_version _ _ := 0; vk_check_type1 _ _ := true;
    vk_set_iommu _ := ret tt; vk_get_info _ _ := ret table_info; vk_group_status _ := ret 1;
    vk_set_container _ _ := ret tt; vk_unset_container _ := ret tt; vk_get_device_fd _ _ := ret 9 |}.
  intros path k fd k' [= <- <-]. lia.
Defined.

Lemma table_ranges fd size (k : table) info k' off :
  vk_get_info fd size k = (Ret info, k') ->
  cap_id (info_cap info off) = VFIO_IOMMU_TYPE1_INFO_CAP_IOVA_RANGE ->
  page_ranges (page := page_4k) (cap_ranges (info_cap info off)).
Proof.
  intros [= <- <-]. simpl. destruct (off =? 24); [done|]. intros _. split; repeat constructor; vm_compute; done.
Qed.

Definition table_grp (bdf : string) : string := "/dev/vfio/12".
Definition first_ctx := vfio_get_iommu_context [] "0000:01:00.0" (vsys_init ([] : table)).
Definition first_dev := on_container 0 (vfio_get_device_fd (page := page_4k) 8 "0000:01:00.0") (snd first_ctx).

