(* ===== verification/VfioPci.v ===== *)
(** * VfioPci: contexts of either backend, vfio devices and PCI devices

    src/iommu/context.c (the choice of the backend), src/vfio/device.c
    (interrupts and reset) and src/vfio/pci.c (opening and closing a device, its
    regions and its command register).  [iommu_host] is the state of both
    backends in one process; a context is a pointer into one of them. *)

From Stdlib Require String.
From S2P Require Import Prelude CStr Io Pci Support Skiplist IovaAlloc VfioIova Dma Iommufd VfioContainer.
Local Open Scope Z_scope.
Local Open Scope vfn_scope.

(** ** Contexts *)

Record iommu_host (K : Type) : Type := mk_host {
  h_active : list nat;
  h_containers : gmap nat (iommu_ctx vfio_container);
  h_vfio_fresh : nat;
  h_iommufd : Z;
  h_devices : list iommufd_device_info;
  h_ioas : gmap nat (iommu_ctx iommu_ioas);
  h_ioas_fresh : nat;
  h_kernel : K
}.
Arguments mk_host {K}.
Arguments h_active {K}.
Arguments h_containers {K}.
Arguments h_vfio_fresh {K}.
Arguments h_iommufd {K}.
Arguments h_devices {K}.
Arguments h_ioas {K}.
Arguments h_ioas_fresh {K}.
Arguments h_kernel {K}.

(** A [struct iommu_ctx *]. *)
Inductive iommu_ref : Type :=
| VfioCtx (p : nat)
| IommufdCtx (p : nat).

Section Context.
Context {page : PageSize} {K : Type} {fs : SysFs K} {vg : VfioGroups K} {ik : IommufdKernel K}.
(** The bound on the length of a chain of capabilities; the random draws and
    the indeterminate range of a new context. *)
Variables (fuel : nat) (rands : list (list bool)) (indet : iommu_iova_range).

Definition vfio_part (h : iommu_host K) : vfio_sys K :=
  mk_vsys (h_active h) (h_containers h) (h_vfio_fresh h) (h_kernel h).
Definition iommufd_part (h : iommu_host K) : iommufd_sys K :=
  mk_sys (h_iommufd h) (h_devices h) (h_ioas h) (h_ioas_fresh h) (h_kernel h).

Definition on_vfio {A} (m : M (vfio_sys K) A) : M (iommu_host K) A := fun h =>
  let '(r, s) := m (vfio_part h) in
  (r, mk_host (vs_active s) (vs_containers s) (vs_fresh s) (h_iommufd h) (h_devices h) (h_ioas h) (h_ioas_fresh h)
        (vs_kernel s)).
Definition on_iommufd {A} (m : M (iommufd_sys K) A) : M (iommu_host K) A := fun h =>
  let '(r, s) := m (iommufd_part h) in
  (r, mk_host (h_active h) (h_containers h) (h_vfio_fresh h) (sys_fd s) (sys_devices s) (sys_ioas s) (sys_fresh s)
        (sys_kernel s)).
Definition on_hkernel {A} (m : M K A) : M (iommu_host K) A := fun h =>
  let '(r, k) := m (h_kernel h) in
  (r, mk_host (h_active h) (h_containers h) (h_vfio_fresh h) (h_iommufd h) (h_devices h) (h_ioas h) (h_ioas_fresh h) k).

Definition __iommufd_is_available (k : K) : bool :=
  match s_stat k "/dev/vfio/devices" with
  | inr true => match s_stat k "/dev/iommu" with inr _ => true | inl _ => false end
  | _ => false
  end.

(** Without the build option VFN_IOMMU_FORCE_VFIO. *)
Definition __force_vfio (k : K) : bool :=
  match s_getenv k "VFN_IOMMU_FORCE_VFIO" with Some _ => true | None => false end.

Definition iommu_get_context (name : string) : M (iommu_host K) iommu_ref :=
  let* h := get in
  if negb (__iommufd_is_available (h_kernel h)) || __force_vfio (h_kernel h) then
    let* p := on_vfio (vfio_get_iommu_context rands name) in ret (VfioCtx p)
  else
    let* p := on_iommufd (iommufd_get_iommu_context rands name) in ret (IommufdCtx p).

(** [ctx->ops.get_device_fd] and [ctx->ops.put_device_fd]. *)
Definition get_device_fd (ctx : iommu_ref) (bdf : string) : M (iommu_host K) Z :=
  match ctx with
  | VfioCtx p => on_vfio (on_container p (vfio_get_device_fd fuel bdf))
  | IommufdCtx p => on_iommufd (iommufd_get_device_fd indet p bdf)
  end.
Definition put_device_fd (ctx : iommu_ref) (bdf : string) : M (iommu_host K) unit :=
  match ctx with
  | VfioCtx p => on_vfio (vfio_put_device_fd p bdf)
  | IommufdCtx p => on_iommufd (iommufd_put_device_fd p bdf)
  end.
End Context.

(** ** Devices *)

Definition VFIO_DEVICE_FLAGS_RESET : Z := Z.shiftl 1 0.
Definition VFIO_DEVICE_FLAGS_PCI : Z := Z.shiftl 1 1.
Definition VFIO_IRQ_INFO_EVENTFD : Z := Z.shiftl 1 0.
Definition VFIO_IRQ_SET_DATA_EVENTFD : Z := Z.shiftl 1 2.
Definition VFIO_IRQ_SET_ACTION_TRIGGER : Z := Z.shiftl 1 5.
Definition VFIO_PCI_BAR0_REGION_INDEX : Z := 0.
Definition VFIO_PCI_CONFIG_REGION_INDEX : Z := 7.
Definition VFIO_PCI_MSIX_IRQ_INDEX : Z := 2.
Definition PCI_COMMAND : Z := 4.
Definition PCI_COMMAND_MASTER : Z := 4.
Definition PCI_STD_NUM_BARS : nat := 6.

(** struct vfio_irq_info, struct vfio_region_info and struct vfio_irq_set. *)
Record vfio_irq_info : Type := mk_irq_info { irq_argsz : Z; irq_flags : Z; irq_index : Z; irq_count : Z }.
Record vfio_region_info : Type := mk_region { reg_index : Z; reg_size : Z; reg_offset : Z }.
Record vfio_irq_set : Type := mk_irq_set {
  iset_argsz : Z; iset_flags : Z; iset_index : Z; iset_start : Z; iset_count : Z; iset_data : list Z
}.

(** The calls on the descriptor of a device. *)
Class VfioDeviceKernel (K : Type) : Type := {
  (** [VFIO_DEVICE_GET_INFO]: the flags *)
  vd_info : Z -> M K Z;
  (** [VFIO_DEVICE_GET_REGION_INFO] of an index: size and offset *)
  vd_region_info : Z -> Z -> M K (Z * Z);
  (** [VFIO_DEVICE_GET_IRQ_INFO] of an index: flags and count *)
  vd_irq_info : Z -> Z -> M K (Z * Z);
  vd_set_irqs : Z -> vfio_irq_set -> M K unit;
  vd_reset : Z -> M K unit;
  (** [pread] and [pwrite] of bytes at an offset *)
  vd_pread : Z -> Z -> Z -> M K (list Z);
  vd_pwrite : Z -> list Z -> Z -> M K unit;
  (** [mmap(NULL, len, prot, MAP_SHARED, fd, offset)] and [munmap] *)
  vd_mmap : Z -> Z -> Z -> Z -> M K Z;
  vd_munmap : Z -> Z -> M K unit
}.

(** struct vfio_pci_device with its struct vfio_device. *)
Record vfio_pci_device : Type := mk_pci {
  pd_fd : Z;
  pd_ctx : option iommu_ref;
  pd_flags : Z;
  pd_irq : vfio_irq_info;
  pd_classcode : Z;
  pd_bdf : option string;
  pd_config : vfio_region_info;
  pd_bars : list vfio_region_info
}.

Definition zero_region : vfio_region_info := mk_region 0 0 0.
Definition zero_pci : vfio_pci_device :=
  mk_pci 0 None 0 (mk_irq_info 0 0 0 0) 0 None zero_region (replicate PCI_STD_NUM_BARS zero_region).

Definition with_fd (x : Z) (d : vfio_pci_device) : vfio_pci_device :=
  mk_pci x (pd_ctx d) (pd_flags d) (pd_irq d) (pd_classcode d) (pd_bdf d) (pd_config d) (pd_bars d).
Definition with_ctx (x : option iommu_ref) (d : vfio_pci_device) : vfio_pci_device :=
  mk_pci (pd_fd d) x (pd_flags d) (pd_irq d) (pd_classcode d) (pd_bdf d) (pd_config d) (pd_bars d).
Definition with_dev_flags (x : Z) (d : vfio_pci_device) : vfio_pci_device :=
  mk_pci (pd_fd d) (pd_ctx d) x (pd_irq d) (pd_classcode d) (pd_bdf d) (pd_config d) (pd_bars d).
Definition with_irq (x : vfio_irq_info) (d : vfio_pci_device) : vfio_pci_device :=
  mk_pci (pd_fd d) (pd_ctx d) (pd_flags d) x (pd_classcode d) (pd_bdf d) (pd_config d) (pd_bars d).
Definition with_classcode (x : Z) (d : vfio_pci_device) : vfio_pci_device :=
  mk_pci (pd_fd d) (pd_ctx d) (pd_flags d) (pd_irq d) x (pd_bdf d) (pd_config d) (pd_bars d).
Definition with_bdf (x : option string) (d : vfio_pci_device) : vfio_pci_device :=
  mk_pci (pd_fd d) (pd_ctx d) (pd_flags d) (pd_irq d) (pd_classcode d) x (pd_config d) (pd_bars d).
Definition with_config (x : vfio_region_info) (d : vfio_pci_device) : vfio_pci_device :=
  mk_pci (pd_fd d) (pd_ctx d) (pd_flags d) (pd_irq d) (pd_classcode d) (pd_bdf d) x (pd_bars d).
Definition with_bar (i : nat) (x : vfio_region_info) (d : vfio_pci_device) : vfio_pci_device :=
  mk_pci (pd_fd d) (pd_ctx d) (pd_flags d) (pd_irq d) (pd_classcode d) (pd_bdf d) (pd_config d) (<[i := x]> (pd_bars d)).

(** A device and the process it belongs to. *)
Definition pci_sys (K : Type) : Type := vfio_pci_device * iommu_host K.

Section Device.
Context {K : Type} {fs : SysFs K} {dk : VfioDeviceKernel K}.

Definition dev : M (pci_sys K) vfio_pci_device := gets fst.
Definition upd_dev (f : vfio_pci_device -> vfio_pci_device) : M (pci_sys K) unit := modify (fun s => (f s.1, s.2)).
Definition on_host {A} (m : M (iommu_host K) A) : M (pci_sys K) A := fun s =>
  let '(r, h) := m s.2 in (r, (s.1, h)).
Definition on_fd {A} (m : M K A) : M (pci_sys K) A := on_host (on_hkernel m).

(** ** Interrupts and reset *)

Definition sizeof_irq_set : Z := 20.

(** The first [count] elements of an array; reading past its end is undefined. *)
Definition read_array (data : list Z) (count : Z) : M (pci_sys K) (list Z) :=
  if (count <? 0) || (Z.of_nat (length data) <? count) then crash else ret (take (Z.to_nat count) data).

Definition vfio_set_irq (eventfds : list Z) (start count : Z) : M (pci_sys K) unit :=
  let* d := dev in
  if negb (flag_set (irq_flags (pd_irq d)) VFIO_IRQ_INFO_EVENTFD) then fail EINVAL
  else
    let* data := read_array eventfds count in
    on_fd (vd_set_irqs (pd_fd d)
      (mk_irq_set (u32 (sizeof_irq_set + 4 * count))
        (Z.lor VFIO_IRQ_SET_DATA_EVENTFD VFIO_IRQ_SET_ACTION_TRIGGER)
        (irq_index (pd_irq d)) (u32 start) (u32 count) data)).

Definition vfio_disable_irq (start count : Z) : M (pci_sys K) unit :=
  let* d := dev in
  let* data := read_array (replicate (Z.to_nat count) (-1)) count in
  on_fd (vd_set_irqs (pd_fd d)
    (mk_irq_set (u32 (sizeof_irq_set + 4 * count))
      (Z.lor VFIO_IRQ_SET_DATA_EVENTFD VFIO_IRQ_SET_ACTION_TRIGGER)
      (irq_index (pd_irq d)) (u32 start) (u32 count) data)).

Definition vfio_disable_irq_all : M (pci_sys K) unit :=
  let* d := dev in vfio_disable_irq 0 (s32 (irq_count (pd_irq d))).

Definition vfio_reset : M (pci_sys K) unit :=
  let* d := dev in
  if negb (flag_set (pd_flags d) VFIO_DEVICE_FLAGS_RESET) then fail ENOTSUP
  else on_fd (vd_reset (pd_fd d)).

(** ** Configuration space and regions *)

Definition vfio_pci_read_config (len offset : Z) : M (pci_sys K) (list Z) :=
  let* d := dev in on_fd (vd_pread (pd_fd d) len (u64 (reg_offset (pd_config d) + offset))).
Definition vfio_pci_write_config (buf : list Z) (offset : Z) : M (pci_sys K) unit :=
  let* d := dev in on_fd (vd_pwrite (pd_fd d) buf (u64 (reg_offset (pd_config d) + offset))).

(** A 16-bit object of the host in memory. *)
Context {host : HostOrder}.
Definition load16 (bs : list Z) : Z :=
  let b0 := default 0 (bs !! 0%nat) in
  let b1 := default 0 (bs !! 1%nat) in
  match host_order with Little => Z.lor b0 (Z.shiftl b1 8) | Big => Z.lor (Z.shiftl b0 8) b1 end.
Definition store16 (v : Z) : list Z :=
  match host_order with Little => [byte_of v 0; byte_of v 1] | Big => [byte_of v 1; byte_of v 0] end.

Definition pci_set_bus_master : M (pci_sys K) unit :=
  let* bs := vfio_pci_read_config 2 PCI_COMMAND in
  let pci_cmd := load16 bs in
  let pci_cmd := Z.lor pci_cmd PCI_COMMAND_MASTER in
  vfio_pci_write_config (store16 pci_cmd) PCI_COMMAND.

(** [idx] is an [int]: a negative one is not excluded by the assertion. *)
Definition vfio_pci_init_bar (idx : nat) : M (pci_sys K) unit :=
  if (PCI_STD_NUM_BARS <=? idx)%nat then crash
  else
    let index := VFIO_PCI_BAR0_REGION_INDEX + Z.of_nat idx in
    do* upd_dev (with_bar idx (mk_region index 0 0)) in
    let* d := dev in
    let* (size, offset) := on_fd (vd_region_info (pd_fd d) index) in
    upd_dev (with_bar idx (mk_region index size offset)).

Fixpoint init_bars (idxs : list nat) : M (pci_sys K) unit :=
  match idxs with
  | [] => ret tt
  | i :: idxs' => do* vfio_pci_init_bar i in init_bars idxs'
  end.

(** The loop: [n] is [irq_index + 1]. *)
Fixpoint irq_loop (n : nat) : M (pci_sys K) unit :=
  match n with
  | O => fail EINVAL
  | S n' =>
      let index := Z.of_nat n' in
      do* upd_dev (fun d => with_irq (mk_irq_info (irq_argsz (pd_irq d)) (irq_flags (pd_irq d)) index
            (irq_count (pd_irq d))) d) in
      let* d := dev in
      let* (flags, count) := on_fd (vd_irq_info (pd_fd d) index) in
      do* upd_dev (fun d => with_irq (mk_irq_info (irq_argsz (pd_irq d)) flags index count) d) in
      if count =? 0 then irq_loop n' else ret tt
  end.

Definition vfio_pci_init_irq : M (pci_sys K) unit :=
  do* upd_dev (with_irq (mk_irq_info 16 0 0 0)) in
  irq_loop (Z.to_nat (VFIO_PCI_MSIX_IRQ_INDEX + 1)).

(** A 32-bit object of the host in memory. *)
Definition load32 (bs : list Z) : Z :=
  let b i := default 0 (bs !! i) in
  match host_order with
  | Little => b 0%nat + 2 ^ 8 * b 1%nat + 2 ^ 16 * b 2%nat + 2 ^ 24 * b 3%nat
  | Big => b 3%nat + 2 ^ 8 * b 2%nat + 2 ^ 16 * b 1%nat + 2 ^ 24 * b 0%nat
  end.
Definition irq_bytes (i : vfio_irq_info) : list Z :=
  stored_bytes 4 (irq_argsz i) ++ stored_bytes 4 (irq_flags i) ++ stored_bytes 4 (irq_index i) ++
  stored_bytes 4 (irq_count i).

(** [irq] is the caller's structure, as bytes.  A copy past the end of either
    structure is undefined. *)
Definition vfio_pci_get_irq_info (irq : list Z) : M (pci_sys K) (list Z) :=
  let argsz := load32 irq in
  let size := if argsz =? 0 then 16 else s32 argsz in
  let* d := dev in
  match pd_bdf d with
  | None => fail ENODEV
  | Some _ =>
      if (size <? 0) || (16 <? size) || (Z.of_nat (length irq) <? size) then crash
      else ret (take (Z.to_nat size) (irq_bytes (pd_irq d)) ++ drop (Z.to_nat size) irq)
  end.

(** [min_t(size_t, len, region.size - offset)] *)
Definition bar_len (r : vfio_region_info) (len offset : Z) : Z := Z.min len (u64 (reg_size r - offset)).

(** An error is a null result. *)
Definition vfio_pci_map_bar (idx : nat) (len offset prot : Z) : M (pci_sys K) Z :=
  let* d := dev in
  match pd_bars d !! idx with
  | None => crash
  | Some r => on_fd (vd_mmap (bar_len r len offset) prot (pd_fd d) (u64 (reg_offset r + offset)))
  end.

Definition vfio_pci_unmap_bar (idx : nat) (mem len offset : Z) : M (pci_sys K) unit :=
  let* d := dev in
  match pd_bars d !! idx with
  | None => crash
  | Some r => do* try (on_fd (vd_munmap mem (bar_len r len offset))) in ret tt
  end.

(** ** Opening and closing *)

Context {page : PageSize} {vg : VfioGroups K} {ik : IommufdKernel K}.
Variables (fuel iofuel : nat) (rands : list (list bool)) (indet : iommu_iova_range).

(** The context of the device, made for it if it has none.  The result of
    [iommu_get_context] is used without a test for null. *)
Definition open_context (bdf : string) : M (pci_sys K) iommu_ref :=
  let* d := dev in
  match pd_ctx d with
  | Some ctx => ret ctx
  | None =>
      let* ctx := fatal_if (on_host (iommu_get_context rands bdf)) in
      do* upd_dev (with_ctx (Some ctx)) in ret ctx
  end.

Definition vfio_pci_open (bdf : string) : M (pci_sys K) unit :=
  let* d := dev in
  match pd_bdf d with
  | Some _ => fail EALREADY
  | None =>
      let* class := on_fd (pci_device_info_get_ull iofuel bdf "class") in
      do* upd_dev (with_classcode class) in
      let* ctx := open_context bdf in
      let* r := try (on_host (get_device_fd fuel indet ctx bdf)) in
      match r with
      | inl e => do* upd_dev (with_fd (-1)) in fail e
      | inr fd =>
          do* upd_dev (with_fd fd) in
          let* flags := on_fd (vd_info fd) in
          do* upd_dev (with_dev_flags flags) in
          if negb (flag_set flags VFIO_DEVICE_FLAGS_PCI) then crash
          else
            do* upd_dev (with_config (mk_region VFIO_PCI_CONFIG_REGION_INDEX 0 0)) in
            let* (size, offset) := on_fd (vd_region_info fd VFIO_PCI_CONFIG_REGION_INDEX) in
            do* upd_dev (with_config (mk_region VFIO_PCI_CONFIG_REGION_INDEX size offset)) in
            do* init_bars (seq 0 PCI_STD_NUM_BARS) in
            do* pci_set_bus_master in
            do* vfio_pci_init_irq in
            upd_dev (with_bdf (Some bdf))
      end
  end.

(** A device that was never opened has no context and no address to put. *)
Definition vfio_pci_close : M (pci_sys K) unit :=
  let* d := dev in
  do* fatal_if (on_fd (f_close (pd_fd d))) in
  match pd_ctx d, pd_bdf d with
  | Some ctx, Some bdf =>
      do* on_host (put_device_fd ctx bdf) in
      upd_dev (fun _ => zero_pci)
  | _, _ => crash
  end.

(** ** What the operations do *)

(** The command register of a little-endian host: bus mastering is set and
    every other bit kept.  A big-endian host sets a bit of the other byte. *)
Lemma bus_master_bytes b0 b1 :
  0 <= b0 < 256 -> 0 <= b1 < 256 ->
  store16 (Z.lor (load16 [b0; b1]) PCI_COMMAND_MASTER) =
    match host_order with Little => [Z.lor b0 PCI_COMMAND_MASTER; b1] | Big => [b0; Z.lor b1 PCI_COMMAND_MASTER] end.
Proof.
  intros H0 H1. unfold store16, load16, byte_of, PCI_COMMAND_MASTER. simpl lookup. simpl default.
  change 0xff with (Z.ones 8). rewrite !Z.shiftr_0_r.
  assert (forall x, 0 <= x < 256 -> Z.land x (Z.ones 8) = x) as Hm by (intros; rewrite Z.land_ones, Z.mod_small; lia).
  assert (forall x, 0 <= x < 256 -> Z.shiftr x 8 = 0) as Hs
    by (intros; rewrite Z.shiftr_div_pow2 by lia; apply Z.div_small; lia).
  assert (forall a, Z.land (Z.shiftl a 8) (Z.ones 8) = 0) as Hl by (intros; apply land_shiftl_low; [lia|done]).
  assert (forall a, Z.shiftr (Z.shiftl a 8) 8 = a) as Hr by (intros; rewrite Z.shiftr_shiftl_l by lia; apply Z.shiftl_0_r).
  destruct host_order; rewrite !Z.shiftr_lor, !Z.land_lor_distr_l, !Hl, !Hr, !Hs, !Hm by lia;
    change (Z.land 4 (Z.ones 8)) with 4; change (Z.land 0 (Z.ones 8)) with 0;
    by rewrite ?Z.lor_0_r, ?Z.lor_0_l.
Qed.

(** Interrupts by preference: the types the device reports in descending order
    of index (MSI-X, MSI, INTx), the first with vectors taken. *)
Section Irq.
Context (irqs : Z -> Z -> Z * Z).
Hypothesis irqs_stable : forall fd index (k : K), vd_irq_info fd index k = (Ret (irqs fd index), k).

Lemma irq_loop_spec n d h :
  match List.find (fun i => negb (snd (irqs (pd_fd d) i) =? 0)) (rev (Z.of_nat <$> seq 0 n)) with
  | Some i => irq_loop n (d, h) =
      (Ret tt, (with_irq (mk_irq_info (irq_argsz (pd_irq d)) (fst (irqs (pd_fd d) i)) i (snd (irqs (pd_fd d) i))) d, h))
  | None => exists d', irq_loop n (d, h) = (Fail EINVAL, (d', h))
  end.
Proof using irqs_stable.
  revert d. induction n as [|n IH]; intros d; [by eexists|].
  rewrite seq_S, fmap_app, rev_app_distr. simpl. unfold bind, upd_dev, modify, dev, gets, on_fd, on_host, on_hkernel.
  simpl. rewrite irqs_stable. simpl. destruct (irqs (pd_fd d) (Z.of_nat n)) as [fl cnt] eqn:E. simpl.
  destruct (Z.eqb_spec cnt 0) as [->|Hne]; simpl.
  - specialize (IH (with_irq (mk_irq_info (irq_argsz (pd_irq d)) fl (Z.of_nat n) 0) d)). destruct h. exact IH.
  - destruct h. simpl. rewrite E. done.
Qed.

(** [vfio_pci_init_irq] takes the interrupt type of the highest index that
    has vectors (MSI-X before MSI before INTx) and records its flags and its
    number of vectors; without any it fails with [EINVAL]. *)
Theorem init_irq_prefers d h :
  match List.find (fun i => negb (snd (irqs (pd_fd d) i) =? 0)) [2; 1; 0] with
  | Some i => vfio_pci_init_irq (d, h) =
      (Ret tt, (with_irq (mk_irq_info 16 (fst (irqs (pd_fd d) i)) i (snd (irqs (pd_fd d) i))) d, h))
  | None => exists d', vfio_pci_init_irq (d, h) = (Fail EINVAL, (d', h))
  end.
Proof using irqs_stable. exact (irq_loop_spec 3 (with_irq (mk_irq_info 16 0 0 0) d) h). Qed.
End Irq.

(** A mapped region lies within its BAR: for an offset inside the BAR,
    [vfio_pci_map_bar] maps from the BAR's file offset plus the offset, at most
    the asked length, and never past the end of the BAR. *)
Theorem map_bar_within idx len offset prot d h r :
  pd_bars d !! idx = Some r -> 0 <= offset <= reg_size r -> 0 <= len ->
  0 <= reg_offset r -> reg_offset r + reg_size r <= UINT64_MAX ->
  exists l, vfio_pci_map_bar idx len offset prot (d, h) =
      on_fd (vd_mmap l prot (pd_fd d) (reg_offset r + offset)) (d, h) /\
    0 <= l <= len /\ offset + l <= reg_size r /\ (len <= reg_size r - offset -> l = len).
Proof.
  intros Hr Ho Hl H0 H1. unfold UINT64_MAX in *. exists (bar_len r len offset).
  unfold vfio_pci_map_bar, bind, dev, gets. simpl. rewrite Hr. unfold bar_len.
  rewrite !u64_small by lia. split; [done|]. lia.
Qed.

(** ** Opening and closing, end to end *)

Context (grp : string -> string).
Hypothesis grp_stable : forall bdf (k : K), pci_get_iommu_group bdf k = (Ret (grp bdf), k).

(** The containers follow the devices [o], and every listed iommufd device has
    its address space. *)
Definition host_inv (h : iommu_host K) (o : list (nat * string)) : Prop :=
  vsys_inv grp (vfio_part h) o /\ sys_inv (iommufd_part h).

(** What the steps on an open descriptor leave alone. *)
Definition same_host (h0 : iommu_host K) (ctx : option iommu_ref) (b : option string) (s : pci_sys K) : Prop :=
  exists k, s.2 = mk_host (h_active h0) (h_containers h0) (h_vfio_fresh h0) (h_iommufd h0) (h_devices h0)
    (h_ioas h0) (h_ioas_fresh h0) k /\ pd_ctx s.1 = ctx /\ pd_bdf s.1 = b.

Lemma on_fd_same {A} h0 ctx b (m : M K A) : preserves (same_host h0 ctx b) (on_fd m).
Proof.
  intros [d h] (k & Hh & Hd). simpl in *. unfold on_fd, on_host, on_hkernel. simpl. rewrite Hh. simpl.
  destruct (m k) as [r k']. by exists k'.
Qed.

Lemma upd_dev_same h0 ctx b f :
  (forall d, pd_ctx (f d) = pd_ctx d /\ pd_bdf (f d) = pd_bdf d) -> preserves (same_host h0 ctx b) (upd_dev f).
Proof.
  intros Hf. apply preserves_modify. intros [d h] (k & Hh & Hc & Hb). exists k. simpl in *.
  destruct (Hf d) as [-> ->]. done.
Qed.

Lemma dev_same h0 ctx b : preserves (same_host h0 ctx b) dev.
Proof. by intros s. Qed.

#[local] Hint Resolve on_fd_same dev_same : preserves.
#[local] Hint Extern 1 (preserves (same_host _ _ _) (upd_dev _)) => apply upd_dev_same; done : preserves.

Lemma init_bars_same h0 ctx b l : preserves (same_host h0 ctx b) (init_bars l).
Proof.
  induction l as [|i l IH]; simpl; [auto with preserves|]. apply preserves_bind; [|done].
  unfold vfio_pci_init_bar. destruct (_ <=? _)%nat; [auto with preserves|].
  apply preserves_bind; [auto with preserves|]. intros _. apply preserves_bind; [auto with preserves|]. intros d.
  apply preserves_bind; [auto with preserves|]. intros []. auto with preserves.
Qed.

Lemma init_irq_same h0 ctx b : preserves (same_host h0 ctx b) vfio_pci_init_irq.
Proof.
  unfold vfio_pci_init_irq. apply preserves_bind; [auto with preserves|]. intros _.
  generalize (Z.to_nat (VFIO_PCI_MSIX_IRQ_INDEX + 1)) as n. induction n as [|n IH]; simpl; [auto with preserves|].
  apply preserves_bind; [auto with preserves|]. intros _. apply preserves_bind; [auto with preserves|]. intros d.
  apply preserves_bind; [auto with preserves|]. intros []. apply preserves_bind; [auto with preserves|]. intros _.
  destruct (_ =? _); [done|auto with preserves].
Qed.

Lemma bus_master_same h0 ctx b : preserves (same_host h0 ctx b) pci_set_bus_master.
Proof.
  unfold pci_set_bus_master, vfio_pci_read_config, vfio_pci_write_config.
  repeat (apply preserves_bind; [auto with preserves|intros]). auto with preserves.
Qed.

(** A successful open, from the descriptor on. *)
Lemma open_tail h0 ctx b fd bdf s d1 h1 :
  same_host h0 ctx b s ->
  (do* upd_dev (with_fd fd) in
   let* flags := on_fd (vd_info fd) in
   do* upd_dev (with_dev_flags flags) in
   if negb (flag_set flags VFIO_DEVICE_FLAGS_PCI) then crash
   else
     do* upd_dev (with_config (mk_region VFIO_PCI_CONFIG_REGION_INDEX 0 0)) in
     let* (size, offset) := on_fd (vd_region_info fd VFIO_PCI_CONFIG_REGION_INDEX) in
     do* upd_dev (with_config (mk_region VFIO_PCI_CONFIG_REGION_INDEX size offset)) in
     do* init_bars (seq 0 PCI_STD_NUM_BARS) in
     do* pci_set_bus_master in
     do* vfio_pci_init_irq in
     upd_dev (with_bdf (Some bdf))) s = (Ret tt, (d1, h1)) ->
  same_host h0 ctx (Some bdf) (d1, h1).
Proof.
  intros Hs Hrun.
  assert (forall A (m : M (pci_sys K) A) (k : A -> M (pci_sys K) unit) s x s', preserves (same_host h0 ctx b) m -> same_host h0 ctx b s ->
    bind m k s = (Ret x, s') -> exists a s1, same_host h0 ctx b s1 /\ k a s1 = (Ret x, s')) as Hnext
    by (intros; by eapply preserves_Ret).
  apply Hnext in Hrun as (? & s1 & Hs1 & Hrun); [|auto with preserves|done].
  apply Hnext in Hrun as (flags & s2 & Hs2 & Hrun); [|auto with preserves|done].
  apply Hnext in Hrun as (? & s3 & Hs3 & Hrun); [|auto with preserves|done].
  destruct (negb _); [done|].
  apply Hnext in Hrun as (? & s4 & Hs4 & Hrun); [|auto with preserves|done].
  apply Hnext in Hrun as ([size offset] & s5 & Hs5 & Hrun); [|auto with preserves|done].
  apply Hnext in Hrun as (? & s6 & Hs6 & Hrun); [|auto with preserves|done].
  apply Hnext in Hrun as (? & s7 & Hs7 & Hrun); [|apply init_bars_same|done].
  apply Hnext in Hrun as (? & s8 & Hs8 & Hrun); [|apply bus_master_same|done].
  apply Hnext in Hrun as (? & s9 & Hs9 & Hrun); [|apply init_irq_same|done].
  destruct s9 as [d9 h9]. injection Hrun as <- <-. destruct Hs9 as (k & Hh & Hc & _). by exists k.
Qed.

Definition set_hkernel (k : K) (h : iommu_host K) : iommu_host K :=
  mk_host (h_active h) (h_containers h) (h_vfio_fresh h) (h_iommufd h) (h_devices h) (h_ioas h) (h_ioas_fresh h) k.

Lemma host_inv_kernel h k o : host_inv h o -> host_inv (set_hkernel k h) o.
Proof. intros [[H1 H2 H3 H4 H5] Hs]. split; [by split|done]. Qed.

(** A context got for a device and the device opened in it: putting it takes
    both back. *)
Lemma device_roundtrip h o bdf ctx ha fd hb :
  host_inv h o -> iommu_get_context rands bdf h = (Ret ctx, ha) ->
  get_device_fd fuel indet ctx bdf ha = (Ret fd, hb) ->
  forall k, exists h2, put_device_fd ctx bdf (set_hkernel k hb) = (Ret tt, h2) /\ host_inv h2 o /\
    h_devices h2 = h_devices h.
Proof using grp_stable.
  intros [Hv Hs] Hctx Hdev k. unfold iommu_get_context in Hctx. unfold bind at 1, get in Hctx.
  destruct (_ || _); apply bind_Ret in Hctx as (p & h1 & Hp & Hret); injection Hret as <- <-;
    unfold get_device_fd in Hdev.
  - unfold on_vfio in Hp, Hdev. destruct (vfio_get_iommu_context rands bdf (vfio_part h)) as [r s1] eqn:E1.
    injection Hp as -> <-.
    change (vfio_part _) with (mk_vsys (vs_active s1) (vs_containers s1) (vs_fresh s1) (vs_kernel s1)) in Hdev.
    replace (mk_vsys (vs_active s1) (vs_containers s1) (vs_fresh s1) (vs_kernel s1)) with s1 in Hdev by (by destruct s1).
    destruct (on_container p (vfio_get_device_fd fuel bdf) s1) as [r s2] eqn:E2. injection Hdev as -> <-.
    pose proof (dev_open_inv fuel grp grp_stable _ _ _ _ _ _ _ _ Hv E1 E2) as Hi.
    assert (vsys_inv grp (mk_vsys (vs_active s2) (vs_containers s2) (vs_fresh s2) k) ([] ++ (p, bdf) :: o)) as Hik
      by (destruct Hi; by split).
    destruct (dev_close_inv grp grp_stable _ _ _ _ _ Hik) as (s3 & E3 & Hi3).
    unfold put_device_fd, on_vfio, set_hkernel, vfio_part. simpl. rewrite E3. eexists. split; [done|].
    split; [|done]. split; [|exact Hs]. unfold vfio_part. simpl. by destruct s3.
  - unfold on_iommufd in Hp, Hdev. destruct (iommufd_get_iommu_context rands bdf (iommufd_part h)) as [r s1] eqn:E1.
    injection Hp as -> <-.
    assert (sys_inv s1) as Hs1.
    { pose proof (sys_step_inv _ _ (step_get_context (iommufd_part h) rands bdf) Hs) as H. by rewrite E1 in H. }
    assert (sys_devices s1 = h_devices h) as Ed1.
    { unfold iommufd_get_iommu_context in E1.
      apply (preserves_Ret (devices_are (h_devices h))) in E1 as (? & s2 & H2 & E1); [|auto with preserves|done].
      apply (preserves_Ret (devices_are (h_devices h))) in E1 as (? & s3 & H3 & E1); [|..|done].
      2: { apply preserves_when, preserves_fatal_if. intros s Hd. unfold iommufd_open.
           by destruct (k_open _ _) as [[] ?]. }
      apply (preserves_Ret (devices_are (h_devices h))) in E1 as (? & s4 & H4 & E1); [|auto with preserves|done].
      apply (preserves_Ret (devices_are (h_devices h))) in E1 as (? & s5 & H5 & E1); [|by apply on_sys_kernel_inv|done].
      by injection E1 as _ <-. }
    change (iommufd_part _) with (mk_sys (sys_fd s1) (sys_devices s1) (sys_ioas s1) (sys_fresh s1) (sys_kernel s1)) in Hdev.
    replace (mk_sys (sys_fd s1) (sys_devices s1) (sys_ioas s1) (sys_fresh s1) (sys_kernel s1)) with s1 in Hdev
      by (by destruct s1).
    destruct (iommufd_get_device_fd indet p bdf s1) as [r s2] eqn:E2. injection Hdev as -> <-.
    destruct (get_device_head _ _ _ _ _ _ E2) as (info & Ed2 & <- & <-).
    assert (sys_inv s2) as Hs2.
    { pose proof (sys_step_inv s1 _ (step_get_device s1 indet (info_ioas info) (info_bdf info) ltac:(
        unfold iommufd_get_device_fd, bind, get in E2; destruct (sys_ioas s1 !! info_ioas info); [by eexists|done])) Hs1) as H.
      by rewrite E2 in H. }
    unfold put_device_fd, on_iommufd, set_hkernel, iommufd_part. simpl.
    set (s2k := mk_sys _ _ _ _ k). assert (sys_inv s2k) as Hs2k by done.
    destruct (put_device_first s2k info (sys_devices s1)) as (s3 & E3 & Ed3); [done|].
    pose proof (put_device_inv (info_ioas info) (info_bdf info) _ Hs2k) as Hs3. rewrite E3 in Hs3 |- *.
    eexists. split; [done|]. simpl. split; [|by rewrite Ed3]. split; [|exact Hs3]. destruct Hv. by split.
Qed.

(** Closing an opened device, whatever the kernel has done since. *)
Lemma pci_close_after_open h o bdf d1 h1 :
  host_inv h o -> (forall fd (k : K), fst (f_close fd k) = Ret tt) ->
  vfio_pci_open bdf (zero_pci, h) = (Ret tt, (d1, h1)) ->
  pd_bdf d1 = Some bdf /\
  forall k, exists h2, vfio_pci_close (d1, set_hkernel k h1) = (Ret tt, (zero_pci, h2)) /\ host_inv h2 o /\
    h_devices h2 = h_devices h.
Proof using grp_stable.
  intros Hi Hclose Hrun. unfold vfio_pci_open in Hrun. apply bind_Ret in Hrun as (d & s & E & Hrun).
  injection E as <- <-. change (pd_bdf zero_pci) with (@None string) in Hrun. cbv iota in Hrun.
  apply bind_Ret in Hrun as (class & s & E & Hrun).
  assert (exists k, s = (zero_pci, set_hkernel k h)) as [k0 ->].
  { unfold on_fd, on_host, on_hkernel in E. simpl in E. destruct (pci_device_info_get_ull _ _ _ _) as [r k].
    injection E as _ <-. by exists k. }
  clear E. apply bind_Ret in Hrun as ([] & s & E & Hrun). injection E as <-.
  apply bind_Ret in Hrun as (ctx & s & E & Hrun).
  assert (exists ha, iommu_get_context rands bdf (set_hkernel k0 h) = (Ret ctx, ha) /\
    s = (with_ctx (Some ctx) (with_classcode class zero_pci), ha)) as (ha & Ectx & ->).
  { unfold open_context in E. unfold bind at 1, dev, gets in E. simpl in E. apply bind_Ret in E as (c & s1 & E1 & E).
    unfold fatal_if, on_host in E1. simpl in E1. destruct (iommu_get_context rands bdf _) as [[c'|e|] ha]; try done.
    injection E1 as <- <-. apply bind_Ret in E as ([] & s2 & E2 & E). injection E2 as <-. injection E as <- <-.
    by exists ha. }
  clear E. apply bind_Ret in Hrun as (r & s & E & Hrun). destruct r as [e|fd].
  { apply bind_Ret in Hrun as (? & ? & _ & Hrun). done. }
  assert (exists hb, get_device_fd fuel indet ctx bdf ha = (Ret fd, hb) /\
    s = (with_ctx (Some ctx) (with_classcode class zero_pci), hb)) as (hb & Edev & ->).
  { unfold try, on_host in E. simpl in E. destruct (get_device_fd _ _ _ _ _) as [[x|e|] hb]; try done.
    injection E as <- <-. by exists hb. }
  clear E. apply (open_tail hb (Some ctx) None) in Hrun as (k & Hh & Hc & Hb); [|by destruct hb; eexists].
  simpl in Hh, Hc, Hb. split; [done|]. subst h1. intros k'.
  unfold vfio_pci_close. unfold bind at 1, dev, gets. simpl.
  specialize (Hclose (pd_fd d1) k'). unfold bind at 1, fatal_if, on_fd, on_host, on_hkernel. simpl.
  destruct (f_close (pd_fd d1) k') as [rc k2]. simpl in Hclose. subst rc. simpl. rewrite Hc, Hb. simpl.
  destruct (device_roundtrip _ o bdf ctx ha fd hb (host_inv_kernel h k0 o Hi) Ectx Edev k2) as (h2 & E2 & Hi2 & Hd2).
  exists h2. split; [|done]. unfold bind. fold (set_hkernel k2 hb). simpl. rewrite E2. done.
Qed.

(** Opening and closing a device, with either backend: after a successful
    [vfio_pci_open] of an unused device structure, [vfio_pci_close] succeeds,
    leaves the structure zeroed for reuse, and takes back what opening did to
    the containers, their counts and the list of iommufd devices. *)
Theorem pci_open_close h o bdf d1 h1 :
  host_inv h o -> (forall fd (k : K), fst (f_close fd k) = Ret tt) ->
  vfio_pci_open bdf (zero_pci, h) = (Ret tt, (d1, h1)) ->
  pd_bdf d1 = Some bdf /\
  exists h2, vfio_pci_close (d1, h1) = (Ret tt, (zero_pci, h2)) /\ host_inv h2 o /\ h_devices h2 = h_devices h.
Proof using grp_stable.
  intros Hi Hclose Hrun. destruct (pci_close_after_open h o bdf d1 h1 Hi Hclose Hrun) as [Hb Hk].
  split; [done|]. specialize (Hk (h_kernel h1)). by destruct h1.
Qed.
End Device.

(** ** A concrete process: no iommufd, one device *)

#[local] Existing Instance pipe_files.

#[local] Instance demo_tree : SysFs pipe := {|
  sysfs_files := pipe_files;
  s_stat _ _ := inl ENOENT;
  s_readlink _ _ := inr "../../../kernel/iommu_groups/12"%string;
  s_access _ _ := false;
  s_opendir _ _ := inl ENOENT;
  s_closedir _ _ := None;
  s_getenv _ _ := None
|}.

#[local] Instance demo_vfio_groups : VfioGroups pipe.
Proof.
  refine {| vk_open _ := ret 5; vk_api_version _ _ := 0; vk_check_type1 _ _ := true;
    vk_set_iommu _ := ret tt; vk_get_info _ _ := ret demo_info; vk_group_status _ := ret 1;
    vk_set_container _ _ := ret tt; vk_unset_container _ := ret tt; vk_get_device_fd _ _ := ret 9 |}.
  intros path k fd k' [= <- <-]. lia.
Defined.

#[local] Instance no_iommufd : IommufdKernel pipe.
Proof.
  refine {| k_open _ := fail ENOENT; io_alloc _ := fail ENODEV; io_iova_ranges _ _ _ k := (Some ENODEV, 0, [], k);
    io_map _ _ _ _ _ _ := fail ENODEV; io_unmap _ _ _ _ := fail ENODEV; io_bind _ _ := fail ENODEV;
    io_attach _ _ := fail ENODEV; io_fault_queue_alloc _ := fail ENODEV; io_hwpt_alloc _ _ _ _ := fail ENODEV;
    io_table _ _ := [] |}; done.
Defined.

Definition demo_irqs (fd index : Z) : Z * Z := if index =? 1 then (1, 8) else (0, 0).

Definition demo_device (info : M pipe Z) : VfioDeviceKernel pipe := {|
  vd_info _ := info;
  vd_region_info _ index := ret (0x4000, Z.shiftl index 40);
  vd_irq_info fd index := ret (demo_irqs fd index);
  vd_set_irqs _ _ := ret tt;
  vd_reset _ := ret tt;
  vd_pread _ _ _ := ret [2; 0];
  vd_pwrite _ _ _ := ret tt;
  vd_mmap len _ _ off := ret (0x70000000 + off);
  vd_munmap _ _ := ret tt
|}.

Definition demo_host : iommu_host pipe := mk_host [] ∅ 0 (-1) [] ∅ 0 class_attribute.
Definition little : HostOrder := Little.
Definition demo_opened (info : M pipe Z) : outcome unit * pci_sys pipe :=
  vfio_pci_open (page := page_4k) (host := little) (dk := demo_device info) 8 60 [] (mk_iova_range 0 0)
    "0000:01:00.0" (zero_pci, demo_host).
Definition demo_pci : pci_sys pipe := snd (demo_opened (ret 2)).

Definition group12 (bdf : string) : string := "/dev/vfio/12".

Lemma group12_stable bdf (k : pipe) : pci_get_iommu_group bdf k = (Ret (group12 bdf), k).
Proof. reflexivity. Qed.

Lemma demo_host_inv : host_inv group12 demo_host [].
Proof.
  split; [|constructor].
  apply (dev_reachable_inv (page := page_4k) 8 group12 group12_stable class_attribute).
  apply rtc_refl.
Qed.

Lemma pci_open_close_witness :
  exists h2, vfio_pci_close (demo_pci.1, demo_pci.2) = (Ret tt, (zero_pci, h2)) /\ h_devices h2 = [].
Proof.
  destruct (pci_open_close (page := page_4k) (host := little) (dk := demo_device (ret 2)) 8 60 [] (mk_iova_range 0 0)
    group12 group12_stable demo_host [] "0000:01:00.0" demo_pci.1 demo_pci.2
    demo_host_inv (fun _ _ => eq_refl)) as (_ & h2 & H & _ & Hd).
  - vm_compute. reflexivity.
  - exists h2. split; [exact H|exact Hd].
Defined.

Lemma init_irq_prefers_witness :
  vfio_pci_init_irq (dk := demo_device (ret 2)) (zero_pci, demo_host) =
    (Ret tt, (with_irq (mk_irq_info 16 1 1 8) zero_pci, demo_host)).
Proof. exact (init_irq_prefers (dk := demo_device (ret 2)) demo_irqs (fun _ _ _ => eq_refl) zero_pci demo_host). Defined.

Lemma map_bar_within_witness :
  exists l, vfio_pci_map_bar (dk := demo_device (ret 2)) 0 SIZE_MAX 0x1000 2 (demo_pci.1, demo_pci.2) =
      on_fd (vd_mmap (VfioDeviceKernel := demo_device (ret 2)) l 2 (pd_fd demo_pci.1) 0x1000) (demo_pci.1, demo_pci.2) /\ 0x1000 + l <= 0x4000.
Proof.
  destruct (map_bar_within (dk := demo_device (ret 2)) 0 SIZE_MAX 0x1000 2 demo_pci.1 demo_pci.2 (mk_region 0 0x4000 0))
    as (l & H & _ & Hl & _).
  - vm_compute. reflexivity.
  - simpl. lia.
  - unfold SIZE_MAX, UINT64_MAX. lia.
  - simpl. lia.
  - simpl. unfold UINT64_MAX. lia.
  - exists l. split; [exact H|exact Hl].
Defined.

(** ** Departures *)

(** A failure after the descriptor was opened keeps the container and its
    counts: nothing puts the device. *)
Lemma failed_open_leaks :
  fst (demo_opened (fail EIO)) = Fail EIO /\
  (fun c : iommu_ctx vfio_container => (vc_refcount (backend c), vc_nr_groups (backend c))) <$>
    h_containers (demo_opened (fail EIO)).2.2 !! 0%nat = Some (1, 1).
Proof. vm_compute. done. Qed.

(** A window that starts behind the end of a BAR is mapped with a length that
    wrapped around. *)
Lemma bar_offset_wraps : bar_len (mk_region 0 0x1000 0) SIZE_MAX 0x2000 = 0xfffffffffffff000.
Proof. vm_compute. reflexivity. Qed.
