(* ===== verification/NvmeTypes.v ===== *)
(** * NvmeTypes: data structures of the NVMe interface

    include/vfn/nvme/types.h (submission and completion queue entries, data
    pointers, scatter/gather descriptors) and src/nvme/types.h (controller
    registers, opcodes, identify data).  A field of a [leint] type is given by
    the CPU value whose little-endian form it holds.  The members of
    [union nvme_cmd] overlay the same 64 bytes: [bytes_of_*] are the bytes of a
    member, [cmd_of_*] the same bytes read through the generic member. *)

From S2P Require Import Prelude Support.
Local Open Scope Z_scope.

(** ** Register and command fields (src/nvme/types.h) *)

(** [NVME_FIELD_GET] and [NVME_FIELD_SET] with the SHIFT and MASK of a field. *)
Record nvme_field : Type := mk_field { f_shift : Z; f_mask : Z }.
Definition NVME_FIELD_GET (value : Z) (f : nvme_field) : Z :=
  Z.land (Z.shiftr value (f_shift f)) (f_mask f).
Definition NVME_FIELD_SET (value : Z) (f : nvme_field) : Z :=
  Z.shiftl (Z.land value (f_mask f)) (f_shift f).

Definition NVME_IDENTIFY_DATA_SIZE : Z := 4096.

(** enum nvme_reg *)
Definition NVME_REG_CAP : Z := 0x0000.
Definition NVME_REG_CC : Z := 0x0014.
Definition NVME_REG_CSTS : Z := 0x001c.
Definition NVME_REG_AQA : Z := 0x0024.
Definition NVME_REG_ASQ : Z := 0x0028.
Definition NVME_REG_ACQ : Z := 0x0030.
Definition NVME_REG_CMBLOC : Z := 0x0038.
Definition NVME_REG_CMBSZ : Z := 0x003c.
Definition NVME_REG_CMBMSC : Z := 0x0050.

(** enum nvme_cap *)
Definition CAP_MQES : nvme_field := mk_field 0 0xffff.
Definition CAP_TO : nvme_field := mk_field 24 0xff.
Definition CAP_DSTRD : nvme_field := mk_field 32 0xf.
Definition CAP_CSS : nvme_field := mk_field 37 0xff.
Definition CAP_MPSMIN : nvme_field := mk_field 48 0xf.
Definition CAP_MPSMAX : nvme_field := mk_field 52 0xf.
Definition CAP_CMBS : nvme_field := mk_field 57 0x1.
Definition NVME_CAP_CSS_CSI : Z := Z.shiftl 1 6.
Definition NVME_CAP_CSS_ADMIN : Z := Z.shiftl 1 7.

(** enum nvme_cc *)
Definition CC_EN : nvme_field := mk_field 0 0x1.
Definition CC_CSS : nvme_field := mk_field 4 0x7.
Definition CC_MPS : nvme_field := mk_field 7 0xf.
Definition CC_AMS : nvme_field := mk_field 11 0x7.
Definition CC_SHN : nvme_field := mk_field 14 0x3.
Definition CC_IOSQES : nvme_field := mk_field 16 0xf.
Definition CC_IOCQES : nvme_field := mk_field 20 0xf.
Definition NVME_CC_SHN_NONE : Z := 0.
Definition NVME_CC_AMS_RR : Z := 0.
Definition NVME_CC_CSS_CSI : Z := 6.
Definition NVME_CC_CSS_ADMIN : Z := 7.
Definition NVME_CC_CSS_NVM : Z := 0.

(** enum nvme_csts, nvme_cmbloc, nvme_cmbsz, nvme_cmbmsc *)
Definition CSTS_RDY : nvme_field := mk_field 0 0x1.
Definition CMBLOC_BIR : nvme_field := mk_field 0 0x7.
Definition CMBLOC_OFST : nvme_field := mk_field 12 0xfffff.
Definition CMBSZ_SZU : nvme_field := mk_field 8 0xf.
Definition CMBSZ_SZ : nvme_field := mk_field 12 0xfffff.
Definition CMBMSC_CRE : nvme_field := mk_field 0 0x1.
Definition CMBMSC_CMSE : nvme_field := mk_field 1 0x1.
Definition CMBMSC_CBA : nvme_field := mk_field 12 0xfffffffffffff.

Definition NVME_CMBSZ_SZU_4K : Z := 0.
Definition NVME_CMBSZ_SZU_64K : Z := 1.
Definition NVME_CMBSZ_SZU_1M : Z := 2.
Definition NVME_CMBSZ_SZU_16M : Z := 3.
Definition NVME_CMBSZ_SZU_256M : Z := 4.
Definition NVME_CMBSZ_SZU_4G : Z := 5.
Definition NVME_CMBSZ_SZU_64G : Z := 6.

Definition nvme_cmb_size (cmbsz : Z) : Z :=
  u64 (NVME_FIELD_GET cmbsz CMBSZ_SZ * u64 (Z.shiftl 1 (12 + 4 * NVME_FIELD_GET cmbsz CMBSZ_SZU))).

(** enum nvme_feat *)
Definition FEAT_NRQS_NSQR : nvme_field := mk_field 0 0xffff.
Definition FEAT_NRQS_NCQR : nvme_field := mk_field 16 0xffff.
Definition NVME_FEAT_FID_NUM_QUEUES : Z := 0x07.

(** enum nvme_admin_opcode *)
Definition NVME_ADMIN_DELETE_SQ : Z := 0x00.
Definition NVME_ADMIN_CREATE_SQ : Z := 0x01.
Definition NVME_ADMIN_DELETE_CQ : Z := 0x04.
Definition NVME_ADMIN_CREATE_CQ : Z := 0x05.
Definition NVME_ADMIN_IDENTIFY : Z := 0x06.
Definition NVME_ADMIN_SET_FEATURES : Z := 0x09.
Definition NVME_ADMIN_ASYNC_EVENT : Z := 0x0c.
Definition NVME_ADMIN_VIRT_MGMT : Z := 0x1c.
Definition NVME_ADMIN_DBCONFIG : Z := 0x7c.

(** enum nvme_identify_cns, offsets and flags of the identify data *)
Definition NVME_IDENTIFY_CNS_CTRL : Z := 0x01.
Definition NVME_IDENTIFY_CNS_PRIMARY_CTRL_CAP : Z := 0x14.
Definition NVME_IDENTIFY_CNS_SECONDARY_CTRL_LIST : Z := 0x15.
Definition NVME_IDENTIFY_CTRL_OACS : Z := 256.
Definition NVME_IDENTIFY_CTRL_SGLS : Z := 536.
Definition NVME_IDENTIFY_CTRL_OACS_DBCONFIG : Z := Z.shiftl 1 8.
Definition IDENTIFY_CTRL_SGLS_ALIGNMENT : nvme_field := mk_field 0 0x3.
Definition NVME_IDENTIFY_CTRL_SGLS_ALIGNMENT_NONE : Z := 0x1.
Definition NVME_IDENTIFY_CTRL_SGLS_ALIGNMENT_DWORD : Z := 0x2.

(** enum nvme_virt_mgmt_rt, nvme_virt_mgmt_act *)
Definition NVME_VIRT_MGMT_RESOURCE_TYPE_VQ : Z := 0x0.
Definition NVME_VIRT_MGMT_RESOURCE_TYPE_VI : Z := 0x1.
Definition NVME_VIRT_MGMT_ACTION_PRIMARY_ALLOC_FLEXIBLE : Z := 0x1.
Definition NVME_VIRT_MGMT_ACTION_SECONDARY_OFFLINE : Z := 0x7.
Definition NVME_VIRT_MGMT_ACTION_SECONDARY_ASSIGN_FLEXIBLE : Z := 0x8.
Definition NVME_VIRT_MGMT_ACTION_SECONDARY_ONLINE : Z := 0x9.

(** struct nvme_primary_ctrl_cap and struct nvme_secondary_ctrl, without the
    reserved bytes. *)
Record nvme_primary_ctrl_cap : Type := mk_primary_cap {
  cntlid : Z; portid : Z; crt : Z; vqfrt : Z; vqrfa : Z; vqrfap : Z; vqprt : Z; vqfrsm : Z; vqgran : Z;
  vifrt : Z; virfa : Z; virfap : Z; viprt : Z; vifrsm : Z; vigran : Z
}.
Record nvme_secondary_ctrl : Type := mk_secondary {
  scid : Z; pcid : Z; scs : Z; vfn : Z; nvq : Z; nvi : Z
}.
Definition NVME_ID_SECONDARY_CTRL_MAX : Z := 127.

(** ** Commands (include/vfn/nvme/types.h) *)

(** enum nvme_sgld_type *)
Definition NVME_SGLD_TYPE_DATA_BLOCK : Z := 0x0.
Definition NVME_SGLD_TYPE_BIT_BUCKET : Z := 0x1.
Definition NVME_SGLD_TYPE_SEGMENT : Z := 0x2.
Definition NVME_SGLD_TYPE_LAST_SEGMENT : Z := 0x3.

Definition NVME_SGLD_TYPE_MASK : Z := 0xf.
Definition NVME_SGLD_TYPE_SHIFT : Z := 4.

Record nvme_sgld : Type := mk_sgld { sg_addr : Z; sg_len : Z; sg_type : Z }.
Definition zero_sgld : nvme_sgld := mk_sgld 0 0 0.

(** union nvme_dptr *)
Inductive nvme_dptr : Type :=
| dptr_prp (prp1 prp2 : Z)
| dptr_sgl (sgl : nvme_sgld).

(** enum nvme_cmd_create_q_flags *)
Definition NVME_Q_PC : Z := Z.shiftl 1 0.
Definition NVME_CQ_IEN : Z := Z.shiftl 1 1.
Definition NVME_SQ_QPRIO_LOW : Z := Z.shiftl 3 1.
Definition NVME_SQ_QPRIO_MEDIUM : Z := Z.shiftl 2 1.
Definition NVME_SQ_QPRIO_HIGH : Z := Z.shiftl 1 1.
Definition NVME_SQ_QPRIO_URGENT : Z := Z.shiftl 0 1.

(** The generic member of union nvme_cmd. *)
Record nvme_cmd : Type := mk_cmd {
  opcode : Z; flags : Z; cid : Z; nsid : Z; cdw2 : Z; cdw3 : Z; mptr : Z; dptr : nvme_dptr;
  cdw10 : Z; cdw11 : Z; cdw12 : Z; cdw13 : Z; cdw14 : Z; cdw15 : Z
}.
Definition zero_cmd : nvme_cmd := mk_cmd 0 0 0 0 0 0 0 (dptr_prp 0 0) 0 0 0 0 0 0.

Record nvme_cmd_identify : Type := mk_identify {
  id_opcode : Z; id_flags : Z; id_cid : Z; id_nsid : Z; id_dptr : nvme_dptr;
  id_cns : Z; id_ctrlid : Z; id_csi : Z
}.
Record nvme_cmd_create_cq : Type := mk_create_cq {
  ccq_opcode : Z; ccq_flags : Z; ccq_cid : Z; ccq_prp1 : Z;
  ccq_qid : Z; ccq_qsize : Z; ccq_qflags : Z; ccq_iv : Z
}.
Record nvme_cmd_create_sq : Type := mk_create_sq {
  csq_opcode : Z; csq_flags : Z; csq_cid : Z; csq_prp1 : Z;
  csq_qid : Z; csq_qsize : Z; csq_qflags : Z; csq_cqid : Z
}.
Record nvme_cmd_delete_q : Type := mk_delete_q {
  dq_opcode : Z; dq_flags : Z; dq_cid : Z; dq_qid : Z
}.
Record nvme_cmd_features : Type := mk_features {
  ft_opcode : Z; ft_flags : Z; ft_cid : Z; ft_nsid : Z; ft_dptr : nvme_dptr;
  ft_fid : Z; ft_sel : Z; ft_cdw11 : Z; ft_cdw12 : Z; ft_cdw13 : Z; ft_cdw14 : Z; ft_cdw15 : Z
}.
Record nvme_cmd_log : Type := mk_log {
  lg_opcode : Z; lg_flags : Z; lg_cid : Z; lg_nsid : Z; lg_dptr : nvme_dptr;
  lg_lid : Z; lg_lsp : Z; lg_numdl : Z; lg_numdu : Z; lg_lsi : Z; lg_lpol : Z; lg_lpou : Z;
  lg_cdw14 : Z; lg_cdw15 : Z
}.
Record nvme_cmd_rw : Type := mk_rw {
  rw_opcode : Z; rw_flags : Z; rw_cid : Z; rw_nsid : Z; rw_cdw2 : Z; rw_cdw3 : Z; rw_mptr : Z;
  rw_dptr : nvme_dptr; rw_slba : Z; rw_nlb : Z; rw_control : Z; rw_dsm : Z; rw_reftag : Z;
  rw_apptag : Z; rw_appmask : Z
}.

(** enum nvme_cmd_flags *)
Definition NVME_CMD_FLAGS_PSDT_PRP : Z := 0x0.
Definition NVME_CMD_FLAGS_PSDT_SGL_MPTR_CONTIG : Z := 0x1.
Definition NVME_CMD_FLAGS_PSDT_SGL_MPTR_SGL : Z := 0x2.
Definition CMD_FLAGS_PSDT : nvme_field := mk_field 6 0x3.

Record nvme_cqe : Type := mk_cqe { dw0 : Z; dw1 : Z; sqhd : Z; sqid : Z; cqe_cid : Z; sfp : Z }.
Definition zero_cqe : nvme_cqe := mk_cqe 0 0 0 0 0 0.
Definition qw0 (cqe : nvme_cqe) : Z := Z.lor (Z.shiftl (dw1 cqe) 32) (dw0 cqe).

Definition NVME_AEN_TYPE (dw0 : Z) : Z := Z.land (Z.shiftr dw0 0) 0x7.
Definition NVME_AEN_INFO (dw0 : Z) : Z := Z.land (Z.shiftr dw0 8) 0xff.
Definition NVME_AEN_LID (dw0 : Z) : Z := Z.land (Z.shiftr dw0 16) 0xff.

(** ** Layout *)

(** The little-endian bytes of a [leint] field of [n] bytes. *)
Definition le (n : nat) (v : Z) : list Z := (fun i : nat => byte_of v (Z.of_nat i)) <$> seq 0 n.
Definition zeros (n : nat) : list Z := replicate n 0.

Definition bytes_of_sgld (s : nvme_sgld) : list Z := le 8 (sg_addr s) ++ le 4 (sg_len s) ++ zeros 3 ++ le 1 (sg_type s).
Definition bytes_of_dptr (d : nvme_dptr) : list Z :=
  match d with
  | dptr_prp prp1 prp2 => le 8 prp1 ++ le 8 prp2
  | dptr_sgl sgl => bytes_of_sgld sgl
  end.

Definition bytes_of_cmd (c : nvme_cmd) : list Z :=
  le 1 (opcode c) ++ le 1 (flags c) ++ le 2 (cid c) ++ le 4 (nsid c) ++ le 4 (cdw2 c) ++ le 4 (cdw3 c) ++
  le 8 (mptr c) ++ bytes_of_dptr (dptr c) ++ le 4 (cdw10 c) ++ le 4 (cdw11 c) ++ le 4 (cdw12 c) ++
  le 4 (cdw13 c) ++ le 4 (cdw14 c) ++ le 4 (cdw15 c).

Definition bytes_of_identify (c : nvme_cmd_identify) : list Z :=
  le 1 (id_opcode c) ++ le 1 (id_flags c) ++ le 2 (id_cid c) ++ le 4 (id_nsid c) ++ zeros 16 ++
  bytes_of_dptr (id_dptr c) ++ le 1 (id_cns c) ++ zeros 1 ++ le 2 (id_ctrlid c) ++ zeros 3 ++
  le 1 (id_csi c) ++ zeros 16.
Definition bytes_of_create_cq (c : nvme_cmd_create_cq) : list Z :=
  le 1 (ccq_opcode c) ++ le 1 (ccq_flags c) ++ le 2 (ccq_cid c) ++ zeros 20 ++ le 8 (ccq_prp1 c) ++
  zeros 8 ++ le 2 (ccq_qid c) ++ le 2 (ccq_qsize c) ++ le 2 (ccq_qflags c) ++ le 2 (ccq_iv c) ++ zeros 16.
Definition bytes_of_create_sq (c : nvme_cmd_create_sq) : list Z :=
  le 1 (csq_opcode c) ++ le 1 (csq_flags c) ++ le 2 (csq_cid c) ++ zeros 20 ++ le 8 (csq_prp1 c) ++
  zeros 8 ++ le 2 (csq_qid c) ++ le 2 (csq_qsize c) ++ le 2 (csq_qflags c) ++ le 2 (csq_cqid c) ++ zeros 16.
Definition bytes_of_delete_q (c : nvme_cmd_delete_q) : list Z :=
  le 1 (dq_opcode c) ++ le 1 (dq_flags c) ++ le 2 (dq_cid c) ++ zeros 36 ++ le 2 (dq_qid c) ++ zeros 2 ++ zeros 20.
Definition bytes_of_features (c : nvme_cmd_features) : list Z :=
  le 1 (ft_opcode c) ++ le 1 (ft_flags c) ++ le 2 (ft_cid c) ++ le 4 (ft_nsid c) ++ zeros 16 ++
  bytes_of_dptr (ft_dptr c) ++ le 1 (ft_fid c) ++ le 1 (ft_sel c) ++ zeros 2 ++ le 4 (ft_cdw11 c) ++
  le 4 (ft_cdw12 c) ++ le 4 (ft_cdw13 c) ++ le 4 (ft_cdw14 c) ++ le 4 (ft_cdw15 c).
Definition bytes_of_log (c : nvme_cmd_log) : list Z :=
  le 1 (lg_opcode c) ++ le 1 (lg_flags c) ++ le 2 (lg_cid c) ++ le 4 (lg_nsid c) ++ zeros 16 ++
  bytes_of_dptr (lg_dptr c) ++ le 1 (lg_lid c) ++ le 1 (lg_lsp c) ++ le 2 (lg_numdl c) ++ le 2 (lg_numdu c) ++
  le 2 (lg_lsi c) ++ le 4 (lg_lpol c) ++ le 4 (lg_lpou c) ++ le 4 (lg_cdw14 c) ++ le 4 (lg_cdw15 c).

(** The offsets of the C structure: [reftag] is aligned to four bytes, so two
    bytes of padding follow [dsm]. *)
Definition bytes_of_rw (c : nvme_cmd_rw) : list Z :=
  le 1 (rw_opcode c) ++ le 1 (rw_flags c) ++ le 2 (rw_cid c) ++ le 4 (rw_nsid c) ++ le 4 (rw_cdw2 c) ++
  le 4 (rw_cdw3 c) ++ le 8 (rw_mptr c) ++ bytes_of_dptr (rw_dptr c) ++ le 8 (rw_slba c) ++ le 2 (rw_nlb c) ++
  le 2 (rw_control c) ++ le 2 (rw_dsm c) ++ zeros 2 ++ le 4 (rw_reftag c) ++ le 2 (rw_apptag c) ++ le 2 (rw_appmask c).
Definition bytes_of_cqe (c : nvme_cqe) : list Z :=
  le 4 (dw0 c) ++ le 4 (dw1 c) ++ le 2 (sqhd c) ++ le 2 (sqid c) ++ le 2 (cqe_cid c) ++ le 2 (sfp c).

(** The same bytes through the generic member. *)
Definition cmd_of_identify (c : nvme_cmd_identify) : nvme_cmd :=
  mk_cmd (id_opcode c) (id_flags c) (id_cid c) (id_nsid c) 0 0 0 (id_dptr c)
    (Z.lor (Z.shiftl (id_ctrlid c) 16) (id_cns c)) (Z.shiftl (id_csi c) 24) 0 0 0 0.
Definition cmd_of_create_cq (c : nvme_cmd_create_cq) : nvme_cmd :=
  mk_cmd (ccq_opcode c) (ccq_flags c) (ccq_cid c) 0 0 0 0 (dptr_prp (ccq_prp1 c) 0)
    (Z.lor (Z.shiftl (ccq_qsize c) 16) (ccq_qid c)) (Z.lor (Z.shiftl (ccq_iv c) 16) (ccq_qflags c)) 0 0 0 0.
Definition cmd_of_create_sq (c : nvme_cmd_create_sq) : nvme_cmd :=
  mk_cmd (csq_opcode c) (csq_flags c) (csq_cid c) 0 0 0 0 (dptr_prp (csq_prp1 c) 0)
    (Z.lor (Z.shiftl (csq_qsize c) 16) (csq_qid c)) (Z.lor (Z.shiftl (csq_cqid c) 16) (csq_qflags c)) 0 0 0 0.
Definition cmd_of_delete_q (c : nvme_cmd_delete_q) : nvme_cmd :=
  mk_cmd (dq_opcode c) (dq_flags c) (dq_cid c) 0 0 0 0 (dptr_prp 0 0) (dq_qid c) 0 0 0 0 0.
Definition cmd_of_features (c : nvme_cmd_features) : nvme_cmd :=
  mk_cmd (ft_opcode c) (ft_flags c) (ft_cid c) (ft_nsid c) 0 0 0 (ft_dptr c)
    (Z.lor (Z.shiftl (ft_sel c) 8) (ft_fid c)) (ft_cdw11 c) (ft_cdw12 c) (ft_cdw13 c) (ft_cdw14 c) (ft_cdw15 c).
Definition cmd_of_log (c : nvme_cmd_log) : nvme_cmd :=
  mk_cmd (lg_opcode c) (lg_flags c) (lg_cid c) (lg_nsid c) 0 0 0 (lg_dptr c)
    (Z.lor (Z.shiftl (lg_numdl c) 16) (Z.lor (Z.shiftl (lg_lsp c) 8) (lg_lid c)))
    (Z.lor (Z.shiftl (lg_lsi c) 16) (lg_numdu c)) (lg_lpol c) (lg_lpou c) (lg_cdw14 c) (lg_cdw15 c).
Definition cmd_of_rw (c : nvme_cmd_rw) : nvme_cmd :=
  mk_cmd (rw_opcode c) (rw_flags c) (rw_cid c) (rw_nsid c) (rw_cdw2 c) (rw_cdw3 c) (rw_mptr c) (rw_dptr c)
    (Z.land (rw_slba c) 0xffffffff) (Z.shiftr (rw_slba c) 32) (Z.lor (Z.shiftl (rw_control c) 16) (rw_nlb c))
    (rw_dsm c) (rw_reftag c) (Z.lor (Z.shiftl (rw_appmask c) 16) (rw_apptag c)).

(** ** Fields *)

(** A field of a register: [w] bits at [f_shift]. *)
Definition field_ok (f : nvme_field) (w : Z) : Prop := 0 <= f_shift f /\ 0 <= w /\ f_mask f = Z.ones w.

Lemma field_get_set v f w : field_ok f w -> 0 <= v < 2 ^ w -> NVME_FIELD_GET (NVME_FIELD_SET v f) f = v.
Proof.
  intros (Hs & Hw & Hm) Hv. unfold NVME_FIELD_GET, NVME_FIELD_SET.
  rewrite Z.shiftr_shiftl_l, Z.sub_diag, Z.shiftl_0_r by lia.
  rewrite Hm, !Z.land_ones, Z.mod_mod, Z.mod_small by lia. done.
Qed.

(** A field placed elsewhere does not show in a read, if they do not overlap. *)
Lemma field_get_other v f w g wg :
  field_ok f w -> field_ok g wg -> f_shift f + w <= f_shift g \/ f_shift g + wg <= f_shift f ->
  NVME_FIELD_GET (NVME_FIELD_SET v f) g = 0.
Proof.
  intros (Hs & Hw & Hm) (Hgs & Hgw & Hgm) Hd. unfold NVME_FIELD_GET, NVME_FIELD_SET.
  apply Z.bits_inj'. intros n Hn. rewrite Z.land_spec, Z.shiftr_spec, Z.bits_0 by done.
  rewrite Hgm, Hm. destruct (decide (n < wg)).
  - destruct (decide (n + f_shift g < f_shift f)).
    + by rewrite Z.shiftl_spec_low.
    + rewrite Z.shiftl_spec, Z.land_spec by lia. rewrite (Z.ones_spec_high w) by lia. by rewrite andb_false_r.
  - rewrite (Z.ones_spec_high wg) by lia. by rewrite andb_false_r.
Qed.

Lemma field_get_lor a b f : NVME_FIELD_GET (Z.lor a b) f = Z.lor (NVME_FIELD_GET a f) (NVME_FIELD_GET b f).
Proof. unfold NVME_FIELD_GET. by rewrite Z.shiftr_lor, Z.land_lor_distr_l. Qed.

(** ** Bytes *)

Lemma le_length n v : length (le n v) = n.
Proof. unfold le. by rewrite length_fmap, length_seq. Qed.

Lemma byte_of_testbit v i k : 0 <= i -> 0 <= k -> Z.testbit (byte_of v i) k = (k <? 8) && Z.testbit v (8 * i + k).
Proof.
  intros Hi Hk. rewrite byte_of_div by done. change 256 with (2 ^ 8).
  destruct (Z.ltb_spec k 8); simpl.
  - rewrite Z.mod_pow2_bits_low, <- Z.shiftr_div_pow2, Z.shiftr_spec by lia. f_equal. lia.
  - by rewrite Z.mod_pow2_bits_high by lia.
Qed.

Lemma byte_of_lor_lo lo hi n i :
  0 <= i < n -> byte_of (Z.lor (Z.shiftl hi (8 * n)) lo) i = byte_of lo i.
Proof.
  intros Hi. apply Z.bits_inj'. intros k Hk. rewrite !byte_of_testbit by lia.
  destruct (Z.ltb_spec k 8); [|done]. rewrite Z.lor_spec, Z.shiftl_spec_low by lia. done.
Qed.

Lemma byte_of_lor_hi lo hi n i :
  0 <= n <= i -> 0 <= lo < 2 ^ (8 * n) ->
  byte_of (Z.lor (Z.shiftl hi (8 * n)) lo) i = byte_of hi (i - n).
Proof.
  intros Hi Hlo. apply Z.bits_inj'. intros k Hk. rewrite !byte_of_testbit by lia.
  destruct (Z.ltb_spec k 8); [|done]. simpl. rewrite Z.lor_spec, Z.shiftl_spec by lia.
  replace (Z.testbit lo (8 * i + k)) with false.
  - rewrite orb_false_r. f_equal. lia.
  - symmetry. rewrite <- (Z.mod_small lo (2 ^ (8 * n))) by done. apply Z.mod_pow2_bits_high. lia.
Qed.

(** Two adjacent little-endian fields are one of their combined width. *)
Lemma le_app n m lo hi :
  0 <= lo < 2 ^ (8 * Z.of_nat n) ->
  le (n + m) (Z.lor (Z.shiftl hi (8 * Z.of_nat n)) lo) = le n lo ++ le m hi.
Proof.
  intros Hlo. unfold le. rewrite seq_app, fmap_app. f_equal.
  - apply list_fmap_ext. intros i x Hx. apply lookup_seq in Hx as [-> ?]. apply byte_of_lor_lo. lia.
  - rewrite Nat.add_0_l. apply list_eq. intros i. rewrite !list_lookup_fmap.
    destruct (decide (i < m)%nat).
    + rewrite !lookup_seq_lt by done. simpl. f_equal.
      rewrite byte_of_lor_hi by lia. f_equal. lia.
    + rewrite !lookup_seq_ge by lia. done.
Qed.

Lemma le_zero n : le n 0 = zeros n.
Proof.
  unfold le, zeros. apply list_eq. intros i. rewrite list_lookup_fmap.
  destruct (decide (i < n)%nat).
  - rewrite lookup_seq_lt, lookup_replicate_2 by done. simpl. f_equal.
    apply Z.bits_inj'. intros k Hk. rewrite byte_of_testbit, !Z.bits_0 by lia. by rewrite andb_false_r.
  - rewrite lookup_seq_ge by lia. rewrite (proj2 (lookup_ge_None _ _)); [done|]. rewrite length_replicate. lia.
Qed.

(** The low part of a field is what its bytes show. *)
Lemma le_split v : le 8 v = le 4 (Z.land v 0xffffffff) ++ le 4 (Z.shiftr v 32).
Proof.
  rewrite <- (le_app 4 4 (Z.land v 0xffffffff) (Z.shiftr v 32)).
  - f_equal. change (8 * Z.of_nat 4) with 32. change 0xffffffff with (Z.ones 32).
    apply Z.bits_inj'. intros k Hk. rewrite Z.lor_spec, Z.land_spec. destruct (decide (k < 32)).
    + rewrite Z.shiftl_spec_low, Z.ones_spec_low by lia. simpl. by rewrite andb_true_r.
    + rewrite Z.shiftl_spec, Z.shiftr_spec, Z.ones_spec_high by lia. rewrite andb_false_r, orb_false_r.
      f_equal. lia.
  - change 0xffffffff with (Z.ones 32). rewrite Z.land_ones by lia. apply Z.mod_pos_bound. done.
Qed.

Lemma le_app2 n m lo : 0 <= lo < 2 ^ (8 * Z.of_nat n) -> le (n + m) lo = le n lo ++ zeros m.
Proof. intros H. rewrite <- (le_zero m), <- le_app by done. by rewrite Z.shiftl_0_l. Qed.

(** Halves of a command dword. *)
Lemma le_2_2 lo hi : 0 <= lo < 65536 -> le 4 (Z.lor (Z.shiftl hi 16) lo) = le 2 lo ++ le 2 hi.
Proof. intros H. by apply (le_app 2 2). Qed.
Lemma le_2_0 lo : 0 <= lo < 256 -> le 2 lo = le 1 lo ++ zeros 1.
Proof. intros H. by apply (le_app2 1 1). Qed.
Lemma le_0_3_1 hi : le 4 (Z.shiftl hi 24) = zeros 3 ++ le 1 hi.
Proof. rewrite <- (le_zero 3), <- (le_app 3 1 0 hi) by done. by rewrite Z.lor_0_r. Qed.
Lemma lor8 lo hi : 0 <= lo < 256 -> 0 <= hi < 256 -> 0 <= Z.lor (Z.shiftl hi 8) lo < 65536.
Proof. intros Hlo Hhi. rewrite (lor_shiftl_add hi lo 8) by lia. lia. Qed.
Lemma le_1_1 lo hi : 0 <= lo < 256 -> le 2 (Z.lor (Z.shiftl hi 8) lo) = le 1 lo ++ le 1 hi.
Proof. intros H. by apply (le_app 1 1). Qed.
Lemma le_2_z lo : 0 <= lo < 65536 -> le 4 lo = le 2 lo ++ zeros 2.
Proof. intros H. by apply (le_app2 2 2). Qed.
Lemma le_1_1_2 lo hi :
  0 <= lo < 256 -> 0 <= hi < 256 -> le 4 (Z.lor (Z.shiftl hi 8) lo) = le 1 lo ++ le 1 hi ++ zeros 2.
Proof.
  intros Hlo Hhi. rewrite le_2_z by (by apply lor8). by rewrite le_1_1, <- app_assoc.
Qed.

Lemma bytes_of_dptr_length d : length (bytes_of_dptr d) = 16%nat.
Proof. destruct d; unfold bytes_of_dptr, bytes_of_sgld; rewrite !length_app, !le_length; done. Qed.

(** ** Properties *)

(** Values that fit their fields. *)
Definition fits (w v : Z) : Prop := 0 <= v < 2 ^ w.

Ltac overlay :=
  unfold bytes_of_cmd; simpl opcode; simpl flags; simpl cid; simpl nsid; simpl cdw2; simpl cdw3;
  simpl mptr; simpl dptr; simpl cdw10; simpl cdw11; simpl cdw12; simpl cdw13; simpl cdw14; simpl cdw15.

(** C40. The members of [union nvme_cmd] overlay the generic one as the NVMe
    specification lays the commands out: writing the fields of an identify,
    create queue, delete queue, features, log or read/write command puts the
    same 64 bytes in memory as writing the command dwords of the generic member
    that the specification assigns to them. *)
Theorem cmd_overlay :
  (forall c, fits 8 (id_cns c) -> fits 16 (id_ctrlid c) -> fits 8 (id_csi c) ->
     bytes_of_identify c = bytes_of_cmd (cmd_of_identify c)) /\
  (forall c, fits 16 (ccq_qid c) -> fits 16 (ccq_qflags c) ->
     bytes_of_create_cq c = bytes_of_cmd (cmd_of_create_cq c)) /\
  (forall c, fits 16 (csq_qid c) -> fits 16 (csq_qflags c) ->
     bytes_of_create_sq c = bytes_of_cmd (cmd_of_create_sq c)) /\
  (forall c, fits 16 (dq_qid c) -> bytes_of_delete_q c = bytes_of_cmd (cmd_of_delete_q c)) /\
  (forall c, fits 8 (ft_fid c) -> fits 8 (ft_sel c) -> bytes_of_features c = bytes_of_cmd (cmd_of_features c)) /\
  (forall c, fits 8 (lg_lid c) -> fits 8 (lg_lsp c) -> fits 16 (lg_numdu c) ->
     bytes_of_log c = bytes_of_cmd (cmd_of_log c)) /\
  (forall c, fits 16 (rw_nlb c) -> fits 16 (rw_dsm c) -> fits 16 (rw_apptag c) ->
     bytes_of_rw c = bytes_of_cmd (cmd_of_rw c)) /\
  (forall c, length (bytes_of_cmd c) = 64%nat) /\ (forall c, length (bytes_of_cqe c) = 16%nat).
Proof.
  unfold fits. split_and!; intros c.
  - intros H1 H2 H3. unfold bytes_of_identify. overlay. rewrite le_2_2, (le_2_0 (id_cns c)) by lia.
    rewrite le_0_3_1, !le_zero. by rewrite <- !app_assoc.
  - intros H1 H2. unfold bytes_of_create_cq. overlay. rewrite !le_2_2, !le_zero by lia.
    by rewrite <- !app_assoc.
  - intros H1 H2. unfold bytes_of_create_sq. overlay. rewrite !le_2_2, !le_zero by lia.
    by rewrite <- !app_assoc.
  - intros H1. unfold bytes_of_delete_q. overlay. rewrite (le_2_z (dq_qid c)), !le_zero by done.
    by rewrite <- !app_assoc.
  - intros H1 H2. unfold bytes_of_features. overlay. rewrite le_1_1_2, !le_zero by lia.
    by rewrite <- !app_assoc.
  - intros H1 H2 H3. unfold bytes_of_log. overlay. rewrite !le_2_2 by first [lia|apply lor8; lia].
    rewrite (le_1_1 (lg_lid c)), !le_zero by done. by rewrite <- !app_assoc.
  - intros H1 H2 H3. unfold bytes_of_rw. overlay. rewrite !le_2_2 by lia.
    rewrite (le_2_z (rw_dsm c)), (le_split (rw_slba c)) by done. by rewrite <- !app_assoc.
  - unfold bytes_of_cmd. by rewrite !length_app, !le_length, bytes_of_dptr_length.
  - unfold bytes_of_cqe. by rewrite !length_app, !le_length.
Qed.

Lemma cmd_overlay_witness :
  bytes_of_create_sq (mk_create_sq 1 0 7 0x5000 1 63 NVME_Q_PC 1) =
  bytes_of_cmd (cmd_of_create_sq (mk_create_sq 1 0 7 0x5000 1 63 NVME_Q_PC 1)).
Proof. apply cmd_overlay; (split; [vm_compute; discriminate|reflexivity]). Defined.
