(* ===== verification/Prp.v ===== *)
(** * Prp: data pointers of commands, src/nvme/util.c

    Building Physical Region Page entries (in the command and in chained list
    pages) and scatter/gather descriptors for a buffer, and, as their
    specification, how a controller reads them back: [device_prps] follows the
    NVMe rules for PRP1, PRP2 and PRP lists. *)

From S2P Require Import Prelude Support Skiplist IovaAlloc VfioIova Dma NvmeTypes.
Local Open Scope Z_scope.
Local Open Scope vfn_scope.

Definition __mps_to_pageshift (mps : Z) : Z := 12 + mps.
Definition __mps_to_pagesize (mps : Z) : Z := Z.shiftl 1 (__mps_to_pageshift mps).

(** ** The cursor over chained list pages *)

(** struct __prp_cursor: [prplists] is the memory of the pages, one after the
    other, as CPU values. *)
Record __prp_cursor : Type := mk_cursor {
  prplists : list Z;
  prplist_iova : Z;
  nprplists : nat;
  page : nat;
  slot : nat
}.

Definition __prp_cursor_init (lists : list Z) (iova : Z) (n : nat) : __prp_cursor :=
  mk_cursor lists iova n 0 0.

Definition __prplist_capacity (nprplists max_prps : Z) : Z := (nprplists - 1) * (max_prps - 1) + max_prps.

(** [prplists + (page << (pageshift - 3))], an index into the memory. *)
Definition page_index (pageshift : Z) (page : nat) : nat :=
  Z.to_nat (Z.shiftl (Z.of_nat page) (pageshift - 3)).

Definition __prp_cursor_put (iova : Z) (max_prps : nat) (pageshift : Z) (is_last : bool)
    : M __prp_cursor unit := fun c =>
  let c :=
    if (slot c =? max_prps - 1)%nat && (page c + 1 <? nprplists c)%nat && negb is_last then
      mk_cursor
        (<[(page_index pageshift (page c) + (max_prps - 1))%nat :=
           u64 (prplist_iova c + Z.shiftl (Z.of_nat (page c + 1)) pageshift)]> (prplists c))
        (prplist_iova c) (nprplists c) (page c + 1) 0
    else c in
  if (nprplists c <=? page c)%nat || (max_prps <=? slot c)%nat then (Fail EINVAL, c)
  else
    (Ret tt, mk_cursor (<[(page_index pageshift (page c) + slot c)%nat := u64 iova]> (prplists c))
               (prplist_iova c) (nprplists c) (page c) (slot c + 1)).

(** The for loops: [todo] more entries, the first with index [i]. *)
Fixpoint put_loop (todo : nat) (i prpcount iova : Z) (max_prps : nat) (pageshift : Z) (last_segment : bool)
    : M __prp_cursor unit :=
  match todo with
  | O => ret tt
  | S todo' =>
      do* __prp_cursor_put (u64 (iova + Z.shiftl i pageshift)) max_prps pageshift
            (last_segment && (i =? prpcount - 1)) in
      put_loop todo' (i + 1) prpcount iova max_prps pageshift last_segment
  end.

(** The number of PRP entries, besides PRP1's value, which is [iova]. *)
Definition __map_prp_first (iova len pageshift : Z) (last_segment : bool) : M __prp_cursor Z :=
  let pagesize := Z.shiftl 1 pageshift in
  let max_prps := Z.shiftl 1 (pageshift - 3) in
  let len := u64 (len - Z.min len (u64 (pagesize - Z.land iova (pagesize - 1)))) in
  let prpcount :=
    if len =? 0 then 1
    else s32 (1 + Z.shiftr (s32 (ALIGN_UP len pagesize)) pageshift) in
  let* c := get in
  if __prplist_capacity (Z.of_nat (nprplists c)) max_prps <? prpcount - 1 then fail EINVAL
  else
    let iova :=
      if (1 <? prpcount) && negb (ALIGNED iova pagesize) then ALIGN_DOWN iova pagesize else iova in
    do* put_loop (Z.to_nat (prpcount - 1)) 1 prpcount iova (Z.to_nat max_prps) pageshift last_segment in
    ret prpcount.

Definition __map_prp_append (iova len : Z) (max_prps : nat) (pageshift : Z) (last_segment : bool)
    : M __prp_cursor Z :=
  let prpcount := Z.max 1 (Z.shiftr (s32 len) pageshift) in
  let pagesize := Z.shiftl 1 pageshift in
  if negb (ALIGNED iova pagesize) then fail EINVAL
  else
    do* put_loop (Z.to_nat prpcount) 0 prpcount iova max_prps pageshift last_segment in
    ret prpcount.

Definition __set_prp2 (prplist_iova : Z) (lists : list Z) (prpcount : Z) : Z :=
  if prpcount =? 2 then default 0 (head lists)
  else if 2 <? prpcount then prplist_iova
  else 0.

(** ** Data pointers from buffers *)

Section Map.
Context {B : Type} (ctx : iommu_ctx B).

(** The outcome, the data pointer and the list pages after the call.  PRP1 is
    written before the first check that can fail. *)
Definition nvme_map_prp (mps prplists_vaddr : Z) (lists : list Z) (nprplists : Z) (d : Z * Z) (iova len : Z)
    : outcome unit * ((Z * Z) * list Z) :=
  let pageshift := __mps_to_pageshift mps in
  if nprplists <? 1 then (Fail EINVAL, (d, lists))
  else
    match iommu_translate_vaddr ctx prplists_vaddr with
    | None => (Fail EFAULT, (d, lists))
    | Some prplist_iova =>
        let c := __prp_cursor_init lists prplist_iova (Z.to_nat nprplists) in
        match __map_prp_first iova len pageshift true c with
        | (Ret prpcount, c') =>
            if prpcount <? 0 then (Fail EINVAL, ((iova, snd d), prplists c'))
            else (Ret tt, ((iova, __set_prp2 prplist_iova (prplists c') prpcount), prplists c'))
        | (Fail _, c') => (Fail EINVAL, ((iova, snd d), prplists c'))
        | (Crash, c') => (Crash, ((iova, snd d), prplists c'))
        end
    end.

(** struct iovec and struct iova_vec *)
Record iovec : Type := mk_iovec { iov_base : Z; iov_len : Z }.
Record iova_vec : Type := mk_iova_vec { iv_iova : Z; iv_len : Z }.

(** The loops over the entries after the first; [translate] gives the I/O
    address of an entry. *)
Fixpoint append_loop (vec : list iovec) (translate : Z -> option Z) (pageshift : Z)
    : M __prp_cursor Z :=
  match vec with
  | [] => ret 0
  | v :: vec' =>
      match translate (iov_base v) with
      | None => fail EFAULT
      | Some iova =>
          let pagesize := Z.shiftl 1 pageshift in
          let last := match vec' with [] => true | _ => false end in
          if negb last && negb (ALIGNED (iov_len v) pagesize) then fail EINVAL
          else
            let* n := __map_prp_append iova (iov_len v) (Z.to_nat (Z.shiftl 1 (pageshift - 3))) pageshift last in
            let* rest := append_loop vec' translate pageshift in
            ret (n + rest)
      end
  end.

(** The common part of [nvme_mapv_prp] and [nvme_mapv_iova_prp] after the
    address of the first entry is known. *)
Definition mapv_segments (iova len : Z) (rest : list iovec) (translate : Z -> option Z) (pageshift : Z)
    : M __prp_cursor Z :=
  let pagesize := Z.shiftl 1 pageshift in
  let single := match rest with [] => true | _ => false end in
  let* prpcount := __map_prp_first iova len pageshift single in
  if prpcount <? 0 then fail EINVAL
  else if negb ((prpcount =? 1) || single || ALIGNED (u64 (iova + len)) pagesize) then fail EINVAL
  else
    let* n := append_loop rest translate pageshift in
    ret (prpcount + n).

Definition run_mapv (m : M __prp_cursor Z) (lists : list Z) (prplist_iova nprplists : Z) (d : Z * Z) (iova : Z)
    : outcome unit * ((Z * Z) * list Z) :=
  match m (__prp_cursor_init lists prplist_iova (Z.to_nat nprplists)) with
  | (Ret prpcount, c') =>
      (Ret tt, ((iova, __set_prp2 prplist_iova (prplists c') prpcount), prplists c'))
  | (Fail e, c') => (Fail e, ((iova, snd d), prplists c'))
  | (Crash, c') => (Crash, ((iova, snd d), prplists c'))
  end.

Definition nvme_mapv_prp (mps prplists_vaddr : Z) (lists : list Z) (nprplists : Z) (d : Z * Z)
    (vec : list iovec) : outcome unit * ((Z * Z) * list Z) :=
  let pageshift := __mps_to_pageshift mps in
  if nprplists <? 1 then (Fail EINVAL, (d, lists))
  else
    match vec with
    | [] => (Crash, (d, lists))
    | v :: rest =>
        match iommu_translate_vaddr ctx (iov_base v), iommu_translate_vaddr ctx prplists_vaddr with
        | Some iova, Some prplist_iova =>
            run_mapv (mapv_segments iova (iov_len v) rest (iommu_translate_vaddr ctx) pageshift)
              lists prplist_iova nprplists d iova
        | _, _ => (Fail EFAULT, (d, lists))
        end
    end.

Definition nvme_mapv_iova_prp (mps prplists_vaddr : Z) (lists : list Z) (nprplists : Z) (d : Z * Z)
    (vec : list iova_vec) : outcome unit * ((Z * Z) * list Z) :=
  let pageshift := __mps_to_pageshift mps in
  if nprplists <? 1 then (Fail EINVAL, (d, lists))
  else
    match iommu_translate_vaddr ctx prplists_vaddr, vec with
    | None, _ => (Fail EFAULT, (d, lists))
    | Some _, [] => (Crash, (d, lists))
    | Some prplist_iova, v :: rest =>
        run_mapv (mapv_segments (iv_iova v) (iv_len v)
            ((fun v => mk_iovec (iv_iova v) (iv_len v)) <$> rest) Some pageshift)
          lists prplist_iova nprplists d (iv_iova v)
    end.

(** ** Scatter/gather lists *)

Definition __sgl_data (iova len : Z) : nvme_sgld :=
  mk_sgld (u64 iova) (u32 len) (Z.shiftl NVME_SGLD_TYPE_DATA_BLOCK 4).
Definition __sgl_segment (iova : Z) (n : nat) : nvme_sgld :=
  mk_sgld (u64 iova) (u32 (Z.shiftl (Z.of_nat n) 4)) (Z.shiftl NVME_SGLD_TYPE_LAST_SEGMENT 4).

(** The loop over the entries: descriptors are written in order until an entry
    cannot be used. *)
Fixpoint sgl_loop (vec : list iovec) (translate : Z -> option Z) (dword_align : bool) (i : nat)
    (seg : list nvme_sgld) : outcome unit * list nvme_sgld :=
  match vec with
  | [] => (Ret tt, seg)
  | v :: vec' =>
      match translate (iov_base v) with
      | None => (Fail EFAULT, seg)
      | Some iova =>
          if dword_align && negb (Z.land iova 0x3 =? 0) then (Fail EINVAL, seg)
          else sgl_loop vec' translate dword_align (S i) (<[i := __sgl_data iova (iov_len v)]> seg)
      end
  end.

(** The command's flags and data pointer, and the segment. *)
Definition mapv_sgl (mps : Z) (dword_align : bool) (seg : list nvme_sgld) (seg_iova : Z)
    (fl : Z) (d : nvme_dptr) (vec : list iovec) (translate : Z -> option Z)
    : outcome unit * (Z * nvme_dptr * list nvme_sgld) :=
  let max_sglds := Z.shiftl 1 (__mps_to_pageshift mps - 4) in
  match vec with
  | [v] =>
      match translate (iov_base v) with
      | None => (Fail EFAULT, (fl, d, seg))
      | Some iova => (Ret tt, (fl, dptr_sgl (__sgl_data iova (iov_len v)), seg))
      end
  | _ =>
      if max_sglds <? Z.of_nat (length vec) then (Fail EINVAL, (fl, d, seg))
      else
        let d' := dptr_sgl (__sgl_segment seg_iova (length vec)) in
        match sgl_loop vec translate dword_align 0 seg with
        | (Ret _, seg') =>
            (Ret tt, (Z.lor fl (NVME_FIELD_SET NVME_CMD_FLAGS_PSDT_SGL_MPTR_CONTIG CMD_FLAGS_PSDT), d', seg'))
        | (Fail e, seg') => (Fail e, (fl, d', seg'))
        | (Crash, seg') => (Crash, (fl, d', seg'))
        end
  end.

Definition nvme_mapv_sgl (mps : Z) (dword_align : bool) (seg : list nvme_sgld) (seg_iova fl : Z)
    (d : nvme_dptr) (vec : list iovec) : outcome unit * (Z * nvme_dptr * list nvme_sgld) :=
  mapv_sgl mps dword_align seg seg_iova fl d vec (iommu_translate_vaddr ctx).

Definition nvme_mapv_iova_sgl (mps : Z) (dword_align : bool) (seg : list nvme_sgld) (seg_iova fl : Z)
    (d : nvme_dptr) (vec : list iova_vec) : outcome unit * (Z * nvme_dptr * list nvme_sgld) :=
  mapv_sgl mps dword_align seg seg_iova fl d ((fun v => mk_iovec (iv_iova v) (iv_len v)) <$> vec) Some.
End Map.

(** ** How a controller reads the entries *)

Section Device.
(** [rd a] is the 64-bit entry at I/O address [a]; a list page has [max]
    entries. *)
Context (rd : Z -> Z) (pagesize : Z) (max : nat).

(** The entries of a list page from [ptr], which may point into the page, to the
    end of the page. *)
Definition entries_left (ptr : Z) : nat := (max - Z.to_nat (ptr mod pagesize / 8))%nat.

(** The [n] data pointers of a PRP list at [ptr]: if they do not fit the rest of
    the page, its last entry points to the next list page. *)
Fixpoint device_list (fuel : nat) (ptr : Z) (n : nat) : list Z :=
  let entry (j : nat) := rd (ptr + 8 * Z.of_nat j) in
  let left := entries_left ptr in
  if (n <=? left)%nat then entry <$> seq 0 n
  else
    match fuel with
    | O => []
    | S fuel' => (entry <$> seq 0 (left - 1)) ++ device_list fuel' (entry (left - 1)%nat) (n - (left - 1))
    end.

(** Full pages, and what is left for the last one. *)
Fixpoint device_chunks (ptrs : list Z) (rest : Z) : list (Z * Z) :=
  match ptrs with
  | [] => []
  | p :: ptrs' => (p, Z.min pagesize rest) :: device_chunks ptrs' (rest - pagesize)
  end.

Definition pages_for (rest : Z) : nat := Z.to_nat ((rest + pagesize - 1) / pagesize).

(** The memory a command with these pointers transfers, in order. *)
Definition device_prps (prp1 prp2 len : Z) : list (Z * Z) :=
  let n1 := Z.min len (pagesize - prp1 mod pagesize) in
  let rest := len - n1 in
  if rest <=? 0 then [(prp1, n1)]
  else
    let k := pages_for rest in
    (prp1, n1) :: device_chunks (if (k =? 1)%nat then [prp2] else device_list k prp2 k) rest.
End Device.

(** List pages at I/O address [base], as a controller reads them. *)
Definition read_lists (lists : list Z) (base a : Z) : Z := default 0 (lists !! Z.to_nat ((a - base) / 8)).

(** Whatever way the controller reads memory, it finds the entries [lists] from
    [base] on. *)
Definition reads (rd : Z -> Z) (lists : list Z) (base : Z) : Prop :=
  forall j x, lists !! j = Some x -> rd (base + 8 * Z.of_nat j) = x.

Lemma read_lists_reads lists base : reads (read_lists lists base) lists base.
Proof.
  intros j x Hj. unfold read_lists. replace (base + 8 * Z.of_nat j - base) with (Z.of_nat j * 8) by lia.
  by rewrite Z.div_mul, Nat2Z.id, Hj by lia.
Qed.

(** The chunks are the bytes from [a] on, in order and without a gap. *)
Fixpoint consecutive (a len : Z) (l : list (Z * Z)) : Prop :=
  match l with
  | [] => len = 0
  | (x, n) :: l' => x = a /\ 0 < n /\ consecutive (a + n) (len - n) l'
  end.

(** ** The cursor's invariant *)

Section Cursor.
Context (shift : Z) (Hshift : 12 <= shift <= 27).
Local Abbreviation ps := (Z.shiftl 1 shift).
Local Abbreviation max := (Z.to_nat (Z.shiftl 1 (shift - 3))).

Lemma ps_pow : ps = 2 ^ shift.
Proof using Hshift. rewrite Z.shiftl_1_l. done. Qed.
Lemma max_pow : Z.of_nat max = 2 ^ (shift - 3).
Proof using Hshift. rewrite Z.shiftl_1_l, Z2Nat.id; [done|]. apply Z.pow_nonneg. lia. Qed.
Lemma ps_max : ps = 8 * Z.of_nat max.
Proof using Hshift.
  rewrite ps_pow, max_pow. change 8 with (2 ^ 3). rewrite <- Z.pow_add_r by lia. f_equal. lia.
Qed.
Lemma max_ge : (512 <= max)%nat.
Proof using Hshift.
  assert (2 ^ 9 <= 2 ^ (shift - 3)) by (apply Z.pow_le_mono_r; lia). pose proof max_pow. lia.
Qed.

Lemma page_index_spec p : page_index shift p = (p * max)%nat.
Proof using Hshift.
  unfold page_index. rewrite Z.shiftl_mul_pow2 by lia. pose proof max_pow. nia.
Qed.

(** [E] are the data entries stored so far: [max - 1] on each finished page,
    whose last slot links to the next page, and [slot] on the current one. *)
Record cursor_ok (c : __prp_cursor) (E : list Z) : Prop := {
  co_length : length (prplists c) = (nprplists c * max)%nat;
  co_page : (page c < nprplists c)%nat;
  co_slot : (slot c <= max)%nat;
  co_count : length E = (page c * (max - 1) + slot c)%nat;
  co_done : forall p j, (p < page c)%nat -> (j < max - 1)%nat ->
    prplists c !! (p * max + j)%nat = E !! (p * (max - 1) + j)%nat;
  co_link : forall p, (p < page c)%nat ->
    prplists c !! (p * max + (max - 1))%nat = Some (u64 (prplist_iova c + Z.of_nat (p + 1) * ps));
  co_here : forall j, (j < slot c)%nat ->
    prplists c !! (page c * max + j)%nat = E !! (page c * (max - 1) + j)%nat
}.

(** More entries may follow. *)
Definition cursor_open (c : __prp_cursor) : Prop :=
  ((slot c <= max - 1)%nat \/ (page c + 1 = nprplists c)%nat) /\ (page c = 0 \/ 1 <= slot c)%nat.
(** The list is complete: a linked page holds at least two entries. *)
Definition cursor_closed (c : __prp_cursor) : Prop := (page c = 0 \/ 2 <= slot c)%nat.

Lemma cursor_init_ok lists iova n :
  length lists = (n * max)%nat -> (1 <= n)%nat -> cursor_ok (__prp_cursor_init lists iova n) [] /\
  cursor_open (__prp_cursor_init lists iova n).
Proof using Hshift.
  intros Hl Hn. pose proof max_ge. split; [split; simpl; try lia; intros; lia|].
  split; simpl; lia.
Qed.

(** One link to a fresh page. *)
Definition linked (c : __prp_cursor) : __prp_cursor :=
  mk_cursor
    (<[(page_index shift (page c) + (max - 1))%nat :=
       u64 (prplist_iova c + Z.shiftl (Z.of_nat (page c + 1)) shift)]> (prplists c))
    (prplist_iova c) (nprplists c) (page c + 1) 0.

Lemma link_ok c E :
  cursor_ok c E -> slot c = (max - 1)%nat -> (page c + 1 < nprplists c)%nat -> cursor_ok (linked c) E.
Proof using Hshift.
  intros [Hl Hp Hs Hc Hd Hk Hh] Es Hn. pose proof max_ge as Hm.
  unfold linked. rewrite page_index_spec, (Z.shiftl_mul_pow2 (Z.of_nat (page c + 1))), <- ps_pow by lia.
  split; simpl; try lia.
  - by rewrite length_insert.
  - intros p j Hpp Hj. destruct (decide (p = page c)) as [->|Hne].
    + rewrite list_lookup_insert_ne by lia. apply Hh. lia.
    + rewrite list_lookup_insert_ne by nia. apply Hd; lia.
  - intros p Hpp. destruct (decide (p = page c)) as [->|Hne].
    + rewrite list_lookup_insert_eq; [done|]. rewrite Hl. nia.
    + rewrite list_lookup_insert_ne by nia. apply Hk. lia.
Qed.

(** One data entry on the current page. *)
Lemma store_ok c E x :
  cursor_ok c E -> (slot c < max)%nat ->
  cursor_ok (mk_cursor (<[(page_index shift (page c) + slot c)%nat := x]> (prplists c))
    (prplist_iova c) (nprplists c) (page c) (slot c + 1)) (E ++ [x]).
Proof using Hshift.
  intros [Hl Hp Hs Hc Hd Hk Hh] Hlt. pose proof max_ge as Hm. rewrite page_index_spec.
  split; simpl; try lia.
  - by rewrite length_insert.
  - rewrite length_app. simpl. lia.
  - intros p j Hpp Hj. rewrite list_lookup_insert_ne, lookup_app_l by nia. by apply Hd.
  - intros p Hpp. rewrite list_lookup_insert_ne by nia. by apply Hk.
  - intros j Hj. destruct (decide (j = slot c)) as [->|Hne].
    + rewrite list_lookup_insert_eq by (rewrite Hl; nia).
      rewrite lookup_app_r, Hc, Nat.sub_diag by lia. done.
    + rewrite list_lookup_insert_ne, lookup_app_l by lia. apply Hh. lia.
Qed.

Lemma put_ok c E x is_last c' :
  cursor_ok c E -> cursor_open c -> __prp_cursor_put x max shift is_last c = (Ret tt, c') ->
  cursor_ok c' (E ++ [u64 x]) /\ (is_last = false -> cursor_open c') /\
  (is_last = true -> cursor_closed c') /\ prplist_iova c' = prplist_iova c.
Proof using Hshift.
  intros Hok [Ho1 Ho2]. pose proof max_ge as Hm. unfold __prp_cursor_put. fold (linked c).
  destruct (_ && _ && _) eqn:Ec.
  - apply andb_true_iff in Ec as [[E1%Nat.eqb_eq E2%Nat.ltb_lt]%andb_true_iff E3%negb_true_iff].
    pose proof (link_ok c E Hok E1 E2) as Hlk.
    destruct (_ || _) eqn:Eo; [done|]. apply orb_false_iff in Eo as [_ Eo%Nat.leb_gt].
    intros [= <-]. split; [exact (store_ok (linked c) E (u64 x) Hlk Eo)|].
    unfold cursor_open, cursor_closed. simpl. split; [lia|]. split; [congruence|done].
  - destruct (_ || _) eqn:Eo; [done|]. apply orb_false_iff in Eo as [_ Eo%Nat.leb_gt].
    intros [= <-]. split; [exact (store_ok c E (u64 x) Hok Eo)|]. unfold cursor_open, cursor_closed. simpl.
    split; [|split; [lia|done]]. intros ->. rewrite andb_true_r in Ec. split; [|lia].
    apply andb_false_iff in Ec as [E1%Nat.eqb_neq|E2%Nat.ltb_ge]; [lia|].
    pose proof (co_page _ _ Hok). right. lia.
Qed.

(** The loops store their entries one after the other. *)
Definition loop_entries (iova i : Z) (todo : nat) : list Z :=
  (fun k : nat => u64 (iova + (i + Z.of_nat k) * ps)) <$> seq 0 todo.

Lemma loop_entries_S iova i todo :
  loop_entries iova i (S todo) = u64 (iova + i * ps) :: loop_entries iova (i + 1) todo.
Proof.
  unfold loop_entries. cbn [seq fmap list_fmap]. f_equal; [do 3 f_equal; lia|].
  rewrite <- fmap_S_seq, <- list_fmap_compose. apply list_fmap_ext. intros k y _. simpl. do 3 f_equal. lia.
Qed.

Lemma u64_u64 x : u64 (u64 x) = u64 x.
Proof. unfold u64. rewrite Z.mod_mod; lia. Qed.

Lemma put_loop_ok todo i prpcount iova last_segment c E c' :
  cursor_ok c E -> cursor_open c -> i + Z.of_nat todo = prpcount ->
  put_loop todo i prpcount iova max shift last_segment c = (Ret tt, c') ->
  cursor_ok c' (E ++ loop_entries iova i todo) /\ prplist_iova c' = prplist_iova c /\
  (last_segment = false \/ todo = O -> cursor_open c') /\
  (last_segment = true -> todo <> O -> cursor_closed c').
Proof using Hshift.
  revert i c E. induction todo as [|todo IH]; intros i c E Hok Ho Hi; cbn [put_loop].
  { intros [= <-]. rewrite app_nil_r. done. }
  unfold bind. destruct (__prp_cursor_put _ _ _ _ c) as [[[]|e|] c1] eqn:Ep; [|done..].
  destruct (put_ok _ _ _ _ _ Hok Ho Ep) as (Hok1 & Ho1 & Hcl1 & Hb1).
  rewrite u64_u64, (Z.shiftl_mul_pow2 i), <- ps_pow in Hok1 by lia. intros Hrun.
  rewrite loop_entries_S, (cons_middle _ E), app_assoc.
  destruct (decide (todo = 0%nat)) as [->|Hne].
  - cbn [put_loop] in Hrun. injection Hrun as <-. rewrite app_nil_r. split; [done|]. split; [done|].
    assert ((i =? prpcount - 1) = true) as Ei by (apply Z.eqb_eq; lia). rewrite Ei, andb_true_r in *.
    split; [intros [->|?]; [by apply Ho1|done]|]. intros -> _. by apply Hcl1.
  - assert ((i =? prpcount - 1) = false) as Ei by (apply Z.eqb_neq; lia). rewrite Ei, andb_false_r in *.
    destruct (IH (i + 1) _ _ Hok1 (Ho1 eq_refl) ltac:(lia) Hrun) as (Hok' & Hb' & Ho' & Hcl').
    split; [done|]. split; [congruence|]. split; [intros [->|?]; [by apply Ho'; left|done]|].
    intros -> _. by apply Hcl'.
Qed.

Lemma put_loop_pages todo i prpcount iova last_segment mx c c' :
  put_loop todo i prpcount iova mx shift last_segment c = (Ret tt, c') -> nprplists c' = nprplists c.
Proof.
  revert i c. induction todo as [|todo IH]; intros i c; cbn [put_loop]; [by intros [= <-]|].
  unfold bind, __prp_cursor_put. destruct (_ && _ && _); destruct (_ || _); try done;
    intros E; apply IH in E; exact E.
Qed.

(** A complete list is what a controller reads. *)
Lemma device_list_page rd c E p fuel :
  reads rd (prplists c) (prplist_iova c) ->
  cursor_ok c E -> cursor_closed c -> (p <= page c)%nat -> (page c - p <= fuel)%nat ->
  prplist_iova c + Z.of_nat (nprplists c) * ps <= 0x10000000000000000 -> 0 <= prplist_iova c -> prplist_iova c mod ps = 0 ->
  device_list rd ps max fuel (prplist_iova c + Z.of_nat p * ps) (length E - p * (max - 1)) = drop (p * (max - 1)) E.
Proof using Hshift.
  intros Hreads Hok Hcl. revert p. pose proof max_ge as Hm. pose proof ps_max as Hps.
  assert (forall p j x, prplists c !! (p * max + j)%nat = Some x ->
    rd (prplist_iova c + Z.of_nat p * ps + 8 * Z.of_nat j) = x) as Hrd.
  { intros p j x Hx. rewrite <- (Hreads _ _ Hx), Hps. f_equal. lia. }
  assert (forall p k, (forall j, (j < k)%nat ->
      prplists c !! (p * max + j)%nat = E !! (p * (max - 1) + j)%nat) ->
    (p * (max - 1) + k <= length E)%nat ->
    (fun j : nat => rd (prplist_iova c + Z.of_nat p * ps + 8 * Z.of_nat j))
      <$> seq 0 k = take k (drop (p * (max - 1)) E)) as Hpage.
  { intros p k Hk Hle. apply list_eq. intros j. rewrite list_lookup_fmap.
    destruct (decide (j < k)%nat).
    - rewrite lookup_seq_lt, lookup_take_lt, lookup_drop by done. simpl. specialize (Hk j ltac:(done)).
      destruct (E !! _) eqn:El; [by rewrite (Hrd _ _ _ Hk)|]. apply lookup_ge_None in El. lia.
    - rewrite lookup_seq_ge, lookup_take_ge by lia. done. }
  destruct Hok as [Hl Hp Hs Hc Hd Hk Hh].
  assert (prplist_iova c mod ps = 0 -> forall p, entries_left ps max (prplist_iova c + Z.of_nat p * ps) = max) as Hleft.
  { intros Hal p. unfold entries_left. rewrite Z.mod_add, Hal by lia. apply Nat.sub_0_r. }
  induction fuel as [|fuel IH]; intros p Hpp Hf Hmax H0 Hal; cbn [device_list]; rewrite (Hleft Hal).
  - assert (p = page c) as -> by lia.
    rewrite (proj2 (Nat.leb_le _ _)) by lia. rewrite Hpage; [|intros j Hj; apply Hh; lia|lia].
    rewrite take_ge; [done|]. rewrite length_drop. lia.
  - destruct (decide (p = page c)) as [->|Hne].
    + rewrite (proj2 (Nat.leb_le _ _)) by lia. rewrite Hpage; [|intros j Hj; apply Hh; lia|lia].
      rewrite take_ge; [done|]. rewrite length_drop. lia.
    + unfold cursor_closed in Hcl. rewrite (proj2 (Nat.leb_gt _ _)) by nia.
      rewrite Hpage; [|intros j Hj; apply Hd; lia|nia]. rewrite (Hrd _ _ _ (Hk p ltac:(lia))).
      rewrite u64_small by nia.
      replace (length E - p * (max - 1) - (max - 1))%nat with (length E - (p + 1) * (max - 1))%nat by lia.
      rewrite IH by (done || lia). rewrite <- (take_drop (max - 1) (drop (p * (max - 1)) E)) at 2.
      rewrite drop_drop. do 2 f_equal. lia.
Qed.

(** ** Mapping one buffer *)

Lemma ps_pos : 4096 <= ps.
Proof using Hshift.
  rewrite ps_pow. change 4096 with (2 ^ 12). apply Z.pow_le_mono_r; lia.
Qed.
Lemma ps_max_size : ps <= 134217728.
Proof using Hshift.
  rewrite ps_pow. change 134217728 with (2 ^ 27). apply Z.pow_le_mono_r; lia.
Qed.
Lemma ps_is_pow2 : pow2 ps.
Proof using Hshift. exists shift. split; [lia|apply ps_pow]. Qed.

Lemma land_ps x : Z.land x (ps - 1) = x mod ps.
Proof using Hshift.
  rewrite ps_pow, <- Z.land_ones by lia. f_equal. rewrite Z.ones_equiv. lia.
Qed.

Lemma shiftr_ps q : Z.shiftr (q * ps) shift = q.
Proof using Hshift.
  rewrite ps_pow, <- Z.shiftl_mul_pow2, Z.shiftr_shiftl_l, Z.sub_diag by lia. apply Z.shiftl_0_r.
Qed.

Lemma pages_for_pos rest : 0 < rest -> (1 <= pages_for ps rest)%nat.
Proof using Hshift.
  intros H. pose proof ps_pos. unfold pages_for.
  assert (1 <= (rest + ps - 1) / ps) by (apply Z.div_le_lower_bound; lia). lia.
Qed.

Lemma pages_for_next rest : ps < rest -> pages_for ps rest = S (pages_for ps (rest - ps)).
Proof using Hshift.
  intros H. pose proof ps_pos. unfold pages_for.
  replace (rest + ps - 1) with ((rest - ps + ps - 1) + 1 * ps) by lia.
  rewrite Z.div_add by lia. rewrite Z2Nat.inj_add by (try apply Z.div_pos; lia). simpl. lia.
Qed.

Lemma pages_for_one rest : 0 < rest <= ps -> pages_for ps rest = 1%nat.
Proof using Hshift.
  intros H. pose proof ps_pos. unfold pages_for.
  replace ((rest + ps - 1) / ps) with 1; [done|].
  apply Z.div_unique with (rest - 1); lia.
Qed.

(** The pages after the first are the rest of the buffer. *)
Lemma chunks_consecutive base i k rest :
  0 < rest -> k = pages_for ps rest -> 0 <= base -> 0 <= i ->
  base + i * ps + rest <= 0x10000000000000000 ->
  consecutive (base + i * ps) rest (device_chunks ps (loop_entries base i k) rest).
Proof using Hshift.
  pose proof ps_pos as Hps. revert i rest. induction k as [|k IH]; intros i rest Hr Hk Hb Hi Hmax.
  { pose proof (pages_for_pos rest Hr). lia. }
  rewrite loop_entries_S. cbn [device_chunks consecutive]. rewrite u64_small by nia.
  split; [done|]. split; [lia|]. destruct (decide (rest <= ps)).
  - rewrite pages_for_one in Hk by lia. assert (k = 0%nat) as -> by lia.
    cbn [loop_entries seq fmap list_fmap device_chunks consecutive]. lia.
  - rewrite pages_for_next in Hk by lia. rewrite Z.min_l by lia.
    replace (base + i * ps + ps) with (base + (i + 1) * ps) by lia. apply IH; lia.
Qed.

(** The count of entries, truncation to [int] included, for buffers below 2 GiB. *)
Lemma prpcount_spec rest :
  0 <= rest < 0x70000000 ->
  (if rest =? 0 then 1 else s32 (1 + Z.shiftr (s32 (ALIGN_UP rest ps)) shift)) =
    1 + Z.of_nat (pages_for ps rest).
Proof using Hshift.
  intros Hr. pose proof ps_pos as Hps. pose proof ps_max_size as Hpm.
  destruct (Z.eqb_spec rest 0) as [E0|Hne].
  - rewrite E0. unfold pages_for. rewrite Z.div_small by lia. done.
  - rewrite ALIGN_UP_spec by (try apply ps_is_pow2; lia).
    pose proof (Z.div_mod (rest + ps - 1) ps) as Hdm. pose proof (Z.mod_pos_bound (rest + ps - 1) ps) as Hmb.
    rewrite (s32_small (_ - _)) by lia.
    replace (rest + ps - 1 - (rest + ps - 1) mod ps) with ((rest + ps - 1) / ps * ps) by lia.
    rewrite shiftr_ps. unfold pages_for. assert (0 <= (rest + ps - 1) / ps) by (apply Z.div_pos; lia).
    assert ((rest + ps - 1) / ps <= rest + ps - 1) by (apply Z.div_le_upper_bound; nia).
    rewrite Z2Nat.id by done. apply s32_small. lia.
Qed.

(** [__map_prp_first]: the count and the entries. *)
Lemma map_first_spec c iova len last n c' :
  cursor_ok c [] -> cursor_open c -> 0 <= iova -> 0 < len -> iova + len <= 0x10000000000000000 ->
  len < 0x70000000 -> __map_prp_first iova len shift last c = (Ret n, c') ->
  let rest := len - Z.min len (ps - iova mod ps) in
  let k := pages_for ps rest in
  n = 1 + Z.of_nat k /\ cursor_ok c' (loop_entries (iova - iova mod ps) 1 k) /\
  prplist_iova c' = prplist_iova c /\ nprplists c' = nprplists c /\
  (last = false \/ k = O -> cursor_open c') /\ (last = true -> k <> O -> cursor_closed c').
Proof using Hshift.
  intros Hok Ho Hi Hl Hmax Hsmall Hrun rest k. unfold __map_prp_first in Hrun. pose proof ps_pos as Hps. pose proof ps_max_size as Hpm.
  pose proof (Z.mod_pos_bound iova ps) as Hmod.
  rewrite land_ps, (u64_small (ps - iova mod ps)) in Hrun by lia. fold rest in Hrun.
  assert (rest = 0 \/ (0 < rest < len /\ iova mod ps + len = ps + rest)) as Hrest by lia.
  rewrite (u64_small rest) in Hrun by lia. clearbody rest.
  pose proof (prpcount_spec rest ltac:(lia)) as Hn. fold k in Hn.
  rewrite Hn in Hrun. clear Hn. unfold bind at 1, get in Hrun. destruct (_ <? _); [done|].
  replace (if (1 <? 1 + Z.of_nat k) && negb (ALIGNED iova ps) then ALIGN_DOWN iova ps else iova) with
    (if (1 <? 1 + Z.of_nat k) then iova - iova mod ps else iova) in Hrun.
  2: { rewrite ALIGNED_spec, ALIGN_DOWN_spec by (try apply ps_is_pow2; lia).
       destruct (1 <? _); [|done]. destruct (Z.eqb_spec (iova mod ps) 0) as [->|]; simpl; lia. }
  replace (Z.to_nat (1 + Z.of_nat k - 1)) with k in Hrun by lia.
  unfold bind in Hrun. destruct (put_loop _ _ _ _ _ _ _ c) as [[[]|e|] c1] eqn:Ep; [|done..].
  injection Hrun as <- <-. split; [done|].
  pose proof (put_loop_pages _ _ _ _ _ _ _ _ Ep) as Hnp.
  destruct (decide (k = 0%nat)) as [Hk0|Hk0].
  - rewrite Hk0 in *. cbn [put_loop] in Ep. injection Ep as <-. done.
  - rewrite (proj2 (Z.ltb_lt _ _)) in Ep by lia.
    destruct (put_loop_ok k 1 (1 + Z.of_nat k) _ last c [] c1 Hok Ho eq_refl Ep) as (Hok' & Hb & Ho' & Hcl').
    done.
Qed.

(** ** Capacity *)

Lemma put_succeeds c E x is_last :
  cursor_ok c E -> cursor_open c ->
  Z.of_nat (length E) < __prplist_capacity (Z.of_nat (nprplists c)) (Z.of_nat max) ->
  exists c', __prp_cursor_put x max shift is_last c = (Ret tt, c').
Proof using Hshift.
  intros [Hl Hp Hs Hc _ _ _] [Ho _] Hcap. pose proof max_ge as Hm. unfold __prp_cursor_put, __prplist_capacity in *.
  destruct (_ && _ && _) eqn:Ec; simpl.
  - apply andb_true_iff in Ec as [[_ E2%Nat.ltb_lt]%andb_true_iff _].
    rewrite (proj2 (orb_false_iff _ _)); [by eexists|]. rewrite !Nat.leb_gt. lia.
  - rewrite (proj2 (orb_false_iff _ _)); [by eexists|]. rewrite !Nat.leb_gt. split; [done|].
    destruct Ho as [?|Hn]; [lia|]. nia.
Qed.

Lemma put_loop_succeeds todo i prpcount iova last_segment c E :
  cursor_ok c E -> cursor_open c -> i + Z.of_nat todo = prpcount ->
  Z.of_nat (length E + todo) <= __prplist_capacity (Z.of_nat (nprplists c)) (Z.of_nat max) ->
  exists c', put_loop todo i prpcount iova max shift last_segment c = (Ret tt, c').
Proof using Hshift.
  revert i c E. induction todo as [|todo IH]; intros i c E Hok Ho Hi Hcap; cbn [put_loop]; [by eexists|].
  unfold bind. destruct (put_succeeds c E (u64 (iova + Z.shiftl i shift))
    (last_segment && (i =? prpcount - 1)) Hok Ho ltac:(lia)) as (c1 & Ep).
  rewrite Ep. destruct (put_ok _ _ _ _ _ Hok Ho Ep) as (Hok1 & Ho1 & _ & _).
  assert (nprplists c1 = nprplists c) as Hnp.
  { apply (put_loop_pages 1 i prpcount iova last_segment max c c1). cbn [put_loop]. unfold bind. by rewrite Ep. }
  destruct (decide (todo = 0%nat)) as [->|Hne]; [by eexists|].
  assert ((i =? prpcount - 1) = false) as Ei by (apply Z.eqb_neq; lia). rewrite Ei, andb_false_r in *.
  apply (IH _ _ _ Hok1 (Ho1 eq_refl)); [lia|]. rewrite Hnp, length_app. simpl. lia.
Qed.

(** Whether the first segment fits is the capacity check. *)
Lemma map_first_result c iova len last :
  cursor_ok c [] -> cursor_open c -> 0 <= iova -> 0 < len -> len < 0x70000000 ->
  let rest := len - Z.min len (ps - iova mod ps) in
  let cap := __prplist_capacity (Z.of_nat (nprplists c)) (Z.shiftl 1 (shift - 3)) in
  if Z.of_nat (pages_for ps rest) <=? cap
  then exists c', __map_prp_first iova len shift last c = (Ret (1 + Z.of_nat (pages_for ps rest)), c')
  else __map_prp_first iova len shift last c = (Fail EINVAL, c).
Proof using Hshift.
  intros Hok Ho Hi Hl Hsmall rest cap. unfold __map_prp_first. pose proof ps_pos as Hps. pose proof ps_max_size as Hpm.
  pose proof (Z.mod_pos_bound iova ps) as Hmod.
  rewrite land_ps, (u64_small (ps - iova mod ps)) by lia. fold rest.
  assert (0 <= rest < len) as Hrest by lia. rewrite (u64_small rest) by lia. clearbody rest.
  assert ((if rest =? 0 then 1 else s32 (1 + Z.shiftr (s32 (ALIGN_UP rest ps)) shift)) =
    1 + Z.of_nat (pages_for ps rest)) as ->.
  { by apply prpcount_spec; lia. }
  unfold bind at 1 3, get. fold cap.
  destruct (Z.leb_spec (Z.of_nat (pages_for ps rest)) cap).
  - rewrite (proj2 (Z.ltb_ge _ _)) by lia.
    replace (Z.to_nat (1 + Z.of_nat (pages_for ps rest) - 1)) with (pages_for ps rest) by lia.
    edestruct (put_loop_succeeds (pages_for ps rest) 1 (1 + Z.of_nat (pages_for ps rest))) as (c' & E);
      [exact Hok|exact Ho|lia| |unfold bind; rewrite E; by eexists].
    simpl. rewrite Z2Nat.id by (rewrite Z.shiftl_1_l; apply Z.pow_nonneg; lia). exact H.
  - by rewrite (proj2 (Z.ltb_lt _ _)) by lia.
Qed.

(** ** What the controller transfers *)

Lemma chunks_app E1 E2 rest :
  0 < rest -> device_chunks ps (E1 ++ E2) (Z.of_nat (length E1) * ps + rest) =
    device_chunks ps E1 (Z.of_nat (length E1) * ps) ++ device_chunks ps E2 rest.
Proof using Hshift.
  pose proof ps_pos as Hps. intros Hr. induction E1 as [|x E1 IH]; [done|].
  cbn [app device_chunks length]. rewrite Nat2Z.inj_succ, !Z.min_l by nia. f_equal.
  replace (Z.succ (Z.of_nat (length E1)) * ps + rest - ps) with (Z.of_nat (length E1) * ps + rest) by lia.
  replace (Z.succ (Z.of_nat (length E1)) * ps - ps) with (Z.of_nat (length E1) * ps) by lia. exact IH.
Qed.

(** The pointers PRP2 stands for are the entries of the list. *)
Lemma prp2_entries rd c E prpcount :
  reads rd (prplists c) (prplist_iova c) ->
  cursor_ok c E -> cursor_closed c -> length E <> O -> prpcount = 1 + Z.of_nat (length E) ->
  prplist_iova c + Z.of_nat (nprplists c) * ps <= 0x10000000000000000 -> 0 <= prplist_iova c -> prplist_iova c mod ps = 0 ->
  let prp2 := __set_prp2 (prplist_iova c) (prplists c) prpcount in
  (if (length E =? 1)%nat then [prp2]
   else device_list rd ps max (length E) prp2 (length E)) = E.
Proof using Hshift.
  intros Hrd Hok Hcl Hne -> Hmax H0 Hal. unfold __set_prp2. pose proof max_ge as Hm. cbv zeta.
  destruct (Nat.eqb_spec (length E) 1) as [E1|E1].
  - rewrite E1. simpl. destruct Hok as [Hl Hp Hs Hc Hd Hk Hh].
    assert (page c = 0%nat /\ slot c = 1%nat) as [Ep Es] by (unfold cursor_closed in Hcl; nia).
    specialize (Hh 0%nat). rewrite Ep, Es in Hh. simpl in Hh.
    destruct E as [|x [|]]; try done. rewrite head_lookup, (Hh ltac:(lia)). done.
  - rewrite (proj2 (Z.eqb_neq _ _)), (proj2 (Z.ltb_lt _ _)) by lia.
    pose proof (device_list_page rd c E 0 (length E) Hrd Hok Hcl) as Hd. simpl in Hd.
    rewrite Z.add_0_r, (Nat.sub_0_r (length E)), drop_0 in Hd. apply Hd; [lia| |done..].
    destruct Hok as [_ _ _ Hc _ _ _]. nia.
Qed.

(** A complete list for a buffer whose first page [prp1] covers. *)
Lemma device_reads rd c E prp1 len prpcount :
  reads rd (prplists c) (prplist_iova c) ->
  cursor_ok c E -> cursor_closed c ->
  let n1 := Z.min len (ps - prp1 mod ps) in
  let rest := len - n1 in
  0 < rest -> length E = pages_for ps rest -> prpcount = 1 + Z.of_nat (length E) ->
  prplist_iova c + Z.of_nat (nprplists c) * ps <= 0x10000000000000000 -> 0 <= prplist_iova c -> prplist_iova c mod ps = 0 ->
  device_prps rd ps max prp1
    (__set_prp2 (prplist_iova c) (prplists c) prpcount) len = (prp1, n1) :: device_chunks ps E rest.
Proof using Hshift.
  intros Hrd Hok Hcl n1 rest Hr Hlen Hn Hmax H0 Hal. unfold device_prps. fold n1 rest.
  rewrite (proj2 (Z.leb_gt _ _)) by lia. rewrite <- Hlen. f_equal. f_equal.
  apply prp2_entries; try done. pose proof (pages_for_pos rest Hr). lia.
Qed.
(** ** Mapping a vector *)

(** The shape a vector's entries after the first must have: page aligned, of
    whole pages, the last one of whole pages or of at most one. *)
Fixpoint tail_shape (vec : list iovec) : Prop :=
  match vec with
  | [] => True
  | v :: vec' =>
      0 <= iov_base v /\ 0 < iov_len v < 0x70000000 /\ iov_base v + iov_len v <= 0x10000000000000000 /\
      iov_base v mod ps = 0 /\ (iov_len v mod ps = 0 \/ (vec' = [] /\ iov_len v <= ps)) /\ tail_shape vec'
  end.

Definition tail_entries (vec : list iovec) : list Z :=
  concat ((fun v => loop_entries (iov_base v) 0 (pages_for ps (iov_len v))) <$> vec).

Definition total (vec : list iovec) : Z := foldr (fun v n => iov_len v + n) 0 vec.

Lemma loop_entries_length a i k : length (loop_entries a i k) = k.
Proof. unfold loop_entries. by rewrite length_fmap, length_seq. Qed.

Lemma append_count len :
  0 < len < 0x70000000 -> len mod ps = 0 \/ len <= ps ->
  Z.max 1 (Z.shiftr (s32 len) shift) = Z.of_nat (pages_for ps len).
Proof using Hshift.
  intros Hl Hs. pose proof ps_pos as Hps. rewrite s32_small by lia.
  pose proof (Z.div_mod len ps ltac:(lia)) as Hdm.
  destruct (decide (len <= ps)).
  - rewrite pages_for_one by lia. rewrite Z.shiftr_div_pow2, <- ps_pow by lia.
    assert (len / ps <= 1); [|lia]. apply Z.div_le_upper_bound; lia.
  - destruct Hs as [Hs|?]; [|lia]. rewrite Hs, Z.add_0_r in Hdm. set (q := len / ps) in *.
    rewrite Hdm, Z.mul_comm, shiftr_ps. unfold pages_for.
    replace (q * ps + ps - 1) with (ps - 1 + q * ps) by lia.
    rewrite Z.div_add, Z.div_small, Z2Nat.id by nia. nia.
Qed.

Lemma append_loop_ok vec c E :
  tail_shape vec -> cursor_ok c E -> cursor_open c ->
  Z.of_nat (length (E ++ tail_entries vec)) <= __prplist_capacity (Z.of_nat (nprplists c)) (Z.of_nat max) ->
  exists c', append_loop vec Some shift c = (Ret (Z.of_nat (length (tail_entries vec))), c') /\
    cursor_ok c' (E ++ tail_entries vec) /\ prplist_iova c' = prplist_iova c /\
    nprplists c' = nprplists c /\ (vec <> [] -> cursor_closed c').
Proof using Hshift.
  pose proof ps_pos as Hps. revert c E. induction vec as [|v vec IH]; intros c E Hsh Hok Ho Hcap.
  { exists c. unfold tail_entries. simpl. by rewrite app_nil_r. }
  destruct Hsh as (H0 & Hl & Hmax & Ha & Hm & Hsh). cbn [append_loop].
  assert (tail_entries (v :: vec) = loop_entries (iov_base v) 0 (pages_for ps (iov_len v)) ++ tail_entries vec)
    as Ht by done. rewrite Ht, app_assoc in *.
  pose proof (pages_for_pos (iov_len v) ltac:(lia)) as Hpp.
  assert (negb match vec with [] => true | _ => false end && negb (ALIGNED (iov_len v) ps) = false) as ->.
  { rewrite ALIGNED_spec by (try apply ps_is_pow2; lia). destruct Hm as [->|[-> _]]; [by rewrite andb_false_r|done]. }
  set (last := match vec with [] => true | _ => false end).
  unfold __map_prp_append. rewrite ALIGNED_spec, Ha, append_count by (try apply ps_is_pow2; try lia; tauto). simpl negb. cbn iota.
  rewrite Nat2Z.id.
  destruct (put_loop_succeeds (pages_for ps (iov_len v)) 0 (Z.of_nat (pages_for ps (iov_len v))) (iov_base v)
    last c E Hok Ho) as (c1 & E1); [lia| |].
  { rewrite !length_app, loop_entries_length in Hcap. lia. }
  destruct (put_loop_ok (pages_for ps (iov_len v)) 0 (Z.of_nat (pages_for ps (iov_len v))) (iov_base v) last
    c E c1 Hok Ho ltac:(lia) E1) as (Hok1 & Hb1 & Ho1 & Hc1).
  pose proof (put_loop_pages _ _ _ _ _ _ _ _ E1) as Hn1.
  unfold bind at 1. unfold bind at 1. rewrite E1. simpl.
  destruct vec as [|v' vec'].
  - exists c1. change (tail_entries []) with (@nil Z). cbn [append_loop]. unfold bind, ret.
    rewrite !app_nil_r, loop_entries_length, Z.add_0_r. split; [done|].
    split; [done|]. split; [done|]. split; [done|]. intros _. apply Hc1; [done|lia].
  - destruct (IH c1 _ Hsh Hok1 (Ho1 (or_introl eq_refl))) as (c' & Er & Hok' & Hb' & Hn' & Hc').
    { by rewrite Hn1. }
    exists c'. unfold bind. rewrite Er. rewrite length_app, loop_entries_length, Nat2Z.inj_add.
    split; [done|]. split; [done|]. split; [congruence|]. split; [congruence|]. intros _. by apply Hc'.
Qed.

Lemma total_pos vec : tail_shape vec -> vec <> [] -> 0 < total vec.
Proof.
  induction vec as [|v vec IH]; [done|]. intros (? & ? & ? & ? & ? & Hsh) _. simpl.
  destruct vec as [|v' vec']; [simpl; lia|]. specialize (IH Hsh ltac:(done)). lia.
Qed.

(** The parts of a transfer that belong to each segment. *)
Definition describes (segs : list iovec) (chunks : list (Z * Z)) : Prop :=
  exists parts, chunks = concat parts /\
    Forall2 (fun v cs => consecutive (iov_base v) (iov_len v) cs) segs parts.

Lemma pages_for_whole len : 0 < len -> len mod ps = 0 -> Z.of_nat (pages_for ps len) * ps = len.
Proof using Hshift.
  intros Hl Hm. pose proof ps_pos as Hps. pose proof (Z.div_mod len ps ltac:(lia)) as Hdm.
  rewrite Hm, Z.add_0_r in Hdm. set (q := len / ps) in *. unfold pages_for.
  replace (len + ps - 1) with (ps - 1 + q * ps) by lia. rewrite Z.div_add, Z.div_small, Z2Nat.id by nia. lia.
Qed.

Lemma pages_for_add k rest : 0 < rest -> pages_for ps (Z.of_nat k * ps + rest) = (k + pages_for ps rest)%nat.
Proof using Hshift.
  intros Hr. pose proof ps_pos as Hps. unfold pages_for.
  replace (Z.of_nat k * ps + rest + ps - 1) with (rest + ps - 1 + Z.of_nat k * ps) by lia.
  rewrite Z.div_add, Z2Nat.inj_add by (try apply Z.div_pos; lia). lia.
Qed.

Lemma tail_describes vec :
  tail_shape vec -> describes vec (device_chunks ps (tail_entries vec) (total vec)) /\
  (vec <> [] -> length (tail_entries vec) = pages_for ps (total vec)).
Proof using Hshift.
  pose proof ps_pos as Hps. induction vec as [|v vec IH].
  { intros _. split; [|done]. exists []. split; [done|constructor]. }
  intros (H0 & Hl & Hmax & Ha & Hm & Hsh). cbn [total foldr]. fold (total vec).
  set (k := pages_for ps (iov_len v)).
  change (tail_entries (v :: vec)) with (loop_entries (iov_base v) 0 k ++ tail_entries vec).
  pose proof (chunks_consecutive (iov_base v) 0 k (iov_len v) ltac:(lia) eq_refl H0 ltac:(lia) ltac:(lia)) as Hc.
  rewrite Z.mul_0_l, Z.add_0_r in Hc. destruct (IH Hsh) as [(parts & Hcs & Hp) Hlen]. clear IH.
  rewrite length_app, loop_entries_length.
  destruct (decide (vec = [])) as [E|Hne].
  - subst vec. apply Forall2_nil_inv_l in Hp as ->. simpl in *. rewrite app_nil_r, Z.add_0_r, Nat.add_0_r.
    split; [|done]. exists [device_chunks ps (loop_entries (iov_base v) 0 k) (iov_len v)].
    simpl. rewrite app_nil_r. split; [done|]. constructor; [done|constructor].
  - destruct Hm as [Hm|[? _]]; [|done]. pose proof (total_pos vec Hsh Hne) as Ht.
    pose proof (pages_for_whole (iov_len v) ltac:(lia) Hm) as Hw. fold k in Hw.
    pose proof (chunks_app (loop_entries (iov_base v) 0 k) (tail_entries vec) (total vec) Ht) as Hca.
    rewrite loop_entries_length, Hw, Hcs in Hca. rewrite Hca. split.
    + exists (device_chunks ps (loop_entries (iov_base v) 0 k) (iov_len v) :: parts).
      split; [done|]. by constructor.
    + intros _. rewrite Hlen, <- Hw by done. by rewrite pages_for_add.
Qed.

Lemma describes_cons v vec cs chunks :
  consecutive (iov_base v) (iov_len v) cs -> describes vec chunks -> describes (v :: vec) (cs ++ chunks).
Proof.
  intros Hc (parts & -> & Hp). exists (cs :: parts). split; [done|]. by constructor.
Qed.

(** The shape of a whole vector: unless it is alone, the first entry ends on a
    page boundary. *)
Definition vec_shape (v : iovec) (vec : list iovec) : Prop :=
  0 <= iov_base v /\ 0 < iov_len v < 0x70000000 /\ iov_base v + iov_len v <= 0x10000000000000000 /\
  (vec = [] \/ (iov_base v + iov_len v) mod ps = 0) /\ tail_shape vec.

(** What is left of a buffer after its first page. *)
Definition after_first (iova len : Z) : Z := len - Z.min len (ps - iova mod ps).

Lemma first_ends_page iova len :
  0 <= iova -> 0 < len -> (iova + len) mod ps = 0 ->
  Z.min len (ps - iova mod ps) = ps - iova mod ps /\
  Z.of_nat (pages_for ps (after_first iova len)) * ps = after_first iova len.
Proof using Hshift.
  intros Hi Hl Hm. pose proof ps_pos as Hps. pose proof (Z.mod_pos_bound iova ps ltac:(lia)) as Hmb.
  pose proof (Z.div_mod iova ps ltac:(lia)) as H1. pose proof (Z.div_mod (iova + len) ps ltac:(lia)) as H2.
  rewrite Hm in H2. set (q1 := iova / ps) in *. set (q2 := (iova + len) / ps) in *.
  assert (q1 < q2) by nia. assert (ps - iova mod ps <= len) by nia.
  unfold after_first. rewrite Z.min_r by lia. split; [done|].
  assert (len - (ps - iova mod ps) = (q2 - q1 - 1) * ps) as -> by lia.
  unfold pages_for. replace ((q2 - q1 - 1) * ps + ps - 1) with (ps - 1 + (q2 - q1 - 1) * ps) by lia.
  rewrite Z.div_add, Z.div_small, Z2Nat.id by lia. lia.
Qed.

(** All the entries of a vector, besides the one in PRP1. *)
Definition vec_entries (v : iovec) (vec : list iovec) : list Z :=
  loop_entries (iov_base v - iov_base v mod ps) 1 (pages_for ps (after_first (iov_base v) (iov_len v))) ++
  tail_entries vec.

Lemma pages_for_nonpos rest : rest <= 0 -> pages_for ps rest = O.
Proof using Hshift.
  intros H. pose proof ps_pos. unfold pages_for.
  assert ((rest + ps - 1) / ps < 1) by (apply Z.div_lt_upper_bound; lia). lia.
Qed.

Lemma first_describes v rest :
  0 <= iov_base v -> 0 < iov_len v -> iov_base v + iov_len v <= 0x10000000000000000 ->
  rest = after_first (iov_base v) (iov_len v) ->
  consecutive (iov_base v) (iov_len v)
    ((iov_base v, iov_len v - rest) ::
     device_chunks ps (loop_entries (iov_base v - iov_base v mod ps) 1 (pages_for ps rest)) rest).
Proof using Hshift.
  intros Hi Hl Hmax Er. pose proof ps_pos as Hps. pose proof (Z.mod_pos_bound (iov_base v) ps ltac:(lia)) as Hmb.
  pose proof (Z.mod_le (iov_base v) ps Hi ltac:(lia)) as Hml. unfold after_first in Er.
  cbn [consecutive]. split; [done|]. split; [lia|].
  replace (iov_len v - (iov_len v - rest)) with rest by lia. destruct (decide (rest = 0)) as [E0|E0].
  - by rewrite E0, (pages_for_nonpos 0).
  - replace (iov_base v + (iov_len v - rest)) with (iov_base v - iov_base v mod ps + 1 * ps) by lia.
    apply chunks_consecutive; [lia|done|lia..].
Qed.

(** How long the transfer is, and what it consists of. *)
Lemma vec_describes v vec :
  vec_shape v vec ->
  let len := iov_len v + total vec in
  let rest := after_first (iov_base v) len in
  length (vec_entries v vec) = pages_for ps rest /\
  describes (v :: vec) ((iov_base v, len - rest) :: device_chunks ps (vec_entries v vec) rest).
Proof using Hshift.
  intros (Hi & Hl & Hmax & Hend & Htail). cbv zeta. unfold vec_entries. rewrite length_app, loop_entries_length.
  pose proof (first_describes v _ Hi ltac:(lia) Hmax eq_refl) as Hf.
  destruct (tail_describes vec Htail) as [Hd Hn]. destruct (decide (vec = [])) as [->|Hne].
  - change (tail_entries []) with (@nil Z). simpl. rewrite Z.add_0_r, Nat.add_0_r, app_nil_r. split; [done|].
    match goal with |- describes _ ?l => rewrite <- (app_nil_r l) end.
    apply describes_cons; [exact Hf|exact Hd].
  - destruct Hend as [?|Hend]; [done|]. pose proof (total_pos vec Htail Hne) as Ht.
    destruct (first_ends_page (iov_base v) (iov_len v) Hi ltac:(lia) Hend) as [Hmin Hw]. rewrite Hn by done.
    assert (after_first (iov_base v) (iov_len v + total vec) = after_first (iov_base v) (iov_len v) + total vec) as ->
      by (unfold after_first in *; lia).
    set (r := after_first (iov_base v) (iov_len v)) in *.
    split; [rewrite <- Hw at 2; by rewrite pages_for_add|].
    pose proof (chunks_app (loop_entries (iov_base v - iov_base v mod ps) 1 (pages_for ps r))
      (tail_entries vec) (total vec) Ht) as Hca.
    rewrite loop_entries_length, Hw in Hca. rewrite Hca, app_comm_cons. apply describes_cons; [|done].
    replace (iov_len v + total vec - (r + total vec)) with (iov_len v - r) by lia. done.
Qed.

(** The common part of the vector functions. *)
Lemma mapv_segments_ok v vec c :
  vec_shape v vec -> cursor_ok c [] -> cursor_open c ->
  Z.of_nat (length (vec_entries v vec)) <= __prplist_capacity (Z.of_nat (nprplists c)) (Z.of_nat max) ->
  exists c', mapv_segments (iov_base v) (iov_len v) vec Some shift c =
      (Ret (1 + Z.of_nat (length (vec_entries v vec))), c') /\
    cursor_ok c' (vec_entries v vec) /\ prplist_iova c' = prplist_iova c /\ nprplists c' = nprplists c /\
    (length (vec_entries v vec) <> O -> cursor_closed c').
Proof using Hshift.
  intros (Hi & Hl & Hmax & Hend & Htail) Hok Ho Hcap. unfold mapv_segments.
  set (single := match vec with [] => true | _ => false end).
  pose proof (map_first_result c (iov_base v) (iov_len v) single Hok Ho Hi ltac:(lia) ltac:(lia)) as Hr.
  cbv zeta in Hr. fold (after_first (iov_base v) (iov_len v)) in Hr.
  set (k := pages_for ps (after_first (iov_base v) (iov_len v))) in *.
  assert (length (vec_entries v vec) = (k + length (tail_entries vec))%nat) as Hle
    by (unfold vec_entries; by rewrite length_app, loop_entries_length).
  rewrite (proj2 (Z.leb_le _ _)) in Hr by (rewrite max_pow in Hcap; rewrite Z.shiftl_1_l; lia).
  destruct Hr as (c1 & E1).
  destruct (map_first_spec c (iov_base v) (iov_len v) single _ c1 Hok Ho Hi ltac:(lia) Hmax ltac:(lia) E1)
    as (_ & Hok1 & Hb1 & Hn1 & Ho1 & Hc1). fold (after_first (iov_base v) (iov_len v)) in *. fold k in Hok1, Ho1, Hc1.
  unfold bind at 1. rewrite E1. rewrite (proj2 (Z.ltb_ge _ _)) by lia.
  assert (negb ((1 + Z.of_nat k =? 1) || single || ALIGNED (u64 (iov_base v + iov_len v)) ps) = false) as ->.
  { apply negb_false_iff, orb_true_iff. destruct Hend as [->|Hend]; [left; by rewrite orb_true_r|right].
    rewrite ALIGNED_spec by apply ps_is_pow2. apply Z.eqb_eq. unfold u64. pose proof ps_pos.
    rewrite ps_pow. change 0x10000000000000000 with (2 ^ 64).
    rewrite Z.mod_mod_divide; [rewrite <- ps_pow; done|].
    exists (2 ^ (64 - shift)). rewrite <- Z.pow_add_r by lia. f_equal. lia. }
  destruct (decide (vec = [])) as [->|Hne].
  - exists c1. unfold vec_entries in *. change (tail_entries []) with (@nil Z) in *. unfold bind, ret. simpl append_loop.
    unfold ret. rewrite app_nil_r in *. rewrite loop_entries_length in *. fold k. rewrite Z.add_0_r.
    split; [done|]. split; [done|]. split; [done|]. split; [done|]. by apply Hc1.
  - assert (cursor_open c1) as Ho1'. { apply Ho1. destruct vec; [done|by left]. }
    destruct (append_loop_ok vec c1 _ Htail Hok1 Ho1') as (c' & Er & Hok' & Hb' & Hn' & Hc').
    { rewrite length_app, loop_entries_length, <- Hle, Hn1. done. }
    exists c'. unfold bind. rewrite Er. rewrite Hle, Nat2Z.inj_add, Z.add_assoc. split; [done|].
    split; [done|]. split; [congruence|]. split; [congruence|]. intros _. by apply Hc'.
Qed.
End Cursor.

(** ** Properties *)

Section Properties.
Context {B : Type} (ctx : iommu_ctx B).

(** [nvme_map_prp] and a controller that reads the list pages in any way. *)
Lemma map_prp_device mps prplists_vaddr lists n d iova len base :
  let shift := __mps_to_pageshift mps in
  let pagesize := Z.shiftl 1 shift in
  let max := Z.to_nat (Z.shiftl 1 (shift - 3)) in
  0 <= mps <= 15 -> 1 <= n -> length lists = (Z.to_nat n * max)%nat ->
  iommu_translate_vaddr ctx prplists_vaddr = Some base ->
  0 <= base -> base mod pagesize = 0 -> base + n * pagesize <= 0x10000000000000000 ->
  0 <= iova -> 0 < len -> len < 0x70000000 -> iova + len <= 0x10000000000000000 ->
  match nvme_map_prp ctx mps prplists_vaddr lists n d iova len with
  | (Ret _, (prp1, prp2, lists')) =>
      length lists' = length lists /\ forall rd, reads rd lists' base ->
      consecutive iova len (device_prps rd pagesize max prp1 prp2 len)
  | (Fail e, _) =>
      e = EINVAL /\ __prplist_capacity n (Z.shiftl 1 (shift - 3)) <
        Z.of_nat (pages_for pagesize (len - Z.min len (pagesize - iova mod pagesize)))
  | (Crash, _) => False
  end.
Proof.
  intros shift pagesize max Hmps Hn Hlen Htr Hb Hba Hbmax Hi Hl Hsmall Hmax.
  assert (12 <= shift <= 27) as Hsh by (unfold shift, __mps_to_pageshift; lia).
  unfold nvme_map_prp. rewrite (proj2 (Z.ltb_ge _ _)) by lia. rewrite Htr. fold shift.
  set (c := __prp_cursor_init lists base (Z.to_nat n)).
  destruct (cursor_init_ok shift Hsh lists base (Z.to_nat n)) as [Hok Ho]; [done|lia|]. fold c in Hok, Ho.
  pose proof (map_first_result shift Hsh c iova len true Hok Ho Hi Hl Hsmall) as Hres. cbv zeta in Hres.
  fold pagesize in Hres. unfold c at 1 in Hres. simpl nprplists in Hres. rewrite Z2Nat.id in Hres by lia.
  destruct (Z.leb_spec (Z.of_nat (pages_for pagesize (len - Z.min len (pagesize - iova mod pagesize))))
    (__prplist_capacity n (Z.shiftl 1 (shift - 3)))) as [Hcap|Hcap]; [|rewrite Hres; done].
  destruct Hres as (c' & Hrun). rewrite Hrun. rewrite (proj2 (Z.ltb_ge _ _)) by lia.
  destruct (map_first_spec shift Hsh c iova len true _ c' Hok Ho Hi Hl Hmax Hsmall Hrun)
    as (_ & Hok' & Eb & En & _ & Hcl).
  split; [rewrite (co_length _ _ _ Hok'), En, Hlen; done|].
  intros rd Hrd. fold pagesize in Hok', Hcl |- *. set (rest := len - Z.min len (pagesize - iova mod pagesize)) in *.
  pose proof (ps_pos shift Hsh) as Hps. fold pagesize in Hps.
  pose proof (Z.mod_pos_bound iova pagesize ltac:(lia)) as Hmod.
  destruct (decide (rest = 0)) as [E0|E0].
  - unfold device_prps. fold rest. rewrite E0. simpl. lia.
  - assert (0 < rest) as Hr by lia. pose proof (pages_for_pos shift Hsh rest Hr) as Hpp. fold pagesize in Hpp.
    assert (length (loop_entries shift (iova - iova mod pagesize) 1 (pages_for pagesize rest)) =
      pages_for pagesize rest) as Hle by (unfold loop_entries; by rewrite length_fmap, length_seq).
    assert (prplist_iova c' = base) as Eb' by done.
    pose proof (device_reads shift Hsh rd c' _ iova len (1 + Z.of_nat (pages_for pagesize rest))
      ltac:(by rewrite Eb') Hok'
      (Hcl eq_refl ltac:(lia))) as Hdev. cbv zeta in Hdev. fold pagesize max rest in Hdev.
    rewrite Eb' in Hdev. rewrite Hdev; try done; [|by rewrite Hle|rewrite En; simpl; rewrite Z2Nat.id by lia; done].
    simpl. split; [done|]. split; [lia|].
    replace (iova + Z.min len (pagesize - iova mod pagesize)) with (iova - iova mod pagesize + 1 * pagesize) by lia.
    pose proof (Z.mod_le iova pagesize Hi ltac:(lia)).
    fold rest. apply (chunks_consecutive shift Hsh); try done; fold pagesize; lia.
Qed.

(** [nvme_mapv_iova_prp] likewise. *)
Lemma mapv_device mps prplists_vaddr lists n d v vec base :
  let shift := __mps_to_pageshift mps in
  let pagesize := Z.shiftl 1 shift in
  let max := Z.to_nat (Z.shiftl 1 (shift - 3)) in
  let seg := fun v => mk_iovec (iv_iova v) (iv_len v) in
  let len := iv_len v + total (seg <$> vec) in
  0 <= mps <= 15 -> 1 <= n -> length lists = (Z.to_nat n * max)%nat ->
  iommu_translate_vaddr ctx prplists_vaddr = Some base ->
  0 <= base -> base mod pagesize = 0 -> base + n * pagesize <= 0x10000000000000000 ->
  vec_shape shift (seg v) (seg <$> vec) ->
  Z.of_nat (pages_for pagesize (after_first shift (iv_iova v) len)) <= __prplist_capacity n (Z.of_nat max) ->
  exists prp2 lists',
    nvme_mapv_iova_prp ctx mps prplists_vaddr lists n d (v :: vec) = (Ret tt, ((iv_iova v, prp2), lists')) /\
    length lists' = length lists /\ forall rd, reads rd lists' base ->
    describes (seg <$> v :: vec) (device_prps rd pagesize max (iv_iova v) prp2 len).
Proof.
  intros shift pagesize max seg len Hmps Hn Hlen Htr Hb Hba Hbmax Hshape Hcap.
  assert (12 <= shift <= 27) as Hsh by (unfold shift, __mps_to_pageshift; lia).
  unfold nvme_mapv_iova_prp, run_mapv. rewrite (proj2 (Z.ltb_ge _ _)) by lia. rewrite Htr. fold shift seg.
  destruct (cursor_init_ok shift Hsh lists base (Z.to_nat n)) as [Hok Ho]; [done|lia|].
  destruct (vec_describes shift Hsh (seg v) (seg <$> vec) Hshape) as [Hcount Hdesc].
  change (iov_base (seg v)) with (iv_iova v) in *. change (iov_len (seg v)) with (iv_len v) in *.
  fold len pagesize in Hcount, Hdesc.
  destruct (mapv_segments_ok shift Hsh (seg v) (seg <$> vec) _ Hshape Hok Ho) as (c' & Hrun & Hok' & Eb & En & Hcl).
  { rewrite Hcount. simpl. rewrite Z2Nat.id by lia. done. }
  change (iov_base (seg v)) with (iv_iova v) in Hrun. change (iov_len (seg v)) with (iv_len v) in Hrun.
  rewrite Hrun. eexists _, _. split; [done|]. simpl in Eb, En.
  split; [by rewrite (co_length _ _ _ Hok'), En, Hlen|]. intros rd Hrd.
  set (E := vec_entries shift (seg v) (seg <$> vec)) in *. cbn [fmap list_fmap].
  destruct (decide (after_first shift (iv_iova v) len <= 0)) as [Hr|Hr].
  - rewrite (pages_for_nonpos shift Hsh) in Hcount by done. destruct E; [|done].
    assert (after_first shift (iv_iova v) len = 0) as Hz by (unfold after_first in Hr |- *; fold pagesize in Hr |- *; lia).
    unfold device_prps. fold pagesize. unfold after_first in Hz. fold pagesize in Hz. rewrite Hz. simpl.
    simpl in Hdesc. replace (Z.min len _) with (len - after_first shift (iv_iova v) len); [done|].
    unfold after_first. fold pagesize. lia.
  - pose proof (pages_for_pos shift Hsh (after_first shift (iv_iova v) len) ltac:(lia)) as Hpp.
    fold pagesize in Hpp.
    pose proof (device_reads shift Hsh rd c' E (iv_iova v) len (1 + Z.of_nat (length E))
      ltac:(by rewrite Eb) Hok' (Hcl ltac:(lia))) as Hdev.
    cbv zeta in Hdev. fold (after_first shift (iv_iova v) len) pagesize max in Hdev. rewrite Eb in Hdev.
    rewrite Hdev; try done; [|lia|rewrite En, Z2Nat.id by lia; done].
    replace (Z.min len _) with (len - after_first shift (iv_iova v) len); [done|].
    unfold after_first. fold pagesize. lia.
Qed.


(** [nvme_mapv_iova_prp] describes every segment of the vector.  If the
    segments have the shape PRP lists can express (all but the last end on a
    page boundary, all but the first start on one, the last has whole pages or
    at most one) and the entries fit the list pages, the call succeeds, and the
    controller, following PRP1, PRP2 and the chained lists, transfers segment
    after segment, each from its first to its last byte. *)
Theorem mapv_describes_segments mps prplists_vaddr lists n d v vec base :
  let shift := __mps_to_pageshift mps in
  let pagesize := Z.shiftl 1 shift in
  let max := Z.to_nat (Z.shiftl 1 (shift - 3)) in
  let seg := fun v => mk_iovec (iv_iova v) (iv_len v) in
  let len := iv_len v + total (seg <$> vec) in
  0 <= mps <= 15 -> 1 <= n -> length lists = (Z.to_nat n * max)%nat ->
  iommu_translate_vaddr ctx prplists_vaddr = Some base ->
  0 <= base -> base mod pagesize = 0 -> base + n * pagesize <= 0x10000000000000000 ->
  vec_shape shift (seg v) (seg <$> vec) ->
  Z.of_nat (pages_for pagesize (after_first shift (iv_iova v) len)) <= __prplist_capacity n (Z.of_nat max) ->
  exists prp2 lists',
    nvme_mapv_iova_prp ctx mps prplists_vaddr lists n d (v :: vec) = (Ret tt, ((iv_iova v, prp2), lists')) /\
    describes (seg <$> v :: vec) (device_prps (read_lists lists' base) pagesize max (iv_iova v) prp2 len).
Proof.
  intros shift pagesize max seg len Hmps Hn Hlen Htr Hb Hba Hbmax Hshape Hcap.
  destruct (mapv_device mps prplists_vaddr lists n d v vec base Hmps Hn Hlen Htr Hb Hba Hbmax Hshape Hcap)
    as (prp2 & lists' & Hrun & Hd). exists prp2, lists'. split; [done|]. apply Hd, read_lists_reads.
Qed.

(** ** Scatter/gather lists *)

(** The data blocks a controller transfers for a command: the descriptor of the
    command itself, or those of the segment it points to. *)
Definition device_sgl (d : nvme_dptr) (seg : list nvme_sgld) : list (Z * Z) :=
  match d with
  | dptr_prp _ _ => []
  | dptr_sgl s =>
      if Z.shiftr (sg_type s) 4 =? NVME_SGLD_TYPE_LAST_SEGMENT
      then (fun s => (sg_addr s, sg_len s)) <$> take (Z.to_nat (sg_len s / 16)) seg
      else [(sg_addr s, sg_len s)]
  end.

Lemma sgl_loop_ok vec translate iovas dword_align i seg :
  translate <$> (iov_base <$> vec) = Some <$> iovas ->
  Forall (fun a => dword_align = false \/ Z.land a 3 = 0) iovas ->
  (i + length vec <= length seg)%nat ->
  sgl_loop vec translate dword_align i seg =
    (Ret tt, take i seg ++ zip_with __sgl_data iovas (iov_len <$> vec) ++ drop (i + length vec) seg).
Proof.
  revert iovas i seg. induction vec as [|v vec IH]; intros [|a iovas] i seg Ht Ha Hl; try done.
  { simpl. by rewrite Nat.add_0_r, take_drop. }
  cbn [fmap list_fmap] in Ht. injection Ht as Ht1 Ht2. apply Forall_cons in Ha as [Ha1 Ha2].
  cbn [sgl_loop]. rewrite Ht1.
  assert (dword_align && negb (Z.land a 3 =? 0) = false) as ->.
  { destruct Ha1 as [->| ->]; [done|by rewrite andb_false_r]. }
  simpl in Hl. rewrite (IH iovas (S i) _ Ht2 Ha2) by (rewrite length_insert; lia). f_equal.
  rewrite (take_S_r _ _ (__sgl_data a (iov_len v))), take_insert_ge, <- app_assoc by
    (try lia; apply list_lookup_insert_eq; lia).
  cbn [app zip_with fmap list_fmap length]. do 3 f_equal. rewrite drop_insert_lt by lia. f_equal. lia.
Qed.

(** [nvme_mapv_sgl] describes every segment.  If all entries are mapped,
    meet the alignment the controller asks for, are shorter than 4 GiB and fit
    the segment page, the command succeeds and the controller transfers exactly
    the entries' I/O addresses and lengths, in order; for more than one entry
    the command's flags announce scatter/gather lists. *)
Theorem mapv_sgl_describes_segments mps dword_align seg seg_iova fl d vec iovas :
  0 <= mps <= 15 -> vec <> [] -> length seg = Z.to_nat (Z.shiftl 1 (__mps_to_pageshift mps - 4)) ->
  iommu_translate_vaddr ctx <$> (iov_base <$> vec) = Some <$> iovas ->
  Forall (fun a => 0 <= a < 0x10000000000000000 /\ (dword_align = false \/ Z.land a 3 = 0)) iovas ->
  Forall (fun v => 0 <= iov_len v < 0x100000000) vec -> (length vec <= length seg)%nat ->
  exists fl' d' seg', nvme_mapv_sgl ctx mps dword_align seg seg_iova fl d vec = (Ret tt, (fl', d', seg')) /\
    device_sgl d' seg' = zip iovas (iov_len <$> vec) /\
    fl' = (if (length vec =? 1)%nat then fl
           else Z.lor fl (NVME_FIELD_SET NVME_CMD_FLAGS_PSDT_SGL_MPTR_CONTIG CMD_FLAGS_PSDT)).
Proof.
  intros Hmps Hne Hseg Ht Ha Hl Hfit.
  assert (zip_with (fun a l => (u64 a, u32 l)) iovas (iov_len <$> vec) = zip iovas (iov_len <$> vec)) as Hz.
  { clear Ht Hfit Hne. revert vec Hl. induction Ha as [|a iovas [Ha _] _ IH]; intros vec Hl; [done|].
    destruct Hl as [|v vec Hv Hl]; [done|]. simpl. rewrite u64_small, u32_small, IH by done. done. }
  destruct vec as [|v1 [|v2 vec']]; [done|..].
  - destruct iovas as [|a [|]]; try done. cbn [fmap list_fmap] in Ht. injection Ht as Ht.
    eexists _, _, _. unfold nvme_mapv_sgl, mapv_sgl. rewrite Ht. split; [done|]. split; [|done].
    rewrite <- Hz. done.
  - assert (2 <= length (v1 :: v2 :: vec'))%nat as H2 by (simpl; lia). set (vec := v1 :: v2 :: vec') in *.
    assert (nvme_mapv_sgl ctx mps dword_align seg seg_iova fl d vec =
      (Ret tt, (Z.lor fl (NVME_FIELD_SET NVME_CMD_FLAGS_PSDT_SGL_MPTR_CONTIG CMD_FLAGS_PSDT),
        dptr_sgl (__sgl_segment seg_iova (length vec)),
        zip_with __sgl_data iovas (iov_len <$> vec) ++ drop (length vec) seg))) as ->.
    { unfold nvme_mapv_sgl, mapv_sgl. unfold vec at 1.
      assert ((Z.shiftl 1 (__mps_to_pageshift mps - 4) <? Z.of_nat (length vec)) = false) as -> by (apply Z.ltb_ge; lia).
      rewrite (sgl_loop_ok vec _ iovas); [done|done| |lia].
      eapply Forall_impl; [exact Ha|]. simpl. tauto. }
    eexists _, _, _. split; [done|]. split; [|done].
    assert (length iovas = length vec) as Hli by (apply (f_equal length) in Ht; by rewrite !length_fmap in Ht).
    assert (Z.of_nat (length vec) <= 2 ^ 23) as Hsmall.
    { rewrite Hseg, Z.shiftl_1_l in Hfit.
      assert (2 ^ (__mps_to_pageshift mps - 4) <= 2 ^ 23); [|lia].
      unfold __mps_to_pageshift. apply Z.pow_le_mono_r; lia. }
    unfold device_sgl, __sgl_segment. cbn [sg_type sg_len].
    rewrite (proj2 (Z.eqb_eq _ _)) by done.
    assert (Z.to_nat (u32 (Z.shiftl (Z.of_nat (length vec)) 4) / 16) = length vec) as ->.
    { rewrite (Z.shiftl_mul_pow2 _ 4) by lia. change (2 ^ 4) with 16. rewrite u32_small by lia.
      rewrite Z.div_mul by lia. apply Nat2Z.id. }
    rewrite take_app_length' by (rewrite length_zip_with, length_fmap; lia).
    rewrite <- Hz. clear. generalize (iov_len <$> vec). induction iovas as [|a iovas IH]; intros [|l ls]; try done.
    simpl. by rewrite IH.
Qed.
End Properties.


(** ** The theorems on concrete inputs *)

Definition demo_prp := nvme_map_prp bump_ctx1 0 0x7f0000 (replicate 512 0) 1 (0, 0) 0x20800 0x3000.


Definition demo_vec : list iova_vec := [mk_iova_vec 0x20800 0x800; mk_iova_vec 0x40000 0x2000; mk_iova_vec 0x30000 0x10].

Lemma mapv_describes_segments_witness :
  exists prp2 lists',
    nvme_mapv_iova_prp bump_ctx1 0 0x7f0000 (replicate 512 0) 1 (0, 0) demo_vec = (Ret tt, ((0x20800, prp2), lists')) /\
    describes ((fun v => mk_iovec (iv_iova v) (iv_len v)) <$> demo_vec)
      (device_prps (read_lists lists' 0x10000) 0x1000 512 0x20800 prp2 0x2810).
Proof.
  apply (mapv_describes_segments bump_ctx1 0 0x7f0000 (replicate 512 0) 1 (0, 0) (mk_iova_vec 0x20800 0x800)
    [mk_iova_vec 0x40000 0x2000; mk_iova_vec 0x30000 0x10] 0x10000);
    [lia|lia|vm_compute; reflexivity|vm_compute; reflexivity|lia|reflexivity|vm_compute; discriminate| |vm_compute; discriminate].
  unfold vec_shape. cbn [fmap list_fmap tail_shape iov_base iov_len iv_iova iv_len].
  change (Z.shiftl 1 (__mps_to_pageshift 0)) with 4096.
  repeat split; try lia; try (vm_compute; reflexivity); first [left; vm_compute; reflexivity|right; vm_compute; reflexivity|right; split; [done|lia]].
Defined.

Definition demo_sgl := nvme_mapv_sgl bump_ctx1 0 true (replicate 256 zero_sgld) 0x10000 0 (dptr_prp 0 0)
  [mk_iovec 0x7f1000 0x80; mk_iovec 0x7f0100 0x40].

Lemma mapv_sgl_describes_segments_witness :
  exists fl' d' seg', demo_sgl = (Ret tt, (fl', d', seg')) /\
    device_sgl d' seg' = [(0x11000, 0x80); (0x10100, 0x40)] /\ fl' = 0x40.
Proof.
  apply (mapv_sgl_describes_segments bump_ctx1 0 true (replicate 256 zero_sgld) 0x10000 0 (dptr_prp 0 0)
    [mk_iovec 0x7f1000 0x80; mk_iovec 0x7f0100 0x40] [0x11000; 0x10100]);
    [lia|done|vm_compute; reflexivity|vm_compute; reflexivity| | |simpl; lia];
    repeat constructor; simpl; try lia; right; reflexivity.
Defined.

(** ** Where the code departs from what the list can express *)

(** A vector's last entry of more than one page that is not whole pages: the
    part of a page at its end has no entry. *)
Lemma append_drops_tail :
  fst (__map_prp_append 0x40000 0x1800 512 12 true (__prp_cursor_init (replicate 512 0) 0x10000 1)) = Ret 1.
Proof. vm_compute. reflexivity. Qed.

(** A first entry that needs only PRP1 may end inside a page, though another
    entry follows: the second data pointer is then read at the wrong offset. *)
Lemma first_gap_accepted :
  fst (nvme_mapv_iova_prp bump_ctx1 0 0x7f0000 (replicate 512 0) 1 (0, 0)
    [mk_iova_vec 0x20000 0x200; mk_iova_vec 0x40000 0x1000]) = Ret tt.
Proof. vm_compute. reflexivity. Qed.

(** A buffer of 4 GiB and two pages: the conversion to [int] drops the high
    bits of the length, the call succeeds and describes two pages. *)
Lemma huge_buffer_truncated :
  exists lists, nvme_map_prp bump_ctx1 0 0x7f0000 (replicate 512 0) 1 (0, 0) 0x20000 0x100002000 =
    (Ret tt, ((0x20000, 0x21000), lists)).
Proof. eexists. vm_compute. reflexivity. Qed.

(** One scatter/gather entry: the command carries a descriptor, its flags say
    PRP. *)
Lemma single_sgl_without_flag :
  fst (fst (snd (nvme_mapv_sgl bump_ctx1 0 false (replicate 256 zero_sgld) 0x10000 0 (dptr_prp 0 0)
    [mk_iovec 0x7f1000 0x80]))) = 0.
Proof. vm_compute. reflexivity. Qed.
