(* ===== verification/NvmeQueue.v ===== *)
(** * NvmeQueue: submission and completion queues,
      include/vfn/nvme/queue.h and src/nvme/queue.c

    The rings, their doorbells and the shadow doorbell buffer; the controller's
    side of the protocol (posting completions with the phase tag, fetching
    commands up to the tail it has seen, going to sleep on the event index) is
    part of the specification. *)

From S2P Require Import Prelude Support Skiplist IovaAlloc VfioIova Dma NvmeTypes.
Local Open Scope Z_scope.
Local Open Scope vfn_scope.

Definition NVME_AQ : nat := 0.
Definition NVME_SQES : Z := 6.
Definition NVME_CQES : Z := 4.

(** struct nvme_dbbuf: the two pointers (0 is the null pointer) and the words
    they designate in the shadow doorbell and event index pages. *)
Record nvme_dbbuf : Type := mk_dbbuf {
  db_ptr : Z;
  ei_ptr : Z;
  db_word : Z;
  ei_word : Z
}.
Definition no_dbbuf : nvme_dbbuf := mk_dbbuf 0 0 0 0.

(** enum nvme_q_flags *)
Definition NVME_Q_MEM_PREALLOCATED : Z := Z.shiftl 1 0.

(** struct nvme_cq, with the memory of the ring and the writes to its doorbell
    register, the latest first. *)
Record nvme_cq : Type := mk_cq {
  cq_mem : iommu_dmabuf;
  cq_entries : list nvme_cqe;
  cq_id : Z;
  head : Z;
  cq_qsize : Z;
  cq_doorbell : Z;
  cq_mmio : list Z;
  cq_dbbuf : nvme_dbbuf;
  phase : Z;
  vector : Z;
  cq_flags : Z
}.
Definition zero_cq : nvme_cq := mk_cq zero_dmabuf [] 0 0 0 0 [] no_dbbuf 0 0 0.

(** The mutable part of a completion queue. *)
Definition with_ring (entries : list nvme_cqe) (hd ph : Z) (cq : nvme_cq) : nvme_cq :=
  mk_cq (cq_mem cq) entries (cq_id cq) hd (cq_qsize cq) (cq_doorbell cq) (cq_mmio cq) (cq_dbbuf cq) ph
    (vector cq) (cq_flags cq).
Definition with_cq_doorbell (mmio : list Z) (db : nvme_dbbuf) (cq : nvme_cq) : nvme_cq :=
  mk_cq (cq_mem cq) (cq_entries cq) (cq_id cq) (head cq) (cq_qsize cq) (cq_doorbell cq) mmio db (phase cq)
    (vector cq) (cq_flags cq).

(** struct nvme_rq (include/vfn/nvme/rq.h); a pointer to a request tracker is
    its index in the queue's array. *)
Record nvme_rq : Type := mk_rq {
  opaque : Z;
  rq_cid : Z;
  rq_page_vaddr : Z;
  rq_page_iova : Z;
  rq_next : option nat
}.

(** struct nvme_sq; [sq_cq] is the index of its completion queue. *)
Record nvme_sq : Type := mk_sq {
  sq_cq : nat;
  sq_mem : iommu_dmabuf;
  sq_entries : list nvme_cmd;
  sq_pages : iommu_dmabuf;
  tail : Z;
  ptail : Z;
  sq_qsize : Z;
  sq_id : Z;
  sq_doorbell : Z;
  sq_mmio : list Z;
  sq_dbbuf : nvme_dbbuf;
  rqs : list nvme_rq;
  rq_top : option nat;
  sq_flags : Z
}.
Definition zero_sq : nvme_sq :=
  mk_sq 0 zero_dmabuf [] zero_dmabuf 0 0 0 0 0 [] no_dbbuf [] None 0.

Definition with_tail (entries : list nvme_cmd) (t : Z) (sq : nvme_sq) : nvme_sq :=
  mk_sq (sq_cq sq) (sq_mem sq) entries (sq_pages sq) t (ptail sq) (sq_qsize sq) (sq_id sq) (sq_doorbell sq)
    (sq_mmio sq) (sq_dbbuf sq) (rqs sq) (rq_top sq) (sq_flags sq).
Definition with_sq_doorbell (pt : Z) (mmio : list Z) (db : nvme_dbbuf) (sq : nvme_sq) : nvme_sq :=
  mk_sq (sq_cq sq) (sq_mem sq) (sq_entries sq) (sq_pages sq) (tail sq) pt (sq_qsize sq) (sq_id sq)
    (sq_doorbell sq) mmio db (rqs sq) (rq_top sq) (sq_flags sq).
Definition with_rqs (rs : list nvme_rq) (top : option nat) (sq : nvme_sq) : nvme_sq :=
  mk_sq (sq_cq sq) (sq_mem sq) (sq_entries sq) (sq_pages sq) (tail sq) (ptail sq) (sq_qsize sq) (sq_id sq)
    (sq_doorbell sq) (sq_mmio sq) (sq_dbbuf sq) rs top (sq_flags sq).

(** ** Submission *)

Definition nvme_sq_post (sqe : nvme_cmd) (sq : nvme_sq) : nvme_sq :=
  let t := u16 (tail sq + 1) in
  with_tail (<[Z.to_nat (tail sq) := sqe]> (sq_entries sq)) (if t =? sq_qsize sq then 0 else t) sq.

Definition __nvme_need_mmio (eventidx val old : Z) : bool := u16 (val - eventidx) <=? u16 (val - old).

(** 0 if the doorbell register need not be written, -1 if it must. *)
Definition nvme_try_dbbuf (v : Z) (dbbuf : nvme_dbbuf) : Z * nvme_dbbuf :=
  if db_ptr dbbuf =? 0 then (-1, dbbuf)
  else
    let old := db_word dbbuf in
    let dbbuf := mk_dbbuf (db_ptr dbbuf) (ei_ptr dbbuf) v (ei_word dbbuf) in
    let eventidx := ei_word dbbuf in
    if negb (__nvme_need_mmio (u16 eventidx) v (u16 old)) then (0, dbbuf) else (-1, dbbuf).

Definition nvme_sq_update_tail (sq : nvme_sq) : nvme_sq :=
  if tail sq =? ptail sq then sq
  else
    let '(r, db) := nvme_try_dbbuf (tail sq) (sq_dbbuf sq) in
    with_sq_doorbell (tail sq) (if negb (r =? 0) then tail sq :: sq_mmio sq else sq_mmio sq) db sq.

Definition nvme_sq_exec (sqe : nvme_cmd) (sq : nvme_sq) : nvme_sq := nvme_sq_update_tail (nvme_sq_post sqe sq).

(** ** Completion *)

Definition nvme_cq_head (cq : nvme_cq) : nvme_cqe := default zero_cqe (cq_entries cq !! Z.to_nat (head cq)).

Definition nvme_cq_update_head (cq : nvme_cq) : nvme_cq :=
  let '(r, db) := nvme_try_dbbuf (head cq) (cq_dbbuf cq) in
  with_cq_doorbell (if negb (r =? 0) then head cq :: cq_mmio cq else cq_mmio cq) db cq.

Definition phase_bit (cqe : nvme_cqe) : Z := Z.land (sfp cqe) 0x1.

(** The entry is returned by value: the controller does not write the slot
    again before the head doorbell moves past it. *)
Definition nvme_cq_get_cqe (cq : nvme_cq) : option nvme_cqe * nvme_cq :=
  let cqe := nvme_cq_head cq in
  if phase_bit cqe =? phase cq then (None, cq)
  else
    let h := u16 (head cq + 1) in
    if h =? cq_qsize cq then (Some cqe, with_ring (cq_entries cq) 0 (Z.lxor (phase cq) 0x1) cq)
    else (Some cqe, with_ring (cq_entries cq) h (phase cq) cq).

(** The loops poll the ring while the controller writes to it: the environment
    is the list of what the controller does to the ring before each poll.  The
    list running out means the loop is still polling ([None]). *)
Definition env : Type := list (list nvme_cqe -> list nvme_cqe).

Definition run_env (f : list nvme_cqe -> list nvme_cqe) (cq : nvme_cq) : nvme_cq :=
  with_ring (f (cq_entries cq)) (head cq) (phase cq) cq.

(** [nvme_cq_spin]: the entry at the head changes phase. *)
Fixpoint nvme_cq_spin (e : env) (cq : nvme_cq) : option (nvme_cq * env) :=
  match e with
  | [] => None
  | f :: e' =>
      let cq := run_env f cq in
      if phase_bit (nvme_cq_head cq) =? phase cq then nvme_cq_spin e' cq else Some (cq, e')
  end.

(** The entries read, in order, the queue and the rest of the environment. *)
Fixpoint get_cqes_loop (e : env) (n : Z) (cqes : list nvme_cqe) (cq : nvme_cq)
    : option (list nvme_cqe * nvme_cq * env) :=
  match e with
  | [] => None
  | f :: e' =>
      let '(r, cq) := nvme_cq_get_cqe (run_env f cq) in
      let '(n, cqes) := match r with None => (n, cqes) | Some cqe => (n - 1, cqes ++ [cqe]) end in
      if 0 <? n then get_cqes_loop e' n cqes cq else Some (cqes, cq, e')
  end.

Definition nvme_cq_get_cqes (e : env) (n : Z) (cq : nvme_cq) : option (list nvme_cqe * nvme_cq * env) :=
  get_cqes_loop e n [] cq.

(** With a deadline: each poll also has the tick counter read after it. *)
Definition tenv : Type := list ((list nvme_cqe -> list nvme_cqe) * Z).

Fixpoint wait_cqes_loop (e : tenv) (m : Z) (timeout : Z) (cqes : list nvme_cqe) (cq : nvme_cq)
    : option (Z * list nvme_cqe * nvme_cq * tenv) :=
  match e with
  | [] => None
  | (f, ticks) :: e' =>
      let '(r, cq) := nvme_cq_get_cqe (run_env f cq) in
      let '(m, cqes) := match r with None => (m, cqes) | Some cqe => (m - 1, cqes ++ [cqe]) end in
      if (0 <? m) && (ticks <? timeout) then wait_cqes_loop e' m timeout cqes cq else Some (m, cqes, cq, e')
  end.

(** The return value, whether [errno] is set to [ETIMEDOUT], the entries, the
    queue and the rest of the environment.  [ts] is the timeout in microseconds, [now] the counter at the
    call and [freq] its frequency. *)
Definition nvme_cq_wait_cqes (e : tenv) (n : Z) (ts : option Z) (now freq : Z) (cq : nvme_cq)
    : option (Z * bool * list nvme_cqe * nvme_cq * tenv) :=
  match ts with
  | None =>
      match nvme_cq_get_cqes (fst <$> e) n cq with
      | None => None
      | Some (cqes, cq', e') => Some (n, false, cqes, cq', (fun f => (f, 0)) <$> e')
      end
  | Some usec =>
      let timeout := u64 (now + u64 (usec * (freq / 1000000))) in
      match wait_cqes_loop e n timeout [] cq with
      | None => None
      | Some (m, cqes, cq', e') => Some (n - m, 0 <? m, cqes, cq', e')
      end
  end.

(** ** The controller posts completions *)

(** The value of a doorbell the controller works with. *)
Definition seen (db : nvme_dbbuf) (mmio : list Z) : Z :=
  if db_ptr db =? 0 then default 0 (hd_error mmio) else db_word db.

(** The phase tag of the completion with running number [i]. *)
Definition lap_bit (q i : nat) : Z := 1 - Z.of_nat ((i / q) mod 2).

Definition ring_size (cq : nvme_cq) : nat := Z.to_nat (cq_qsize cq).

(** A fresh queue: cleared memory. *)
Definition cq_fresh (cq : nvme_cq) : Prop :=
  2 <= cq_qsize cq <= 65535 /\ length (cq_entries cq) = ring_size cq /\ head cq = 0 /\ phase cq = 0 /\
  Forall (fun c => phase_bit c = 0) (cq_entries cq) /\ seen (cq_dbbuf cq) (cq_mmio cq) = 0.

(** The queue, all completions posted so far, and those the driver has taken.
    The controller posts unless the ring is full by the head it has seen, and
    tags the entry with the phase of the lap. *)
Inductive cq_step : nvme_cq * list nvme_cqe * list nvme_cqe -> nvme_cq * list nvme_cqe * list nvme_cqe -> Prop :=
| cq_post cq log got cqe :
    Z.of_nat ((length log + 1) mod ring_size cq) <> seen (cq_dbbuf cq) (cq_mmio cq) ->
    phase_bit cqe = lap_bit (ring_size cq) (length log) ->
    cq_step (cq, log, got)
      (with_ring (<[(length log mod ring_size cq)%nat := cqe]> (cq_entries cq)) (head cq) (phase cq) cq,
       log ++ [cqe], got)
| cq_get cq log got cq' r :
    nvme_cq_get_cqe cq = (r, cq') -> cq_step (cq, log, got) (cq', log, got ++ option_list r)
| cq_ring cq log got :
    cq_step (cq, log, got) (nvme_cq_update_head cq, log, got).

(** [acked]: the number of entries taken when the head doorbell was written. *)
Record cq_inv (cq : nvme_cq) (log got : list nvme_cqe) (acked : nat) : Prop := {
  ci_size : 2 <= cq_qsize cq <= 65535;
  ci_length : length (cq_entries cq) = ring_size cq;
  ci_order : (acked <= length got <= length log)%nat /\ (length log < acked + ring_size cq)%nat;
  ci_head : head cq = Z.of_nat (length got mod ring_size cq);
  ci_phase : phase cq = Z.of_nat ((length got / ring_size cq) mod 2);
  ci_seen : seen (cq_dbbuf cq) (cq_mmio cq) = Z.of_nat (acked mod ring_size cq);
  ci_prefix : got `prefix_of` log;
  ci_posted : forall i, (length log - ring_size cq <= i < length log)%nat ->
    cq_entries cq !! (i mod ring_size cq)%nat = log !! i;
  ci_tags : forall i c, log !! i = Some c -> phase_bit c = lap_bit (ring_size cq) i;
  ci_clear : forall j c, (length log <= j < ring_size cq)%nat -> cq_entries cq !! j = Some c -> phase_bit c = 0
}.

Lemma cq_fresh_inv cq : cq_fresh cq -> cq_inv cq [] [] 0.
Proof.
  intros (Hs & Hl & Hh & Hp & Hc & Hd). assert (2 <= ring_size cq)%nat by (unfold ring_size; lia).
  split; simpl; try done; try lia.
  - rewrite Nat.Div0.mod_0_l. done.
  - rewrite Nat.Div0.div_0_l. done.
  - rewrite Nat.Div0.mod_0_l. done.
  - intros j c _ Hj. rewrite Forall_forall in Hc. apply Hc. by eapply list_elem_of_lookup_2.
Qed.

(** Laps of the ring. *)
Lemma lap_alternates q i : (2 <= q)%nat -> (q <= i)%nat -> lap_bit q (i - q) = Z.of_nat ((i / q) mod 2).
Proof.
  intros Hq Hi. unfold lap_bit. replace (i / q)%nat with (S ((i - q) / q))%nat.
  2: { replace i with (i - q + 1 * q)%nat at 2 by lia. rewrite Nat.div_add by lia. lia. }
  set (n := ((i - q) / q)%nat). pose proof (Nat.div_mod n 2 ltac:(lia)). pose proof (Nat.div_mod (S n) 2 ltac:(lia)).
  pose proof (Nat.mod_upper_bound n 2 ltac:(lia)). pose proof (Nat.mod_upper_bound (S n) 2 ltac:(lia)). lia.
Qed.

Lemma mod_wrap q i : (2 <= q)%nat -> (S i mod q = if S (i mod q) =? q then 0 else S (i mod q))%nat.
Proof.
  intros Hq. pose proof (Nat.mod_upper_bound i q). rewrite <- Nat.add_1_r, Nat.Div0.add_mod, (Nat.mod_small 1) by lia.
  destruct (Nat.eqb_spec (S (i mod q)) q) as [E|E].
  - rewrite <- E at 2. rewrite Nat.add_1_r. apply Nat.Div0.mod_same.
  - rewrite Nat.mod_small; lia.
Qed.

Lemma div_wrap q i : (2 <= q)%nat -> (S i / q = if S (i mod q) =? q then S (i / q) else i / q)%nat.
Proof.
  intros Hq. pose proof (Nat.mod_upper_bound i q). pose proof (Nat.div_mod i q ltac:(lia)) as Hd.
  destruct (Nat.eqb_spec (S (i mod q)) q) as [E|E]; symmetry.
  - apply (Nat.div_unique _ _ _ 0); nia.
  - apply (Nat.div_unique _ _ _ (S (i mod q))); lia.
Qed.

(** Distinct numbers of one lap have distinct slots. *)
Lemma mod_inj q i j : (2 <= q)%nat -> (i <= j)%nat -> (j < i + q)%nat -> (i mod q = j mod q)%nat -> i = j.
Proof.
  intros Hq H1 H2 E. pose proof (Nat.div_mod i q ltac:(lia)) as Hi. pose proof (Nat.div_mod j q ltac:(lia)) as Hj.
  rewrite E in Hi. assert (j / q = i / q)%nat as Ed by nia. rewrite Ed in Hj. lia.
Qed.

Section Ring.
Context (cq : nvme_cq) (log got : list nvme_cqe) (acked : nat) (Hinv : cq_inv cq log got acked).

Local Abbreviation q := (ring_size cq).

Lemma ring_size_ge : (2 <= q)%nat.
Proof using Hinv. destruct Hinv. unfold ring_size. lia. Qed.

(** The entry at the head is the next one, or its phase is the old one. *)
Lemma head_entry :
  exists c, nvme_cq_head cq = c /\
  (if decide (length got < length log)%nat then log !! length got = Some c /\ phase_bit c <> phase cq
   else phase_bit c = phase cq).
Proof using Hinv.
  pose proof ring_size_ge as Hq. destruct Hinv as [Hs Hl [Ho1 Ho2] Hh Hp Hd Hpre Hpost Htags Hclear].
  unfold nvme_cq_head. rewrite Hh, Nat2Z.id.
  destruct (lookup_lt_is_Some_2 (cq_entries cq) (length got mod q)) as (c & Ec).
  { rewrite Hl. apply Nat.mod_upper_bound. lia. }
  rewrite Ec. exists c. split; [done|]. rewrite Hp. case_decide as Hlt.
  - rewrite Hpost in Ec by lia. split; [done|]. rewrite (Htags _ _ Ec). unfold lap_bit.
    pose proof (Nat.mod_upper_bound (length got / q) 2). lia.
  - assert (length got = length log) as Heq by lia. destruct (decide (q <= length log)%nat).
    + rewrite <- lap_alternates by lia. apply Htags. rewrite <- Hpost by lia. rewrite <- Ec. f_equal.
      replace (length got) with (length got - q + 1 * q)%nat at 2 by lia. by rewrite Nat.Div0.mod_add.
    + rewrite Nat.mod_small in Ec by lia. rewrite Nat.div_small by lia. apply (Hclear (length got)); [lia|done].
Qed.

Lemma get_spec :
  match nvme_cq_get_cqe cq with
  | (Some c, cq') => log !! length got = Some c /\ cq_inv cq' log (got ++ [c]) acked
  | (None, cq') => length got = length log /\ cq' = cq
  end.
Proof using Hinv.
  pose proof ring_size_ge as Hq. destruct head_entry as (c & Ehd & Hc). unfold nvme_cq_get_cqe. rewrite Ehd.
  case_decide as Hlt.
  2: { rewrite Hc, Z.eqb_refl. destruct Hinv as [_ _ [? _] _ _ _ _ _ _ _]. split; [lia|done]. }
  destruct Hc as [Hlog Hph]. rewrite (proj2 (Z.eqb_neq _ _) Hph).
  destruct Hinv as [Hs Hl [Ho1 Ho2] Hh Hp Hd Hpre Hpost Htags Hclear].
  pose proof (Nat.mod_upper_bound (length got) q ltac:(lia)) as Hm.
  assert (ring_size cq = Z.to_nat (cq_qsize cq)) as Eq by done.
  assert (u16 (head cq + 1) = Z.of_nat (S (length got mod q))) as Eu.
  { rewrite Hh. clear -Hm Hs Eq. generalize dependent (length got mod q)%nat. intros m Hm. rewrite u16_small; lia. }
  assert (forall h p, h = Z.of_nat (S (length got) mod q) -> p = Z.of_nat ((S (length got) / q) mod 2) ->
    cq_inv (with_ring (cq_entries cq) h p cq) log (got ++ [c]) acked) as Hgo.
  { intros h p Eh Ep. split; try done; rewrite ?length_app, ?Nat.add_1_r;
      change (ring_size (with_ring (cq_entries cq) h p cq)) with q; try done; [simpl; lia|].
    destruct Hpre as [k ->]. rewrite lookup_app_r, Nat.sub_diag in Hlog by lia.
    destruct k as [|c' k]; simplify_eq/=. exists k. by rewrite <- app_assoc. }
  rewrite Eu. destruct (Z.eqb_spec (Z.of_nat (S (length got mod q))) (cq_qsize cq)) as [E|E]; split; try done;
    apply Hgo; rewrite ?mod_wrap, ?div_wrap by done.
  - by rewrite (proj2 (Nat.eqb_eq _ _)) by lia.
  - rewrite (proj2 (Nat.eqb_eq _ _)) by lia. rewrite Hp.
    set (n := (length got / q)%nat). pose proof (Nat.div_mod n 2 ltac:(lia)). pose proof (Nat.div_mod (S n) 2 ltac:(lia)).
    pose proof (Nat.mod_upper_bound n 2 ltac:(lia)). pose proof (Nat.mod_upper_bound (S n) 2 ltac:(lia)).
    assert (n mod 2 = 0 \/ n mod 2 = 1)%nat as [E0|E0] by lia; rewrite E0;
      [replace (S n mod 2)%nat with 1%nat by lia|replace (S n mod 2)%nat with 0%nat by lia]; done.
  - by rewrite (proj2 (Nat.eqb_neq _ _)) by lia.
  - by rewrite (proj2 (Nat.eqb_neq _ _)) by lia.
Qed.

Lemma post_spec cqe :
  Z.of_nat ((length log + 1) mod q) <> seen (cq_dbbuf cq) (cq_mmio cq) -> phase_bit cqe = lap_bit q (length log) ->
  cq_inv (with_ring (<[(length log mod q)%nat := cqe]> (cq_entries cq)) (head cq) (phase cq) cq) (log ++ [cqe]) got acked.
Proof using Hinv.
  intros Hfull Htag. pose proof ring_size_ge as Hq.
  destruct Hinv as [Hs Hl [Ho1 Ho2] Hh Hp Hd Hpre Hpost Htags Hclear].
  assert (length log + 1 <> acked + q)%nat as Hne.
  { intros E. apply Hfull. rewrite Hd, E. replace (acked + q)%nat with (acked + 1 * q)%nat by lia.
    by rewrite Nat.Div0.mod_add. }
  pose proof (Nat.mod_upper_bound (length log) q ltac:(lia)) as Hm.
  set (ents := <[(length log mod q)%nat := cqe]> (cq_entries cq)) in *.
  split; try done; change (ring_size (with_ring ents (head cq) (phase cq) cq)) with q; unfold ents; simpl; rewrite ?length_app; simpl.
  - by rewrite length_insert.
  - lia.
  - by apply prefix_app_r.
  - intros i Hi. destruct (decide (i = length log)) as [->|Hi'].
    + rewrite list_lookup_insert_eq by lia. by rewrite lookup_app_r, Nat.sub_diag by lia.
    + rewrite lookup_app_l by lia. rewrite <- Hpost by lia. apply list_lookup_insert_ne.
      intros E. apply Hi'. symmetry in E. apply (mod_inj q) in E; lia.
  - intros i c. rewrite lookup_app_Some. intros [H|[H1 H2]]; [by apply Htags|].
    apply list_lookup_singleton_Some in H2 as [H2 <-]. rewrite Htag. f_equal. lia.
  - intros j c Hj. rewrite list_lookup_insert_ne; [apply Hclear; lia|]. rewrite Nat.mod_small by lia. lia.
Qed.

Lemma ring_spec : cq_inv (nvme_cq_update_head cq) log got (length got).
Proof using Hinv.
  destruct Hinv as [Hs Hl [Ho1 Ho2] Hh Hp Hd Hpre Hpost Htags Hclear]. unfold nvme_cq_update_head, nvme_try_dbbuf.
  destruct (db_ptr (cq_dbbuf cq) =? 0) eqn:E; [|destruct (negb (__nvme_need_mmio _ _ _))];
    (split; try done; [split; [lia|]; unfold ring_size in *; simpl; lia|]; simpl; unfold seen; simpl; rewrite ?E; done).
Qed.
End Ring.

Definition cq_reachable (cq0 : nvme_cq) (s : nvme_cq * list nvme_cqe * list nvme_cqe) : Prop :=
  rtc cq_step (cq0, [], []) s.

Lemma cq_reachable_inv cq0 cq log got :
  cq_fresh cq0 -> cq_reachable cq0 (cq, log, got) -> exists acked, cq_inv cq log got acked.
Proof.
  intros Hf Hr.
  apply (rtc_ind_r (R := cq_step) (fun s => exists acked, cq_inv s.1.1 s.1.2 s.2 acked) (cq0, [], [])) with (z := (cq, log, got));
    [eexists; by apply cq_fresh_inv| |exact Hr].
  intros s1 s2 _ Hst [acked Hinv]. destruct Hst as [c l g x Hfull Htag|c l g c' r Hg|c l g]; simpl in *.
  - exists acked. by apply post_spec.
  - pose proof (get_spec c l g acked Hinv) as Hs. rewrite Hg in Hs. destruct r as [x|]; simpl.
    + exists acked. apply Hs.
    + destruct Hs as [_ ->]. rewrite app_nil_r. by exists acked.
  - eexists. by apply (ring_spec c l g acked).
Qed.

(** C20. Completions are delivered once, in order and without loss.  For a queue
    of up to 65535 entries, in every interleaving of the controller posting
    (never beyond the head doorbell it has seen), the driver polling with
    [nvme_cq_get_cqe] and the driver writing the head doorbell, over any number
    of laps: what the driver has taken is a prefix of what was posted, and the
    next poll returns the next posted entry, or nothing exactly if there is
    none. *)
Theorem completion_queue_fifo cq0 cq log got :
  cq_fresh cq0 -> cq_reachable cq0 (cq, log, got) ->
  got `prefix_of` log /\
  match nvme_cq_get_cqe cq with
  | (Some c, _) => log !! length got = Some c
  | (None, cq') => got = log /\ cq' = cq
  end.
Proof.
  intros Hf Hr. destruct (cq_reachable_inv _ _ _ _ Hf Hr) as [acked Hinv]. pose proof (ci_prefix _ _ _ _ Hinv) as Hp.
  split; [done|]. pose proof (get_spec cq log got acked Hinv) as Hs.
  destruct (nvme_cq_get_cqe cq) as [[c|] cq']; destruct Hs as [Hs ->] || destruct Hs as [Hs _]; [done|].
  split; [|done]. by apply prefix_length_eq; [|lia].
Qed.

Definition demo_cq : nvme_cq := mk_cq zero_dmabuf [zero_cqe; zero_cqe] 1 0 2 0x1004 [] no_dbbuf 0 0 0.
Definition demo_cqe (cid sfp : Z) : nvme_cqe := mk_cqe 0 0 0 1 cid sfp.

Definition demo_cq3 : nvme_cq :=
  mk_cq zero_dmabuf [demo_cqe 9 0; demo_cqe 8 1] 1 0 2 0x1004 [0; 1] no_dbbuf 1 0 0.

Lemma completion_queue_fifo_witness :
  [demo_cqe 7 1; demo_cqe 8 1] `prefix_of` [demo_cqe 7 1; demo_cqe 8 1; demo_cqe 9 0] /\
  fst (nvme_cq_get_cqe demo_cq3) = Some (demo_cqe 9 0).
Proof.
  destruct (completion_queue_fifo demo_cq demo_cq3 [demo_cqe 7 1; demo_cqe 8 1; demo_cqe 9 0]
    [demo_cqe 7 1; demo_cqe 8 1]) as [Hp Hg].
  - repeat split; try (vm_compute; congruence). repeat constructor.
  - unfold cq_reachable.
    eapply rtc_l; [apply (cq_post _ _ _ (demo_cqe 7 1)); [vm_compute; discriminate|vm_compute; reflexivity]|].
    eapply rtc_l; [eapply cq_get; vm_compute; reflexivity|].
    eapply rtc_l; [apply cq_ring|].
    eapply rtc_l; [apply (cq_post _ _ _ (demo_cqe 8 1)); [vm_compute; discriminate|vm_compute; reflexivity]|].
    eapply rtc_l; [eapply cq_get; vm_compute; reflexivity|].
    eapply rtc_l; [apply cq_ring|].
    eapply rtc_l; [apply (cq_post _ _ _ (demo_cqe 9 0)); [vm_compute; discriminate|vm_compute; reflexivity]|].
    vm_compute. apply rtc_refl.
  - split; [exact Hp|]. destruct (nvme_cq_get_cqe demo_cq3) as [[c|] cq'] eqn:E.
    + vm_compute in Hg. simpl. exact (eq_sym Hg).
    + destruct Hg as [Hg _]. discriminate Hg.
Defined.

(** A queue of 65536 entries: the 16-bit head wraps to 0 by itself, the
    comparison with the size never succeeds, and the phase is not inverted. *)
Lemma full_size_queue_keeps_phase entries :
  entries !! Z.to_nat 65535 = Some (demo_cqe 3 1) ->
  let cq := mk_cq zero_dmabuf entries 1 65535 65536 0x1004 [] no_dbbuf 0 0 0 in
  head (snd (nvme_cq_get_cqe cq)) = 0 /\ phase (snd (nvme_cq_get_cqe cq)) = 0.
Proof. intros H. unfold nvme_cq_get_cqe, nvme_cq_head. cbn [cq_entries head]. rewrite H. done. Qed.

(** ** Reaping a batch *)

(** What a controller that posts these entries does to the ring. *)
Fixpoint post_all (q n : nat) (cs : list nvme_cqe) (entries : list nvme_cqe) : list nvme_cqe :=
  match cs with
  | [] => entries
  | c :: cs' => post_all q (S n) cs' (<[(n mod q)%nat := c]> entries)
  end.

(** The posts before each poll, as an environment; [n] entries exist already. *)
Fixpoint posts (q n : nat) (sched : list (list nvme_cqe)) : env :=
  match sched with
  | [] => []
  | cs :: sched' => post_all q n cs :: posts q (n + length cs) sched'
  end.

Definition tagged (q n : nat) (cs : list nvme_cqe) : Prop :=
  forall i c, cs !! i = Some c -> phase_bit c = lap_bit q (n + i).

Lemma posts_inv cq log got acked cs :
  cq_inv cq log got acked -> tagged (ring_size cq) (length log) cs ->
  (length log + length cs < acked + ring_size cq)%nat ->
  cq_inv (run_env (post_all (ring_size cq) (length log) cs) cq) (log ++ cs) got acked.
Proof.
  revert cq log. induction cs as [|c cs IH]; intros cq log Hinv Ht Hroom.
  { rewrite app_nil_r. destruct cq. exact Hinv. }
  assert (2 <= ring_size cq)%nat as Hq by (eapply ring_size_ge; eauto). simpl in Hroom.
  assert (cq_inv (with_ring (<[(length log mod ring_size cq)%nat := c]> (cq_entries cq)) (head cq) (phase cq) cq)
    (log ++ [c]) got acked) as Hpost; [apply (post_spec cq log got acked Hinv)|].
  - rewrite (ci_seen _ _ _ _ Hinv). intros E%Nat2Z.inj. symmetry in E.
    pose proof (proj1 (ci_order _ _ _ _ Hinv)). apply mod_inj in E; lia.
  - rewrite (Ht 0%nat c) by done. f_equal. lia.
  - specialize (IH _ _ Hpost). rewrite <- app_assoc, length_app, Nat.add_1_r in IH.
    apply IH; [|change (ring_size (with_ring _ _ _ cq)) with (ring_size cq); simpl in *; lia].
    intros i c' Hi. change (ring_size (with_ring _ _ _ cq)) with (ring_size cq).
    rewrite (Ht (S i) c') by done. f_equal. lia.
Qed.

(** Controller activity and one poll. *)
Lemma poll_spec cq log got acked cs :
  cq_inv cq log got acked -> tagged (ring_size cq) (length log) cs ->
  (length log + length cs < acked + ring_size cq)%nat ->
  match nvme_cq_get_cqe (run_env (post_all (ring_size cq) (length log) cs) cq) with
  | (Some c, cq') => (log ++ cs) !! length got = Some c /\ cq_inv cq' (log ++ cs) (got ++ [c]) acked /\
      ring_size cq' = ring_size cq
  | (None, cq') => cq_inv cq' (log ++ cs) got acked /\ ring_size cq' = ring_size cq /\ length got = length (log ++ cs)
  end.
Proof.
  intros Hinv Ht Hroom. pose proof (posts_inv cq log got acked cs Hinv Ht Hroom) as H1.
  set (cq1 := run_env _ cq) in *. pose proof (get_spec cq1 (log ++ cs) got acked H1) as Hg.
  unfold nvme_cq_get_cqe in *. destruct (_ =? phase cq1).
  - destruct Hg. done.
  - destruct (_ =? cq_qsize cq1); destruct Hg as [? ?]; done.
Qed.

Lemma tagged_app q n cs1 cs2 : tagged q n (cs1 ++ cs2) -> tagged q n cs1 /\ tagged q (n + length cs1) cs2.
Proof.
  intros H. split; intros i c Hi.
  - apply H. by apply lookup_app_l_Some.
  - rewrite <- Nat.add_assoc. apply H. rewrite lookup_app_r by lia. rewrite <- Hi. f_equal. lia.
Qed.

Lemma concat_empties k : concat (replicate k (@nil nvme_cqe)) = [].
Proof. by induction k. Qed.

Lemma take_drop_S {A} (l : list A) i n c : l !! i = Some c -> take (S n) (drop i l) = c :: take n (drop (S i) l).
Proof. intros H. rewrite (drop_S _ c) by done. done. Qed.

(** [n] entries are found by these polls, with [a] available before them. *)
Fixpoint suffices (ss : list (list nvme_cqe)) (n a : nat) : Prop :=
  match ss with
  | [] => False
  | cs :: ss' =>
      match (a + length cs)%nat with
      | O => suffices ss' n 0
      | S a' => n = 1%nat \/ suffices ss' (n - 1) a'
      end
  end.

Lemma suffices_idle k n a : (1 <= n <= k)%nat -> (n <= a)%nat -> suffices (replicate k []) n a.
Proof.
  revert n a. induction k as [|k IH]; intros n a Hn Ha; [lia|]. simpl. rewrite Nat.add_0_r.
  destruct a as [|a]; [lia|]. destruct (decide (n = 1%nat)); [by left|right]. apply IH; lia.
Qed.

Lemma suffices_total sched k n a :
  (1 <= n <= k)%nat -> (n <= a + length (concat sched))%nat -> suffices (sched ++ replicate k []) n a.
Proof.
  revert n a. induction sched as [|cs sched IH]; intros n a Hn Ha; simpl in *.
  { apply suffices_idle; lia. }
  rewrite length_app in Ha. destruct (a + length cs)%nat as [|a'] eqn:E; [apply IH; lia|].
  destruct (decide (n = 1%nat)); [by left|right]. apply IH; lia.
Qed.

Lemma get_cqes_loop_spec ss n cq log got acked acc :
  cq_inv cq log got acked -> tagged (ring_size cq) (length log) (concat ss) ->
  (length (log ++ concat ss) < acked + ring_size cq)%nat -> suffices ss (S n) (length log - length got) ->
  exists cq' e' log' cqes,
    get_cqes_loop (posts (ring_size cq) (length log) ss) (Z.of_nat (S n)) acc cq = Some (acc ++ cqes, cq', e') /\
    cqes = take (S n) (drop (length got) (log ++ concat ss)) /\ length cqes = S n /\
    log' `prefix_of` log ++ concat ss /\ cq_inv cq' log' (got ++ cqes) acked.
Proof.
  revert n cq log got acc. induction ss as [|cs ss IH]; intros n cq log got acc Hinv Ht Hroom Hs; [done|].
  cbn [concat] in *. rewrite app_assoc in *. apply tagged_app in Ht as [Ht1 Ht2].
  rewrite <- length_app in Ht2. cbn [posts get_cqes_loop]. rewrite <- length_app.
  pose proof (poll_spec cq log got acked cs Hinv Ht1) as Hpoll. rewrite !length_app in Hroom.
  specialize (Hpoll ltac:(lia)). pose proof (proj1 (ci_order _ _ _ _ Hinv)) as Ho. simpl in Hs.
  destruct (nvme_cq_get_cqe _) as [[c|] cq1]; destruct Hpoll as (H1 & H2 & H3).
  - assert (length got < length (log ++ cs))%nat as Hlt by (eapply lookup_lt_Some; eauto). rewrite length_app in Hlt.
    rewrite <- H3 in Ht2. assert (((log ++ cs) ++ concat ss) !! length got = Some c) as El by (by apply lookup_app_l_Some).
    destruct (length log - length got + length cs)%nat as [|a'] eqn:Ea; [lia|].
    destruct (decide (n = 0%nat)) as [->|Hn].
    + simpl. eexists cq1, _, (log ++ cs), [c]. rewrite (take_drop_S _ _ _ _ El), take_0. split; [done|].
      split; [done|]. split; [done|]. split; [by apply prefix_app_r|done].
    + rewrite (proj2 (Z.ltb_lt _ _)) by lia. destruct Hs as [?|Hs]; [lia|].
      destruct n as [|n]; [done|]. replace (Z.of_nat (S (S n)) - 1) with (Z.of_nat (S n)) by lia.
      destruct (IH n cq1 (log ++ cs) (got ++ [c]) (acc ++ [c]) H2 Ht2) as (cq' & e' & log' & cqes & E & Ec & El' & Hp & Hi).
      { rewrite H3, !length_app. lia. }
      { rewrite !length_app. simpl. replace (length log + length cs - (length got + 1))%nat with a' by lia.
        replace (S (S n) - 1)%nat with (S n) in Hs by lia. exact Hs. }
      rewrite H3 in E. rewrite E. exists cq', e', log', (c :: cqes).
      rewrite length_app, Nat.add_1_r in Ec.
      rewrite <- app_assoc in Hi. rewrite <- app_assoc.
      split; [done|]. split; [by rewrite (take_drop_S _ _ _ _ El), <- Ec|]. split; [simpl; lia|]. split; [done|]. exact Hi.
  - rewrite length_app in H3. rewrite (proj2 (Z.ltb_lt _ _)) by lia.
    replace (length log - length got + length cs)%nat with 0%nat in Hs by lia. rewrite <- H2 in Ht2.
    destruct (IH n cq1 (log ++ cs) got acc H1 Ht2) as (cq' & e' & log' & cqes & E & Hrest).
    { rewrite H2, !length_app. lia. }
    { rewrite length_app. replace (length log + length cs - length got)%nat with 0%nat by lia. exact Hs. }
    rewrite H2 in E. rewrite E. by exists cq', e', log', cqes.
Qed.

(** [nvme_cq_get_cqes] returns as soon as the controller has posted enough.
    Whenever a controller that respects the ring posts, between the polls, at
    least [n] entries beyond those already taken, the loop ends after finitely
    many polls and has taken exactly the next [n] entries, in order; later
    entries stay for the next call. *)
Theorem get_cqes_total sched n cq log got acked :
  cq_inv cq log got acked -> 1 <= n -> tagged (ring_size cq) (length log) (concat sched) ->
  (length (log ++ concat sched) < acked + ring_size cq)%nat ->
  Z.of_nat (length got) + n <= Z.of_nat (length (log ++ concat sched)) ->
  exists cq' e' log' cqes,
    nvme_cq_get_cqes (posts (ring_size cq) (length log) (sched ++ replicate (Z.to_nat n) [])) n cq =
      Some (cqes, cq', e') /\
    cqes = take (Z.to_nat n) (drop (length got) (log ++ concat sched)) /\ Z.of_nat (length cqes) = n /\
    log' `prefix_of` log ++ concat sched /\ cq_inv cq' log' (got ++ cqes) acked.
Proof.
  intros Hinv Hn Ht Hroom Henough. pose proof (proj1 (ci_order _ _ _ _ Hinv)) as Ho.
  assert (concat (sched ++ replicate (Z.to_nat n) []) = concat sched) as Ec
    by (by rewrite concat_app, concat_empties, app_nil_r).
  destruct (get_cqes_loop_spec (sched ++ replicate (Z.to_nat n) []) (Z.to_nat n - 1) cq log got acked [] Hinv)
    as (cq' & e' & log' & cqes & E & Eq & Hl & Hp & Hi); rewrite ?Ec; try done.
  - rewrite length_app in Henough. apply suffices_total; lia.
  - rewrite Ec in *. replace (S (Z.to_nat n - 1)) with (Z.to_nat n) in * by lia.
    rewrite Z2Nat.id in E by lia. exists cq', e', log', cqes. split; [exact E|]. split; [done|]. split; [lia|]. done.
Qed.

Lemma get_cqes_total_witness :
  exists cq' e', nvme_cq_get_cqes (posts 4 0 [[]; [demo_cqe 5 1; demo_cqe 6 1]; []; [demo_cqe 7 1]; []; []]) 2
    (mk_cq zero_dmabuf (replicate 4 zero_cqe) 1 0 4 0x1004 [] no_dbbuf 0 0 0) = Some ([demo_cqe 5 1; demo_cqe 6 1], cq', e').
Proof.
  destruct (get_cqes_total [[]; [demo_cqe 5 1; demo_cqe 6 1]; []; [demo_cqe 7 1]] 2
    (mk_cq zero_dmabuf (replicate 4 zero_cqe) 1 0 4 0x1004 [] no_dbbuf 0 0 0) [] [] 0)
    as (cq' & e' & log' & cqes & E & -> & _).
  - apply cq_fresh_inv. repeat split; try (vm_compute; congruence). repeat constructor.
  - lia.
  - intros [|[|[|]]] c; intros [= <-]; vm_compute; reflexivity.
  - vm_compute. lia.
  - vm_compute. discriminate.
  - exists cq', e'. exact E.
Defined.

(** Asking for no entries takes one if there is one. *)
Lemma get_zero_cqes_takes_one :
  exists cq' e', nvme_cq_get_cqes (posts 4 0 [[demo_cqe 5 1]]) 0
    (mk_cq zero_dmabuf (replicate 4 zero_cqe) 1 0 4 0x1004 [] no_dbbuf 0 0 0) = Some ([demo_cqe 5 1], cq', e').
Proof. eexists _, _. vm_compute. reflexivity. Qed.

(** A bounded wait ends: once the tick counter has passed the deadline no poll
    follows, and it takes no more entries than asked for. *)
Lemma wait_cqes_loop_bounded e m timeout acc cq :
  0 < m -> (exists f t, (f, t) ∈ e /\ timeout <= t) ->
  exists m' cqes cq' e', wait_cqes_loop e m timeout acc cq = Some (m', acc ++ cqes, cq', e') /\
    0 <= m' /\ m' = m - Z.of_nat (length cqes).
Proof.
  revert m acc cq. induction e as [|[f t] e IH]; intros m acc cq Hm (f0 & t0 & Hin & Ht); [set_solver|].
  cbn [wait_cqes_loop]. destruct (nvme_cq_get_cqe (run_env f cq)) as [[c|] cq1].
  - destruct (Z.ltb_spec 0 (m - 1)); [destruct (Z.ltb_spec t timeout)|]; simpl.
    + destruct (IH (m - 1) (acc ++ [c]) cq1) as (m' & cqes & cq' & e' & E & H1 & H2); [lia| |].
      { apply elem_of_cons in Hin as [[= -> ->]|Hin]; [lia|eauto]. }
      exists m', (c :: cqes), cq', e'. rewrite E, <- app_assoc. split; [done|]. simpl. lia.
    + exists (m - 1), [c], cq1, e. simpl. split; [done|]. lia.
    + exists (m - 1), [c], cq1, e. simpl. split; [done|]. lia.
  - rewrite (proj2 (Z.ltb_lt _ _)) by lia. destruct (Z.ltb_spec t timeout); simpl.
    + apply IH; [lia|]. apply elem_of_cons in Hin as [[= -> ->]|Hin]; [lia|eauto].
    + exists m, [], cq1, e. rewrite app_nil_r. simpl. split; [done|]. lia.
Qed.

(** ** The controller fetches commands *)

Definition sq_ring (sq : nvme_sq) : nat := Z.to_nat (sq_qsize sq).

Definition sq_fresh (sq : nvme_sq) : Prop :=
  2 <= sq_qsize sq <= 65536 /\ length (sq_entries sq) = sq_ring sq /\ tail sq = 0 /\ ptail sq = 0 /\
  seen (sq_dbbuf sq) (sq_mmio sq) = 0.

(** The queue, the commands posted, and those the controller has fetched.  The
    driver has at most one command less than the ring's size under way; the
    controller fetches up to the tail it has seen. *)
Inductive sq_step : nvme_sq * list nvme_cmd * list nvme_cmd -> nvme_sq * list nvme_cmd * list nvme_cmd -> Prop :=
| sq_post sq log fetched sqe :
    (length log - length fetched + 1 < sq_ring sq)%nat ->
    sq_step (sq, log, fetched) (nvme_sq_post sqe sq, log ++ [sqe], fetched)
| sq_tail sq log fetched :
    sq_step (sq, log, fetched) (nvme_sq_update_tail sq, log, fetched)
| sq_fetch sq log fetched sqe :
    Z.of_nat (length fetched mod sq_ring sq) <> seen (sq_dbbuf sq) (sq_mmio sq) ->
    sq_entries sq !! (length fetched mod sq_ring sq)%nat = Some sqe ->
    sq_step (sq, log, fetched) (sq, log, fetched ++ [sqe]).

(** [rung]: the number of commands posted when the doorbell was written. *)
Record sq_inv (sq : nvme_sq) (log fetched : list nvme_cmd) (rung : nat) : Prop := {
  si_size : 2 <= sq_qsize sq <= 65536;
  si_length : length (sq_entries sq) = sq_ring sq;
  si_order : (length fetched <= rung <= length log)%nat /\ (length log < length fetched + sq_ring sq)%nat;
  si_tail : tail sq = Z.of_nat (length log mod sq_ring sq);
  si_ptail : ptail sq = Z.of_nat (rung mod sq_ring sq);
  si_seen : seen (sq_dbbuf sq) (sq_mmio sq) = Z.of_nat (rung mod sq_ring sq);
  si_prefix : fetched `prefix_of` log;
  si_posted : forall i, (length fetched <= i < length log)%nat ->
    sq_entries sq !! (i mod sq_ring sq)%nat = log !! i
}.

Lemma sq_fresh_inv sq : sq_fresh sq -> sq_inv sq [] [] 0.
Proof.
  intros (Hs & Hl & Ht & Hp & Hd). assert (2 <= sq_ring sq)%nat by (unfold sq_ring; lia).
  split; simpl; try done; try lia; rewrite Nat.Div0.mod_0_l; done.
Qed.

Lemma sq_post_spec sq log fetched rung sqe :
  sq_inv sq log fetched rung -> (length log - length fetched + 1 < sq_ring sq)%nat ->
  sq_inv (nvme_sq_post sqe sq) (log ++ [sqe]) fetched rung.
Proof.
  intros [Hs Hl [Ho1 Ho2] Ht Hpt Hd Hpre Hpost] Hroom. assert (2 <= sq_ring sq)%nat as Hq by (unfold sq_ring; lia).
  assert (sq_ring sq = Z.to_nat (sq_qsize sq)) as Eq by done.
  pose proof (Nat.mod_upper_bound (length log) (sq_ring sq) ltac:(lia)) as Hm.
  assert ((if u16 (tail sq + 1) =? sq_qsize sq then 0 else u16 (tail sq + 1)) =
    Z.of_nat (length (log ++ [sqe]) mod sq_ring sq)) as Etail.
  { rewrite length_app, Nat.add_1_r, mod_wrap by done. rewrite Ht. clear -Hm Hs Eq.
    generalize dependent (length log mod sq_ring sq)%nat. intros m Hm.
    destruct (Nat.eqb_spec (S m) (sq_ring sq)) as [E|E].
    - unfold u16. destruct (decide (sq_qsize sq = 65536)) as [E6|E6].
      + replace (Z.of_nat m + 1) with 65536 by lia. rewrite E6. done.
      + rewrite Z.mod_small by lia. rewrite (proj2 (Z.eqb_eq _ _)) by lia. done.
    - rewrite u16_small by lia. rewrite (proj2 (Z.eqb_neq _ _)) by lia. lia. }
  unfold nvme_sq_post. rewrite Etail, Ht, Nat2Z.id.
  split; try done; unfold with_tail; simpl; change (Z.to_nat (sq_qsize sq)) with (sq_ring sq); rewrite ?length_insert; try done.
  - rewrite length_app. unfold sq_ring in *. simpl in *. lia.
  - by apply prefix_app_r.
  - unfold sq_ring; simpl; fold (sq_ring sq). rewrite length_app. simpl. intros i Hi.
    destruct (decide (i = length log)) as [->|Hi'].
    + rewrite list_lookup_insert_eq by lia. by rewrite lookup_app_r, Nat.sub_diag by lia.
    + rewrite lookup_app_l by lia. rewrite <- Hpost by lia. apply list_lookup_insert_ne.
      intros E. apply Hi'. symmetry in E. apply (mod_inj (sq_ring sq)) in E; lia.
Qed.

Lemma sq_tail_spec sq log fetched rung :
  sq_inv sq log fetched rung -> sq_inv (nvme_sq_update_tail sq) log fetched (length log).
Proof.
  intros [Hs Hl [Ho1 Ho2] Ht Hpt Hd Hpre Hpost]. assert (2 <= sq_ring sq)%nat as Hq by (unfold sq_ring; lia).
  unfold nvme_sq_update_tail. rewrite Ht, Hpt.
  destruct (Z.eqb_spec (Z.of_nat (length log mod sq_ring sq)) (Z.of_nat (rung mod sq_ring sq))) as [E%Nat2Z.inj|E].
  { symmetry in E. apply mod_inj in E as ->; [|lia..]. split; try done; lia. }
  unfold nvme_try_dbbuf. destruct (db_ptr (sq_dbbuf sq) =? 0) eqn:Edb; [|destruct (negb (__nvme_need_mmio _ _ _))];
    (split; try done; [split; [lia|]; unfold sq_ring in *; simpl; lia|]; simpl; unfold seen; simpl; rewrite ?Edb; done).
Qed.

Lemma sq_fetch_spec sq log fetched rung :
  sq_inv sq log fetched rung ->
  if Z.of_nat (length fetched mod sq_ring sq) =? seen (sq_dbbuf sq) (sq_mmio sq) then length fetched = rung
  else exists sqe, sq_entries sq !! (length fetched mod sq_ring sq)%nat = Some sqe /\
    log !! length fetched = Some sqe /\ sq_inv sq log (fetched ++ [sqe]) rung.
Proof.
  intros [Hs Hl [Ho1 Ho2] Ht Hpt Hd Hpre Hpost]. assert (2 <= sq_ring sq)%nat as Hq by (unfold sq_ring; lia).
  rewrite Hd. destruct (Z.eqb_spec (Z.of_nat (length fetched mod sq_ring sq)) (Z.of_nat (rung mod sq_ring sq))) as [E%Nat2Z.inj|E].
  { apply mod_inj in E; lia. }
  assert (length fetched <> rung) by congruence.
  destruct (lookup_lt_is_Some_2 log (length fetched)) as [sqe El]; [lia|]. exists sqe.
  rewrite Hpost by lia. split; [done|]. split; [done|]. split; try done.
  - rewrite length_app. simpl. lia.
  - destruct Hpre as [k ->]. rewrite lookup_app_r, Nat.sub_diag in El by lia.
    destruct k as [|c' k]; simplify_eq/=. exists k. by rewrite <- app_assoc.
  - rewrite length_app. simpl. intros i Hi. apply Hpost. lia.
Qed.

Definition sq_reachable (sq0 : nvme_sq) (s : nvme_sq * list nvme_cmd * list nvme_cmd) : Prop :=
  rtc sq_step (sq0, [], []) s.

Lemma sq_reachable_inv sq0 sq log fetched :
  sq_fresh sq0 -> sq_reachable sq0 (sq, log, fetched) -> exists rung, sq_inv sq log fetched rung.
Proof.
  intros Hf Hr.
  apply (rtc_ind_r (R := sq_step) (fun s => exists rung, sq_inv s.1.1 s.1.2 s.2 rung) (sq0, [], [])) with (z := (sq, log, fetched));
    [eexists; by apply sq_fresh_inv| |exact Hr].
  intros s1 s2 _ Hst [rung Hinv]. destruct Hst as [s l g x Hroom|s l g|s l g x Hne Hx]; simpl in *.
  - exists rung. by apply sq_post_spec.
  - eexists. by eapply sq_tail_spec.
  - pose proof (sq_fetch_spec s l g rung Hinv) as Hs. rewrite (proj2 (Z.eqb_neq _ _) Hne) in Hs.
    destruct Hs as (y & Ey & _ & Hi). rewrite Hx in Ey. injection Ey as ->. by exists rung.
Qed.

(** C21. Commands reach the controller once, in order and unchanged.  In every
    interleaving of posting, ringing the doorbell and the controller fetching,
    the commands fetched are a prefix of those posted; and after
    [nvme_sq_update_tail] the controller, by the tail it now sees, fetches
    command after command until it has all of them. *)
Theorem submission_queue_fifo sq0 sq log fetched :
  sq_fresh sq0 -> sq_reachable sq0 (sq, log, fetched) ->
  fetched `prefix_of` log /\
  let sq' := nvme_sq_update_tail sq in
  rtc sq_step (sq', log, fetched) (sq', log, log) /\
  forall fetched', sq_step (sq', log, log) (sq', log, fetched') -> fetched' = log.
Proof.
  intros Hf Hr. destruct (sq_reachable_inv _ _ _ _ Hf Hr) as [rung Hinv].
  split; [apply (si_prefix _ _ _ _ Hinv)|]. cbv zeta. apply sq_tail_spec in Hinv.
  set (sq' := nvme_sq_update_tail sq) in *. clearbody sq'. clear Hf Hr. split.
  - pose proof (si_order _ _ _ _ Hinv) as [Ho _]. remember (length log - length fetched)%nat as k eqn:Ek.
    revert fetched Hinv Ho Ek. induction k as [|k IH]; intros fetched Hinv Ho Ek.
    + rewrite (prefix_length_eq fetched log (si_prefix _ _ _ _ Hinv)) by lia. apply rtc_refl.
    + pose proof (sq_fetch_spec sq' log fetched _ Hinv) as Hs.
      destruct (Z.eqb_spec (Z.of_nat (length fetched mod sq_ring sq')) (seen (sq_dbbuf sq') (sq_mmio sq'))) as [E|E]; [lia|].
      destruct Hs as (sqe & Ee & _ & Hinv'). eapply rtc_l; [by apply sq_fetch|].
      apply IH; [done| |]; rewrite length_app; simpl; lia.
  - intros fetched' Hst. inversion Hst as [? ? ? x|? ? ?|? ? ? x Hne Hx]; subst; [|done|].
    + by match goal with H : ?l ++ [_] = ?l |- _ =>
        apply (f_equal length) in H; rewrite length_app in H; simpl in H; lia end.
    + exfalso. apply Hne. by rewrite (si_seen _ _ _ _ Hinv).
Qed.

Definition demo_sq : nvme_sq :=
  mk_sq 1 zero_dmabuf [zero_cmd; zero_cmd] zero_dmabuf 0 0 2 1 0x1000 [] no_dbbuf [] None 0.
Definition demo_cmd (i : Z) : nvme_cmd := mk_cmd 2 0 i 1 0 0 0 (dptr_prp 0 0) 0 0 0 0 0 0.

Lemma submission_queue_fifo_witness :
  let sq := nvme_sq_post (demo_cmd 4) (nvme_sq_exec (demo_cmd 3) demo_sq) in
  [demo_cmd 3] `prefix_of` [demo_cmd 3; demo_cmd 4] /\
  let sq' := nvme_sq_update_tail sq in
  rtc sq_step (sq', [demo_cmd 3; demo_cmd 4], [demo_cmd 3]) (sq', [demo_cmd 3; demo_cmd 4], [demo_cmd 3; demo_cmd 4]).
Proof.
  intros sq. destruct (submission_queue_fifo demo_sq sq [demo_cmd 3; demo_cmd 4] [demo_cmd 3]) as [H1 [H2 _]].
  - repeat split; vm_compute; congruence.
  - unfold sq_reachable.
    eapply rtc_l; [apply (sq_post _ _ _ (demo_cmd 3)); vm_compute; lia|].
    eapply rtc_l; [apply sq_tail|].
    eapply rtc_l; [eapply (sq_fetch _ _ _ (demo_cmd 3)); [vm_compute; discriminate|vm_compute; reflexivity]|].
    eapply rtc_l; [apply (sq_post _ _ _ (demo_cmd 4)); vm_compute; lia|]. apply rtc_refl.
  - split; [exact H1|exact H2].
Defined.

(** ** Shadow doorbells *)

(** [e] lies on the way from [old] to [val] around a ring of [q] slots. *)
Definition on_the_way (q old val e : Z) : Prop := (e - old) mod q <= (val - old) mod q.

(** The decision to skip the doorbell write is exact.  For positions within
    a ring of any size up to 65536, [__nvme_need_mmio] asks for the write exactly
    if the event index lies on the way from the old position to the new one,
    ends included, though it computes modulo 65536 and not modulo the ring. *)
Theorem need_mmio_exact q eventidx val old :
  0 < q <= 65536 -> 0 <= eventidx < q -> 0 <= val < q -> 0 <= old < q ->
  __nvme_need_mmio eventidx val old = true <-> on_the_way q old val eventidx.
Proof.
  intros Hq He Hv Ho. unfold __nvme_need_mmio, on_the_way, u16. rewrite Z.leb_le.
  assert (forall m a b, 0 < m -> 0 <= a < m -> 0 <= b < m -> (a - b) mod m = if b <=? a then a - b else a - b + m) as Hmod.
  { intros m a b Hm Ha Hb. destruct (Z.leb_spec b a); symmetry.
    - apply (Z.mod_unique _ _ 0); lia.
    - apply (Z.mod_unique _ _ (-1)); lia. }
  rewrite !Hmod by lia. zcases.
Qed.

Lemma need_mmio_exact_witness : on_the_way 64 60 2 63 /\ __nvme_need_mmio 63 2 60 = true.
Proof.
  assert (on_the_way 64 60 2 63) as H.
  { apply (need_mmio_exact 64 63 2 60); [lia|lia|lia|lia|vm_compute; reflexivity]. }
  split; [exact H|]. vm_compute. reflexivity.
Defined.

(** The memory accesses of [nvme_try_dbbuf] interleaved with a controller that
    goes to sleep.  The driver loads the old value, stores the new one and,
    after the barrier, loads the event index and decides; the controller
    publishes its position as event index before it looks at the doorbell a last
    time and sleeps.  A doorbell write wakes it. *)
Inductive host_pc : Type := HIdle | HLoaded (old v : Z) | HStored (old v : Z).
Inductive device_pc : Type := DRunning | DArmed | DAsleep.

Record dbbuf_sys : Type := mk_sys {
  shadow : Z;
  event : Z;
  host : host_pc;
  device : device_pc;
  position : Z
}.

Inductive dbbuf_step : dbbuf_sys -> dbbuf_sys -> Prop :=
| host_load s v :
    host s = HIdle -> 0 <= v < 65536 ->
    dbbuf_step s (mk_sys (shadow s) (event s) (HLoaded (shadow s) v) (device s) (position s))
| host_store s old v :
    host s = HLoaded old v ->
    dbbuf_step s (mk_sys v (event s) (HStored old v) (device s) (position s))
| host_decide s old v :
    host s = HStored old v ->
    dbbuf_step s (mk_sys (shadow s) (event s) HIdle
      (if negb (__nvme_need_mmio (u16 (event s)) v (u16 old)) then device s else DRunning) (position s))
| device_catch_up s :
    device s = DRunning -> dbbuf_step s (mk_sys (shadow s) (event s) (host s) DRunning (shadow s))
| device_arm s :
    device s = DRunning -> dbbuf_step s (mk_sys (shadow s) (position s) (host s) DArmed (position s))
| device_check s :
    device s = DArmed ->
    dbbuf_step s (mk_sys (shadow s) (event s) (host s) (if shadow s =? position s then DAsleep else DRunning) (position s)).

(** The driver's three accesses in a row are [nvme_try_dbbuf]. *)
Lemma try_dbbuf_steps v db s :
  db_ptr db <> 0 -> 0 <= v < 65536 -> host s = HIdle -> shadow s = db_word db -> event s = ei_word db ->
  let '(r, db') := nvme_try_dbbuf v db in
  rtc dbbuf_step s (mk_sys (db_word db') (ei_word db') HIdle (if r =? 0 then device s else DRunning) (position s)).
Proof.
  intros Hp Hv Hh Hw He. unfold nvme_try_dbbuf. rewrite (proj2 (Z.eqb_neq _ _) Hp). cbn [ei_word db_word].
  rewrite <- Hw, <- He.
  assert (rtc dbbuf_step s (mk_sys v (event s) HIdle
    (if negb (__nvme_need_mmio (u16 (event s)) v (u16 (shadow s))) then device s else DRunning) (position s))) as Hr.
  { eapply rtc_l; [by apply (host_load s v)|]. eapply rtc_l; [by eapply host_store|]. eapply rtc_l; [by eapply host_decide|].
    apply rtc_refl. }
  destruct (negb _); exact Hr.
Qed.

Record dbbuf_inv (s : dbbuf_sys) : Prop := {
  di_range : 0 <= shadow s < 65536 /\ 0 <= position s < 65536;
  di_event : device s <> DRunning -> event s = position s;
  di_host : match host s with
            | HIdle => device s = DAsleep -> position s = shadow s
            | HLoaded old v => old = shadow s /\ 0 <= v < 65536 /\ (device s = DAsleep -> position s = shadow s)
            | HStored old v => shadow s = v /\ 0 <= old < 65536 /\
                (device s = DAsleep -> position s = shadow s \/ position s = old)
            end
}.

Lemma dbbuf_step_inv s s' : dbbuf_inv s -> dbbuf_step s s' -> dbbuf_inv s'.
Proof.
  intros [[Hr1 Hr2] He Hh] Hst. destruct Hst as [s v E Hv|s old v E|s old v E|s E|s E|s E];
    try rewrite E in Hh; split; simpl; try done.
  - destruct Hh as (-> & Hv & Hs). done.
  - destruct Hh as (-> & Hv & Hs). split; [done|]. split; [done|]. intros Ha. right. by apply Hs.
  - destruct (negb _); [done|congruence].
  - destruct Hh as (Hv & Ho & Hs). destruct (negb (__nvme_need_mmio (u16 (event s)) v (u16 old))) eqn:En; [|done].
    intros Ha. destruct (Hs Ha) as [?|Hp]; [done|]. rewrite He, Hp in En by congruence.
    apply negb_true_iff, Z.leb_gt in En. lia.
  - rewrite E in *. destruct (host s); intuition congruence.
  - rewrite E in *. destruct (host s); intuition congruence.
  - destruct (Z.eqb_spec (shadow s) (position s)); [|done]. intros _. apply He. congruence.
  - destruct (Z.eqb_spec (shadow s) (position s)); destruct (host s); intuition congruence.
Qed.

(** C22. No doorbell is lost with shadow doorbells.  In every interleaving of the
    driver's accesses with a controller that publishes its position before its
    last look at the doorbell: whenever the controller sleeps and the driver is
    between calls, the controller has already seen the latest doorbell value. *)
Theorem dbbuf_no_lost_doorbell s0 s :
  0 <= shadow s0 < 65536 -> host s0 = HIdle -> device s0 = DRunning -> 0 <= position s0 < 65536 ->
  rtc dbbuf_step s0 s -> host s = HIdle -> device s = DAsleep -> position s = shadow s.
Proof.
  intros H1 H2 H3 H4 Hr Hh Hd. assert (dbbuf_inv s) as [_ _ Hi]; [|rewrite Hh in Hi; by apply Hi].
  apply (rtc_ind_r (R := dbbuf_step) dbbuf_inv s0) with (z := s); [|intros ? ? _ ? ?; by eapply dbbuf_step_inv|done].
  split; [by split|congruence|]. rewrite H2. congruence.
Qed.

Definition demo_sys : dbbuf_sys := mk_sys 4 0 HIdle DRunning 3.

Lemma dbbuf_no_lost_doorbell_witness : 4 = shadow (mk_sys 4 4 HIdle DAsleep 4).
Proof.
  apply (dbbuf_no_lost_doorbell demo_sys (mk_sys 4 4 HIdle DAsleep 4)); try done.
  eapply rtc_l; [by apply device_catch_up|]. eapply rtc_l; [by apply device_arm|].
  eapply rtc_l; [by apply device_check|]. apply rtc_refl.
Defined.
