(* ===== verification/NvmeRq.v ===== *)
(** * NvmeRq: request trackers, include/vfn/nvme/rq.h and src/nvme/rq.c

    The free stack of a submission queue, in its plain and its compare-and-swap
    version, tying commands to trackers by command identifier, and waiting for a
    command.  A pointer to a tracker is its index in the queue's array. *)

From S2P Require Import Prelude Support Skiplist IovaAlloc VfioIova Dma NvmeTypes Prp NvmeQueue.
Local Open Scope Z_scope.
Local Open Scope vfn_scope.

(** ** The free stack *)

Definition nvme_rq_reset (rq : nvme_rq) : nvme_rq :=
  mk_rq 0 (rq_cid rq) (rq_page_vaddr rq) (rq_page_iova rq) (rq_next rq).
Definition with_next (next : option nat) (rq : nvme_rq) : nvme_rq :=
  mk_rq (opaque rq) (rq_cid rq) (rq_page_vaddr rq) (rq_page_iova rq) next.
Definition with_opaque (o : Z) (rq : nvme_rq) : nvme_rq :=
  mk_rq o (rq_cid rq) (rq_page_vaddr rq) (rq_page_iova rq) (rq_next rq).

Definition nvme_rq_release (i : nat) (sq : nvme_sq) : nvme_sq :=
  with_rqs (alter (fun rq => with_next (rq_top sq) (nvme_rq_reset rq)) i (rqs sq)) (Some i) sq.

(** [rq->rq_next]; dereferencing an index out of range ends the process. *)
Definition nvme_rq_acquire : M nvme_sq nat := fun sq =>
  match rq_top sq with
  | None => (Fail EBUSY, sq)
  | Some i =>
      match rqs sq !! i with
      | None => (Crash, sq)
      | Some rq => (Ret i, with_rqs (rqs sq) (rq_next rq) sq)
      end
  end.

(** The compare-and-swap: whether it succeeded, the new contents, and the new
    value of the variable that held the expected one. *)
Definition atomic_cmpxchg (cur expected desired : option nat) : bool * option nat * option nat :=
  if decide (cur = expected) then (true, desired, expected) else (false, cur, cur).

(** The loops of the atomic versions, run without interference ([fuel] bounds
    the attempts; the first one succeeds). *)
Fixpoint acquire_loop (fuel : nat) (rq : option nat) : M nvme_sq nat := fun sq =>
  match rq with
  | None => (Fail EBUSY, sq)
  | Some i =>
      match rqs sq !! i, fuel with
      | None, _ | _, O => (Crash, sq)
      | Some r, S fuel' =>
          let '(ok, top, expected) := atomic_cmpxchg (rq_top sq) rq (rq_next r) in
          if ok : bool then (Ret i, with_rqs (rqs sq) top sq) else acquire_loop fuel' expected sq
      end
  end.
Definition nvme_rq_acquire_atomic : M nvme_sq nat := fun sq => acquire_loop 1 (rq_top sq) sq.

Definition nvme_rq_release_atomic (i : nat) (sq : nvme_sq) : nvme_sq :=
  let rs := alter (fun rq => with_next (rq_top sq) (nvme_rq_reset rq)) i (rqs sq) in
  let '(_, top, _) := atomic_cmpxchg (rq_top sq) (rq_top sq) (Some i) in
  with_rqs rs top sq.

(** ** Commands and trackers *)

(** The address [&sq->rqs[cid]], as an index. *)
Definition __nvme_rq_from_cqe (cqe : nvme_cqe) : nat := Z.to_nat (cqe_cid cqe).

(** [sqs] are the controller's submission queues; an index out of range is an
    invalid read. *)
Definition nvme_rq_from_cqe (sqs : list nvme_sq) (cqe : nvme_cqe) : outcome nat :=
  match sqs !! Z.to_nat (sqid cqe) with
  | None => Crash
  | Some sq => if sq_qsize sq - 1 <? cqe_cid cqe then Fail EINVAL else Ret (__nvme_rq_from_cqe cqe)
  end.

Definition nvme_rq_prep_cmd (rq : nvme_rq) (cmd : nvme_cmd) : nvme_cmd :=
  mk_cmd (opcode cmd) (flags cmd) (rq_cid rq) (nsid cmd) (cdw2 cmd) (cdw3 cmd) (mptr cmd) (dptr cmd)
    (cdw10 cmd) (cdw11 cmd) (cdw12 cmd) (cdw13 cmd) (cdw14 cmd) (cdw15 cmd).

Definition nvme_rq_post (rq : nvme_rq) (cmd : nvme_cmd) (sq : nvme_sq) : nvme_sq :=
  nvme_sq_post (nvme_rq_prep_cmd rq cmd) sq.
Definition nvme_rq_exec (rq : nvme_rq) (cmd : nvme_cmd) (sq : nvme_sq) : nvme_sq :=
  nvme_sq_update_tail (nvme_rq_post rq cmd sq).

(** ** Waiting *)

Definition nvme_cqe_ok (cqe : nvme_cqe) : bool := Z.shiftr (sfp cqe) 1 =? 0.
Definition nvme_set_errno_from_cqe (cqe : nvme_cqe) : option errno :=
  if negb (Z.shiftr (sfp cqe) 1 =? 0) then Some EIO else None.

(** The outcome, the entry copied to the caller, the queue and the rest of the
    environment; [None] while the wait goes on. *)
Definition nvme_rq_wait (e : tenv) (rq : nvme_rq) (ts : option Z) (now freq : Z) (cq : nvme_cq)
    : option (outcome unit * option nvme_cqe * nvme_cq * tenv) :=
  match nvme_cq_wait_cqes e 1 ts now freq cq with
  | None => None
  | Some (n, _, cqes, cq', e') =>
      if negb (n =? 1) then Some (Fail ETIMEDOUT, None, cq', e')
      else
        let cq' := nvme_cq_update_head cq' in
        let cqe := default zero_cqe (hd_error cqes) in
        let r :=
          if negb (cqe_cid cqe =? rq_cid rq) then Fail EAGAIN
          else if negb (nvme_cqe_ok cqe) then
            match nvme_set_errno_from_cqe cqe with Some e => Fail e | None => Ret tt end
          else Ret tt in
        Some (r, Some cqe, cq', e')
  end.

(** [nvme_rq_spin]: without a deadline. *)
Definition nvme_rq_spin (e : tenv) (rq : nvme_rq) (cq : nvme_cq)
    : option (outcome unit * option nvme_cqe * nvme_cq * tenv) :=
  nvme_rq_wait e rq None 0 0 cq.

(** ** Data pointers with the tracker's page *)

Section Map.
Context {B : Type} (ctx : iommu_ctx B) (mps : Z) (ctrl_flags : Z).

(** enum nvme_ctrl_feature_flags (include/vfn/nvme/ctrl.h) *)
Definition NVME_CTRL_F_ADMINISTRATIVE : Z := Z.shiftl 1 0.
Definition NVME_CTRL_F_SGLS_SUPPORTED : Z := Z.shiftl 1 1.
Definition NVME_CTRL_F_SGLS_DWORD_ALIGNMENT : Z := Z.shiftl 1 2.

Definition dword_alignment : bool := flag_set ctrl_flags NVME_CTRL_F_SGLS_DWORD_ALIGNMENT.

Definition nvme_rq_map_prp (rq : nvme_rq) (page : list Z) (d : Z * Z) (iova len : Z)
    : outcome unit * ((Z * Z) * list Z) :=
  nvme_map_prp ctx mps (rq_page_vaddr rq) page 1 d iova len.
Definition nvme_rq_mapv_prp (rq : nvme_rq) (page : list Z) (d : Z * Z) (iov : list iovec)
    : outcome unit * ((Z * Z) * list Z) :=
  nvme_mapv_prp ctx mps (rq_page_vaddr rq) page 1 d iov.
Definition nvme_rq_mapv_iova_prp (rq : nvme_rq) (page : list Z) (d : Z * Z) (iov : list iova_vec)
    : outcome unit * ((Z * Z) * list Z) :=
  nvme_mapv_iova_prp ctx mps (rq_page_vaddr rq) page 1 d iov.
Definition nvme_rq_mapv_sgl (rq : nvme_rq) (page : list nvme_sgld) (fl : Z) (d : nvme_dptr) (iov : list iovec)
    : outcome unit * (Z * nvme_dptr * list nvme_sgld) :=
  nvme_mapv_sgl ctx mps dword_alignment page (rq_page_iova rq) fl d iov.
Definition nvme_rq_mapv_iova_sgl (rq : nvme_rq) (page : list nvme_sgld) (fl : Z) (d : nvme_dptr) (iov : list iova_vec)
    : outcome unit * (Z * nvme_dptr * list nvme_sgld) :=
  nvme_mapv_iova_sgl mps dword_alignment page (rq_page_iova rq) fl d iov.

(** Lists for the admin queue and where scatter/gather is not supported. *)
Definition nvme_rq_mapv (id : Z) (rq : nvme_rq) (page : list Z) (seg : list nvme_sgld) (fl : Z) (d : nvme_dptr)
    (prps : Z * Z) (iov : list iovec)
    : (outcome unit * ((Z * Z) * list Z)) + (outcome unit * (Z * nvme_dptr * list nvme_sgld)) :=
  if negb (flag_set ctrl_flags NVME_CTRL_F_SGLS_SUPPORTED) || (id =? 0)
  then inl (nvme_rq_mapv_prp rq page prps iov)
  else inr (nvme_rq_mapv_sgl rq seg fl d iov).
End Map.

(** ** The stack's invariant *)

(** The trackers from [top] on, by their links. *)
Fixpoint chain (rs : list nvme_rq) (top : option nat) (l : list nat) : Prop :=
  match l with
  | [] => top = None
  | i :: l' => top = Some i /\ exists rq, rs !! i = Some rq /\ chain rs (rq_next rq) l'
  end.

(** [held] are the trackers in use; every tracker has its index as identifier. *)
Record rq_inv (rs : list nvme_rq) (top : option nat) (free held : list nat) : Prop := {
  ri_chain : chain rs top free;
  ri_all : free ++ held ≡ₚ seq 0 (length rs);
  ri_cid : forall i rq, rs !! i = Some rq -> rq_cid rq = Z.of_nat i
}.

Lemma chain_alter rs top l i f : i ∉ l -> chain rs top l -> chain (alter f i rs) top l.
Proof.
  revert top. induction l as [|j l IH]; intros top Hi; [done|]. intros (-> & rq & Ej & Hc). split; [done|].
  exists rq. rewrite list_lookup_alter_ne by set_solver. split; [done|]. apply IH; [set_solver|done].
Qed.

Lemma rq_inv_nodup rs top free held : rq_inv rs top free held -> NoDup (free ++ held).
Proof. intros [_ Ha _]. rewrite Ha. apply NoDup_seq. Qed.

Lemma rq_inv_lt rs top free held i : rq_inv rs top free held -> i ∈ free ++ held -> (i < length rs)%nat.
Proof. intros [_ Ha _]. rewrite Ha, elem_of_seq. lia. Qed.

Lemma acquire_spec sq free held :
  rq_inv (rqs sq) (rq_top sq) free held ->
  match nvme_rq_acquire sq with
  | (Ret i, sq') => exists free', free = i :: free' /\ rqs sq' = rqs sq /\ rq_inv (rqs sq') (rq_top sq') free' (i :: held)
  | (Fail e, sq') => e = EBUSY /\ sq' = sq /\ free = []
  | (Crash, _) => False
  end.
Proof.
  intros [Hc Ha Hcid]. unfold nvme_rq_acquire. destruct free as [|i free]; [simpl in Hc; by rewrite Hc|].
  destruct Hc as (Et & rq & Er & Hc). rewrite Et, Er. exists free. split; [done|]. split; [done|]. split; [done| |done].
  simpl. rewrite <- Ha. simpl. apply Permutation_sym, Permutation_middle.
Qed.

Lemma release_rqs_inv rs top free held1 held2 i :
  rq_inv rs top free (held1 ++ i :: held2) ->
  rq_inv (alter (fun rq => with_next top (nvme_rq_reset rq)) i rs) (Some i) (i :: free) (held1 ++ held2).
Proof.
  intros Hinv. pose proof (rq_inv_nodup _ _ _ _ Hinv) as Hnd.
  assert (i < length rs)%nat as Hlt by (eapply rq_inv_lt; [done|set_solver]). destruct Hinv as [Hc Ha Hcid].
  apply lookup_lt_is_Some in Hlt as [rq Er]. split.
  - simpl. split; [done|]. eexists. rewrite list_lookup_alter_eq, Er. split; [done|]. simpl. apply chain_alter; [|done].
    apply NoDup_app in Hnd as (_ & Hd & _). intros Hi. apply (Hd i Hi). set_solver.
  - rewrite length_alter, <- Ha. simpl. rewrite app_assoc, Permutation_middle. by rewrite <- app_assoc.
  - intros j r. destruct (decide (i = j)) as [<-|Hne].
    + rewrite list_lookup_alter_eq, Er. simpl. intros [= <-]. simpl. by apply Hcid.
    + rewrite list_lookup_alter_ne by done. apply Hcid.
Qed.

(** ** Use of the stack by one thread *)

Inductive rq_step : nvme_sq * list nat -> nvme_sq * list nat -> Prop :=
| step_acquire sq held i sq' :
    nvme_rq_acquire sq = (Ret i, sq') -> rq_step (sq, held) (sq', i :: held)
| step_release sq held1 i held2 :
    rq_step (sq, held1 ++ i :: held2) (nvme_rq_release i sq, held1 ++ held2).

(** A new queue: all trackers are free, tracker [i] has identifier [i]. *)
Definition rqs_fresh (sq : nvme_sq) : Prop :=
  (exists free, rq_inv (rqs sq) (rq_top sq) free []) /\ Z.of_nat (length (rqs sq)) = sq_qsize sq - 1.

Lemma rq_step_inv sq0 sq held :
  rqs_fresh sq0 -> rtc rq_step (sq0, []) (sq, held) ->
  (exists free, rq_inv (rqs sq) (rq_top sq) free held) /\ Z.of_nat (length (rqs sq)) = sq_qsize sq - 1.
Proof.
  intros Hf Hr.
  apply (rtc_ind_r (R := rq_step) (fun s => (exists free, rq_inv (rqs s.1) (rq_top s.1) free s.2) /\
    Z.of_nat (length (rqs s.1)) = sq_qsize s.1 - 1) (sq0, [])) with (z := (sq, held)); [done| |done].
  intros s1 s2 _ Hst [[free Hinv] Hl]. destruct Hst as [s h i s' E|s h1 i h2]; simpl in *.
  - pose proof (acquire_spec s free h Hinv) as Hs. rewrite E in Hs. destruct Hs as (free' & -> & Er & Hinv').
    split; [eauto|]. rewrite Er, Hl. unfold nvme_rq_acquire in E.
    destruct (rq_top s); [|done]. destruct (rqs s !! n); [|done]. by injection E as _ <-.
  - split; [|by rewrite length_alter]. eexists. simpl. by apply release_rqs_inv.
Qed.

Lemma held_lookup rs top free held i : rq_inv rs top free held -> i ∈ held -> exists rq, rs !! i = Some rq /\ rq_cid rq = Z.of_nat i.
Proof.
  intros Hinv Hi. assert (i < length rs)%nat as [rq Er]%lookup_lt_is_Some by (eapply rq_inv_lt; [done|set_solver]).
  exists rq. split; [done|]. by apply (ri_cid _ _ _ _ Hinv).
Qed.

(** C25. Trackers and command identifiers.  In every sequence of acquisitions and
    releases of a queue: the trackers in use are distinct and so are their
    command identifiers; a completion that carries the identifier of one of them
    leads back to it; at most one command less than the queue's size is under
    way; and [nvme_rq_acquire] fails, with [EBUSY], only when that many are. *)
Theorem rq_identifiers_unique sq0 sq held sqs n :
  rqs_fresh sq0 -> rtc rq_step (sq0, []) (sq, held) -> sqs !! n = Some sq ->
  NoDup held /\ Z.of_nat (length held) <= sq_qsize sq - 1 /\
  (forall i, i ∈ held -> exists rq, rqs sq !! i = Some rq /\ forall cqe, cqe_cid cqe = rq_cid rq -> sqid cqe = Z.of_nat n ->
     nvme_rq_from_cqe sqs cqe = Ret i) /\
  match nvme_rq_acquire sq with
  | (Ret i, sq') => (i ∉ held) /\ rtc rq_step (sq0, []) (sq', i :: held)
  | (Fail e, sq') => e = EBUSY /\ sq' = sq /\ Z.of_nat (length held) = sq_qsize sq - 1
  | (Crash, _) => False
  end.
Proof.
  intros Hf Hr Hsq. destruct (rq_step_inv sq0 sq held Hf Hr) as [[free Hinv] Hl].
  pose proof (rq_inv_nodup _ _ _ _ Hinv) as Hnd. apply NoDup_app in Hnd as (_ & Hd & Hnd).
  assert (length free + length held = length (rqs sq))%nat as Hlen.
  { rewrite <- length_app, (ri_all _ _ _ _ Hinv). apply length_seq. }
  split; [done|]. split; [lia|]. split.
  - intros i Hi. destruct (held_lookup _ _ _ _ i Hinv Hi) as (rq & Er & Ec). exists rq. split; [done|].
    intros cqe E1 E2. unfold nvme_rq_from_cqe, __nvme_rq_from_cqe. rewrite E2, Nat2Z.id, Hsq, E1, Ec, Nat2Z.id.
    rewrite (proj2 (Z.ltb_ge _ _)); [done|]. apply lookup_lt_Some in Er. lia.
  - pose proof (acquire_spec sq free held Hinv) as Ha. destruct (nvme_rq_acquire sq) as [[i|e|] sq'] eqn:E; [| |done].
    + destruct Ha as (free' & -> & _). split; [apply Hd; set_solver|]. eapply rtc_r; [done|]. by constructor.
    + destruct Ha as (-> & -> & ->). simpl in Hlen. split; [done|]. split; [done|]. lia.
Qed.

(** A queue of four entries has three trackers. *)
Definition demo_rqs : list nvme_rq :=
  [mk_rq 0 0 0x7f0000 0x10000 None; mk_rq 0 1 0x7f1000 0x11000 (Some 0%nat); mk_rq 0 2 0x7f2000 0x12000 (Some 1%nat)].
Definition demo_rq_sq : nvme_sq :=
  mk_sq 1 zero_dmabuf (replicate 4 zero_cmd) zero_dmabuf 0 0 4 1 0x1000 [] no_dbbuf demo_rqs (Some 2%nat) 0.

Lemma demo_rqs_inv : rq_inv demo_rqs (Some 2%nat) [2; 1; 0]%nat [].
Proof.
  split.
  - repeat (split; [done|eexists; split; [done|]]). done.
  - simpl. change (seq 0 3) with [0; 1; 2]%nat.
    apply (Permutation_trans (l' := [1; 0; 2]%nat)); [|by constructor].
    apply (Permutation_trans (l' := [1; 2; 0]%nat)); repeat constructor.
  - intros [|[|[|]]] rq; intros [= <-]; done.
Qed.

Lemma rq_identifiers_unique_witness :
  let sq1 := snd (nvme_rq_acquire demo_rq_sq) in
  let sq2 := snd (nvme_rq_acquire sq1) in
  NoDup [1; 2]%nat /\ nvme_rq_from_cqe [zero_sq; sq2] (demo_cqe 2 1) = Ret 2%nat.
Proof.
  intros sq1 sq2. destruct (rq_identifiers_unique demo_rq_sq sq2 [1; 2]%nat [zero_sq; sq2] 1) as (H1 & _ & H2 & _).
  - split; [|done]. exists [2; 1; 0]%nat. exact demo_rqs_inv.
  - eapply rtc_l; [by apply (step_acquire demo_rq_sq [] 2 sq1)|].
    eapply rtc_l; [by apply (step_acquire sq1 [2%nat] 1 sq2)|]. apply rtc_refl.
  - done.
  - split; [exact H1|]. destruct (H2 2%nat) as (rq & Er & Hf); [set_solver|]. vm_compute in Er. injection Er as <-.
    by apply Hf.
Defined.

(** Without interference the atomic versions are the plain ones. *)
Lemma acquire_atomic_plain sq : nvme_rq_acquire_atomic sq = nvme_rq_acquire sq.
Proof.
  unfold nvme_rq_acquire_atomic, nvme_rq_acquire. destruct (rq_top sq) as [i|] eqn:E; simpl; [|done].
  destruct (rqs sq !! i); [|done]. rewrite E. unfold atomic_cmpxchg. by rewrite decide_True.
Qed.

Lemma release_atomic_plain i sq : nvme_rq_release_atomic i sq = nvme_rq_release i sq.
Proof. unfold nvme_rq_release_atomic, atomic_cmpxchg. by rewrite decide_True. Qed.

(** The bound of [nvme_rq_from_cqe] admits one identifier too many. *)
Lemma rq_from_cqe_off_by_one :
  nvme_rq_from_cqe [zero_sq; demo_rq_sq] (demo_cqe 3 1) = Ret 3%nat /\ rqs demo_rq_sq !! 3%nat = None.
Proof. done. Qed.

(** ** Concurrent use

    The atomic accesses of the loops, interleaved.  An acquirer loads the top,
    reads the link of that tracker, and swaps; a release writes the link of the
    tracker it owns and swaps. *)
Inductive acquire_pc : Type :=
| AIdle
| ALoaded (rq : option nat)
| ANext (rq : nat) (next : option nat).

Record stack_sys : Type := mk_stack {
  st_rqs : list nvme_rq;
  st_top : option nat;
  st_acq : list acquire_pc;
  st_held : list nat;
  st_rel : list nat
}.

Definition next_of (rs : list nvme_rq) (i : nat) : option nat := rs !! i ≫= rq_next.

Inductive stack_step : stack_sys -> stack_sys -> Prop :=
| acq_load s t :
    st_acq s !! t = Some AIdle ->
    stack_step s (mk_stack (st_rqs s) (st_top s) (<[t := ALoaded (st_top s)]> (st_acq s)) (st_held s) (st_rel s))
| acq_busy s t :
    st_acq s !! t = Some (ALoaded None) ->
    stack_step s (mk_stack (st_rqs s) (st_top s) (<[t := AIdle]> (st_acq s)) (st_held s) (st_rel s))
| acq_link s t i :
    st_acq s !! t = Some (ALoaded (Some i)) ->
    stack_step s (mk_stack (st_rqs s) (st_top s) (<[t := ANext i (next_of (st_rqs s) i)]> (st_acq s)) (st_held s) (st_rel s))
| acq_swap s t i next ok top expected :
    st_acq s !! t = Some (ANext i next) -> atomic_cmpxchg (st_top s) (Some i) next = (ok, top, expected) ->
    stack_step s (mk_stack (st_rqs s) top (<[t := if ok : bool then AIdle else ALoaded expected]> (st_acq s))
      (if ok : bool then i :: st_held s else st_held s) (st_rel s))
| rel_link s held1 i held2 :
    st_held s = held1 ++ i :: held2 ->
    stack_step s (mk_stack (alter (fun rq => with_next (st_top s) (nvme_rq_reset rq)) i (st_rqs s)) (st_top s)
      (st_acq s) (held1 ++ held2) (i :: st_rel s))
| rel_swap s rel1 i rel2 ok top expected :
    st_rel s = rel1 ++ i :: rel2 -> atomic_cmpxchg (st_top s) (next_of (st_rqs s) i) (Some i) = (ok, top, expected) ->
    stack_step s (mk_stack (alter (with_next expected) i (st_rqs s)) top (st_acq s) (st_held s)
      (if ok : bool then rel1 ++ rel2 else st_rel s)).

(** The trackers are free, held or being released, each exactly one of them. *)
Record stack_inv (s : stack_sys) (free : list nat) : Prop := {
  si_chain : chain (st_rqs s) (st_top s) free;
  si_all : free ++ st_held s ++ st_rel s ≡ₚ seq 0 (length (st_rqs s))
}.

(** What the only acquirer has read is still true. *)
Definition acq_inv (s : stack_sys) (free : list nat) (pc : acquire_pc) : Prop :=
  match pc with
  | AIdle | ALoaded None => True
  | ALoaded (Some i) => i ∈ free
  | ANext i next => i ∈ free /\ next_of (st_rqs s) i = next
  end.

Lemma stack_inv_nodup s free : stack_inv s free -> NoDup (free ++ st_held s ++ st_rel s).
Proof. intros [_ Ha]. rewrite Ha. apply NoDup_seq. Qed.

Lemma next_of_alter_ne rs i j f : i <> j -> next_of (alter f i rs) j = next_of rs j.
Proof. intros H. unfold next_of. by rewrite list_lookup_alter_ne. Qed.

Lemma acq_inv_alter s free pc i f held rel :
  i ∉ free -> acq_inv s free pc -> acq_inv (mk_stack (alter f i (st_rqs s)) (st_top s) (st_acq s) held rel) free pc.
Proof.
  intros Hi. destruct pc as [|[j|]|j next]; simpl; try done. intros [Hj <-]. split; [done|].
  apply next_of_alter_ne. set_solver.
Qed.

Lemma chain_next rs top l i l' : chain rs top l -> l = i :: l' -> top = Some i /\ chain rs (next_of rs i) l'.
Proof. intros Hc ->. destruct Hc as (-> & rq & Er & Hc). unfold next_of. by rewrite Er. Qed.

Lemma with_next_same rs i x : next_of rs i = x -> alter (with_next x) i rs = rs.
Proof.
  intros <-. apply list_eq. intros j. destruct (decide (i = j)) as [<-|Hne].
  - rewrite list_lookup_alter_eq. unfold next_of. destruct (rs !! i) as [[]|]; done.
  - by rewrite list_lookup_alter_ne.
Qed.

Lemma stack_step_inv s s' free pc :
  stack_inv s free -> st_acq s = [pc] -> acq_inv s free pc -> stack_step s s' ->
  exists free' pc', stack_inv s' free' /\ st_acq s' = [pc'] /\ acq_inv s' free' pc'.
Proof.
  intros Hinv Epc Hacq Hst. pose proof (stack_inv_nodup _ _ Hinv) as Hnd. destruct Hinv as [Hc Ha].
  assert (forall t pc', st_acq s !! t = Some pc' -> pc' = pc /\ forall x, <[t := x]> (st_acq s) = [x]) as Hone.
  { rewrite Epc. intros [|t] pc' E; [|by destruct t]. injection E as ->. done. }
  destruct Hst as [s t E|s t E|s t i E|s t i next ok top expected E Ex|s h1 i h2 E|s r1 i r2 ok top expected E Ex].
  - apply Hone in E as [<- Ei]. exists free, (ALoaded (st_top s)). split; [by split|]. split; [apply Ei|].
    destruct free as [|j free]; simpl in *; [by rewrite Hc|]. destruct Hc as (-> & _). set_solver.
  - apply Hone in E as [<- Ei]. exists free, AIdle. split; [by split|]. split; [apply Ei|done].
  - apply Hone in E as [<- Ei]. eexists free, _. split; [by split|]. split; [apply Ei|done].
  - apply Hone in E as [<- Ei]. destruct Hacq as [Hi Hn]. unfold atomic_cmpxchg in Ex. case_decide as Et; simplify_eq.
    + destruct free as [|j free]; [set_solver|]. destruct (chain_next _ _ _ _ _ Hc eq_refl) as [Ej Hc'].
      rewrite Et in Ej. injection Ej as <-. exists free, AIdle. split; [|split; [apply Ei|done]]. split; [done|].
      simpl. rewrite <- Ha. simpl. apply Permutation_sym, Permutation_middle.
    + exists free, (ALoaded (st_top s)). split; [by split|]. split; [apply Ei|].
      destruct free as [|j free]; simpl in *; [by rewrite Hc|]. destruct Hc as (-> & _). set_solver.
  - rewrite E in *. apply NoDup_app in Hnd as (_ & Hd & _).
    assert (i ∉ free) as Hni by (intros Hi; apply (Hd i Hi); set_solver).
    exists free, pc. split; [|split; [done|by apply acq_inv_alter]]. split; simpl.
    + by apply chain_alter.
    + rewrite length_alter, <- Ha. f_equiv. rewrite <- !app_assoc. f_equiv. simpl. apply Permutation_sym, Permutation_middle.
  - rewrite E in *. apply NoDup_app in Hnd as (_ & Hd & _).
    assert (i ∉ free) as Hni by (intros Hi; apply (Hd i Hi); set_solver).
    assert (i < length (st_rqs s))%nat as [rq Er]%lookup_lt_is_Some.
    { assert (i ∈ seq 0 (length (st_rqs s))) as Hs by (rewrite <- Ha; set_solver). apply elem_of_seq in Hs. lia. }
    unfold atomic_cmpxchg in Ex. case_decide as Et; simplify_eq.
    + rewrite with_next_same by done. exists (i :: free), pc. split; [split; simpl|split; [done|]].
      * split; [done|]. exists rq. split; [done|]. unfold next_of in Et. rewrite Er in Et. simpl in Et. by rewrite <- Et.
      * rewrite <- Ha. rewrite !app_assoc. rewrite <- Permutation_middle. done.
      * destruct pc as [|[j|]|j next]; simpl in *; set_solver.
    + exists free, pc. split; [|split; [done|by apply acq_inv_alter]]. split; simpl.
      * by apply chain_alter.
      * by rewrite length_alter, <- Ha.
Qed.

(** C26. The lock-free stack is safe with one acquiring thread.  In every
    interleaving of one thread acquiring and any number of threads releasing,
    no tracker is ever in two places: free, in use, or being released; none is
    lost. *)
Theorem atomic_stack_single_acquirer s0 s free0 :
  stack_inv s0 free0 -> st_acq s0 = [AIdle] -> rtc stack_step s0 s ->
  exists free, chain (st_rqs s) (st_top s) free /\ NoDup (free ++ st_held s ++ st_rel s) /\
    free ++ st_held s ++ st_rel s ≡ₚ seq 0 (length (st_rqs s)).
Proof.
  intros Hinv Hacq Hr.
  assert (exists free pc, stack_inv s free /\ st_acq s = [pc] /\ acq_inv s free pc) as (free & pc & Hs & _).
  { apply (rtc_ind_r (R := stack_step) (fun s => exists free pc, stack_inv s free /\ st_acq s = [pc] /\ acq_inv s free pc) s0)
      with (z := s); [by exists free0, AIdle| |done].
    intros s1 s2 _ Hst (free & pc & H1 & H2 & H3). by eapply stack_step_inv. }
  exists free. split; [apply Hs|]. split; [by apply stack_inv_nodup|apply Hs].
Qed.

Definition demo_stack (acqs : list acquire_pc) : stack_sys := mk_stack demo_rqs (Some 2%nat) acqs [] [].

Lemma demo_stack_inv acqs : stack_inv (demo_stack acqs) [2; 1; 0]%nat.
Proof. destruct demo_rqs_inv as [Hc Ha _]. split; [exact Hc|exact Ha]. Qed.

Lemma atomic_stack_single_acquirer_witness :
  exists free, chain demo_rqs (Some 1%nat) free /\ NoDup (free ++ [2%nat] ++ []) /\
    free ++ [2%nat] ++ [] ≡ₚ seq 0 3.
Proof.
  apply (atomic_stack_single_acquirer (demo_stack [AIdle]) (mk_stack demo_rqs (Some 1%nat) [AIdle] [2%nat] []) [2; 1; 0]%nat);
    [apply demo_stack_inv|done|].
  eapply rtc_l; [by apply (acq_load _ 0)|]. eapply rtc_l; [by apply (acq_link _ 0 2)|].
  eapply rtc_l; [by apply (acq_swap _ 0 2 (Some 1%nat) true (Some 1%nat) (Some 2%nat))|]. apply rtc_refl.
Defined.

(** One step of a concrete execution. *)
Tactic Notation "stack_run" uconstr(step) :=
  eapply rtc_l; [eapply step; vm_compute; reflexivity|]; cbv.

(** With two acquiring threads the swap can succeed on a stale link: a thread
    that has read the link of the top is overtaken by one that takes the top and
    the next tracker and returns the first; the stale swap then makes a tracker
    in use the top of the free stack. *)
Lemma two_acquirers_share_tracker :
  exists s, rtc stack_step (demo_stack [AIdle; AIdle]) s /\ st_top s = Some 1%nat /\ 1%nat ∈ st_held s.
Proof.
  eexists. split.
  - stack_run (acq_load _ 0). stack_run (acq_link _ 0 2).
    stack_run (acq_load _ 1). stack_run (acq_link _ 1 2).
    stack_run (acq_swap _ 1 2 (Some 1%nat) true (Some 1%nat) (Some 2%nat)).
    stack_run (acq_load _ 1). stack_run (acq_link _ 1 1).
    stack_run (acq_swap _ 1 1 (Some 0%nat) true (Some 0%nat) (Some 1%nat)).
    stack_run (rel_link _ [1%nat] 2 []).
    stack_run (rel_swap _ [] 2 [] true (Some 2%nat) (Some 0%nat)).
    stack_run (acq_swap _ 0 2 (Some 1%nat) true (Some 1%nat) (Some 2%nat)). apply rtc_refl.
  - split; [done|]. simpl. set_solver.
Qed.
