(* ===== verification/OwnTests.v ===== *)
(** * OwnTests: the repository's unit tests, run in the model

    src/nvme/rq_test.c, src/util/skiplist_test.c and src/support/ticks_test.c,
    with the stand-ins they define for the library: every test passes, on the
    definitions the other files reason about, and the programs end with the exit
    status 0 of [Tap]. *)

From Stdlib Require String.
From S2P Require Import Prelude Support Skiplist CcanList SkiplistMem IovaAlloc VfioIova Dma CStr OptHelpers Opt.
From S2P Require Import NvmeTypes Prp NvmeQueue NvmeRq Tap.
Local Open Scope Z_scope.
Local Open Scope vfn_scope.

(** ** src/nvme/rq_test.c *)

Module RqTest.
(** The stand-in for [iommu_translate_vaddr] is the identity, as is this context
    on the addresses of the test. *)
Definition id_ctx : iommu_ctx Z := snd (iommu_map_vaddr bump_ops 0x1000 0x7fffffffe000 (Some 0x1000) IOMMU_MAP_FIXED_IOVA 0 bump_ctx).

(** Where [pgmap] puts the list pages. *)
Definition page_iova : Z := 0x7f1000000000.
Definition lists_iova : Z := 0x7f2000000000.
Definition rq : nvme_rq := mk_rq 0 0 page_iova page_iova None.

(** The harness, the data pointer of the command in its two forms, the page of the
    tracker as list entries and as descriptors, and the two pages. *)
Record state : Type := mk_state {
  harness : tap;
  prps : Z * Z;
  sgl : nvme_dptr;
  prplist : list Z;
  sglds : list nvme_sgld;
  mprplists : list Z
}.

Definition on_tap {A} (m : M tap A) : M state A := fun s =>
  let '(r, t) := m (harness s) in (r, mk_state t (prps s) (sgl s) (prplist s) (sglds s) (mprplists s)).

(** The conditions of the tests, whose text is left out; a vector is the part of [iov] or [iovav] a call
    covers, with what earlier tests left in it. *)
Inductive condition : Type :=
| MapPrp (iova len expect : Z)
| MapvPrp (iov : list (Z * Z)) (expect : Z)
| MapvIovaPrp (iov : list (Z * Z)) (expect : Z)
| MapLists (iova len expect : Z)
| MapvLists (iov : list (Z * Z)) (expect : Z)
| MapvSgl (iov : list (Z * Z)) (expect : Z)
| MapvIovaSgl (iov : list (Z * Z)) (expect : Z)
| Prp1 (v : Z)
| Prp2 (v : Z)
| Entry (i v : Z)
| ListEntry (i v : Z)
| SglAddr (v : Z)
| SglLen (v : Z)
| SglType (v : Z)
| SegAddr (i v : Z).

Inductive test_step : Type := Memset | MemsetLists | MemsetSgl | Ok1 (line : Z) (c : condition).

Definition vec (l : list (Z * Z)) : list iovec := (fun x => mk_iovec x.1 x.2) <$> l.
Definition ivec (l : list (Z * Z)) : list iova_vec := (fun x => mk_iova_vec x.1 x.2) <$> l.

(** The value a C function returns. *)
Definition returns (r : outcome unit) (v : Z) : outcome bool :=
  match r with Ret _ => Ret (v =? 0) | Fail _ => Ret (v =? -1) | Crash => Crash end.

Definition with_lists (r : outcome unit * ((Z * Z) * list Z)) (expect : Z) (s : state) : outcome bool * state :=
  let '(o, (d, page)) := r in (returns o expect, mk_state (harness s) d (sgl s) page (sglds s) (mprplists s)).
Definition with_two (r : outcome unit * ((Z * Z) * list Z)) (expect : Z) (s : state) : outcome bool * state :=
  let '(o, (d, pages)) := r in (returns o expect, mk_state (harness s) d (sgl s) (prplist s) (sglds s) pages).
Definition with_sgl (r : outcome unit * (Z * nvme_dptr * list nvme_sgld)) (expect : Z) (s : state) : outcome bool * state :=
  let '(o, (_, d, seg)) := r in (returns o expect, mk_state (harness s) (prps s) d (prplist s) seg (mprplists s)).

Definition evaluate (c : condition) : M state bool := fun s =>
  let check (b : bool) := (Ret b, s) in
  let entry (l : list Z) i v := check (default 0 (l !! Z.to_nat i) =? v) in
  match c with
  | MapPrp iova len e => with_lists (nvme_rq_map_prp id_ctx 0 rq (prplist s) (prps s) iova len) e s
  | MapvPrp iov e => with_lists (nvme_rq_mapv_prp id_ctx 0 rq (prplist s) (prps s) (vec iov)) e s
  | MapvIovaPrp iov e => with_lists (nvme_rq_mapv_iova_prp id_ctx 0 rq (prplist s) (prps s) (ivec iov)) e s
  | MapLists iova len e => with_two (nvme_map_prp id_ctx 0 lists_iova (mprplists s) 2 (prps s) iova len) e s
  | MapvLists iov e => with_two (nvme_mapv_prp id_ctx 0 lists_iova (mprplists s) 2 (prps s) (vec iov)) e s
  | MapvSgl iov e => with_sgl (nvme_rq_mapv_sgl id_ctx 0 0 rq (sglds s) 0 (sgl s) (vec iov)) e s
  | MapvIovaSgl iov e => with_sgl (nvme_rq_mapv_iova_sgl 0 0 rq (sglds s) 0 (sgl s) (ivec iov)) e s
  | Prp1 v => check ((prps s).1 =? v)
  | Prp2 v => check ((prps s).2 =? v)
  | Entry i v => entry (prplist s) i v
  | ListEntry i v => entry (mprplists s) i v
  | SglAddr v => check (match sgl s with dptr_sgl d => sg_addr d =? v | _ => false end)
  | SglLen v => check (match sgl s with dptr_sgl d => sg_len d =? v | _ => false end)
  | SglType v => check (match sgl s with dptr_sgl d => sg_type d =? v | _ => false end)
  | SegAddr i v => check (sg_addr (default zero_sgld (sglds s !! Z.to_nat i)) =? v)
  end.

Definition run_step (x : test_step) : M state unit :=
  match x with
  | Memset => modify (fun s => mk_state (harness s) (prps s) (sgl s) (replicate 512 0) (sglds s) (mprplists s))
  | MemsetLists => modify (fun s => mk_state (harness s) (prps s) (sgl s) (prplist s) (sglds s) (replicate 1024 0))
  | MemsetSgl => modify (fun s => mk_state (harness s) (prps s) (sgl s) (prplist s) (replicate 256 zero_sgld) (mprplists s))
  | Ok1 line c =>
      let* b := evaluate c in
      do* on_tap (_gen_result None b (lit "main") (lit "rq_test.c") line (Some (Some (lit "condition")))) in
      ret tt
  end.
Fixpoint run_steps (l : list test_step) : M state unit :=
  match l with [] => ret tt | x :: l => do* run_step x in run_steps l end.

Definition map_prp_tests : list test_step := [
  Memset; Ok1 88 (MapPrp 0x1000000 0x200 0); Ok1 90 (Prp1 0x1000000); Ok1 91 (Prp2 0x0);
  Memset; Ok1 95 (MapPrp 0x1000000 0x1000 0); Ok1 97 (Prp1 0x1000000); Ok1 98 (Prp2 0x0);
  Memset; Ok1 102 (MapPrp 0x1000000 0x1008 0); Ok1 104 (Prp1 0x1000000); Ok1 105 (Prp2 0x1001000);
  Memset; Ok1 109 (MapPrp 0x1000000 0x2000 0); Ok1 111 (Prp1 0x1000000); Ok1 112 (Prp2 0x1001000);
  Memset; Ok1 116 (MapPrp 0x1000000 0x2010 0); Ok1 118 (Prp1 0x1000000); Ok1 119 (Prp2 page_iova);
    Ok1 120 (Entry 0 0x1001000); Ok1 121 (Entry 1 0x1002000);
  Memset; Ok1 125 (MapPrp 0x1000000 0x3000 0); Ok1 127 (Prp1 0x1000000); Ok1 128 (Prp2 page_iova);
    Ok1 129 (Entry 0 0x1001000); Ok1 130 (Entry 1 0x1002000);
  Memset; Ok1 134 (MapPrp 0x1000000 0x3018 0); Ok1 136 (Prp1 0x1000000); Ok1 137 (Prp2 page_iova);
    Ok1 138 (Entry 0 0x1001000); Ok1 139 (Entry 1 0x1002000);
  Memset; Ok1 143 (MapPrp 0x1000004 0x200 0); Ok1 145 (Prp1 0x1000004); Ok1 146 (Prp2 0x0);
  Memset; Ok1 150 (MapPrp 0x1000ffc 0x200 0); Ok1 152 (Prp1 0x1000ffc); Ok1 153 (Prp2 0x1001000);
  Memset; Ok1 157 (MapPrp 0x1000004 0x1000 0); Ok1 159 (Prp1 0x1000004); Ok1 160 (Prp2 0x1001000);
  Memset; Ok1 164 (MapPrp 0x1000004 0x1008 0); Ok1 166 (Prp1 0x1000004); Ok1 167 (Prp2 0x1001000);
  Memset; Ok1 171 (MapPrp 0x1000ffc 0x1008 0); Ok1 173 (Prp1 0x1000ffc); Ok1 174 (Prp2 page_iova);
    Ok1 175 (Entry 0 0x1001000); Ok1 176 (Entry 1 0x1002000);
  Memset; Ok1 180 (MapPrp 0x1000004 0xffc 0); Ok1 182 (Prp1 0x1000004); Ok1 183 (Prp2 0x0);
  Memset; Ok1 187 (MapPrp 0x1000004 0x2000 0); Ok1 189 (Prp1 0x1000004); Ok1 190 (Prp2 page_iova);
    Ok1 191 (Entry 0 0x1001000); Ok1 192 (Entry 1 0x1002000);
  Memset; Ok1 196 (MapPrp 0x1000004 0x2010 0); Ok1 198 (Prp1 0x1000004); Ok1 199 (Prp2 page_iova);
    Ok1 200 (Entry 0 0x1001000); Ok1 201 (Entry 1 0x1002000);
  Memset; Ok1 205 (MapPrp 0x1000004 0x1ffc 0); Ok1 207 (Prp1 0x1000004); Ok1 208 (Prp2 0x1001000);
  Memset; Ok1 212 (MapPrp 0x1000004 0x3000 0); Ok1 214 (Prp1 0x1000004); Ok1 215 (Prp2 page_iova);
    Ok1 216 (Entry 0 0x1001000); Ok1 217 (Entry 1 0x1002000); Ok1 218 (Entry 2 0x1003000);
  Memset; Ok1 222 (MapPrp 0x1000004 0x3018 0); Ok1 224 (Prp1 0x1000004); Ok1 225 (Prp2 page_iova);
    Ok1 226 (Entry 0 0x1001000); Ok1 227 (Entry 1 0x1002000); Ok1 228 (Entry 2 0x1003000)
].
Definition mapv_prp_tests : list test_step := [
  Memset; Ok1 233 (MapvPrp [(0x1000000, 0x200)] 0); Ok1 235 (Prp1 0x1000000); Ok1 236 (Prp2 0x0);
  Memset; Ok1 241 (MapvPrp [(0x1000000, 0x1000)] 0); Ok1 243 (Prp1 0x1000000); Ok1 244 (Prp2 0x0);
  Memset; Ok1 249 (MapvPrp [(0x1000000, 0x2000)] 0); Ok1 251 (Prp1 0x1000000); Ok1 252 (Prp2 0x1001000);
  Memset; Ok1 257 (MapvPrp [(0x1000000, 0x3000)] 0); Ok1 259 (Prp1 0x1000000); Ok1 260 (Prp2 page_iova);
    Ok1 261 (Entry 0 0x1001000); Ok1 262 (Entry 1 0x1002000);
  Memset; Ok1 268 (MapvPrp [(0x1000000, 0x1000); (0x1001000, 0x1000)] 0); Ok1 270 (Prp1 0x1000000); Ok1 271 (Prp2 0x1001000);
  Memset; Ok1 278 (MapvPrp [(0x1000000, 0x1000); (0x1001000, 0x1000); (0x1002000, 0x1000)] 0); Ok1 280 (Prp1 0x1000000);
    Ok1 281 (Prp2 page_iova); Ok1 282 (Entry 0 0x1001000); Ok1 283 (Entry 1 0x1002000);
  Memset; Ok1 289 (MapvPrp [(0x1000000, 0x1000); (0x1001000, 0x2000); (0x1002000, 0x1000)] 0); Ok1 291 (Prp1 0x1000000);
    Ok1 292 (Prp2 page_iova); Ok1 293 (Entry 0 0x1001000); Ok1 294 (Entry 1 0x1002000);
  Memset; Ok1 299 (MapvPrp [(0x1000004, 0x200)] 0); Ok1 301 (Prp1 0x1000004); Ok1 302 (Prp2 0x0);
  Memset; Ok1 307 (MapvPrp [(0x1000004, 0x1000)] 0); Ok1 309 (Prp1 0x1000004); Ok1 310 (Prp2 0x1001000);
  Memset; Ok1 316 (MapvPrp [(0x1000004, 0xffc); (0x1001000, 0x1000)] 0); Ok1 318 (Prp1 0x1000004); Ok1 319 (Prp2 0x1001000);
  Memset; Ok1 326 (MapvPrp [(0x1000004, 0xffc); (0x1001000, 0x1000); (0x1002000, 0x1000)] 0); Ok1 328 (Prp1 0x1000004);
    Ok1 329 (Prp2 page_iova); Ok1 330 (Entry 0 0x1001000); Ok1 331 (Entry 1 0x1002000);
  Memset; Ok1 337 (MapvPrp [(0x1000000, 0x1000); (0x1001000, 0xffc)] 0); Ok1 339 (Prp1 0x1000000); Ok1 340 (Prp2 0x1001000)
].
Definition mapv_iova_prp_tests : list test_step := [
  Memset; Ok1 351 (MapvIovaPrp [(0x1000000, 0x200)] 0); Ok1 353 (Prp1 0x1000000); Ok1 354 (Prp2 0x0);
  Memset; Ok1 359 (MapvIovaPrp [(0x1000000, 0x1000)] 0); Ok1 361 (Prp1 0x1000000); Ok1 362 (Prp2 0x0);
  Memset; Ok1 367 (MapvIovaPrp [(0x1000000, 0x2000)] 0); Ok1 369 (Prp1 0x1000000); Ok1 370 (Prp2 0x1001000);
  Memset; Ok1 375 (MapvIovaPrp [(0x1000000, 0x3000)] 0); Ok1 377 (Prp1 0x1000000); Ok1 378 (Prp2 page_iova);
    Ok1 379 (Entry 0 0x1001000); Ok1 380 (Entry 1 0x1002000);
  Memset; Ok1 386 (MapvIovaPrp [(0x1000000, 0x1000); (0x1001000, 0x1000)] 0); Ok1 388 (Prp1 0x1000000);
    Ok1 389 (Prp2 0x1001000);
  Memset; Ok1 396 (MapvIovaPrp [(0x1000000, 0x1000); (0x1001000, 0x1000); (0x1002000, 0x1000)] 0); Ok1 398 (Prp1 0x1000000);
    Ok1 399 (Prp2 page_iova); Ok1 400 (Entry 0 0x1001000); Ok1 401 (Entry 1 0x1002000);
  Memset; Ok1 407 (MapvIovaPrp [(0x1000000, 0x1000); (0x1001000, 0x2000); (0x1002000, 0x1000)] 0); Ok1 409 (Prp1 0x1000000);
    Ok1 410 (Prp2 page_iova); Ok1 411 (Entry 0 0x1001000); Ok1 412 (Entry 1 0x1002000);
  Memset; Ok1 417 (MapvIovaPrp [(0x1000004, 0x200)] 0); Ok1 419 (Prp1 0x1000004); Ok1 420 (Prp2 0x0);
  Memset; Ok1 425 (MapvIovaPrp [(0x1000004, 0x1000)] 0); Ok1 427 (Prp1 0x1000004); Ok1 428 (Prp2 0x1001000);
  Memset; Ok1 434 (MapvIovaPrp [(0x1000004, 0xffc); (0x1001000, 0x1000)] 0); Ok1 436 (Prp1 0x1000004);
    Ok1 437 (Prp2 0x1001000);
  Memset; Ok1 444 (MapvIovaPrp [(0x1000004, 0xffc); (0x1001000, 0x1000); (0x1002000, 0x1000)] 0); Ok1 446 (Prp1 0x1000004);
    Ok1 447 (Prp2 page_iova); Ok1 448 (Entry 0 0x1001000); Ok1 449 (Entry 1 0x1002000);
  Memset; Ok1 455 (MapvIovaPrp [(0x1000000, 0x1000); (0x1001000, 0xffc)] 0); Ok1 457 (Prp1 0x1000000);
    Ok1 458 (Prp2 0x1001000)
].
Definition refused_tests : list test_step := [
  Memset; Ok1 466 (MapPrp 0x1000000 0x202000 (-1));
  Memset; Ok1 471 (MapvPrp [(0x1000004, 0x1000); (0x1001004, 0x1000)] (-1));
  Memset; Ok1 476 (MapvPrp [(0x1000000, 0x1000); (0x1001000, 0x201000)] (-1));
  Memset; Ok1 481 (MapvIovaPrp [(0x1000004, 0x1000); (0x1001004, 0x1000)] (-1));
  Memset; Ok1 486 (MapvIovaPrp [(0x1000000, 0x1000); (0x1001000, 0x201000)] (-1))
].
Definition list_page_tests : list test_step := [
  MemsetLists; Ok1 502 (MapLists 0x1000000 0x201000 0); Ok1 504 (Prp1 0x1000000); Ok1 505 (Prp2 lists_iova);
    Ok1 507 (ListEntry 511 0x1200000); Ok1 510 (ListEntry 512 0x0);
  MemsetLists; Ok1 519 (MapLists 0x1000000 0x202000 0); Ok1 521 (Prp1 0x1000000); Ok1 522 (Prp2 lists_iova);
    Ok1 524 (ListEntry 511 (lists_iova + 0x1000)); Ok1 527 (ListEntry 512 0x1200000); Ok1 530 (ListEntry 513 0x1201000);
  MemsetLists; Ok1 539 (MapLists 0x1000000 0x401000 (-1));
  MemsetLists; Ok1 556 (MapvLists [(0x1000000, 0x201000); (0x1201000, 0x1000)] 0); Ok1 557 (Prp1 0x1000000);
    Ok1 558 (Prp2 lists_iova); Ok1 560 (ListEntry 511 (lists_iova + 0x1000)); Ok1 563 (ListEntry 512 0x1200000);
    Ok1 565 (ListEntry 513 0x1201000)
].
Definition sgl_tests : list test_step := [
  MemsetSgl; Ok1 574 (MapvSgl [(0x1000000, 0x1000)] 0); Ok1 575 (SglAddr 0x1000000); Ok1 576 (SglLen 0x1000);
    Ok1 577 (SglType NVME_SGLD_TYPE_DATA_BLOCK);
  MemsetSgl; Ok1 582 (MapvSgl [(0x1000000, 0x1000); (0x1002000, 0x1000)] 0); Ok1 583 (SegAddr 0 0x1000000);
    Ok1 584 (SegAddr 1 0x1002000);
  MemsetSgl; Ok1 593 (MapvIovaSgl [(0x1000000, 0x1000)] 0); Ok1 594 (SglAddr 0x1000000); Ok1 595 (SglLen 0x1000);
    Ok1 596 (SglType NVME_SGLD_TYPE_DATA_BLOCK);
  MemsetSgl; Ok1 601 (MapvIovaSgl [(0x1000000, 0x1000); (0x1002000, 0x1000)] 0); Ok1 602 (SegAddr 0 0x1000000);
    Ok1 603 (SegAddr 1 0x1002000)
].

Definition rq_test_steps : list test_step :=
  map_prp_tests ++ mapv_prp_tests ++ mapv_iova_prp_tests ++ refused_tests ++ list_page_tests ++ sgl_tests.

Definition rq_test_main : M state Z :=
  do* on_tap (plan_tests false (179 + 18)) in
  do* run_steps rq_test_steps in
  on_tap exit_status.

Definition rq_test_start : state := mk_state tap0 (0, 0) (dptr_prp 0 0) (replicate 512 0) (replicate 256 zero_sgld) (replicate 1024 0).
End RqTest.

(** The identity on the addresses the test uses. *)
Lemma id_ctx_identity :
  Forall (fun v => iommu_translate_vaddr RqTest.id_ctx v = Some v) [0x1000000; 0x1000004; 0x1001000; 0x1201000; RqTest.page_iova; RqTest.lists_iova].
Proof. repeat constructor. Qed.

Lemma rq_test_passes :
  let '(r, s) := RqTest.rq_test_main RqTest.rq_test_start in
  r = Ret 0 /\ test_count (RqTest.harness s) = 197 /\ failures (RqTest.harness s) = 0.
Proof. vm_compute. repeat split. Qed.

(** ** src/util/skiplist_test.c *)

Module SkiplistTest.
(** An entry is known by the address of its node; [values] are the members [v],
    [next] is where the next entry goes; [draws] are the results of [rand()] for
    the links to come. *)
Record state : Type := mk_state {
  harness : tap;
  mem : skip_mem;
  values : gmap Z Z;
  next : Z;
  draws : list (list bool)
}.
Definition lst : ptr := 0x1000.

Definition on_tap {A} (m : M tap A) : M state A := fun s =>
  let '(r, t) := m (harness s) in (r, mk_state t (mem s) (values s) (next s) (draws s)).
Definition on_mem {A} (m : M skip_mem A) : M state A := fun s =>
  let '(r, x) := m (mem s) in (r, mk_state (harness s) x (values s) (next s) (draws s)).

(** [__cmp], with the entries there are. *)
Definition __cmp (vals : gmap Z Z) (v : Z) (n : ptr) : Z :=
  let e := default 0 (vals !! n) in
  if v <? e then -1 else if e <? v then 1 else 0.

(** As many steps as there are list nodes are enough. *)
Definition find_with (search : (Z -> ptr -> Z) -> nat -> Z -> option (list (option ptr)) -> M skip_mem (option ptr * option (list (option ptr))))
    (v : Z) (path : option (list (option ptr))) : M state (option ptr * option (list (option ptr))) :=
  let* s := get in on_mem (search (__cmp (values s)) (size (sm_heap (mem s))) v path).
Definition find := find_with (skiplist_find_mem lst).
Definition find_le := find_with (skiplist_find_le_mem lst).
Definition find_ge := find_with (skiplist_find_ge_mem lst).

(** [znew_t(struct entry, 1)]: the node of a new entry, cleared, and its value. *)
Definition new_entry (v : Z) : M state ptr := fun s =>
  let n := next s in
  let h := foldr (fun k m => <[node_list n k := mk_list_node 0 0]> m) (sm_heap (mem s)) (seq 0 SKIPLIST_LEVELS) in
  (Ret n, mk_state (harness s) (mk_skip_mem (sm_height (mem s)) h) (<[n := v]> (values s)) (n + 0x100) (draws s)).
Definition draw : M state (list bool) := fun s =>
  (Ret (default [] (draws s !! 0%nat)), mk_state (harness s) (mem s) (values s) (next s) (drop 1 (draws s))).

Definition no_update : list (option ptr) := replicate SKIPLIST_LEVELS None.

Definition add (v : Z) : M state bool :=
  let* e := new_entry v in
  let* r := find v (Some no_update) in
  match r.1 with
  | Some _ => ret false
  | None =>
      let* rands := draw in
      do* on_mem (skiplist_link_mem lst e (default [] r.2) rands) in
      ret true
  end.

(** [__clear] frees the entry. *)
Definition __clear (n : ptr) : M heap unit := release n.

(** [ok], whose line appears only in the report of a failure and is left out. *)
Definition ok (b : bool) (name : string) : M state unit :=
  do* on_tap (_gen_result None b (lit "main") (lit "skiplist_test.c") 0 (Some (Some (lit name)))) in ret tt.

(** [n && skiplist_entry(n, ...)->v == v] *)
Definition has_value (n : option ptr) (v : Z) : M state bool :=
  gets (fun s => match n with Some p => default 0 (values s !! p) =? v | None => false end).

Definition find_loop : M state unit :=
  for_up (fun v => let* n := find (Z.of_nat v) None in let* b := has_value n.1 (Z.of_nat v) in ok b "find %d ok") 1 3.

Definition add_all : M state unit :=
  do* let* b := add 1 in ok b "add 1" in
  do* let* b := add 3 in ok b "add 3" in
  do* let* b := add 2 in ok b "add 2" in
  let* b := add 0 in ok b "add 0".

Definition find_erase (v : Z) (found missing : string) : M state unit :=
  let* r := find v (Some no_update) in
  do* ok (bool_decide (is_Some r.1)) found in
  do* match r.1 with Some n => on_mem (skiplist_erase_mem lst n (default [] r.2)) | None => crash end in
  let* r := find v None in
  ok (bool_decide (r.1 = None)) missing.

(** The searches for the nearest entry: the key, and the value found if any. *)
Definition near (search : Z -> option (list (option ptr)) -> M state (option ptr * option (list (option ptr))))
    (v : Z) (expect : option Z) (name : string) : M state unit :=
  let* r := search v None in
  let* b := match expect with Some e => has_value r.1 e | None => ret (bool_decide (r.1 = None)) end in
  ok b name.

Definition height_zero (name : string) : M state unit :=
  let* s := get in ok (sm_height (mem s) =? 0)%nat name.

Definition skiplist_test_main : M state Z :=
  do* on_tap (plan_tests false 31) in
  do* on_mem (skiplist_init_mem lst) in
  do* height_zero "initial height is zero" in
  do* add_all in
  do* find_loop in
  do* near find 4 None "find 4 not ok" in
  do* find_erase 3 "find 3" "find 3 not ok" in
  do* (let* s := get in on_mem (skiplist_clear_with_mem lst (Some __clear) (size (sm_heap (mem s))))) in
  do* height_zero "height is zero" in
  do* add_all in
  do* find_loop in
  do* find_erase 0 "find 0" "find 0 not ok" in
  do* near find_le 2 (Some 2) "find_le(2) returns 2" in
  do* near find_le 4 (Some 3) "find_le(4) returns 3" in
  do* near find_le 0 None "find_le(0) returns NULL (no values <= 0)" in
  do* near find_le 1 (Some 1) "find_le(1) returns 1" in
  do* near find_le 3 (Some 3) "find_le(3) returns 3" in
  do* near find_ge 2 (Some 2) "find_ge(2) returns 2" in
  do* near find_ge 0 (Some 1) "find_ge(0) returns 1" in
  do* near find_ge 4 None "find_ge(4) returns NULL (no values >= 4)" in
  do* near find_ge 1 (Some 1) "find_ge(1) returns 1" in
  do* near find_ge 3 (Some 3) "find_ge(3) returns 3" in
  on_tap exit_status.

(** The static list before its initialisation: its heads and its sentinel. *)
Definition skiplist_test_start (draws : list (list bool)) : state :=
  mk_state tap0 (mk_skip_mem 0 (foldr (fun k m => <[sl_heads lst k := mk_list_node 0 0]> (<[node_list (sl_sentinel lst) k := mk_list_node 0 0]> m))
    ∅ (seq 0 SKIPLIST_LEVELS))) ∅ 0x10000 draws.
End SkiplistTest.

Definition skiplist_test_ok (draws : list (list bool)) : bool :=
  match SkiplistTest.skiplist_test_main (SkiplistTest.skiplist_test_start draws) with
  | (Ret 0, s) => (test_count (SkiplistTest.harness s) =? 31) && (failures (SkiplistTest.harness s) =? 0)
  | _ => false
  end.

(** All sequences of [n] levels up to [k], as draws of [rand()]. *)
Fixpoint all_draws (n k : nat) : list (list (list bool)) :=
  match n with
  | O => [[]]
  | S n => all_draws n k ≫= fun l => (fun i => replicate i true :: l) <$> seq 0 (S k)
  end.

(** The test passes whichever of the first two levels the eight entries get, and
    with entries on all eight levels. *)
Lemma skiplist_test_passes :
  forallb skiplist_test_ok (all_draws 8 1) = true /\
  skiplist_test_ok ((fun i => replicate i true) <$> [0; 7; 3; 7; 7; 2; 7; 5]%nat) = true.
Proof. split; vm_compute; reflexivity. Qed.

(** ** src/support/ticks_test.c *)

Module TicksTest.
(** The two values of [get_ticks()]; the text of the last line, a quotient of
    [double]s, is left out. *)
Definition ticks_test_main (tsc_old tsc_new freq : Z) : M tap Z :=
  do* plan_no_plan false in
  do* _gen_result None (tsc_old <? tsc_new) (lit "main") (lit "ticks_test.c") 37 (Some (Some (lit "tsc_new > tsc_old"))) in
  do* diag (lit "TSC OLD:  " ++ print 10 tsc_old ++ [newline]) in
  do* diag (lit "TSC NEW:  " ++ print 10 tsc_new ++ [newline]) in
  do* diag (lit "TSC DIFF: " ++ print 10 (u64 (tsc_new - tsc_old)) ++ [newline]) in
  do* diag (lit "TSC HZ:   " ++ print 10 freq ++ [newline]) in
  exit_status.
End TicksTest.

(** The test fails exactly if the counter did not advance. *)
Lemma ticks_test_verdict old new freq :
  exists t, TicksTest.ticks_test_main old new freq tap0 = (Ret (if old <? new then 0 else 1), t).
Proof.
  unfold TicksTest.ticks_test_main. generalize (print 10 old), (print 10 new), (print 10 (u64 (new - old))), (print 10 freq).
  intros s1 s2 s3 s4. destruct (old <? new); eexists; vm_compute; reflexivity.
Qed.
