(* ===== verification/QueuePair.v ===== *)
(** * QueuePair: a driver and a controller on a pair of queues

    The rings of [NvmeQueue], the trackers of [NvmeRq] and a controller that
    fetches commands and completes them in any order, together.  A driver takes a
    tracker before it posts a command with it and gives it back only after the
    completion; nothing else keeps the two rings from overflowing. *)

From S2P Require Import Prelude Support Skiplist IovaAlloc VfioIova Dma NvmeTypes Prp NvmeQueue NvmeRq.
Local Open Scope Z_scope.

(** ** The system *)

(** The two queues; the commands posted and those fetched; the completions
    posted and those taken; the trackers the driver has that are idle and those
    with a command under way; the identifiers of the commands the controller is
    working on. *)
Record qpair : Type := mk_qpair {
  q_sq : nvme_sq;
  q_cq : nvme_cq;
  sent : list nvme_cmd;
  fetched : list nvme_cmd;
  posted : list nvme_cqe;
  got : list nvme_cqe;
  idle : list nat;
  busy : list nat;
  running : list Z
}.

Inductive qpair_step : qpair -> qpair -> Prop :=
(** the driver *)
| d_acquire sq cq sn ft ps gt id bs rn i sq' :
    nvme_rq_acquire sq = (Ret i, sq') ->
    qpair_step (mk_qpair sq cq sn ft ps gt id bs rn) (mk_qpair sq' cq sn ft ps gt (i :: id) bs rn)
| d_post sq cq sn ft ps gt id1 i id2 bs rn rq cmd :
    rqs sq !! i = Some rq ->
    qpair_step (mk_qpair sq cq sn ft ps gt (id1 ++ i :: id2) bs rn)
      (mk_qpair (nvme_rq_post rq cmd sq) cq (sn ++ [nvme_rq_prep_cmd rq cmd]) ft ps gt (id1 ++ id2) (i :: bs) rn)
| d_tail sq cq sn ft ps gt id bs rn :
    qpair_step (mk_qpair sq cq sn ft ps gt id bs rn) (mk_qpair (nvme_sq_update_tail sq) cq sn ft ps gt id bs rn)
| d_reap sq cq sn ft ps gt id bs rn cqe cq' :
    nvme_cq_get_cqe cq = (Some cqe, cq') ->
    qpair_step (mk_qpair sq cq sn ft ps gt id bs rn)
      (mk_qpair sq cq' sn ft ps (gt ++ [cqe]) (__nvme_rq_from_cqe cqe :: id)
        (remove Nat.eq_dec (__nvme_rq_from_cqe cqe) bs) rn)
| d_head sq cq sn ft ps gt id bs rn :
    qpair_step (mk_qpair sq cq sn ft ps gt id bs rn) (mk_qpair sq (nvme_cq_update_head cq) sn ft ps gt id bs rn)
| d_release sq cq sn ft ps gt id1 i id2 bs rn :
    qpair_step (mk_qpair sq cq sn ft ps gt (id1 ++ i :: id2) bs rn)
      (mk_qpair (nvme_rq_release i sq) cq sn ft ps gt (id1 ++ id2) bs rn)
| d_opaque sq cq sn ft ps gt id bs rn i o :
    qpair_step (mk_qpair sq cq sn ft ps gt id bs rn)
      (mk_qpair (with_rqs (alter (with_opaque o) i (rqs sq)) (rq_top sq) sq) cq sn ft ps gt id bs rn)
(** the controller *)
| c_fetch sq cq sn ft ps gt id bs rn sqe :
    Z.of_nat (length ft mod sq_ring sq) <> seen (sq_dbbuf sq) (sq_mmio sq) ->
    sq_entries sq !! (length ft mod sq_ring sq)%nat = Some sqe ->
    qpair_step (mk_qpair sq cq sn ft ps gt id bs rn) (mk_qpair sq cq sn (ft ++ [sqe]) ps gt id bs (cid sqe :: rn))
| c_complete sq cq sn ft ps gt id bs rn1 c rn2 cqe :
    Z.of_nat ((length ps + 1) mod ring_size cq) <> seen (cq_dbbuf cq) (cq_mmio cq) ->
    phase_bit cqe = lap_bit (ring_size cq) (length ps) -> cqe_cid cqe = c ->
    qpair_step (mk_qpair sq cq sn ft ps gt id bs (rn1 ++ c :: rn2))
      (mk_qpair sq (with_ring (<[(length ps mod ring_size cq)%nat := cqe]> (cq_entries cq)) (head cq) (phase cq) cq)
        sn ft (ps ++ [cqe]) gt id bs (rn1 ++ rn2)).

(** A new pair: the completion queue is no smaller than the submission queue,
    which has one tracker less than entries. *)
Definition qpair_fresh (s : qpair) : Prop :=
  sq_fresh (q_sq s) /\ cq_fresh (q_cq s) /\ rqs_fresh (q_sq s) /\ sq_qsize (q_sq s) <= cq_qsize (q_cq s) /\
  sent s = [] /\ fetched s = [] /\ posted s = [] /\ got s = [] /\ idle s = [] /\ busy s = [] /\ running s = [].

(** ** The invariant *)

(** The commands under way are on the submission queue, in the controller or on
    the completion queue, each in one place. *)
Definition under_way (s : qpair) : list Z :=
  (cid <$> drop (length (fetched s)) (sent s)) ++ running s ++ (cqe_cid <$> drop (length (got s)) (posted s)).

Record qpair_inv (s : qpair) (free : list nat) (rung acked : nat) : Prop := {
  qi_sq : sq_inv (q_sq s) (sent s) (fetched s) rung;
  qi_cq : cq_inv (q_cq s) (posted s) (got s) acked;
  qi_rq : rq_inv (rqs (q_sq s)) (rq_top (q_sq s)) free (idle s ++ busy s);
  qi_trackers : Z.of_nat (length (rqs (q_sq s))) = sq_qsize (q_sq s) - 1;
  qi_sizes : sq_qsize (q_sq s) <= cq_qsize (q_cq s);
  qi_busy : Z.of_nat <$> busy s ≡ₚ under_way s;
  qi_once : cid <$> sent s ≡ₚ (cqe_cid <$> got s) ++ under_way s
}.

Lemma qpair_fresh_inv s : qpair_fresh s -> exists free, qpair_inv s free 0 0.
Proof.
  destruct s as [sq cq sn ft ps gt id bs rn]. unfold qpair_fresh. simpl.
  intros (Hsq & Hcq & [[free Hrq] Hl] & Hle & -> & -> & -> & -> & -> & -> & ->). exists free.
  split; simpl; try done; [by apply sq_fresh_inv|by apply cq_fresh_inv].
Qed.

(** At most one command less than the submission queue has entries. *)
Lemma under_way_bound s free rung acked :
  qpair_inv s free rung acked ->
  Z.of_nat (length (idle s) + length (busy s)) <= sq_qsize (q_sq s) - 1 /\
  (length (busy s) = (length (sent s) - length (fetched s)) + length (running s) + (length (posted s) - length (got s)))%nat.
Proof.
  intros [_ _ Hrq Hl _ Hb _]. split.
  - rewrite <- Hl, <- length_app. pose proof (Permutation_length (ri_all _ _ _ _ Hrq)) as Hp. rewrite length_seq, !length_app in Hp.
    rewrite length_app. lia.
  - apply Permutation_length in Hb. rewrite length_fmap in Hb. rewrite Hb. unfold under_way.
    rewrite !length_app, !length_fmap, !length_drop. lia.
Qed.

Lemma rq_inv_perm rs top free held held' : held ≡ₚ held' -> rq_inv rs top free held -> rq_inv rs top free held'.
Proof. intros Hp [Hc Ha Hi]. split; [done| |done]. by rewrite <- Hp. Qed.

Lemma chain_opaque rs top l i o : chain rs top l -> chain (alter (with_opaque o) i rs) top l.
Proof.
  revert top. induction l as [|j l IH]; intros top; [done|]. intros (-> & rq & Ej & Hc). split; [done|].
  destruct (decide (i = j)) as [->|Hne].
  - eexists. rewrite list_lookup_alter_eq, Ej. split; [done|]. by apply IH.
  - exists rq. rewrite list_lookup_alter_ne by done. split; [done|]. by apply IH.
Qed.
Lemma rq_inv_opaque rs top free held i o : rq_inv rs top free held -> rq_inv (alter (with_opaque o) i rs) top free held.
Proof.
  intros [Hc Ha Hi]. split; [by apply chain_opaque|by rewrite length_alter|].
  intros j rq Ej. destruct (decide (i = j)) as [->|Hne]; [|rewrite list_lookup_alter_ne in Ej by done; by apply Hi].
  rewrite list_lookup_alter_eq in Ej. destruct (rs !! j) as [r|] eqn:Er; [|done]. injection Ej as <-. by apply (Hi j r).
Qed.

Lemma remove_split i l1 l2 : NoDup (l1 ++ i :: l2) -> remove Nat.eq_dec i (l1 ++ i :: l2) = l1 ++ l2.
Proof.
  intros Hnd. apply NoDup_app in Hnd as (_ & Hd1 & Hd2). apply NoDup_cons in Hd2 as [Hd2 _].
  rewrite remove_app. simpl. destruct (Nat.eq_dec i i); [|done].
  by rewrite !notin_remove by (rewrite <- list_elem_of_In; set_solver).
Qed.

(** The rings and the trackers of a submission queue are apart. *)
Lemma sq_inv_rqs sq sn ft rung rs top : sq_inv sq sn ft rung -> sq_inv (with_rqs rs top sq) sn ft rung.
Proof. by intros []. Qed.
Lemma acquire_ring sq i sq' : nvme_rq_acquire sq = (Ret i, sq') -> exists top, sq' = with_rqs (rqs sq) top sq.
Proof.
  unfold nvme_rq_acquire. destruct (rq_top sq) as [j|]; [|done]. destruct (rqs sq !! j); [|done].
  intros [= _ <-]. by eexists.
Qed.
Lemma tail_rqs sq :
  rqs (nvme_sq_update_tail sq) = rqs sq /\ rq_top (nvme_sq_update_tail sq) = rq_top sq /\
  sq_qsize (nvme_sq_update_tail sq) = sq_qsize sq.
Proof. unfold nvme_sq_update_tail. destruct (_ =? _); [done|]. by destruct (nvme_try_dbbuf _ _). Qed.
Lemma head_size cq : cq_qsize (nvme_cq_update_head cq) = cq_qsize cq.
Proof. unfold nvme_cq_update_head. by destruct (nvme_try_dbbuf _ _). Qed.
Lemma get_size cq r cq' : nvme_cq_get_cqe cq = (r, cq') -> cq_qsize cq' = cq_qsize cq.
Proof.
  unfold nvme_cq_get_cqe. destruct (_ =? phase cq); [by intros [= _ <-]|].
  destruct (_ =? cq_qsize cq); by intros [= _ <-].
Qed.

(** ** The steps *)

Section Steps.
Context (sq : nvme_sq) (cq : nvme_cq) (sn ft : list nvme_cmd) (ps gt : list nvme_cqe) (id bs : list nat) (rn : list Z).
Context (free : list nat) (rung acked : nat) (Hinv : qpair_inv (mk_qpair sq cq sn ft ps gt id bs rn) free rung acked).

Lemma acquire_step i sq' :
  nvme_rq_acquire sq = (Ret i, sq') ->
  exists free', qpair_inv (mk_qpair sq' cq sn ft ps gt (i :: id) bs rn) free' rung acked.
Proof using Hinv.
  intros E. destruct Hinv as [Hsq Hcq Hrq Hl Hle Hb Ho]. simpl in *.
  pose proof (acquire_spec sq free _ Hrq) as Ha. rewrite E in Ha. destruct Ha as (free' & -> & Er & Hrq').
  destruct (acquire_ring _ _ _ E) as [top ->]. exists free'. split; simpl; try done. by apply sq_inv_rqs.
Qed.

Lemma release_step id1 i id2 :
  id = id1 ++ i :: id2 -> exists free', qpair_inv (mk_qpair (nvme_rq_release i sq) cq sn ft ps gt (id1 ++ id2) bs rn) free' rung acked.
Proof using Hinv.
  intros ->. destruct Hinv as [Hsq Hcq Hrq Hl Hle Hb Ho]. simpl in *. rewrite <- app_assoc in Hrq. simpl in Hrq.
  exists (i :: free). split; simpl; try done.
  - by apply sq_inv_rqs.
  - rewrite <- app_assoc. by apply release_rqs_inv.
  - by rewrite length_alter.
Qed.

Lemma opaque_step i o :
  qpair_inv (mk_qpair (with_rqs (alter (with_opaque o) i (rqs sq)) (rq_top sq) sq) cq sn ft ps gt id bs rn) free rung acked.
Proof using Hinv.
  destruct Hinv as [Hsq Hcq Hrq Hl Hle Hb Ho]. split; simpl in *; try done.
  - by apply sq_inv_rqs.
  - by apply rq_inv_opaque.
  - by rewrite length_alter.
Qed.

(** A driver with an idle tracker has room on the submission queue. *)
Lemma post_step id1 i id2 rq cmd :
  id = id1 ++ i :: id2 -> rqs sq !! i = Some rq ->
  qpair_inv (mk_qpair (nvme_rq_post rq cmd sq) cq (sn ++ [nvme_rq_prep_cmd rq cmd]) ft ps gt (id1 ++ id2) (i :: bs) rn)
    free rung acked.
Proof using Hinv.
  intros -> Er. destruct (under_way_bound _ _ _ _ Hinv) as [Hroom Hlen]. simpl in Hroom, Hlen.
  rewrite length_app in Hroom. simpl in Hroom. destruct Hinv as [Hsq Hcq Hrq Hl Hle Hb Ho]. simpl in *.
  assert (rq_cid rq = Z.of_nat i) as Ecid by (by apply (ri_cid _ _ _ _ Hrq)).
  pose proof (proj1 (si_order _ _ _ _ Hsq)) as Hord. unfold under_way in *. simpl in *.
  split; simpl; try done.
  - apply sq_post_spec; [done|]. unfold sq_ring. lia.
  - eapply rq_inv_perm; [|exact Hrq]. rewrite <- !app_assoc. simpl. by rewrite Permutation_middle.
  - unfold under_way. simpl. rewrite drop_app_le, fmap_app by lia. simpl. rewrite Ecid, Hb, <- app_assoc. simpl.
    by rewrite <- Permutation_middle.
  - unfold under_way. simpl. rewrite drop_app_le, !fmap_app by lia. rewrite Ho. simpl. solve_Permutation.
Qed.

Lemma tail_step : qpair_inv (mk_qpair (nvme_sq_update_tail sq) cq sn ft ps gt id bs rn) free (length sn) acked.
Proof using Hinv.
  destruct (tail_rqs sq) as (E1 & E2 & E3). destruct Hinv as [Hsq Hcq Hrq Hl Hle Hb Ho].
  split; simpl in *; rewrite ?E1, ?E2, ?E3; try done. by eapply sq_tail_spec.
Qed.

Lemma head_step : qpair_inv (mk_qpair sq (nvme_cq_update_head cq) sn ft ps gt id bs rn) free rung (length gt).
Proof using Hinv.
  destruct Hinv as [Hsq Hcq Hrq Hl Hle Hb Ho]. split; simpl in *; rewrite ?head_size; try done. by eapply ring_spec.
Qed.

(** A completion is that of a command under way, and of its tracker. *)
Lemma reap_step cqe cq' :
  nvme_cq_get_cqe cq = (Some cqe, cq') ->
  (exists bs1 bs2, let i := __nvme_rq_from_cqe cqe in
    bs = bs1 ++ i :: bs2 /\ cqe_cid cqe = Z.of_nat i /\ remove Nat.eq_dec i bs = bs1 ++ bs2) /\
  qpair_inv (mk_qpair sq cq' sn ft ps (gt ++ [cqe]) (__nvme_rq_from_cqe cqe :: id)
    (remove Nat.eq_dec (__nvme_rq_from_cqe cqe) bs) rn) free rung acked.
Proof using Hinv.
  intros E. destruct Hinv as [Hsq Hcq Hrq Hl Hle Hb Ho]. unfold under_way in *. simpl in *.
  pose proof (get_spec cq ps gt acked Hcq) as Hg. rewrite E in Hg. destruct Hg as [Hlog Hcq'].
  pose proof (get_size _ _ _ E) as Es. apply drop_S in Hlog. rewrite Hlog in Hb, Ho. simpl in Hb, Ho.
  assert (cqe_cid cqe ∈ Z.of_nat <$> bs) as Hin by (rewrite Hb; set_solver).
  apply list_elem_of_fmap in Hin as (i & Ei & Hi). unfold __nvme_rq_from_cqe. rewrite Ei, Nat2Z.id.
  apply list_elem_of_split in Hi as (bs1 & bs2 & ->).
  pose proof (rq_inv_nodup _ _ _ _ Hrq) as Hnd. apply NoDup_app in Hnd as (_ & _ & Hnd). apply NoDup_app in Hnd as (_ & _ & Hnd).
  assert (remove Nat.eq_dec i (bs1 ++ i :: bs2) = bs1 ++ bs2) as Er by (by apply remove_split).
  split; [exists bs1, bs2; by rewrite Er|]. rewrite Er.
  split; simpl; rewrite ?Es; try done.
  - eapply rq_inv_perm; [|exact Hrq]. simpl. by rewrite !app_assoc, Permutation_middle.
  - unfold under_way. simpl. rewrite length_app, Nat.add_1_r. rewrite !fmap_app in Hb |- *. simpl in Hb.
    rewrite <- Permutation_middle, Ei in Hb. apply (Permutation_cons_inv (a := Z.of_nat i)). rewrite Hb. solve_Permutation.
  - unfold under_way. simpl. rewrite length_app, Nat.add_1_r, fmap_app, Ho. simpl. solve_Permutation.
Qed.

Lemma fetch_step sqe :
  Z.of_nat (length ft mod sq_ring sq) <> seen (sq_dbbuf sq) (sq_mmio sq) ->
  sq_entries sq !! (length ft mod sq_ring sq)%nat = Some sqe ->
  qpair_inv (mk_qpair sq cq sn (ft ++ [sqe]) ps gt id bs (cid sqe :: rn)) free rung acked.
Proof using Hinv.
  intros Hne Hx. destruct Hinv as [Hsq Hcq Hrq Hl Hle Hb Ho]. unfold under_way in *. simpl in *.
  pose proof (sq_fetch_spec sq sn ft rung Hsq) as Hs. rewrite (proj2 (Z.eqb_neq _ _) Hne) in Hs.
  destruct Hs as (y & Ey & Hlog & Hsq'). rewrite Hx in Ey. injection Ey as <-. apply drop_S in Hlog.
  rewrite Hlog in Hb, Ho. split; simpl; try done; unfold under_way; simpl; rewrite length_app, Nat.add_1_r.
  - rewrite Hb. simpl. solve_Permutation.
  - rewrite Ho. simpl. solve_Permutation.
Qed.

Lemma complete_step rn1 c rn2 cqe :
  rn = rn1 ++ c :: rn2 ->
  Z.of_nat ((length ps + 1) mod ring_size cq) <> seen (cq_dbbuf cq) (cq_mmio cq) ->
  phase_bit cqe = lap_bit (ring_size cq) (length ps) -> cqe_cid cqe = c ->
  qpair_inv (mk_qpair sq (with_ring (<[(length ps mod ring_size cq)%nat := cqe]> (cq_entries cq)) (head cq) (phase cq) cq)
    sn ft (ps ++ [cqe]) gt id bs (rn1 ++ rn2)) free rung acked.
Proof using Hinv.
  intros -> Hfull Htag <-. destruct Hinv as [Hsq Hcq Hrq Hl Hle Hb Ho]. unfold under_way in *. simpl in *.
  pose proof (proj1 (ci_order _ _ _ _ Hcq)) as Hord.
  split; simpl; try done; [by apply post_spec|..]; unfold under_way; simpl; rewrite drop_app_le, fmap_app by lia;
    rewrite ?Hb, ?Ho; simpl; solve_Permutation.
Qed.

(** With the head doorbell up to date, the controller has room for every
    command it is working on. *)
Lemma room_to_complete :
  (0 < length rn)%nat -> acked = length gt ->
  Z.of_nat ((length ps + 1) mod ring_size cq) <> seen (cq_dbbuf cq) (cq_mmio cq).
Proof using Hinv.
  intros Hr ->. destruct (under_way_bound _ _ _ _ Hinv) as [Hroom Hlen]. destruct Hinv as [Hsq Hcq Hrq Hl Hle Hb Ho]. simpl in *.
  rewrite (ci_seen _ _ _ _ Hcq). pose proof (ci_order _ _ _ _ Hcq) as [Hord _].
  assert (2 <= ring_size cq)%nat by (pose proof (ci_size _ _ _ _ Hcq); unfold ring_size; lia).
  assert (length ps + 1 < length gt + ring_size cq)%nat by (unfold ring_size; lia).
  intros E%Nat2Z.inj. symmetry in E. apply mod_inj in E; lia.
Qed.
End Steps.

(** ** Every run *)

Lemma qpair_step_inv s s' free rung acked :
  qpair_inv s free rung acked -> qpair_step s s' -> exists free' rung' acked', qpair_inv s' free' rung' acked'.
Proof.
  intros Hinv Hst. destruct Hst as [? ? ? ? ? ? ? ? ? i sq' E| | |? ? ? ? ? ? ? ? ? cqe cq' E| |? ? ? ? ? ? id1 i id2| | |].
  - destruct (acquire_step _ _ _ _ _ _ _ _ _ _ _ _ Hinv i sq' E) as [free' H']. eauto.
  - eauto using post_step.
  - eauto using tail_step.
  - destruct (reap_step _ _ _ _ _ _ _ _ _ _ _ _ Hinv cqe cq' E) as [_ H']. eauto.
  - eauto using head_step.
  - destruct (release_step _ _ _ _ _ _ _ _ _ _ _ _ Hinv id1 i id2 eq_refl) as [free' H']. eauto.
  - eauto using opaque_step.
  - eauto using fetch_step.
  - eauto 6 using complete_step.
Qed.

Lemma qpair_reachable_inv s0 s : qpair_fresh s0 -> rtc qpair_step s0 s -> exists free rung acked, qpair_inv s free rung acked.
Proof.
  intros Hf Hr. apply (rtc_ind_r (R := qpair_step) (fun s => exists free rung acked, qpair_inv s free rung acked) s0); [| |done].
  - destruct (qpair_fresh_inv s0 Hf) as [free Hi]. eauto.
  - intros s1 s2 _ Hst (free & rung & acked & Hi). by eapply qpair_step_inv.
Qed.

Lemma get_is_next s free rung acked :
  qpair_inv s free rung acked ->
  match nvme_cq_get_cqe (q_cq s) with
  | (Some cqe, _) => posted s !! length (got s) = Some cqe /\
      __nvme_rq_from_cqe cqe ∈ busy s /\
      exists rq, rqs (q_sq s) !! __nvme_rq_from_cqe cqe = Some rq /\ cqe_cid cqe = rq_cid rq
  | (None, _) => length (got s) = length (posted s)
  end.
Proof.
  intros Hinv. pose proof (get_spec _ _ _ _ (qi_cq _ _ _ _ Hinv)) as Hg.
  destruct (nvme_cq_get_cqe (q_cq s)) as [[cqe|] cq'] eqn:E; [|by destruct Hg]. destruct Hg as [Hlog _].
  destruct s as [sq cq sn ft ps gt id bs rn].
  destruct (reap_step _ _ _ _ _ _ _ _ _ _ _ _ Hinv cqe cq' E) as [(bs1 & bs2 & Eb & Ec & _) _]. simpl in *.
  assert (__nvme_rq_from_cqe cqe ∈ bs) as Hin by (rewrite Eb; set_solver). split; [done|]. split; [done|].
  destruct (held_lookup _ _ _ _ (__nvme_rq_from_cqe cqe) (qi_rq _ _ _ _ Hinv)) as (rq & Er & Ecid); simpl; [set_solver|].
  exists rq. simpl in Er. by rewrite Ecid.
Qed.

(** C16. A pair of queues, its trackers and a controller together.  A driver that
    takes a tracker before it posts a command and gives back only idle trackers,
    and a controller that fetches by the tail it has seen and completes in any
    order by the head it has seen, keep in every interleaving: the rings never
    overflow, though the driver asks neither of them for room; commands are
    fetched in order and completions taken in order; every command sent is either
    completed or under way, in one place, once; the trackers in use are distinct,
    and those of the commands under way are marked so; a completion taken is that
    of a command under way and leads to its tracker; acquisition fails only when
    every tracker is in use. *)
Theorem queue_pair_exact s0 s :
  qpair_fresh s0 -> rtc qpair_step s0 s ->
  fetched s `prefix_of` sent s /\ got s `prefix_of` posted s /\
  (cid <$> sent s) ≡ₚ (cqe_cid <$> got s) ++ under_way s /\
  NoDup (idle s ++ busy s) /\ (Z.of_nat <$> busy s) ≡ₚ under_way s /\
  Z.of_nat (length (under_way s)) <= sq_qsize (q_sq s) - 1 /\
  match nvme_cq_get_cqe (q_cq s) with
  | (Some cqe, _) => posted s !! length (got s) = Some cqe /\
      __nvme_rq_from_cqe cqe ∈ busy s /\
      exists rq, rqs (q_sq s) !! __nvme_rq_from_cqe cqe = Some rq /\ cqe_cid cqe = rq_cid rq
  | (None, _) => length (got s) = length (posted s)
  end /\
  match nvme_rq_acquire (q_sq s) with
  | (Ret i, _) => i ∉ idle s ++ busy s
  | (Fail e, _) => e = EBUSY /\ Z.of_nat (length (idle s ++ busy s)) = sq_qsize (q_sq s) - 1
  | (Crash, _) => False
  end.
Proof.
  intros Hf Hr. destruct (qpair_reachable_inv s0 s Hf Hr) as (free & rung & acked & Hinv).
  destruct (under_way_bound _ _ _ _ Hinv) as [Hroom _]. pose proof (get_is_next _ _ _ _ Hinv) as Hget.
  destruct Hinv as [Hsq Hcq Hrq Hl Hle Hb Ho]. split; [by eapply si_prefix|]. split; [by eapply ci_prefix|]. split; [done|].
  pose proof (rq_inv_nodup _ _ _ _ Hrq) as Hnd. apply NoDup_app in Hnd as (_ & Hd & Hnd).
  split; [done|]. split; [done|]. split.
  { rewrite <- (Permutation_length Hb), length_fmap. lia. }
  split; [done|]. pose proof (acquire_spec _ _ _ Hrq) as Ha.
  destruct (nvme_rq_acquire (q_sq s)) as [[i|e|] sq']; [| |done].
  - destruct Ha as (free' & -> & _). apply Hd. set_solver.
  - destruct Ha as (-> & _ & ->). split; [done|].
    pose proof (Permutation_length (ri_all _ _ _ _ Hrq)) as Hp. rewrite length_seq in Hp. simpl in Hp. lia.
Qed.

(** ** Draining *)

(** What is left to do for the commands under way: to fetch, to complete, to take. *)
Definition work_left (s : qpair) : nat :=
  3 * (length (sent s) - length (fetched s)) + 2 * length (running s) + (length (posted s) - length (got s)).

Definition caught_up (s : qpair) : Prop := exists free, qpair_inv s free (length (sent s)) (length (got s)).

Lemma lap_bit_tag q i : Z.land (lap_bit q i) 0x1 = lap_bit q i.
Proof. unfold lap_bit. pose proof (Nat.mod_upper_bound (i / q) 2). by destruct ((i / q) mod 2)%nat as [|[|]]; [| |lia]. Qed.

Lemma drain_reap s :
  caught_up s -> (length (got s) < length (posted s))%nat ->
  exists s', rtc qpair_step s s' /\ caught_up s' /\ sent s' = sent s /\ (work_left s' < work_left s)%nat.
Proof.
  intros [free Hinv] Hlt. pose proof (get_spec _ _ _ _ (qi_cq _ _ _ _ Hinv)) as Hg. destruct s as [sq cq sn ft ps gt id bs rn].
  simpl in *. destruct (nvme_cq_get_cqe cq) as [[cqe|] cq'] eqn:E; [|destruct Hg; lia].
  destruct (reap_step _ _ _ _ _ _ _ _ _ _ _ _ Hinv cqe cq' E) as [_ Hinv'].
  eexists. split; [eapply rtc_l; [by apply d_reap|]; eapply rtc_l; [by apply d_head|]; apply rtc_refl|].
  split; [exists free; by eapply head_step|]. split; [done|]. unfold work_left. simpl. rewrite length_app. simpl. lia.
Qed.

Lemma drain_complete s :
  caught_up s -> running s <> [] ->
  exists s', rtc qpair_step s s' /\ caught_up s' /\ sent s' = sent s /\ (work_left s' < work_left s)%nat.
Proof.
  intros [free Hinv] Hne. destruct s as [sq cq sn ft ps gt id bs rn]. simpl in *. destruct rn as [|c rn]; [done|].
  pose proof (room_to_complete _ _ _ _ _ _ _ _ _ _ _ _ Hinv ltac:(simpl; lia) eq_refl) as Hroom.
  pose proof (proj1 (ci_order _ _ _ _ (qi_cq _ _ _ _ Hinv))) as Hord. simpl in Hord.
  set (cqe := mk_cqe 0 0 0 0 c (lap_bit (ring_size cq) (length ps))).
  eexists. split; [eapply rtc_l; [apply (c_complete _ _ _ _ _ _ _ _ [] c rn cqe); [done|apply lap_bit_tag|done]|]; apply rtc_refl|].
  split; [exists free; eapply (complete_step _ _ _ _ _ _ _ _ _ _ _ _ Hinv [] c rn cqe); [done|done|apply lap_bit_tag|done]|].
  split; [done|]. unfold work_left. simpl. rewrite length_app. simpl. lia.
Qed.

Lemma drain_fetch s :
  caught_up s -> (length (fetched s) < length (sent s))%nat ->
  exists s', rtc qpair_step s s' /\ caught_up s' /\ sent s' = sent s /\ (work_left s' < work_left s)%nat.
Proof.
  intros [free Hinv] Hlt. pose proof (sq_fetch_spec _ _ _ _ (qi_sq _ _ _ _ Hinv)) as Hs. destruct s as [sq cq sn ft ps gt id bs rn].
  simpl in *. destruct (Z.eqb_spec (Z.of_nat (length ft mod sq_ring sq)) (seen (sq_dbbuf sq) (sq_mmio sq))) as [E|E]; [lia|].
  destruct Hs as (sqe & Ex & _ & _).
  eexists. split; [eapply rtc_l; [by apply c_fetch|]; apply rtc_refl|].
  split; [exists free; by eapply fetch_step|]. split; [done|]. unfold work_left. simpl. rewrite length_app. simpl. lia.
Qed.

Lemma drain s :
  caught_up s -> exists s', rtc qpair_step s s' /\ caught_up s' /\ sent s' = sent s /\ work_left s' = 0%nat.
Proof.
  remember (work_left s) as n eqn:En. revert s En. induction n as [n IH] using lt_wf_ind. intros s En Hc.
  assert (forall s1, rtc qpair_step s s1 -> caught_up s1 -> sent s1 = sent s -> (work_left s1 < work_left s)%nat ->
    exists s', rtc qpair_step s s' /\ caught_up s' /\ sent s' = sent s /\ work_left s' = 0%nat) as Hnext.
  { intros s1 Hr1 Hc1 Es1 Hlt. destruct (IH (work_left s1) ltac:(lia) s1 eq_refl Hc1) as (s' & Hr & Hc' & Es & H0).
    exists s'. split; [by etrans|]. split; [done|]. split; [congruence|done]. }
  destruct (decide (length (got s) < length (posted s))%nat); [destruct (drain_reap s Hc ltac:(done)) as (s1 & ? & ? & ? & ?); eauto|].
  destruct (decide (running s = [])) as [Hrn|]; [|destruct (drain_complete s Hc ltac:(done)) as (s1 & ? & ? & ? & ?); eauto].
  destruct (decide (length (fetched s) < length (sent s))%nat); [destruct (drain_fetch s Hc ltac:(done)) as (s1 & ? & ? & ? & ?); eauto|].
  exists s. split; [apply rtc_refl|]. split; [done|]. split; [done|]. unfold work_left. rewrite Hrn. simpl. lia.
Qed.

(** C17. The pair does not deadlock.  From every state a driver and a controller
    can reach, writing the two doorbells lets them go on, with nothing posted in
    addition, until every command sent has been completed and its completion
    taken: the head doorbell alone gives the controller room for every command
    it may be working on. *)
Theorem queue_pair_drains s0 s :
  qpair_fresh s0 -> rtc qpair_step s0 s ->
  exists s', rtc qpair_step s s' /\ sent s' = sent s /\ fetched s' = sent s' /\ busy s' = [] /\ got s' = posted s' /\
    (cid <$> sent s') ≡ₚ (cqe_cid <$> got s').
Proof.
  intros Hf Hr. destruct (qpair_reachable_inv s0 s Hf Hr) as (free & rung & acked & Hinv). destruct s as [sq cq sn ft ps gt id bs rn].
  apply tail_step in Hinv. apply head_step in Hinv.
  destruct (drain _ (ex_intro _ free Hinv)) as (s' & Hr' & [free' Hi] & Es & H0). exists s'.
  split; [eapply rtc_l; [apply d_tail|]; eapply rtc_l; [apply d_head|]; exact Hr'|]. split; [done|].
  destruct (under_way_bound _ _ _ _ Hi) as [_ Hlen]. unfold work_left in H0.
  pose proof (si_order _ _ _ _ (qi_sq _ _ _ _ Hi)) as [Hos _]. pose proof (ci_order _ _ _ _ (qi_cq _ _ _ _ Hi)) as [Hoc _].
  assert (under_way s' = []) as Hu.
  { apply length_zero_iff_nil. rewrite <- (Permutation_length (qi_busy _ _ _ _ Hi)), length_fmap. lia. }
  split; [apply prefix_length_eq; [apply (si_prefix _ _ _ _ (qi_sq _ _ _ _ Hi))|lia]|].
  split; [apply length_zero_iff_nil; lia|].
  split; [apply prefix_length_eq; [apply (ci_prefix _ _ _ _ (qi_cq _ _ _ _ Hi))|lia]|].
  pose proof (qi_once _ _ _ _ Hi) as Ho. by rewrite Hu, app_nil_r in Ho.
Qed.

(** ** The operations with their records *)

(** What a driver program calls, on the pair with its records. *)
Definition q_acquire : M qpair nat := fun s =>
  match nvme_rq_acquire (q_sq s) with
  | (Ret i, sq) => (Ret i, mk_qpair sq (q_cq s) (sent s) (fetched s) (posted s) (got s) (i :: idle s) (busy s) (running s))
  | (Fail e, _) => (Fail e, s)
  | (Crash, _) => (Crash, s)
  end.
Definition q_opaque (i : nat) (o : Z) (s : qpair) : qpair :=
  mk_qpair (with_rqs (alter (with_opaque o) i (rqs (q_sq s))) (rq_top (q_sq s)) (q_sq s)) (q_cq s) (sent s) (fetched s)
    (posted s) (got s) (idle s) (busy s) (running s).
Definition q_post (i : nat) (cmd : nvme_cmd) (s : qpair) : qpair :=
  mk_qpair (nvme_sq_post cmd (q_sq s)) (q_cq s) (sent s ++ [cmd]) (fetched s) (posted s) (got s)
    (remove Nat.eq_dec i (idle s)) (i :: busy s) (running s).
Definition q_tail (s : qpair) : qpair :=
  mk_qpair (nvme_sq_update_tail (q_sq s)) (q_cq s) (sent s) (fetched s) (posted s) (got s) (idle s) (busy s) (running s).
Definition q_get : M qpair (option nvme_cqe) := fun s =>
  match nvme_cq_get_cqe (q_cq s) with
  | (Some cqe, cq) =>
      let i := __nvme_rq_from_cqe cqe in
      (Ret (Some cqe), mk_qpair (q_sq s) cq (sent s) (fetched s) (posted s) (got s ++ [cqe]) (i :: idle s)
         (remove Nat.eq_dec i (busy s)) (running s))
  | (None, _) => (Ret None, s)
  end.
Definition q_head (s : qpair) : qpair :=
  mk_qpair (q_sq s) (nvme_cq_update_head (q_cq s)) (sent s) (fetched s) (posted s) (got s) (idle s) (busy s) (running s).
Definition q_release (i : nat) (s : qpair) : qpair :=
  mk_qpair (nvme_rq_release i (q_sq s)) (q_cq s) (sent s) (fetched s) (posted s) (got s)
    (remove Nat.eq_dec i (idle s)) (busy s) (running s).

(** What the controller may do: fetch the next command it has been told of, or
    complete one of those it is working on.  Without work or room it does
    nothing. *)
Inductive move : Type := Fetch | Complete (k : nat) (result status : Z).

Definition ctl_move (s : qpair) (m : move) : qpair :=
  match m with
  | Fetch =>
      let n := (length (fetched s) mod sq_ring (q_sq s))%nat in
      if Z.of_nat n =? seen (sq_dbbuf (q_sq s)) (sq_mmio (q_sq s)) then s
      else match sq_entries (q_sq s) !! n with
           | Some sqe => mk_qpair (q_sq s) (q_cq s) (sent s) (fetched s ++ [sqe]) (posted s) (got s) (idle s) (busy s)
                           (cid sqe :: running s)
           | None => s
           end
  | Complete k result status =>
      let cq := q_cq s in
      let n := length (posted s) in
      let j := (k mod length (running s))%nat in
      match running s !! j with
      | Some c =>
          if Z.of_nat ((n + 1) mod ring_size cq) =? seen (cq_dbbuf cq) (cq_mmio cq) then s
          else
            let cqe := mk_cqe result 0 (u16 (Z.of_nat (length (fetched s) mod sq_ring (q_sq s)))) 0 c
              (2 * status + lap_bit (ring_size cq) n) in
            mk_qpair (q_sq s) (with_ring (<[(n mod ring_size cq)%nat := cqe]> (cq_entries cq)) (head cq) (phase cq) cq)
              (sent s) (fetched s) (posted s ++ [cqe]) (got s) (idle s) (busy s)
              (take j (running s) ++ drop (S j) (running s))
      | None => s
      end
  end.

Lemma tag_bit st q i : Z.land (2 * st + lap_bit q i) 0x1 = lap_bit q i.
Proof.
  change 0x1 with (Z.ones 1). rewrite Z.land_ones by lia. unfold lap_bit. pose proof (Nat.mod_upper_bound (i / q) 2).
  destruct ((i / q) mod 2)%nat as [|[|]]; [| |lia]; simpl; change (2 ^ 1) with 2; rewrite Z.mul_comm, Z.add_comm, Z.mod_add by lia; done.
Qed.

Section Operations.
Context (s : qpair) (free : list nat) (rung acked : nat) (Hinv : qpair_inv s free rung acked).

Lemma in_use_nodup : NoDup (idle s ++ busy s).
Proof using Hinv. pose proof (rq_inv_nodup _ _ _ _ (qi_rq _ _ _ _ Hinv)) as Hnd. by apply NoDup_app in Hnd as (_ & _ & Hnd). Qed.

Lemma q_acquire_inv :
  match q_acquire s with
  | (Ret i, s') => (i ∉ idle s ++ busy s) /\ exists free', free = i :: free' /\ qpair_inv s' free' rung acked
  | (Fail e, s') => s' = s /\ free = []
  | (Crash, _) => False
  end.
Proof using Hinv.
  pose proof (acquire_spec _ _ _ (qi_rq _ _ _ _ Hinv)) as Ha. pose proof (rq_inv_nodup _ _ _ _ (qi_rq _ _ _ _ Hinv)) as Hnd.
  unfold q_acquire. destruct s as [sq cq sn ft ps gt id bs rn]. simpl in *.
  destruct (nvme_rq_acquire sq) as [[i|e|] sq'] eqn:E; [|by destruct Ha as (_ & _ & ->)|done].
  destruct Ha as (free' & -> & Er & Hrq'). split; [apply NoDup_cons in Hnd as [Hnd _]; set_solver|]. exists free'. split; [done|].
  destruct Hinv as [Hsq Hcq Hrq Hl Hle Hb Ho]. destruct (acquire_ring _ _ _ E) as [top ->]. split; simpl; try done. by apply sq_inv_rqs.
Qed.

Lemma q_post_inv i rq cmd :
  i ∈ idle s -> rqs (q_sq s) !! i = Some rq -> cid cmd = Z.of_nat i -> qpair_inv (q_post i cmd s) free rung acked.
Proof using Hinv.
  intros Hi Er Hc. pose proof in_use_nodup as Hnd. destruct s as [sq cq sn ft ps gt id bs rn]. simpl in *.
  assert (nvme_rq_prep_cmd rq cmd = cmd) as Ec.
  { unfold nvme_rq_prep_cmd. rewrite (ri_cid _ _ _ _ (qi_rq _ _ _ _ Hinv) i rq Er), <- Hc. by destruct cmd. }
  apply list_elem_of_split in Hi as (id1 & id2 & ->). apply NoDup_app in Hnd as (Hnd & _). unfold q_post. simpl.
  rewrite (remove_split _ _ _ Hnd). rewrite <- Ec. by eapply post_step.
Qed.

Lemma q_release_inv i : i ∈ idle s -> qpair_inv (q_release i s) (i :: free) rung acked.
Proof using Hinv.
  intros Hi. pose proof in_use_nodup as Hnd. destruct s as [sq cq sn ft ps gt id bs rn]. simpl in *.
  apply list_elem_of_split in Hi as (id1 & id2 & ->). apply NoDup_app in Hnd as (Hnd & _). unfold q_release. simpl.
  rewrite (remove_split _ _ _ Hnd). destruct Hinv as [Hsq Hcq Hrq Hl Hle Hb Ho]. simpl in *. rewrite <- app_assoc in Hrq.
  split; simpl; try done; [by apply sq_inv_rqs|rewrite <- app_assoc; by apply release_rqs_inv|by rewrite length_alter].
Qed.

Lemma q_opaque_inv i o : qpair_inv (q_opaque i o s) free rung acked.
Proof using Hinv. destruct s. by apply opaque_step. Qed.
Lemma q_tail_inv : qpair_inv (q_tail s) free (length (sent s)) acked.
Proof using Hinv. destruct s. by eapply tail_step. Qed.
Lemma q_head_inv : qpair_inv (q_head s) free rung (length (got s)).
Proof using Hinv. destruct s. by eapply head_step. Qed.

Lemma q_get_inv :
  match q_get s with
  | (Ret (Some cqe), s') => let i := __nvme_rq_from_cqe cqe in
      (length (got s) < length (posted s))%nat /\ i ∈ busy s /\ s' = mk_qpair (q_sq s) (q_cq s') (sent s) (fetched s) (posted s)
        (got s ++ [cqe]) (i :: idle s) (remove Nat.eq_dec i (busy s)) (running s) /\
      length (busy s) = S (length (busy s')) /\ qpair_inv s' free rung acked
  | (Ret None, s') => s' = s /\ length (got s) = length (posted s)
  | _ => False
  end.
Proof using Hinv.
  pose proof (get_is_next _ _ _ _ Hinv) as Hn. unfold q_get. destruct s as [sq cq sn ft ps gt id bs rn]. simpl in *.
  destruct (nvme_cq_get_cqe cq) as [[cqe|] cq'] eqn:E; [|done]. destruct Hn as (Hlog & Hi & _).
  destruct (reap_step _ _ _ _ _ _ _ _ _ _ _ _ Hinv cqe cq' E) as [(bs1 & bs2 & Eb & _ & Er) Hinv'].
  split; [by eapply lookup_lt_Some|]. split; [done|]. split; [done|]. split; [|done]. simpl. rewrite Er, Eb, !length_app. simpl. lia.
Qed.

Lemma fetched_count : length (fetched s) = (length (running s) + length (posted s))%nat /\ (length (fetched s) <= rung)%nat.
Proof using Hinv.
  pose proof (Permutation_length (qi_once _ _ _ _ Hinv)) as Hl. unfold under_way in Hl.
  rewrite !length_app, !length_fmap, !length_drop in Hl.
  pose proof (si_order _ _ _ _ (qi_sq _ _ _ _ Hinv)). pose proof (ci_order _ _ _ _ (qi_cq _ _ _ _ Hinv)). lia.
Qed.
End Operations.

(** ** The controller's moves *)

(** What only the controller changes. *)
Definition same_driver (s s' : qpair) : Prop :=
  q_sq s' = q_sq s /\ sent s' = sent s /\ got s' = got s /\ idle s' = idle s /\ busy s' = busy s.

(** What the controller has left to do until everything it knows of is completed. *)
Definition to_serve (rung : nat) (s : qpair) : nat := 2 * (rung - length (fetched s)) + length (running s).

Lemma ctl_move_inv s m free rung acked :
  qpair_inv s free rung acked ->
  qpair_inv (ctl_move s m) free rung acked /\ same_driver s (ctl_move s m) /\
  (length (posted s) <= length (posted (ctl_move s m)))%nat /\
  (to_serve rung (ctl_move s m) <= to_serve rung s)%nat /\
  match m with
  | Fetch => (length (fetched s) < rung)%nat -> (to_serve rung (ctl_move s m) < to_serve rung s)%nat
  | Complete _ _ _ => running s <> [] -> acked = length (got s) -> (length (posted s) < length (posted (ctl_move s m)))%nat
  end.
Proof.
  intros Hinv. unfold same_driver, to_serve. destruct s as [sq cq sn ft ps gt id bs rn]. destruct m as [|k result status]; simpl.
  - pose proof (sq_fetch_spec _ _ _ _ (qi_sq _ _ _ _ Hinv)) as Hs. simpl in Hs.
    destruct (Z.eqb_spec (Z.of_nat (length ft mod sq_ring sq)) (seen (sq_dbbuf sq) (sq_mmio sq))) as [E|E].
    { simpl. split_and!; try done. lia. }
    destruct Hs as (sqe & Ex & _ & Hsq'). rewrite Ex. simpl. pose proof (fetch_step _ _ _ _ _ _ _ _ _ _ _ _ Hinv sqe E Ex) as Hi.
    pose proof (fetched_count _ _ _ _ Hi) as [_ Hle]. simpl in Hle. rewrite length_app in *. simpl in *.
    split_and!; try done; lia.
  - destruct (rn !! (k mod length rn)%nat) as [c|] eqn:Er.
    2: { split_and!; try done. intros Hne _. apply lookup_ge_None in Er. pose proof (Nat.mod_upper_bound k (length rn)).
         destruct rn; [done|]. simpl in *. lia. }
    assert (length rn <> 0)%nat by (intros E0; apply lookup_lt_Some in Er; lia).
    destruct (Z.eqb_spec (Z.of_nat ((length ps + 1) mod ring_size cq)) (seen (cq_dbbuf cq) (cq_mmio cq))) as [E|E].
    { split_and!; try done. intros _ Ea. destruct (room_to_complete _ _ _ _ _ _ _ _ _ _ _ _ Hinv ltac:(lia) Ea E). }
    simpl. split; [eapply complete_step; [done|symmetry; by apply take_drop_middle|done|apply tag_bit|done]|].
    apply lookup_lt_Some in Er. rewrite !length_app, length_take, length_drop. simpl. split_and!; try done; lia.
Qed.

Definition ctl_moves : qpair -> list move -> qpair := foldl ctl_move.

Lemma ctl_moves_inv ms s free rung acked :
  qpair_inv s free rung acked ->
  qpair_inv (ctl_moves s ms) free rung acked /\ same_driver s (ctl_moves s ms) /\
  (length (posted s) <= length (posted (ctl_moves s ms)))%nat /\
  (to_serve rung (ctl_moves s ms) <= to_serve rung s)%nat.
Proof.
  revert s. induction ms as [|m ms IH]; intros s Hinv; simpl; [by split_and!|].
  destruct (ctl_move_inv s m _ _ _ Hinv) as (Hi & (E1 & E2 & E3 & E4 & E5) & Hp & Hm & _).
  destruct (IH _ Hi) as (Hi' & (F1 & F2 & F3 & F4 & F5) & Hp' & Hm'). split; [done|].
  split; [by split_and!; etrans|]. split; lia.
Qed.

(** A list of moves with one that helps helps. *)
Lemma ctl_moves_help ms s free rung acked :
  qpair_inv s free rung acked -> acked = length (got s) -> length (got s) = length (posted s) -> (length (got s) < rung)%nat ->
  (if decide (length (fetched s) < rung)%nat then Fetch ∈ ms else exists k r st, Complete k r st ∈ ms) ->
  (length (posted s) < length (posted (ctl_moves s ms)))%nat \/ (to_serve rung (ctl_moves s ms) < to_serve rung s)%nat.
Proof.
  intros Hinv Ea Eg Hlt Hhelp.
  assert (exists m ms1 ms2, ms = ms1 ++ m :: ms2 /\
    if decide (length (fetched s) < rung)%nat then m = Fetch else exists k r st, m = Complete k r st) as (m & ms1 & ms2 & -> & Hm).
  { case_decide; [apply list_elem_of_split in Hhelp as (ms1 & ms2 & ->); by exists Fetch, ms1, ms2|].
    destruct Hhelp as (k & r & st & Hin). apply list_elem_of_split in Hin as (ms1 & ms2 & ->).
    exists (Complete k r st), ms1, ms2. eauto. }
  unfold ctl_moves. rewrite foldl_app. simpl. fold (ctl_moves s ms1).
  destruct (ctl_moves_inv ms1 s _ _ _ Hinv) as (Hi1 & (_ & _ & E3 & _) & Hp1 & Hm1). set (s1 := ctl_moves s ms1) in *.
  destruct (ctl_move_inv s1 m _ _ _ Hi1) as (Hi2 & _ & Hp2 & Hm2 & Hx). set (s2 := ctl_move s1 m) in *.
  destruct (ctl_moves_inv ms2 s2 _ _ _ Hi2) as (_ & _ & Hp3 & Hm3). unfold ctl_moves in *.
  pose proof (fetched_count _ _ _ _ Hinv) as [Hc Hf]. pose proof (fetched_count _ _ _ _ Hi1) as [Hc1 Hf1].
  unfold to_serve in *. case_decide as Hd.
  - subst m. destruct (decide (length (fetched s1) < rung)%nat) as [H1|H1]; [specialize (Hx H1); lia|lia].
  - destruct Hm as (k & r & st & ->). destruct (decide (length (posted s) < length (posted s1))%nat); [lia|].
    left. eapply Nat.lt_le_trans; [|exact Hp3]. eapply Nat.le_lt_trans; [exact Hp1|]. apply Hx; [|congruence].
    intros E0. rewrite E0 in Hc1. simpl in *. lia.
Qed.

(** ** A run *)

(** Two commands completed out of order on the smallest pair with room for them. *)
Definition demo_pair_cq : nvme_cq := mk_cq zero_dmabuf (replicate 4 zero_cqe) 1 0 4 0x1004 [] no_dbbuf 0 0 0.
Definition demo_pair : qpair := mk_qpair demo_rq_sq demo_pair_cq [] [] [] [] [] [] [].

Lemma demo_pair_fresh : qpair_fresh demo_pair.
Proof.
  repeat split; try (vm_compute; congruence).
  - repeat constructor.
  - exists [2; 1; 0]%nat. exact demo_rqs_inv.
Qed.

Definition demo_run : qpair :=
  let step1 := snd (nvme_rq_acquire (snd (nvme_rq_acquire demo_rq_sq))) in
  let sq := nvme_sq_update_tail (nvme_sq_post (demo_cmd 1) (nvme_sq_post (demo_cmd 2) step1)) in
  let cq := with_ring [demo_cqe 1 1; demo_cqe 2 1; zero_cqe; zero_cqe] 0 0 demo_pair_cq in
  mk_qpair sq (snd (nvme_cq_get_cqe cq)) [demo_cmd 2; demo_cmd 1] [demo_cmd 2; demo_cmd 1] [demo_cqe 1 1; demo_cqe 2 1]
    [demo_cqe 1 1] [1]%nat [2]%nat [].

Lemma demo_run_reachable : rtc qpair_step demo_pair demo_run.
Proof.
  eapply rtc_l; [eapply d_acquire; vm_compute; reflexivity|].
  eapply rtc_l; [eapply d_acquire; vm_compute; reflexivity|].
  eapply rtc_l; [eapply (d_post _ _ _ _ _ _ [1%nat] 2 [] _ _ _ (demo_cmd 0)); vm_compute; reflexivity|].
  eapply rtc_l; [eapply (d_post _ _ _ _ _ _ [] 1 [] _ _ _ (demo_cmd 0)); vm_compute; reflexivity|].
  eapply rtc_l; [apply d_tail|].
  eapply rtc_l; [eapply c_fetch; [vm_compute; discriminate|vm_compute; reflexivity]|].
  eapply rtc_l; [eapply c_fetch; [vm_compute; discriminate|vm_compute; reflexivity]|].
  eapply rtc_l; [eapply (c_complete _ _ _ _ _ _ _ _ [] 1 [2] (demo_cqe 1 1)); [vm_compute; discriminate|reflexivity|reflexivity]|].
  eapply rtc_l; [eapply (c_complete _ _ _ _ _ _ _ _ [] 2 [] (demo_cqe 2 1)); [vm_compute; discriminate|reflexivity|reflexivity]|].
  eapply rtc_l; [eapply d_reap; vm_compute; reflexivity|].
  vm_compute. apply rtc_refl.
Qed.

Lemma queue_pair_exact_witness : [2; 1] ≡ₚ [1; 2] /\ fst (nvme_cq_get_cqe (q_cq demo_run)) = Some (demo_cqe 2 1).
Proof.
  destruct (queue_pair_exact demo_pair demo_run demo_pair_fresh demo_run_reachable) as (_ & _ & H1 & _ & _ & _ & H2 & _).
  split; [exact H1|]. destruct (nvme_cq_get_cqe (q_cq demo_run)) as [[c|] cq'] eqn:E.
  - destruct H2 as [H2 _]. vm_compute in H2. simpl. exact (eq_sym H2).
  - vm_compute in E. discriminate E.
Defined.

Lemma queue_pair_drains_witness : exists s', rtc qpair_step demo_run s' /\ busy s' = [].
Proof.
  destruct (queue_pair_drains demo_pair demo_run demo_pair_fresh demo_run_reachable) as (s' & H1 & _ & _ & H2 & _).
  exists s'. split; [exact H1|exact H2].
Defined.
