(* ===== verification/Perf.v ===== *)
(** * Perf: the benchmark, examples/perf.c

    A driver program on one pair of queues: it keeps [io_depth] reads under way
    until its time is over and then waits for those that are left.

    The controller acts when the driver polls: what it does in between is seen at
    the next poll only.  [ticks] is the time at each look at the clock, of which
    [get_ticks] returns the low 64 bits, [rand] those of [rand()], [calloc] tells whether an allocation succeeds,
    [ctl] what the controller does before each poll.  What is printed is left
    out. *)

From S2P Require Import Prelude Support Skiplist IovaAlloc VfioIova Dma NvmeTypes Prp NvmeQueue NvmeRq QueuePair Client.
Local Open Scope Z_scope.
Local Open Scope vfn_scope.

(** ** State *)

Record perf_stats : Type := mk_stats {
  completed : Z;
  completed_quantum : Z;
  ttotal : Z;
  tmin : Z;
  tmax : Z
}.
Definition zero_stats : perf_stats := mk_stats 0 0 0 0 0.

Record iod : Type := mk_iod { tsubmit : Z; iod_cmd : nvme_cmd }.

(** The static variables; [iods] are the allocated descriptors, the pointer to
    descriptor [k] is [k + 1]; [reads], [draws] and [polls] count the values taken
    from the clock, from [rand()] and the polls. *)
Record perf (B : Type) : Type := mk_perf {
  ctx : iommu_ctx B;
  qp : qpair;
  iods : list iod;
  draining : bool;
  queued : Z;
  slba : Z;
  stats : perf_stats;
  reads : nat;
  draws : nat;
  polls : nat
}.
Arguments mk_perf {B}.
Arguments ctx {B}.
Arguments qp {B}.
Arguments iods {B}.
Arguments draining {B}.
Arguments queued {B}.
Arguments slba {B}.
Arguments stats {B}.
Arguments reads {B}.
Arguments draws {B}.
Arguments polls {B}.

(** The options, after they have been checked, and what [main] has read from the
    namespace. *)
Record perf_opts : Type := mk_perf_opts {
  p_nsid : Z;
  runtime_in_seconds : Z;
  warmup_in_seconds : Z;
  update_stats_interval : Z;
  io_depth : Z;
  random_io : bool;
  nsze : Z;
  __vfn_ticks_freq : Z
}.

(** [cmd.rw.slba] through the words of the command. *)
Definition set_slba (v : Z) (c : nvme_cmd) : nvme_cmd :=
  mk_cmd (opcode c) (flags c) (cid c) (nsid c) (cdw2 c) (cdw3 c) (mptr c) (dptr c)
    (Z.land v 0xffffffff) (Z.shiftr v 32) (cdw12 c) (cdw13 c) (cdw14 c) (cdw15 c).
Definition slba_of (c : nvme_cmd) : Z := cdw10 c + Z.shiftl (cdw11 c) 32.


(** ** The program *)

Section Perf.
Context {B : Type} (ops : iommu_ctx_ops B) (o : perf_opts).
Context (ticks rand : nat -> Z) (calloc : nat -> bool) (ctl : nat -> list move).

Definition on_qp {A} (m : M qpair A) : M (perf B) A := fun p =>
  let '(r, q) := m (qp p) in
  (r, mk_perf (ctx p) q (iods p) (draining p) (queued p) (slba p) (stats p) (reads p) (draws p) (polls p)).
Definition on_iommu {A} (m : M (iommu_ctx B) A) : M (perf B) A := fun p =>
  let '(r, c) := m (ctx p) in
  (r, mk_perf c (qp p) (iods p) (draining p) (queued p) (slba p) (stats p) (reads p) (draws p) (polls p)).
Definition set_iods (l : list iod) (p : perf B) : perf B :=
  mk_perf (ctx p) (qp p) l (draining p) (queued p) (slba p) (stats p) (reads p) (draws p) (polls p).
Definition set_queued (n : Z) (p : perf B) : perf B :=
  mk_perf (ctx p) (qp p) (iods p) (draining p) n (slba p) (stats p) (reads p) (draws p) (polls p).
Definition set_lba (v : Z) (p : perf B) : perf B :=
  mk_perf (ctx p) (qp p) (iods p) (draining p) (queued p) v (stats p) (reads p) (draws p) (polls p).
Definition set_stats (st : perf_stats) (p : perf B) : perf B :=
  mk_perf (ctx p) (qp p) (iods p) (draining p) (queued p) (slba p) st (reads p) (draws p) (polls p).
Definition set_draining (p : perf B) : perf B :=
  mk_perf (ctx p) (qp p) (iods p) true (queued p) (slba p) (stats p) (reads p) (draws p) (polls p).

Definition get_ticks : M (perf B) Z := fun p =>
  (Ret (u64 (ticks (reads p))),
   mk_perf (ctx p) (qp p) (iods p) (draining p) (queued p) (slba p) (stats p) (S (reads p)) (draws p) (polls p)).
Definition get_rand : M (perf B) Z := fun p =>
  (Ret (rand (draws p)),
   mk_perf (ctx p) (qp p) (iods p) (draining p) (queued p) (slba p) (stats p) (reads p) (S (draws p)) (polls p)).
(** The controller acts, then the driver looks. *)
Definition poll : M (perf B) (option nvme_cqe) := fun p =>
  on_qp q_get
    (mk_perf (ctx p) (ctl_moves (qp p) (ctl (polls p))) (iods p) (draining p) (queued p) (slba p) (stats p) (reads p)
       (draws p) (S (polls p))).

(** [rq->opaque], followed. *)
Definition iod_of (i : nat) : M (perf B) (nat * iod) := fun p =>
  match rqs (q_sq (qp p)) !! i with
  | Some rq =>
      match Z.to_nat (opaque rq) with
      | O => (Crash, p)
      | S k => match iods p !! k with Some d => (Ret (k, d), p) | None => (Crash, p) end
      end
  | None => (Crash, p)
  end.
Definition store_iod (k : nat) (d : iod) : M (perf B) unit := modify (fun p => set_iods (<[k := d]> (iods p)) p).

(** The remainder by 0 is undefined. *)
Definition io_issue (i : nat) : M (perf B) unit :=
  let* kd := iod_of i in
  let '(k, d) := kd in
  let* lba := gets slba in
  let* lba :=
    if random_io o then
      let* r := get_rand in
      if nsze o =? 0 then crash else ret (r mod nsze o)
    else
      let lba := u64 (lba + 1) in
      ret (if lba =? nsze o then 0 else lba) in
  do* modify (set_lba lba) in
  let cmd := set_slba lba (iod_cmd d) in
  let* t := get_ticks in
  do* store_iod k (mk_iod t cmd) in
  do* on_qp (modify (q_post i cmd)) in
  modify (fun p => set_queued (u32 (queued p + 1)) p).

Definition io_complete (i : nat) : M (perf B) unit :=
  let* kd := iod_of i in
  let d := kd.2 in
  do* modify (fun p => set_stats (mk_stats (completed (stats p)) (u64 (completed_quantum (stats p) + 1)) (ttotal (stats p))
    (tmin (stats p)) (tmax (stats p))) p) in
  do* modify (fun p => set_queued (u32 (queued p - 1)) p) in
  let* t := get_ticks in
  let diff := u64 (t - tsubmit d) in
  do* modify (fun p => let st := stats p in
    set_stats (mk_stats (completed st) (completed_quantum st) (u64 (ttotal st + diff))
      (if diff <? tmin st then diff else tmin st) (if tmax st <? diff then diff else tmax st)) p) in
  let* dr := gets draining in
  if dr then on_qp (modify (q_release i)) else io_issue i.

(** The text shown on a terminal is left out. *)
Definition update_and_print_stats : M (perf B) unit :=
  modify (fun p => let st := stats p in
    set_stats (mk_stats (u64 (completed st + completed_quantum st)) 0 (ttotal st) (tmin st) (tmax st)) p).

Fixpoint reap_loop (fuel : nat) (reaped : Z) : M (perf B) Z :=
  match fuel with
  | O => crash
  | S fuel =>
      let* cqe := poll in
      match cqe with
      | None => ret reaped
      | Some cqe =>
          do* io_complete (__nvme_rq_from_cqe cqe) in
          reap_loop fuel (reaped + 1)
      end
  end.

(** As many rounds as the queue has entries are enough. *)
Definition reap : M (perf B) Z :=
  let* p := get in
  let* reaped := reap_loop (sq_ring (q_sq (qp p))) 0 in
  do* when (negb (reaped =? 0)) (on_qp (modify q_head)) in
  ret reaped.

(** [while (!reap())] *)
Fixpoint reap_some (fuel : nat) : M (perf B) unit :=
  match fuel with
  | O => crash
  | S fuel => let* n := reap in if n =? 0 then reap_some fuel else ret tt
  end.

Definition update_tail : M (perf B) unit := on_qp (modify q_tail).

(** The descriptor of a tracker: allocated, prepared and attached. *)
Definition setup_iod (i : nat) (iova : Z) : M (perf B) unit :=
  let* p := get in
  let k := length (iods p) in
  if negb (calloc k) then crash
  else
    match rqs (q_sq (qp p)) !! i with
    | None => crash
    | Some rq =>
        let cmd := mk_cmd nvme_cmd_read 0 0 (u32 (p_nsid o)) 0 0 0 (dptr_prp iova 0) 0 0 0 0 0 0 in
        do* modify (set_iods (iods p ++ [mk_iod 0 (nvme_rq_prep_cmd rq cmd)])) in
        on_qp (modify (q_opaque i (Z.of_nat (S k))))
    end.

(** [do { ... } while (true && --to_submit > 0)], at most [io_depth] rounds. *)
Fixpoint submit_loop (fuel : nat) (iova : Z) : M (perf B) unit :=
  match fuel with
  | O => ret tt
  | S fuel =>
      let* r := try (on_qp q_acquire) in
      match r with
      | inl _ => ret tt
      | inr i =>
          do* setup_iod i iova in
          do* io_issue i in
          submit_loop fuel (u64 (iova + 0x1000))
      end
  end.

Fixpoint main_loop (fuel : nat) (deadline update_stats : Z) (warmup : bool) : M (perf B) unit :=
  match fuel with
  | O => crash
  | S fuel' =>
      do* reap_some fuel in
      do* update_tail in
      let* now := get_ticks in
      let tupdate := u64 (update_stats_interval o * __vfn_ticks_freq o) in
      do* when (update_stats <? now) update_and_print_stats in
      let update_stats := if update_stats <? now then u64 (update_stats + tupdate) else update_stats in
      if deadline <? now then
        if warmup then
          do* modify (set_stats (mk_stats 0 0 0 UINT64_MAX 0)) in
          main_loop fuel' (u64 (now + u64 (runtime_in_seconds o * __vfn_ticks_freq o))) update_stats false
        else ret tt
      else main_loop fuel' deadline update_stats warmup
  end.

(** [do { reap(); } while (queued)] *)
Fixpoint drain_loop (fuel : nat) : M (perf B) unit :=
  match fuel with
  | O => crash
  | S fuel =>
      do* reap in
      let* n := gets queued in
      if n =? 0 then ret tt else drain_loop fuel
  end.

(** [mem] is what [mmap] returns; only a null pointer is taken for its failure. *)
Definition run (fuel : nat) (mem indet : Z) : M (perf B) unit :=
  let* now := get_ticks in
  let twarmup := u64 (warmup_in_seconds o * __vfn_ticks_freq o) in
  let trun := u64 (runtime_in_seconds o * __vfn_ticks_freq o) in
  let tupdate := u64 (update_stats_interval o * __vfn_ticks_freq o) in
  let warmup := 0 <? warmup_in_seconds o in
  let deadline := u64 (now + (if warmup then twarmup else trun)) in
  do* modify (fun p => let st := stats p in
    set_stats (mk_stats (completed st) (completed_quantum st) (ttotal st) UINT64_MAX (tmax st)) p) in
  if mem =? 0 then fail ENOMEM
  else
    let* iova := on_iommu (iommu_map_vaddr ops mem (io_depth o * 0x1000) None 0 indet) in
    do* submit_loop (Z.to_nat (io_depth o)) iova in
    do* update_tail in
    do* main_loop fuel deadline (u64 (now + tupdate)) warmup in
    do* update_and_print_stats in
    do* modify set_draining in
    do* update_tail in
    drain_loop fuel.
End Perf.

(** ** Invariant *)

Section Invariant.
Context {B : Type} (ops : iommu_ctx_ops B) (o : perf_opts).
Context (ticks rand : nat -> Z) (calloc : nat -> bool) (ctl : nat -> list move).
Context (namespace_size : 0 < nsze o <= UINT64_MAX).
(** The I/O address of the buffer. *)
Context (iova0 : Z).

(** A read, of a block of the namespace, into a page of the buffer. *)
Definition ready_cmd (c : nvme_cmd) : Prop :=
  opcode c = nvme_cmd_read /\ nsid c = u32 (p_nsid o) /\
  exists j, 0 <= j < io_depth o /\ dptr c = dptr_prp (u64 (iova0 + 0x1000 * j)) 0.
Definition good_cmd (c : nvme_cmd) : Prop := ready_cmd c /\ 0 <= slba_of c < nsze o.

(** The tracker leads to its descriptor. *)
Definition has_iod (p : perf B) (i : nat) : Prop :=
  exists rq k d, rqs (q_sq (qp p)) !! i = Some rq /\ opaque rq = Z.of_nat (S k) /\ iods p !! k = Some d /\
    cid (iod_cmd d) = Z.of_nat i /\ ready_cmd (iod_cmd d).

(** [x]: completions taken and not yet counted; [base]: completions taken when the
    counters were last cleared. *)
Record perf_inv (x base : Z) (p : perf B) (free : list nat) (rung acked : nat) : Prop := {
  pi_pair : qpair_inv (qp p) free rung acked;
  pi_queued : queued p = Z.of_nat (length (busy (qp p))) + x;
  pi_iods : forall i, i ∈ busy (qp p) -> has_iod p i;
  pi_slba : 0 <= slba p < nsze o;
  pi_sent : Forall good_cmd (sent (qp p));
  pi_count : u64 (completed (stats p) + completed_quantum (stats p)) = u64 (Z.of_nat (length (got (qp p))) - base - x)
}.

Lemma slba_set v c : 0 <= v -> slba_of (set_slba v c) = v.
Proof.
  intros Hv. unfold slba_of, set_slba. simpl. rewrite Z.shiftl_mul_pow2, Z.shiftr_div_pow2 by lia.
  change 0xffffffff with (Z.ones 32). rewrite Z.land_ones by lia. pose proof (Z.div_mod v (2 ^ 32)). lia.
Qed.

Lemma queue_small q free rung acked : qpair_inv q free rung acked -> Z.of_nat (length (idle q) + length (busy q)) <= 65535.
Proof.
  intros Hi. pose proof (under_way_bound _ _ _ _ Hi) as [Hb _]. pose proof (si_size _ _ _ _ (qi_sq _ _ _ _ Hi)). lia.
Qed.

Lemma next_lba (p : perf B) : 0 <= slba p < nsze o ->
  exists v (p' : perf B), (if random_io o then
      let* r := get_rand rand in
      if nsze o =? 0 then crash else ret (r mod nsze o)
    else ret (if u64 (slba p + 1) =? nsze o then 0 else u64 (slba p + 1))) p = (Ret v, p') /\ 0 <= v < nsze o /\
    p' = mk_perf (ctx p) (qp p) (iods p) (draining p) (queued p) (slba p) (stats p) (reads p) (draws p') (polls p).
Proof using namespace_size.
  intros Hl. destruct (random_io o).
  - eexists _, _. unfold bind, get_rand. destruct (Z.eqb_spec (nsze o) 0); [lia|]. split; [done|].
    split; [apply Z.mod_pos_bound; lia|done].
  - eexists _, p. split; [done|]. unfold u64. rewrite Z.mod_small by (unfold UINT64_MAX in *; lia).
    split; [|by destruct p]. destruct (Z.eqb_spec (slba p + 1) (nsze o)); lia.
Qed.

(** What an issue leaves alone. *)
Definition issued (i : nat) (p p' : perf B) : Prop :=
  draining p' = draining p /\ reads p' = S (reads p) /\ polls p' = polls p /\ ctx p' = ctx p /\ stats p' = stats p /\
  got (qp p') = got (qp p) /\ posted (qp p') = posted (qp p) /\ idle (qp p') = remove Nat.eq_dec i (idle (qp p)) /\
  busy (qp p') = i :: busy (qp p) /\ rqs (q_sq (qp p')) = rqs (q_sq (qp p)) /\ length (iods p') = length (iods p) /\
  length (sent (qp p')) = S (length (sent (qp p))).

Lemma has_iod_store p p' k d lba t j :
  iods p !! k = Some d -> rqs (q_sq (qp p')) = rqs (q_sq (qp p)) ->
  iods p' = <[k := mk_iod t (set_slba lba (iod_cmd d))]> (iods p) -> has_iod p j -> has_iod p' j.
Proof.
  intros Hk Ers Eio (rq & k' & d' & Er & Eo & Ed & Ec & Hr). unfold has_iod. rewrite Ers, Eio.
  destruct (decide (k = k')) as [<-|Hne].
  - rewrite Hk in Ed. injection Ed as <-. eexists rq, k, _. split; [done|]. split; [done|].
    rewrite list_lookup_insert_eq by (by eapply lookup_lt_Some). by split_and!.
  - exists rq, k', d'. split; [done|]. split; [done|]. by rewrite list_lookup_insert_ne.
Qed.

Lemma io_issue_inv base i p free rung acked :
  perf_inv 0 base p free rung acked -> i ∈ idle (qp p) -> has_iod p i ->
  exists p', io_issue o ticks rand i p = (Ret tt, p') /\ perf_inv 0 base p' free rung acked /\ issued i p p'.
Proof using namespace_size.
  intros [Hp Hq Hio Hl Hs Hc] Hi Hiod. pose proof Hiod as (rq & k & d & Er & Eo & Ed & Ec & Hr).
  pose proof (queue_small _ _ _ _ Hp) as Hsmall. destruct (next_lba p Hl) as (v & p1 & Ev & Hv & Ep1).
  unfold io_issue. rewrite (bind_ret (iod_of i) _ p (k, d) p); [|unfold iod_of; rewrite Er, Eo, Nat2Z.id, Ed; done].
  unfold gets. rewrite (bind_ret _ _ p (slba p) p) by done. rewrite (bind_ret _ _ p v p1) by exact Ev.
  eexists. split; [reflexivity|]. rewrite Ep1. clear Ev Ep1.
  set (cmd := set_slba v (iod_cmd d)). split; [split; simpl|by split_and!; simpl; rewrite ?length_insert, ?length_app; simpl; try lia].
  - eapply q_post_inv; [done|done|done|]. by rewrite <- Ec.
  - rewrite Hq. unfold u32. rewrite Z.mod_small by lia. lia.
  - intros j Hj. apply (has_iod_store p _ k d v (u64 (ticks (reads p))) j Ed); [done|done|].
    apply elem_of_cons in Hj as [->|Hj]; [done|by apply Hio].
  - done.
  - apply Forall_app. split; [done|]. constructor; [|done]. split; [done|]. unfold cmd. by rewrite slba_set by lia.
  - done.
Qed.
Lemma has_iod_same p p' i : rqs (q_sq (qp p')) = rqs (q_sq (qp p)) -> iods p' = iods p -> has_iod p i -> has_iod p' i.
Proof. unfold has_iod. by intros -> ->. Qed.

(** What polling leaves alone. *)
Definition polled (p p' : perf B) : Prop :=
  draining p' = draining p /\ reads p' = reads p /\ polls p' = S (polls p) /\ ctx p' = ctx p /\ stats p' = stats p.

Lemma poll_inv base p free rung acked :
  perf_inv 0 base p free rung acked ->
  exists r p', poll ctl p = (Ret r, p') /\ polled p p' /\
  match r with
  | None => perf_inv 0 base p' free rung acked /\ qp p' = ctl_moves (qp p) (ctl (polls p)) /\
      length (got (qp p')) = length (posted (qp p')) /\ same_driver (qp p) (qp p')
  | Some cqe => let i := __nvme_rq_from_cqe cqe in
      perf_inv 1 base p' free rung acked /\ has_iod p' i /\ idle (qp p') = i :: idle (qp p) /\
      got (qp p') = got (qp p) ++ [cqe] /\ length (busy (qp p)) = S (length (busy (qp p'))) /\ sent (qp p') = sent (qp p) /\
      q_sq (qp p') = q_sq (qp p)
  end.
Proof.
  intros [Hp Hq Hio Hl Hs Hc]. unfold poll, on_qp, polled. simpl.
  destruct (ctl_moves_inv (ctl (polls p)) _ _ _ _ Hp) as (Hi & Hsame & _). pose proof Hsame as (E1 & E2 & E3 & E4 & E5).
  set (q1 := ctl_moves (qp p) (ctl (polls p))) in *.
  pose proof (q_get_inv q1 _ _ _ Hi) as Hg. destruct (q_get q1) as [[[cqe|]|e|] q2]; [| |done|done].
  - destruct Hg as (_ & Hin & -> & Hlen & Hi2). eexists _, _. split; [reflexivity|]. split; [done|]. simpl in *.
    rewrite E1, E2, E3, E4, E5 in *. pose proof (Hio _ Hin) as Hiod.
    split; [split; simpl|].
    + done.
    + rewrite Hq. lia.
    + intros j Hj. apply list_elem_of_In, in_remove in Hj as [Hj _]. apply list_elem_of_In in Hj.
      eapply (has_iod_same p); [done|done|]. by apply Hio.
    + done.
    + done.
    + rewrite Hc, length_app. simpl. f_equal. lia.
    + by split_and!.
  - destruct Hg as [-> Hlen]. eexists _, _. split; [reflexivity|]. split; [done|]. simpl.
    split; [split; simpl; rewrite ?E1, ?E2, ?E3, ?E4, ?E5; try done|done].
    intros j Hj. eapply (has_iod_same p); [by rewrite <- E1|done|]. by apply Hio.
Qed.

Lemma u64_succ a b : u64 (a + u64 (b + 1)) = u64 (a + b + 1).
Proof. unfold u64. rewrite Zplus_mod_idemp_r. f_equal. lia. Qed.

Lemma count_one a b c : u64 (a + b) = u64 (c - 1) -> u64 (a + u64 (b + 1)) = u64 (c - 0).
Proof.
  intros H. rewrite u64_succ. unfold u64 in *. rewrite (Zplus_mod (a + b) 1), H, <- Zplus_mod. f_equal. lia.
Qed.

(** What a completion leaves alone; the tracker is reused, or free when
    draining. *)
Definition handled (p p' : perf B) : Prop :=
  draining p' = draining p /\ (reads p <= reads p' <= reads p + 2)%nat /\ polls p' = polls p /\ ctx p' = ctx p /\
  got (qp p') = got (qp p) /\ posted (qp p') = posted (qp p) /\ idle (qp p') = [] /\
  length (busy (qp p')) = (if draining p then length (busy (qp p)) else S (length (busy (qp p)))) /\
  length (sent (qp p')) = (if draining p then length (sent (qp p)) else S (length (sent (qp p)))).

Lemma io_complete_inv base i p free rung acked :
  perf_inv 1 base p free rung acked -> idle (qp p) = [i] -> has_iod p i ->
  exists free' p', io_complete o ticks rand i p = (Ret tt, p') /\ perf_inv 0 base p' free' rung acked /\ handled p p'.
Proof using namespace_size.
  intros [Hp Hq Hio Hl Hs Hc] Hid Hiod. pose proof Hiod as (rq & k & d & Er & Eo & Ed & _).
  pose proof (queue_small _ _ _ _ Hp) as Hsmall.
  unfold io_complete. rewrite (bind_ret (iod_of i) _ p (k, d) p); [|unfold iod_of; rewrite Er, Eo, Nat2Z.id, Ed; done]. simpl.
  unfold bind, modify, get_ticks, gets, set_stats, set_queued. simpl.
  set (st := mk_stats _ _ _ _ _). set (q := u32 (queued p - 1)).
  assert (q = Z.of_nat (length (busy (qp p))) + 0) as Eq.
  { unfold q. rewrite Hq. unfold u32. rewrite Z.mod_small by lia. lia. }
  assert (u64 (completed st + completed_quantum st) = u64 (Z.of_nat (length (got (qp p))) - base - 0)) as Ec.
  { unfold st. simpl. by apply count_one. }
  clearbody st q. destruct (draining p) eqn:Edr.
  - exists (i :: free). eexists. split; [reflexivity|]. split; [split; simpl; try done|].
    + apply q_release_inv; [done|]. rewrite Hid. by left.
    + intros j Hj. destruct (Hio j Hj) as (rqj & kj & dj & Erj & H'). exists rqj, kj, dj. split; [|done]. simpl.
      rewrite list_lookup_alter_ne; [done|]. intros <-. pose proof (in_use_nodup _ _ _ _ Hp) as Hnd. rewrite Hid in Hnd.
      apply NoDup_cons in Hnd as [Hnd _]. by apply Hnd.
    + unfold handled. simpl. rewrite Hid, Edr. simpl. destruct (Nat.eq_dec i i); [|done]. split_and!; try done; lia.
  - set (p1 := mk_perf (ctx p) (qp p) (iods p) false q (slba p) st (S (reads p)) (draws p) (polls p)).
    assert (perf_inv 0 base p1 free rung acked) as Hi1 by (split; done).
    destruct (io_issue_inv base i p1 _ _ _ Hi1) as (p' & E' & Hi' & His); [simpl; rewrite Hid; by left|done|].
    exists free, p'. split; [exact E'|]. split; [done|]. destruct His as (I1 & I2 & I3 & I4 & I5 & I6 & I7 & I8 & I9 & _ & _ & I12).
    unfold handled. rewrite Edr. simpl in *. rewrite I8, I9, Hid. simpl. destruct (Nat.eq_dec i i); [|done].
    split_and!; try done; lia.
Qed.
(** After taking [n] completions. *)
Definition reaped (n : nat) (p p' : perf B) : Prop :=
  draining p' = draining p /\ (reads p <= reads p' <= reads p + 2 * n)%nat /\ ctx p' = ctx p /\ idle (qp p') = [] /\
  length (got (qp p')) = (length (got (qp p)) + n)%nat /\
  length (busy (qp p)) = (if draining p then length (busy (qp p')) + n else length (busy (qp p')))%nat /\
  length (sent (qp p')) = (if draining p then length (sent (qp p)) else length (sent (qp p)) + n)%nat.

Lemma got_visible q free rung acked : qpair_inv q free rung acked -> (length (got q) <= length (posted q) <= rung)%nat.
Proof.
  intros Hi. pose proof (fetched_count _ _ _ _ Hi) as [H1 H2]. pose proof (ci_order _ _ _ _ (qi_cq _ _ _ _ Hi)) as [H3 _]. lia.
Qed.

Lemma reap_loop_inv base fuel p free rung acked r :
  perf_inv 0 base p free rung acked -> idle (qp p) = [] -> (rung < fuel + length (got (qp p)))%nat ->
  exists n free' p', reap_loop o ticks rand ctl fuel r p = (Ret (r + Z.of_nat n), p') /\
    perf_inv 0 base p' free' rung acked /\ reaped n p p' /\ length (got (qp p')) = length (posted (qp p')) /\
    (n = O -> qp p' = ctl_moves (qp p) (ctl (polls p)) /\ polls p' = S (polls p)).
Proof using namespace_size.
  revert p free r. induction fuel as [|fuel IH]; intros p free r Hi Hid Hf.
  { pose proof (got_visible _ _ _ _ (pi_pair _ _ _ _ _ _ Hi)). lia. }
  destruct (poll_inv base p free rung acked Hi) as ([cqe|] & p1 & E1 & (P1 & P2 & P3 & P4 & P5) & Hr); simpl.
  - destruct Hr as (Hi1 & Hiod & Eid & Eg & Hb & Es & _). rewrite Hid in Eid.
    destruct (io_complete_inv base _ p1 free rung acked Hi1 Eid Hiod) as (free2 & p2 & E2 & Hi2 & H2).
    destruct H2 as (A1 & A2 & A3 & A4 & A5 & A6 & A7 & A8 & A9).
    destruct (IH p2 free2 (r + 1) Hi2 A7) as (n & free' & p' & E' & Hi' & (R1 & R2 & R3 & R4 & R5 & R6 & R7) & Hend & _).
    { rewrite A5, Eg, length_app. simpl. lia. }
    exists (S n), free', p'. rewrite (bind_ret _ _ _ _ _ E1), (bind_ret _ _ _ _ _ E2), E'.
    split; [do 2 f_equal; lia|]. split; [done|]. split; [|done]. unfold reaped. rewrite A1, P1 in R6, R7. rewrite P1 in A8, A9.
    rewrite Es in A9. rewrite A5, Eg, length_app in R5. simpl in R5.
    destruct (draining p); split_and!; try done; try congruence; lia.
  - destruct Hr as (Hi1 & Eq & Hlen & (S1 & S2 & S3 & S4 & S5)). exists O, free, p1. rewrite (bind_ret _ _ _ _ _ E1).
    split; [unfold ret; do 2 f_equal; lia|]. split; [done|]. split; [|done]. unfold reaped.
    rewrite S2, S3, S4, S5, P1, P2, P4, !Nat.add_0_r. by destruct (draining p).
Qed.

Lemma reap_inv base p free rung :
  perf_inv 0 base p free rung (length (got (qp p))) -> idle (qp p) = [] ->
  exists n free' p', reap o ticks rand ctl p = (Ret (Z.of_nat n), p') /\
    perf_inv 0 base p' free' rung (length (got (qp p'))) /\ reaped n p p' /\
    (n = O -> qp p' = ctl_moves (qp p) (ctl (polls p)) /\ polls p' = S (polls p) /\ length (got (qp p')) = length (posted (qp p'))).
Proof using namespace_size.
  intros Hi Hid. pose proof (pi_pair _ _ _ _ _ _ Hi) as Hp.
  destruct (reap_loop_inv base (sq_ring (q_sq (qp p))) p free rung _ 0 Hi Hid) as (n & free' & p' & E & Hi' & Hr & Hend & H0).
  { pose proof (under_way_bound _ _ _ _ Hp) as [Hb Hn]. pose proof (si_order _ _ _ _ (qi_sq _ _ _ _ Hp)).
    pose proof (fetched_count _ _ _ _ Hp). pose proof (got_visible _ _ _ _ Hp). pose proof (si_size _ _ _ _ (qi_sq _ _ _ _ Hp)).
    unfold sq_ring in *. lia. }
  exists n, free'. unfold reap, get. rewrite (bind_ret _ _ p p p) by done. rewrite (bind_ret _ _ _ _ _ E).
  destruct n as [|n].
  - exists p'. split; [done|]. destruct (H0 eq_refl) as [H1 H2]. split; [|done].
    destruct Hr as (_ & _ & _ & _ & Eg & _). by rewrite Eg, Nat.add_0_r.
  - eexists. split; [reflexivity|]. destruct Hi' as [Hp' Hq Hio Hl Hs Hc].
    split; [split; simpl; try done; by eapply q_head_inv|done].
Qed.
(** ** Progress *)

(** Between two polls the driver has no idle tracker and the head doorbell is up to
    date. *)
Definition working (base : Z) (rung : nat) (p : perf B) : Prop :=
  (exists free, perf_inv 0 base p free rung (length (got (qp p)))) /\ idle (qp p) = [].

(** A controller that goes on fetching and completing. *)
Definition serving : Prop :=
  forall n, (exists m, (n <= m)%nat /\ Fetch ∈ ctl m) /\ (exists m, (n <= m)%nat /\ exists k r st, Complete k r st ∈ ctl m).

Definition helps (rung : nat) (p : perf B) (m : nat) : Prop :=
  if decide (length (fetched (qp p)) < rung)%nat then Fetch ∈ ctl m else exists k r st, Complete k r st ∈ ctl m.

Lemma reap_working base rung p :
  working base rung p ->
  exists n p', reap o ticks rand ctl p = (Ret (Z.of_nat n), p') /\ working base rung p' /\ reaped n p p' /\
    (n = O -> polls p' = S (polls p) /\ (to_serve rung (qp p') <= to_serve rung (qp p))%nat /\
      (to_serve rung (qp p') = to_serve rung (qp p) -> length (fetched (qp p')) = length (fetched (qp p))) /\
      ((length (got (qp p)) < rung)%nat -> helps rung p (polls p) -> (to_serve rung (qp p') < to_serve rung (qp p))%nat)).
Proof using namespace_size.
  intros [[free Hi] Hid]. destruct (reap_inv base p free rung Hi Hid) as (n & free' & p' & E & Hi' & Hr & H0).
  exists n, p'. split; [done|]. split; [split; [by exists free'|apply Hr]|]. split; [done|]. intros ->.
  destruct (H0 eq_refl) as (Eq & Ep & Hend). split; [done|].
  destruct (ctl_moves_inv (ctl (polls p)) _ _ _ _ (pi_pair _ _ _ _ _ _ Hi)) as (_ & _ & Hpost & Hm). rewrite <- Eq in Hpost, Hm.
  pose proof (got_visible _ _ _ _ (pi_pair _ _ _ _ _ _ Hi)) as Hgv. destruct Hr as (_ & _ & _ & _ & Eg & _).
  pose proof (fetched_count _ _ _ _ (pi_pair _ _ _ _ _ _ Hi)) as [Hc Hf].
  pose proof (fetched_count _ _ _ _ (pi_pair _ _ _ _ _ _ Hi')) as [Hc' Hf'].
  split; [done|]. split; [unfold to_serve in *; lia|]. intros Hlt Hh.
  destruct (ctl_moves_help (ctl (polls p)) _ _ _ _ (pi_pair _ _ _ _ _ _ Hi) eq_refl ltac:(lia) Hlt Hh) as [Hx|Hx];
    rewrite <- Eq in Hx; lia.
Qed.

Lemma reap_ind base rung (Q : perf B -> Prop) :
  serving ->
  (forall p n p', working base rung p -> reap o ticks rand ctl p = (Ret (Z.of_nat (S n)), p') -> working base rung p' ->
     reaped (S n) p p' -> Q p) ->
  (forall p p', working base rung p -> reap o ticks rand ctl p = (Ret 0, p') -> working base rung p' -> reaped 0 p p' ->
     Q p' -> Q p) ->
  forall p, working base rung p -> (length (got (qp p)) < rung)%nat -> Q p.
Proof using namespace_size.
  intros Hserve Hsome Hnone p. remember (to_serve rung (qp p)) as t eqn:Et. revert p Et.
  induction t as [t IHt] using lt_wf_ind. intros p Et Hw Hlt.
  assert (exists m, (polls p <= m)%nat /\ helps rung p m) as (m & Hm & Hh).
  { unfold helps. destruct (Hserve (polls p)) as [(m1 & ? & ?) (m2 & ? & ?)]. case_decide; [by exists m1|by exists m2]. }
  remember (m - polls p)%nat as d eqn:Ed. revert p Et Hw Hlt Hm Hh Ed. induction d as [|d IHd]; intros p Et Hw Hlt Hm Hh Ed.
  all: destruct (reap_working base rung p Hw) as (n & p' & E & Hw' & Hr & H0).
  all: destruct n as [|n]; [|by eapply Hsome].
  all: destruct (H0 eq_refl) as (Ep & Hle & Hsame & Hhelp).
  all: assert (length (got (qp p')) < rung)%nat as Hlt' by (destruct Hr as (_ & _ & _ & _ & Eg & _); lia).
  all: eapply Hnone; [done|done|done|done|].
  - assert (m = polls p) as -> by lia. specialize (Hhelp Hlt Hh). eapply IHt; [|done|done|done]. lia.
  - destruct (decide (to_serve rung (qp p') < to_serve rung (qp p))%nat) as [Hd|Hd]; [eapply IHt; [|done|done|done]; lia|].
    assert (to_serve rung (qp p') = to_serve rung (qp p)) as Eqt by lia. apply IHd; [lia|done|done|lia| |lia].
    unfold helps in *. by rewrite (Hsame Eqt).
Qed.
(** ** The loops end *)

Lemma reaped_trans a b p p1 p2 : reaped a p p1 -> reaped b p1 p2 -> reaped (a + b) p p2.
Proof.
  intros (A1 & A2 & A3 & A4 & A5 & A6 & A7) (B1 & B2 & B3 & B4 & B5 & B6 & B7). unfold reaped. rewrite A1 in B1, B6, B7.
  destruct (draining p); split_and!; try congruence; lia.
Qed.

Lemma reap_some_ends base rung p :
  serving -> working base rung p -> (length (got (qp p)) < rung)%nat ->
  exists F n p', (forall f, (F <= f)%nat -> reap_some o ticks rand ctl f p = (Ret tt, p')) /\ working base rung p' /\ reaped (S n) p p'.
Proof using namespace_size.
  intros Hserve. revert p. apply (reap_ind base rung); [done| |].
  - intros p n p' _ E Hw' Hr. exists 1%nat, n, p'. split; [|done]. intros [|f] Hf; [lia|]. simpl. by rewrite (bind_ret _ _ _ _ _ E).
  - intros p p' _ E Hw' Hr (F & n & p2 & Hf & Hw2 & Hr2). exists (S F), n, p2. split; [|split; [done|by apply (reaped_trans 0 (S n) p p')]].
    intros [|f] Hle; [lia|]. simpl. rewrite (bind_ret _ _ _ _ _ E). simpl. apply Hf. lia.
Qed.

Lemma in_flight q free rung acked :
  qpair_inv q free rung acked -> (length (sent q) = length (busy q) + length (got q))%nat.
Proof.
  intros Hi. pose proof (under_way_bound _ _ _ _ Hi) as [_ Hb]. pose proof (fetched_count _ _ _ _ Hi).
  pose proof (si_order _ _ _ _ (qi_sq _ _ _ _ Hi)). pose proof (ci_order _ _ _ _ (qi_cq _ _ _ _ Hi)). lia.
Qed.

(** Before a round of the main loop: [depth] commands are under way and announced. *)
Definition steady (base : Z) (depth : nat) (p : perf B) : Prop :=
  working base (length (sent (qp p))) p /\ draining p = false /\ length (busy (qp p)) = depth.

Lemma steady_stats base base' depth p st :
  steady base depth p -> u64 (completed st + completed_quantum st) = u64 (Z.of_nat (length (got (qp p))) - base' - 0) ->
  steady base' depth (set_stats st p).
Proof.
  intros [[[free [Hp Hq Hio Hl Hs Hc]] Hid] [Hd Hb]] Hst. split; [|done]. split; [|done]. exists free. by split.
Qed.

Lemma working_tail base rung p p' :
  update_tail p = (Ret tt, p') -> working base rung p -> working base (length (sent (qp p))) p' /\ reaped 0 p p' /\
    sent (qp p') = sent (qp p) /\ draining p' = draining p /\ busy (qp p') = busy (qp p).
Proof.
  intros [= <-] [[free [Hp Hq Hio Hl Hs Hc]] Hid]. split.
  - split; [|done]. exists free. split; simpl; try done; [by eapply q_tail_inv|].
    intros i Hi. destruct (Hio i Hi) as (rq & k & d & Er & Hrest). exists rq, k, d. split; [|done]. simpl.
    destruct (tail_rqs (q_sq (qp p))) as (-> & _ & _). done.
  - unfold reaped. simpl. rewrite !Nat.add_0_r. by destruct (draining p).
Qed.

(** One round: some completions are taken, the commands that follow them are
    announced, the clock is read.  Each of the commands under way is completed at
    most once, with two looks at the clock. *)
Lemma round_ends base depth p :
  serving -> steady base (S depth) p ->
  exists F p1 n, steady base (S depth) p1 /\ (reads p <= n <= reads p + 2 * S depth)%nat /\ reads p1 = S n /\ ctx p1 = ctx p /\
    forall f, (F <= f)%nat -> forall A (k : Z -> M (perf B) A),
      (do* reap_some o ticks rand ctl f in do* update_tail in let* now := get_ticks ticks in k now) p = k (u64 (ticks n)) p1.
Proof using namespace_size.
  intros Hserve [Hw [Hd Hb]]. pose proof Hw as [[free Hi] _]. pose proof (in_flight _ _ _ _ (pi_pair _ _ _ _ _ _ Hi)).
  destruct (reap_some_ends base _ p Hserve Hw ltac:(lia)) as (F & n & p1 & Hf & Hw1 & Hr1).
  assert (length (got (qp p1)) <= length (sent (qp p)))%nat as Hgot.
  { destruct Hw1 as [[free1 Hi1] _]. pose proof (got_visible _ _ _ _ (pi_pair _ _ _ _ _ _ Hi1)). lia. }
  destruct (update_tail p1) as [r p2] eqn:E2. assert (r = Ret tt) as -> by (by injection E2).
  destruct (working_tail _ _ _ _ E2 Hw1) as (Hw2 & Hr2 & Es & Ed2 & Eb2).
  destruct Hr1 as (A1 & A2 & A3 & A4 & A5 & A6 & A7). destruct Hr2 as (_ & R2 & R3 & _). rewrite Hd in A6.
  exists F. eexists. exists (reads p2). split; [|split; [|split; [|split]]].
  - split; [|split]; [|shelve..]. instantiate (1 := (get_ticks ticks p2).2). simpl.
    destruct Hw2 as [[free2 Hi2] Hid2]. split; [|done]. exists free2. rewrite Es. destruct Hi2. by split.
    Unshelve. all: simpl; congruence.
  - lia.
  - done.
  - simpl. congruence.
  - intros f Hle A k. rewrite (bind_ret _ _ _ _ _ (Hf f Hle)), (bind_ret _ _ _ _ _ E2). done.
Qed.

(** The readings beyond a deadline: from the [N]-th look at the clock on, for at
    least as many looks as one round of the loop takes. *)
Definition beyond (depth : nat) (deadline : Z) (N : nat) : Prop :=
  forall m, (N <= m <= N + 2 * S depth)%nat -> deadline < u64 (ticks m).

Lemma print_steady base depth p : steady base depth p -> steady base depth (update_and_print_stats p).2.
Proof.
  intros Hst. pose proof Hst as [[[free Hi] _] _]. apply (steady_stats base base depth p); [done|]. simpl.
  rewrite Z.add_0_r. unfold u64. rewrite Z.mod_mod by lia. apply (pi_count _ _ _ _ _ _ Hi).
Qed.

(** The counters after a round. *)
Lemma when_print_steady base depth p (b : bool) :
  steady base depth p ->
  exists p', (forall A (k : M (perf B) A), (do* when b (@update_and_print_stats B) in k) p = k p') /\ steady base depth p' /\ reads p' = reads p /\ ctx p' = ctx p.
Proof.
  intros Hst. destruct b; [|by exists p]. exists (update_and_print_stats p).2. split; [done|]. split; [by apply print_steady|done].
Qed.

Lemma main_loop_ends base depth p deadline us N :
  serving -> beyond depth deadline N -> (reads p <= N)%nat -> steady base (S depth) p ->
  exists F p', steady base (S depth) p' /\ ctx p' = ctx p /\
    forall f, (F <= f)%nat -> main_loop o ticks rand ctl f deadline us false p = (Ret tt, p').
Proof using namespace_size.
  intros Hserve HN Hle Hst. remember (N - reads p)%nat as d eqn:Ed.
  revert p us Hle Hst Ed. induction d as [d IH] using lt_wf_ind. intros p us Hle Hst Ed.
  destruct (round_ends base depth p Hserve Hst) as (F1 & p1 & n & Hst1 & Hn & Er1 & Ec1 & Hround).
  destruct (when_print_steady base (S depth) p1 (us <? u64 (ticks n)) Hst1) as (p2 & Hp2 & Hst2 & Er2 & Ec2).
  destruct (Z.ltb_spec deadline (u64 (ticks n))) as [Hlt|Hge].
  - exists (S F1), p2. split; [done|]. split; [congruence|]. intros [|f] Hf; [lia|].
    cbn [main_loop]. rewrite Hround by lia. rewrite Hp2. by rewrite (proj2 (Z.ltb_lt _ _) Hlt).
  - destruct (decide (N <= n)%nat) as [HNn|HNn]; [specialize (HN n ltac:(lia)); lia|].
    destruct (IH (N - reads p2)%nat ltac:(lia) p2 (if us <? u64 (ticks n) then u64 (us + u64 (update_stats_interval o * __vfn_ticks_freq o)) else us)
      ltac:(lia) Hst2 eq_refl) as (F2 & p' & Hst' & Ec' & Hrest).
    exists (S (F1 + F2)), p'. split; [done|]. split; [congruence|]. intros [|f] Hf; [lia|].
    cbn [main_loop]. rewrite Hround by lia. rewrite Hp2. rewrite (proj2 (Z.ltb_ge _ _) Hge). apply Hrest. lia.
Qed.

(** With warm-up, the second deadline depends on the reading that ends it. *)
Lemma warmup_loop_ends depth p deadline us N N' :
  serving -> beyond depth deadline N -> (reads p <= N)%nat -> (N + 2 * S depth < N')%nat ->
  (forall n, (n <= N + 2 * S depth)%nat -> (reads p <= n)%nat ->
    beyond depth (u64 (u64 (ticks n) + u64 (runtime_in_seconds o * __vfn_ticks_freq o))) N') ->
  steady 0 (S depth) p ->
  exists base F p', steady base (S depth) p' /\ ctx p' = ctx p /\
    forall f, (F <= f)%nat -> main_loop o ticks rand ctl f deadline us true p = (Ret tt, p').
Proof using namespace_size.
  intros Hserve HN Hle HNN HN' Hst. remember (N - reads p)%nat as d eqn:Ed.
  revert p us Hle Hst HN' Ed. induction d as [d IH] using lt_wf_ind. intros p us Hle Hst HN' Ed.
  destruct (round_ends 0 depth p Hserve Hst) as (F1 & p1 & n & Hst1 & Hn & Er1 & Ec1 & Hround).
  destruct (when_print_steady 0 (S depth) p1 (us <? u64 (ticks n)) Hst1) as (p2 & Hp2 & Hst2 & Er2 & Ec2).
  set (us' := if us <? u64 (ticks n) then u64 (us + u64 (update_stats_interval o * __vfn_ticks_freq o)) else us).
  destruct (Z.ltb_spec deadline (u64 (ticks n))) as [Hlt|Hge].
  - set (base := Z.of_nat (length (got (qp p2)))).
    assert (steady base (S depth) (set_stats (mk_stats 0 0 0 UINT64_MAX 0) p2)) as Hst3.
    { apply (steady_stats 0); [done|]. unfold base. simpl. f_equal. lia. }
    destruct (main_loop_ends base depth (set_stats (mk_stats 0 0 0 UINT64_MAX 0) p2) _ us' N' Hserve (HN' n ltac:(lia) ltac:(lia)) ltac:(cbn [reads set_stats]; lia) Hst3)
      as (F2 & p' & Hst' & Ec' & Hrest).
    exists base, (S (F1 + F2)), p'. split; [done|]. split; [simpl in Ec'; congruence|]. intros [|f] Hf; [lia|].
    cbn [main_loop]. rewrite Hround by lia. rewrite Hp2. rewrite (proj2 (Z.ltb_lt _ _) Hlt). apply Hrest. lia.
  - destruct (decide (N <= n)%nat) as [HNn|HNn]; [specialize (HN n ltac:(lia)); lia|].
    destruct (IH (N - reads p2)%nat ltac:(lia) p2 us' ltac:(lia) Hst2) as (base & F2 & p' & Hst' & Ec' & Hrest);
      [intros m ? ?; apply HN'; lia|done|].
    exists base, (S (F1 + F2)), p'. split; [done|]. split; [congruence|]. intros [|f] Hf; [lia|].
    cbn [main_loop]. rewrite Hround by lia. rewrite Hp2. rewrite (proj2 (Z.ltb_ge _ _) Hge). apply Hrest. lia.
Qed.
(** ** Draining *)

Lemma queued_busy base rung p : working base rung p -> queued p = Z.of_nat (length (busy (qp p))).
Proof. intros [[free Hi] _]. rewrite (pi_queued _ _ _ _ _ _ Hi). lia. Qed.

(** All commands sent are announced; [sent] does not change when draining. *)
Definition emptying (base : Z) (rung : nat) (p : perf B) : Prop :=
  working base rung p /\ draining p = true /\ length (sent (qp p)) = rung.

Lemma emptying_reaped base rung n p p' : emptying base rung p -> working base rung p' -> reaped n p p' ->
  emptying base rung p' /\ (length (busy (qp p)) = length (busy (qp p')) + n)%nat /\ ctx p' = ctx p.
Proof. intros (_ & Hd & Hs) Hw (A1 & _ & A3 & _ & _ & A6 & A7). rewrite Hd in A1, A6, A7. unfold emptying. split_and!; try done; congruence. Qed.

Lemma drain_loop_ends base rung p :
  serving -> emptying base rung p ->
  exists F p', emptying base rung p' /\ busy (qp p') = [] /\ ctx p' = ctx p /\
    forall f, (F <= f)%nat -> drain_loop o ticks rand ctl f p = (Ret tt, p').
Proof using namespace_size.
  intros Hserve. remember (length (busy (qp p))) as b eqn:Eb. revert p Eb. induction b as [b IH] using lt_wf_ind. intros p Eb He.
  assert (forall p n p', emptying base rung p -> length (busy (qp p)) = b -> reap o ticks rand ctl p = (Ret (Z.of_nat n), p') ->
    working base rung p' -> reaped n p p' -> (0 < n \/ b = 0)%nat ->
    exists F p'', emptying base rung p'' /\ busy (qp p'') = [] /\ ctx p'' = ctx p /\
      forall f, (F <= f)%nat -> drain_loop o ticks rand ctl f p = (Ret tt, p'')) as Hgo.
  { clear p Eb He. intros p n p' He Eb E Hw' Hr Hn. destruct (emptying_reaped _ _ _ _ _ He Hw' Hr) as (He' & Hb' & Hc').
    pose proof (queued_busy _ _ _ Hw') as Hq. destruct (decide (length (busy (qp p')) = 0)%nat) as [H0|H0].
    - exists 1%nat, p'. split; [done|]. split; [by apply length_zero_iff_nil|]. split; [done|]. intros [|f] Hf; [lia|].
      simpl. rewrite (bind_ret _ _ _ _ _ E). unfold bind, gets. by rewrite Hq, H0.
    - destruct (IH (length (busy (qp p'))) ltac:(lia) p' eq_refl He') as (F & p'' & He'' & Hb'' & Hc'' & Hf).
      exists (S F), p''. split; [done|]. split; [done|]. split; [congruence|]. intros [|f] Hle; [lia|].
      simpl. rewrite (bind_ret _ _ _ _ _ E). unfold bind at 1, gets. rewrite Hq.
      destruct (Z.eqb_spec (Z.of_nat (length (busy (qp p')))) 0); [lia|]. apply Hf. lia. }
  destruct (decide (b = 0)%nat) as [Hb0|Hb0].
  - destruct (reap_working base rung p (proj1 He)) as (n & p' & E & Hw' & Hr & _). eapply Hgo; eauto.
  - pose proof He as (Hw & _ & Hs). pose proof Hw as [[free Hi] _]. pose proof (in_flight _ _ _ _ (pi_pair _ _ _ _ _ _ Hi)) as Hfl.
    revert p Hw Eb He Hs free Hi Hfl.
    assert (forall p, working base rung p -> (length (got (qp p)) < rung)%nat -> emptying base rung p -> length (busy (qp p)) = b ->
      exists F p'', emptying base rung p'' /\ busy (qp p'') = [] /\ ctx p'' = ctx p /\
      forall f, (F <= f)%nat -> drain_loop o ticks rand ctl f p = (Ret tt, p'')) as Hloop.
    { apply (reap_ind base rung (fun p => emptying base rung p -> length (busy (qp p)) = b -> _)); [done| |].
      - intros p n p' _ E Hw' Hr He Eb. eapply Hgo; eauto. lia.
      - intros p p' _ E Hw' Hr IHp He Eb. destruct (emptying_reaped _ _ _ _ _ He Hw' Hr) as (He' & Hb' & Hc').
        destruct (IHp He' ltac:(lia)) as (F & p'' & He'' & Hb'' & Hc'' & Hf). exists (S F), p''.
        split; [done|]. split; [done|]. split; [congruence|]. intros [|f] Hle; [lia|]. simpl.
        rewrite (bind_ret _ _ _ _ _ E). unfold bind at 1, gets. rewrite (queued_busy _ _ _ Hw').
        destruct (Z.eqb_spec (Z.of_nat (length (busy (qp p')))) 0); [lia|]. apply Hf. lia. }
    intros p Hw Eb He Hs free Hi Hfl. apply Hloop; [done|lia|done|done].
Qed.

(** ** Setting up *)

Lemma setup_iod_inv base i p free rung acked iova j :
  (forall k, calloc k = true) -> perf_inv 0 base p free rung acked -> i ∈ idle (qp p) ->
  0 <= j < io_depth o -> iova = u64 (iova0 + 0x1000 * j) ->
  exists p', setup_iod o calloc i iova p = (Ret tt, p') /\ perf_inv 0 base p' free rung acked /\ has_iod p' i /\
    idle (qp p') = idle (qp p) /\ busy (qp p') = busy (qp p) /\ got (qp p') = got (qp p) /\ draining p' = draining p /\ ctx p' = ctx p /\
    reads p' = reads p.
Proof.
  intros Hcalloc [Hp Hq Hio Hl Hs Hc] Hi Hj ->.
  destruct (held_lookup _ _ _ _ i (qi_rq _ _ _ _ Hp)) as (rq & Er & Ecid); [apply elem_of_app; by left|].
  unfold setup_iod. rewrite (bind_ret get _ p p p), Hcalloc, Er by done. simpl. eexists. split; [reflexivity|]. simpl.
  assert (forall n, n ∈ busy (qp p) -> i <> n) as Hne.
  { intros n Hn ->. pose proof (in_use_nodup _ _ _ _ Hp) as Hnd. apply NoDup_app in Hnd as (_ & Hd & _). by apply (Hd n). }
  split; [split; simpl; try done|split; [|done]].
  - by apply q_opaque_inv.
  - intros n Hn. destruct (Hio n Hn) as (rqn & kn & dn & E1 & E2 & E3 & E4). exists rqn, kn, dn. simpl.
    rewrite list_lookup_alter_ne by (by apply Hne). rewrite lookup_app_l by (by eapply lookup_lt_Some). done.
  - eexists _, (length (iods p)), _. simpl. rewrite list_lookup_alter_eq, Er. simpl. split; [done|]. split; [done|].
    rewrite lookup_app_r, Nat.sub_diag by lia. split; [done|]. simpl. split; [done|]. split; [done|]. split; [done|]. eauto.
Qed.

Lemma submit_loop_inv n p free j :
  (forall k, calloc k = true) -> perf_inv 0 0 p free 0 0 -> idle (qp p) = [] -> (n <= length free)%nat ->
  length (busy (qp p)) = j -> Z.of_nat (j + n) = io_depth o ->
  exists free' p', submit_loop o ticks rand calloc n (u64 (iova0 + 0x1000 * Z.of_nat j)) p = (Ret tt, p') /\
    perf_inv 0 0 p' free' 0 0 /\ idle (qp p') = [] /\ length (busy (qp p')) = (j + n)%nat /\ got (qp p') = got (qp p) /\
    draining p' = draining p /\ ctx p' = ctx p /\ reads p' = (reads p + n)%nat.
Proof using namespace_size.
  intros Hcalloc. revert p free j. induction n as [|n IH]; intros p free j Hi Hid Hf Hb Hd.
  { exists free, p. rewrite !Nat.add_0_r. by split_and!. }
  pose proof (q_acquire_inv _ _ _ _ (pi_pair _ _ _ _ _ _ Hi)) as Ha. simpl. unfold bind at 1, try, on_qp at 1.
  destruct (q_acquire (qp p)) as [[i|e|] q1] eqn:E; [|destruct Ha as [_ ->]; simpl in Hf; lia|done].
  destruct Ha as (Hni & free1 & -> & Hq1). assert (idle q1 = [i] /\ busy q1 = busy (qp p) /\ got q1 = got (qp p) /\
    rqs (q_sq q1) = rqs (q_sq (qp p)) /\ sent q1 = sent (qp p)) as (E1 & E2 & E3 & E4 & E5).
  { unfold q_acquire in E. destruct (nvme_rq_acquire (q_sq (qp p))) as [[i'|e'|] sq'] eqn:Ea; [|done|done].
    destruct (acquire_ring _ _ _ Ea) as [top ->]. injection E as -> <-. simpl. by rewrite Hid. }
  set (p1 := mk_perf (ctx p) q1 (iods p) (draining p) (queued p) (slba p) (stats p) (reads p) (draws p) (polls p)).
  assert (perf_inv 0 0 p1 free1 0 0) as Hi1.
  { destruct Hi as [Hp Hq Hio Hl Hs Hc]. split; simpl; rewrite ?E2, ?E3, ?E5; try done.
    intros m Hm. apply (has_iod_same p); [done|done|]. by apply Hio. }
  destruct (setup_iod_inv 0 i p1 _ _ _ (u64 (iova0 + 0x1000 * Z.of_nat j)) (Z.of_nat j) Hcalloc Hi1) as (p2 & S0 & Hi2 & Hiod & S1 & S2 & S3 & S4 & S5 & S6);
    [simpl; rewrite E1; by left|lia|done|]. rewrite (bind_ret _ _ _ _ _ S0). simpl in S1, S2, S3, S4, S5, S6.
  destruct (io_issue_inv 0 i p2 _ _ _ Hi2) as (p3 & I0 & Hi3 & (I1 & I2 & _ & I4 & _ & I6 & _ & I8 & I9 & _)); [rewrite S1, E1; by left|done|].
  rewrite (bind_ret _ _ _ _ _ I0). rewrite S1, E1 in I8. simpl in I8. destruct (Nat.eq_dec i i); [|done].
  destruct (IH p3 free1 (S j) Hi3 I8) as (free' & p' & L0 & Hi' & L1 & L2 & L3 & L4 & L5 & L6);
    [simpl in Hf; lia|rewrite I9, S2, E2; simpl; lia|lia|].
  exists free', p'. replace (u64 (u64 (iova0 + 0x1000 * Z.of_nat j) + 0x1000)) with (u64 (iova0 + 0x1000 * Z.of_nat (S j))).
  2: { unfold u64. rewrite Zplus_mod_idemp_l. f_equal. lia. }
  split; [done|]. split; [done|]. split; [done|]. split; [lia|]. split_and!; [congruence..|].
  rewrite L6, I2, S6. simpl. lia.
Qed.
(** ** The whole run *)

(** The program as [main] leaves it: a new pair of queues, cleared counters. *)
Definition perf_start (p : perf B) : Prop :=
  qpair_fresh (qp p) /\ iods p = [] /\ draining p = false /\ queued p = 0 /\ slba p = 0 /\ stats p = zero_stats.

Lemma perf_start_inv p : perf_start p ->
  exists free, perf_inv 0 0 p free 0 0 /\ idle (qp p) = [] /\ busy (qp p) = [] /\ Z.of_nat (length free) = sq_qsize (q_sq (qp p)) - 1.
Proof using namespace_size.
  intros (Hf & Hio & Hd & Hq & Hl & Hst). destruct (qpair_fresh_inv _ Hf) as [free Hi]. exists free.
  destruct Hf as (_ & _ & [_ Hlen] & _ & Es & _ & _ & Eg & Ei & Eb & _).
  split; [|split_and!; try done].
  - split; rewrite ?Hq, ?Hl, ?Hst, ?Eb, ?Es, ?Eg; try done; [by intros i Hi'%not_elem_of_nil|lia].
  - rewrite <- Hlen. pose proof (Permutation_length (ri_all _ _ _ _ (qi_rq _ _ _ _ Hi))) as Hp.
    rewrite Ei, Eb, app_nil_r, length_seq in Hp. lia.
Qed.

(** The looks at the clock between two of the main loop, at most. *)
Definition looks : nat := (2 * Z.to_nat (io_depth o) + 1)%nat.

(** The clock does not go back; between the [first] look and the end of the run it
    stays within 64 bits and passes the warm-up ([n1]) and the run time ([n2]), and
    the few looks that follow are still within 64 bits.  (A counter of 64 bits
    wraps around after centuries.) *)
Definition time_passes (first : nat) : Prop :=
  (forall i j, (i <= j)%nat -> ticks i <= ticks j) /\ 0 <= ticks first /\
  exists n1 n2, (first + looks <= n1)%nat /\
    ticks first + u64 (warmup_in_seconds o * __vfn_ticks_freq o) < ticks n1 /\
    ticks (n1 + looks)%nat + u64 (runtime_in_seconds o * __vfn_ticks_freq o) < ticks n2 /\
    ticks (n2 + looks)%nat <= UINT64_MAX.

(** Submission and the main loop, with or without warm-up. *)
Lemma loops_end depth first p us (warm : bool) :
  let deadline := u64 (u64 (ticks first) + (if warm then u64 (warmup_in_seconds o * __vfn_ticks_freq o)
    else u64 (runtime_in_seconds o * __vfn_ticks_freq o))) in
  serving -> time_passes first -> io_depth o = Z.of_nat (S depth) -> (first <= reads p <= first + looks)%nat ->
  steady 0 (S depth) p ->
  exists base F p', steady base (S depth) p' /\ ctx p' = ctx p /\ (warm = false -> base = 0) /\
    forall f, (F <= f)%nat -> main_loop o ticks rand ctl f deadline us warm p = (Ret tt, p').
Proof using namespace_size.
  intros deadline Hserve (Hmono & H0 & n1 & n2 & Hn1 & Ht1 & Ht2 & Hmax) Hdepth Hreads Hst.
  assert (looks = 2 * S depth + 1)%nat as El by (unfold looks; rewrite Hdepth, Nat2Z.id; lia).
  set (tw := u64 (warmup_in_seconds o * __vfn_ticks_freq o)) in *. set (tr := u64 (runtime_in_seconds o * __vfn_ticks_freq o)) in *.
  pose proof (u64_range (warmup_in_seconds o * __vfn_ticks_freq o)) as Htw. fold tw in Htw.
  pose proof (u64_range (runtime_in_seconds o * __vfn_ticks_freq o)) as Htr. fold tr in Htr.
  assert (n1 + looks < n2)%nat as Hn2.
  { destruct (decide (n1 + looks < n2)%nat); [done|]. pose proof (Hmono n2 (n1 + looks)%nat ltac:(lia)). lia. }
  assert (forall m, (first <= m <= n2 + looks)%nat -> u64 (ticks m) = ticks m) as Hu.
  { intros m Hm. pose proof (Hmono first m ltac:(lia)). pose proof (Hmono m (n2 + looks)%nat ltac:(lia)).
    unfold UINT64_MAX in Hmax. apply u64_small. lia. }
  assert (forall m, (first <= m <= n1 + looks)%nat -> beyond depth (u64 (u64 (ticks m) + tr)) n2) as Hrun.
  { intros m Hm k Hk. rewrite (Hu m), (Hu k) by lia. pose proof (Hmono first m ltac:(lia)).
    pose proof (Hmono m (n1 + looks)%nat ltac:(lia)). pose proof (Hmono n2 k ltac:(lia)).
    pose proof (Hmono n2 (n2 + looks)%nat ltac:(lia)). unfold UINT64_MAX in Hmax. rewrite u64_small; lia. }
  destruct warm.
  - destruct (warmup_loop_ends depth p deadline us n1 n2 Hserve) as (base & F & p' & H1 & H2 & H3); [|lia|lia| |done|by exists base, F, p'].
    + intros k Hk. unfold deadline. rewrite (Hu first), (Hu k) by lia. pose proof (Hmono n1 k ltac:(lia)).
      pose proof (Hmono k (n2 + looks)%nat ltac:(lia)). unfold UINT64_MAX in Hmax. rewrite u64_small; lia.
    + intros n Hn Hn'. apply Hrun. lia.
  - destruct (main_loop_ends 0 depth p deadline us n2 Hserve) as (F & p' & H1 & H2 & H3); [apply Hrun; lia|lia|done|by exists 0, F, p'].
Qed.

(** The states before and after the phases that do not loop. *)
Lemma steady_tail p free p' :
  perf_inv 0 0 p free 0 0 -> idle (qp p) = [] -> got (qp p) = [] -> draining p = false -> update_tail p = (Ret tt, p') ->
  steady 0 (length (busy (qp p))) p' /\ ctx p' = ctx p.
Proof.
  intros Hi Hid Hg Hd E. assert (working 0 0 p) as Hw by (split; [exists free; by rewrite Hg|done]).
  destruct (working_tail _ _ _ _ E Hw) as (Hw' & (_ & _ & Hc & _) & Es & Ed & Eb). split; [|done].
  split; [by rewrite Es|]. split; [by rewrite Ed|by rewrite Eb].
Qed.

Lemma emptying_tail base depth p p' :
  steady base depth p -> update_tail (set_draining p) = (Ret tt, p') -> emptying base (length (sent (qp p))) p' /\ ctx p' = ctx p.
Proof.
  intros [Hw [Hd Hb]] E.
  assert (working base (length (sent (qp p))) (set_draining p)) as Hw1.
  { destruct Hw as [[free [Hp Hq Hio Hl Hs Hc]] Hid]. split; [|done]. exists free. by split. }
  destruct (working_tail _ _ _ _ E Hw1) as (Hw' & (_ & _ & Hc & _) & Es & Ed & Eb). split; [|done].
  split; [done|]. split; [done|]. by rewrite Es.
Qed.

(** What is left when nothing is under way. *)
Lemma emptied base rung p :
  emptying base rung p -> busy (qp p) = [] ->
  queued p = 0 /\ fetched (qp p) = sent (qp p) /\ got (qp p) = posted (qp p) /\
  (cid <$> sent (qp p)) ≡ₚ (cqe_cid <$> got (qp p)) /\ Forall good_cmd (sent (qp p)) /\
  exists free, rq_inv (rqs (q_sq (qp p))) (rq_top (q_sq (qp p))) free [].
Proof.
  intros (Hw & _ & Hs) Hb. pose proof (queued_busy _ _ _ Hw) as Hq. destruct Hw as [[free [Hp _ _ _ Hsent _]] Hid].
  pose proof (under_way_bound _ _ _ _ Hp) as [_ Hlen]. rewrite Hb in Hq, Hlen. simpl in Hlen.
  assert (under_way (qp p) = []) as Hu by (apply Permutation_nil_r; rewrite <- (qi_busy _ _ _ _ Hp), Hb; done).
  pose proof (si_order _ _ _ _ (qi_sq _ _ _ _ Hp)) as [Hos _]. pose proof (ci_order _ _ _ _ (qi_cq _ _ _ _ Hp)) as [Hoc _].
  split; [done|]. split; [apply prefix_length_eq; [apply (si_prefix _ _ _ _ (qi_sq _ _ _ _ Hp))|lia]|].
  split; [apply prefix_length_eq; [apply (ci_prefix _ _ _ _ (qi_cq _ _ _ _ Hp))|lia]|].
  split; [rewrite (qi_once _ _ _ _ Hp), Hu, app_nil_r; done|]. split; [done|].
  exists free. pose proof (qi_rq _ _ _ _ Hp) as Hrq. by rewrite Hid, Hb in Hrq.
Qed.
End Invariant.

(** C19. The benchmark ends, and leaves nothing behind.  On a new pair of queues
    with more entries than [io_depth], a namespace that is not empty, a
    controller that goes on serving and a 64-bit counter that does not go back and, without
    wrapping around, passes the warm-up and the run time ([time_passes]): [run] returns,
    however the controller orders its completions and however they fall between
    the polls; every command it sent was fetched and completed, and its completion
    taken, once; every command was a read of a block of the namespace into a page
    of the mapped buffer; the count of commands under way is 0 and every tracker
    is free again.  Without warm-up the completions counted are those taken. *)
Theorem perf_run_ends {B} (ops : iommu_ctx_ops B) o ticks rand calloc ctl mem indet p0 iova0 c' :
  0 < nsze o <= UINT64_MAX -> perf_start p0 -> 1 <= io_depth o <= sq_qsize (q_sq (qp p0)) - 1 ->
  (forall k, calloc k = true) -> serving ctl -> time_passes o ticks (reads p0) -> mem <> 0 ->
  iommu_map_vaddr ops mem (io_depth o * 0x1000) None 0 indet (ctx p0) = (Ret iova0, c') -> 0 <= iova0 <= UINT64_MAX ->
  exists F p', (forall f, (F <= f)%nat -> run ops o ticks rand calloc ctl f mem indet p0 = (Ret tt, p')) /\
    queued p' = 0 /\ idle (qp p') = [] /\ busy (qp p') = [] /\ fetched (qp p') = sent (qp p') /\ got (qp p') = posted (qp p') /\
    (cid <$> sent (qp p')) ≡ₚ (cqe_cid <$> got (qp p')) /\ Forall (good_cmd o iova0) (sent (qp p')) /\
    (exists free, rq_inv (rqs (q_sq (qp p'))) (rq_top (q_sq (qp p'))) free []) /\ ctx p' = c' /\
    (warmup_in_seconds o = 0 ->
     u64 (completed (stats p') + completed_quantum (stats p')) = u64 (Z.of_nat (length (got (qp p'))))).
Proof.
  intros Hns Hstart Hdepth Hcalloc Hserve Htime Hmem Hmap Hiova.
  set (p1 := mk_perf c' (qp p0) (iods p0) (draining p0) (queued p0) (slba p0)
    (mk_stats (completed (stats p0)) (completed_quantum (stats p0)) (ttotal (stats p0)) UINT64_MAX (tmax (stats p0)))
    (S (reads p0)) (draws p0) (polls p0)).
  destruct (perf_start_inv o Hns iova0 p0 Hstart) as (free & Hi0 & Hid & Hb & Hfree). pose proof Hstart as (_ & _ & Hdr & _).
  assert (got (qp p0) = []) as Hg by apply Hstart.
  assert (perf_inv o iova0 0 0 p1 free 0 0) as Hi1 by (destruct Hi0 as [? ? Hio ? ? ?]; by split).
  destruct (submit_loop_inv o ticks rand calloc Hns iova0 (Z.to_nat (io_depth o)) p1 free 0 Hcalloc Hi1 Hid)
    as (free2 & p2 & E2 & Hi2 & Hid2 & Hb2 & Hg2 & Hd2 & Hc2 & Hr2); [lia|simpl; by rewrite Hb|lia|].
  destruct (update_tail p2) as [r p3] eqn:E3. assert (r = Ret tt) as -> by (by injection E3).
  destruct (steady_tail o iova0 p2 free2 p3 Hi2 Hid2) as [Hst3 Hc3]; [simpl in Hg2; congruence|simpl in Hd2; congruence|done|].
  destruct (Z.to_nat (io_depth o)) as [|depth] eqn:Edepth; [lia|]. rewrite Hb2 in Hst3. simpl in Hst3.
  set (us := u64 (u64 (ticks (reads p0)) + u64 (update_stats_interval o * __vfn_ticks_freq o))).
  destruct (loops_end o ticks rand ctl Hns iova0 depth (reads p0) p3 us (0 <? warmup_in_seconds o) Hserve Htime)
    as (base & F4 & p4 & Hst4 & Hc4 & Hbase & E4); [lia| |done|].
  { assert (reads p3 = reads p2) as -> by (by injection E3 as <-). rewrite Hr2. unfold looks. rewrite Edepth. simpl. lia. }
  pose proof (print_steady o iova0 base (S depth) p4 Hst4) as Hst5. set (p5 := (update_and_print_stats p4).2) in *.
  destruct (update_tail (set_draining p5)) as [r p6] eqn:E6. assert (r = Ret tt) as -> by (by injection E6).
  destruct (emptying_tail o iova0 base (S depth) p5 p6 Hst5 E6) as [He6 Hc6].
  destruct (drain_loop_ends o ticks rand ctl Hns iova0 base _ p6 Hserve He6) as (F7 & p7 & He7 & Hb7 & Hc7 & E7).
  exists (F4 + F7)%nat, p7. destruct (emptied o iova0 base _ p7 He7 Hb7) as (R1 & R2 & R3 & R4 & R5 & R6). split.
  - intros f Hf. unfold run. unfold get_ticks at 1. unfold bind at 1 2, modify at 1. rewrite (proj2 (Z.eqb_neq _ _) Hmem).
    unfold bind at 1, on_iommu. simpl ctx. rewrite Hmap. simpl qp. simpl iods. simpl draining. simpl queued. simpl slba.
    simpl stats. simpl reads. simpl draws. simpl polls. fold p1. rewrite Edepth.
    replace (u64 (iova0 + 4096 * Z.of_nat 0)) with iova0 in E2 by (unfold u64, UINT64_MAX in *; rewrite Z.mod_small by lia; lia).
    rewrite (bind_ret _ _ _ _ _ E2), (bind_ret _ _ _ _ _ E3). fold us.
    rewrite (bind_ret _ _ _ _ _ (E4 f ltac:(lia))). rewrite (bind_ret update_and_print_stats _ p4 tt p5) by done.
    rewrite (bind_ret _ _ p5 tt (set_draining p5)) by done. rewrite (bind_ret _ _ _ _ _ E6). apply E7. lia.
  - split; [done|]. split; [apply He7|]. do 6 (split; [done|]). split; [|].
    { change c' with (ctx p1). rewrite Hc7, Hc6. change (ctx p5) with (ctx p4). congruence. }
    intros Hw. destruct He7 as [[[free7 Hi7] _] _]. rewrite (pi_count _ _ _ _ _ _ _ _ Hi7), Hbase by (by rewrite Hw). f_equal. lia.
Qed.


(** ** A run *)

(** Two reads at a time of a namespace of five blocks, for ten ticks. *)
Definition demo_opts : perf_opts := mk_perf_opts 1 10 0 3 2 false 5 1.
Definition demo_perf : perf Z := mk_perf bump_ctx demo_pair [] false 0 0 zero_stats 0 0 0.
Definition demo_ctl (n : nat) : list move := if Nat.even n then [Fetch; Fetch] else [Complete n 0 0].

Example demo_perf_run :
  let '(r, p) := run bump_ops demo_opts Z.of_nat Z.of_nat (fun _ => true) demo_ctl 40 0x7f0000 0 demo_perf in
  (r, queued p, slba_of <$> sent (qp p), cqe_cid <$> got (qp p), completed (stats p) + completed_quantum (stats p)) =
  (Ret tt, 0, [1; 2; 3; 4; 0], [2; 1; 2; 1; 2], 5).
Proof. vm_compute. reflexivity. Qed.

Lemma demo_serving : serving demo_ctl.
Proof.
  intros n. split.
  - exists (2 * n)%nat. split; [lia|]. unfold demo_ctl. rewrite Nat.even_mul. simpl. by left.
  - exists (S (2 * n))%nat. split; [lia|]. exists (S (2 * n)), 0, 0. unfold demo_ctl. rewrite Nat.even_succ, <- Nat.negb_even, Nat.even_mul.
    by left.
Qed.

Lemma perf_run_ends_witness :
  exists F p', run bump_ops demo_opts Z.of_nat Z.of_nat (fun _ => true) demo_ctl F 0x7f0000 0 demo_perf = (Ret tt, p') /\ queued p' = 0.
Proof.
  destruct (perf_run_ends bump_ops demo_opts Z.of_nat Z.of_nat (fun _ => true) demo_ctl 0x7f0000 0 demo_perf 0x10000 bump_ctx1)
    as (F & p' & H1 & H2 & _).
  - split; vm_compute; congruence.
  - split; [exact demo_pair_fresh|]. repeat split; reflexivity.
  - split; vm_compute; congruence.
  - reflexivity.
  - exact demo_serving.
  - split; [lia|]. split; [lia|]. exists 6%nat, 30%nat. split; [vm_compute; lia|]. split; [reflexivity|].
    split; [reflexivity|]. vm_compute. discriminate.
  - discriminate.
  - vm_compute. reflexivity.
  - split; vm_compute; congruence.
  - exists F, p'. split; [apply H1; lia|exact H2].
Defined.

(** An empty namespace: the random pattern divides by zero, the sequential one
    reads a block that does not exist. *)
Lemma empty_namespace_undefined :
  let o r := mk_perf_opts 1 10 0 3 2 r 0 1 in
  (run bump_ops (o true) Z.of_nat Z.of_nat (fun _ => true) demo_ctl 40 0x7f0000 0 demo_perf).1 = Crash /\
  (fun p => (slba_of <$> sent (qp p)) !! 0%nat) (run bump_ops (o false) Z.of_nat Z.of_nat (fun _ => true) demo_ctl 40 0x7f0000 0 demo_perf).2 = Some 1.
Proof. split; vm_compute; reflexivity. Qed.

(** [mmap] reports failure with [MAP_FAILED], which passes for an address. *)
Lemma map_failed_taken_for_memory :
  exists iova c, (run bump_ops demo_opts Z.of_nat Z.of_nat (fun _ => true) demo_ctl 40 UINT64_MAX 0 demo_perf).1 <> Fail ENOMEM /\
    iommu_map_vaddr bump_ops UINT64_MAX 0x2000 None 0 0 bump_ctx = (Ret iova, c).
Proof. do 2 eexists. split; [vm_compute; discriminate|vm_compute; reflexivity]. Qed.
