(* ===== verification/DataPath.v ===== *)
(** * DataPath: from a buffer of the process to the bytes a controller reaches

    The data pointers of [Prp] are I/O addresses; the controller reads the list
    pages and transfers the data through the IOMMU, whose table the kernel keeps
    ([VfioDma], [Iommufd]).  Here the parts meet: what the controller reaches
    for a command a tracker was mapped for, by virtual address of the process. *)

From S2P Require Import Prelude CStr Io Pci Support Skiplist IovaAlloc VfioIova Dma VfioDma Iommufd NvmeTypes Prp NvmeQueue NvmeRq.
Local Open Scope Z_scope.

(** ** The IOMMU *)

(** The virtual address behind an I/O address, by a table of mappings (I/O
    address, size, virtual address); [None] is a fault. *)
Definition iommu_walk (t : list (Z * Z * Z)) (a : Z) : option Z :=
  (fun e => e.2 + (a - e.1.1)) <$> List.find (fun e => (e.1.1 <=? a) && (a <? e.1.1 + e.1.2)) t.

(** A 64-bit read of the controller; [mem] are the words of the process.  A
    fault reads as all ones. *)
Definition dma_read64 (t : list (Z * Z * Z)) (mem : Z -> Z) (a : Z) : Z :=
  match iommu_walk t a with
  | Some v => mem v
  | None => UINT64_MAX
  end.

(** The bytes behind blocks of I/O addresses, in order. *)
Definition dma_bytes (t : list (Z * Z * Z)) (chunks : list (Z * Z)) : list (option Z) :=
  concat ((fun ch => iommu_walk t <$> seqZ ch.1 ch.2) <$> chunks).

(** The words of the process at [v] are [l]. *)
Definition holds (mem : Z -> Z) (v : Z) (l : list Z) : Prop :=
  forall j x, l !! j = Some x -> mem (v + 8 * Z.of_nat j) = x.

(** The context translates [len] bytes at [v] to I/O addresses from [iova] on. *)
Definition mapped_at {B} (c : iommu_ctx B) (v iova len : Z) : Prop :=
  forall k, 0 <= k < len -> iommu_translate_vaddr c (v + k) = Some (iova + k).

Lemma mapped_part {B} (c : iommu_ctx B) v iova len o n :
  mapped_at c v iova len -> 0 <= o -> o + n <= len -> mapped_at c (v + o) (iova + o) n.
Proof. intros Hm Ho Hn k Hk. rewrite <- !Z.add_assoc. apply Hm. lia. Qed.

(** The context and the table of the kernel agree. *)
Definition agree {B} (c : iommu_ctx B) (t : list (Z * Z * Z)) : Prop :=
  exists ms, map_ok (map c) ms /\ t ≡ₚ m_entry <$> ms /\ apart (m_iv <$> ms) /\
    Forall (fun m => 0 <= m_iova m /\ m_iova m + m_len m <= UINT64_MAX) ms.

Lemma walk_unique t iova len vaddr a :
  apart ((fun e => (e.1.1, e.1.2)) <$> t) -> (iova, len, vaddr) ∈ t -> iova <= a < iova + len ->
  iommu_walk t a = Some (vaddr + (a - iova)).
Proof.
  intros Hap Hin Ha. unfold iommu_walk. induction t as [|e t IH]; [by apply elem_of_nil in Hin|].
  simpl in Hap. apply apart_cons in Hap as [Hd Hap]. simpl. apply elem_of_cons in Hin as [<-|Hin].
  - simpl. by rewrite (proj2 (andb_true_iff _ _)) by (rewrite Z.leb_le, Z.ltb_lt; lia).
  - rewrite Forall_forall in Hd. specialize (Hd (iova, len)). unfold disj in Hd. simpl in Hd.
    rewrite (proj2 (andb_false_iff _ _)); [by apply IH|]. rewrite Z.leb_gt, Z.ltb_ge.
    destruct Hd; [|lia..]. by apply (list_elem_of_fmap_2 (fun e => (e.1.1, e.1.2)) t (iova, len, vaddr)).
Qed.

Section Agree.
Context {B : Type} (c : iommu_ctx B) (t : list (Z * Z * Z)) (Hagree : agree c t).

(** The IOMMU undoes the translation of the context. *)
Lemma agree_walk v i : iommu_translate_vaddr c v = Some i -> iommu_walk t i = Some v /\ 0 <= i < UINT64_MAX.
Proof using Hagree.
  destruct Hagree as (ms & Hok & Ht & Hap & Hbd). intros Hv.
  apply (table_translation _ _ _ _ _ Hok Hbd Ht) in Hv as (iova & len & vaddr & Hin & Hv & ->).
  rewrite (walk_unique t iova len vaddr); [|by rewrite Ht, <- list_fmap_compose|done|lia].
  split; [f_equal; lia|]. rewrite Ht in Hin. apply list_elem_of_fmap in Hin as (m & [= -> -> ->] & Hin).
  rewrite Forall_forall in Hbd. specialize (Hbd m Hin). lia.
Qed.

Lemma table_mapped iova len vaddr : (iova, len, vaddr) ∈ t -> mapped_at c vaddr iova len.
Proof using Hagree.
  destruct Hagree as (ms & Hok & Ht & Hap & Hbd). intros Hin k Hk.
  apply (table_translation _ _ _ _ _ Hok Hbd Ht). exists iova, len, vaddr. split; [done|lia].
Qed.

Lemma mapped_bounds v iova len : mapped_at c v iova len -> 0 < len -> 0 <= iova /\ iova + len <= UINT64_MAX.
Proof using Hagree.
  intros Hm Hl. destruct (agree_walk _ _ (Hm 0 ltac:(lia))) as [_ H0].
  destruct (agree_walk _ _ (Hm (len - 1) ltac:(lia))) as [_ H1]. lia.
Qed.

(** The controller reads list pages where the driver wrote them. *)
Lemma read_mapped mem v iova l len :
  mapped_at c v iova len -> 8 * Z.of_nat (length l) <= len -> holds mem v l -> reads (dma_read64 t mem) l iova.
Proof using Hagree.
  intros Hm Hl Hh j x Hj. pose proof (lookup_lt_Some _ _ _ Hj).
  unfold dma_read64. destruct (agree_walk _ _ (Hm (8 * Z.of_nat j) ltac:(lia))) as [-> _]. by apply Hh.
Qed.

(** Blocks that cover a mapped buffer reach its bytes. *)
Lemma bytes_consecutive v iova len chunks :
  mapped_at c v iova len -> consecutive iova len chunks -> dma_bytes t chunks = Some <$> seqZ v len.
Proof using Hagree.
  revert v iova len. induction chunks as [|[x n] chunks IH]; intros v iova len Hm; simpl.
  { intros ->. done. }
  intros (-> & Hn & Hc). assert (0 <= len - n) as Hle.
  { clear -Hc. revert Hc. generalize (iova + n) (len - n). induction chunks as [|[x k] chunks IH]; intros i l; simpl.
    - lia.
    - intros (_ & Hk & Hc). specialize (IH _ _ Hc). lia. }
  change (dma_bytes t ((iova, n) :: chunks)) with ((iommu_walk t <$> seqZ iova n) ++ dma_bytes t chunks).
  rewrite (IH (v + n) (iova + n) (len - n)); [| |done].
  - replace len with (n + (len - n)) at 2 by lia. rewrite seqZ_app, fmap_app by lia. f_equal.
    apply list_eq. intros j. rewrite !list_lookup_fmap. destruct (decide (Z.of_nat j < n)).
    + rewrite !lookup_seqZ_lt by lia. simpl. f_equal. by apply agree_walk, Hm; lia.
    + rewrite !lookup_seqZ_ge by lia. done.
  - eapply mapped_part; [done|lia|lia].
Qed.

Lemma bytes_app l1 l2 : dma_bytes t (l1 ++ l2) = dma_bytes t l1 ++ dma_bytes t l2.
Proof. unfold dma_bytes. by rewrite fmap_app, concat_app. Qed.
End Agree.

(** ** Vectors of virtual addresses *)

(** Segment [w] is segment [v] by its I/O address. *)
Definition located {B} (c : iommu_ctx B) (v : iovec) (w : iova_vec) : Prop :=
  mapped_at c (iov_base v) (iv_iova w) (iov_len v) /\ 0 < iov_len v /\ iv_len w = iov_len v.

Lemma located_translate {B} (c : iommu_ctx B) v w :
  located c v w -> iommu_translate_vaddr c (iov_base v) = Some (iv_iova w).
Proof. intros (Hm & Hl & _). specialize (Hm 0 ltac:(lia)). by rewrite !Z.add_0_r in Hm. Qed.

(** The loop over virtual addresses is the loop over their I/O addresses. *)
Lemma append_loop_located {B} (c : iommu_ctx B) vec ws shift cur :
  Forall2 (located c) vec ws ->
  append_loop vec (iommu_translate_vaddr c) shift cur =
  append_loop ((fun w => mk_iovec (iv_iova w) (iv_len w)) <$> ws) Some shift cur.
Proof.
  intros H. revert cur. induction H as [|v w vec ws Hv Hvs IH]; intros cur; [done|].
  cbn [append_loop fmap list_fmap iov_base iov_len]. rewrite (located_translate _ _ _ Hv).
  destruct Hv as (_ & _ & El). rewrite El.
  assert (match (fun w => mk_iovec (iv_iova w) (iv_len w)) <$> ws with [] => true | _ => false end =
    match vec with [] => true | _ => false end) as -> by (by inversion Hvs).
  destruct (_ && _); [done|]. unfold bind. destruct (__map_prp_append _ _ _ _ _ cur) as [[n|e|] c1]; [|done..].
  by rewrite IH.
Qed.

Lemma mapv_located {B} (c : iommu_ctx B) mps lv lists n d v w vec ws base :
  Forall2 (located c) (v :: vec) (w :: ws) -> iommu_translate_vaddr c lv = Some base ->
  nvme_mapv_prp c mps lv lists n d (v :: vec) = nvme_mapv_iova_prp c mps lv lists n d (w :: ws).
Proof.
  intros [Hv Hvs]%Forall2_cons Hl. unfold nvme_mapv_prp, nvme_mapv_iova_prp.
  rewrite (located_translate _ _ _ Hv), Hl. destruct Hv as (_ & _ & ->). destruct (n <? 1); [done|].
  unfold run_mapv, mapv_segments.
  assert (match (fun w => mk_iovec (iv_iova w) (iv_len w)) <$> ws with [] => true | _ => false end =
    match vec with [] => true | _ => false end) as -> by (by inversion Hvs).
  unfold bind. destruct (__map_prp_first _ _ _ _ _) as [[k|e|] c1]; [|done..].
  destruct (_ <? _); [done|]. destruct (negb _); [done|]. by rewrite (append_loop_located c vec ws _ c1 Hvs).
Qed.

(** Segment after segment, each from its first to its last byte. *)
Definition segment_bytes (vec : list iovec) : list Z := concat ((fun v => seqZ (iov_base v) (iov_len v)) <$> vec).

Lemma bytes_describes {B} (c : iommu_ctx B) t vec ws chunks :
  agree c t -> Forall2 (located c) vec ws ->
  describes ((fun w => mk_iovec (iv_iova w) (iv_len w)) <$> ws) chunks ->
  dma_bytes t chunks = Some <$> segment_bytes vec.
Proof.
  intros Ha Hv (parts & -> & Hp). revert parts Hp.
  induction Hv as [|v w vec ws (Hm & Hl & El) Hvs IH]; intros parts Hp; inversion Hp; subst; [done|].
  unfold segment_bytes. simpl. rewrite bytes_app, fmap_app. f_equal; [|by apply IH].
  apply (bytes_consecutive c t Ha _ (iv_iova w)); [done|]. simpl in *. congruence.
Qed.

Lemma total_located {B} (c : iommu_ctx B) vec ws :
  Forall2 (located c) vec ws -> total vec = total ((fun w => mk_iovec (iv_iova w) (iv_len w)) <$> ws).
Proof.
  induction 1 as [|v w vec ws (_ & _ & E) _ IH]; [done|].
  change (iov_len v + total vec = iv_len w + total ((fun w => mk_iovec (iv_iova w) (iv_len w)) <$> ws)). lia.
Qed.

(** ** Trackers *)

Section Reach.
Context {B : Type} (c : iommu_ctx B) (t : list (Z * Z * Z)) (Hagree : agree c t).
Context (mps : Z) (Hmps : 0 <= mps <= 15) (rq : nvme_rq).
Local Abbreviation shift := (__mps_to_pageshift mps).
Local Abbreviation pagesize := (Z.shiftl 1 (__mps_to_pageshift mps)).
Local Abbreviation max := (Z.to_nat (Z.shiftl 1 (__mps_to_pageshift mps - 3))).
Context (Hpage : mapped_at c (rq_page_vaddr rq) (rq_page_iova rq) pagesize) (Haligned : rq_page_iova rq mod pagesize = 0).

Lemma page_size : 4096 <= pagesize /\ pagesize = 8 * Z.of_nat max.
Proof using Hmps.
  assert (12 <= shift <= 27) as Hs by (unfold __mps_to_pageshift; lia).
  split; [by apply ps_pos|by apply ps_max].
Qed.

Lemma page_base :
  iommu_translate_vaddr c (rq_page_vaddr rq) = Some (rq_page_iova rq) /\ 0 <= rq_page_iova rq /\
  rq_page_iova rq + 1 * pagesize <= 0x10000000000000000.
Proof using Hagree Hmps Hpage.
  pose proof page_size as [Hps _]. destruct (mapped_bounds c t Hagree _ _ _ Hpage ltac:(lia)) as [H0 H1].
  pose proof (Hpage 0 ltac:(lia)) as Ht. rewrite !Z.add_0_r in Ht. unfold UINT64_MAX in H1. split; [done|lia].
Qed.

Lemma rq_map_prp_reaches page d v iova len :
  length page = max -> mapped_at c v iova len -> 0 < len < 0x70000000 ->
  match nvme_rq_map_prp c mps rq page d iova len with
  | (Ret _, (prp1, prp2, page')) => forall mem, holds mem (rq_page_vaddr rq) page' ->
      dma_bytes t (device_prps (dma_read64 t mem) pagesize max prp1 prp2 len) = Some <$> seqZ v len
  | (Fail e, _) => e = EINVAL /\ Z.of_nat max < Z.of_nat (pages_for pagesize (after_first shift iova len))
  | (Crash, _) => False
  end.
Proof using Hagree Hmps Hpage Haligned.
  intros Hl Hm Hlen. destruct page_size as [Hps Emax]. destruct page_base as (Htr & H0 & H1).
  destruct (mapped_bounds c t Hagree _ _ _ Hm ltac:(lia)) as [Hi0 Hi1]. unfold UINT64_MAX in Hi1.
  pose proof (map_prp_device c mps (rq_page_vaddr rq) page 1 d iova len (rq_page_iova rq) Hmps ltac:(lia)
    ltac:(rewrite Hl; lia) Htr H0 Haligned H1 Hi0 ltac:(lia) ltac:(lia) ltac:(lia)) as H.
  cbv zeta in H. unfold nvme_rq_map_prp.
  destruct (nvme_map_prp _ _ _ _ _ _ _ _) as [[u|e|] [[prp1 prp2] page']]; [|clear Hm|done].
  - destruct H as [El H]. intros mem Hmem. apply (bytes_consecutive c t Hagree v iova); [done|]. apply H.
    eapply (read_mapped c t Hagree); [exact Hpage| |exact Hmem]. rewrite El, Hl. lia.
  - destruct H as [-> H]. split; [done|]. unfold after_first. unfold __prplist_capacity in H.
    rewrite Z.mul_sub_distr_l in H. lia.
Qed.

Lemma rq_mapv_prp_reaches page d v vec w ws :
  length page = max -> Forall2 (located c) (v :: vec) (w :: ws) ->
  let seg := fun w => mk_iovec (iv_iova w) (iv_len w) in
  let len := total (v :: vec) in
  vec_shape shift (seg w) (seg <$> ws) ->
  Z.of_nat (pages_for pagesize (after_first shift (iv_iova w) len)) <= Z.of_nat max ->
  exists prp1 prp2 page', nvme_rq_mapv_prp c mps rq page d (v :: vec) = (Ret tt, (prp1, prp2, page')) /\
    forall mem, holds mem (rq_page_vaddr rq) page' ->
    dma_bytes t (device_prps (dma_read64 t mem) pagesize max prp1 prp2 len) = Some <$> segment_bytes (v :: vec).
Proof using Hagree Hmps Hpage Haligned.
  intros Hl Hloc seg len Hsh Hcap. destruct page_size as [Hps Emax]. destruct page_base as (Htr & H0 & H1).
  assert (len = iv_len w + total (seg <$> ws)) as El.
  { unfold len. rewrite (total_located c _ _ Hloc). done. }
  unfold nvme_rq_mapv_prp. rewrite (mapv_located c mps _ page 1 d v w vec ws _ Hloc Htr).
  destruct (mapv_device c mps (rq_page_vaddr rq) page 1 d w ws (rq_page_iova rq) Hmps ltac:(lia)
    ltac:(rewrite Hl; lia) Htr H0 Haligned H1 Hsh) as (prp2 & page' & Hrun & El' & Hd).
  { fold seg. rewrite <- El. unfold __prplist_capacity. lia. }
  fold seg in Hd. rewrite <- El in Hd. eexists _, _, _. split; [exact Hrun|]. intros mem Hmem.
  apply (bytes_describes c t _ (w :: ws)); [done|done|]. apply Hd.
  eapply (read_mapped c t Hagree); [exact Hpage| |exact Hmem]. rewrite El', Hl. lia.
Qed.
End Reach.

(** ** The two backends *)

Section Vfio.
Context {page : PageSize} {K : Type} {kernel : VfioKernel K}.

Lemma vfio_agree ranges rands b c :
  vfio_fresh ranges b -> rtc (fun c c' => exists r, ctx_step vfio_ops c r c') (iommu_ctx_init rands b) c ->
  agree c (k_table (vb_kernel (backend c))).
Proof.
  intros Hf Hs. assert (ctx_inv vfio_ops c) as (ms & Hok & Hb).
  { apply ctx_reachable_inv. exists rands, b. split; [by eapply vfio_fresh_inv|done]. }
  destruct (binv_iova _ _ Hb) as [Hap Hbd]. destruct Hb as [_ Ht]. by exists ms.
Qed.

(** C4. From a buffer of the process to the bytes the controller reaches.  In
    any context a client of a vfio container can come to, let a tracker's page,
    at a page of the controller's size, and a buffer be mapped and [nvme_rq_map_prp] prepare a command for the
    buffer.  The call fails only if the buffer needs more entries than the page
    has.  Otherwise a controller that follows PRP1, PRP2 and the list, reading
    the list and transferring the data through the table of the kernel's IOMMU,
    reaches the bytes of the buffer, all of them, in order, and nothing else. *)
Theorem controller_reaches_buffer ranges rands b c mps rq lists d v iova len :
  vfio_fresh ranges b -> rtc (fun c c' => exists r, ctx_step vfio_ops c r c') (iommu_ctx_init rands b) c ->
  let pagesize := Z.shiftl 1 (__mps_to_pageshift mps) in
  let max := Z.to_nat (Z.shiftl 1 (__mps_to_pageshift mps - 3)) in
  let t := k_table (vb_kernel (backend c)) in
  0 <= mps <= 15 -> mapped_at c (rq_page_vaddr rq) (rq_page_iova rq) pagesize -> rq_page_iova rq mod pagesize = 0 ->
  length lists = max ->
  mapped_at c v iova len -> 0 < len < 0x70000000 ->
  match nvme_rq_map_prp c mps rq lists d iova len with
  | (Ret _, (prp1, prp2, lists')) => forall mem, holds mem (rq_page_vaddr rq) lists' ->
      dma_bytes t (device_prps (dma_read64 t mem) pagesize max prp1 prp2 len) = Some <$> seqZ v len
  | (Fail e, _) => e = EINVAL /\ Z.of_nat max < Z.of_nat (pages_for pagesize (len - Z.min len (pagesize - iova mod pagesize)))
  | (Crash, _) => False
  end.
Proof. intros Hf Hs pagesize max t Hmps Hp Ha Hl Hm Hlen. apply rq_map_prp_reaches; try done. by eapply vfio_agree. Qed.

(** The same of a vector of segments of virtual addresses, which the driver
    translates one by one: if the segments are mapped and have the shape PRP
    lists can express, and the entries fit the tracker's page, the call succeeds
    and the controller reaches segment after segment, each from its first to its
    last byte. *)
Theorem controller_reaches_segments ranges rands b c mps rq lists d v vec w ws :
  vfio_fresh ranges b -> rtc (fun c c' => exists r, ctx_step vfio_ops c r c') (iommu_ctx_init rands b) c ->
  let shift := __mps_to_pageshift mps in
  let pagesize := Z.shiftl 1 shift in
  let max := Z.to_nat (Z.shiftl 1 (shift - 3)) in
  let t := k_table (vb_kernel (backend c)) in
  let seg := fun w => mk_iovec (iv_iova w) (iv_len w) in
  let len := total (v :: vec) in
  0 <= mps <= 15 -> mapped_at c (rq_page_vaddr rq) (rq_page_iova rq) pagesize -> rq_page_iova rq mod pagesize = 0 ->
  length lists = max ->
  Forall2 (located c) (v :: vec) (w :: ws) -> vec_shape shift (seg w) (seg <$> ws) ->
  Z.of_nat (pages_for pagesize (after_first shift (iv_iova w) len)) <= Z.of_nat max ->
  exists prp1 prp2 lists', nvme_rq_mapv_prp c mps rq lists d (v :: vec) = (Ret tt, (prp1, prp2, lists')) /\
    forall mem, holds mem (rq_page_vaddr rq) lists' ->
    dma_bytes t (device_prps (dma_read64 t mem) pagesize max prp1 prp2 len) = Some <$> segment_bytes (v :: vec).
Proof.
  intros Hf Hs shift pagesize max t seg len Hmps Hp Ha Hl Hloc Hsh Hcap.
  apply (rq_mapv_prp_reaches c t) with (w := w) (ws := ws); try done. by eapply vfio_agree.
Qed.
End Vfio.

Section Iommufd.
Context {K : Type} {fs : SysFs K} {kernel : IommufdKernel K}.

Lemma iommufd_agree rands b c :
  ib_table b = [] -> rtc (fun c c' => exists r, ctx_step iommufd_ops c r c') (iommu_ctx_init rands b) c ->
  agree c (ib_table (backend c)).
Proof.
  intros Ht Hs. set (laws := iommufd_laws (io_id (ib_ioas b)) (io_table (ib_kernel b))).
  assert (@ctx_inv _ iommufd_ops laws c) as (ms & Hok & (Hc & Hap & Hbd & _)).
  { apply ctx_reachable_inv. exists rands, b. split; [|done]. split; [by rewrite Ht|].
    split; [constructor|]. split; [constructor|done]. }
  by exists ms.
Qed.

(** The same with an address space of iommufd. *)
Lemma controller_reaches_buffer_iommufd rands b c mps rq lists d v iova len :
  ib_table b = [] -> rtc (fun c c' => exists r, ctx_step iommufd_ops c r c') (iommu_ctx_init rands b) c ->
  let pagesize := Z.shiftl 1 (__mps_to_pageshift mps) in
  let max := Z.to_nat (Z.shiftl 1 (__mps_to_pageshift mps - 3)) in
  let t := ib_table (backend c) in
  0 <= mps <= 15 -> mapped_at c (rq_page_vaddr rq) (rq_page_iova rq) pagesize -> rq_page_iova rq mod pagesize = 0 ->
  length lists = max ->
  mapped_at c v iova len -> 0 < len < 0x70000000 ->
  match nvme_rq_map_prp c mps rq lists d iova len with
  | (Ret _, (prp1, prp2, lists')) => forall mem, holds mem (rq_page_vaddr rq) lists' ->
      dma_bytes t (device_prps (dma_read64 t mem) pagesize max prp1 prp2 len) = Some <$> seqZ v len
  | (Fail e, _) => e = EINVAL /\ Z.of_nat max < Z.of_nat (pages_for pagesize (len - Z.min len (pagesize - iova mod pagesize)))
  | (Crash, _) => False
  end.
Proof. intros Hf Hs pagesize max t Hmps Hp Ha Hl Hm Hlen. apply rq_map_prp_reaches; try done. by eapply iommufd_agree. Qed.
End Iommufd.

(** ** A run: a tracker's page and a buffer in two mappings *)

Definition demo_rq : nvme_rq := mk_rq 0 0 0x7e0000 0x10000 None.
Definition demo_words (l : list Z) (a : Z) : Z := default 0 (l !! Z.to_nat ((a - 0x7e0000) / 8)).
Definition demo_map := nvme_rq_map_prp demo_ctx2 0 demo_rq (replicate 512 0) (0, 0) 0x20800 0x1400.

Lemma demo_agree : agree demo_ctx2 (k_table (vb_kernel (backend demo_ctx2))).
Proof. eapply vfio_agree; [apply demo_fresh|apply demo_ctx2_reachable]. Qed.

Lemma demo_page_mapped : mapped_at demo_ctx2 0x7e0000 0x10000 0x1000.
Proof. apply (table_mapped _ _ demo_agree). vm_compute. left. Qed.
Lemma demo_buffer_mapped : mapped_at demo_ctx2 0x7f0000 0x20000 0x2000.
Proof. apply (table_mapped _ _ demo_agree). vm_compute. right. left. Qed.

Lemma demo_words_holds l : holds (demo_words l) 0x7e0000 l.
Proof.
  intros j x Hj. unfold demo_words. replace (_ - _) with (Z.of_nat j * 8) by lia.
  by rewrite Z.div_mul, Nat2Z.id, Hj by lia.
Qed.

Lemma controller_reaches_buffer_witness :
  exists prp2 lists', demo_map = (Ret tt, (0x20800, prp2, lists')) /\ prp2 = 0x21000 /\
    let t := k_table (vb_kernel (backend demo_ctx2)) in
    dma_bytes t (device_prps (dma_read64 t (demo_words lists')) 0x1000 512 0x20800 prp2 0x1400) =
      Some <$> seqZ 0x7f0800 0x1400.
Proof.
  pose proof (controller_reaches_buffer (page := page_4k) demo_ranges [] demo_backend demo_ctx2 0 demo_rq (replicate 512 0)
    (0, 0) 0x7f0800 0x20800 0x1400 demo_fresh demo_ctx2_reachable ltac:(lia) demo_page_mapped eq_refl eq_refl
    (mapped_part _ 0x7f0000 0x20000 0x2000 0x800 0x1400 demo_buffer_mapped ltac:(lia) ltac:(lia)) ltac:(lia)) as H.
  fold demo_map in H.
  assert (exists l, demo_map = (Ret tt, (0x20800, 0x21000, l))) as [l E] by (eexists; vm_compute; reflexivity).
  rewrite E in H. exists 0x21000, l. split; [exact E|]. split; [reflexivity|]. apply H, demo_words_holds.
Defined.

Lemma controller_reaches_segments_witness :
  exists prp1 prp2 lists',
    nvme_rq_mapv_prp demo_ctx2 0 demo_rq (replicate 512 0) (0, 0) [mk_iovec 0x7f1800 0x800; mk_iovec 0x7f0000 0x100] =
      (Ret tt, (prp1, prp2, lists')) /\
    let t := k_table (vb_kernel (backend demo_ctx2)) in
    dma_bytes t (device_prps (dma_read64 t (demo_words lists')) 0x1000 512 prp1 prp2 0x900) =
      Some <$> (seqZ 0x7f1800 0x800 ++ seqZ 0x7f0000 0x100).
Proof.
  destruct (controller_reaches_segments (page := page_4k) demo_ranges [] demo_backend demo_ctx2 0 demo_rq
    (replicate 512 0) (0, 0) (mk_iovec 0x7f1800 0x800) [mk_iovec 0x7f0000 0x100]
    (mk_iova_vec 0x21800 0x800) [mk_iova_vec 0x20000 0x100] demo_fresh demo_ctx2_reachable ltac:(lia)
    demo_page_mapped eq_refl eq_refl) as (prp1 & prp2 & l & Hrun & H).
  - repeat constructor; simpl; try lia.
    + apply (mapped_part _ 0x7f0000 0x20000 0x2000 0x1800 0x800 demo_buffer_mapped); lia.
    + apply (mapped_part _ 0x7f0000 0x20000 0x2000 0 0x100 demo_buffer_mapped); lia.
  - unfold vec_shape. cbn [fmap list_fmap tail_shape iov_base iov_len iv_iova iv_len].
    change (Z.shiftl 1 (__mps_to_pageshift 0)) with 4096.
    repeat split; try lia; try (vm_compute; reflexivity); right; [vm_compute; reflexivity|split; [done|lia]].
  - vm_compute. discriminate.
  - exists prp1, prp2, l. split; [exact Hrun|]. specialize (H _ (demo_words_holds l)).
    unfold segment_bytes in H. cbn [fmap list_fmap concat iov_base iov_len] in H. rewrite app_nil_r in H. exact H.
Defined.
