(* ===== verification/Crc64.v ===== *)
(** * Crc64: the NVMe data integrity checksum, nvme_crc64 of src/nvme/util.c
      and the generator of its table, lib/gentable-crc64.c

    The table-driven computation is the bit-serial division it stands for, and
    detects every change of a single byte. *)

From S2P Require Import Prelude.
Local Open Scope Z_scope.

Definition CRC64_NVME_POLY : Z := 0x9A6C9329AC4BC9B5.

(** The exponents of the polynomial the generator lists. *)
Definition COEFFS : list Z :=
  [63; 61; 59; 58; 56; 55; 52; 49; 48; 47; 46; 44; 41; 37; 36; 34; 32; 31; 28; 26; 23; 22; 19; 16; 13; 12; 10; 9; 6; 4; 3; 0].

(** One round of the generator's inner loop. *)
Definition generate_round (byte crc : Z) (j : nat) : Z :=
  if negb (Z.land (Z.lxor crc (Z.shiftr byte (Z.of_nat j))) 1 =? 0)
  then Z.lxor (Z.shiftr crc 1) CRC64_NVME_POLY
  else Z.shiftr crc 1.

Definition table_entry (i : nat) : Z := fold_left (generate_round (Z.of_nat i)) (seq 0 8) 0.

Definition crc64_nvme_table : list Z := Eval vm_compute in (table_entry <$> seq 0 256).

Definition crc_byte (crc b : Z) : Z :=
  Z.lxor (Z.shiftr crc 8) (default 0 (crc64_nvme_table !! Z.to_nat (Z.lxor (Z.land crc 0xff) b))).

Definition nvme_crc64 (crc : Z) (buffer : list Z) : Z := Z.lxor (fold_left crc_byte buffer crc) UINT64_MAX.

(** ** The reference: one bit at a time, least significant bit first *)

Definition bit_step (crc : Z) (bit : bool) : Z :=
  if xorb (Z.testbit crc 0) bit then Z.lxor (Z.shiftr crc 1) CRC64_NVME_POLY else Z.shiftr crc 1.

Definition bits (b : Z) : list bool := (fun j : nat => Z.testbit b (Z.of_nat j)) <$> seq 0 8.

Definition crc_serial (crc : Z) (buffer : list Z) : Z :=
  Z.lxor (fold_left bit_step (concat (bits <$> buffer)) crc) UINT64_MAX.

Definition byte (b : Z) : Prop := 0 <= b < 256.

(** The polynomial is the one of the exponents, most significant bit lowest. *)
Lemma poly_coeffs : CRC64_NVME_POLY = foldr (fun c p => Z.lor (Z.shiftl 1 (63 - c)) p) 0 COEFFS.
Proof. vm_compute. reflexivity. Qed.

Lemma generate_bit b crc j : generate_round b crc j = bit_step crc (Z.testbit b (Z.of_nat j)).
Proof.
  unfold generate_round, bit_step. set (x := Z.lxor crc (Z.shiftr b (Z.of_nat j))).
  assert (negb (Z.land x 1 =? 0) = Z.testbit x 0) as ->.
  { change 1 with (Z.ones 1). rewrite Z.land_ones, Z.bit0_odd by lia. change (2 ^ 1) with 2.
    rewrite Zmod_odd. by destruct (Z.odd x). }
  unfold x. rewrite Z.lxor_spec, Z.shiftr_spec by lia. by rewrite Z.add_0_l.
Qed.

Lemma table_serial i : table_entry i = fold_left bit_step (bits (Z.of_nat i)) 0.
Proof.
  unfold table_entry, bits. generalize 0. induction (seq 0 8) as [|j l IH]; intros c; [done|].
  simpl. rewrite generate_bit. apply IH.
Qed.

Lemma table_lookup k : 0 <= k < 256 -> crc64_nvme_table !! Z.to_nat k = Some (fold_left bit_step (bits k) 0).
Proof.
  intros Hk. assert (crc64_nvme_table = table_entry <$> seq 0 256) as -> by (vm_compute; reflexivity).
  rewrite list_lookup_fmap, lookup_seq_lt by lia. simpl. f_equal. rewrite table_serial, Z2Nat.id by lia. done.
Qed.

(** Division is linear. *)
Lemma bit_step_lxor c1 c2 b1 b2 :
  bit_step (Z.lxor c1 c2) (xorb b1 b2) = Z.lxor (bit_step c1 b1) (bit_step c2 b2).
Proof.
  unfold bit_step. rewrite Z.lxor_spec, Z.shiftr_lxor.
  destruct (Z.testbit c1 0), (Z.testbit c2 0), b1, b2; simpl;
    apply Z.bits_inj'; intros n Hn; rewrite ?Z.lxor_spec;
    destruct (Z.testbit (Z.shiftr c1 1) n), (Z.testbit (Z.shiftr c2 1) n), (Z.testbit CRC64_NVME_POLY n); done.
Qed.

Lemma steps_lxor l1 l2 c1 c2 :
  length l1 = length l2 ->
  fold_left bit_step (zip_with xorb l1 l2) (Z.lxor c1 c2) = Z.lxor (fold_left bit_step l1 c1) (fold_left bit_step l2 c2).
Proof.
  revert l2 c1 c2. induction l1 as [|b1 l1 IH]; intros [|b2 l2] c1 c2 Hl; try done.
  simpl. rewrite bit_step_lxor. apply IH. by injection Hl.
Qed.

Lemma bits_lxor a b : bits (Z.lxor a b) = zip_with xorb (bits a) (bits b).
Proof. unfold bits. cbn [seq fmap list_fmap zip_with]. by rewrite !Z.lxor_spec. Qed.

(** A byte's own bits shift it out; zero bits shift the register. *)
Lemma shift_out b : byte b -> fold_left bit_step (bits b) b = 0.
Proof.
  intros Hb.
  assert (Forall (fun i => fold_left bit_step (bits (Z.of_nat i)) (Z.of_nat i) = 0) (seq 0 256)) as H.
  { apply (bool_decide_unpack _). vm_compute. exact I. }
  rewrite Forall_forall in H. specialize (H (Z.to_nat b)). rewrite Z2Nat.id in H by (unfold byte in Hb; lia).
  apply H. apply elem_of_seq. unfold byte in Hb. lia.
Qed.

Lemma shift_zero x n : fold_left bit_step (replicate n false) (Z.shiftl x (Z.of_nat n)) = x.
Proof.
  revert x. induction n as [|n IH]; intros x; [apply Z.shiftl_0_r|]. cbn [replicate fold_left].
  unfold bit_step at 2. rewrite Z.shiftl_spec_low by lia. cbn [xorb].
  replace (Z.shiftr (Z.shiftl x (Z.of_nat (S n))) 1) with (Z.shiftl x (Z.of_nat n)); [apply IH|].
  rewrite Z.shiftr_shiftl_l by lia. f_equal. lia.
Qed.

(** One table lookup is eight steps. *)
Lemma crc_byte_serial crc b : 0 <= crc -> byte b -> crc_byte crc b = fold_left bit_step (bits b) crc.
Proof.
  intros Hc Hb. unfold crc_byte. set (lo := Z.land crc 0xff). assert (byte lo) as Hlo.
  { unfold lo, byte. change 0xff with (Z.ones 8). rewrite Z.land_ones by lia. apply Z.mod_pos_bound. lia. }
  assert (byte (Z.lxor lo b)) as Hx.
  { unfold byte in *. apply (lxor_range lo b 8); lia. }
  rewrite table_lookup by exact Hx. simpl default.
  assert (crc = Z.lxor (Z.shiftl (Z.shiftr crc 8) (Z.of_nat 8)) (Z.lxor lo 0)) as Ecrc.
  { rewrite Z.lxor_0_r. apply Z.bits_inj'. intros n Hn. unfold lo. change 0xff with (Z.ones 8).
    rewrite Z.lxor_spec, Z.land_spec, Z.shiftl_spec by lia.
    destruct (decide (n < 8)).
    - rewrite (Z.testbit_neg_r _ (n - Z.of_nat 8)) by lia. rewrite Z.ones_spec_low by lia. by rewrite andb_true_r.
    - rewrite Z.shiftr_spec, Z.ones_spec_high by lia. replace (n - Z.of_nat 8 + 8) with n by lia.
      by rewrite andb_false_r, xorb_false_r. }
  rewrite Ecrc at 2.
  assert (bits b = zip_with xorb (replicate 8 false) (zip_with xorb (bits lo) (bits (Z.lxor lo b)))) as Eb.
  { unfold bits. cbn [seq fmap list_fmap zip_with replicate]. rewrite !Z.lxor_spec.
    by rewrite <- !xorb_assoc, !xorb_nilpotent, !xorb_false_l. }
  rewrite Eb. rewrite steps_lxor by done. rewrite shift_zero. rewrite steps_lxor by done.
  rewrite shift_out by done. by rewrite Z.lxor_0_l.
Qed.

Definition word64 (x : Z) : Prop := 0 <= x < 2 ^ 64.

Lemma table_word64 k : word64 (default 0 (crc64_nvme_table !! k)).
Proof.
  assert (Forall word64 crc64_nvme_table) as H.
  { apply (bool_decide_unpack _). vm_compute. exact I. }
  destruct (crc64_nvme_table !! k) as [x|] eqn:E; simpl; [|unfold word64; lia].
  rewrite Forall_forall in H. apply H. by eapply list_elem_of_lookup_2.
Qed.

Lemma shiftr8_range crc : word64 crc -> 0 <= Z.shiftr crc 8 < 2 ^ 56.
Proof. unfold word64. intros H. rewrite Z.shiftr_div_pow2 by lia. split; [apply Z.div_pos; lia|apply Z.div_lt_upper_bound; lia]. Qed.

Lemma crc_byte_word64 crc b : word64 crc -> word64 (crc_byte crc b).
Proof.
  intros H. apply (lxor_range _ _ 64); [lia| |apply table_word64]. pose proof (shiftr8_range crc H). lia.
Qed.

Lemma crc_bytes_word64 buf crc : word64 crc -> word64 (fold_left crc_byte buf crc).
Proof. revert crc. induction buf as [|b buf IH]; intros crc H; [done|]. simpl. apply IH. by apply crc_byte_word64. Qed.

(** C38. The table-driven checksum is the bit-serial one: for every start value
    and every buffer, [nvme_crc64] equals the division that feeds the bits of the
    buffer one by one into the register. *)
Theorem crc64_bit_serial crc buffer :
  word64 crc -> Forall byte buffer -> nvme_crc64 crc buffer = crc_serial crc buffer.
Proof.
  intros Hc Hb. unfold nvme_crc64, crc_serial. f_equal. revert crc Hc.
  induction Hb as [|b buf Hb _ IH]; intros crc Hc; [done|]. simpl fold_left at 1. cbn [fmap list_fmap concat].
  rewrite fold_left_app, <- crc_byte_serial by (unfold word64 in Hc; done || lia). apply IH. by apply crc_byte_word64.
Qed.

(** The check value of the CRC-64/NVME catalogue entry. *)
Lemma crc64_bit_serial_witness :
  nvme_crc64 UINT64_MAX [0x31; 0x32; 0x33; 0x34; 0x35; 0x36; 0x37; 0x38; 0x39] = 0xAE8B14860A799888.
Proof.
  rewrite (crc64_bit_serial UINT64_MAX [0x31; 0x32; 0x33; 0x34; 0x35; 0x36; 0x37; 0x38; 0x39]).
  - vm_compute. reflexivity.
  - unfold word64, UINT64_MAX. lia.
  - repeat constructor; unfold byte; lia.
Defined.

(** ** Error detection *)

(** The high bytes of the table's entries are all different. *)
Definition high_byte (k : Z) : Z := Z.shiftr (default 0 (crc64_nvme_table !! Z.to_nat k)) 56.

Lemma high_bytes_distinct k1 k2 : byte k1 -> byte k2 -> high_byte k1 = high_byte k2 -> k1 = k2.
Proof.
  assert (NoDup ((fun k => high_byte (Z.of_nat k)) <$> seq 0 256)) as Hnd.
  { apply (bool_decide_unpack _). vm_compute. exact I. }
  intros H1 H2 E. unfold byte in *.
  assert (Z.to_nat k1 = Z.to_nat k2); [|lia].
  eapply (NoDup_lookup _ (Z.to_nat k1) (Z.to_nat k2) (high_byte k1) Hnd); rewrite list_lookup_fmap, lookup_seq_lt by lia;
    simpl; rewrite Z2Nat.id by lia; congruence.
Qed.

Lemma land_byte x : byte (Z.land x 0xff).
Proof. unfold byte. change 0xff with (Z.ones 8). rewrite Z.land_ones by lia. apply Z.mod_pos_bound. lia. Qed.

Lemma lxor_cancel a b c : Z.lxor a c = Z.lxor b c -> a = b.
Proof.
  intros E. rewrite <- (Z.lxor_0_r a), <- (Z.lxor_0_r b), <- (Z.lxor_nilpotent c), <- !Z.lxor_assoc. congruence.
Qed.

(** The step of a byte loses nothing: neither of the register nor of the byte. *)
Lemma crc_byte_inj c1 c2 b1 b2 :
  word64 c1 -> word64 c2 -> byte b1 -> byte b2 -> crc_byte c1 b1 = crc_byte c2 b2 ->
  Z.shiftr c1 8 = Z.shiftr c2 8 /\ Z.lxor (Z.land c1 0xff) b1 = Z.lxor (Z.land c2 0xff) b2.
Proof.
  intros H1 H2 Hb1 Hb2 E. pose proof (shiftr8_range c1 H1) as R1. pose proof (shiftr8_range c2 H2) as R2.
  assert (forall c b, 0 <= Z.shiftr c 8 < 2 ^ 56 -> byte b ->
    Z.shiftr (crc_byte c b) 56 = high_byte (Z.lxor (Z.land c 0xff) b)) as Hh.
  { intros c b Hr _. unfold crc_byte. rewrite Z.shiftr_lxor.
    rewrite (Z.shiftr_div_pow2 (Z.shiftr c 8)), Z.div_small, Z.lxor_0_l by lia. done. }
  assert (Z.lxor (Z.land c1 0xff) b1 = Z.lxor (Z.land c2 0xff) b2) as Ek.
  { apply high_bytes_distinct; [apply (lxor_range _ _ 8); [lia|apply land_byte|done]..|].
    rewrite <- !Hh by done. by rewrite E. }
  split; [|done]. unfold crc_byte in E. rewrite Ek in E. by apply lxor_cancel in E.
Qed.

Lemma crc_byte_register_inj c1 c2 b : word64 c1 -> word64 c2 -> byte b -> crc_byte c1 b = crc_byte c2 b -> c1 = c2.
Proof.
  intros H1 H2 Hb E. destruct (crc_byte_inj c1 c2 b b H1 H2 Hb Hb E) as [Eh El%lxor_cancel].
  change 0xff with (Z.ones 8) in El. rewrite !Z.land_ones in El by lia. rewrite !Z.shiftr_div_pow2 in Eh by lia.
  rewrite (Z.div_mod c1 (2 ^ 8)), (Z.div_mod c2 (2 ^ 8)) by lia. congruence.
Qed.

(** Every change of a single byte is detected: two buffers that differ in
    one byte have different checksums, whatever the start value, the position
    and the rest of the buffer. *)
Theorem crc64_detects_byte_change crc pre post b1 b2 :
  word64 crc -> Forall byte post -> byte b1 -> byte b2 -> b1 <> b2 ->
  nvme_crc64 crc (pre ++ b1 :: post) <> nvme_crc64 crc (pre ++ b2 :: post).
Proof.
  intros Hc Hpost Hb1 Hb2 Hne E. unfold nvme_crc64 in E. apply lxor_cancel in E. rewrite !fold_left_app in E.
  simpl in E. set (c := fold_left crc_byte pre crc) in *.
  assert (word64 c) as Hc' by (by apply crc_bytes_word64).
  assert (forall l x y, Forall byte l -> word64 x -> word64 y -> fold_left crc_byte l x = fold_left crc_byte l y -> x = y) as Hinj.
  { clear. intros l. induction l as [|b l IH]; intros x y Hl Hx Hy E; [done|]. apply Forall_cons in Hl as [Hb Hl].
    simpl in E. apply IH in E; [|by (try apply crc_byte_word64)..]. by apply crc_byte_register_inj in E. }
  apply Hinj in E; [|done|by apply crc_byte_word64..].
  destruct (crc_byte_inj c c b1 b2 Hc' Hc' Hb1 Hb2 E) as [_ El].
  apply Hne. rewrite !(Z.lxor_comm (Z.land c 0xff)) in El. by apply lxor_cancel in El.
Qed.

Lemma crc64_detects_byte_change_witness :
  nvme_crc64 UINT64_MAX ([0x31] ++ 0x32 :: [0x33]) <> nvme_crc64 UINT64_MAX ([0x31] ++ 0x42 :: [0x33]).
Proof.
  apply (crc64_detects_byte_change UINT64_MAX [0x31] [0x33] 0x32 0x42);
    [unfold word64, UINT64_MAX; lia|repeat constructor; unfold byte; lia|unfold byte; lia..|lia].
Defined.
