(* ===== verification/NvmeCtrl.v ===== *)
(** * NvmeCtrl: the controller state and synchronous commands,
      include/vfn/nvme/ctrl.h, include/vfn/support/mmio.h and nvme_aer,
      nvme_sync, nvme_admin of src/nvme/util.c

    The host is little-endian: the conversions of register and descriptor words
    are identities. *)

From S2P Require Import Prelude Support Skiplist IovaAlloc VfioIova Dma NvmeTypes Prp NvmeQueue NvmeRq.
Local Open Scope Z_scope.
Local Open Scope vfn_scope.

(** ** The device behind the registers *)

(** A controller: 32-bit accesses to its registers, by offset; the words of the
    memory it has written by DMA; and, once commands have been submitted to a
    queue, what it does to the completion ring before each of the driver's next
    polls. *)
Class NvmeDevice (D : Type) : Type := {
  reg_load : Z -> D -> Z * D;
  reg_store : Z -> Z -> D -> D;
  dma_word : Z -> D -> Z;
  dev_run : nvme_sq -> nvme_cq -> D -> tenv * D
}.

Section Mmio.
Context {D : Type} `{NvmeDevice D}.

Definition mmio_read32 (addr : Z) : M D Z := fun d => let '(v, d') := reg_load addr d in (Ret (u32 v), d').

Definition mmio_lh_read64 (addr : Z) : M D Z :=
  let* lo := mmio_read32 addr in
  let* hi := mmio_read32 (addr + 4) in
  ret (Z.lor (Z.shiftl hi 32) lo).

Definition mmio_write32 (addr v : Z) : M D unit := modify (reg_store addr (u32 v)).

Definition mmio_lh_write64 (addr v : Z) : M D unit :=
  do* mmio_write32 addr v in mmio_write32 (addr + 4) (Z.shiftr v 32).
Definition mmio_hl_write64 (addr v : Z) : M D unit :=
  do* mmio_write32 (addr + 4) (Z.shiftr v 32) in mmio_write32 addr v.
End Mmio.

(** ** struct nvme_ctrl *)

Record nvme_ctrl_opts : Type := mk_opts { nsqr : Z; ncqr : Z; quirks : Z }.
Definition NVME_QUIRK_BROKEN_DBBUF : Z := Z.shiftl 1 0.
Definition nvme_ctrl_opts_default : nvme_ctrl_opts := mk_opts 63 63 0.

(** The anonymous [config] and [cmb] members. *)
Record ctrl_config : Type := mk_config { nsqa : Z; ncqa : Z; mqes : Z; mps : Z }.
Record ctrl_cmb : Type := mk_cmb { cmb_bar : Z; cmb_vaddr : Z; cmb_iova : Z; cmb_size : Z }.
Definition zero_cmb : ctrl_cmb := mk_cmb 0 0 0 0.

(** Pointers to queues are indices into the arrays; [classcode] is the one of
    the [pci] member. *)
Record nvme_ctrl : Type := mk_ctrl {
  classcode : Z;
  regs : Z;
  ct_sq : list nvme_sq;
  ct_cq : list nvme_cq;
  adminq_sq : option nat;
  adminq_cq : option nat;
  ct_doorbells : Z;
  dbbuf_doorbells : iommu_dmabuf;
  dbbuf_eventidxs : iommu_dmabuf;
  opts : nvme_ctrl_opts;
  config : ctrl_config;
  ct_flags : Z;
  cmb : ctrl_cmb
}.
Definition zero_ctrl : nvme_ctrl :=
  mk_ctrl 0 0 [] [] None None 0 zero_dmabuf zero_dmabuf (mk_opts 0 0 0) (mk_config 0 0 0 0) 0 zero_cmb.

Section Setters.
Context (c : nvme_ctrl).
Definition set_pci (class : Z) : nvme_ctrl :=
  mk_ctrl class (regs c) (ct_sq c) (ct_cq c) (adminq_sq c) (adminq_cq c) (ct_doorbells c) (dbbuf_doorbells c)
    (dbbuf_eventidxs c) (opts c) (config c) (ct_flags c) (cmb c).
Definition set_regs (r db : Z) : nvme_ctrl :=
  mk_ctrl (classcode c) r (ct_sq c) (ct_cq c) (adminq_sq c) (adminq_cq c) db (dbbuf_doorbells c)
    (dbbuf_eventidxs c) (opts c) (config c) (ct_flags c) (cmb c).
Definition set_sqs (l : list nvme_sq) : nvme_ctrl :=
  mk_ctrl (classcode c) (regs c) l (ct_cq c) (adminq_sq c) (adminq_cq c) (ct_doorbells c) (dbbuf_doorbells c)
    (dbbuf_eventidxs c) (opts c) (config c) (ct_flags c) (cmb c).
Definition set_cqs (l : list nvme_cq) : nvme_ctrl :=
  mk_ctrl (classcode c) (regs c) (ct_sq c) l (adminq_sq c) (adminq_cq c) (ct_doorbells c) (dbbuf_doorbells c)
    (dbbuf_eventidxs c) (opts c) (config c) (ct_flags c) (cmb c).
Definition set_adminq (sq cq : option nat) : nvme_ctrl :=
  mk_ctrl (classcode c) (regs c) (ct_sq c) (ct_cq c) sq cq (ct_doorbells c) (dbbuf_doorbells c)
    (dbbuf_eventidxs c) (opts c) (config c) (ct_flags c) (cmb c).
Definition set_dbbufs (db ei : iommu_dmabuf) : nvme_ctrl :=
  mk_ctrl (classcode c) (regs c) (ct_sq c) (ct_cq c) (adminq_sq c) (adminq_cq c) (ct_doorbells c) db ei
    (opts c) (config c) (ct_flags c) (cmb c).
Definition set_opts (o : nvme_ctrl_opts) : nvme_ctrl :=
  mk_ctrl (classcode c) (regs c) (ct_sq c) (ct_cq c) (adminq_sq c) (adminq_cq c) (ct_doorbells c) (dbbuf_doorbells c)
    (dbbuf_eventidxs c) o (config c) (ct_flags c) (cmb c).
Definition set_config (f : ctrl_config) : nvme_ctrl :=
  mk_ctrl (classcode c) (regs c) (ct_sq c) (ct_cq c) (adminq_sq c) (adminq_cq c) (ct_doorbells c) (dbbuf_doorbells c)
    (dbbuf_eventidxs c) (opts c) f (ct_flags c) (cmb c).
Definition set_flags (fl : Z) : nvme_ctrl :=
  mk_ctrl (classcode c) (regs c) (ct_sq c) (ct_cq c) (adminq_sq c) (adminq_cq c) (ct_doorbells c) (dbbuf_doorbells c)
    (dbbuf_eventidxs c) (opts c) (config c) fl (cmb c).
Definition set_cmb (m : ctrl_cmb) : nvme_ctrl :=
  mk_ctrl (classcode c) (regs c) (ct_sq c) (ct_cq c) (adminq_sq c) (adminq_cq c) (ct_doorbells c) (dbbuf_doorbells c)
    (dbbuf_eventidxs c) (opts c) (config c) (ct_flags c) m.
End Setters.

(** ** The system: a controller structure, its device, its IOMMU context and the
    contents of the trackers' list pages *)

Record csys (B D : Type) : Type := mk_csys {
  s_ctx : iommu_ctx B;
  s_dev : D;
  s_ctrl : nvme_ctrl;
  s_pages : gmap Z (list Z)
}.
Arguments mk_csys {B D}.
Arguments s_ctx {B D}.
Arguments s_dev {B D}.
Arguments s_ctrl {B D}.
Arguments s_pages {B D}.

Section Sys.
Context {B D : Type} `{NvmeDevice D} (ops : iommu_ctx_ops B).
Implicit Types s : csys B D.

Definition on_ctx {A} (m : M (iommu_ctx B) A) : M (csys B D) A := fun s =>
  let '(r, c) := m (s_ctx s) in (r, mk_csys c (s_dev s) (s_ctrl s) (s_pages s)).
Definition on_dev {A} (m : M D A) : M (csys B D) A := fun s =>
  let '(r, d) := m (s_dev s) in (r, mk_csys (s_ctx s) d (s_ctrl s) (s_pages s)).
Definition upd_ctrl (f : nvme_ctrl -> nvme_ctrl) : M (csys B D) unit :=
  modify (fun s => mk_csys (s_ctx s) (s_dev s) (f (s_ctrl s)) (s_pages s)).
Definition ctrl : M (csys B D) nvme_ctrl := gets s_ctrl.

(** [&ctrl->sq[i]] and [&ctrl->cq[i]]: an access out of range is invalid. *)
Definition get_sq (i : nat) : M (csys B D) nvme_sq :=
  let* c := ctrl in match ct_sq c !! i with Some sq => ret sq | None => crash end.
Definition get_cq (i : nat) : M (csys B D) nvme_cq :=
  let* c := ctrl in match ct_cq c !! i with Some cq => ret cq | None => crash end.
Definition put_sq (i : nat) (sq : nvme_sq) : M (csys B D) unit :=
  upd_ctrl (fun c => set_sqs c (<[i := sq]> (ct_sq c))).
Definition put_cq (i : nat) (cq : nvme_cq) : M (csys B D) unit :=
  upd_ctrl (fun c => set_cqs c (<[i := cq]> (ct_cq c))).
Definition on_sq {A} (i : nat) (m : M nvme_sq A) : M (csys B D) A :=
  let* sq := get_sq i in
  match m sq with
  | (Ret a, sq') => do* put_sq i sq' in ret a
  | (Fail e, sq') => do* put_sq i sq' in fail e
  | (Crash, _) => crash
  end.

(** A list page of a tracker: cleared memory until something is written. *)
Definition page_contents (pagesize : Z) (vaddr : Z) (pages : gmap Z (list Z)) : list Z :=
  default (replicate (Z.to_nat (pagesize / 8)) 0) (pages !! vaddr).

(** ** Asynchronous and synchronous commands *)

Definition NVME_CID_AER : Z := Z.shiftl 1 15.

(** [ctrl->adminq.sq]; a null pointer before the admin queue is configured. *)
Definition admin_sq : M (csys B D) nat :=
  let* c := ctrl in match adminq_sq c with Some i => ret i | None => crash end.

Definition nvme_aer (opaque : Z) : M (csys B D) unit :=
  let* q := admin_sq in
  let* rq := on_sq q nvme_rq_acquire_atomic in
  let* sq := get_sq q in
  match rqs sq !! rq with
  | None => crash
  | Some r =>
      let cmd := mk_cmd NVME_ADMIN_ASYNC_EVENT 0 (Z.lor (rq_cid r) NVME_CID_AER) 0 0 0 0 (dptr_prp 0 0) 0 0 0 0 0 0 in
      put_sq q (nvme_sq_exec cmd (with_rqs (alter (with_opaque opaque) rq (rqs sq)) (rq_top sq) sq))
  end.

(** The loop around [nvme_rq_spin]: completions of other commands are dropped.
    The error, the entry, and the queue; [None] while the wait goes on. *)
Fixpoint sync_wait (fuel : nat) (e : tenv) (rq : nvme_rq) (cq : nvme_cq)
    : option (option errno * nvme_cqe * nvme_cq) :=
  match fuel with
  | O => None
  | S fuel' =>
      match nvme_rq_spin e rq cq with
      | None => None
      | Some (r, cqe, cq', e') =>
          match r with
          | Ret _ => Some (None, default zero_cqe cqe, cq')
          | Fail EAGAIN => sync_wait fuel' e' rq cq'
          | Fail er => Some (Some er, default zero_cqe cqe, cq')
          | Crash => None
          end
      end
  end.

Definition set_dptr (d : Z * Z) (c : nvme_cmd) : nvme_cmd :=
  mk_cmd (opcode c) (flags c) (cid c) (nsid c) (cdw2 c) (cdw3 c) (mptr c) (dptr_prp d.1 d.2)
    (cdw10 c) (cdw11 c) (cdw12 c) (cdw13 c) (cdw14 c) (cdw15 c).
Definition prps_of (c : nvme_cmd) : Z * Z :=
  match dptr c with dptr_prp a b => (a, b) | dptr_sgl _ => (0, 0) end.

(** The part between the acquisition of the tracker and its release: the
    error, if any, and the completion, if one arrived. *)
Definition sync_issue (q : nat) (i : nat) (sqe : nvme_cmd) (buf : option (Z * Z))
    : M (csys B D) (option errno * option nvme_cqe) :=
  let* c := ctrl in
  let* sq := get_sq q in
  match rqs sq !! i with
  | None => crash
  | Some rq =>
      let* s := get in
      let pagesize := __mps_to_pagesize (mps (config c)) in
      let mapped :=
        match buf with
        | None => (Ret sqe, s_pages s)
        | Some (iova, len) =>
            let page := page_contents pagesize (rq_page_vaddr rq) (s_pages s) in
            match nvme_rq_map_prp (s_ctx s) (mps (config c)) rq page (prps_of sqe) iova len with
            | (Ret _, (d, page')) => (Ret (set_dptr d sqe), <[rq_page_vaddr rq := page']> (s_pages s))
            | (Fail e, (_, page')) => (Fail e, <[rq_page_vaddr rq := page']> (s_pages s))
            | (Crash, _) => (Crash, s_pages s)
            end
        end in
      do* put (mk_csys (s_ctx s) (s_dev s) (s_ctrl s) mapped.2) in
      match mapped.1 with
      | Crash => crash
      | Fail e => ret (Some e, None)
      | Ret sqe =>
          let sq' := nvme_rq_exec rq sqe sq in
          do* put_sq q sq' in
          let* cq := get_cq (sq_cq sq') in
          let* e := on_dev (fun d => let '(e, d') := dev_run sq' cq d in (Ret e, d')) in
          match sync_wait (S (length e)) e rq cq with
          | None => crash
          | Some (err, cqe, cq') => do* put_cq (sq_cq sq') cq' in ret (err, Some cqe)
          end
      end
  end.

(** The error [errno] reports, if the call returns -1, and the entry copied for
    the caller.  [indet] is the uninitialised [iova].  Waiting forever is
    modelled as not returning. *)
Definition nvme_sync (q : nat) (sqe : nvme_cmd) (buf : option Z) (len indet : Z)
    : M (csys B D) (option errno * option nvme_cqe) :=
  let* s := get in
  let* m :=
    match buf with
    | None => ret (inr (0, false))
    | Some b =>
        match iommu_translate_vaddr (s_ctx s) b with
        | Some iova => ret (inr (iova, false))
        | None =>
            let* r := try (on_ctx (iommu_map_vaddr ops b len (Some indet) IOMMU_MAP_EPHEMERAL indet)) in
            ret match r with inl e => inl e | inr iova => inr (iova, true) end
        end
    end in
  match m with
  | inl e => ret (Some e, None)
  | inr (iova, do_unmap) =>
      let* r := try (on_sq q nvme_rq_acquire_atomic) in
      match r with
      | inl e => ret (Some e, None)
      | inr i =>
          let* res := sync_issue q i sqe ((fun _ => (iova, len)) <$> buf) in
          do* on_sq q (modify (nvme_rq_release_atomic i)) in
          do* match buf with
              | Some b => when do_unmap (do* fatal_if (on_ctx (iommu_unmap_vaddr ops b)) in ret tt)
              | None => ret tt
              end in
          ret res
      end
  end.

Definition nvme_admin (sqe : nvme_cmd) (buf : option Z) (len indet : Z)
    : M (csys B D) (option errno * option nvme_cqe) :=
  let* q := admin_sq in nvme_sync q sqe buf len indet.

(** ** Frames *)

Arguments sync_wait : simpl never.

Lemma exec_rqs rq cmd sq : rqs (nvme_rq_exec rq cmd sq) = rqs sq /\ rq_top (nvme_rq_exec rq cmd sq) = rq_top sq.
Proof.
  unfold nvme_rq_exec, nvme_rq_post, nvme_sq_update_tail, nvme_sq_post.
  destruct (_ =? ptail _); [done|]. by destruct (nvme_try_dbbuf _ _).
Qed.

(** Issuing a command does not touch the mappings nor the free stack. *)
Lemma sync_issue_frame q i sqe buf s r s' sq :
  ct_sq (s_ctrl s) !! q = Some sq -> sync_issue q i sqe buf s = (Ret r, s') ->
  s_ctx s' = s_ctx s /\
  exists sq', ct_sq (s_ctrl s') !! q = Some sq' /\ rqs sq' = rqs sq /\ rq_top sq' = rq_top sq.
Proof.
  intros Hq. unfold sync_issue, get_sq, ctrl, gets, get, put, bind, ret, crash, put_sq, upd_ctrl, modify. simpl.
  rewrite Hq. destruct (rqs sq !! i) as [rq|]; [|done].
  set (mapped := match buf with None => _ | Some _ => _ end). destruct mapped as [[sqe'|e|] pages]; simpl; [| |done].
  2: { intros [= <- <-]. simpl. eauto. }
  unfold get_cq, ctrl, gets, bind, ret, crash, on_dev. simpl. set (sq1 := nvme_rq_exec rq sqe' sq).
  destruct (ct_cq (s_ctrl s) !! sq_cq sq1) as [cq|]; [|done].
  cbn [s_dev s_ctx s_ctrl s_pages]. destruct (dev_run sq1 cq (s_dev s)) as [e d]. destruct (sync_wait _ _ _ _) as [[[err cqe] cq']|]; [|done].
  unfold put_cq, upd_ctrl, modify. intros [= <- <-]. simpl. split; [done|].
  assert (q < length (ct_sq (s_ctrl s)))%nat by (by eapply lookup_lt_Some).
  exists sq1. rewrite list_lookup_insert_eq by done. split; [done|]. apply exec_rqs.
Qed.

Lemma on_sq_acquire q s sq free held :
  ct_sq (s_ctrl s) !! q = Some sq -> rq_inv (rqs sq) (rq_top sq) free held ->
  match try (on_sq q nvme_rq_acquire_atomic) s with
  | (Ret (inr i), s') => exists free' sq', free = i :: free' /\ s_ctx s' = s_ctx s /\
      ct_sq (s_ctrl s') !! q = Some sq' /\ rq_inv (rqs sq') (rq_top sq') free' (i :: held)
  | (Ret (inl e), s') => e = EBUSY /\ free = []
  | _ => False
  end.
Proof.
  intros Hq Hinv. pose proof (acquire_spec sq free held Hinv) as Ha. rewrite <- acquire_atomic_plain in Ha.
  unfold try, on_sq, get_sq, ctrl, gets, bind, ret, crash, put_sq, upd_ctrl, modify. simpl. rewrite Hq.
  assert (q < length (ct_sq (s_ctrl s)))%nat by (by eapply lookup_lt_Some).
  destruct (nvme_rq_acquire_atomic sq) as [[i|e|] sq'].
  - destruct Ha as (free' & -> & _ & Hinv'). exists free', sq'. simpl. rewrite list_lookup_insert_eq by done. done.
  - destruct Ha as (-> & -> & ->). done.
  - done.
Qed.

Lemma on_sq_release q s sq free held i :
  ct_sq (s_ctrl s) !! q = Some sq -> rq_inv (rqs sq) (rq_top sq) free (i :: held) ->
  exists s' sq', on_sq q (modify (nvme_rq_release_atomic i)) s = (Ret tt, s') /\ s_ctx s' = s_ctx s /\
    ct_sq (s_ctrl s') !! q = Some sq' /\ rq_inv (rqs sq') (rq_top sq') (i :: free) held.
Proof.
  intros Hq Hinv. unfold on_sq, get_sq, ctrl, gets, bind, ret, crash, put_sq, upd_ctrl, modify. simpl. rewrite Hq.
  assert (q < length (ct_sq (s_ctrl s)))%nat by (by eapply lookup_lt_Some).
  eexists _, _. split; [done|]. simpl. split; [done|]. rewrite list_lookup_insert_eq by done. split; [done|].
  rewrite release_atomic_plain. by apply (release_rqs_inv _ _ _ [] held).
Qed.

(** The part of [nvme_sync] from the acquisition on. *)
Lemma sync_tail_spec q sqe buf len iova do_unmap s sq free held r s' :
  ct_sq (s_ctrl s) !! q = Some sq -> rq_inv (rqs sq) (rq_top sq) free held ->
  (let* r := try (on_sq q nvme_rq_acquire_atomic) in
   match r with
   | inl e => ret (Some e, None)
   | inr i =>
       let* res := sync_issue q i sqe ((fun _ => (iova, len)) <$> buf) in
       do* on_sq q (modify (nvme_rq_release_atomic i)) in
       do* match buf with
           | Some b => when do_unmap (do* fatal_if (on_ctx (iommu_unmap_vaddr ops b)) in ret tt)
           | None => ret tt
           end in
       ret res
   end) s = (Ret r, s') ->
  (free = [] /\ r = (Some EBUSY, None)) \/
  (exists sq', ct_sq (s_ctrl s') !! q = Some sq' /\ rq_inv (rqs sq') (rq_top sq') free held) /\
  match buf with
  | Some b => if do_unmap : bool then exists n, iommu_unmap_vaddr ops b (s_ctx s) = (Ret n, s_ctx s') else s_ctx s' = s_ctx s
  | None => s_ctx s' = s_ctx s
  end.
Proof.
  intros Hq Hinv. pose proof (on_sq_acquire q s sq free held Hq Hinv) as Ha. unfold bind at 1.
  destruct (try _ s) as [[[e|i]|e|] s1]; [|..|done|done].
  { destruct Ha as [-> ->]. intros [= <- <-]. by left. }
  destruct Ha as (free' & sq1 & -> & Ec1 & Hq1 & Hinv1). intros Hrun. right.
  unfold bind at 1 in Hrun. destruct (sync_issue q i sqe _ s1) as [[res|e|] s2] eqn:Ei; [|done..].
  destruct (sync_issue_frame _ _ _ _ _ _ _ _ Hq1 Ei) as (Ec2 & sq2 & Hq2 & Er & Et).
  rewrite <- Er, <- Et in Hinv1. destruct (on_sq_release q s2 sq2 free' held i Hq2 Hinv1) as (s3 & sq3 & E3 & Ec3 & Hq3 & Hinv3).
  unfold bind at 1 in Hrun. rewrite E3 in Hrun. unfold bind at 1 in Hrun.
  assert (s_ctx s3 = s_ctx s) as Ec by congruence.
  destruct buf as [b|]; [|injection Hrun as _ <-; split; [by exists sq3|done]].
  destruct do_unmap; [|injection Hrun as _ <-; split; [by exists sq3|done]].
  unfold when, bind at 1, fatal_if, on_ctx in Hrun. rewrite Ec in Hrun.
  destruct (iommu_unmap_vaddr ops b (s_ctx s)) as [[n|e|] c]; [|done..]. injection Hrun as _ <-.
  split; [by exists sq3|]. by exists n.
Qed.
End Sys.

Section SyncSpec.
Context {B D : Type} `{NvmeDevice D} (ops : iommu_ctx_ops B).

Lemma map_failure_frame c ms vaddr len iova flags indet e c' :
  map_ok (map c) ms -> 0 <= vaddr -> 0 < len -> vaddr + len <= UINT64_MAX -> region_free ms vaddr len ->
  iommu_map_vaddr ops vaddr len iova flags indet c = (Fail e, c') ->
  forall w, iommu_translate_vaddr c' w = iommu_translate_vaddr c w.
Proof.
  intros Hok Hv Hl Hmax Hrf Hmap w. rewrite iommu_map_vaddr_unfold in Hmap.
  2: { rewrite (translate_vaddr_spec _ ms) by done. by eapply region_free_translation. }
  pose proof (map_run_spec (backend_map ops vaddr len iova flags indet) c ms vaddr len flags Hok Hv Hl Hmax Hrf) as Hs.
  destruct (backend_map _ _ _ _ _ _ _) as [[i|e'|] b].
  - destruct Hs as (? & ? & ? & Hs & _). by rewrite Hs in Hmap.
  - rewrite Hs in Hmap. injection Hmap as _ <-. done.
  - by rewrite Hs in Hmap.
Qed.

(** C23. A synchronous command leaves no trace in the driver.  Whatever the
    controller answers, when [nvme_sync] returns, every address translates as
    before the call, a buffer it mapped for the command included, and the free
    trackers of the queue are the same, in the same order.  The one exception is
    a call that found no free tracker. *)
Theorem sync_leaves_no_trace q sqe buf len indet (s s' : csys B D) ms sq free held r :
  map_ok (map (s_ctx s)) ms -> ct_sq (s_ctrl s) !! q = Some sq -> rq_inv (rqs sq) (rq_top sq) free held ->
  match buf with
  | None => True
  | Some b => 0 <= b /\ 0 < len /\ b + len <= UINT64_MAX /\
      (iommu_translate_vaddr (s_ctx s) b = None -> region_free ms b len)
  end ->
  nvme_sync ops q sqe buf len indet s = (Ret r, s') ->
  (free = [] /\ r = (Some EBUSY, None)) \/
  (forall v, iommu_translate_vaddr (s_ctx s') v = iommu_translate_vaddr (s_ctx s) v) /\
  exists sq', ct_sq (s_ctrl s') !! q = Some sq' /\ rq_inv (rqs sq') (rq_top sq') free held.
Proof.
  intros Hok Hq Hinv Hbuf Hrun. unfold nvme_sync in Hrun. unfold bind at 1, get in Hrun. unfold bind at 1 in Hrun.
  destruct buf as [b|].
  2: { unfold ret at 1 in Hrun. destruct (sync_tail_spec ops q sqe None len 0 false s sq free held r s' Hq Hinv Hrun)
         as [?|[Hsq Ec]]; [by left|right]. split; [by rewrite Ec|done]. }
  destruct Hbuf as (Hb & Hl & Hmax & Hrf). destruct (iommu_translate_vaddr (s_ctx s) b) as [iova|] eqn:Et.
  { unfold ret at 1 in Hrun. destruct (sync_tail_spec ops q sqe (Some b) len iova false s sq free held r s' Hq Hinv Hrun)
      as [?|[Hsq Ec]]; [by left|right]. split; [by rewrite Ec|done]. }
  specialize (Hrf eq_refl). unfold bind at 1, try at 1, on_ctx at 1 in Hrun.
  destruct (iommu_map_vaddr ops b len (Some indet) IOMMU_MAP_EPHEMERAL indet (s_ctx s)) as [[iova|e|] c1] eqn:Em; [|..|done].
  - unfold ret at 1 in Hrun. set (s1 := mk_csys c1 (s_dev s) (s_ctrl s) (s_pages s)) in Hrun.
    destruct (map_then_unmap ops (s_ctx s) ms b len (Some indet) IOMMU_MAP_EPHEMERAL indet iova c1 Hok Hb Hl Hmax Hrf Em)
      as (_ & _ & _ & Hback).
    destruct (sync_tail_spec ops q sqe (Some b) len iova true s1 sq free held r s' Hq Hinv Hrun)
      as [?|[Hsq [n Eu]]]; [by left|right]. split; [|done].
    by apply (Hback c1 n (s_ctx s') eq_refl Eu).
  - unfold ret at 1 in Hrun. injection Hrun as _ <-. right. split; [|by exists sq].
    exact (map_failure_frame (s_ctx s) ms b len (Some indet) IOMMU_MAP_EPHEMERAL indet e c1 Hok Hb Hl Hmax Hrf Em).
Qed.
End SyncSpec.

(** ** The wait ends *)

Definition untimed (e : env) : tenv := (fun f => (f, 0)) <$> e.

(** One entry from a schedule that provides at least [m + 1]. *)
Lemma get_one ss m cq log got acked :
  cq_inv cq log got acked -> tagged (ring_size cq) (length log) (concat ss) ->
  (length (log ++ concat ss) < acked + ring_size cq)%nat -> suffices ss (S m) (length log - length got) ->
  exists c cq' ss' log',
    get_cqes_loop (posts (ring_size cq) (length log) ss) 1 [] cq = Some ([c], cq', posts (ring_size cq) (length log') ss') /\
    log' ++ concat ss' = log ++ concat ss /\ (log ++ concat ss) !! length got = Some c /\
    cq_inv cq' log' (got ++ [c]) acked /\ ring_size cq' = ring_size cq /\
    (m = O \/ suffices ss' m (length log' - length (got ++ [c]))) /\ (length ss' < length ss)%nat.
Proof.
  revert cq log. induction ss as [|cs ss IH]; intros cq log Hinv Ht Hroom Hs; [done|].
  cbn [concat] in *. rewrite app_assoc in *. apply tagged_app in Ht as [Ht1 Ht2].
  rewrite <- length_app in Ht2. cbn [posts get_cqes_loop]. rewrite <- length_app.
  pose proof (poll_spec cq log got acked cs Hinv Ht1) as Hpoll. rewrite !length_app in Hroom.
  specialize (Hpoll ltac:(lia)). pose proof (proj1 (ci_order _ _ _ _ Hinv)) as Ho. simpl in Hs.
  destruct (nvme_cq_get_cqe _) as [[c|] cq1]; destruct Hpoll as (H1 & H2 & H3).
  - assert (length got < length (log ++ cs))%nat as Hlt by (eapply lookup_lt_Some; eauto).
    exists c, cq1, ss, (log ++ cs). simpl. split; [done|]. split; [done|].
    split; [by apply lookup_app_l_Some|]. split; [done|]. split; [done|]. split; [|lia].
    rewrite length_app in Hlt. destruct (length log - length got + length cs)%nat as [|a'] eqn:Ea; [lia|].
    destruct Hs as [?|Hs]; [left; lia|right]. rewrite Nat.sub_0_r in Hs.
    rewrite !length_app. simpl. by replace (length log + length cs - (length got + 1))%nat with a' by lia.
  - rewrite length_app in H3. simpl. replace (length log - length got + length cs)%nat with 0%nat in Hs by lia.
    rewrite <- H2 in Ht2. destruct (IH cq1 (log ++ cs) H1 Ht2) as (c & cq' & ss' & log' & E & Hrest).
    { rewrite H2, !length_app. lia. }
    { rewrite length_app. by replace (length log + length cs - length got)%nat with 0%nat by lia. }
    exists c, cq', ss', log'. rewrite H2 in E, Hrest. rewrite E.
    destruct Hrest as (? & ? & ? & ? & ? & ?). repeat (split; [done|]). simpl. lia.
Qed.

(** What the driver makes of a completion of its command. *)
Definition completion_error (c : nvme_cqe) : option errno := if nvme_cqe_ok c then None else Some EIO.

Lemma spin_step e rq cq c cq' e' :
  get_cqes_loop (fst <$> e) 1 [] cq = Some ([c], cq', e') ->
  nvme_rq_spin e rq cq =
    Some (if negb (cqe_cid c =? rq_cid rq) then Fail EAGAIN
          else match completion_error c with Some er => Fail er | None => Ret tt end,
          Some c, nvme_cq_update_head cq', untimed e').
Proof.
  intros E. unfold nvme_rq_spin, nvme_rq_wait, nvme_cq_wait_cqes, nvme_cq_get_cqes. rewrite E. simpl.
  unfold completion_error, nvme_set_errno_from_cqe, nvme_cqe_ok. destruct (negb (cqe_cid c =? rq_cid rq)); [done|].
  by destruct (Z.shiftr (sfp c) 1 =? 0).
Qed.

Lemma fst_untimed e : fst <$> untimed e = e.
Proof. unfold untimed. rewrite <- list_fmap_compose. apply list_fmap_id. Qed.

Lemma update_head_ring cq : ring_size (nvme_cq_update_head cq) = ring_size cq.
Proof. unfold nvme_cq_update_head. by destruct (nvme_try_dbbuf _ _). Qed.

(** Everything posted and to be posted carries the phase of its lap. *)
Lemma log_tagged cq log got acked ss :
  cq_inv cq log got acked -> tagged (ring_size cq) (length log) (concat ss) ->
  forall i c, (log ++ concat ss) !! i = Some c -> phase_bit c = lap_bit (ring_size cq) i.
Proof.
  intros Hinv Ht i c [Hi|[Hge Hi]]%lookup_app_Some; [by apply (ci_tags _ _ _ _ Hinv)|].
  rewrite (Ht _ _ Hi). f_equal. lia.
Qed.

(** C24. The wait of a synchronous command ends with its own completion.  When
    the controller, posting within the ring at whatever polls it likes, posts
    first any completions of other commands and then that of this one, the loop
    of [nvme_sync] returns after finitely many polls; it has skipped the others
    and reports the status of its own: no error for status 0, [EIO] otherwise. *)
Theorem sync_wait_ends others c sched rq cq log got :
  cq_inv cq log got (length got) -> tagged (ring_size cq) (length log) (concat sched) ->
  (length (log ++ concat sched) < length got + ring_size cq)%nat ->
  drop (length got) (log ++ concat sched) = others ++ [c] ->
  Forall (fun c => cqe_cid c <> rq_cid rq) others -> cqe_cid c = rq_cid rq ->
  let e := untimed (posts (ring_size cq) (length log) (sched ++ replicate (S (length others)) [])) in
  exists cq', sync_wait (S (length e)) e rq cq = Some (completion_error c, c, cq').
Proof.
  intros Hinv Ht Hroom Hd Hothers Hc. cbv zeta. set (ss := sched ++ replicate _ []).
  assert (concat ss = concat sched) as Ec by (unfold ss; by rewrite concat_app, concat_empties, app_nil_r).
  assert (suffices ss (S (length others)) (length log - length got)) as Hs.
  { apply (f_equal length) in Hd. rewrite length_drop, !length_app in Hd. simpl in Hd.
    pose proof (proj1 (ci_order _ _ _ _ Hinv)). apply suffices_total; lia. }
  rewrite <- Ec in Ht, Hroom, Hd. clearbody ss. clear Ec sched.
  assert (length (untimed (posts (ring_size cq) (length log) ss)) = length ss) as El.
  { unfold untimed. rewrite length_fmap. clear. generalize (length log). induction ss as [|cs ss IH]; intros n; simpl; [done|].
    by rewrite IH. }
  rewrite El. clear El. assert (S (length ss) > length ss)%nat as Hf by lia. revert Hf. generalize (S (length ss)) as fuel.
  intros fuel Hf. revert ss cq log got Hinv Ht Hroom Hd Hs Hf.
  revert fuel. induction others as [|o others IH]; intros fuel ss cq log got Hinv Ht Hroom Hd Hs Hf;
    (destruct fuel as [|fuel]; [lia|]);
    destruct (get_one ss _ cq log got (length got) Hinv Ht Hroom Hs) as (x & cq1 & ss1 & log1 & E & Hlog & Hx & Hinv1 & Hr & Hs1 & Hlen);
    assert (drop (length got) (log ++ concat ss) !! 0%nat = Some x) as Hx0 by (by rewrite lookup_drop, Nat.add_0_r);
    rewrite Hd in Hx0; injection Hx0 as ->; cbn [sync_wait];
    erewrite spin_step by (rewrite fst_untimed; exact E); rewrite <- Hr in *.
  - rewrite Hc, Z.eqb_refl. simpl. unfold completion_error. destruct (nvme_cqe_ok x); by eexists.
  - apply Forall_cons in Hothers as [Ho Hothers]. rewrite (proj2 (Z.eqb_neq _ _) Ho). simpl negb. cbn iota.
    destruct Hs1 as [?|Hs1]; [done|]. pose proof (ring_spec cq1 log1 _ _ Hinv1) as Hinv2.
    rewrite <- (update_head_ring cq1) in *.
    apply (IH Hothers fuel ss1 _ log1 (got ++ [x]) Hinv2); rewrite ?length_app, ?Nat.add_1_r, ?Hlog, ?update_head_ring in *.
    + intros i c' Hi. rewrite Hr in *. apply (log_tagged cq log got _ ss Hinv Ht). rewrite <- Hlog.
      rewrite lookup_app_r by lia. rewrite <- Hi. f_equal. lia.
    + apply (f_equal length) in Hlog. rewrite !length_app in Hlog. lia.
    + rewrite <- (drop_drop _ 1), Hd || (replace (S (length got)) with (length got + 1)%nat by lia; rewrite <- drop_drop, Hd). done.
    + exact Hs1.
    + lia.
Qed.

(** ** The theorems on concrete inputs *)

(** A device whose registers are memory and which completes the last command
    submitted, with status 0, at the next poll. *)
Definition echo : Type := gmap Z Z * nat.
Definition echo_cqe (sq : nvme_sq) (cq : nvme_cq) (n : nat) : nvme_cqe :=
  mk_cqe 0 0 0 (sq_id sq) (cid (default zero_cmd (sq_entries sq !! Z.to_nat ((tail sq - 1) mod sq_qsize sq))))
    (lap_bit (ring_size cq) n).
#[export] Instance echo_device : NvmeDevice echo := {|
  reg_load a d := (default 0 (d.1 !! a), d);
  reg_store a v d := (<[a := v]> d.1, d.2);
  dma_word a d := 0;
  dev_run sq cq d := ([(fun es => <[(d.2 mod ring_size cq)%nat := echo_cqe sq cq d.2]> es, 0)], (d.1, S d.2))
|}.

Definition demo_pages_rqs : list nvme_rq := [mk_rq 0 0 0x7f0000 0x10000 None; mk_rq 0 1 0x7f1000 0x11000 (Some 0%nat)].
Definition demo_admin_sq : nvme_sq :=
  mk_sq 0 zero_dmabuf (replicate 3 zero_cmd) zero_dmabuf 0 0 3 0 0x1000 [] no_dbbuf demo_pages_rqs (Some 1%nat) 0.
Definition demo_admin_cq : nvme_cq := mk_cq zero_dmabuf (replicate 3 zero_cqe) 0 0 3 0x1004 [] no_dbbuf 0 0 0.
Definition demo_ctrl : nvme_ctrl :=
  mk_ctrl 0x010802 0 [demo_admin_sq] [demo_admin_cq] (Some 0%nat) (Some 0%nat) 0x1000 zero_dmabuf zero_dmabuf
    nvme_ctrl_opts_default (mk_config 0 0 0 0) 0 zero_cmb.
Definition demo_sys : csys Z echo := mk_csys bump_ctx1 (∅, 0%nat) demo_ctrl ∅.

Lemma demo_pages_rqs_inv : rq_inv demo_pages_rqs (Some 1%nat) [1; 0]%nat [].
Proof.
  split.
  - repeat (split; [done|eexists; split; [done|]]). done.
  - simpl. apply perm_swap.
  - intros [|[|]] rq; intros [= <-]; done.
Qed.

Definition demo_sync := nvme_sync bump_ops 0 (demo_cmd 0) (Some 0x900000) 0x1000 0 demo_sys.

Lemma sync_leaves_no_trace_witness :
  fst demo_sync = Ret (None, Some (mk_cqe 0 0 0 0 1 1)) /\
  iommu_translate_vaddr (s_ctx (snd demo_sync)) 0x900000 = None.
Proof.
  assert (fst demo_sync = Ret (None, Some (mk_cqe 0 0 0 0 1 1))) as E by (vm_compute; reflexivity).
  split; [exact E|].
  destruct (sync_leaves_no_trace bump_ops 0 (demo_cmd 0) (Some 0x900000) 0x1000 0 demo_sys (snd demo_sync)
    [mk_mapping 0x7f0000 0x2000 0x10000 0] demo_admin_sq [1; 0]%nat [] (None, Some (mk_cqe 0 0 0 0 1 1)))
    as [[? _]|[Hsame _]].
  - exact bump_ctx1_ok.
  - done.
  - exact demo_pages_rqs_inv.
  - unfold UINT64_MAX. repeat split; try lia. intros _. constructor; [right; vm_compute; discriminate|constructor].
  - fold demo_sync. rewrite <- E. by destruct demo_sync.
  - done.
  - rewrite Hsame. vm_compute. reflexivity.
Defined.

Lemma sync_wait_ends_witness :
  let e := untimed (posts 4 0 ([[demo_cqe 9 1]; []; [demo_cqe 2 3]] ++ replicate 2 [])) in
  exists cq', sync_wait (S (length e)) e (mk_rq 0 2 0 0 None)
    (mk_cq zero_dmabuf (replicate 4 zero_cqe) 1 0 4 0x1004 [] no_dbbuf 0 0 0) = Some (Some EIO, demo_cqe 2 3, cq').
Proof.
  apply (sync_wait_ends [demo_cqe 9 1] (demo_cqe 2 3) [[demo_cqe 9 1]; []; [demo_cqe 2 3]] (mk_rq 0 2 0 0 None)
    (mk_cq zero_dmabuf (replicate 4 zero_cqe) 1 0 4 0x1004 [] no_dbbuf 0 0 0) [] []).
  - apply cq_fresh_inv. repeat split; try (vm_compute; congruence). repeat constructor.
  - intros [|[|]] c; intros [= <-]; vm_compute; reflexivity.
  - vm_compute. lia.
  - reflexivity.
  - repeat constructor. vm_compute. discriminate.
  - reflexivity.
Defined.

(** Without a free tracker the call fails and leaves the buffer mapped. *)
Lemma sync_busy_leaks_mapping :
  let sq := with_rqs demo_pages_rqs None demo_admin_sq in
  let s := mk_csys bump_ctx1 (∅, 0%nat) (set_sqs demo_ctrl [sq]) ∅ in
  let run := nvme_sync bump_ops 0 (demo_cmd 0) (Some 0x900000) 0x1000 0 s in
  fst run = Ret (Some EBUSY, None) /\ iommu_translate_vaddr (s_ctx s) 0x900000 = None /\
  iommu_translate_vaddr (s_ctx (snd run)) 0x900000 <> None.
Proof. vm_compute. done. Qed.
