(* ===== verification/NvmeCore.v ===== *)
(** * NvmeCore: bringing up a controller, src/nvme/core.c

    Configuring and discarding queues, the admin queue, creating and deleting
    I/O queues, enabling and resetting, the shadow doorbell buffers, the
    controller memory buffer, and initialisation as a whole. *)

From S2P Require Import Prelude Support Skiplist IovaAlloc VfioIova Dma NvmeTypes Prp NvmeQueue NvmeRq NvmeCtrl.
Local Open Scope Z_scope.
Local Open Scope vfn_scope.

Definition cqhdbl (doorbells qid dstrd : Z) : Z := doorbells + (2 * qid + 1) * Z.shiftl 4 dstrd.
Definition sqtdbl (doorbells qid dstrd : Z) : Z := doorbells + (2 * qid) * Z.shiftl 4 dstrd.

(** ** The registry of controllers *)

(** A controller is known by its PCI address; [handles] is the list in order. *)
Section Handles.
Context {Bdf : Type} `{EqDecision Bdf} {Ctrl : Type} (bdf_of : Ctrl -> Bdf).

Definition nvme_get_ctrl (handles : list Ctrl) (bdf : Bdf) : option Ctrl :=
  List.find (fun c => bool_decide (bdf_of c = bdf)) handles.

Definition nvme_add_ctrl (c : Ctrl) : M (list Ctrl) unit := fun handles =>
  match nvme_get_ctrl handles (bdf_of c) with
  | Some _ => (Fail EEXIST, handles)
  | None => (Ret tt, handles ++ [c])
  end.

Fixpoint del_handle (bdf : Bdf) (handles : list Ctrl) : list Ctrl :=
  match handles with
  | [] => []
  | c :: cs => if bool_decide (bdf_of c = bdf) then cs else c :: del_handle bdf cs
  end.

Definition nvme_del_ctrl (c : Ctrl) : M (list Ctrl) unit := fun handles =>
  match nvme_get_ctrl handles (bdf_of c) with
  | None => (Fail ENODEV, handles)
  | Some _ => (Ret tt, del_handle (bdf_of c) handles)
  end.
End Handles.

(** ** The host side of a device *)

(** The clock, in nanoseconds, and the vfio PCI functions on the [pci] member
    ([vfio_pci_open] returns the class code it read, [vfio_pci_close] clears the
    member). *)
Class NvmeHost (D : Type) : Type := {
  time_now : M D Z;
  vfio_pci_open : M D Z;
  vfio_pci_close : M D unit;
  vfio_pci_map_bar : Z -> Z -> Z -> Z -> M D Z;
  vfio_pci_unmap_bar : Z -> Z -> Z -> Z -> M D unit
}.

Definition PROT_READ : Z := 1.
Definition PROT_WRITE : Z := 2.

Section Core.
Context {page : PageSize} {B D : Type} `{NvmeDevice D} `{NvmeHost D} (ops : iommu_ctx_ops B).
Context (mmap : Z -> M B Z) (munmap : Z -> Z -> M B unit).
(** Indeterminate values of uninitialised variables; the size of the admin
    queues, a build option. *)
Context (indet : Z) (NVME_AQ_QSIZE : Z).

Local Abbreviation MC := (M (csys B D)).

Definition read_cap : MC Z :=
  let* c := ctrl in on_dev (mmio_lh_read64 (regs c + NVME_REG_CAP)).

(** An [int] index into an array of the controller. *)
Definition index (qid : Z) : MC nat := if qid <? 0 then crash else ret (Z.to_nat qid).

(** [v << n] on an [int]: a value that does not fit is undefined behaviour. *)
Definition int_shl (v n : Z) : MC Z :=
  if (0 <=? v) && (Z.shiftl v n <=? 0x7fffffff) then ret (Z.shiftl v n) else crash.

(** A buffer, or the state left in the structure and the error. *)
Definition get_dmabuf (buf : iommu_dmabuf) (len fl : Z) : MC (iommu_dmabuf * option errno) :=
  on_ctx (iommu_get_dmabuf ops mmap munmap buf len fl indet).
Definition put_dmabuf (buf : iommu_dmabuf) : MC iommu_dmabuf := on_ctx (iommu_put_dmabuf ops munmap buf).

(** ** Completion queues *)

Definition with_cq_mem (mem : iommu_dmabuf) (entries : list nvme_cqe) (fl : Z) (cq : nvme_cq) : nvme_cq :=
  mk_cq mem entries (cq_id cq) (head cq) (cq_qsize cq) (cq_doorbell cq) (cq_mmio cq) (cq_dbbuf cq) (phase cq)
    (vector cq) fl.

(** The words of the shadow pages stay what they are. *)
Definition dbbuf_at (c : nvme_ctrl) (dbl : Z -> Z) (old : nvme_dbbuf) : nvme_dbbuf :=
  if buf_vaddr (dbbuf_doorbells c) =? 0 then no_dbbuf
  else mk_dbbuf (dbl (buf_vaddr (dbbuf_doorbells c))) (dbl (buf_vaddr (dbbuf_eventidxs c))) (db_word old) (ei_word old).

Definition __nvme_configure_cq (qid qsize vec : Z) : MC unit :=
  let* i := index qid in
  let* old := get_cq i in
  let* c := ctrl in
  let* cap := read_cap in
  if cap =? UINT64_MAX then fail ENODEV
  else
    let dstrd := NVME_FIELD_GET cap CAP_DSTRD in
    if negb (qid =? 0) && (ncqa (config c) + 1 <? qid) then fail EINVAL
    else if qsize <? 2 then fail EINVAL
    else
      put_cq i (mk_cq zero_dmabuf [] qid 0 qsize (cqhdbl (ct_doorbells c) qid dstrd) []
        (dbbuf_at c (fun db => cqhdbl db qid dstrd) (cq_dbbuf old)) 0 vec 0).

Definition nvme_configure_cq (qid qsize vec : Z) : MC unit :=
  do* __nvme_configure_cq qid qsize vec in
  let* i := index qid in
  let* cq := get_cq i in
  let* len := int_shl qsize NVME_CQES in
  let* (buf, err) := get_dmabuf (cq_mem cq) len 0 in
  match err with
  | Some e => do* put_cq i (with_cq_mem buf [] (cq_flags cq) cq) in fail e
  | None => put_cq i (with_cq_mem buf (replicate (Z.to_nat qsize) zero_cqe) (cq_flags cq) cq)
  end.

(** [mem] is the caller's memory, if not null, with its contents. *)
Definition nvme_configure_cq_mem (qid qsize vec : Z) (mem : option (iommu_dmabuf * list nvme_cqe)) : MC unit :=
  match mem with
  | None => fail EINVAL
  | Some (buf, entries) =>
      do* __nvme_configure_cq qid qsize vec in
      let* i := index qid in
      let* cq := get_cq i in
      put_cq i (with_cq_mem buf entries (Z.lor (cq_flags cq) NVME_Q_MEM_PREALLOCATED) cq)
  end.

(** The stores of 0 to the shadow words of a queue that is discarded. *)
Definition clear_dbbuf (db : nvme_dbbuf) : MC unit :=
  let* c := ctrl in
  if buf_vaddr (dbbuf_doorbells c) =? 0 then ret tt
  else if db_ptr db =? 0 then crash else ret tt.

Definition nvme_discard_cq (i : nat) : MC unit :=
  let* cq := get_cq i in
  if buf_vaddr (cq_mem cq) =? 0 then ret tt
  else
    do* when (negb (flag_set (cq_flags cq) NVME_Q_MEM_PREALLOCATED)) (do* put_dmabuf (cq_mem cq) in ret tt) in
    do* clear_dbbuf (cq_dbbuf cq) in
    put_cq i zero_cq.

(** ** Submission queues *)

Definition with_sq_mem (mem : iommu_dmabuf) (entries : list nvme_cmd) (fl : Z) (sq : nvme_sq) : nvme_sq :=
  mk_sq (sq_cq sq) mem entries (sq_pages sq) (tail sq) (ptail sq) (sq_qsize sq) (sq_id sq) (sq_doorbell sq)
    (sq_mmio sq) (sq_dbbuf sq) (rqs sq) (rq_top sq) fl.

(** The loop that sets up the trackers. *)
Definition init_rq (pages : iommu_dmabuf) (mps : Z) (i : nat) : nvme_rq :=
  let off := s32 (Z.shiftl (Z.of_nat i) (__mps_to_pageshift mps)) in
  mk_rq 0 (u16 (Z.of_nat i)) (buf_vaddr pages + off) (buf_iova pages + off)
    (match i with O => None | S i' => Some i' end).

Definition __nvme_configure_sq (qid qsize : Z) (cqi : nat) : MC unit :=
  let* i := index qid in
  let* old := get_sq i in
  let* c := ctrl in
  let pagesize := __mps_to_pagesize (mps (config c)) in
  let* cap := read_cap in
  if cap =? UINT64_MAX then fail ENODEV
  else
    let dstrd := NVME_FIELD_GET cap CAP_DSTRD in
    if negb (qid =? 0) && (nsqa (config c) + 1 <? qid) then fail EINVAL
    else if qsize <? 2 then fail EINVAL
    else
      let dbbuf := dbbuf_at c (fun db => sqtdbl db qid dstrd) (sq_dbbuf old) in
      let sq pages rs top :=
        mk_sq cqi zero_dmabuf [] pages 0 0 qsize qid (sqtdbl (ct_doorbells c) qid dstrd) [] dbbuf rs top 0 in
      match __abort_on_overflow qsize pagesize with
      | Crash => crash
      | Fail e => fail e
      | Ret len =>
          let* (pages, err) := get_dmabuf zero_dmabuf len 0 in
          match err with
          | Some e => do* put_sq i (sq pages [] None) in fail e
          | None =>
              let n := Z.to_nat (qsize - 1) in
              put_sq i (sq pages (init_rq pages (mps (config c)) <$> seq 0 n) (Some (n - 1)%nat))
          end
      end.

Definition nvme_configure_sq (qid qsize : Z) (cqi : nat) : MC unit :=
  do* __nvme_configure_sq qid qsize cqi in
  let* i := index qid in
  let* sq := get_sq i in
  let* len := int_shl qsize NVME_SQES in
  let* (buf, err) := get_dmabuf (sq_mem sq) len 0 in
  match err with
  | Some e =>
      let* pages := put_dmabuf (sq_pages sq) in
      do* put_sq i (mk_sq (sq_cq sq) buf [] pages (tail sq) (ptail sq) (sq_qsize sq) (sq_id sq) (sq_doorbell sq)
            (sq_mmio sq) (sq_dbbuf sq) (rqs sq) (rq_top sq) (sq_flags sq)) in
      fail e
  | None => put_sq i (with_sq_mem buf (replicate (Z.to_nat qsize) zero_cmd) (sq_flags sq) sq)
  end.

Definition nvme_configure_sq_mem (qid qsize : Z) (cqi : nat) (mem : option (iommu_dmabuf * list nvme_cmd)) : MC unit :=
  match mem with
  | None => fail EINVAL
  | Some (buf, entries) =>
      do* __nvme_configure_sq qid qsize cqi in
      let* i := index qid in
      let* sq := get_sq i in
      put_sq i (with_sq_mem buf entries (Z.lor (sq_flags sq) NVME_Q_MEM_PREALLOCATED) sq)
  end.

Definition nvme_discard_sq (i : nat) : MC unit :=
  let* sq := get_sq i in
  if buf_vaddr (sq_mem sq) =? 0 then ret tt
  else
    do* when (negb (flag_set (sq_flags sq) NVME_Q_MEM_PREALLOCATED)) (do* put_dmabuf (sq_mem sq) in ret tt) in
    do* put_dmabuf (sq_pages sq) in
    do* clear_dbbuf (sq_dbbuf sq) in
    put_sq i zero_sq.

(** ** The admin queue *)

Definition __nvme_configure_adminq (sq_size cq_size : Z) : MC unit :=
  do* upd_ctrl (fun c => set_adminq c (Some NVME_AQ) (Some NVME_AQ)) in
  let* c := ctrl in
  let* cq := get_cq NVME_AQ in
  let* sq := get_sq NVME_AQ in
  let aqa := Z.lor (sq_size - 1) (Z.shiftl (cq_size - 1) 16) in
  do* on_dev (mmio_write32 (regs c + NVME_REG_AQA) aqa) in
  do* on_dev (mmio_hl_write64 (regs c + NVME_REG_ASQ) (buf_iova (sq_mem sq))) in
  on_dev (mmio_hl_write64 (regs c + NVME_REG_ACQ) (buf_iova (cq_mem cq))).

Definition nvme_configure_adminq : MC unit :=
  do* nvme_configure_cq 0 NVME_AQ_QSIZE 0 in
  let* r := try (nvme_configure_sq 0 NVME_AQ_QSIZE NVME_AQ) in
  match r with
  | inl e => do* nvme_discard_cq NVME_AQ in fail e
  | inr _ => __nvme_configure_adminq NVME_AQ_QSIZE NVME_AQ_QSIZE
  end.

Definition nvme_configure_adminq_mem (cq_mem : iommu_dmabuf * list nvme_cqe) (sq_mem : iommu_dmabuf * list nvme_cmd)
    : MC unit :=
  let cq_size := s32 (buf_len cq_mem.1 / 16) in
  let sq_size := s32 (buf_len sq_mem.1 / 64) in
  do* nvme_configure_cq_mem 0 cq_size 0 (Some cq_mem) in
  let* r := try (nvme_configure_sq_mem 0 sq_size NVME_AQ (Some sq_mem)) in
  match r with
  | inl e => do* nvme_discard_cq NVME_AQ in fail e
  | inr _ => __nvme_configure_adminq sq_size cq_size
  end.

(** ** Commands that create and delete queues *)

(** A call that returns -1 with this [errno]. *)
Definition check (m : MC (option errno * option nvme_cqe)) : MC (option nvme_cqe) :=
  let* (err, cqe) := m in
  match err with Some e => fail e | None => ret cqe end.

Definition __admin (sqe : nvme_cmd) : MC unit :=
  let* q := admin_sq in
  do* check (nvme_sync ops q sqe None 0 indet) in ret tt.

Definition nvme_create_iocq (qid qsize vec : Z) : MC unit :=
  do* nvme_configure_cq qid qsize vec in
  let* i := index qid in
  let* cq := get_cq i in
  let qflags := if negb (vec =? -1) then Z.lor NVME_Q_PC NVME_CQ_IEN else NVME_Q_PC in
  let iv := if negb (vec =? -1) then u16 vec else 0 in
  __admin (cmd_of_create_cq (mk_create_cq NVME_ADMIN_CREATE_CQ 0 0 (buf_iova (cq_mem cq)) (u16 qid) (u16 (qsize - 1)) qflags iv)).

Definition nvme_delete_iocq (qid : Z) : MC unit :=
  let* i := index qid in
  do* nvme_discard_cq i in
  __admin (cmd_of_delete_q (mk_delete_q NVME_ADMIN_DELETE_CQ 0 0 (u16 qid))).

Definition nvme_create_iosq (qid qsize : Z) (cqi : nat) : MC unit :=
  do* nvme_configure_sq qid qsize cqi in
  let* i := index qid in
  let* sq := get_sq i in
  let* cq := get_cq cqi in
  __admin (cmd_of_create_sq (mk_create_sq NVME_ADMIN_CREATE_SQ 0 0 (buf_iova (sq_mem sq)) (u16 qid) (u16 (qsize - 1))
    NVME_Q_PC (u16 (cq_id cq)))).

Definition nvme_delete_iosq (qid : Z) : MC unit :=
  let* i := index qid in
  do* nvme_discard_sq i in
  __admin (cmd_of_delete_q (mk_delete_q NVME_ADMIN_DELETE_SQ 0 0 (u16 qid))).

Definition nvme_create_ioqpair (qid qsize vec : Z) : MC unit :=
  do* nvme_create_iocq qid qsize vec in
  let* i := index qid in
  nvme_create_iosq qid qsize i.

Definition nvme_delete_ioqpair (qid : Z) : MC unit :=
  do* nvme_delete_iosq qid in nvme_delete_iocq qid.

(** ** Enabling and resetting *)

(** [fuel] bounds the reads of the status register. *)
Fixpoint wait_rdy_loop (fuel : nat) (rdy deadline : Z) : MC unit :=
  match fuel with
  | O => crash
  | S fuel' =>
      let* now := on_dev time_now in
      if deadline <? now then fail ETIMEDOUT
      else
        let* c := ctrl in
        let* csts := on_dev (mmio_read32 (regs c + NVME_REG_CSTS)) in
        if negb (NVME_FIELD_GET csts CSTS_RDY =? rdy) then wait_rdy_loop fuel' rdy deadline else ret tt
  end.

Definition nvme_wait_rdy (fuel : nat) (rdy : Z) : MC unit :=
  let* cap := read_cap in
  let timeout_ms := 500 * (NVME_FIELD_GET cap CAP_TO + 1) in
  let* now := on_dev time_now in
  wait_rdy_loop fuel rdy (now + timeout_ms * 1000000).

Definition cc_of (cap mps : Z) : Z :=
  let css := NVME_FIELD_GET cap CAP_CSS in
  let cc :=
    Z.lor (NVME_FIELD_SET mps CC_MPS)
      (Z.lor (NVME_FIELD_SET NVME_CC_AMS_RR CC_AMS)
        (Z.lor (NVME_FIELD_SET NVME_CC_SHN_NONE CC_SHN)
          (Z.lor (NVME_FIELD_SET NVME_SQES CC_IOSQES)
            (Z.lor (NVME_FIELD_SET NVME_CQES CC_IOCQES) (NVME_FIELD_SET 1 CC_EN))))) in
  if flag_set css NVME_CAP_CSS_CSI then Z.lor cc (NVME_FIELD_SET NVME_CC_CSS_CSI CC_CSS)
  else if flag_set css NVME_CAP_CSS_ADMIN then Z.lor cc (NVME_FIELD_SET NVME_CC_CSS_ADMIN CC_CSS)
  else Z.lor cc (NVME_FIELD_SET NVME_CC_CSS_NVM CC_CSS).

Definition nvme_enable (fuel : nat) : MC unit :=
  let* cap := read_cap in
  let* c := ctrl in
  do* on_dev (mmio_write32 (regs c + NVME_REG_CC) (cc_of cap (mps (config c)))) in
  nvme_wait_rdy fuel 1.

Definition nvme_reset (fuel : nat) : MC unit :=
  let* c := ctrl in
  let* cc := on_dev (mmio_read32 (regs c + NVME_REG_CC)) in
  do* on_dev (mmio_write32 (regs c + NVME_REG_CC) (Z.land cc 0xfe)) in
  nvme_wait_rdy fuel 0.

(** ** Shadow doorbell buffers *)

Definition with_cq_dbbuf (db : nvme_dbbuf) (cq : nvme_cq) : nvme_cq := with_cq_doorbell (cq_mmio cq) db cq.
Definition with_sq_dbbuf (db : nvme_dbbuf) (sq : nvme_sq) : nvme_sq := with_sq_doorbell (ptail sq) (sq_mmio sq) db sq.

Definition nvme_init_dbconfig : MC unit :=
  let* c := ctrl in
  let* (doorbells, err) := get_dmabuf (dbbuf_doorbells c) __VFN_PAGESIZE 0 in
  do* upd_ctrl (fun c => set_dbbufs c doorbells (dbbuf_eventidxs c)) in
  match err with
  | Some e => fail e
  | None =>
      let put_doorbells (e : errno) : MC unit :=
        let* b := put_dmabuf doorbells in
        do* upd_ctrl (fun c => set_dbbufs c b (dbbuf_eventidxs c)) in fail e in
      let* (eventidxs, err) := get_dmabuf (dbbuf_eventidxs c) __VFN_PAGESIZE 0 in
      do* upd_ctrl (fun c => set_dbbufs c doorbells eventidxs) in
      match err with
      | Some e => put_doorbells e
      | None =>
          let* r := try (__admin (mk_cmd NVME_ADMIN_DBCONFIG 0 0 0 0 0 0
            (dptr_prp (buf_iova doorbells) (buf_iova eventidxs)) 0 0 0 0 0 0)) in
          match r with
          | inl e =>
              let* b := put_dmabuf eventidxs in
              do* upd_ctrl (fun c => set_dbbufs c (dbbuf_doorbells c) b) in
              put_doorbells e
          | inr _ =>
              when (negb (flag_set (quirks (opts c)) NVME_QUIRK_BROKEN_DBBUF))
                (let* cap := read_cap in
                 let dstrd := NVME_FIELD_GET cap CAP_DSTRD in
                 let* c := ctrl in
                 match adminq_cq c, adminq_sq c with
                 | Some ci, Some si =>
                     let* cq := get_cq ci in
                     let* sq := get_sq si in
                     do* put_cq ci (with_cq_dbbuf (mk_dbbuf (cqhdbl (buf_vaddr doorbells) 0 dstrd)
                           (cqhdbl (buf_vaddr eventidxs) 0 dstrd) (db_word (cq_dbbuf cq)) (ei_word (cq_dbbuf cq))) cq) in
                     put_sq si (with_sq_dbbuf (mk_dbbuf (sqtdbl (buf_vaddr doorbells) 0 dstrd)
                           (sqtdbl (buf_vaddr eventidxs) 0 dstrd) (db_word (sq_dbbuf sq)) (ei_word (sq_dbbuf sq))) sq)
                 | _, _ => crash
                 end)
          end
      end
  end.

(** ** Initialisation *)

(** A region mapped into a member of the controller, a null pointer if that
    fails. *)
Definition map_bar_to (store : Z -> nvme_ctrl -> nvme_ctrl) (idx len off prot : Z) : MC Z :=
  let* r := try (on_dev (vfio_pci_map_bar idx len off prot)) in
  do* upd_ctrl (store (match r with inr v => v | inl _ => 0 end)) in
  match r with inr v => ret v | inl e => fail e end.

Definition nvme_init_pci : MC unit :=
  let* r := try (on_dev vfio_pci_open) in
  do* match r with
      | inr class => upd_ctrl (fun c => set_pci c class)
      | inl EALREADY => ret tt
      | inl e => fail e
      end in
  let* c := ctrl in
  if negb (Z.land (classcode c) 0xffff00 =? 0x010800) then
    do* fatal_if (on_dev vfio_pci_close) in do* upd_ctrl (fun c => set_pci c 0) in fail EINVAL
  else
    do* map_bar_to (fun v c => set_regs c v (ct_doorbells c)) 0 0x1000 0 (Z.lor PROT_READ PROT_WRITE) in
    do* map_bar_to (fun v c => set_regs c (regs c) v) 0 SIZE_MAX 0x1000 PROT_WRITE in
    ret tt.

Definition nvme_pci_init : MC unit := nvme_init_pci.

Definition clamp (v lo hi : Z) : Z := Z.min (Z.max v lo) hi.

Definition nvme_ctrl_init (o : option nvme_ctrl_opts) : MC unit :=
  do* nvme_init_pci in
  do* upd_ctrl (fun c => set_opts c (default nvme_ctrl_opts_default o)) in
  do* upd_ctrl (fun c => if Z.land (classcode c) 0xff =? 0x03 then set_flags c NVME_CTRL_F_ADMINISTRATIVE else c) in
  let* cap := read_cap in
  let mpsmin := NVME_FIELD_GET cap CAP_MPSMIN in
  let mpsmax := NVME_FIELD_GET cap CAP_MPSMAX in
  let m := clamp (__VFN_PAGESHIFT - 12) mpsmin mpsmax in
  do* upd_ctrl (fun c => set_config c (mk_config (nsqa (config c)) (ncqa (config c)) (mqes (config c)) m)) in
  if __VFN_PAGESHIFT <? __mps_to_pageshift m then fail EINVAL
  else
    do* upd_ctrl (fun c => set_config c (mk_config (nsqa (config c)) (ncqa (config c)) (NVME_FIELD_GET cap CAP_MQES) m)) in
    do* upd_ctrl (fun c => set_sqs c (replicate (Z.to_nat (nsqr (opts c) + 2)) zero_sq)) in
    upd_ctrl (fun c => set_cqs c (replicate (Z.to_nat (ncqr (opts c) + 2)) zero_cq)).

(** A buffer that is put when the function returns, on every path. *)
Definition with_buffer {A} (len fl : Z) (body : iommu_dmabuf -> MC A) : MC A :=
  let* (buf, err) := get_dmabuf zero_dmabuf len fl in
  let* r := try (match err with Some e => fail e | None => body buf end) in
  do* put_dmabuf buf in
  match r with inl e => fail e | inr a => ret a end.

(** The word at an offset of a buffer the controller has written. *)
Definition buffer_word (buf : iommu_dmabuf) (off : Z) : MC Z := gets (fun s => dma_word (buf_iova buf + off) (s_dev s)).

Definition nvme_init (fuel : nat) (o : option nvme_ctrl_opts) : MC unit :=
  do* nvme_ctrl_init o in
  do* nvme_reset fuel in
  do* nvme_configure_adminq in
  do* nvme_enable fuel in
  let* c := ctrl in
  if flag_set (ct_flags c) NVME_CTRL_F_ADMINISTRATIVE then ret tt
  else
    let cdw11 := Z.lor (NVME_FIELD_SET (nsqr (opts c)) FEAT_NRQS_NSQR) (NVME_FIELD_SET (ncqr (opts c)) FEAT_NRQS_NCQR) in
    let* cqe := check (nvme_admin ops (cmd_of_features
      (mk_features NVME_ADMIN_SET_FEATURES 0 0 0 (dptr_prp 0 0) NVME_FEAT_FID_NUM_QUEUES 0 cdw11 0 0 0 0)) None 0 indet) in
    let dw0 := match cqe with Some x => dw0 x | None => indet end in
    do* upd_ctrl (fun c => set_config c (mk_config
          (Z.min (nsqr (opts c)) (NVME_FIELD_GET dw0 FEAT_NRQS_NSQR))
          (Z.min (ncqr (opts c)) (NVME_FIELD_GET dw0 FEAT_NRQS_NCQR)) (mqes (config c)) (mps (config c)))) in
    with_buffer NVME_IDENTIFY_DATA_SIZE IOMMU_MAP_EPHEMERAL (fun buf =>
      do* check (nvme_admin ops (cmd_of_identify
        (mk_identify NVME_ADMIN_IDENTIFY 0 0 0 (dptr_prp 0 0) NVME_IDENTIFY_CNS_CTRL 0 0))
        (Some (buf_vaddr buf)) (buf_len buf) indet) in
      let* oacs := buffer_word buf NVME_IDENTIFY_CTRL_OACS in
      do* when (flag_set (u16 oacs) NVME_IDENTIFY_CTRL_OACS_DBCONFIG) nvme_init_dbconfig in
      let* sgls := buffer_word buf NVME_IDENTIFY_CTRL_SGLS in
      when (negb (sgls =? 0))
        (do* upd_ctrl (fun c => set_flags c (Z.lor (ct_flags c) NVME_CTRL_F_SGLS_SUPPORTED)) in
         when (NVME_FIELD_GET sgls IDENTIFY_CTRL_SGLS_ALIGNMENT =? NVME_IDENTIFY_CTRL_SGLS_ALIGNMENT_DWORD)
           (upd_ctrl (fun c => set_flags c (Z.lor (ct_flags c) NVME_CTRL_F_SGLS_DWORD_ALIGNMENT))))).

(** ** The controller memory buffer *)

Definition nvme_configure_cmb : MC unit :=
  let* cap := read_cap in
  if NVME_FIELD_GET cap CAP_CMBS =? 0 then ret tt
  else
    let* c := ctrl in
    do* on_dev (mmio_hl_write64 (regs c + NVME_REG_CMBMSC) (NVME_FIELD_SET 1 CMBMSC_CRE)) in
    let* cmbmsc := on_dev (mmio_lh_read64 (regs c + NVME_REG_CMBMSC)) in
    let* cmbloc := on_dev (mmio_read32 (regs c + NVME_REG_CMBLOC)) in
    let bar := NVME_FIELD_GET cmbloc CMBLOC_BIR in
    let* cmbsz := on_dev (mmio_read32 (regs c + NVME_REG_CMBSZ)) in
    let size := nvme_cmb_size cmbsz in
    do* upd_ctrl (fun c => set_cmb c (mk_cmb bar (cmb_vaddr (cmb c)) (cmb_iova (cmb c)) size)) in
    let* vaddr := map_bar_to (fun v c => set_cmb c (mk_cmb bar v (cmb_iova (cmb c)) size)) bar size
          (NVME_FIELD_GET cmbloc CMBLOC_OFST) (Z.lor PROT_READ PROT_WRITE) in
    let* iova := on_ctx (iommu_map_vaddr ops vaddr size (Some (cmb_iova (cmb c))) 0 indet) in
    do* upd_ctrl (fun c => set_cmb c (mk_cmb bar vaddr iova size)) in
    on_dev (mmio_hl_write64 (regs c + NVME_REG_CMBMSC)
      (Z.lor cmbmsc (Z.lor (NVME_FIELD_SET 1 CMBMSC_CMSE) (Z.shiftl (Z.shiftr iova 12) 12)))).

Definition nvme_discard_cmb : MC unit :=
  let* c := ctrl in
  if cmb_vaddr (cmb c) =? 0 then ret tt
  else
    let* cmbmsc := on_dev (mmio_lh_read64 (regs c + NVME_REG_CMBMSC)) in
    let cmbmsc := Z.land cmbmsc (u64 (Z.lnot (Z.shiftl 1 (f_shift CMBMSC_CMSE)))) in
    let cmbmsc := Z.land cmbmsc (u64 (Z.lnot (Z.shiftl (f_mask CMBMSC_CBA) (f_shift CMBMSC_CBA)))) in
    do* on_dev (mmio_hl_write64 (regs c + NVME_REG_CMBMSC) cmbmsc) in
    do* try (on_ctx (iommu_unmap_vaddr ops (cmb_vaddr (cmb c)))) in
    let* cmbloc := on_dev (mmio_read32 (regs c + NVME_REG_CMBLOC)) in
    do* on_dev (vfio_pci_unmap_bar (cmb_bar (cmb c)) (cmb_vaddr (cmb c)) (cmb_size (cmb c))
          (NVME_FIELD_GET cmbloc CMBLOC_OFST)) in
    upd_ctrl (fun c => set_cmb c zero_cmb).

(** ** Closing *)

Fixpoint discard_all (discard : nat -> MC unit) (l : list nat) : MC unit :=
  match l with
  | [] => ret tt
  | i :: l' => do* discard i in discard_all discard l'
  end.

Definition nvme_close : MC unit :=
  let* c := ctrl in
  do* discard_all nvme_discard_sq (seq 0 (Z.to_nat (nsqr (opts c) + 2))) in
  do* discard_all nvme_discard_cq (seq 0 (Z.to_nat (ncqr (opts c) + 2))) in
  do* nvme_discard_cmb in
  do* when (negb (buf_vaddr (dbbuf_doorbells c) =? 0))
        (do* put_dmabuf (dbbuf_doorbells c) in do* put_dmabuf (dbbuf_eventidxs c) in ret tt) in
  do* on_dev (vfio_pci_unmap_bar 0 (regs c) 0x1000 0) in
  do* on_dev (vfio_pci_unmap_bar 0 (ct_doorbells c) SIZE_MAX 0x1000) in
  do* try (on_dev vfio_pci_close) in
  upd_ctrl (fun _ => zero_ctrl).
End Core.

(** ** Configured queues are ready for use *)

Section Ready.
Context {page : PageSize} {B D : Type} `{NvmeDevice D} `{NvmeHost D} (ops : iommu_ctx_ops B).
Context (mmap : Z -> M B Z) (munmap : Z -> Z -> M B unit) (indet : Z).
Implicit Types s : csys B D.

Lemma on_ctx_ctrl {A} (m : M (iommu_ctx B) A) s r s' : on_ctx m s = (r, s') -> s_ctrl s' = s_ctrl s.
Proof. unfold on_ctx. destruct (m (s_ctx s)). by intros [= _ <-]. Qed.
Lemma on_dev_ctrl {A} (m : M D A) s r s' : on_dev m s = (r, s') -> s_ctrl s' = s_ctrl s.
Proof. unfold on_dev. destruct (m (s_dev s)). by intros [= _ <-]. Qed.

Lemma read_cap_ctrl s r s' : read_cap s = (r, s') -> s_ctrl s' = s_ctrl s.
Proof. unfold read_cap, ctrl, gets, bind. apply on_dev_ctrl. Qed.
Lemma read_cap_ctx s r s' : read_cap s = (r, s') -> s_ctx s' = s_ctx s.
Proof. unfold read_cap, bind, ctrl, gets, on_dev. destruct (mmio_lh_read64 _ _) as [[] ?]; by intros [= _ <-]. Qed.
Lemma on_ctx_Ret {A} (m : M (iommu_ctx B) A) s a s' :
  on_ctx m s = (Ret a, s') -> m (s_ctx s) = (Ret a, s_ctx s').
Proof. unfold on_ctx. destruct (m (s_ctx s)) as [r c]. by intros [= -> <-]. Qed.

Lemma index_Ret qid s i s' : index (B := B) (D := D) qid s = (Ret i, s') -> i = Z.to_nat qid /\ s' = s.
Proof. unfold index. destruct (qid <? 0); [done|]. by intros [= <- <-]. Qed.

Lemma get_sq_Ret i s sq s' : get_sq i s = (Ret sq, s') -> s' = s /\ ct_sq (s_ctrl s) !! i = Some sq.
Proof. unfold get_sq, ctrl, gets, bind. destruct (_ !! i) eqn:E; [|done]. by intros [= <- <-]. Qed.
Lemma get_cq_Ret i s cq s' : get_cq i s = (Ret cq, s') -> s' = s /\ ct_cq (s_ctrl s) !! i = Some cq.
Proof. unfold get_cq, ctrl, gets, bind. destruct (_ !! i) eqn:E; [|done]. by intros [= <- <-]. Qed.

Lemma int_shl_Ret v n s x s' :
  int_shl (B := B) (D := D) v n s = (Ret x, s') -> s' = s /\ x = Z.shiftl v n /\ x <= 0x7fffffff.
Proof.
  unfold int_shl. destruct (_ && _) eqn:E; [|done]. apply andb_true_iff in E as [_ E%Z.leb_le]. by intros [= <- <-].
Qed.

(** The trackers the loop of [__nvme_configure_sq] makes. *)
Lemma init_rqs_chain pages m n k :
  (k <= n)%nat -> chain (init_rq pages m <$> seq 0 n) (match k with O => None | S k' => Some k' end) (rev (seq 0 k)).
Proof.
  induction k as [|k IH]; intros Hk; [done|]. rewrite seq_S, rev_app_distr. simpl. split; [done|].
  exists (init_rq pages m k). rewrite list_lookup_fmap, lookup_seq_lt by lia. split; [done|].
  unfold init_rq at 2. simpl. apply IH. lia.
Qed.

Lemma init_rqs_inv pages m n :
  1 <= Z.of_nat n <= 65536 -> rq_inv (init_rq pages m <$> seq 0 n) (Some (n - 1)%nat) (rev (seq 0 n)) [].
Proof.
  intros Hn. split.
  - replace (Some (n - 1)%nat) with (match n with O => None | S k' => Some k' end); [apply init_rqs_chain; lia|].
    destruct n; [lia|]. f_equal. lia.
  - rewrite app_nil_r, length_fmap, length_seq. symmetry. apply Permutation_rev.
  - intros i rq Hi. rewrite list_lookup_fmap in Hi. destruct (seq 0 n !! i) as [j|] eqn:E; [|done].
    apply lookup_seq in E as [-> Hlt]. injection Hi as <-. simpl. apply u16_small. lia.
Qed.

Lemma seen_fresh c dbl old :
  (buf_vaddr (dbbuf_doorbells c) <> 0 -> db_word old = 0) -> seen (dbbuf_at c dbl old) [] = 0.
Proof.
  intros Hw. unfold dbbuf_at, seen. destruct (Z.eqb_spec (buf_vaddr (dbbuf_doorbells c)) 0); [done|]. simpl.
  destruct (_ =? 0); [done|]. by apply Hw.
Qed.

(** What a successful [__nvme_configure_sq] leaves. *)
Lemma configure_sq_inner qid qsize cqi s s' :
  __nvme_configure_sq ops mmap munmap indet qid qsize cqi s = (Ret tt, s') ->
  0 <= qid /\ 2 <= qsize /\ (qid = 0 \/ qid <= nsqa (config (s_ctrl s)) + 1) /\
  exists old pages dstrd,
    ct_sq (s_ctrl s) !! Z.to_nat qid = Some old /\
    s_ctrl s' = set_sqs (s_ctrl s) (<[Z.to_nat qid :=
      mk_sq cqi zero_dmabuf [] pages 0 0 qsize qid (sqtdbl (ct_doorbells (s_ctrl s)) qid dstrd) []
        (dbbuf_at (s_ctrl s) (fun db => sqtdbl db qid dstrd) (sq_dbbuf old))
        (init_rq pages (mps (config (s_ctrl s))) <$> seq 0 (Z.to_nat (qsize - 1)))
        (Some (Z.to_nat (qsize - 1) - 1)%nat) 0]> (ct_sq (s_ctrl s))) /\
    exists len, __abort_on_overflow qsize (__mps_to_pagesize (mps (config (s_ctrl s)))) = Ret len /\
      iommu_get_dmabuf ops mmap munmap zero_dmabuf len 0 indet (s_ctx s) = (Ret (pages, None), s_ctx s').
Proof.
  intros Hrun. unfold __nvme_configure_sq in Hrun.
  apply bind_Ret in Hrun as (i & s0 & Ei & Hrun). assert (0 <= qid) as Hqid.
  { unfold index in Ei. destruct (Z.ltb_spec qid 0); [done|lia]. }
  apply index_Ret in Ei as [-> ->].
  apply bind_Ret in Hrun as (old & s1 & Eo & Hrun). apply get_sq_Ret in Eo as [-> Eo].
  apply bind_Ret in Hrun as (c & s1 & Ec & Hrun). injection Ec as <- <-.
  apply bind_Ret in Hrun as (cap & s1 & Ecap & Hrun). pose proof (read_cap_ctx _ _ _ Ecap) as Ecx.
  apply read_cap_ctrl in Ecap.
  destruct (cap =? UINT64_MAX); [done|]. destruct (negb (qid =? 0) && _) eqn:Eq; [done|].
  destruct (Z.ltb_spec qsize 2); [done|]. destruct (__abort_on_overflow _ _) as [len|e|] eqn:Elen; [|done..].
  apply bind_Ret in Hrun as ([pages err] & s2 & Eb & Hrun).
  pose proof (on_ctx_Ret _ _ _ _ Eb) as Em. rewrite Ecx in Em. apply on_ctx_ctrl in Eb.
  destruct err as [e|].
  { apply bind_Ret in Hrun as (? & ? & _ & Hrun). done. }
  injection Hrun as <-. split; [done|]. split; [done|]. split.
  { destruct (Z.eqb_spec qid 0); [by left|right]. simpl in Eq. apply Z.ltb_ge in Eq. lia. }
  eexists old, pages, _. split; [done|]. simpl. split; [by rewrite Eb, Ecap|]. by exists len.
Qed.

(** A completion queue before its memory is attached. *)
Lemma configure_cq_inner qid qsize vec s s' :
  __nvme_configure_cq qid qsize vec s = (Ret tt, s') ->
  0 <= qid /\ 2 <= qsize /\ (qid = 0 \/ qid <= ncqa (config (s_ctrl s)) + 1) /\
  exists old dstrd,
    ct_cq (s_ctrl s) !! Z.to_nat qid = Some old /\
    s_ctrl s' = set_cqs (s_ctrl s) (<[Z.to_nat qid :=
      mk_cq zero_dmabuf [] qid 0 qsize (cqhdbl (ct_doorbells (s_ctrl s)) qid dstrd) []
        (dbbuf_at (s_ctrl s) (fun db => cqhdbl db qid dstrd) (cq_dbbuf old)) 0 vec 0]> (ct_cq (s_ctrl s))) /\
    s_ctx s' = s_ctx s.
Proof.
  intros Hrun. unfold __nvme_configure_cq in Hrun.
  apply bind_Ret in Hrun as (i & s0 & Ei & Hrun). assert (0 <= qid) as Hqid.
  { unfold index in Ei. destruct (Z.ltb_spec qid 0); [done|lia]. }
  apply index_Ret in Ei as [-> ->].
  apply bind_Ret in Hrun as (old & s1 & Eo & Hrun). apply get_cq_Ret in Eo as [-> Eo].
  apply bind_Ret in Hrun as (c & s1 & Ec & Hrun). injection Ec as <- <-.
  apply bind_Ret in Hrun as (cap & s1 & Ecap & Hrun). pose proof (read_cap_ctx _ _ _ Ecap) as Ecx.
  apply read_cap_ctrl in Ecap.
  destruct (cap =? UINT64_MAX); [done|]. destruct (negb (qid =? 0) && _) eqn:Eq; [done|].
  destruct (Z.ltb_spec qsize 2); [done|]. injection Hrun as <-. split; [done|]. split; [done|]. split.
  { destruct (Z.eqb_spec qid 0); [by left|right]. simpl in Eq. apply Z.ltb_ge in Eq. lia. }
  eexists old, _. split; [done|]. simpl. by rewrite Ecap, Ecx.
Qed.

(** A configured submission queue is ready for use: when
    [nvme_configure_sq] succeeds, for an identifier within the negotiated number
    of queues, the ring is empty with its tail at 0 and so is what the controller
    has seen of it, all [qsize - 1] trackers are free, tracker [i] carries
    identifier [i], and no other queue has changed. *)
Theorem configure_sq_ready qid qsize cqi s s' :
  qsize <= 65536 ->
  (forall old, ct_sq (s_ctrl s) !! Z.to_nat qid = Some old -> buf_vaddr (dbbuf_doorbells (s_ctrl s)) <> 0 ->
    db_word (sq_dbbuf old) = 0) ->
  nvme_configure_sq ops mmap munmap indet qid qsize cqi s = (Ret tt, s') ->
  0 <= qid /\ (qid = 0 \/ qid <= nsqa (config (s_ctrl s)) + 1) /\
  exists sq, ct_sq (s_ctrl s') !! Z.to_nat qid = Some sq /\ sq_id sq = qid /\ sq_cq sq = cqi /\ sq_qsize sq = qsize /\
    sq_fresh sq /\ rqs_fresh sq /\
    (forall j, j <> Z.to_nat qid -> ct_sq (s_ctrl s') !! j = ct_sq (s_ctrl s) !! j) /\
    ct_cq (s_ctrl s') = ct_cq (s_ctrl s) /\
    adminq_sq (s_ctrl s') = adminq_sq (s_ctrl s) /\ dbbuf_doorbells (s_ctrl s') = dbbuf_doorbells (s_ctrl s).
Proof.
  intros Hmax Hold Hrun. unfold nvme_configure_sq in Hrun.
  apply bind_Ret in Hrun as ([] & s1 & E1 & Hrun).
  apply configure_sq_inner in E1 as (Hq0 & Hq2 & Hqid & old & pages & dstrd & Eo & Es1 & _).
  apply bind_Ret in Hrun as (i & s2 & Ei & Hrun). apply index_Ret in Ei as [-> ->].
  apply bind_Ret in Hrun as (sq & s2 & Esq & Hrun). apply get_sq_Ret in Esq as [-> Esq].
  assert (Z.to_nat qid < length (ct_sq (s_ctrl s)))%nat as Hlt by (by eapply lookup_lt_Some).
  rewrite Es1 in Esq. simpl in Esq. rewrite list_lookup_insert_eq in Esq by done. injection Esq as <-.
  apply bind_Ret in Hrun as (len & s2 & El & Hrun). apply int_shl_Ret in El as [-> _].
  apply bind_Ret in Hrun as ([buf err] & s2 & Eb & Hrun). apply on_ctx_ctrl in Eb.
  destruct err as [e|].
  { apply bind_Ret in Hrun as (? & ? & _ & Hrun). apply bind_Ret in Hrun as (? & ? & _ & Hrun). done. }
  injection Hrun as <-. split; [done|]. split; [done|]. simpl. rewrite Eb, Es1. simpl.
  eexists. split; [apply list_lookup_insert_eq; by rewrite length_insert|].
  split; [done|]. split; [done|]. split; [done|]. split; [|split; [|split; [|done]]].
  - split; [simpl; lia|]. split; [simpl; by rewrite length_replicate|]. split; [done|]. split; [done|].
    apply seen_fresh. intros Hv. by apply (Hold old).
  - split; [|simpl; rewrite length_fmap, length_seq; lia]. eexists. simpl. apply init_rqs_inv. lia.
  - intros j Hj. by rewrite !list_lookup_insert_ne.
Qed.

(** A configured completion queue is ready for use: when
    [nvme_configure_cq] succeeds, the ring is cleared, its head at 0 with phase 0,
    and the controller has seen head 0, so that the queue starts in the state
    from which completions are delivered in order. *)
Theorem configure_cq_ready qid qsize vec s s' :
  qsize <= 65535 ->
  (forall old, ct_cq (s_ctrl s) !! Z.to_nat qid = Some old -> buf_vaddr (dbbuf_doorbells (s_ctrl s)) <> 0 ->
    db_word (cq_dbbuf old) = 0) ->
  nvme_configure_cq ops mmap munmap indet qid qsize vec s = (Ret tt, s') ->
  0 <= qid /\ (qid = 0 \/ qid <= ncqa (config (s_ctrl s)) + 1) /\
  exists cq, ct_cq (s_ctrl s') !! Z.to_nat qid = Some cq /\ cq_id cq = qid /\ cq_qsize cq = qsize /\ cq_fresh cq /\
    (forall j, j <> Z.to_nat qid -> ct_cq (s_ctrl s') !! j = ct_cq (s_ctrl s) !! j) /\
    ct_sq (s_ctrl s') = ct_sq (s_ctrl s) /\
    adminq_sq (s_ctrl s') = adminq_sq (s_ctrl s) /\ dbbuf_doorbells (s_ctrl s') = dbbuf_doorbells (s_ctrl s).
Proof.
  intros Hmax Hold Hrun. unfold nvme_configure_cq in Hrun.
  apply bind_Ret in Hrun as ([] & s1 & E1 & Hrun).
  apply configure_cq_inner in E1 as (Hq0 & Hq2 & Hqid & old & dstrd & Eo & Es1 & _).
  apply bind_Ret in Hrun as (i & s2 & Ei & Hrun). apply index_Ret in Ei as [-> ->].
  apply bind_Ret in Hrun as (cq & s2 & Ecq & Hrun). apply get_cq_Ret in Ecq as [-> Ecq].
  assert (Z.to_nat qid < length (ct_cq (s_ctrl s)))%nat as Hlt by (by eapply lookup_lt_Some).
  rewrite Es1 in Ecq. simpl in Ecq. rewrite list_lookup_insert_eq in Ecq by done. injection Ecq as <-.
  apply bind_Ret in Hrun as (len & s2 & El & Hrun). apply int_shl_Ret in El as [-> _].
  apply bind_Ret in Hrun as ([buf err] & s2 & Eb & Hrun). apply on_ctx_ctrl in Eb.
  destruct err as [e|].
  { apply bind_Ret in Hrun as (? & ? & _ & Hrun). done. }
  injection Hrun as <-. split; [done|]. split; [done|]. simpl. rewrite Eb, Es1. simpl.
  eexists. split; [apply list_lookup_insert_eq; by rewrite length_insert|].
  split; [done|]. split; [done|]. split; [|split; [|done]].
  - split; [simpl; lia|]. split; [simpl; by rewrite length_replicate|]. split; [done|]. split; [done|].
    split; [by apply Forall_replicate|]. apply seen_fresh. intros Hv. by apply (Hold old).
  - intros j Hj. by rewrite !list_lookup_insert_ne.
Qed.
End Ready.

(** ** Enabling *)

Lemma cc_of_fields cap m :
  0 <= m <= 15 ->
  let cc := cc_of cap m in
  let css := NVME_FIELD_GET cap CAP_CSS in
  0 <= cc < 2 ^ 32 /\ NVME_FIELD_GET cc CC_EN = 1 /\ NVME_FIELD_GET cc CC_MPS = m /\
  NVME_FIELD_GET cc CC_IOSQES = NVME_SQES /\ NVME_FIELD_GET cc CC_IOCQES = NVME_CQES /\
  NVME_FIELD_GET cc CC_AMS = NVME_CC_AMS_RR /\ NVME_FIELD_GET cc CC_SHN = NVME_CC_SHN_NONE /\
  NVME_FIELD_GET cc CC_CSS =
    (if flag_set css NVME_CAP_CSS_CSI then NVME_CC_CSS_CSI
     else if flag_set css NVME_CAP_CSS_ADMIN then NVME_CC_CSS_ADMIN else NVME_CC_CSS_NVM).
Proof.
  intros Hm cc css. unfold cc, cc_of. fold css. clearbody css. clear cc cap.
  assert (m ∈ Z.of_nat <$> seq 0 16) as Hin.
  { apply list_elem_of_fmap. exists (Z.to_nat m). rewrite elem_of_seq. lia. }
  revert m Hm Hin.
  destruct (flag_set css NVME_CAP_CSS_CSI); [|destruct (flag_set css NVME_CAP_CSS_ADMIN)];
    intros m Hm Hin; (simpl in Hin; repeat (apply elem_of_cons in Hin as [->|Hin];
      [vm_compute; repeat split; congruence|])); by apply not_elem_of_nil in Hin.
Qed.

Section Enable.
Context {B D : Type} `{NvmeDevice D} `{NvmeHost D}.
Implicit Types s : csys B D.

Definition with_dev (d : D) s : csys B D := mk_csys (s_ctx s) d (s_ctrl s) (s_pages s).

(** [nvme_enable] writes one value to the configuration register and then
    waits for the controller to become ready: the value enables the controller
    with the configured page size, 64-byte submission and 16-byte completion
    entries, round robin arbitration and no shutdown, and the command set the
    capabilities offer, in the order of preference CSI, admin only, NVM. *)
Theorem enable_configures fuel s cap s1 :
  0 <= mps (config (s_ctrl s)) <= 15 -> read_cap s = (Ret cap, s1) ->
  exists cc, nvme_enable fuel s =
      nvme_wait_rdy fuel 1 (with_dev (reg_store (regs (s_ctrl s) + NVME_REG_CC) cc (s_dev s1)) s1) /\
    NVME_FIELD_GET cc CC_EN = 1 /\ NVME_FIELD_GET cc CC_MPS = mps (config (s_ctrl s)) /\
    NVME_FIELD_GET cc CC_IOSQES = NVME_SQES /\ NVME_FIELD_GET cc CC_IOCQES = NVME_CQES /\
    NVME_FIELD_GET cc CC_AMS = NVME_CC_AMS_RR /\ NVME_FIELD_GET cc CC_SHN = NVME_CC_SHN_NONE /\
    NVME_FIELD_GET cc CC_CSS =
      (let css := NVME_FIELD_GET cap CAP_CSS in
       if flag_set css NVME_CAP_CSS_CSI then NVME_CC_CSS_CSI
       else if flag_set css NVME_CAP_CSS_ADMIN then NVME_CC_CSS_ADMIN else NVME_CC_CSS_NVM).
Proof.
  intros Hm Hcap. pose proof (read_cap_ctrl s _ s1 Hcap) as Ec.
  destruct (cc_of_fields cap _ Hm) as (Hr & Hfields). exists (cc_of cap (mps (config (s_ctrl s)))). split; [|done].
  unfold nvme_enable. rewrite (bind_ret _ _ _ _ _ Hcap). unfold bind at 1, ctrl, gets. rewrite Ec.
  unfold bind, on_dev, mmio_write32, modify. rewrite u32_small by done. unfold with_dev. by rewrite Ec.
Qed.

(** ** Waiting for the controller *)

(** The clock and the status register as the loop sees them at its [n]th
    round. *)
Context (Hclock : forall d, exists t d', time_now d = (Ret t, d')).

Definition tick (d : D) : Z * D := match time_now d with (Ret t, d') => (t, d') | (_, d') => (0, d') end.
Definition round (a : Z) (d : D) : D := snd (mmio_read32 a (snd (tick d))).
Definition clock_at (a : Z) (n : nat) (d : D) : Z := fst (tick (Nat.iter n (round a) d)).
Definition ready_at (a rdy : Z) (n : nat) (d : D) : Prop :=
  NVME_FIELD_GET (u32 (fst (reg_load a (snd (tick (Nat.iter n (round a) d)))))) CSTS_RDY = rdy.

Lemma iter_round a n d : Nat.iter (S n) (round a) d = Nat.iter n (round a) (round a d).
Proof. apply Nat.iter_succ_r. Qed.

Lemma wait_rdy_round fuel rdy deadline s :
  let a := regs (s_ctrl s) + NVME_REG_CSTS in
  exists s1, s_ctrl s1 = s_ctrl s /\
  wait_rdy_loop (S fuel) rdy deadline s =
    if deadline <? fst (tick (s_dev s)) then (Fail ETIMEDOUT, s1)
    else if negb (NVME_FIELD_GET (u32 (fst (reg_load a (snd (tick (s_dev s)))))) CSTS_RDY =? rdy)
    then wait_rdy_loop fuel rdy deadline (with_dev (round a (s_dev s)) s1)
    else (Ret tt, with_dev (round a (s_dev s)) s1).
Proof using Hclock.
  intros a. cbn [wait_rdy_loop].
  assert (exists s1, on_dev time_now s = (Ret (fst (tick (s_dev s))), s1) /\ s_dev s1 = snd (tick (s_dev s)) /\ s_ctrl s1 = s_ctrl s)
    as (s1 & E1 & Ed1 & Ec1).
  { unfold on_dev, tick. destruct (Hclock (s_dev s)) as (t & d' & ->). by eexists. }
  exists s1. split; [done|]. rewrite (bind_ret _ _ _ _ _ E1). destruct (deadline <? _); [done|].
  unfold bind at 1, ctrl, gets. rewrite Ec1. fold a.
  assert (on_dev (mmio_read32 a) s1 = (Ret (u32 (fst (reg_load a (snd (tick (s_dev s)))))), with_dev (round a (s_dev s)) s1)) as E2.
  { unfold on_dev, mmio_read32, round, mmio_read32. rewrite Ed1. by destruct (reg_load a _). }
  rewrite (bind_ret _ _ _ _ _ E2). by destruct (negb _).
Qed.

Lemma wait_rdy_loop_spec n fuel rdy deadline s :
  (n < fuel)%nat ->
  let a := regs (s_ctrl s) + NVME_REG_CSTS in
  deadline < clock_at a n (s_dev s) ->
  exists k s', (k <= n)%nat /\
    (forall j, (j < k)%nat -> clock_at a j (s_dev s) <= deadline /\ ~ ready_at a rdy j (s_dev s)) /\
    ((wait_rdy_loop fuel rdy deadline s = (Fail ETIMEDOUT, s') /\ deadline < clock_at a k (s_dev s)) \/
     (wait_rdy_loop fuel rdy deadline s = (Ret tt, s') /\ clock_at a k (s_dev s) <= deadline /\ ready_at a rdy k (s_dev s))).
Proof using Hclock.
  revert n s. induction fuel as [|fuel IH]; intros n s Hn a Hdl; [lia|].
  destruct (wait_rdy_round fuel rdy deadline s) as (s1 & Ec1 & ->). fold a.
  destruct (Z.ltb_spec deadline (fst (tick (s_dev s)))) as [Hlt|Hge].
  { exists 0%nat, s1. split; [lia|]. split; [lia|]. by left. }
  destruct (Z.eqb_spec (NVME_FIELD_GET (u32 (fst (reg_load a (snd (tick (s_dev s)))))) CSTS_RDY) rdy) as [Er|Er]; simpl negb; cbn iota.
  { exists 0%nat, (with_dev (round a (s_dev s)) s1). split; [lia|]. split; [lia|]. right. split; [done|].
    split; [exact Hge|exact Er]. }
  destruct n as [|n]; [unfold clock_at in Hdl; simpl in Hdl; lia|].
  destruct (IH n (with_dev (round a (s_dev s)) s1)) as (k & s' & Hk & Hbefore & Hres); [lia| |].
  { simpl. rewrite Ec1. fold a. unfold clock_at in *. by rewrite iter_round in Hdl. }
  simpl in Hbefore, Hres. rewrite Ec1 in Hbefore, Hres. fold a in Hbefore, Hres.
  exists (S k), s'. split; [lia|]. unfold clock_at, ready_at in *. split.
  - intros [|j] Hj; [split; [exact Hge|exact Er]|]. rewrite iter_round. apply Hbefore. lia.
  - rewrite iter_round. exact Hres.
Qed.

(** C27. Waiting for the controller ends in time and reports the truth.  Once the
    clock has passed the deadline of the capabilities (500 ms times CAP.TO + 1),
    [nvme_wait_rdy] has returned: with success exactly if the status register
    showed the awaited value at some round begun before the deadline, with
    [ETIMEDOUT] if no round did. *)
Theorem wait_rdy_ends n fuel rdy s cap s1 t d2 :
  read_cap s = (Ret cap, s1) -> time_now (s_dev s1) = (Ret t, d2) -> (n < fuel)%nat ->
  let a := regs (s_ctrl s) + NVME_REG_CSTS in
  let deadline := t + 500 * (NVME_FIELD_GET cap CAP_TO + 1) * 1000000 in
  deadline < clock_at a n d2 ->
  exists k s', (k <= n)%nat /\
    (forall j, (j < k)%nat -> clock_at a j d2 <= deadline /\ ~ ready_at a rdy j d2) /\
    ((nvme_wait_rdy fuel rdy s = (Fail ETIMEDOUT, s') /\ deadline < clock_at a k d2) \/
     (nvme_wait_rdy fuel rdy s = (Ret tt, s') /\ clock_at a k d2 <= deadline /\ ready_at a rdy k d2)).
Proof using Hclock.
  intros Hcap Ht Hn a deadline Hdl. pose proof (read_cap_ctrl s _ s1 Hcap) as Ec.
  assert (nvme_wait_rdy fuel rdy s = wait_rdy_loop fuel rdy deadline (with_dev d2 s1)) as ->.
  { unfold nvme_wait_rdy. rewrite (bind_ret _ _ _ _ _ Hcap). unfold bind at 1, on_dev. by rewrite Ht. }
  pose proof (wait_rdy_loop_spec n fuel rdy deadline (with_dev d2 s1) Hn) as Hs. simpl in Hs. rewrite Ec in Hs.
  apply Hs. exact Hdl.
Qed.
End Enable.

(** ** The theorems on concrete inputs *)

(** The clock of the demonstration device advances one second per reading. *)
#[export] Instance echo_host : NvmeHost echo := {|
  time_now d := (Ret (Z.of_nat d.2 * 1000000000), (d.1, S d.2));
  vfio_pci_open := ret 0x010802;
  vfio_pci_close := ret tt;
  vfio_pci_map_bar i len off prot := ret (0x70000000 + off);
  vfio_pci_unmap_bar i mem len off := ret tt
|}.

Definition demo_mmap (l : Z) : M Z Z := ret (l * 0x10000).
Definition demo_blank : csys Z echo :=
  mk_csys bump_ctx (<[NVME_REG_CAP := 0x05000000]> {[NVME_REG_CSTS := 1]}, 0%nat)
    (set_config (set_cqs (set_sqs zero_ctrl [zero_sq; zero_sq]) [zero_cq; zero_cq]) (mk_config 0 0 0xff 0)) ∅.

Definition demo_conf_sq := nvme_configure_sq (page := page_4k) bump_ops demo_mmap (fun _ _ => ret tt) 0 1 4 1 demo_blank.

Lemma configure_sq_ready_witness :
  exists sq, ct_sq (s_ctrl (snd demo_conf_sq)) !! 1%nat = Some sq /\ sq_fresh sq /\ rqs_fresh sq.
Proof.
  destruct (configure_sq_ready (page := page_4k) bump_ops demo_mmap (fun _ _ => ret tt) 0 1 4 1 demo_blank (snd demo_conf_sq))
    as (_ & _ & sq & E & _ & _ & _ & H1 & H2 & _).
  - lia.
  - intros old _ Hne. by destruct Hne.
  - fold demo_conf_sq. assert (fst demo_conf_sq = Ret tt) as Er by (vm_compute; reflexivity).
    rewrite <- Er. by destruct demo_conf_sq.
  - exists sq. split; [exact E|]. split; [exact H1|exact H2].
Defined.

Definition demo_conf_cq := nvme_configure_cq (page := page_4k) bump_ops demo_mmap (fun _ _ => ret tt) 0 1 4 (-1) demo_blank.

Lemma configure_cq_ready_witness :
  exists cq, ct_cq (s_ctrl (snd demo_conf_cq)) !! 1%nat = Some cq /\ cq_fresh cq.
Proof.
  destruct (configure_cq_ready (page := page_4k) bump_ops demo_mmap (fun _ _ => ret tt) 0 1 4 (-1) demo_blank (snd demo_conf_cq))
    as (_ & _ & cq & E & _ & _ & H1 & _).
  - lia.
  - intros old _ Hne. by destruct Hne.
  - fold demo_conf_cq. assert (fst demo_conf_cq = Ret tt) as Er by (vm_compute; reflexivity).
    rewrite <- Er. by destruct demo_conf_cq.
  - exists cq. split; [exact E|exact H1].
Defined.

Lemma enable_configures_witness :
  exists cc, NVME_FIELD_GET cc CC_EN = 1 /\ NVME_FIELD_GET cc CC_CSS = NVME_CC_CSS_NVM.
Proof.
  destruct (enable_configures 1 demo_blank 0x05000000 demo_blank) as (cc & _ & H1 & _ & _ & _ & _ & _ & H2).
  - simpl. lia.
  - vm_compute. reflexivity.
  - exists cc. split; [exact H1|exact H2].
Defined.

Lemma wait_rdy_ends_witness : exists k s', (k <= 3)%nat /\ nvme_wait_rdy 4 1 demo_blank = (Ret tt, s').
Proof.
  destruct (wait_rdy_ends (B := Z) (D := echo) ltac:(intros d; by eexists _, _) 3 4 1 demo_blank 0x05000000 demo_blank 0
    (<[NVME_REG_CAP := 0x05000000]> {[NVME_REG_CSTS := 1]}, 1%nat)) as (k & s' & Hk & _ & [[E _]|[E _]]).
  - vm_compute. reflexivity.
  - vm_compute. reflexivity.
  - lia.
  - vm_compute. reflexivity.
  - vm_compute in E. discriminate E.
  - exists k, s'. split; [exact Hk|exact E].
Defined.

(** ** Departures *)

(** With the quirk that keeps shadow doorbells off the admin queue, discarding
    that queue stores through its null doorbell pointer. *)
Lemma quirk_discard_crashes :
  let c := set_dbbufs (set_sqs demo_ctrl [with_sq_mem (mk_dmabuf 0x7f0000 0x10000 0x2000) [] 1 demo_admin_sq])
             (mk_dmabuf 0x800000 0x20000 0x1000) (mk_dmabuf 0x801000 0x21000 0x1000) in
  fst (nvme_discard_sq (D := echo) bump_ops (fun _ _ => ret tt) 0 (mk_csys bump_ctx (∅, 0%nat) c ∅)) = Crash.
Proof. vm_compute. reflexivity. Qed.

(** A size that is only logged as too large can make the size of the ring, an
    [int], overflow. *)
Lemma ring_size_overflows :
  fst (nvme_configure_cq (page := page_4k) bump_ops demo_mmap (fun _ _ => ret tt) 0 1 0x8000000 (-1) demo_blank) = Crash.
Proof. vm_compute. reflexivity. Qed.

(** A queue larger than the controller supports is configured all the same. *)
Lemma oversized_queue_accepted :
  fst (nvme_configure_cq (page := page_4k) bump_ops demo_mmap (fun _ _ => ret tt) 0 1 300 (-1) demo_blank) = Ret tt.
Proof. vm_compute. reflexivity. Qed.
