(* ===== verification/NvmeVirt.v ===== *)
(** * NvmeVirt: virtualization management of a primary controller,
      src/nvme/util.c *)

From S2P Require Import Prelude Support Skiplist IovaAlloc VfioIova Dma NvmeTypes Prp NvmeQueue NvmeRq NvmeCtrl NvmeCore.
Local Open Scope Z_scope.
Local Open Scope vfn_scope.

(** Offsets of members of struct nvme_primary_ctrl_cap and of struct
    nvme_secondary_ctrl_list. *)
Definition VQFRSM_OFFSET : Z := 44.
Definition VIFRSM_OFFSET : Z := 76.
Definition sc_entry_offset (i : Z) : Z := 32 + 32 * i.

Section Virt.
Context {B D : Type} `{NvmeDevice D} (ops : iommu_ctx_ops B).
Context {page : PageSize} (mmap : Z -> M B Z) (munmap : Z -> Z -> M B unit) (indet : Z).

Local Abbreviation MC := (M (csys B D)).

Definition virt_mgmt_cmd (cntlid rt act nr : Z) : nvme_cmd :=
  mk_cmd NVME_ADMIN_VIRT_MGMT 0 0 0 0 0 0 (dptr_prp 0 0)
    (u32 (Z.lor (Z.lor (Z.shiftl cntlid 16) (Z.shiftl rt 8)) act)) nr 0 0 0 0.

Definition nvme_virt_mgmt (cntlid rt act nr : Z) : MC unit :=
  do* check (nvme_admin ops (virt_mgmt_cmd cntlid rt act nr) None 0 indet) in ret tt.

Definition identify (cns : Z) (buf : iommu_dmabuf) : MC unit :=
  do* check (nvme_admin ops (cmd_of_identify (mk_identify NVME_ADMIN_IDENTIFY 0 0 0 (dptr_prp 0 0) cns 0 0))
    (Some (buf_vaddr buf)) (buf_len buf) indet) in ret tt.

Definition nvme_vm_assign_max_flexible (scid : Z) : MC unit :=
  with_buffer ops mmap munmap indet NVME_IDENTIFY_DATA_SIZE IOMMU_MAP_EPHEMERAL (fun buf =>
    do* identify NVME_IDENTIFY_CNS_PRIMARY_CTRL_CAP buf in
    let* vqfrsm := buffer_word buf VQFRSM_OFFSET in
    do* nvme_virt_mgmt scid NVME_VIRT_MGMT_RESOURCE_TYPE_VQ NVME_VIRT_MGMT_ACTION_SECONDARY_ASSIGN_FLEXIBLE (u16 vqfrsm) in
    let* vifrsm := buffer_word buf VIFRSM_OFFSET in
    nvme_virt_mgmt scid NVME_VIRT_MGMT_RESOURCE_TYPE_VI NVME_VIRT_MGMT_ACTION_SECONDARY_ASSIGN_FLEXIBLE (u16 vifrsm)).

(** The loop over the entries, from [i] on. *)
Fixpoint find_vf (buf : iommu_dmabuf) (vfnum : Z) (i : Z) (todo : nat) : MC Z :=
  match todo with
  | O => fail ENOENT
  | S todo' =>
      let* vfn := buffer_word buf (sc_entry_offset i + 8) in
      if u16 vfn =? vfnum then
        let* scid := buffer_word buf (sc_entry_offset i) in ret (u16 scid)
      else find_vf buf vfnum (i + 1) todo'
  end.

Definition nvme_get_vf_cntlid (vfnum : Z) : MC Z :=
  with_buffer ops mmap munmap indet NVME_IDENTIFY_DATA_SIZE IOMMU_MAP_EPHEMERAL (fun buf =>
    do* identify NVME_IDENTIFY_CNS_SECONDARY_CTRL_LIST buf in
    let* num := buffer_word buf 0 in
    find_vf buf vfnum 0 (Z.to_nat (u8 num))).

Definition nvme_vm_set_online (scid : Z) : MC unit := nvme_virt_mgmt scid 0 NVME_VIRT_MGMT_ACTION_SECONDARY_ONLINE 0.
Definition nvme_vm_set_offline (scid : Z) : MC unit := nvme_virt_mgmt scid 0 NVME_VIRT_MGMT_ACTION_SECONDARY_OFFLINE 0.

(** The entries as the controller wrote them. *)
Definition entry_vfn (buf : iommu_dmabuf) (s : csys B D) (i : Z) : Z :=
  u16 (dma_word (buf_iova buf + (sc_entry_offset i + 8)) (s_dev s)).
Definition entry_scid (buf : iommu_dmabuf) (s : csys B D) (i : Z) : Z :=
  u16 (dma_word (buf_iova buf + sc_entry_offset i) (s_dev s)).

(** The loop returns the identifier of the first entry with the number, and
    fails with [ENOENT] exactly if there is none. *)
Lemma find_vf_spec buf vfnum i todo s :
  match find_vf buf vfnum i todo s with
  | (Ret scid, s') => s' = s /\ exists k, 0 <= k < Z.of_nat todo /\ entry_vfn buf s (i + k) = vfnum /\
      scid = entry_scid buf s (i + k) /\ forall j, 0 <= j < k -> entry_vfn buf s (i + j) <> vfnum
  | (Fail e, s') => s' = s /\ e = ENOENT /\ forall j, 0 <= j < Z.of_nat todo -> entry_vfn buf s (i + j) <> vfnum
  | (Crash, _) => False
  end.
Proof.
  revert i. induction todo as [|todo IH]; intros i; cbn [find_vf].
  { simpl. split; [done|]. split; [done|]. lia. }
  unfold bind at 1, buffer_word, gets. fold (entry_vfn buf s i).
  destruct (Z.eqb_spec (entry_vfn buf s i) vfnum) as [E|E].
  - unfold bind, gets, ret. split; [done|]. exists 0. rewrite Z.add_0_r. split; [lia|]. split; [done|]. split; [done|]. lia.
  - specialize (IH (i + 1)). destruct (find_vf buf vfnum (i + 1) todo s) as [[scid|e|] s'].
    + destruct IH as (-> & k & Hk & Ev & Es & Hbefore). split; [done|]. exists (k + 1).
      replace (i + (k + 1)) with (i + 1 + k) by lia. split; [lia|]. split; [done|]. split; [done|].
      intros j Hj. destruct (decide (j = 0)) as [->|]; [by rewrite Z.add_0_r|].
      replace (i + j) with (i + 1 + (j - 1)) by lia. apply Hbefore. lia.
    + destruct IH as (-> & -> & Hnone). split; [done|]. split; [done|].
      intros j Hj. destruct (decide (j = 0)) as [->|]; [by rewrite Z.add_0_r|].
      replace (i + j) with (i + 1 + (j - 1)) by lia. apply Hnone. lia.
    + done.
Qed.

(** The fields of the command: which controller, which resource, which action. *)
Lemma virt_mgmt_fields cntlid rt act nr :
  0 <= cntlid < 2 ^ 16 -> 0 <= rt < 2 ^ 8 -> 0 <= act < 2 ^ 8 ->
  cdw10 (virt_mgmt_cmd cntlid rt act nr) = cntlid * 2 ^ 16 + rt * 2 ^ 8 + act.
Proof.
  intros Hc Hr Ha. unfold virt_mgmt_cmd. cbn [cdw10]. rewrite <- Z.lor_assoc.
  rewrite (lor_shiftl_add rt act 8) by lia. rewrite lor_shiftl_add by lia. rewrite u32_small; lia.
Qed.
End Virt.
