(* ===== verification/NvmeFormats.v ===== *)
(** * NvmeFormats: registers and data structures as the controller sees them

    The fields of the registers of src/nvme/types.h lie apart; the structures the
    controller returns, and the protection information tuple of
    include/vfn/nvme/types.h, have the sizes and offsets the code relies on. *)

From S2P Require Import Prelude Support Skiplist IovaAlloc VfioIova Dma NvmeTypes Prp NvmeQueue NvmeRq.
From S2P Require Import NvmeCtrl NvmeCore NvmeVirt.
Local Open Scope Z_scope.

(** ** Registers *)

(** The fields of a register, with their widths. *)
Definition register : Type := list (nvme_field * Z).

Definition CAP_fields : register :=
  [(CAP_MQES, 16); (CAP_TO, 8); (CAP_DSTRD, 4); (CAP_CSS, 8); (CAP_MPSMIN, 4); (CAP_MPSMAX, 4); (CAP_CMBS, 1)].
Definition CC_fields : register :=
  [(CC_EN, 1); (CC_CSS, 3); (CC_MPS, 4); (CC_AMS, 3); (CC_SHN, 2); (CC_IOSQES, 4); (CC_IOCQES, 4)].
Definition CMBLOC_fields : register := [(CMBLOC_BIR, 3); (CMBLOC_OFST, 20)].
Definition CMBSZ_fields : register := [(CMBSZ_SZU, 4); (CMBSZ_SZ, 20)].
Definition CMBMSC_fields : register := [(CMBMSC_CRE, 1); (CMBMSC_CMSE, 1); (CMBMSC_CBA, 52)].
Definition FEAT_NRQS_fields : register := [(FEAT_NRQS_NSQR, 16); (FEAT_NRQS_NCQR, 16)].
Definition all_registers : list (register * Z) :=
  [(CAP_fields, 64); (CC_fields, 32); (CMBLOC_fields, 32); (CMBSZ_fields, 32); (CMBMSC_fields, 64); (FEAT_NRQS_fields, 32)].

(** The fields are in order, apart and within [width] bits. *)
Fixpoint apart (low width : Z) (r : register) : Prop :=
  match r with
  | [] => low <= width
  | (f, w) :: r' => low <= f_shift f /\ field_ok f w /\ apart (f_shift f + w) width r'
  end.

(** A register with the given values in its fields. *)
Fixpoint compose (r : register) (vs : list Z) : Z :=
  match r, vs with
  | (f, _) :: r', v :: vs' => Z.lor (NVME_FIELD_SET v f) (compose r' vs')
  | _, _ => 0
  end.

Lemma compose_above r low width vs g wg :
  apart low width r -> field_ok g wg -> f_shift g + wg <= low -> NVME_FIELD_GET (compose r vs) g = 0.
Proof.
  revert low vs. induction r as [|[f w] r IH]; intros low vs; simpl.
  - intros _ _ _. unfold NVME_FIELD_GET. by rewrite Z.shiftr_0_l.
  - intros (Hl & Hok & Hr) Hg Hle. destruct vs as [|v vs]; [unfold NVME_FIELD_GET; by rewrite Z.shiftr_0_l|].
    rewrite field_get_lor, (field_get_other v f w g wg) by (try done; right; lia).
    rewrite (IH (f_shift f + w)); [done|done|done|]. destruct Hok as (? & ? & _). lia.
Qed.

Lemma compose_get r low width vs k f w v :
  apart low width r -> length vs = length r -> Forall2 (fun x v => 0 <= v < 2 ^ x.2) r vs ->
  r !! k = Some (f, w) -> vs !! k = Some v -> NVME_FIELD_GET (compose r vs) f = v.
Proof.
  revert low vs k. induction r as [|[g wg] r IH]; intros low vs k; [done|]. simpl.
  intros (Hl & Hok & Hr) Hlen HF Hk Hv. apply Forall2_cons_inv_l in HF as (v0 & vs' & Hv0 & HF & ->). simpl in *.
  rewrite field_get_lor. destruct k as [|k]; simplify_eq/=.
  - rewrite (field_get_set v f w) by done. rewrite (compose_above r _ width vs' f w Hr Hok) by lia. apply Z.lor_0_r.
  - rewrite (IH _ vs' k Hr) by (try done; lia).
    assert (field_ok f w /\ f_shift g + wg <= f_shift f) as [Hokf Hfs].
    { clear - Hr Hk. revert Hr Hk. generalize (f_shift g + wg). revert k. induction r as [|[h wh] r IH]; intros k low; [done|]. simpl.
      intros (Hlh & Hokh & Hr) Hk. destruct k as [|k]; simplify_eq/=; [done|]. destruct (IH k _ Hr Hk) as [? ?].
      destruct Hokh as (? & ? & _). split; [done|lia]. }
    rewrite (field_get_other v0 g wg f w) by (try done; by left). apply Z.lor_0_l.
Qed.

(** Every register of src/nvme/types.h reads back what its fields were set to. *)
Lemma registers_read_back r width vs k f w v :
  (r, width) ∈ all_registers -> length vs = length r -> Forall2 (fun x v => 0 <= v < 2 ^ x.2) r vs ->
  r !! k = Some (f, w) -> vs !! k = Some v -> NVME_FIELD_GET (compose r vs) f = v.
Proof.
  intros Hr. assert (apart 0 width r) as Ha.
  { revert Hr. unfold all_registers. rewrite !elem_of_cons, elem_of_nil.
    intros [[= -> ->]|[[= -> ->]|[[= -> ->]|[[= -> ->]|[[= -> ->]|[[= -> ->]|[]]]]]]];
      vm_compute; repeat split; discriminate. }
  by apply (compose_get r 0 width).
Qed.

(** The size of a controller memory buffer, in units from 4 KiB to 64 GiB. *)
Lemma cmb_size_units szu sz :
  0 <= szu <= NVME_CMBSZ_SZU_64G -> 0 <= sz < 2 ^ 20 ->
  nvme_cmb_size (compose CMBSZ_fields [szu; sz]) = sz * 2 ^ (12 + 4 * szu).
Proof.
  unfold NVME_CMBSZ_SZU_64G. intros Hu Hs. unfold nvme_cmb_size.
  assert (Forall2 (fun x v => 0 <= v < 2 ^ x.2) CMBSZ_fields [szu; sz]) as HF.
  { repeat constructor; simpl; lia. }
  rewrite (registers_read_back CMBSZ_fields 32 [szu; sz] 0 CMBSZ_SZU 4 szu) by (try done; do 3 right; by left).
  rewrite (registers_read_back CMBSZ_fields 32 [szu; sz] 1 CMBSZ_SZ 20 sz) by (try done; do 3 right; by left).
  rewrite Z.shiftl_1_l. unfold u64. change 0x10000000000000000 with (2 ^ 64).
  assert (0 < 2 ^ (12 + 4 * szu) <= 2 ^ 36) as Hp.
  { split; [apply Z.pow_pos_nonneg; lia|apply Z.pow_le_mono_r; lia]. }
  change (2 ^ 20) with 1048576 in Hs. change (2 ^ 36) with 68719476736 in Hp. change (2 ^ 64) with 18446744073709551616.
  rewrite (Z.mod_small (2 ^ (12 + 4 * szu))) by lia. apply Z.mod_small. nia.
Qed.

(** ** Data structures *)

(** Members one after the other: their sizes and values. *)
Local Abbreviation layout := (list (Z * Z)).
Definition bytes_of_layout (l : layout) : list Z := l ≫= fun x => le (Z.to_nat x.1) x.2.
Definition size (l : layout) : Z := foldr (fun x n => x.1 + n) 0 l.
Definition offset (l : layout) (k : nat) : Z := size (take k l).

(** The value of little-endian bytes. *)
Definition from_le (bs : list Z) : Z := foldr (fun b v => b + 256 * v) 0 bs.

Definition primary_ctrl_cap_layout (c : nvme_primary_ctrl_cap) : layout :=
  [(2, cntlid c); (2, portid c); (1, crt c); (27, 0); (4, vqfrt c); (4, vqrfa c); (2, vqrfap c); (2, vqprt c);
   (2, vqfrsm c); (2, vqgran c); (16, 0); (4, vifrt c); (4, virfa c); (2, virfap c); (2, viprt c); (2, vifrsm c);
   (2, vigran c); (4016, 0)].
Definition secondary_ctrl_layout (c : nvme_secondary_ctrl) : layout :=
  [(2, scid c); (2, pcid c); (1, scs c); (3, 0); (2, vfn c); (2, nvq c); (2, nvi c); (18, 0)].

(** struct nvme_secondary_ctrl_list *)
Definition secondary_ctrl_list_layout (num : Z) (entries : list nvme_secondary_ctrl) : layout :=
  [(1, num); (31, 0)] ++ (entries ≫= secondary_ctrl_layout).

(** struct nvme_crc64_pi_tuple *)
Record nvme_crc64_pi_tuple : Type := mk_pi_tuple { guard : Z; apptag : Z; sr : Z }.
Definition bytes_of_pi_tuple (t : nvme_crc64_pi_tuple) : list Z :=
  reverse (le 8 (guard t)) ++ reverse (le 2 (apptag t)) ++ put_unaligned_be48 (sr t).

Lemma from_le_le n v : 0 <= v < 256 ^ Z.of_nat n -> from_le (le n v) = v.
Proof.
  intros Hv. assert (forall m k, 0 <= v -> from_le ((fun i : nat => byte_of v (Z.of_nat i)) <$> seq k m) =
    (v / 256 ^ Z.of_nat k) mod 256 ^ Z.of_nat m) as Hgen.
  { clear Hv. induction m as [|m IH]; intros k Hv; simpl; [by rewrite Z.mod_1_r|].
    rewrite IH by done. rewrite byte_of_div by lia.
    replace (2 ^ (8 * Z.of_nat k)) with (256 ^ Z.of_nat k)
      by (rewrite Z.pow_mul_r by lia; done).
    rewrite !Nat2Z.inj_succ, !Z.pow_succ_r by lia. rewrite Z.rem_mul_r by (try apply Z.pow_pos_nonneg; lia).
    f_equal. f_equal. f_equal. rewrite (Z.mul_comm 256), Z.div_div by (try apply Z.pow_pos_nonneg; lia). done. }
  unfold le. rewrite Hgen by lia. simpl. by rewrite Z.div_1_r, Z.mod_small.
Qed.

Lemma layout_length l : Forall (fun x => 0 <= x.1) l -> Z.of_nat (length (bytes_of_layout l)) = size l.
Proof.
  induction 1 as [|[n v] l Hn _ IH]; [done|]. unfold bytes_of_layout. rewrite bind_cons, length_app, le_length. simpl in *.
  unfold bytes_of_layout in IH. lia.
Qed.

Lemma size_app l1 l2 : size (l1 ++ l2) = size l1 + size l2.
Proof. induction l1 as [|x l1 IH]; simpl; lia. Qed.

(** Reading the bytes of member [k] gives its value. *)
Lemma layout_read l k n v :
  Forall (fun x => 0 <= x.1) l -> l !! k = Some (n, v) -> 0 <= v < 256 ^ n ->
  from_le (take (Z.to_nat n) (drop (Z.to_nat (offset l k)) (bytes_of_layout l))) = v.
Proof.
  intros HF Hk Hv. pose proof (Forall_lookup_1 _ _ _ _ HF Hk) as Hn. simpl in Hn.
  rewrite <- (take_drop_middle l k _ Hk) at 2. unfold bytes_of_layout. rewrite bind_app, bind_cons. simpl.
  rewrite drop_app_length'.
  - rewrite take_app_length' by (by rewrite le_length). apply from_le_le. by rewrite Z2Nat.id.
  - pose proof (layout_length (take k l) ltac:(by apply Forall_take)) as Hl. unfold bytes_of_layout in Hl. unfold offset. lia.
Qed.

(** The structures of src/nvme/types.h: a page each; the members the code reads
    are where it reads them; an entry of the list has 32 bytes. *)
Lemma identify_layouts :
  (forall c, size (primary_ctrl_cap_layout c) = NVME_IDENTIFY_DATA_SIZE) /\
  (forall c, primary_ctrl_cap_layout c !! 8%nat = Some (2, vqfrsm c) /\ offset (primary_ctrl_cap_layout c) 8 = VQFRSM_OFFSET /\
     primary_ctrl_cap_layout c !! 15%nat = Some (2, vifrsm c) /\ offset (primary_ctrl_cap_layout c) 15 = VIFRSM_OFFSET) /\
  (forall num entries, Z.of_nat (length entries) = NVME_ID_SECONDARY_CTRL_MAX ->
     size (secondary_ctrl_list_layout num entries) = NVME_IDENTIFY_DATA_SIZE) /\
  (forall num entries i c, entries !! i = Some c ->
     secondary_ctrl_list_layout num entries !! (2 + 8 * i)%nat = Some (2, scid c) /\
     offset (secondary_ctrl_list_layout num entries) (2 + 8 * i) = sc_entry_offset (Z.of_nat i) /\
     secondary_ctrl_list_layout num entries !! (2 + (8 * i + 4))%nat = Some (2, vfn c) /\
     offset (secondary_ctrl_list_layout num entries) (2 + (8 * i + 4)) = sc_entry_offset (Z.of_nat i) + 8) /\
  (forall t, length (bytes_of_pi_tuple t) = 16%nat).
Proof.
  assert (forall entries, size (entries ≫= secondary_ctrl_layout) = 32 * Z.of_nat (length entries)) as Hsize.
  { induction entries as [|c entries IH]; [done|]. rewrite bind_cons. simpl length. simpl. rewrite IH. lia. }
  assert (forall entries i c, entries !! i = Some c ->
    (entries ≫= secondary_ctrl_layout) !! (8 * i)%nat = Some (2, scid c) /\ offset (entries ≫= secondary_ctrl_layout) (8 * i) = 32 * Z.of_nat i /\
    (entries ≫= secondary_ctrl_layout) !! (8 * i + 4)%nat = Some (2, vfn c) /\ offset (entries ≫= secondary_ctrl_layout) (8 * i + 4) = 32 * Z.of_nat i + 8) as Hentry.
  { induction entries as [|c0 entries IH]; intros i c; [done|]. destruct i as [|i]; [by intros [= ->]|]. intros Hi. change (entries !! i = Some c) in Hi.
    destruct (IH i c Hi) as (H1 & H2 & H3 & H4). rewrite bind_cons. unfold offset in *.
    replace (8 * S i)%nat with (8 + 8 * i)%nat by lia. replace (8 + 8 * i + 4)%nat with (8 + (8 * i + 4))%nat by lia.
    rewrite !lookup_app_r by (simpl; lia). rewrite !take_app_ge by (simpl; lia). change (length (secondary_ctrl_layout c0)) with 8%nat.
    replace (8 + 8 * i - 8)%nat with (8 * i)%nat by lia. replace (8 + (8 * i + 4) - 8)%nat with (8 * i + 4)%nat by lia.
    rewrite H1, H3, !size_app, H2, H4. change (size (secondary_ctrl_layout c0)) with 32. split_and!; [done|lia|done|lia]. }
  split_and!; intros; try done.
  - simpl. rewrite Hsize. unfold NVME_ID_SECONDARY_CTRL_MAX, NVME_IDENTIFY_DATA_SIZE in *. lia.
  - destruct (Hentry entries i c) as (H1 & H2 & H3 & H4); [done|]. unfold secondary_ctrl_list_layout, offset, sc_entry_offset in *.
    rewrite !lookup_app_r by (simpl; lia). rewrite !take_app_ge by (simpl; lia). change (length [(1, num); (31, 0)]) with 2%nat.
    rewrite !(Nat.add_comm 2), !Nat.add_sub, H1, H3, !size_app, H2, H4. change (size [(1, num); (31, 0)]) with 32. split_and!; [done|lia|done|lia].
Qed.
