(* ===== verification/NvmeMem.v ===== *)
(** * NvmeMem: the memory of a controller's queues in its IOMMU context

    Configuring a queue allocates and maps its ring (and, for a submission
    queue, the list pages of its trackers); discarding it unmaps and frees them.
    The theorem of this file puts src/nvme/core.c and src/iommu/{dma,dmabuf}.c
    together: through any sequence of these operations, failing ones included,
    the context maps exactly the memory of the configured queues and of the
    queues that were configured again without being discarded, whose memory the
    code forgets, beyond what it mapped before. *)

From S2P Require Import Prelude Support Skiplist IovaAlloc VfioIova Dma NvmeTypes Prp NvmeQueue NvmeRq NvmeCtrl NvmeCore.
Local Open Scope Z_scope.
Local Open Scope vfn_scope.

(** The memory of the process, as [mmap] and [munmap] keep it: [live b] are the
    regions they have handed out.  A new region shares no address with them; the
    operations of the backend leave them alone. *)
Class ProcessMemory {B : Type} (ops : iommu_ctx_ops B) (mmap : Z -> M B Z) (munmap : Z -> Z -> M B unit) : Type := {
  live : B -> list (Z * Z);
  mmap_law l b v b' :
    mmap l b = (Ret v, b') ->
    0 < l /\ 0 < v /\ v + l <= UINT64_MAX /\ Forall (fun r => v + l <= r.1 \/ r.1 + r.2 <= v) (live b) /\
    live b' = (v, l) :: live b;
  mmap_fail_law l b e b' : mmap l b = (Fail e, b') -> live b' = live b;
  munmap_law v l b b' r : munmap v l b = (Ret tt, b') -> r ∈ live b -> r <> (v, l) -> r ∈ live b';
  live_map vaddr len iova flags indet b : live (snd (backend_map ops vaddr len iova flags indet b)) = live b;
  live_unmap m b : live (snd (backend_unmap ops m b)) = live b
}.

(** A relation between the state of the backend and the mappings that mapping
    and unmapping keep, and the memory of the process does not touch. *)
Class Kept {B : Type} (ops : iommu_ctx_ops B) (mmap : Z -> M B Z) (munmap : Z -> Z -> M B unit)
    (P : B -> list iova_mapping -> Prop) : Prop := {
  kept_perm b :: Proper ((≡ₚ) ==> iff) (P b);
  kept_mmap l b r b' ms : mmap l b = (r, b') -> P b ms -> P b' ms;
  kept_munmap v l b b' ms : munmap v l b = (Ret tt, b') -> P b ms -> P b' ms;
  kept_map b ms vaddr len iova flags indet i b' :
    P b ms -> 0 < len -> flag_set flags IOMMU_MAP_FIXED_IOVA = false ->
    backend_map ops vaddr len iova flags indet b = (Ret i, b') -> P b' (mk_mapping vaddr len i flags :: ms);
  kept_map_fail b ms vaddr len iova flags indet e b' :
    P b ms -> 0 < len -> flag_set flags IOMMU_MAP_FIXED_IOVA = false ->
    backend_map ops vaddr len iova flags indet b = (Fail e, b') -> P b' ms;
  kept_unmap b m ms b' : P b (m :: ms) -> backend_unmap ops m b = (Ret tt, b') -> P b' ms
}.

#[export] Instance kept_nothing {B} ops mmap munmap : @Kept B ops mmap munmap (fun _ _ => True).
Proof. split; [|done..]. intros b ms ms' _. done. Qed.

(** ** Buffers and mappings *)

(** What a mapping is to a buffer's owner. *)
Definition m_buf (m : iova_mapping) : iommu_dmabuf := mk_dmabuf (m_vaddr m) (m_iova m) (m_len m).
Definition region (m : iova_mapping) : Z * Z := (m_vaddr m, m_len m).

Section Buffers.
Context {page : PageSize} {B : Type} (ops : iommu_ctx_ops B) (mmap : Z -> M B Z) (munmap : Z -> Z -> M B unit).
Context `{!ProcessMemory ops mmap munmap}.

(** The mappings of a context, all of memory that is live. *)
Definition maps (c : iommu_ctx B) (ms : list iova_mapping) : Prop :=
  map_ok (map c) ms /\ Forall (fun m => region m ∈ live (backend c)) ms.

Context (P : B -> list iova_mapping -> Prop) `{!Kept ops mmap munmap P}.

(** And as the backend knows them. *)
Definition kmaps (c : iommu_ctx B) (ms : list iova_mapping) : Prop := maps c ms /\ P (backend c) ms.

Lemma get_dmabuf_maps buf len flags indet c ms buf' c' :
  kmaps c ms -> iommu_get_dmabuf ops mmap munmap buf len flags indet c = (Ret (buf', None), c') ->
  flag_set flags IOMMU_MAP_FIXED_IOVA = false ->
  0 < buf_vaddr buf' /\ 0 < buf_len buf' /\
  exists ms', kmaps c' ms' /\ m_buf <$> ms' ≡ₚ buf' :: (m_buf <$> ms).
Proof.
  intros [[Hok Hlive] HP] Hget Hfl. apply get_dmabuf_inv in Hget as (v & b & i & Hm & -> & Hmap).
  set (alen := ALIGN_UP len __VFN_PAGESIZE) in *.
  pose proof (kept_mmap _ _ _ _ _ Hm HP) as HP1. apply mmap_law in Hm as (Hl & Hv & Hmax & Hfree & Hlive').
  assert (region_free ms v alen) as Hrf.
  { unfold region_free. eapply Forall_impl; [exact Hlive|]. intros m Hm. simpl in Hm.
    rewrite Forall_forall in Hfree. apply (Hfree (region m) Hm). }
  rewrite iommu_map_vaddr_unfold in Hmap.
  2: { rewrite (translate_vaddr_spec _ ms) by done. by apply (region_free_translation ms v alen). }
  pose proof (map_run_spec (backend_map ops v alen (Some (buf_iova buf)) flags indet) (set_backend b c) ms v alen flags
    Hok ltac:(lia) Hl Hmax Hrf) as Hs.
  pose proof (live_map v alen (Some (buf_iova buf)) flags indet b) as Hlm. simpl backend in Hs.
  destruct (backend_map _ _ _ _ _ _ b) as [[i'|e|] b'] eqn:Ebm; [|rewrite Hs in Hmap; done..].
  pose proof (kept_map _ _ _ _ _ _ _ _ _ HP1 Hl Hfl Ebm) as HP2.
  destruct Hs as (c1 & m1 & m2 & Hs & -> & Hok1 & Hb). rewrite Hs in Hmap. injection Hmap as -> ->.
  split; [done|]. split; [done|]. exists (m1 ++ mk_mapping v alen i flags :: m2). split; [split; [split; [done|]|]|].
  - rewrite Hb. simpl in Hlm. rewrite Hlm, Hlive'. apply Forall_app in Hlive as [H1 H2].
    apply Forall_app. split; [|constructor]; [|by left|]; (eapply Forall_impl; [eassumption|]; intros m; by right).
  - rewrite Hb. by rewrite <- Permutation_middle.
  - by rewrite !fmap_app, fmap_cons, <- Permutation_middle.
Qed.

(** A buffer that could not be had leaves the mappings alone. *)
Lemma get_dmabuf_fails buf len flags indet c ms buf' e c' :
  kmaps c ms -> iommu_get_dmabuf ops mmap munmap buf len flags indet c = (Ret (buf', Some e), c') ->
  flag_set flags IOMMU_MAP_FIXED_IOVA = false -> kmaps c' ms.
Proof.
  intros [[Hok Hlive] HP] Hget Hfl. unfold iommu_get_dmabuf, bind, try, on_backend, pgmap, bind, ret in Hget.
  set (alen := ALIGN_UP len __VFN_PAGESIZE) in *.
  destruct (mmap alen (backend c)) as [[v|e1|] b] eqn:Hm; [| |done].
  2: { injection Hget as _ _ <-. split; [split; [exact Hok|]|exact (kept_mmap _ _ _ _ _ Hm HP)].
    simpl. by rewrite (mmap_fail_law _ _ _ _ Hm). }
  pose proof (kept_mmap _ _ _ _ _ Hm HP) as HP1. apply mmap_law in Hm as (Hl & Hv & Hmax & Hfree & Hlive').
  assert (region_free ms v alen) as Hrf.
  { unfold region_free. eapply Forall_impl; [exact Hlive|]. intros m Hm. simpl in Hm.
    rewrite Forall_forall in Hfree. apply (Hfree (region m) Hm). }
  cbn [buf_iova] in Hget. rewrite iommu_map_vaddr_unfold in Hget.
  2: { rewrite (translate_vaddr_spec _ ms) by done. by apply (region_free_translation ms v alen). }
  pose proof (map_run_spec (backend_map ops v alen (Some (buf_iova buf)) flags indet) (set_backend b c) ms v alen flags
    Hok ltac:(lia) Hl Hmax Hrf) as Hs.
  pose proof (live_map v alen (Some (buf_iova buf)) flags indet b) as Hlm. simpl backend in Hs.
  destruct (backend_map _ _ _ _ _ _ b) as [[i|e2|] b'] eqn:Ebm.
  { by destruct Hs as (c1 & m1 & m2 & Hs & _); rewrite Hs in Hget. }
  2: { by rewrite Hs in Hget. }
  pose proof (kept_map_fail _ _ _ _ _ _ _ _ _ HP1 Hl Hfl Ebm) as HP2. rewrite Hs in Hget. simpl in Hget, Hlm.
  unfold pgunmap, fatal_if in Hget. destruct (munmap v alen b') as [[[]|e3|] b2] eqn:Em; [|done..].
  injection Hget as _ _ <-. split; [split; [exact Hok|]|exact (kept_munmap _ _ _ _ _ Em HP2)].
  simpl. eapply Forall_impl; [exact Hlive|]. intros m Hm. simpl in Hm.
  eapply (munmap_law _ _ _ _ _ Em); [rewrite Hlm, Hlive'; by right|].
  rewrite Forall_forall in Hfree. specialize (Hfree _ Hm). intros E. rewrite E in Hfree. simpl in Hfree. lia.
Qed.

(** An error is reported in the result. *)
Lemma get_dmabuf_no_fail buf len flags indet c e c' :
  iommu_get_dmabuf ops mmap munmap buf len flags indet c <> (Fail e, c').
Proof.
  unfold iommu_get_dmabuf, bind, try, on_backend, pgmap, bind, ret, pgunmap, fatal_if.
  destruct (mmap _ _) as [[v|e1|] b]; [|done..]. destruct (iommu_map_vaddr _ _ _ _ _ _ _) as [[i|e2|] c1]; [done| |done].
  by destruct (munmap _ _ _) as [[]].
Qed.

(** Putting a buffer that is mapped. *)
Lemma put_dmabuf_maps buf c ms x c' :
  kmaps c ms -> buf ∈ m_buf <$> ms -> iommu_put_dmabuf ops munmap buf c = (Ret x, c') ->
  exists ms', kmaps c' ms' /\ m_buf <$> ms ≡ₚ buf :: (m_buf <$> ms').
Proof.
  intros [[Hok Hlive] HP] Hin Hput. apply list_elem_of_fmap in Hin as (m & -> & Hm).
  pose proof (mchain_bounds _ _ (proj1 Hok)) as Hb. rewrite Forall_forall in Hb. specialize (Hb m Hm) as (_ & Hlen & _).
  unfold iommu_put_dmabuf in Hput. simpl in Hput. destruct (Z.eqb_spec (m_len m) 0); [lia|].
  apply bind_Ret in Hput as (n' & c1 & Hu & Hput). apply bind_Ret in Hput as ([] & c2 & Hg & Hput).
  injection Hput as _ <-. unfold fatal_if in Hu.
  destruct (iommu_unmap_vaddr ops (m_vaddr m) c) as [[n1|e|] c1'] eqn:Eu; [|done..]. injection Hu as <- <-.
  pose proof (iommu_unmap_vaddr_spec ops c ms (m_vaddr m) Hok) as Hs.
  rewrite (mfind_in ms m) in Hs by (unfold m_end; try done; try apply Hok; lia).
  pose proof (live_unmap m (backend c)) as Hlu.
  destruct (backend_unmap ops m (backend c)) as [[[]|e|] b] eqn:Ebu; [|rewrite Eu in Hs; done..].
  destruct Hs as (c3 & m1 & m2 & Hs & -> & Hok' & Hbk). rewrite Eu in Hs. injection Hs as _ <-.
  unfold on_backend, pgunmap, fatal_if in Hg.
  destruct (munmap (m_vaddr m) (m_len m) (backend c1')) as [[[]|e|] b2] eqn:Em; [|done..]. injection Hg as <-.
  rewrite <- Permutation_middle in HP. pose proof (kept_unmap _ _ _ _ HP Ebu) as HP1. rewrite <- Hbk in HP1.
  exists (m1 ++ m2). split; [split; [split; [exact Hok'|]|exact (kept_munmap _ _ _ _ _ Em HP1)]|by rewrite !fmap_app, fmap_cons, Permutation_middle].
  simpl. apply Forall_forall. intros y Hy. apply (munmap_law _ _ _ _ _ Em).
  - rewrite Hbk. simpl in Hlu. rewrite Hlu. rewrite Forall_forall in Hlive. apply Hlive. set_solver.
  - pose proof (mchain_before _ _ _ _ (proj1 Hok)) as Hb1. destruct Hok as [Hc _].
    apply mchain_app in Hc as [_ Hc]. simpl in Hc. destruct Hc as (_ & _ & _ & Hc2).
    pose proof (mchain_bounds _ _ Hc2) as Hb2. rewrite Forall_forall in Hb1, Hb2. unfold region, m_end in *.
    apply elem_of_app in Hy as [Hy|Hy]; [specialize (Hb1 y Hy)|specialize (Hb2 y Hy)]; intros [= E1 E2]; lia.
Qed.

(** What a context translates, by the buffers of its mappings. *)
Lemma maps_translate c ms buf k :
  maps c ms -> buf ∈ m_buf <$> ms -> 0 <= k < buf_len buf ->
  iommu_translate_vaddr c (buf_vaddr buf + k) = Some (u64 (buf_iova buf + k)).
Proof.
  intros [Hok _] (m & -> & Hm)%list_elem_of_fmap Hk. simpl in *. rewrite (translate_vaddr_spec _ _ _ Hok).
  unfold translation. rewrite (mfind_in ms m) by (unfold m_end; try done; try apply Hok; lia). simpl. do 2 f_equal. lia.
Qed.

Definition in_buf (v : Z) (buf : iommu_dmabuf) : Prop := buf_vaddr buf <= v < buf_vaddr buf + buf_len buf.

Lemma maps_translate_none c ms v :
  maps c ms -> (forall buf, buf ∈ m_buf <$> ms -> ~ in_buf v buf) -> iommu_translate_vaddr c v = None.
Proof.
  intros [Hok _] Hno. rewrite (translate_vaddr_spec _ _ _ Hok). unfold translation. rewrite mfind_none; [done|].
  apply Forall_forall. intros m Hm. apply not_in_mapping. apply (Hno (m_buf m)). by apply list_elem_of_fmap_2.
Qed.
End Buffers.

(** ** Queues and their memory *)

Definition owned_sq (sq : nvme_sq) : list iommu_dmabuf :=
  if buf_vaddr (sq_mem sq) =? 0 then []
  else (if flag_set (sq_flags sq) NVME_Q_MEM_PREALLOCATED then [] else [sq_mem sq]) ++ [sq_pages sq].
Definition owned_cq (cq : nvme_cq) : list iommu_dmabuf :=
  if buf_vaddr (cq_mem cq) =? 0 then []
  else if flag_set (cq_flags cq) NVME_Q_MEM_PREALLOCATED then [] else [cq_mem cq].
(** The books on the queues of a controller: which ones are configured, and the
    buffers of queues that were configured again, which no structure refers to
    any more. *)
Record books : Type := mk_books { b_cq : gset nat; b_sq : gset nat; b_lost : list iommu_dmabuf }.
Definition no_queues : books := mk_books ∅ ∅ [].

(** The memory of the queues of a set. *)
Definition pick (q : gset nat) (l : list (list iommu_dmabuf)) : list iommu_dmabuf :=
  concat (imap (fun i bufs => if decide (i ∈ q) then bufs else []) l).
Definition owned (g : books) (c : nvme_ctrl) : list iommu_dmabuf :=
  pick (b_sq g) (owned_sq <$> ct_sq c) ++ pick (b_cq g) (owned_cq <$> ct_cq c).

Lemma pick_none l : pick ∅ l = [].
Proof.
  apply concat_nil_Forall, Forall_forall. intros y (i & z & -> & _)%elem_of_lookup_imap. rewrite decide_False; set_solver.
Qed.

(** Replacing one queue of an array. *)
Lemma pick_insert q q' l i x y :
  l !! i = Some x -> (forall j, j <> i -> j ∈ q <-> j ∈ q') ->
  (if decide (i ∈ q) then x else []) ++ pick q' (<[i := y]> l) ≡ₚ (if decide (i ∈ q') then y else []) ++ pick q l.
Proof.
  intros Hx Hq. pose proof (lookup_lt_Some _ _ _ Hx) as Hlt. unfold pick.
  replace (imap _ l) with (imap (fun i bufs => if decide (i ∈ q) then bufs else []) (take i l ++ x :: drop (S i) l))
    by (by rewrite take_drop_middle).
  rewrite insert_take_drop by done. rewrite !imap_app, !imap_cons, !concat_app. simpl.
  rewrite length_take, Nat.min_l, !Nat.add_0_r by lia.
  assert (imap (fun i bufs => if decide (i ∈ q') then bufs else []) (take i l) =
    imap (fun i bufs => if decide (i ∈ q) then bufs else []) (take i l)) as ->.
  { apply imap_ext. intros j b Hj. apply lookup_lt_Some in Hj. rewrite length_take in Hj.
    apply decide_ext. symmetry. apply Hq. lia. }
  match goal with |- context [concat (imap ?f (drop (S i) l))] =>
    match goal with |- context [concat (imap ?h (drop (S i) l))] =>
      assert_fails (constr_eq f h); assert (imap h (drop (S i) l) = imap f (drop (S i) l)) as E end end.
  { apply imap_ext. intros j b Hj. unfold compose. apply decide_ext. first [apply Hq|symmetry; apply Hq]; lia. }
  rewrite ?E. repeat case_decide; solve_Permutation.
Qed.

(** The slot of a completion queue of a controller, configured anew. *)
Lemma replace_cq g g' c i old new :
  ct_cq c !! i = Some old -> b_sq g' = b_sq g -> (forall j, j <> i -> j ∈ b_cq g <-> j ∈ b_cq g') ->
  (if decide (i ∈ b_cq g) then owned_cq old else []) ++ owned g' (set_cqs c (<[i := new]> (ct_cq c))) ≡ₚ
  (if decide (i ∈ b_cq g') then owned_cq new else []) ++ owned g c.
Proof.
  intros Ho Es Hq. unfold owned. simpl. rewrite Es, list_fmap_insert.
  rewrite (Permutation_app_comm (pick (b_sq g) _)), (Permutation_app_comm (pick (b_sq g) _) (pick (b_cq g) _)), !(assoc_L (++)).
  rewrite (pick_insert (b_cq g) (b_cq g') (owned_cq <$> ct_cq c) i (owned_cq old) (owned_cq new)); [done| |done].
  by rewrite list_lookup_fmap, Ho.
Qed.
Lemma replace_sq g g' c i old new :
  ct_sq c !! i = Some old -> b_cq g' = b_cq g -> (forall j, j <> i -> j ∈ b_sq g <-> j ∈ b_sq g') ->
  (if decide (i ∈ b_sq g) then owned_sq old else []) ++ owned g' (set_sqs c (<[i := new]> (ct_sq c))) ≡ₚ
  (if decide (i ∈ b_sq g') then owned_sq new else []) ++ owned g c.
Proof.
  intros Ho Es Hq. unfold owned. simpl. rewrite Es, list_fmap_insert, !(assoc_L (++)).
  rewrite (pick_insert (b_sq g) (b_sq g') (owned_sq <$> ct_sq c) i (owned_sq old) (owned_sq new)); [done| |done].
  by rewrite list_lookup_fmap, Ho.
Qed.

(** Commands change the rings and the trackers of queues, not their memory. *)
Lemma exec_owned rq cmd sq : owned_sq (nvme_rq_exec rq cmd sq) = owned_sq sq.
Proof.
  unfold nvme_rq_exec, nvme_rq_post, nvme_sq_update_tail, nvme_sq_post.
  destruct (_ =? ptail _); [done|]. by destruct (nvme_try_dbbuf _ _).
Qed.
Lemma acquire_owned sq : owned_sq (snd (nvme_rq_acquire_atomic sq)) = owned_sq sq.
Proof.
  unfold nvme_rq_acquire_atomic, acquire_loop. destruct (rq_top sq) as [i|]; [|done]. destruct (rqs sq !! i); [|done].
  unfold atomic_cmpxchg. by case_decide.
Qed.
Lemma release_owned i sq : owned_sq (nvme_rq_release_atomic i sq) = owned_sq sq.
Proof. unfold nvme_rq_release_atomic, atomic_cmpxchg. by case_decide. Qed.

Lemma get_cqe_owned cq : owned_cq (snd (nvme_cq_get_cqe cq)) = owned_cq cq.
Proof. unfold nvme_cq_get_cqe. destruct (_ =? phase cq); [done|]. by destruct (_ =? cq_qsize cq). Qed.
Lemma get_cqes_owned e n cqes cq cqes' cq' e' :
  get_cqes_loop e n cqes cq = Some (cqes', cq', e') -> owned_cq cq' = owned_cq cq.
Proof.
  revert n cqes cq. induction e as [|f e IH]; intros n cqes cq; simpl; [done|].
  pose proof (get_cqe_owned (run_env f cq)) as Hg. destruct (nvme_cq_get_cqe _) as [r cq1]. simpl in Hg.
  change (owned_cq (run_env f cq)) with (owned_cq cq) in Hg.
  destruct r; destruct (0 <? _); try (intros [= _ <- _]; done); intros E%IH; by rewrite E.
Qed.
Lemma spin_owned e rq cq r cqe cq' e' : nvme_rq_spin e rq cq = Some (r, cqe, cq', e') -> owned_cq cq' = owned_cq cq.
Proof.
  unfold nvme_rq_spin, nvme_rq_wait, nvme_cq_wait_cqes, nvme_cq_get_cqes.
  destruct (get_cqes_loop _ _ _ _) as [[[cqes cq1] e1]|] eqn:E; [|done]. apply get_cqes_owned in E. simpl.
  intros [= _ _ <- _]. rewrite <- E. unfold nvme_cq_update_head. by destruct (nvme_try_dbbuf _ _).
Qed.
Lemma sync_wait_owned fuel e rq cq err cqe cq' :
  sync_wait fuel e rq cq = Some (err, cqe, cq') -> owned_cq cq' = owned_cq cq.
Proof.
  revert e cq. induction fuel as [|fuel IH]; intros e cq; [done|]. cbn [sync_wait].
  destruct (nvme_rq_spin e rq cq) as [[[[r c] cq1] e1]|] eqn:E; [|done]. apply spin_owned in E. rewrite <- E.
  destruct r as [|er|]; [by intros [= _ _ <-]| |done]. destruct er; first [apply IH | by intros [= _ _ <-]].
Qed.

Section Ledger.
Context {page : PageSize} {B D : Type} `{NvmeDevice D} `{NvmeHost D} (ops : iommu_ctx_ops B).
Context (mmap : Z -> M B Z) (munmap : Z -> Z -> M B unit) (indet : Z).
Context `{!ProcessMemory ops mmap munmap}.
Context (P : B -> list iova_mapping -> Prop) `{!Kept ops mmap munmap P}.
Local Abbreviation sys := (csys B D).

(** ** Commands without data *)

(** The mappings, and the memory every queue owns, are those of [s0]. *)
Definition same_memory (s0 s : sys) : Prop :=
  s_ctx s = s_ctx s0 /\ owned_sq <$> ct_sq (s_ctrl s) = owned_sq <$> ct_sq (s_ctrl s0) /\
  owned_cq <$> ct_cq (s_ctrl s) = owned_cq <$> ct_cq (s_ctrl s0).

Lemma set_sq_same s0 s i sq sq' :
  ct_sq (s_ctrl s) !! i = Some sq -> owned_sq sq' = owned_sq sq -> same_memory s0 s ->
  same_memory s0 (mk_csys (s_ctx s) (s_dev s) (set_sqs (s_ctrl s) (<[i := sq']> (ct_sq (s_ctrl s)))) (s_pages s)).
Proof.
  intros Hi Hsq (Hc & Hs & Hq). split_and!; [done| |done]. simpl. rewrite <- Hs, list_fmap_insert, Hsq.
  apply list_insert_id. by rewrite list_lookup_fmap, Hi.
Qed.
Lemma set_cq_same s0 s i cq cq' :
  ct_cq (s_ctrl s) !! i = Some cq -> owned_cq cq' = owned_cq cq -> same_memory s0 s ->
  same_memory s0 (mk_csys (s_ctx s) (s_dev s) (set_cqs (s_ctrl s) (<[i := cq']> (ct_cq (s_ctrl s)))) (s_pages s)).
Proof.
  intros Hi Hcq (Hc & Hs & Hq). split_and!; [done..|]. simpl. rewrite <- Hq, list_fmap_insert, Hcq.
  apply list_insert_id. by rewrite list_lookup_fmap, Hi.
Qed.

Lemma get_sq_same s0 i : preserves (same_memory s0) (get_sq i).
Proof. unfold get_sq, ctrl. apply preserves_bind; [auto with preserves|]. intros c. destruct (_ !! i); auto with preserves. Qed.
Lemma get_cq_same s0 i : preserves (same_memory s0) (get_cq i).
Proof. unfold get_cq, ctrl. apply preserves_bind; [auto with preserves|]. intros c. destruct (_ !! i); auto with preserves. Qed.
Lemma index_same s0 i : preserves (same_memory s0) (index i).
Proof. unfold index. destruct (_ <? _); auto with preserves. Qed.
Lemma on_sq_same {A} s0 i (m : M nvme_sq A) :
  (forall sq, owned_sq (snd (m sq)) = owned_sq sq) -> preserves (same_memory s0) (on_sq i m).
Proof.
  intros Hm s Hs. unfold on_sq, get_sq, ctrl, gets, bind, ret, crash, fail, put_sq, upd_ctrl, modify. simpl.
  destruct (ct_sq (s_ctrl s) !! i) as [sq|] eqn:E; [|done]. specialize (Hm sq).
  destruct (m sq) as [[a|e|] sq']; simpl in *; [by eapply set_sq_same..|done].
Qed.

#[local] Arguments sync_wait : simpl never.

Lemma sync_issue_same s0 q i sqe : preserves (same_memory s0) (sync_issue q i sqe None).
Proof.
  intros s Hs. unfold sync_issue, get_sq, ctrl, gets, get, put, bind, ret, crash, put_sq, upd_ctrl, modify. simpl.
  destruct (ct_sq (s_ctrl s) !! q) as [sq|] eqn:E; [|done]. destruct (rqs sq !! i) as [rq|]; [|done].
  unfold get_cq, ctrl, gets, bind, ret, crash, on_dev. simpl. set (sq1 := nvme_rq_exec rq sqe sq).
  assert (same_memory s0 (mk_csys (s_ctx s) (s_dev s) (set_sqs (s_ctrl s) (<[q := sq1]> (ct_sq (s_ctrl s)))) (s_pages s)))
    as Hs1 by (eapply set_sq_same; [exact E|apply exec_owned|done]).
  destruct (ct_cq (s_ctrl s) !! sq_cq sq1) as [cq|] eqn:Ecq; [|done]. cbn [s_dev s_ctx s_ctrl s_pages].
  destruct (dev_run sq1 cq (s_dev s)) as [e d]. destruct (sync_wait _ _ _ _) as [[[err cqe] cq']|] eqn:Ew; [|done].
  apply sync_wait_owned in Ew. unfold put_cq, upd_ctrl, modify. simpl.
  exact (set_cq_same s0 (mk_csys (s_ctx s) d (set_sqs (s_ctrl s) (<[q := sq1]> (ct_sq (s_ctrl s)))) (s_pages s))
    (sq_cq sq1) cq cq' Ecq Ew Hs1).
Qed.

Lemma admin_same s0 sqe : preserves (same_memory s0) (__admin ops indet sqe).
Proof.
  unfold __admin, admin_sq, check, nvme_sync, ctrl. apply preserves_bind.
  { apply preserves_bind; [auto with preserves|]. intros c. destruct (adminq_sq c); auto with preserves. }
  intros q. apply preserves_bind; [|auto with preserves]. apply preserves_bind; [|intros [[] ]; auto with preserves].
  apply preserves_bind; [auto with preserves|]. intros st. apply preserves_bind; [auto with preserves|].
  intros [e|[iova u]]; [auto with preserves|]. apply preserves_bind.
  { apply preserves_try, on_sq_same, acquire_owned. }
  intros [e|i]; [auto with preserves|]. apply preserves_bind; [apply sync_issue_same|].
  intros res. apply preserves_bind; [apply on_sq_same; intros sq; apply release_owned|auto with preserves].
Qed.

(** ** Operations on queues *)

(** A configuration passes the checks and overwrites the slot of the queue. *)
Definition accepted_cq (qid qsize : Z) (s : sys) : bool :=
  match fst (read_cap s) with
  | Ret cap => negb (cap =? UINT64_MAX) && negb (negb (qid =? 0) && (ncqa (config (s_ctrl s)) + 1 <? qid)) &&
      negb (qsize <? 2)
  | _ => false
  end.
Definition accepted_sq (qid qsize : Z) (s : sys) : bool :=
  match fst (read_cap s) with
  | Ret cap => negb (cap =? UINT64_MAX) && negb (negb (qid =? 0) && (nsqa (config (s_ctrl s)) + 1 <? qid)) &&
      negb (qsize <? 2)
  | _ => false
  end.

(** The books after a slot was overwritten by a configuration that succeeded or
    not: what the slot had is lost. *)
Definition book_cq (i : nat) (r : outcome unit) (s : sys) (g : books) : books :=
  mk_books (match r with Ret _ => {[i]} ∪ b_cq g | _ => b_cq g ∖ {[i]} end) (b_sq g)
    (match ct_cq (s_ctrl s) !! i with Some cq => if decide (i ∈ b_cq g) then owned_cq cq else [] | None => [] end ++ b_lost g).
Definition book_sq (i : nat) (r : outcome unit) (s : sys) (g : books) : books :=
  mk_books (b_cq g) (match r with Ret _ => {[i]} ∪ b_sq g | _ => b_sq g ∖ {[i]} end)
    (match ct_sq (s_ctrl s) !! i with Some sq => if decide (i ∈ b_sq g) then owned_sq sq else [] | None => [] end ++ b_lost g).

Definition after_cq (qid qsize vec : Z) (s : sys) (g : books) : books :=
  if accepted_cq qid qsize s
  then book_cq (Z.to_nat qid) (fst (nvme_configure_cq ops mmap munmap indet qid qsize vec s)) s g else g.
Definition after_sq (qid qsize : Z) (cqi : nat) (s : sys) (g : books) : books :=
  if accepted_sq qid qsize s
  then book_sq (Z.to_nat qid) (fst (nvme_configure_sq ops mmap munmap indet qid qsize cqi s)) s g else g.
Definition without_cq (i : nat) (g : books) : books := mk_books (b_cq g ∖ {[i]}) (b_sq g) (b_lost g).
Definition without_sq (i : nat) (g : books) : books := mk_books (b_cq g) (b_sq g ∖ {[i]}) (b_lost g).

(** A slot that a discard may be called on: of a configured queue, or empty.  (In
    the slot of a queue whose configuration failed, the code leaves a buffer that
    is not the queue's.) *)
Definition may_discard_cq (i : nat) (s : sys) (g : books) : Prop :=
  i ∈ b_cq g \/ forall cq, ct_cq (s_ctrl s) !! i = Some cq -> buf_vaddr (cq_mem cq) = 0.
Definition may_discard_sq (i : nat) (s : sys) (g : books) : Prop :=
  i ∈ b_sq g \/ forall sq, ct_sq (s_ctrl s) !! i = Some sq -> buf_vaddr (sq_mem sq) = 0.

(** One call: of any queue, configured or not, with any outcome but the end of
    the process in the memory it allocates or frees. *)
Inductive qstep : sys * books -> sys * books -> Prop :=
| q_configure_cq s g s' r qid qsize vec :
    nvme_configure_cq ops mmap munmap indet qid qsize vec s = (r, s') -> r <> Crash ->
    qstep (s, g) (s', after_cq qid qsize vec s g)
| q_configure_sq s g s' r qid qsize cqi :
    nvme_configure_sq ops mmap munmap indet qid qsize cqi s = (r, s') -> r <> Crash ->
    qstep (s, g) (s', after_sq qid qsize cqi s g)
| q_discard_cq s g s' i :
    may_discard_cq i s g -> nvme_discard_cq ops munmap i s = (Ret tt, s') -> qstep (s, g) (s', without_cq i g)
| q_discard_sq s g s' i :
    may_discard_sq i s g -> nvme_discard_sq ops munmap i s = (Ret tt, s') -> qstep (s, g) (s', without_sq i g)
| q_admin s g s' r sqe : __admin ops indet sqe s = (r, s') -> qstep (s, g) (s', g)
| q_create_iocq s g s' r qid qsize vec :
    fst (nvme_configure_cq ops mmap munmap indet qid qsize vec s) <> Crash ->
    nvme_create_iocq ops mmap munmap indet qid qsize vec s = (r, s') ->
    qstep (s, g) (s', after_cq qid qsize vec s g)
| q_create_iosq s g s' r qid qsize cqi :
    fst (nvme_configure_sq ops mmap munmap indet qid qsize cqi s) <> Crash ->
    nvme_create_iosq ops mmap munmap indet qid qsize cqi s = (r, s') ->
    qstep (s, g) (s', after_sq qid qsize cqi s g)
| q_delete_iocq s g s1 s' r qid :
    may_discard_cq (Z.to_nat qid) s g -> nvme_discard_cq ops munmap (Z.to_nat qid) s = (Ret tt, s1) ->
    0 <= qid -> nvme_delete_iocq ops munmap indet qid s = (r, s') -> qstep (s, g) (s', without_cq (Z.to_nat qid) g)
| q_delete_iosq s g s1 s' r qid :
    may_discard_sq (Z.to_nat qid) s g -> nvme_discard_sq ops munmap (Z.to_nat qid) s = (Ret tt, s1) ->
    0 <= qid -> nvme_delete_iosq ops munmap indet qid s = (r, s') -> qstep (s, g) (s', without_sq (Z.to_nat qid) g).

(** The context maps what it did at first ([base]), the memory of the configured
    queues and the lost buffers. *)
Definition ledger (base : list iommu_dmabuf) (x : sys * books) : Prop :=
  exists ms, kmaps ops mmap munmap P (s_ctx x.1) ms /\ m_buf <$> ms ≡ₚ base ++ owned x.2 (s_ctrl x.1) ++ b_lost x.2.

Lemma get_no_fail buf len fl (s : sys) e s' : get_dmabuf ops mmap munmap indet buf len fl s = (Fail e, s') -> False.
Proof.
  unfold get_dmabuf, on_ctx.
  pose proof (get_dmabuf_no_fail ops mmap munmap buf len fl indet (s_ctx s)) as Hn.
  destruct (iommu_get_dmabuf _ _ _ _ _ _ _ _) as [r c]. intros [= -> _]. by apply (Hn e c).
Qed.

(** *** Completion queues *)

Lemma bind_Fail {S A C} (m : M S A) (k : A -> M S C) st e st' :
  bind m k st = (Fail e, st') -> m st = (Fail e, st') \/ exists a st1, m st = (Ret a, st1) /\ k a st1 = (Fail e, st').
Proof. unfold bind. destruct (m st) as [[a|e'|] st1]; [right; eauto|left; by simplify_eq|done]. Qed.

Lemma configure_cq_guard qid qsize vec s r s' :
  __nvme_configure_cq qid qsize vec s = (r, s') ->
  match r with
  | Ret _ => accepted_cq qid qsize s = true
  | Fail _ => accepted_cq qid qsize s = false /\ s_ctrl s' = s_ctrl s /\ s_ctx s' = s_ctx s
  | Crash => True
  end.
Proof.
  intros Hrun. unfold __nvme_configure_cq, index in Hrun. destruct (qid <? 0); [by injection Hrun as <- _|].
  unfold bind at 1, ret at 1, get_cq, ctrl, gets, bind at 1 2 in Hrun.
  destruct (ct_cq (s_ctrl s) !! Z.to_nat qid) as [old|]; [|by injection Hrun as <- _].
  unfold ret at 1, bind at 1 2 in Hrun. unfold accepted_cq. destruct (read_cap s) as [[cap|e|] s1] eqn:Ecap; simpl;
    [|injection Hrun as <- <-; split; [done|]; split; [by eapply read_cap_ctrl|by eapply read_cap_ctx]|by injection Hrun as <- _].
  destruct (cap =? UINT64_MAX); [|destruct (negb (qid =? 0) && _); [|destruct (qsize <? 2)]];
    injection Hrun as <- <-; simpl; try done;
    (split; [done|]; split; [by eapply read_cap_ctrl|by eapply read_cap_ctx]).
Qed.

Lemma configure_cq_result s r s' qid qsize vec ms :
  kmaps ops mmap munmap P (s_ctx s) ms -> nvme_configure_cq ops mmap munmap indet qid qsize vec s = (r, s') -> r <> Crash ->
  if accepted_cq qid qsize s then
    exists old new ms', ct_cq (s_ctrl s) !! Z.to_nat qid = Some old /\
      s_ctrl s' = set_cqs (s_ctrl s) (<[Z.to_nat qid := new]> (ct_cq (s_ctrl s))) /\
      kmaps ops mmap munmap P (s_ctx s') ms' /\
      match r with
      | Ret _ => m_buf <$> ms' ≡ₚ owned_cq new ++ (m_buf <$> ms)
      | _ => m_buf <$> ms' ≡ₚ m_buf <$> ms
      end
  else (exists e, r = Fail e) /\ s_ctrl s' = s_ctrl s /\ s_ctx s' = s_ctx s.
Proof.
  intros Hms Hrun Hr. unfold nvme_configure_cq in Hrun. unfold bind at 1 in Hrun.
  destruct (__nvme_configure_cq qid qsize vec s) as [[[]|e|] s1] eqn:E1;
    pose proof (configure_cq_guard _ _ _ _ _ _ E1) as Hg; [|injection Hrun as <- <-; destruct Hg as [-> Hg]; eauto|by injection Hrun as <- _].
  rewrite Hg. apply configure_cq_inner in E1 as (Hq0 & _ & _ & old & dstrd & Eo & Es1 & Ec1).
  pose proof (lookup_lt_Some _ _ _ Eo) as Hlt.
  unfold index in Hrun. rewrite (proj2 (Z.ltb_ge qid 0)) in Hrun by lia.
  unfold bind at 1, ret at 1, get_cq, ctrl, gets, bind at 1 2 in Hrun. rewrite Es1 in Hrun. simpl in Hrun.
  rewrite list_lookup_insert_eq in Hrun by done. unfold ret at 1 in Hrun. unfold bind at 1 in Hrun.
  destruct (int_shl qsize NVME_CQES s1) as [[len|e|] s2] eqn:El; [|by unfold int_shl in El; destruct (_ && _)|by injection Hrun as <- _].
  apply int_shl_Ret in El as [-> _]. unfold bind at 1 in Hrun. simpl cq_mem in Hrun.
  destruct (get_dmabuf ops mmap munmap indet zero_dmabuf len 0 s1) as [[[buf err]|e|] s3] eqn:Eb; [| |by injection Hrun as <- _].
  2: { by apply get_no_fail in Eb. }
  pose proof (on_ctx_Ret _ _ _ _ Eb) as Em. apply on_ctx_ctrl in Eb. rewrite Ec1 in Em.
  destruct err as [e|].
  - unfold put_cq, upd_ctrl, modify, bind, fail in Hrun. injection Hrun as <- <-. eexists old, _, ms. split; [done|]. split.
    { simpl. rewrite Eb, Es1. simpl. rewrite list_insert_insert_eq. reflexivity. }
    split; [|done]. by eapply get_dmabuf_fails.
  - unfold put_cq, upd_ctrl, modify in Hrun. injection Hrun as <- <-.
    destruct (get_dmabuf_maps ops mmap munmap P _ _ _ _ _ _ _ _ Hms Em eq_refl) as (Hv & _ & ms' & Hms' & Hp').
    eexists old, _, ms'. split; [done|]. split.
    { simpl. rewrite Eb, Es1. simpl. rewrite list_insert_insert_eq. reflexivity. }
    split; [done|]. rewrite Hp'. unfold owned_cq. simpl. by destruct (Z.eqb_spec (buf_vaddr buf) 0); [lia|].
Qed.

Lemma configure_cq_ledger base s g r s' qid qsize vec :
  nvme_configure_cq ops mmap munmap indet qid qsize vec s = (r, s') -> r <> Crash ->
  ledger base (s, g) -> ledger base (s', after_cq qid qsize vec s g).
Proof.
  intros Hrun Hr (ms & Hms & Hp). pose proof (configure_cq_result _ _ _ _ _ _ _ Hms Hrun Hr) as Hc.
  unfold after_cq. rewrite Hrun. simpl in *. destruct (accepted_cq qid qsize s).
  2: { destruct Hc as (_ & E1 & E2). exists ms. simpl. by rewrite E1, E2. }
  destruct Hc as (old & new & ms' & Eo & Ec & Hms' & Hp'). exists ms'. split; [done|]. simpl. rewrite Eo, Ec.
  pose proof (replace_cq g (book_cq (Z.to_nat qid) r s g) (s_ctrl s) (Z.to_nat qid) old new Eo eq_refl) as Hi.
  destruct r as [[]|e|]; [| |done].
  - rewrite (decide_True (P := Z.to_nat qid ∈ b_cq (book_cq _ _ _ _))) in Hi by set_solver. rewrite Hp', Hp.
    transitivity (base ++ (owned_cq new ++ owned g (s_ctrl s)) ++ b_lost g); [solve_Permutation|].
    rewrite <- Hi by set_solver. solve_Permutation.
  - rewrite (decide_False (P := Z.to_nat qid ∈ b_cq (book_cq _ _ _ _))) in Hi by set_solver. rewrite Hp', Hp.
    rewrite (app_nil_l (owned g (s_ctrl s))) in Hi. rewrite <- Hi by set_solver. solve_Permutation.
Qed.

(** *** Submission queues *)

(** What a successful [nvme_configure_sq] maps and leaves in its slot. *)
Lemma configure_sq_result s s' qid qsize cqi ms :
  kmaps ops mmap munmap P (s_ctx s) ms -> nvme_configure_sq ops mmap munmap indet qid qsize cqi s = (Ret tt, s') ->
  2 <= qsize /\
  exists old pages buf len ms' sq,
    ct_sq (s_ctrl s) !! Z.to_nat qid = Some old /\
    s_ctrl s' = set_sqs (s_ctrl s) (<[Z.to_nat qid := sq]> (ct_sq (s_ctrl s))) /\
    sq_mem sq = buf /\ sq_pages sq = pages /\ sq_flags sq = 0 /\
    rqs sq = init_rq pages (mps (config (s_ctrl s))) <$> seq 0 (Z.to_nat (qsize - 1)) /\
    __abort_on_overflow qsize (__mps_to_pagesize (mps (config (s_ctrl s)))) = Ret len /\
    buf_len pages = ALIGN_UP len __VFN_PAGESIZE /\ 0 < buf_vaddr buf /\
    kmaps ops mmap munmap P (s_ctx s') ms' /\ m_buf <$> ms' ≡ₚ buf :: pages :: (m_buf <$> ms).
Proof.
  intros Hms Hrun. unfold nvme_configure_sq in Hrun.
  apply bind_Ret in Hrun as ([] & s1 & E1 & Hrun).
  apply configure_sq_inner in E1 as (_ & Hq & _ & old & pages & dstrd & Eo & Es1 & len & Elen & Epages).
  destruct (get_dmabuf_maps ops mmap munmap P _ _ _ _ _ _ _ _ Hms Epages eq_refl) as (_ & _ & ms1 & Hms1 & Hp1).
  assert (buf_len pages = ALIGN_UP len __VFN_PAGESIZE) as Hpl
    by (apply get_dmabuf_inv in Epages as (v & b & i & _ & -> & _); done).
  apply bind_Ret in Hrun as (i & s2 & Ei & Hrun). apply index_Ret in Ei as [-> ->].
  apply bind_Ret in Hrun as (sq & s2 & Esq & Hrun). apply get_sq_Ret in Esq as [-> Esq].
  pose proof (lookup_lt_Some _ _ _ Eo) as Hlt.
  rewrite Es1 in Esq. simpl in Esq. rewrite list_lookup_insert_eq in Esq by done. injection Esq as <-.
  apply bind_Ret in Hrun as (blen & s2 & El & Hrun). apply int_shl_Ret in El as [-> _].
  apply bind_Ret in Hrun as ([buf err] & s2 & Eb & Hrun).
  pose proof (on_ctx_Ret _ _ _ _ Eb) as Em. apply on_ctx_ctrl in Eb.
  destruct err as [e|].
  { apply bind_Ret in Hrun as (? & ? & _ & Hrun). by apply bind_Ret in Hrun as (? & ? & _ & Hrun). }
  injection Hrun as <-.
  destruct (get_dmabuf_maps ops mmap munmap P _ _ _ _ _ _ _ _ Hms1 Em eq_refl) as (Hv & _ & ms' & Hms' & Hp').
  split; [done|]. eexists old, pages, buf, len, ms', _. split; [done|]. split.
  { simpl. rewrite Eb, Es1. simpl. rewrite list_insert_insert_eq. reflexivity. }
  repeat (split; [done|]). by rewrite Hp', Hp1.
Qed.

Lemma configure_sq_guard qid qsize cqi s r s' :
  __nvme_configure_sq ops mmap munmap indet qid qsize cqi s = (r, s') ->
  match r with
  | Ret _ => accepted_sq qid qsize s = true
  | Fail e => if accepted_sq qid qsize s then
      exists old pages new len, ct_sq (s_ctrl s) !! Z.to_nat qid = Some old /\
        s_ctrl s' = set_sqs (s_ctrl s) (<[Z.to_nat qid := new]> (ct_sq (s_ctrl s))) /\
        iommu_get_dmabuf ops mmap munmap zero_dmabuf len 0 indet (s_ctx s) = (Ret (pages, Some e), s_ctx s')
    else s_ctrl s' = s_ctrl s /\ s_ctx s' = s_ctx s
  | Crash => True
  end.
Proof.
  intros Hrun. unfold __nvme_configure_sq, index in Hrun. destruct (qid <? 0); [by injection Hrun as <- _|].
  unfold bind at 1, ret at 1, get_sq, ctrl, gets, bind at 1 2 in Hrun.
  destruct (ct_sq (s_ctrl s) !! Z.to_nat qid) as [old|]; [|by injection Hrun as <- _].
  unfold ret at 1, bind at 1 2 in Hrun. unfold accepted_sq. destruct (read_cap s) as [[cap|e|] s1] eqn:Ecap; simpl;
    [|injection Hrun as <- <-; split; [by eapply read_cap_ctrl|by eapply read_cap_ctx]|by injection Hrun as <- _].
  pose proof (read_cap_ctx _ _ _ Ecap) as Ecx. apply read_cap_ctrl in Ecap.
  destruct (cap =? UINT64_MAX); [by injection Hrun as <- <-|]. destruct (negb (qid =? 0) && _); [by injection Hrun as <- <-|].
  destruct (qsize <? 2); [by injection Hrun as <- <-|]. simpl.
  destruct (__abort_on_overflow _ _) as [len|e|] eqn:Elen; [| |by injection Hrun as <- _].
  2: { unfold __abort_on_overflow in Elen. by destruct (would_overflow _ _). }
  unfold bind at 1 in Hrun.
  destruct (get_dmabuf ops mmap munmap indet zero_dmabuf len 0 s1) as [[[pages err]|e|] s3] eqn:Eb; [| |by injection Hrun as <- _].
  2: { by apply get_no_fail in Eb. }
  pose proof (on_ctx_Ret _ _ _ _ Eb) as Em. apply on_ctx_ctrl in Eb. rewrite Ecx in Em.
  destruct err as [e|]; [|by injection Hrun as <- _].
  unfold put_sq, upd_ctrl, modify, bind, fail in Hrun. injection Hrun as <- <-.
  eexists old, pages, _, len. split; [done|]. simpl. split; [by rewrite Eb, Ecap|done].
Qed.

(** Putting a buffer of the ledger. *)
Lemma put_ledger buf (s s' : sys) x rest ms :
  kmaps ops mmap munmap P (s_ctx s) ms -> m_buf <$> ms ≡ₚ buf :: rest ->
  put_dmabuf ops munmap buf s = (Ret x, s') ->
  s_ctrl s' = s_ctrl s /\ exists ms', kmaps ops mmap munmap P (s_ctx s') ms' /\ m_buf <$> ms' ≡ₚ rest.
Proof.
  intros Hms Hp Hrun. pose proof (on_ctx_Ret _ _ _ _ Hrun) as Em. apply on_ctx_ctrl in Hrun. split; [done|].
  assert (buf ∈ m_buf <$> ms) as Hin by (rewrite Hp; by left).
  destruct (put_dmabuf_maps ops mmap munmap P _ _ _ _ _ Hms Hin Em) as (ms' & Hms' & Hp').
  exists ms'. split; [done|]. apply (Permutation_cons_inv (a := buf)). by rewrite <- Hp', Hp.
Qed.

(** What a configuration that failed after its checks leaves: the context as it
    was, and the slot overwritten. *)
Lemma configure_sq_failed s e s' qid qsize cqi ms :
  kmaps ops mmap munmap P (s_ctx s) ms -> nvme_configure_sq ops mmap munmap indet qid qsize cqi s = (Fail e, s') ->
  if accepted_sq qid qsize s then
    exists old new ms', ct_sq (s_ctrl s) !! Z.to_nat qid = Some old /\
      s_ctrl s' = set_sqs (s_ctrl s) (<[Z.to_nat qid := new]> (ct_sq (s_ctrl s))) /\
      kmaps ops mmap munmap P (s_ctx s') ms' /\ m_buf <$> ms' ≡ₚ m_buf <$> ms
  else s_ctrl s' = s_ctrl s /\ s_ctx s' = s_ctx s.
Proof.
  intros Hms Hrun. unfold nvme_configure_sq in Hrun. apply bind_Fail in Hrun as [E1|([] & s1 & E1 & Hrun)].
  { apply configure_sq_guard in E1. destruct (accepted_sq qid qsize s); [|done].
    destruct E1 as (old & pages & new & len & Eo & Ec & Eg). exists old, new, ms. split_and!; [done..| |done].
    by eapply get_dmabuf_fails. }
  rewrite (configure_sq_guard _ _ _ _ _ _ E1).
  apply configure_sq_inner in E1 as (Hq0 & _ & _ & old & pages & dstrd & Eo & Es1 & len & _ & Epages).
  destruct (get_dmabuf_maps ops mmap munmap P _ _ _ _ _ _ _ _ Hms Epages eq_refl) as (_ & _ & ms1 & Hms1 & Hp1).
  pose proof (lookup_lt_Some _ _ _ Eo) as Hlt.
  unfold index in Hrun. rewrite (proj2 (Z.ltb_ge qid 0)) in Hrun by lia.
  unfold bind at 1, ret at 1, get_sq, ctrl, gets, bind at 1 2 in Hrun. rewrite Es1 in Hrun. simpl in Hrun.
  rewrite list_lookup_insert_eq in Hrun by done. unfold ret at 1 in Hrun.
  apply bind_Fail in Hrun as [El|(blen & s2 & El & Hrun)]; [by unfold int_shl in El; destruct (_ && _)|].
  apply int_shl_Ret in El as [-> _]. simpl sq_mem in Hrun.
  apply bind_Fail in Hrun as [Eb|([buf err] & s3 & Eb & Hrun)].
  { by apply get_no_fail in Eb. }
  pose proof (on_ctx_Ret _ _ _ _ Eb) as Em. apply on_ctx_ctrl in Eb. destruct err as [e'|]; [|done].
  apply (get_dmabuf_fails ops mmap munmap P _ _ _ _ _ ms1) in Em; [|done..]. simpl sq_pages in Hrun.
  apply bind_Fail in Hrun as [E3|(b & s4 & E3 & Hrun)].
  { revert E3. unfold put_dmabuf, on_ctx, iommu_put_dmabuf, bind, fatal_if, on_backend, pgunmap.
    destruct (_ =? 0); [done|]. destruct (iommu_unmap_vaddr _ _ _) as [[]]; [|done..]. unfold fatal_if.
    by destruct (munmap _ _ _) as [[]]. }
  destruct (put_ledger _ _ _ _ _ _ Em Hp1 E3) as (Hc4 & ms4 & Hms4 & Hp4).
  unfold put_sq, upd_ctrl, modify, bind, fail in Hrun. injection Hrun as _ <-.
  eexists old, _, ms4. split; [done|]. split.
  { simpl. rewrite Hc4, Eb, Es1. simpl. rewrite list_insert_insert_eq. reflexivity. }
  done.
Qed.

Lemma configure_sq_ledger base s g r s' qid qsize cqi :
  nvme_configure_sq ops mmap munmap indet qid qsize cqi s = (r, s') -> r <> Crash ->
  ledger base (s, g) -> ledger base (s', after_sq qid qsize cqi s g).
Proof.
  intros Hrun Hr (ms & Hms & Hp). unfold after_sq. rewrite Hrun. simpl in *. destruct r as [[]|e|]; [| |done].
  - destruct (configure_sq_result _ _ _ _ _ _ Hms Hrun)
      as (_ & old & pages & buf & len & ms' & sq & Eo & Ec & <- & <- & Hfl & _ & _ & _ & Hv & Hms' & Hp').
    assert (accepted_sq qid qsize s = true) as ->.
    { unfold nvme_configure_sq in Hrun. apply bind_Ret in Hrun as ([] & s1 & E1 & _).
      exact (configure_sq_guard _ _ _ _ _ _ E1). }
    exists ms'. split; [exact Hms'|]. simpl. rewrite Eo, Ec.
    pose proof (replace_sq g (book_sq (Z.to_nat qid) (Ret tt) s g) (s_ctrl s) (Z.to_nat qid) old sq Eo eq_refl) as Hi.
    rewrite (decide_True (P := Z.to_nat qid ∈ b_sq (book_sq _ _ _ _))) in Hi by set_solver.
    assert (owned_sq sq = [sq_mem sq; sq_pages sq]) as Enew.
    { unfold owned_sq. rewrite Hfl. destruct (Z.eqb_spec (buf_vaddr (sq_mem sq)) 0); [lia|done]. }
    rewrite Hp', Hp. transitivity (base ++ (owned_sq sq ++ owned g (s_ctrl s)) ++ b_lost g); [rewrite Enew; solve_Permutation|].
    rewrite <- Hi by set_solver. solve_Permutation.
  - pose proof (configure_sq_failed _ _ _ _ _ _ _ Hms Hrun) as Hc. destruct (accepted_sq qid qsize s).
    2: { destruct Hc as (E1 & E2). exists ms. simpl. by rewrite E1, E2. }
    destruct Hc as (old & new & ms' & Eo & Ec & Hms' & Hp'). exists ms'. split; [done|]. simpl. rewrite Eo, Ec.
    pose proof (replace_sq g (book_sq (Z.to_nat qid) (Fail e) s g) (s_ctrl s) (Z.to_nat qid) old new Eo eq_refl) as Hi.
    rewrite (decide_False (P := Z.to_nat qid ∈ b_sq (book_sq _ _ _ _))) in Hi by set_solver. rewrite Hp', Hp.
    rewrite (app_nil_l (owned g (s_ctrl s))) in Hi. rewrite <- Hi by set_solver. solve_Permutation.
Qed.

(** *** Discards *)

Lemma clear_dbbuf_same db (s s' : sys) x : clear_dbbuf db s = (Ret x, s') -> s' = s.
Proof.
  unfold clear_dbbuf, bind, ctrl, gets. destruct (_ =? 0); [by intros [= _ <-]|]. destruct (_ =? 0); [done|].
  by intros [= _ <-].
Qed.

(** What a discarded queue gives up. *)
Lemma give_up_cq g c i cq :
  ct_cq c !! i = Some cq ->
  owned g c ≡ₚ (if decide (i ∈ b_cq g) then owned_cq cq else []) ++ owned (without_cq i g) (set_cqs c (<[i := zero_cq]> (ct_cq c))).
Proof.
  intros Hcq. rewrite (replace_cq g (without_cq i g) c i cq zero_cq Hcq eq_refl) by set_solver.
  by rewrite decide_False by set_solver.
Qed.
Lemma give_up_sq g c i sq :
  ct_sq c !! i = Some sq ->
  owned g c ≡ₚ (if decide (i ∈ b_sq g) then owned_sq sq else []) ++ owned (without_sq i g) (set_sqs c (<[i := zero_sq]> (ct_sq c))).
Proof.
  intros Hsq. rewrite (replace_sq g (without_sq i g) c i sq zero_sq Hsq eq_refl) by set_solver.
  by rewrite decide_False by set_solver.
Qed.

(** A slot without memory may be dropped from the books. *)
Lemma without_cq_empty g c i cq :
  ct_cq c !! i = Some cq -> owned_cq cq = [] -> owned g c ≡ₚ owned (without_cq i g) c.
Proof.
  intros Hcq He. pose proof (replace_cq g (without_cq i g) c i cq cq Hcq eq_refl ltac:(set_solver)) as Hi.
  rewrite list_insert_id, He in Hi by done. replace (set_cqs c (ct_cq c)) with c in Hi by (by destruct c).
  by repeat case_decide.
Qed.
Lemma without_sq_empty g c i sq :
  ct_sq c !! i = Some sq -> owned_sq sq = [] -> owned g c ≡ₚ owned (without_sq i g) c.
Proof.
  intros Hsq He. pose proof (replace_sq g (without_sq i g) c i sq sq Hsq eq_refl ltac:(set_solver)) as Hi.
  rewrite list_insert_id, He in Hi by done. replace (set_sqs c (ct_sq c)) with c in Hi by (by destruct c).
  by repeat case_decide.
Qed.

Lemma discard_cq_ledger base s g s' i :
  may_discard_cq i s g -> nvme_discard_cq ops munmap i s = (Ret tt, s') -> ledger base (s, g) ->
  ledger base (s', without_cq i g).
Proof.
  intros Hmay Hrun (ms & Hms & Hp). unfold nvme_discard_cq in Hrun. simpl in Hp, Hms.
  apply bind_Ret in Hrun as (cq & s0 & E & Hrun). apply get_cq_Ret in E as [-> Ecq].
  destruct (buf_vaddr (cq_mem cq) =? 0) eqn:Ev.
  { injection Hrun as <-. exists ms. split; [done|]. simpl. rewrite Hp. do 2 f_equiv.
    eapply without_cq_empty; [done|]. unfold owned_cq. by rewrite Ev. }
  destruct Hmay as [Hin|Hz]; [|by rewrite (Hz cq Ecq) in Ev].
  rewrite (give_up_cq g _ _ _ Ecq), (decide_True (P := i ∈ b_cq g)) in Hp by done. unfold owned_cq at 1 in Hp. rewrite Ev in Hp.
  apply bind_Ret in Hrun as ([] & s1 & E1 & Hrun). apply bind_Ret in Hrun as (? & s2 & E2 & Hrun).
  apply clear_dbbuf_same in E2 as ->. injection Hrun as <-.
  destruct (flag_set _ _); simpl in E1.
  - injection E1 as <-. by exists ms.
  - apply bind_Ret in E1 as (y & s1' & E1 & E1'). injection E1' as <-. simpl in Hp. rewrite <- Permutation_middle in Hp.
    destruct (put_ledger _ _ _ _ _ _ Hms Hp E1) as (Hc & ms' & Hms' & Hp').
    exists ms'. split; [exact Hms'|]. simpl. by rewrite Hc.
Qed.

Lemma discard_sq_ledger base s g s' i :
  may_discard_sq i s g -> nvme_discard_sq ops munmap i s = (Ret tt, s') -> ledger base (s, g) ->
  ledger base (s', without_sq i g).
Proof.
  intros Hmay Hrun (ms & Hms & Hp). unfold nvme_discard_sq in Hrun. simpl in Hp, Hms.
  apply bind_Ret in Hrun as (sq & s0 & E & Hrun). apply get_sq_Ret in E as [-> Esq].
  destruct (buf_vaddr (sq_mem sq) =? 0) eqn:Ev.
  { injection Hrun as <-. exists ms. split; [done|]. simpl. rewrite Hp. do 2 f_equiv.
    eapply without_sq_empty; [done|]. unfold owned_sq. by rewrite Ev. }
  destruct Hmay as [Hin|Hz]; [|by rewrite (Hz sq Esq) in Ev].
  rewrite (give_up_sq g _ _ _ Esq), (decide_True (P := i ∈ b_sq g)) in Hp by done. unfold owned_sq at 1 in Hp. rewrite Ev in Hp.
  apply bind_Ret in Hrun as ([] & s1 & E1 & Hrun). apply bind_Ret in Hrun as (x & s2 & E2 & Hrun).
  apply bind_Ret in Hrun as (? & s3 & E3 & Hrun). apply clear_dbbuf_same in E3 as ->. injection Hrun as <-.
  set (rest := base ++ owned (without_sq i g) (set_sqs (s_ctrl s) (<[i := zero_sq]> (ct_sq (s_ctrl s)))) ++ b_lost g).
  assert (s_ctrl s1 = s_ctrl s /\ exists ms1, kmaps ops mmap munmap P (s_ctx s1) ms1 /\
    m_buf <$> ms1 ≡ₚ sq_pages sq :: rest) as (Hc1 & ms1 & Hms1 & Hp1).
  { destruct (flag_set _ _); simpl in E1.
    - injection E1 as <-. split; [done|]. exists ms. split; [done|]. rewrite Hp. unfold rest. simpl. solve_Permutation.
    - apply bind_Ret in E1 as (y & s1' & E1 & E1'). injection E1' as <-.
      refine (put_ledger _ _ _ _ (sq_pages sq :: rest) _ Hms _ E1). rewrite Hp. unfold rest. simpl. solve_Permutation. }
  destruct (put_ledger _ _ _ _ _ _ Hms1 Hp1 E2) as (Hc2 & ms2 & Hms2 & Hp2).
  exists ms2. split; [exact Hms2|]. simpl. by rewrite Hc2, Hc1.
Qed.

(** *** Commands *)

Lemma same_memory_refl s : same_memory s s.
Proof. by split_and!. Qed.

Lemma same_ledger base s0 s g : same_memory s0 s -> ledger base (s0, g) -> ledger base (s, g).
Proof.
  intros (Hc & Hs & Hq) (ms & Hms & Hp). exists ms. simpl in *. rewrite Hc. split; [done|]. unfold owned in *.
  by rewrite Hs, Hq.
Qed.

(** A command after an operation that keeps the ledger. *)
Lemma then_ledger {A C} base (m : M sys A) (k : A -> M sys C) s r1 s1 r s' g :
  m s = (r1, s1) -> r1 <> Crash -> bind m k s = (r, s') -> (forall a, preserves (same_memory s1) (k a)) ->
  ledger base (s1, g) -> ledger base (s', g).
Proof.
  intros Em Hr E Hk. unfold bind in E. rewrite Em in E. destruct r1 as [a|e|]; [| |done].
  - specialize (Hk a s1 (same_memory_refl s1)). rewrite E in Hk. by apply same_ledger.
  - by injection E as _ <-.
Qed.

#[local] Ltac kept := cbv beta zeta;
  first [ apply admin_same
        | apply preserves_bind; [first [apply index_same|apply get_cq_same|apply get_sq_same]|intros ?; kept] ].

Lemma qstep_ledger base x y : qstep x y -> ledger base x -> ledger base y.
Proof.
  intros [s g s' r qid qsize vec E Hr|s g s' r qid qsize cqi E Hr|s g s' i Hm E|s g s' i Hm E|s g s' r sqe E
    |s g s' r qid qsize vec Hr E|s g s' r qid qsize cqi Hr E|s g s1 s' r qid Hm E1 Hq E|s g s1 s' r qid Hm E1 Hq E] Hl;
    [eauto using configure_cq_ledger, configure_sq_ledger, discard_cq_ledger, discard_sq_ledger..| | | | |].
  - pose proof (admin_same s sqe s (same_memory_refl s)) as Hk. rewrite E in Hk. by eapply same_ledger.
  - destruct (nvme_configure_cq _ _ _ _ _ _ _ s) as [r1 s1] eqn:E1.
    eapply then_ledger; [exact E1|exact Hr|exact E|intros []; kept|by eapply configure_cq_ledger].
  - destruct (nvme_configure_sq _ _ _ _ _ _ _ s) as [r1 s1] eqn:E1.
    eapply then_ledger; [exact E1|exact Hr|exact E|intros []; kept|by eapply configure_sq_ledger].
  - unfold nvme_delete_iocq, index in E. rewrite (proj2 (Z.ltb_ge qid 0)) in E by lia.
    eapply then_ledger; [exact E1|done|exact E|intros []; kept|by eapply discard_cq_ledger].
  - unfold nvme_delete_iosq, index in E. rewrite (proj2 (Z.ltb_ge qid 0)) in E by lia.
    eapply then_ledger; [exact E1|done|exact E|intros []; kept|by eapply discard_sq_ledger].
Qed.

Lemma reachable_ledger s x ms0 :
  kmaps ops mmap munmap P (s_ctx s) ms0 -> rtc qstep (s, no_queues) x -> ledger (m_buf <$> ms0) x.
Proof.
  intros Hms0 Hrtc.
  assert (ledger (m_buf <$> ms0) (s, no_queues)) as Hl.
  { exists ms0. split; [done|]. cbn [fst snd b_lost no_queues]. unfold owned.
    change (b_sq no_queues) with (∅ : gset nat). change (b_cq no_queues) with (∅ : gset nat).
    by rewrite !pick_none, !app_nil_r. }
  clear Hms0. remember (s, no_queues) as x0 eqn:E. clear E. induction Hrtc; eauto using qstep_ledger.
Qed.
End Ledger.

Section Translation.
Context {page : PageSize} {B D : Type} `{NvmeDevice D} `{NvmeHost D} (ops : iommu_ctx_ops B).
Context (mmap : Z -> M B Z) (munmap : Z -> Z -> M B unit) (indet : Z).
Context `{!ProcessMemory ops mmap munmap}.
Local Abbreviation sys := (csys B D).
Implicit Types s : sys.

(** C13. The memory of the queues, through any sequence of configurations and
    discards of queues, of commands that create and delete them and of other
    commands without data, on a controller that starts without any queue.  Every
    call may fail on every one of its branches, be refused by the controller, and
    be made on a queue that is configured already; only a queue whose last
    configuration failed is not discarded before it is configured again.  The
    books ([books]) say which queues are configured and list the buffers of
    those that were configured again, which the code forgets without unmapping
    them.  Every byte of the memory of a configured queue (its ring and the list
    pages of its trackers) and of a forgotten buffer translates to the I/O
    address it was given, and every other address translates as it did at the
    start: a discarded queue leaves no mapping, no queue loses one, and nothing
    is mapped beyond the books. *)
Theorem queue_memory_ledger s s' g ms0 :
  maps ops mmap munmap (s_ctx s) ms0 -> rtc (qstep ops mmap munmap indet) (s, no_queues) (s', g) ->
  (forall buf k, buf ∈ owned g (s_ctrl s') ++ b_lost g -> 0 <= k < buf_len buf ->
     iommu_translate_vaddr (s_ctx s') (buf_vaddr buf + k) = Some (u64 (buf_iova buf + k))) /\
  (forall v, (forall buf, buf ∈ owned g (s_ctrl s') ++ b_lost g -> ~ in_buf v buf) ->
     iommu_translate_vaddr (s_ctx s') v = iommu_translate_vaddr (s_ctx s) v).
Proof.
  intros Hms0 Hrtc.
  destruct (reachable_ledger ops mmap munmap indet (fun _ _ => True) s (s', g) ms0 (conj Hms0 I) Hrtc)
    as (ms & [Hms _] & Hp). simpl in Hms, Hp.
  split.
  - intros buf k Hbuf Hk. apply (maps_translate ops mmap munmap _ ms); [done| |done]. rewrite Hp. set_solver.
  - intros v Hv. destruct (List.find (fun m => in_mapping m v) ms0) as [m|] eqn:Ef.
    + apply List.find_some in Ef as [Hm%list_elem_of_In Hin%in_mapping_spec].
      assert (m_buf m ∈ m_buf <$> ms0) as Hb by (by apply list_elem_of_fmap_2). unfold m_end in Hin.
      pose proof (maps_translate ops mmap munmap _ _ (m_buf m) (v - m_vaddr m) Hms0 Hb ltac:(simpl; lia)) as E0.
      assert (m_buf m ∈ m_buf <$> ms) as Hb' by (rewrite Hp; set_solver).
      pose proof (maps_translate ops mmap munmap _ _ (m_buf m) (v - m_vaddr m) Hms Hb' ltac:(simpl; lia)) as E1.
      simpl in E0, E1. replace (m_vaddr m + (v - m_vaddr m)) with v in * by lia. by rewrite E0, E1.
    + assert (forall buf, buf ∈ m_buf <$> ms0 -> ~ in_buf v buf) as Hn0.
      { intros buf (m & -> & Hm)%list_elem_of_fmap Hin. unfold in_buf in Hin. simpl in Hin.
        apply list_elem_of_In in Hm. pose proof (List.find_none _ _ Ef m Hm) as Hf. cbv beta in Hf.
        rewrite (proj2 (in_mapping_spec m v)) in Hf; [done|]. unfold m_end. lia. }
      rewrite (maps_translate_none ops mmap munmap _ ms0 v Hms0 Hn0).
      apply (maps_translate_none ops mmap munmap _ ms v Hms). intros buf. rewrite Hp, elem_of_app. intros [|]; eauto.
Qed.

Lemma tracker_offset mps i :
  0 <= mps -> Z.of_nat i * __mps_to_pagesize mps < 0x80000000 ->
  s32 (Z.shiftl (Z.of_nat i) (__mps_to_pageshift mps)) = Z.of_nat i * __mps_to_pagesize mps.
Proof.
  intros Hm Hi. unfold __mps_to_pagesize, __mps_to_pageshift in *. rewrite !Z.shiftl_mul_pow2, Z.mul_1_l in * by lia.
  pose proof (Z.pow_pos_nonneg 2 (12 + mps)). apply s32_small. nia.
Qed.

Lemma page_len x : 0 <= x <= 0x80000000 -> x <= ALIGN_UP x __VFN_PAGESIZE.
Proof.
  intros Hx. destruct (ALIGN_UP_bounds x __VFN_PAGESIZE) as [Hr _]; [lia| |apply pagesize_pow2|lia].
  destruct pagesize_pow2 as (k & Hk & Ek). rewrite Ek.
  assert (2 ^ k <= 2 ^ 63) by (apply Z.pow_le_mono_r; lia). lia.
Qed.

(** The list pages of a configured queue's trackers: as long as the pages
    together have at most 2^31 bytes, every tracker has a page of its own, which
    the context translates, byte by byte, to the I/O address the tracker has
    for it, so that the lists the driver writes there are the ones the
    controller reads. *)
Theorem tracker_pages_mapped s s' qid qsize cqi ms :
  maps ops mmap munmap (s_ctx s) ms ->
  let pagesize := __mps_to_pagesize (mps (config (s_ctrl s))) in
  0 <= mps (config (s_ctrl s)) -> qsize * pagesize <= 0x80000000 ->
  nvme_configure_sq ops mmap munmap indet qid qsize cqi s = (Ret tt, s') ->
  exists sq, ct_sq (s_ctrl s') !! Z.to_nat qid = Some sq /\ length (rqs sq) = Z.to_nat (qsize - 1) /\
    (forall i rq k, rqs sq !! i = Some rq -> 0 <= k < pagesize ->
       iommu_translate_vaddr (s_ctx s') (rq_page_vaddr rq + k) = Some (u64 (rq_page_iova rq + k))) /\
    (forall i j rq rq', rqs sq !! i = Some rq -> rqs sq !! j = Some rq' -> (i < j)%nat ->
       rq_page_vaddr rq + pagesize <= rq_page_vaddr rq').
Proof.
  intros Hms pagesize Hmps Hmax Hrun.
  destruct (configure_sq_result ops mmap munmap indet (fun _ _ => True) _ _ _ _ _ _ (conj Hms I) Hrun)
    as (Hq & old & pages & buf & len & ms' & sq & Eo & Ec & _ & _ & _ & Hrqs & Elen & Hpl & _ & [Hms' _] & Hp').
  assert (0 < pagesize) as Hps.
  { unfold pagesize, __mps_to_pagesize, __mps_to_pageshift. rewrite Z.shiftl_mul_pow2 by lia.
    pose proof (Z.pow_pos_nonneg 2 (12 + mps (config (s_ctrl s)))). lia. }
  assert (len = qsize * pagesize) as El.
  { unfold __abort_on_overflow in Elen. destruct (would_overflow _ _); [done|]. injection Elen as <-.
    apply u64_small. fold pagesize. nia. }
  assert (qsize * pagesize <= buf_len pages) as Hlen by (rewrite Hpl, El; apply page_len; nia).
  assert (forall i rq, rqs sq !! i = Some rq -> Z.of_nat i + 1 <= qsize /\
    rq_page_vaddr rq = buf_vaddr pages + Z.of_nat i * pagesize /\
    rq_page_iova rq = buf_iova pages + Z.of_nat i * pagesize) as Hrq.
  { intros i rq Hi. rewrite Hrqs, list_lookup_fmap in Hi. apply fmap_Some in Hi as (j & Hj & ->).
    apply lookup_seq in Hj as [-> Hj]. unfold init_rq. simpl.
    rewrite tracker_offset by (fold pagesize; nia). fold pagesize. lia. }
  exists sq. rewrite Ec. split; [simpl; apply list_lookup_insert_eq; by eapply lookup_lt_Some|].
  split; [by rewrite Hrqs, length_fmap, length_seq|]. split.
  - intros i rq k Hi Hk. destruct (Hrq i rq Hi) as (Hiq & -> & ->).
    rewrite <- !Z.add_assoc. apply (maps_translate ops mmap munmap _ ms'); [done| |nia].
    rewrite Hp'. right. left.
  - intros i j rq rq' Hi Hj Hij. destruct (Hrq i rq Hi) as (_ & -> & _), (Hrq j rq' Hj) as (_ & -> & _). nia.
Qed.
End Translation.

(** ** A concrete process: I/O addresses and memory handed out in order *)

Definition arena : Type := Z * list (Z * Z).
Definition on_next {A} (m : M Z A) : M arena A := fun b => let '(r, n) := m b.1 in (r, (n, b.2)).

Definition arena_ops : iommu_ctx_ops arena := {|
  iova_reserve := Some (fun len _ => on_next (fun b => if b + len <=? UINT64_MAX then (Ret b, b + len) else (Fail ENOMEM, b)));
  iova_reserve_align := None;
  iova_put_ephemeral := None;
  dma_map := fun _ _ iova _ => ret iova;
  dma_unmap := fun _ _ => ret tt;
  dma_unmap_all := Some (ret tt)
|}.

Definition arena_end (l : list (Z * Z)) : Z := foldr (fun r m => Z.max (r.1 + r.2) m) 0x1000 l.
Lemma arena_end_above l : 0x1000 <= arena_end l /\ Forall (fun r => r.1 + r.2 <= arena_end l) l.
Proof.
  induction l as [|r rs [IH1 IH2]]; simpl; [by split|]. split; [lia|]. constructor; [lia|].
  eapply Forall_impl; [exact IH2|]. simpl. lia.
Qed.

Definition arena_mmap (len : Z) : M arena Z := fun b =>
  let v := arena_end b.2 in
  if (0 <? len) && (v + len <=? UINT64_MAX) then (Ret v, (b.1, (v, len) :: b.2)) else (Fail ENOMEM, b).
Definition arena_munmap (v len : Z) : M arena unit := fun b =>
  (Ret tt, (b.1, filter (fun r => r <> (v, len)) b.2)).

#[export] Instance arena_memory : ProcessMemory arena_ops arena_mmap arena_munmap.
Proof.
  refine {| live b := b.2 |}.
  - intros l b v b'. unfold arena_mmap. destruct (Z.ltb_spec 0 l); [|done].
    destruct (Z.leb_spec (arena_end b.2 + l) UINT64_MAX); [|done]. intros [= <- <-].
    destruct (arena_end_above b.2) as [Hlo Hf].
    split; [done|]. split; [lia|]. split; [done|]. split; [|done].
    eapply Forall_impl; [exact Hf|]. simpl. lia.
  - intros l b e b'. unfold arena_mmap. by destruct (_ && _); intros [= _ <-].
  - intros v l b b' r [= <-] Hr Hne. simpl. apply list_elem_of_filter. done.
  - intros vaddr len iova flags indet [n rs]. unfold backend_map. destruct (flag_set _ _); [by destruct iova|].
    simpl. unfold bind, on_next. simpl. by destruct (_ <=? _).
  - done.
Defined.

Definition arena_ctx : iommu_ctx arena := iommu_ctx_init [] (0x10000, []).
Definition arena_start : csys arena echo :=
  mk_csys arena_ctx (<[NVME_REG_CAP := 0x05000000]> {[NVME_REG_CSTS := 1]}, 0%nat)
    (set_config (set_cqs (set_sqs zero_ctrl [zero_sq; zero_sq]) [zero_cq; zero_cq]) (mk_config 0 0 0xff 0)) ∅.

Definition arena_cq := nvme_configure_cq (page := page_4k) arena_ops arena_mmap arena_munmap 0 1 4 (-1) arena_start.
Definition arena_sq := nvme_configure_sq (page := page_4k) arena_ops arena_mmap arena_munmap 0 1 4 1 (snd arena_cq).

(** A controller with its admin queue configured, then a pair of queues created
    by command, the completion queue created once more, and deleted. *)
Definition arena_admin_start : csys arena echo :=
  mk_csys arena_ctx (s_dev arena_start) (set_adminq (s_ctrl arena_start) (Some 0%nat) (Some 0%nat)) ∅.
Definition arena_admin_cq := nvme_configure_cq (page := page_4k) arena_ops arena_mmap arena_munmap 0 0 4 0 arena_admin_start.
Definition arena_admin_sq := nvme_configure_sq (page := page_4k) arena_ops arena_mmap arena_munmap 0 0 4 0 (snd arena_admin_cq).
Definition arena_io_cq := nvme_create_iocq (page := page_4k) arena_ops arena_mmap arena_munmap 0 1 4 (-1) (snd arena_admin_sq).
Definition arena_io_sq := nvme_create_iosq (page := page_4k) arena_ops arena_mmap arena_munmap 0 1 4 1 (snd arena_io_cq).
Definition arena_io_cq2 := nvme_create_iocq (page := page_4k) arena_ops arena_mmap arena_munmap 0 1 4 (-1) (snd arena_io_sq).
Definition arena_io_off := nvme_delete_iocq arena_ops arena_munmap 0 1 (snd arena_io_cq2).

(** The books after the run: the ring of the first completion queue is lost. *)
Definition arena_books : books := mk_books {[0%nat]} {[0%nat; 1%nat]} [mk_dmabuf 0x7000 0x16000 0x1000].

Lemma arena_run :
  rtc (qstep (page := page_4k) arena_ops arena_mmap arena_munmap 0) (arena_admin_start, no_queues) (snd arena_io_off, arena_books).
Proof.
  eapply rtc_l; [eapply (q_configure_cq _ _ _ _ _ _ (snd arena_admin_cq) (Ret tt) 0 4 0); [vm_compute; reflexivity|done]|].
  eapply rtc_l; [eapply (q_configure_sq _ _ _ _ _ _ (snd arena_admin_sq) (Ret tt) 0 4 0); [vm_compute; reflexivity|done]|].
  eapply rtc_l; [eapply (q_create_iocq _ _ _ _ _ _ (snd arena_io_cq) (Ret tt) 1 4 (-1));
    [by vm_compute|vm_compute; reflexivity]|].
  eapply rtc_l; [eapply (q_create_iosq _ _ _ _ _ _ (snd arena_io_sq) (Ret tt) 1 4 1);
    [by vm_compute|vm_compute; reflexivity]|].
  eapply rtc_l; [eapply (q_create_iocq _ _ _ _ _ _ (snd arena_io_cq2) (Ret tt) 1 4 (-1));
    [by vm_compute|vm_compute; reflexivity]|].
  match goal with |- rtc _ (_, ?g) _ => replace g with (mk_books {[0%nat; 1%nat]} {[0%nat; 1%nat]} (b_lost arena_books))
    by (vm_compute; reflexivity) end.
  replace arena_books with (without_cq 1 (mk_books {[0%nat; 1%nat]} {[0%nat; 1%nat]} (b_lost arena_books)))
    by (vm_compute; reflexivity).
  apply rtc_once. eapply (q_delete_iocq _ _ _ _ _ _ _ (snd arena_io_off) (Ret tt) 1);
    [left; set_solver|vm_compute; reflexivity|lia|vm_compute; reflexivity].
Qed.

(** The deleted queue is unmapped, the memory of the others translates, and the
    ring that was lost when its queue was created again is mapped for good. *)
Lemma queue_memory_ledger_witness :
  fst arena_io_off = Ret tt /\
  iommu_translate_vaddr (s_ctx (snd arena_io_off)) (0x8000 + 0x3fff) = Some (u64 (0x17000 + 0x3fff)) /\
  iommu_translate_vaddr (s_ctx (snd arena_io_off)) (0x7000 + 0x10) = Some (u64 (0x16000 + 0x10)) /\
  iommu_translate_vaddr (s_ctx (snd arena_io_off)) 0xd000 = None.
Proof.
  destruct (queue_memory_ledger (page := page_4k) (D := echo) arena_ops arena_mmap arena_munmap 0
    arena_admin_start (snd arena_io_off) arena_books []) as [H1 H2].
  - split; [exact empty_map_ok|constructor].
  - exact arena_run.
  - assert (owned arena_books (s_ctrl (snd arena_io_off)) ++ b_lost arena_books =
      [mk_dmabuf 0x6000 0x15000 0x1000; mk_dmabuf 0x2000 0x11000 0x4000; mk_dmabuf 0xc000 0x1b000 0x1000;
       mk_dmabuf 0x8000 0x17000 0x4000; mk_dmabuf 0x1000 0x10000 0x1000; mk_dmabuf 0x7000 0x16000 0x1000]) as E
      by (vm_compute; reflexivity).
    rewrite E in H1, H2. split; [vm_compute; reflexivity|]. split; [|split].
    + refine (H1 (mk_dmabuf 0x8000 0x17000 0x4000) 0x3fff _ _); [by do 3 right; left|simpl; lia].
    + refine (H1 (mk_dmabuf 0x7000 0x16000 0x1000) 0x10 _ _); [by do 5 right; left|simpl; lia].
    + transitivity (iommu_translate_vaddr (s_ctx arena_admin_start) 0xd000); [|vm_compute; reflexivity].
      apply H2. rewrite <- Forall_forall. unfold in_buf. repeat constructor; simpl; lia.
Defined.

Lemma tracker_pages_mapped_witness :
  exists sq, ct_sq (s_ctrl (snd arena_sq)) !! 1%nat = Some sq /\ length (rqs sq) = 3%nat /\
    forall i rq k, rqs sq !! i = Some rq -> 0 <= k < 0x1000 ->
      iommu_translate_vaddr (s_ctx (snd arena_sq)) (rq_page_vaddr rq + k) = Some (u64 (rq_page_iova rq + k)).
Proof.
  assert (exists ms, maps arena_ops arena_mmap arena_munmap (s_ctx (snd arena_cq)) ms) as [ms Hms].
  { destruct (get_dmabuf_maps (page := page_4k) arena_ops arena_mmap arena_munmap (fun _ _ => True) zero_dmabuf 0x40 0 0
      arena_ctx [] (mk_dmabuf 0x1000 0x10000 0x1000) (s_ctx (snd arena_cq))) as (_ & _ & ms & [Hms _] & _).
    - split; [split; [exact empty_map_ok|constructor]|done].
    - vm_compute. reflexivity.
    - done.
    - by exists ms. }
  destruct (tracker_pages_mapped (page := page_4k) (D := echo) arena_ops arena_mmap arena_munmap 0 (snd arena_cq)
    (snd arena_sq) 1 4 1 ms Hms) as (sq & E & El & Ht & _).
  - vm_compute. discriminate.
  - vm_compute. discriminate.
  - vm_compute. reflexivity.
  - exists sq. split; [exact E|]. split; [exact El|exact Ht].
Defined.

(** ** Departures *)

(** Creating a queue that is configured, as after a refusal by the controller,
    overwrites its structure: the old ring stays mapped and nothing refers to
    it, also after the queue is deleted. *)
Lemma recreated_queue_leaks :
  iommu_translate_vaddr (s_ctx (snd arena_io_off)) 0x7000 = Some 0x16000 /\
  Forall (fun cq => buf_vaddr (cq_mem cq) <> 0x7000) (ct_cq (s_ctrl (snd arena_io_off))).
Proof. split; [vm_compute; reflexivity|]. vm_compute. repeat constructor; discriminate. Qed.

(** After a configuration that failed for lack of I/O addresses, the slot keeps
    the address of memory that was freed; discarding it ends the process. *)
Definition full_ctx : iommu_ctx arena := iommu_ctx_init [] (UINT64_MAX, []).
Definition full_start : csys arena echo := mk_csys full_ctx (s_dev arena_start) (s_ctrl arena_start) ∅.
Lemma failed_configuration_then_discard :
  let s := snd (nvme_configure_cq (page := page_4k) arena_ops arena_mmap arena_munmap 0 1 4 (-1) full_start) in
  fst (nvme_configure_cq (page := page_4k) arena_ops arena_mmap arena_munmap 0 1 4 (-1) full_start) = Fail ENOMEM /\
  fst (nvme_discard_cq arena_ops arena_munmap 1 s) = Crash.
Proof. vm_compute. split; reflexivity. Qed.

(** The offsets are computed as [int]: with pages of 64 KiB, the pages of the
    trackers from 32768 on are taken to lie before the buffer. *)
Lemma tracker_offset_overflows pages :
  rq_page_vaddr (init_rq pages 4 (Z.to_nat 32768)) = buf_vaddr pages - 0x80000000.
Proof. unfold init_rq. simpl rq_page_vaddr. rewrite Z2Nat.id by lia. reflexivity. Qed.
