(* ===== verification/SoftCtrl.v ===== *)
(** * SoftCtrl: a controller in software, for running the programs of the repository

    An instance of [NvmeDevice] and [NvmeHost] that can be brought up, serves any
    number of queues and completes each command when it is waited for. *)

From S2P Require Import Prelude Support Skiplist IovaAlloc VfioIova Dma NvmeTypes Prp NvmeQueue NvmeRq NvmeCtrl NvmeCore.
Local Open Scope Z_scope.
Local Open Scope vfn_scope.

(** Its registers, how many entries it has posted to each completion queue, the
    word it returns at each offset of the identify data, the opcodes it refuses
    in each submission queue, and the commands it has executed, with their queue. *)
Record soft : Type := mk_soft {
  soft_regs : gmap Z Z;
  soft_posted : gmap Z nat;
  soft_identify : Z -> Z;
  soft_refuses : Z -> Z -> bool;
  soft_seen : list (Z * nvme_cmd)
}.
Definition BAR0 : Z := 0x70000000.

(** The result of [Set Features (Number of Queues)]: four of each. *)
Definition soft_dw0 (c : nvme_cmd) : Z := if opcode c =? NVME_ADMIN_SET_FEATURES then 0x00030003 else 0.
Definition soft_command (sq : nvme_sq) : nvme_cmd := default zero_cmd (sq_entries sq !! Z.to_nat ((tail sq - 1) mod sq_qsize sq)).
Definition soft_cqe (d : soft) (sq : nvme_sq) (cq : nvme_cq) (n : nat) : nvme_cqe :=
  let c := soft_command sq in
  mk_cqe (soft_dw0 c) 0 0 (sq_id sq) (cid c) (Z.lor (if soft_refuses d (sq_id sq) (opcode c) then Z.shiftl 1 1 else 0) (lap_bit (ring_size cq) n)).

(** A completion queue starts over when it is created, and all when the controller
    is disabled. *)
Definition soft_store (a v : Z) (d : soft) : soft :=
  let regs := <[a := v]> (soft_regs d) in
  if a =? BAR0 + NVME_REG_CC
  then mk_soft (<[BAR0 + NVME_REG_CSTS := Z.land v 1]> regs) (if Z.land v 1 =? 0 then ∅ else soft_posted d) (soft_identify d) (soft_refuses d) (soft_seen d)
  else mk_soft regs (soft_posted d) (soft_identify d) (soft_refuses d) (soft_seen d).
Definition soft_created (c : nvme_cmd) (posted : gmap Z nat) : gmap Z nat :=
  if opcode c =? NVME_ADMIN_CREATE_CQ then delete (Z.land (cdw10 c) 0xffff) posted else posted.

#[export] Instance soft_device : NvmeDevice soft := {|
  reg_load a d := (default 0 (soft_regs d !! a), d);
  reg_store := soft_store;
  dma_word a d := soft_identify d (a mod 0x1000);
  dev_run sq cq d :=
    let n := default 0%nat (soft_posted d !! cq_id cq) in
    ([(fun es => <[(n mod ring_size cq)%nat := soft_cqe d sq cq n]> es, 0)],
     mk_soft (soft_regs d) (<[cq_id cq := S n]> (soft_created (soft_command sq) (soft_posted d))) (soft_identify d) (soft_refuses d)
       (soft_seen d ++ [(sq_id sq, soft_command sq)]))
|}.
#[export] Instance soft_host : NvmeHost soft := {|
  time_now d := (Ret 0, d);
  vfio_pci_open := ret 0x010802;
  vfio_pci_close := ret tt;
  vfio_pci_map_bar i len off prot := ret (BAR0 + off);
  vfio_pci_unmap_bar i mem len off := ret tt
|}.

(** Pages of 4 KiB and 32 entries at most in a queue. *)
Definition soft0 : soft :=
  mk_soft (<[BAR0 + NVME_REG_CAP := 0x0500001f]> {[BAR0 + NVME_REG_CSTS := 1]}) ∅ (fun _ => 0) (fun _ _ => false) [].
Definition soft_refusing (q op : Z) (d : soft) : soft :=
  mk_soft (soft_regs d) (soft_posted d) (soft_identify d) (fun i o => (i =? q) && (o =? op) || soft_refuses d i o) (soft_seen d).
Definition soft_with_dbbuf (d : soft) : soft :=
  mk_soft (soft_regs d) (soft_posted d) (fun off => if off =? NVME_IDENTIFY_CTRL_OACS then NVME_IDENTIFY_CTRL_OACS_DBCONFIG else soft_identify d off)
    (soft_refuses d) (soft_seen d).
