(* ===== verification/QueueReady.v ===== *)
(** * QueueReady: a pair of I/O queues just created

    [nvme_create_ioqpair] of src/nvme/core.c leaves, in the controller structure, a
    pair of queues in the state from which [QueuePair] starts: the commands that
    announce the queues to the controller go through the admin queue and change no
    other. *)

From S2P Require Import Prelude Support Skiplist IovaAlloc VfioIova Dma NvmeTypes Prp NvmeQueue NvmeRq QueuePair.
From S2P Require Import NvmeCtrl NvmeCore NvmeMem.
Local Open Scope Z_scope.
Local Open Scope vfn_scope.

(** ** Commands on the admin queue *)

Section Aside.
Context {page : PageSize} {B D : Type} `{NvmeDevice D} `{NvmeHost D} (ops : iommu_ctx_ops B).
Context (mmap : Z -> M B Z) (munmap : Z -> Z -> M B unit) (indet : Z).

(** The admin queue is the pair 0, and every other queue is as in [s0]. *)
Definition aside (s0 s : csys B D) : Prop :=
  adminq_sq (s_ctrl s) = Some 0%nat /\ dbbuf_doorbells (s_ctrl s) = dbbuf_doorbells (s_ctrl s0) /\
  (forall sq, ct_sq (s_ctrl s) !! 0%nat = Some sq -> sq_cq sq = 0%nat) /\
  forall j, j <> 0%nat -> ct_sq (s_ctrl s) !! j = ct_sq (s_ctrl s0) !! j /\ ct_cq (s_ctrl s) !! j = ct_cq (s_ctrl s0) !! j.

Lemma set_sq_aside s0 s sq sq' :
  ct_sq (s_ctrl s) !! 0%nat = Some sq -> sq_cq sq' = sq_cq sq -> aside s0 s ->
  aside s0 (mk_csys (s_ctx s) (s_dev s) (set_sqs (s_ctrl s) (<[0%nat := sq']> (ct_sq (s_ctrl s)))) (s_pages s)).
Proof.
  intros Hsq Hcq (Ha & Hd & Hz & Hj). split; [done|]. split; [done|]. split.
  - simpl. intros x Hx. rewrite list_lookup_insert_eq in Hx by (by eapply lookup_lt_Some). injection Hx as <-. rewrite Hcq. by apply Hz.
  - intros j Hne. simpl. rewrite list_lookup_insert_ne by done. by apply Hj.
Qed.
Lemma set_cq_aside s0 s cq' :
  aside s0 s -> aside s0 (mk_csys (s_ctx s) (s_dev s) (set_cqs (s_ctrl s) (<[0%nat := cq']> (ct_cq (s_ctrl s)))) (s_pages s)).
Proof.
  intros (Ha & Hd & Hz & Hj). split; [done|]. split; [done|]. split; [done|].
  intros j Hne. simpl. rewrite list_lookup_insert_ne by done. by apply Hj.
Qed.

Lemma on_sq_aside {A} s0 (m : M nvme_sq A) :
  (forall sq, sq_cq (snd (m sq)) = sq_cq sq) -> preserves (aside s0) (on_sq 0 m).
Proof.
  intros Hm s Hs. unfold on_sq, get_sq, ctrl, gets, bind, ret, crash, fail, put_sq, upd_ctrl, modify. simpl.
  destruct (ct_sq (s_ctrl s) !! 0%nat) as [sq|] eqn:E; [|done]. specialize (Hm sq).
  destruct (m sq) as [[a|e|] sq']; simpl in *; [by eapply set_sq_aside..|done].
Qed.

Lemma exec_cq rq cmd sq : sq_cq (nvme_rq_exec rq cmd sq) = sq_cq sq.
Proof.
  unfold nvme_rq_exec, nvme_rq_post, nvme_sq_update_tail, nvme_sq_post.
  destruct (_ =? ptail _); [done|]. by destruct (nvme_try_dbbuf _ _).
Qed.
Lemma acquire_cq sq : sq_cq (snd (nvme_rq_acquire_atomic sq)) = sq_cq sq.
Proof.
  unfold nvme_rq_acquire_atomic, acquire_loop. destruct (rq_top sq) as [i|]; [|done]. destruct (rqs sq !! i); [|done].
  unfold atomic_cmpxchg. by case_decide.
Qed.
Lemma release_cq i sq : sq_cq (nvme_rq_release_atomic i sq) = sq_cq sq.
Proof. unfold nvme_rq_release_atomic, atomic_cmpxchg. by case_decide. Qed.

#[local] Arguments sync_wait : simpl never.

Lemma sync_issue_aside s0 i sqe : preserves (aside s0) (sync_issue 0 i sqe None).
Proof.
  intros s Hs. unfold sync_issue, get_sq, ctrl, gets, get, put, bind, ret, crash, put_sq, upd_ctrl, modify. simpl.
  destruct (ct_sq (s_ctrl s) !! 0%nat) as [sq|] eqn:E; [|done]. destruct (rqs sq !! i) as [rq|]; [|done].
  unfold get_cq, ctrl, gets, bind, ret, crash, on_dev. simpl. rewrite exec_cq. set (sq1 := nvme_rq_exec rq sqe sq).
  assert (aside s0 (mk_csys (s_ctx s) (s_dev s) (set_sqs (s_ctrl s) (<[0%nat := sq1]> (ct_sq (s_ctrl s)))) (s_pages s)))
    as Hs1 by (eapply set_sq_aside; [exact E|apply exec_cq|done]).
  assert (sq_cq sq = 0%nat) as -> by (by apply Hs).
  destruct (ct_cq (s_ctrl s) !! 0%nat) as [cq|] eqn:Ecq; [|done]. cbn [s_dev s_ctx s_ctrl s_pages].
  destruct (dev_run sq1 cq (s_dev s)) as [e d]. destruct (sync_wait _ _ _ _) as [[[err cqe] cq']|] eqn:Ew; [|done].
  unfold put_cq, upd_ctrl, modify. simpl.
  exact (set_cq_aside s0 (mk_csys (s_ctx s) d (set_sqs (s_ctrl s) (<[0%nat := sq1]> (ct_sq (s_ctrl s)))) (s_pages s)) cq' Hs1).
Qed.

Lemma admin_aside s0 sqe : preserves (aside s0) (__admin ops indet sqe).
Proof.
  intros s Hs. unfold __admin. rewrite (bind_ret admin_sq _ s 0%nat s).
  2: { unfold admin_sq, ctrl, gets, bind. by rewrite (proj1 Hs). }
  revert s Hs. change (preserves (aside s0) (do* check (nvme_sync ops 0 sqe None 0 indet) in ret tt)). unfold check, nvme_sync.
  apply preserves_bind; [|auto with preserves]. apply preserves_bind; [|intros [[] ]; auto with preserves].
  apply preserves_bind; [auto with preserves|]. intros st. apply preserves_bind; [auto with preserves|].
  intros [e|[iova u]]; [auto with preserves|]. apply preserves_bind.
  { apply preserves_try, on_sq_aside, acquire_cq. }
  intros [e|i]; [auto with preserves|]. apply preserves_bind; [apply sync_issue_aside|].
  intros res. apply preserves_bind; [apply on_sq_aside; intros sq; apply release_cq|auto with preserves].
Qed.

Lemma admin_aside_Ret sqe s x s' :
  __admin ops indet sqe s = (Ret x, s') -> adminq_sq (s_ctrl s) = Some 0%nat ->
  (forall sq, ct_sq (s_ctrl s) !! 0%nat = Some sq -> sq_cq sq = 0%nat) -> aside s s'.
Proof. intros E Ha Hz. pose proof (admin_aside s sqe s) as Hp. rewrite E in Hp. apply Hp. by split_and!. Qed.

(** ** The pair *)

(** No shadow doorbells, or shadow doorbells that were cleared. *)
Definition doorbells_clear (s : csys B D) (i : nat) : Prop :=
  buf_vaddr (dbbuf_doorbells (s_ctrl s)) <> 0 ->
  (forall sq, ct_sq (s_ctrl s) !! i = Some sq -> db_word (sq_dbbuf sq) = 0) /\
  (forall cq, ct_cq (s_ctrl s) !! i = Some cq -> db_word (cq_dbbuf cq) = 0).

(** C18. A pair of I/O queues that [nvme_create_ioqpair] has created is ready:
    for up to 65535 entries, when both queues have been configured and the
    controller has accepted both commands, the controller structure has, under
    the identifier asked for, a submission queue of that size whose completions go
    to the completion queue of the same identifier; their rings, doorbells and
    trackers are those of a new pair, and no other I/O queue has changed. *)
Theorem ioqpair_ready qid qsize vec s s' :
  0 < qid -> qsize <= 65535 -> adminq_sq (s_ctrl s) = Some 0%nat ->
  (forall sq, ct_sq (s_ctrl s) !! 0%nat = Some sq -> sq_cq sq = 0%nat) -> doorbells_clear s (Z.to_nat qid) ->
  nvme_create_ioqpair ops mmap munmap indet qid qsize vec s = (Ret tt, s') ->
  exists sq cq, ct_sq (s_ctrl s') !! Z.to_nat qid = Some sq /\ ct_cq (s_ctrl s') !! Z.to_nat qid = Some cq /\
    sq_qsize sq = qsize /\ sq_cq sq = Z.to_nat qid /\ qpair_fresh (mk_qpair sq cq [] [] [] [] [] [] []) /\
    forall j, j <> 0%nat -> j <> Z.to_nat qid ->
      ct_sq (s_ctrl s') !! j = ct_sq (s_ctrl s) !! j /\ ct_cq (s_ctrl s') !! j = ct_cq (s_ctrl s) !! j.
Proof.
  intros Hqid Hq Hadm Hz Hclear Hrun. assert (Z.to_nat qid <> 0%nat) as Hne by lia.
  unfold nvme_create_ioqpair, nvme_create_iocq, nvme_create_iosq in Hrun.
  apply bind_Ret in Hrun as ([] & s1 & Hcq & Hrun). apply bind_Ret in Hcq as ([] & s2 & Ecq & Hcq).
  apply configure_cq_ready in Ecq as (_ & _ & cq & Ecq & _ & Ecqs & Hcqf & Hcqo & Esqs & Eadm & Edb); [|done|].
  2: { intros old Ho Hv. by apply (proj2 (Hclear Hv)). }
  apply bind_Ret in Hcq as (i & s3 & Ei & Hcq). apply index_Ret in Ei as [-> ->].
  apply bind_Ret in Hcq as (cq' & s3 & Eg & Hcq). apply get_cq_Ret in Eg as [-> _].
  apply admin_aside_Ret in Hcq as (Hadm1 & Hdb1 & Hz1 & Ho1); [|congruence|by rewrite Esqs].
  apply bind_Ret in Hrun as (i & s4 & Ei & Hrun). apply index_Ret in Ei as [-> ->].
  apply bind_Ret in Hrun as ([] & s5 & Esq & Hrun).
  apply configure_sq_ready in Esq as (_ & _ & sq & Esq & _ & Esqc & Esqq & Hsqf & Hrqf & Hsqo & Ecq5 & Eadm5 & Edb5); [|lia|].
  2: { intros old Ho Hv. rewrite (proj1 (Ho1 _ Hne)), Esqs in Ho. apply (proj1 (Hclear ltac:(congruence))). done. }
  apply bind_Ret in Hrun as (i & s6 & Ei & Hrun). apply index_Ret in Ei as [-> ->].
  apply bind_Ret in Hrun as (sq' & s6 & Eg & Hrun). apply get_sq_Ret in Eg as [-> _].
  apply bind_Ret in Hrun as (cq2 & s6 & Eg & Hrun). apply get_cq_Ret in Eg as [-> _].
  apply admin_aside_Ret in Hrun as (_ & _ & _ & Ho2); [|congruence|by rewrite Hsqo].
  exists sq, cq. split; [by rewrite (proj1 (Ho2 _ Hne))|]. split; [by rewrite (proj2 (Ho2 _ Hne)), Ecq5, (proj2 (Ho1 _ Hne))|].
  split; [done|]. split; [done|]. split.
  - unfold qpair_fresh. simpl. split_and!; try done. lia.
  - intros j Hj0 Hj. rewrite (proj1 (Ho2 _ Hj0)), (proj2 (Ho2 _ Hj0)), Hsqo, Ecq5, (proj1 (Ho1 _ Hj0)), (proj2 (Ho1 _ Hj0)), Esqs, Hcqo by done.
    done.
Qed.
End Aside.

Lemma ioqpair_ready_witness :
  exists sq cq (s' : csys arena echo), ct_sq (s_ctrl s') !! 1%nat = Some sq /\ ct_cq (s_ctrl s') !! 1%nat = Some cq /\
    sq_qsize sq = 4 /\ sq_cq sq = 1%nat /\ qpair_fresh (mk_qpair sq cq [] [] [] [] [] [] []).
Proof.
  set (run := nvme_create_ioqpair (page := page_4k) arena_ops arena_mmap arena_munmap 0 1 4 (-1) (snd arena_admin_sq)).
  destruct (ioqpair_ready (page := page_4k) (D := echo) arena_ops arena_mmap arena_munmap 0 1 4 (-1) (snd arena_admin_sq) (snd run))
    as (sq & cq & H1 & H2 & H3 & H4 & H5 & _).
  - lia.
  - lia.
  - vm_compute. reflexivity.
  - intros sq Hsq. vm_compute in Hsq. injection Hsq as <-. reflexivity.
  - intros Hb. exfalso. apply Hb. vm_compute. reflexivity.
  - rewrite (surjective_pairing (nvme_create_ioqpair _ _ _ _ _ _ _ _)). assert (fst run = Ret tt) as E by (vm_compute; reflexivity). fold run. by rewrite E.
  - change (Z.to_nat 1) with 1%nat in H1, H2, H4. exists sq, cq, (snd run). exact (conj H1 (conj H2 (conj H3 (conj H4 H5)))).
Defined.
