(* ===== verification/PerfMain.v ===== *)
(** * PerfMain: the command line of the benchmark, [main] of examples/perf.c and
      examples/common.c

    The options are parsed with [Opt] and checked, the controller is initialised,
    the size of the namespace is read and a pair of queues created; [Perf] goes on
    from there.  [err] and [errx] end the process with status 1. *)

From Stdlib Require String.
From S2P Require Import Prelude Support Skiplist IovaAlloc VfioIova Dma CStr OptHelpers Opt OptUsage Client.
From S2P Require Import NvmeTypes Prp NvmeQueue NvmeRq QueuePair Perf NvmeCtrl NvmeCore NvmeMem SoftCtrl.
Local Open Scope Z_scope.
Local Open Scope vfn_scope.

(** ** Options *)

Record perf_vars : Type := mk_perf_vars {
  v_bdf : option cstr;
  v_show_usage : bool;
  v_nsid : Z;
  v_runtime : Z;
  v_warmup : Z;
  v_interval : Z;
  v_pattern : option cstr;
  v_depth : Z;
  v_qsize : Z
}.
Definition perf_vars0 : perf_vars := mk_perf_vars (Some (lit "")) false 0 10 0 1 (Some (lit "read")) 1 (-1).

Section Setters.
Context (v : perf_vars).
Definition set_v_bdf x := mk_perf_vars x (v_show_usage v) (v_nsid v) (v_runtime v) (v_warmup v) (v_interval v) (v_pattern v) (v_depth v) (v_qsize v).
Definition set_v_usage x := mk_perf_vars (v_bdf v) x (v_nsid v) (v_runtime v) (v_warmup v) (v_interval v) (v_pattern v) (v_depth v) (v_qsize v).
Definition set_v_nsid x := mk_perf_vars (v_bdf v) (v_show_usage v) x (v_runtime v) (v_warmup v) (v_interval v) (v_pattern v) (v_depth v) (v_qsize v).
Definition set_v_runtime x := mk_perf_vars (v_bdf v) (v_show_usage v) (v_nsid v) x (v_warmup v) (v_interval v) (v_pattern v) (v_depth v) (v_qsize v).
Definition set_v_warmup x := mk_perf_vars (v_bdf v) (v_show_usage v) (v_nsid v) (v_runtime v) x (v_interval v) (v_pattern v) (v_depth v) (v_qsize v).
Definition set_v_interval x := mk_perf_vars (v_bdf v) (v_show_usage v) (v_nsid v) (v_runtime v) (v_warmup v) x (v_pattern v) (v_depth v) (v_qsize v).
Definition set_v_pattern x := mk_perf_vars (v_bdf v) (v_show_usage v) (v_nsid v) (v_runtime v) (v_warmup v) (v_interval v) x (v_depth v) (v_qsize v).
Definition set_v_depth x := mk_perf_vars (v_bdf v) (v_show_usage v) (v_nsid v) (v_runtime v) (v_warmup v) (v_interval v) (v_pattern v) x (v_qsize v).
Definition set_v_qsize x := mk_perf_vars (v_bdf v) (v_show_usage v) (v_nsid v) (v_runtime v) (v_warmup v) (v_interval v) (v_pattern v) (v_depth v) x.
End Setters.

(** examples/common.c *)
Definition opts_base : client_table perf_vars :=
  table_opt (flag_opt "-h|--help" v_show_usage set_v_usage "show usage")
  (table_opt (charp_opt "-d|--device BDF" v_bdf set_v_bdf "pci device")
  OPT_ENDTABLE).

Definition perf_table : client_table perf_vars :=
  table_sub opts_base desc_null
  (table_opt (ulong_opt "-N|--nsid NSID" v_nsid set_v_nsid "namespace identifier")
  (table_opt (ulong_opt "-t|--runtime SECONDS" v_runtime set_v_runtime "runtime in seconds")
  (table_opt (ulong_opt "-w|--warmup SECONDS" v_warmup set_v_warmup "warmup time in seconds")
  (table_opt (ulong_opt "-u|--update-stats-interval SECONDS" v_interval set_v_interval "update stats interval in seconds")
  (table_opt (charp_opt "-p|--io-pattern" v_pattern set_v_pattern "i/o pattern")
  (table_opt (int_opt "-q|--io-depth" v_depth set_v_depth "i/o depth")
  (table_opt (int_opt "-n|--io-qsize" v_qsize set_v_qsize "i/o queue size")
  OPT_ENDTABLE))))))).

(** ** The program *)

(** [strstarts(s, p)]: [strncmp(s, p, strlen(p)) == 0]. *)
Definition strstarts (s p : cstr) : bool := strncmp_eq (length p) s p.


Section Main.
Context {page : PageSize} {B D : Type} `{NvmeDevice D} `{NvmeHost D} {term : Terminal} (ops : iommu_ctx_ops B).
Context (mmap : Z -> M B Z) (munmap : Z -> Z -> M B unit) (indet NVME_AQ_QSIZE : Z).
(** The sources of [Perf], the tick frequency, and what [mmap] returns there. *)
Context (ticks rand : nat -> Z) (calloc : nat -> bool) (ctl : nat -> list move) (freq mem : Z).
(** [id_ns->nsze]: the first word of the buffer that the controller has filled. *)
Context (ns_size : Z -> D -> Z).
(** The bound on the waits for the controller, and on the loops of [run]. *)
Context (fuel : nat).

Record program : Type := mk_program { pg_parse : parse perf_vars; pg_sys : csys B D }.

Definition on_parse {A} (m : M (parse perf_vars) A) : M program A := fun s =>
  let '(r, p) := m (pg_parse s) in (r, mk_program p (pg_sys s)).
Definition on_sys {A} (m : M (csys B D) A) : M program A := fun s =>
  let '(r, c) := m (pg_sys s) in (r, mk_program (pg_parse s) c).
Definition vars_of (s : program) : perf_vars := p_vars (l_proc (pr_lib (pg_parse s))).

Definition errx {A} (msg : string) : M program A := on_parse (call (do* print_err (lit msg ++ [newline]) in exit 1)).
(** [if (m) err(1, msg);] *)
Definition or_err {A} (m : M (csys B D) A) (msg : string) : M program A :=
  let* r := try (on_sys m) in
  match r with inl _ => errx msg | inr a => ret a end.

(** Parsing and checking; whether the pattern is random. *)
Definition arguments : M program (perf_vars * bool) :=
  do* on_parse (on_lib (opt_register_table perf_table desc_null)) in
  do* on_parse (opt_parse opt_log_stderr_exit t_posix) in
  let* v := gets vars_of in
  do* (if v_show_usage v then on_parse (on_lib (opt_usage_and_exit None)) else ret tt) in
  do* (if bool_decide (default [] (v_bdf v) = []) then on_parse (on_lib (opt_usage_exit_fail (lit "missing --device parameter")))
       else ret tt) in
  do* (if (v_nsid v =? 0) || (NVME_NSID_ALL - 1 <? v_nsid v)
       then on_parse (on_lib (opt_usage_exit_fail (lit "missing or invalid --nsid parameter"))) else ret tt) in
  let random := strstarts (default [] (v_pattern v)) (lit "rand") in
  let pattern := if random then drop 4 (default [] (v_pattern v)) else default [] (v_pattern v) in
  do* (if bool_decide (pattern = lit "read") then ret tt else errx "unsupported i/o pattern") in
  do* (if v_depth v <? 1 then errx "invalid io-depth" else ret tt) in
  ret (v, random).

(** [pgmap] on the memory of the process. *)
Definition map_pages (len : Z) : M (csys B D) (Z * Z) := on_ctx (on_backend (pgmap mmap len)).

(** The controller and the namespace; the options for [run]. *)
Definition prepare (v : perf_vars) (random : bool) : M program perf_opts :=
  do* or_err (nvme_init ops mmap munmap indet NVME_AQ_QSIZE fuel None) "failed to init nvme controller" in
  let* buf := or_err (map_pages NVME_IDENTIFY_DATA_SIZE) "could not allocate aligned memory" in
  let cmd := cmd_of_identify (mk_identify NVME_ADMIN_IDENTIFY 0 0 (u32 (v_nsid v)) (dptr_prp 0 0) NVME_IDENTIFY_CNS_NS 0 0) in
  do* or_err (check (nvme_admin ops cmd (Some buf.1) buf.2 indet)) "nvme_admin" in
  let* size := on_sys (gets (fun c => u64 (ns_size buf.1 (s_dev c)))) in
  let* s := get in
  let qsize := if v_qsize v <? 0 then mqes (config (s_ctrl (pg_sys s))) + 1 else v_qsize v in
  do* (if qsize - 1 <? v_depth v then errx "io-depth must be less than io-qsize" else ret tt) in
  do* or_err (nvme_create_ioqpair ops mmap munmap indet 1 qsize (-1)) "nvme_create_ioqpair" in
  ret (mk_perf_opts (v_nsid v) (v_runtime v) (v_warmup v) (v_interval v) (v_depth v) random size freq).

(** The static variables [run] starts from. *)
Definition launch : M program (perf B) :=
  let* sq := on_sys (get_sq 1) in
  let* cq := on_sys (get_cq 1) in
  let* s := get in
  ret (mk_perf (s_ctx (pg_sys s)) (mk_qpair sq cq [] [] [] [] [] [] []) [] false 0 0 zero_stats 0 0 0).

Definition main : M program Z :=
  let* a := arguments in
  let* o := prepare a.1 a.2 in
  let* p := launch in
  match run ops o ticks rand calloc ctl fuel mem indet p with
  | (Ret _, _) => ret 0
  | (Fail _, _) => errx "failed to map"
  | (Crash, _) => crash
  end.

(** ** What the checks establish *)

Lemma never_on_parse {A} (m : M (parse perf_vars) A) : never m -> never (on_parse m).
Proof. intros Hm s x s'. unfold on_parse. destruct (m _) as [[a|e|] p] eqn:E; [by apply Hm in E|done..]. Qed.
Lemma errx_never {A} msg : never (errx (A := A) msg).
Proof. apply never_on_parse, never_on_lib, never_on_proc, never_bind. intros _. apply never_exit. Qed.

Lemma on_parse_sys {A} (m : M (parse perf_vars) A) s : pg_sys (snd (on_parse m s)) = pg_sys s.
Proof. unfold on_parse. by destruct (m (pg_parse s)). Qed.

Ltac passed G := let E := fresh in apply guard_Ret in G as [G E]; [subst|
  first [apply errx_never | apply never_on_parse, never_on_lib; first [apply usage_and_exit_never | apply usage_exit_fail_never]]].

Lemma or_err_Ret {A} (m : M (csys B D) A) msg s x s' :
  or_err m msg s = (Ret x, s') -> m (pg_sys s) = (Ret x, pg_sys s').
Proof.
  unfold or_err. intros (r & s1 & E & Hr)%bind_Ret. unfold try, on_sys in E.
  destruct (m (pg_sys s)) as [[a|e|] c]; [| |done]; injection E as <- <-; [|by apply errx_never in Hr]. by injection Hr as <- <-.
Qed.

(** A command line that is accepted names a device and a namespace, and asks for
    sequential or random reads and for one or more at a time; nothing was done to the
    controller yet. *)
Lemma arguments_checked s v random s' :
  arguments s = (Ret (v, random), s') ->
  default [] (v_bdf v) <> [] /\ v_nsid v <> 0 /\ v_nsid v <= NVME_NSID_ALL - 1 /\ 1 <= v_depth v /\
  random = strstarts (default [] (v_pattern v)) (lit "rand") /\
  (if random then drop 4 (default [] (v_pattern v)) else default [] (v_pattern v)) = lit "read" /\ pg_sys s' = pg_sys s.
Proof.
  unfold arguments. intros (? & s1 & E1 & H1)%bind_Ret. apply bind_Ret in H1 as (? & s2 & E2 & H1).
  apply bind_Ret in H1 as (v' & s3 & E3 & H1). injection E3 as <- <-.
  apply bind_Ret in H1 as (? & s3 & G1 & H1). passed G1.
  apply bind_Ret in H1 as (? & s3 & G2 & H1). passed G2.
  apply bind_Ret in H1 as (? & s3 & G3 & H1). passed G3.
  apply bind_Ret in H1 as (? & s3 & G4 & H1). apply unless_Ret in G4 as [G4 ->]; [|apply errx_never].
  apply bind_Ret in H1 as (? & s3 & G5 & H1). passed G5.
  injection H1 as <- <- <-. apply bool_decide_eq_false in G2. apply orb_false_iff in G3 as [G3 G6]. apply bool_decide_eq_true in G4.
  apply Z.eqb_neq in G3. apply Z.ltb_ge in G5, G6. split_and!; try done; try lia.
  pose proof (on_parse_sys (on_lib (opt_register_table perf_table desc_null)) s) as P1. rewrite E1 in P1.
  pose proof (on_parse_sys (opt_parse opt_log_stderr_exit t_posix) s1) as P2. rewrite E2 in P2. simpl in *. congruence.
Qed.

(** What [run] is given: the depth leaves a slot of the queue free, and the pair of
    queues is the one [nvme_create_ioqpair] made of that size. *)
Lemma prepare_checked v random s o s' :
  prepare v random s = (Ret o, s') ->
  io_depth o = v_depth v /\ random_io o = random /\ 0 <= nsze o <= UINT64_MAX /\
  exists qsize c, io_depth o <= qsize - 1 /\
    nvme_create_ioqpair ops mmap munmap indet 1 qsize (-1) c = (Ret tt, pg_sys s').
Proof.
  unfold prepare. intros (? & s1 & _ & H1)%bind_Ret. apply bind_Ret in H1 as (buf & s2 & _ & H1).
  apply bind_Ret in H1 as (? & s3 & _ & H1). apply bind_Ret in H1 as (size & s4 & E4 & H1).
  apply bind_Ret in H1 as (c & s5 & E5 & H1). injection E5 as <- <-.
  apply bind_Ret in H1 as (? & s5 & G & H1). passed G. apply bind_Ret in H1 as ([] & s6 & E6 & H1).
  injection H1 as <- <-. simpl. unfold on_sys, gets in E4. injection E4 as <- _. apply Z.ltb_ge in G.
  split; [done|]. split; [done|]. split; [pose proof (u64_range (ns_size buf.1 (s_dev (pg_sys s3)))); unfold UINT64_MAX; lia|]. eexists _, (pg_sys s4). split; [exact G|]. by apply or_err_Ret in E6.
Qed.

(** A pair as [nvme_create_ioqpair] leaves it is one that [run] can start from. *)
Lemma launch_starts s sq cq :
  ct_sq (s_ctrl (pg_sys s)) !! 1%nat = Some sq -> ct_cq (s_ctrl (pg_sys s)) !! 1%nat = Some cq ->
  qpair_fresh (mk_qpair sq cq [] [] [] [] [] [] []) ->
  exists p, launch s = (Ret p, s) /\ perf_start p /\ q_sq (qp p) = sq /\ ctx p = s_ctx (pg_sys s).
Proof.
  intros Hsq Hcq Hf. destruct s as [p c]. simpl in *. eexists. unfold launch, on_sys, get_sq, get_cq, ctrl, gets, bind, get, ret. simpl.
  rewrite Hsq. simpl. rewrite Hcq. split; [done|]. by split_and!.
Qed.
End Main.

(** ** Command lines *)

Section Lines.
#[local] Instance plain_terminal : Terminal := {| t_columns := None; t_window := None; t_posix := false |}.

(** The outcome of the checks, and the status the process ended with. *)
Definition checked (argv : list string) : outcome (perf_vars * bool) * option Z :=
  let p := mk_parse (mk_lib [] 0 0 0 None (mk_process [] [] None perf_vars0)) (lit <$> argv) 0 in
  let '(r, s) := arguments (mk_program (B := Z) (D := unit) p (mk_csys bump_ctx tt zero_ctrl ∅)) in
  (r, p_status (l_proc (pr_lib (pg_parse s)))).

Example random_reads :
  checked ["perf"; "-N"; "1"; "--io-pattern=randread"; "-d"; "0000:01:00.0"; "-q"; "4"] =
  (Ret (mk_perf_vars (Some (lit "0000:01:00.0")) false 1 10 0 1 (Some (lit "randread")) 4 (-1), true), None).
Proof. vm_compute. reflexivity. Qed.
Example writes_refused : checked ["perf"; "-N"; "1"; "-d"; "0000:01:00.0"; "-p"; "write"] = (Crash, Some 1).
Proof. vm_compute. reflexivity. Qed.
Example namespace_required : checked ["perf"; "-d"; "0000:01:00.0"] = (Crash, Some 1).
Proof. vm_compute. reflexivity. Qed.

(** The whole program, with the controller of [SoftCtrl] until the queues exist. *)
Definition perf_program (argv : list string) : outcome Z * program :=
  let p := mk_parse (mk_lib [] 0 0 0 None (mk_process [] [] None perf_vars0)) (lit <$> argv) 0 in
  main (page := page_4k) arena_ops arena_mmap arena_munmap 0 32 (fun n => Z.of_nat n) (fun n => Z.of_nat n) (fun _ => true) demo_ctl 1
    0x7f0000000000 (fun _ _ => 5) 200 (mk_program p (mk_csys arena_ctx soft0 zero_ctrl ∅)).

Example perf_program_runs : fst (perf_program ["perf"; "-d"; "0000:01:00.0"; "-N"; "1"; "-q"; "4"; "-t"; "20"]) = Ret 0.
Proof. vm_compute. reflexivity. Qed.
(** Four reads at a time do not fit a queue of four entries. *)
Example depth_refused :
  let '(r, s) := perf_program ["perf"; "-d"; "0000:01:00.0"; "-N"; "1"; "-q"; "4"; "-n"; "4"] in
  (r, p_status (l_proc (pr_lib (pg_parse s)))) = (Crash, Some 1).
Proof. vm_compute. reflexivity. Qed.
End Lines.
