(* ===== verification/DeviceTests.v ===== *)
(** * DeviceTests: the tests in tests/device/, run on a controller in software

    The programs bring a controller up through [NvmeCore], issue commands with
    [nvme_sync] and [nvme_admin], report through [Tap] and take the controller down
    again.  Here the controller of [SoftCtrl] answers them, and the runs are
    computed.  The file and line in the report of a failure are left out. *)

From Stdlib Require String.
From S2P Require Import Prelude Support Skiplist IovaAlloc VfioIova Dma CStr OptHelpers Opt OptUsage Client Tap.
From S2P Require Import NvmeTypes Prp NvmeQueue NvmeRq NvmeCtrl NvmeCore NvmeMem SoftCtrl.
Local Open Scope Z_scope.
Local Open Scope vfn_scope.

(** ** common.c *)

Record dev_vars : Type := mk_dev_vars { d_bdf : option cstr; d_nsid : Z; d_show_usage : bool }.
Definition dev_vars0 : dev_vars := mk_dev_vars None 0 false.

Definition dev_table : client_table dev_vars :=
  table_opt (flag_opt "-h|--help" d_show_usage (fun v x => mk_dev_vars (d_bdf v) (d_nsid v) x) "show usage")
  (table_opt (charp_opt "-d|--device BDF" d_bdf (fun v x => mk_dev_vars x (d_nsid v) (d_show_usage v)) "pci device")
  (table_opt (ulong_opt "-N|--nsid NSID" d_nsid (fun v x => mk_dev_vars (d_bdf v) x (d_show_usage v)) "namespace identifier")
  OPT_ENDTABLE)).

Section Tests.
Context {page : PageSize} {B D : Type} `{NvmeDevice D} `{NvmeHost D} {term : Terminal} (ops : iommu_ctx_ops B).
Context (mmap : Z -> M B Z) (munmap : Z -> Z -> M B unit) (indet NVME_AQ_QSIZE : Z) (fuel : nat).
(** The counter as a test reads it, its frequency, and what the controller does at
    each poll of a wait with a timeout. *)
Context (now freq : Z) (polls : tenv).

(** The options, the harness, the controller, and the variable [sq]. *)
Record bench : Type := mk_bench { b_parse : parse dev_vars; b_tap : tap; b_sys : csys B D; b_sq : option nat }.

Definition on_parse {A} (m : M (parse dev_vars) A) : M bench A := fun s =>
  let '(r, p) := m (b_parse s) in (r, mk_bench p (b_tap s) (b_sys s) (b_sq s)).
Definition on_tap {A} (m : M tap A) : M bench A := fun s =>
  let '(r, t) := m (b_tap s) in (r, mk_bench (b_parse s) t (b_sys s) (b_sq s)).
Definition on_sys {A} (m : M (csys B D) A) : M bench A := fun s =>
  let '(r, c) := m (b_sys s) in (r, mk_bench (b_parse s) (b_tap s) c (b_sq s)).
Definition vars_of : M bench dev_vars := gets (fun s => p_vars (l_proc (pr_lib (b_parse s)))).

(** [if (m) err(1, msg);] *)
Definition err {A} (msg : string) : M bench A := on_tap (do* put_err (lit msg ++ [newline]) in Tap.exit false 1).
Definition or_err {A} (m : M (csys B D) A) (msg : string) : M bench A :=
  let* r := try (on_sys m) in
  match r with inl _ => err msg | inr a => ret a end.

Definition ok (b : bool) (name : string) : M bench unit :=
  do* on_tap (_gen_result None b (lit "main") [] 0 (Some (Some (lit name)))) in ret tt.

Definition parse_args : M bench unit :=
  do* on_parse (on_lib (opt_register_table dev_table desc_null)) in
  do* on_parse (opt_parse opt_log_stderr_exit t_posix) in
  let* v := vars_of in
  do* (if d_show_usage v then on_parse (on_lib (opt_usage_and_exit None)) else ret tt) in
  on_parse (on_lib opt_free_table).

Definition setup : M bench unit :=
  do* parse_args in
  let* v := vars_of in
  match d_bdf v with
  | None =>
      do* on_tap (plan_skip_all (Some (lit "no test device"))) in
      on_tap (let* r := exit_status in Tap.exit false r)
  | Some _ => or_err (nvme_init ops mmap munmap indet NVME_AQ_QSIZE fuel None) "failed to init nvme controller"
  end.

Definition setup_io : M bench unit :=
  do* setup in
  do* or_err (nvme_create_ioqpair ops mmap munmap indet 1 8 (-1)) "could not create i/o queue pair" in
  modify (fun s => mk_bench (b_parse s) (b_tap s) (b_sys s) (Some 1%nat)).

Definition teardown : M bench unit :=
  let* s := get in
  do* match b_sq s with
      | Some _ => or_err (nvme_delete_ioqpair ops munmap indet 1) "could not delete io queue pair"
      | None => ret tt
      end in
  on_sys (nvme_close ops munmap).

(** ** The tests *)

(** The value [nvme_sync] returns, compared with 0. *)
Definition returned_zero (m : M (csys B D) (option errno * option nvme_cqe)) : M bench bool :=
  let* r := on_sys m in ret (bool_decide (r.1 = None)).

(** The queue of [sq]. *)
Definition on_test_sq (k : nat -> M bench bool) : M bench bool :=
  let* s := get in match b_sq s with Some q => k q | None => crash end.

Definition test_flush (nsid : Z) : M bench bool :=
  on_test_sq (fun q => returned_zero
    (nvme_sync ops q (mk_cmd nvme_cmd_flush 0 0 (u32 nsid) 0 0 0 (dptr_prp 0 0) 0 0 0 0 0 0) None 0 indet)).

(** A buffer of the process around a command. *)
Definition with_pages (len : Z) (k : Z -> Z -> M bench bool) : M bench bool :=
  let* buf := or_err (on_ctx (on_backend (pgmap mmap len))) "failed to map memory" in
  let* r := k buf.1 buf.2 in
  do* on_sys (on_ctx (on_backend (pgunmap munmap buf.1 buf.2))) in
  ret r.

Definition test_identify (cns : Z) : M bench bool :=
  with_pages NVME_IDENTIFY_DATA_SIZE (fun vaddr len =>
    let* v := vars_of in
    returned_zero (nvme_admin ops (cmd_of_identify
      (mk_identify NVME_ADMIN_IDENTIFY 0 0 (u32 (d_nsid v)) (dptr_prp 0 0) cns 0 0)) (Some vaddr) len indet)).

Definition test_io : M bench bool :=
  with_pages __VFN_PAGESIZE (fun vaddr len =>
    let* v := vars_of in
    on_test_sq (fun q => returned_zero
      (nvme_sync ops q (cmd_of_rw (mk_rw nvme_cmd_read 0 0 (u32 (d_nsid v)) 0 0 0 (dptr_prp 0 0) 0 0 0 0 0 0 0))
        (Some vaddr) len indet))).

(** One event request is posted and stays pending; a second passes without an
    entry. *)
Definition test_timeout : M bench bool :=
  do* or_err (nvme_aer 0) "could not enable aen" in
  let* s := get in
  match adminq_cq (s_ctrl (b_sys s)) with
  | None => crash
  | Some q =>
      let* cq := on_sys (get_cq q) in
      match nvme_cq_wait_cqes polls 1 (Some 1000000) now freq cq with
      | None => crash
      | Some (r, timedout, _, cq', _) => do* on_sys (put_cq q cq') in ret ((r =? 0) && timedout)
      end
  end.

Definition skip_test : M bench unit := on_tap (skip 1 (Some (lit "namespace identifier not set"))).

Definition open_main : M bench Z :=
  do* setup in
  do* on_tap (plan_tests false 1) in
  do* teardown in
  do* ok true "ok" in
  ret 0.

Definition flush_main : M bench Z :=
  do* setup_io in
  do* on_tap (plan_tests false 2) in
  let* v := vars_of in
  do* (if d_nsid v =? 0 then skip_test else let* r := test_flush (d_nsid v) in ok r "flush one") in
  do* (let* r := test_flush NVME_NSID_ALL in ok r "flush all") in
  do* teardown in
  ret 0.

Definition io_main : M bench Z :=
  do* setup_io in
  do* on_tap (plan_tests false 1) in
  let* v := vars_of in
  do* (if d_nsid v =? 0 then skip_test else let* r := test_io in ok r "io read") in
  do* teardown in
  ret 0.

Definition identify_main : M bench Z :=
  do* setup in
  do* on_tap (plan_tests false 2) in
  do* (let* r := test_identify NVME_IDENTIFY_CNS_CTRL in ok r "identify controller") in
  let* v := vars_of in
  do* (if d_nsid v =? 0 then skip_test else let* r := test_identify NVME_IDENTIFY_CNS_NS in ok r "identify namespace") in
  do* teardown in
  ret 0.

Definition timeout_main : M bench Z :=
  do* setup in
  do* on_tap (plan_tests false 1) in
  do* (let* r := test_timeout in ok r "timeout") in
  do* teardown in
  ret 0.

(** The return from [main]. *)
Definition run_main (m : M bench Z) : M bench Z := let* r := m in on_tap (Tap.exit false r).
End Tests.
Arguments mk_bench {B D}.
Arguments b_tap {B D}.
Arguments b_sys {B D}.

(** ** Runs *)

Section Runs.
#[local] Instance test_terminal : Terminal := {| t_columns := None; t_window := None; t_posix := false |}.
#[local] Existing Instance page_4k.

(** Two polls a second apart, the second past the timeout. *)
Definition test_polls : tenv := [(fun es => es, 500000); (fun es => es, 1500000)].

Definition test_bench (argv : list string) (d : soft) : bench :=
  mk_bench (mk_parse (mk_lib [] 0 0 0 None (mk_process [] [] None dev_vars0)) (lit <$> argv) 0) tap0
    (mk_csys arena_ctx d zero_ctrl ∅) None.

Fixpoint text_lines (line s : cstr) : list string :=
  match s with
  | [] => if line is [] then [] else [String.string_of_list_ascii line]
  | c :: s => if bool_decide (c = newline) then String.string_of_list_ascii line :: text_lines [] s else text_lines (line ++ [c]) s
  end.

(** The status, the report, and how much the process has left mapped: in the IOMMU
    and in its memory. *)
Definition report (m : M bench Z) (argv : list string) (d : soft) : option Z * list string * nat * nat :=
  let '(_, s) := run_main m (test_bench argv d) in
  (status (b_tap s), text_lines [] (Tap.out (b_tap s)), size (map_store (Dma.map (s_ctx (b_sys s)))), length (backend (s_ctx (b_sys s))).2).

Definition flush_test := flush_main arena_ops arena_mmap arena_munmap 0 32 10.
Definition io_test := io_main arena_ops arena_mmap arena_munmap 0 32 10.
Definition identify_test := identify_main arena_ops arena_mmap arena_munmap 0 32 10.
Definition open_test := open_main arena_ops arena_mmap arena_munmap 0 32 10.
Definition timeout_test := timeout_main arena_ops arena_mmap arena_munmap 0 32 10 0 1000000 test_polls.

Definition argv1 (name : string) : list string := [name; "-d"; "0000:01:00.0"; "-N"; "1"].

(** On the controller in software every test passes and leaves nothing mapped;
    without a namespace or a device the tests that need one are skipped. *)
Lemma device_tests_pass :
  report open_test (argv1 "open") soft0 = (Some 0, ["1..1"; "ok 1 - ok"], 0%nat, 0%nat) /\
  report flush_test (argv1 "flush") soft0 = (Some 0, ["1..2"; "ok 1 - flush one"; "ok 2 - flush all"], 0%nat, 0%nat) /\
  report io_test (argv1 "io") soft0 = (Some 0, ["1..1"; "ok 1 - io read"], 0%nat, 0%nat) /\
  report identify_test (argv1 "identify") soft0 =
    (Some 0, ["1..2"; "ok 1 - identify controller"; "ok 2 - identify namespace"], 0%nat, 0%nat) /\
  report timeout_test (argv1 "timeout") soft0 = (Some 0, ["1..1"; "ok 1 - timeout"], 0%nat, 0%nat) /\
  report io_test ["io"; "-d"; "0000:01:00.0"] soft0 =
    (Some 0, ["1..1"; "ok 1 # skip namespace identifier not set"], 0%nat, 0%nat) /\
  report flush_test ["flush"] soft0 = (Some 0, ["1..0 # Skip no test device"], 0%nat, 0%nat).
Proof. vm_compute. repeat split. Qed.

(** So too with shadow doorbells. *)
Lemma device_tests_dbbuf :
  report flush_test (argv1 "flush") (soft_with_dbbuf soft0) =
    (Some 0, ["1..2"; "ok 1 - flush one"; "ok 2 - flush all"], 0%nat, 0%nat).
Proof. vm_compute. reflexivity. Qed.

(** A command that is refused fails its test, and the programs return 0 all the
    same: the failure is in the report alone. *)
Lemma failed_test_returns_zero :
  report flush_test (argv1 "flush") (soft_refusing 1 nvme_cmd_flush soft0) =
    (Some 0, ["1..2"; "not ok 1 - flush one"; "#     Failed test (:main() at line 0)"; "not ok 2 - flush all";
              "#     Failed test (:main() at line 0)"; "# Looks like you failed 2 tests of 2."], 0%nat, 0%nat).
Proof. vm_compute. reflexivity. Qed.

(** A queue pair that is refused ends the test before its plan. *)
Lemma refused_pair_ends_test :
  (report flush_test (argv1 "flush") (soft_refusing 0 NVME_ADMIN_CREATE_SQ soft0)).1.1 = (Some 1, []).
Proof. vm_compute. reflexivity. Qed.
End Runs.
