(* ===== verification/IoExample.v ===== *)
(** * IoExample: examples/io.c

    One read or write through a queue pair, with the data described by PRP entries
    or scatter/gather descriptors, in one piece or in two, by virtual or by I/O
    address.  The program is run on the controller of [SoftCtrl] with each of its
    options. *)

From Stdlib Require String.
From S2P Require Import Prelude Support Skiplist IovaAlloc VfioIova Dma CStr Io OptHelpers Opt OptUsage Client.
From S2P Require Import NvmeTypes Prp NvmeQueue NvmeRq DataPath NvmeCtrl NvmeCore NvmeMem SoftCtrl.
Local Open Scope Z_scope.
Local Open Scope vfn_scope.

(** ** Options *)

Record io_vars : Type := mk_io_vars {
  io_bdf : option cstr;
  io_show_usage : bool;
  op_iova : bool;
  io_nsid : Z;
  op_write : bool;
  op_read : bool;
  op_sgl : bool;
  op_same_iova : bool;
  op_vector : bool;
  op_len : Z
}.
Definition io_vars0 : io_vars := mk_io_vars (Some []) false false 0 false false false false false 0.

Section Setters.
Context (v : io_vars).
Definition set_io_bdf x := mk_io_vars x (io_show_usage v) (op_iova v) (io_nsid v) (op_write v) (op_read v) (op_sgl v) (op_same_iova v) (op_vector v) (op_len v).
Definition set_io_usage x := mk_io_vars (io_bdf v) x (op_iova v) (io_nsid v) (op_write v) (op_read v) (op_sgl v) (op_same_iova v) (op_vector v) (op_len v).
Definition set_op_iova x := mk_io_vars (io_bdf v) (io_show_usage v) x (io_nsid v) (op_write v) (op_read v) (op_sgl v) (op_same_iova v) (op_vector v) (op_len v).
Definition set_io_nsid x := mk_io_vars (io_bdf v) (io_show_usage v) (op_iova v) x (op_write v) (op_read v) (op_sgl v) (op_same_iova v) (op_vector v) (op_len v).
Definition set_op_write x := mk_io_vars (io_bdf v) (io_show_usage v) (op_iova v) (io_nsid v) x (op_read v) (op_sgl v) (op_same_iova v) (op_vector v) (op_len v).
Definition set_op_read x := mk_io_vars (io_bdf v) (io_show_usage v) (op_iova v) (io_nsid v) (op_write v) x (op_sgl v) (op_same_iova v) (op_vector v) (op_len v).
Definition set_op_sgl x := mk_io_vars (io_bdf v) (io_show_usage v) (op_iova v) (io_nsid v) (op_write v) (op_read v) x (op_same_iova v) (op_vector v) (op_len v).
Definition set_op_same x := mk_io_vars (io_bdf v) (io_show_usage v) (op_iova v) (io_nsid v) (op_write v) (op_read v) (op_sgl v) x (op_vector v) (op_len v).
Definition set_op_vector x := mk_io_vars (io_bdf v) (io_show_usage v) (op_iova v) (io_nsid v) (op_write v) (op_read v) (op_sgl v) (op_same_iova v) x (op_len v).
Definition set_op_len x := mk_io_vars (io_bdf v) (io_show_usage v) (op_iova v) (io_nsid v) (op_write v) (op_read v) (op_sgl v) (op_same_iova v) (op_vector v) x.
End Setters.

(** [opts_base] of examples/common.c and the options of the program. *)
Definition io_table : client_table io_vars :=
  table_sub
    (table_opt (flag_opt "-h|--help" io_show_usage set_io_usage "show usage")
    (table_opt (charp_opt "-d|--device BDF" io_bdf set_io_bdf "pci device") OPT_ENDTABLE)) desc_null
  (table_opt (flag_opt "-i|--iova" op_iova set_op_iova "use iova based vector operation")
  (table_opt (ulong_opt "-N|--nsid" io_nsid set_io_nsid "namespace identifier")
  (table_opt (flag_opt "-w|--write" op_write set_op_write "perform a write")
  (table_opt (flag_opt "-r|--read" op_read set_op_read "perform a read")
  (table_opt (flag_opt "-s|--sgl" op_sgl set_op_sgl "use sgls in operation")
  (table_opt (flag_opt "-S|--same-iova" op_same_iova set_op_same "use memory with the same iova")
  (table_opt (flag_opt "-v|--vector" op_vector set_op_vector "use a vectored operation")
  (table_opt (uint_bi_opt "-z|--size" op_len set_op_len "size of operation")
  OPT_ENDTABLE)))))))).

Definition STDIN_FILENO : Z := 0.
Definition STDOUT_FILENO : Z := 1.

(** ** The data pointer *)

(** The segments, from the address of the buffer: its second half before its
    first. *)
Definition segments (vector : bool) (base io_sz : Z) : list (Z * Z) :=
  if vector then [(base + io_sz / 2, io_sz / 2); (base, io_sz / 2)] else [(base, io_sz)].

(** The tracker's page as descriptors; the reserved bytes are cleared with it. *)
Fixpoint sglds_of (page : list Z) : list nvme_sgld :=
  match page with
  | a :: w :: page => mk_sgld a (Z.land w 0xffffffff) (Z.shiftr w 56) :: sglds_of page
  | _ => []
  end.
Definition words_of_sglds (l : list nvme_sgld) : list Z := l ≫= fun d => [sg_addr d; Z.lor (sg_len d) (Z.shiftl (sg_type d) 56)].

Section Describe.
Context {B : Type} (c : iommu_ctx B) (mps ctrl_flags : Z) (rq : nvme_rq) (page : list Z) (v : io_vars) (vaddr iova io_sz : Z).

Definition iov : list iovec := (fun x => mk_iovec x.1 x.2) <$> segments (op_vector v) vaddr io_sz.
Definition iovav : list iova_vec := (fun x => mk_iova_vec x.1 x.2) <$> segments (op_vector v) iova io_sz.

(** The outcome, the flags of the command, its data pointer and the page. *)
Definition describe : outcome unit * (Z * nvme_dptr * list Z) :=
  if op_sgl v then
    let '(r, (fl, d, seg)) :=
      if op_iova v then nvme_rq_mapv_iova_sgl mps ctrl_flags rq (sglds_of page) 0 (dptr_prp 0 0) iovav
      else nvme_rq_mapv_sgl c mps ctrl_flags rq (sglds_of page) 0 (dptr_prp 0 0) iov in
    (r, (fl, d, words_of_sglds seg))
  else
    let '(r, (d, page)) :=
      if op_vector v then
        if op_iova v then nvme_rq_mapv_iova_prp c mps rq page (0, 0) iovav else nvme_rq_mapv_prp c mps rq page (0, 0) iov
      else nvme_rq_map_prp c mps rq page (0, 0) iova io_sz in
    (r, (0, dptr_prp d.1 d.2, page)).
End Describe.

(** PRP entries: the controller finds the segments, in their order, whether they
    were given by virtual or by I/O address. *)
Section DescribePrp.
Context {B : Type} (c : iommu_ctx B) (ctrl_flags : Z) (rq : nvme_rq) (page : list Z) (v : io_vars) (vaddr iova base : Z).
Context (Hpage : length page = 512%nat) (Hlist : iommu_translate_vaddr c (rq_page_vaddr rq) = Some base).
Context (Hbase : 0 <= base <= 0x10000000000000000 - 0x1000) (Hbasemod : base mod 0x1000 = 0).

Lemma describe_pieces :
  op_sgl v = false -> op_vector v = true -> mapped_at c vaddr iova 0x2000 ->
  iova mod 0x1000 = 0 -> 0 <= iova -> iova + 0x2000 <= 0x10000000000000000 ->
  exists prp2 page', describe c 0 ctrl_flags rq page v vaddr iova 0x2000 = (Ret tt, (0, dptr_prp (iova + 0x1000) prp2, page')) /\
    describes [mk_iovec (iova + 0x1000) 0x1000; mk_iovec iova 0x1000]
      (device_prps (read_lists page' base) 0x1000 512 (iova + 0x1000) prp2 0x2000).
Proof.
  intros Hs Hv Hm Hmod H0 Hend.
  destruct (mapv_describes_segments c 0 (rq_page_vaddr rq) page 1 (0, 0) (mk_iova_vec (iova + 0x1000) 0x1000) [mk_iova_vec iova 0x1000] base)
    as (prp2 & page' & Hrun & Hd); [lia|lia|by rewrite Hpage|done|lia|exact Hbasemod|change (Z.shiftl 1 (__mps_to_pageshift 0)) with 0x1000; lia| | |].
  { unfold vec_shape. change (Z.shiftl 1 (__mps_to_pageshift 0)) with 0x1000. simpl. split_and!; try lia; try done.
    - right. rewrite <- Z.add_assoc, Z.add_mod, Hmod by lia. done.
    - by left. }
  { unfold after_first. change (Z.shiftl 1 (__mps_to_pageshift 0)) with 0x1000. cbn [iv_iova iv_len fmap list_fmap total foldr iov_len].
    rewrite <- Zplus_mod_idemp_l, Hmod. vm_compute. discriminate. }
  exists prp2, page'. split; [|exact Hd]. unfold describe, iov, iovav. rewrite Hs, Hv. cbn [segments fmap list_fmap fst snd].
  change (0x2000 / 2) with 0x1000. unfold nvme_rq_mapv_prp, nvme_rq_mapv_iova_prp.
  rewrite (mapv_located c 0 _ page 1 (0, 0) _ (mk_iova_vec (iova + 0x1000) 0x1000) _ [mk_iova_vec iova 0x1000] base), Hrun; [by destruct (op_iova v)| |done].
  repeat constructor; simpl; try lia; intros k Hk; [rewrite <- !Z.add_assoc|]; apply Hm; lia.
Qed.

Lemma describe_whole :
  op_sgl v = false -> op_vector v = false -> 0 <= iova -> iova + 0x1000 <= 0x10000000000000000 ->
  exists prp1 prp2 page', describe c 0 ctrl_flags rq page v vaddr iova 0x1000 = (Ret tt, (0, dptr_prp prp1 prp2, page')) /\
    consecutive iova 0x1000 (device_prps (read_lists page' base) 0x1000 512 prp1 prp2 0x1000).
Proof.
  intros Hs Hv H0 Hend. unfold describe. rewrite Hs, Hv. unfold nvme_rq_map_prp.
  pose proof (map_prp_device c 0 (rq_page_vaddr rq) page 1 (0, 0) iova 0x1000 base) as H. cbv zeta in H.
  change (Z.shiftl 1 (__mps_to_pageshift 0)) with 0x1000 in H.
  specialize (H ltac:(lia) ltac:(lia) ltac:(by rewrite Hpage) Hlist ltac:(lia) Hbasemod ltac:(lia) H0 ltac:(lia) ltac:(lia) Hend).
  destruct (nvme_map_prp _ _ _ _ _ _ _ _) as [[[]|e|] [[prp1 prp2] page']]; [| |done].
  - exists prp1, prp2, page'. split; [done|]. apply H, read_lists_reads.
  - exfalso. destruct H as [_ Hc]. change (__prplist_capacity 1 (Z.shiftl 1 (__mps_to_pageshift 0 - 3))) with 512 in Hc.
    pose proof (Z.mod_pos_bound iova 0x1000 ltac:(lia)). unfold pages_for in Hc. revert Hc.
    rewrite Z2Nat.id by (apply Z.div_pos; lia). apply Z.le_ngt, Z.div_le_upper_bound; lia.
Qed.
End DescribePrp.

(** ** The program *)

Section Program.
Context {page : PageSize} {B D F : Type} `{NvmeDevice D} `{NvmeHost D} `{Files F} {term : Terminal} (ops : iommu_ctx_ops B).
Context (mmap : Z -> M B Z) (mmap_fixed : Z -> Z -> M B Z) (munmap : Z -> Z -> M B unit) (indet NVME_AQ_QSIZE : Z) (fuel : nat).
(** The memory of the process, which the controller reads and writes. *)
Context (load : Z -> Z -> D -> list ascii) (store : Z -> list ascii -> D -> D).

Record io_program : Type := mk_io { i_parse : parse io_vars; i_sys : csys B D; i_files : F }.

Definition on_parse {A} (m : M (parse io_vars) A) : M io_program A := fun s =>
  let '(r, p) := m (i_parse s) in (r, mk_io p (i_sys s) (i_files s)).
Definition on_sys {A} (m : M (csys B D) A) : M io_program A := fun s =>
  let '(r, c) := m (i_sys s) in (r, mk_io (i_parse s) c (i_files s)).
Definition on_files {A} (m : M F A) : M io_program A := fun s =>
  let '(r, f) := m (i_files s) in (r, mk_io (i_parse s) (i_sys s) f).

Definition print_log (msg : cstr) : M io_program unit := on_parse (call (print_err (msg ++ [newline]))).
Definition err {A} (msg : string) : M io_program A := on_parse (call (do* print_err (lit msg ++ [newline]) in exit 1)).
Definition or_err {A} (m : M io_program A) (msg : string) : M io_program A :=
  let* r := try m in match r with inl _ => err msg | inr a => ret a end.

Definition arguments : M io_program io_vars :=
  do* on_parse (on_lib (opt_register_table io_table desc_null)) in
  do* on_parse (opt_parse opt_log_stderr_exit t_posix) in
  let* v := gets (fun s => p_vars (l_proc (pr_lib (i_parse s)))) in
  do* (if io_show_usage v then on_parse (on_lib (opt_usage_and_exit None)) else ret tt) in
  do* (if bool_decide (default [] (io_bdf v) = []) then on_parse (on_lib (opt_usage_exit_fail (lit "missing --device parameter")))
       else ret tt) in
  do* (if Bool.eqb (op_write v) (op_read v) then on_parse (on_lib (opt_usage_exit_fail (lit "specify one of -r or -w"))) else ret tt) in
  do* on_parse (on_lib opt_free_table) in
  ret v.

(** The buffer: its address and its I/O address.  [mmap] is not checked: what it
    returns on failure is used as an address. *)
Definition buffer (v : io_vars) (io_sz : Z) : M io_program (Z * Z) :=
  if op_same_iova v then
    let msg := "unable to allocate memory with same address as the iova" in
    let* r := or_err (on_sys (on_ctx (iommu_alloc_same_iova ops mmap_fixed munmap fuel io_sz indet))) msg in
    match r with Some vaddr => ret (vaddr, vaddr) | None => crash end
  else
    let* r := try (on_sys (on_ctx (on_backend (mmap io_sz)))) in
    let vaddr := match r with inr vaddr => vaddr | inl _ => MAP_FAILED end in
    let* iova := or_err (on_sys (on_ctx (iommu_map_vaddr ops vaddr io_sz (Some indet) 0 indet))) "failed to reserve iova" in
    ret (vaddr, iova).

(** [nvme_rq_exec] and [nvme_rq_spin] on the I/O queue. *)
Definition execute (rq : nvme_rq) (cmd : nvme_cmd) : M (csys B D) unit :=
  do* on_sq 1 (modify (nvme_rq_exec rq cmd)) in
  let* sq := get_sq 1 in
  let* cq := get_cq (sq_cq sq) in
  let* e := on_dev (fun d => let '(e, d') := dev_run sq cq d in (Ret e, d')) in
  match nvme_rq_spin e rq cq with
  | None => crash
  | Some (r, _, cq', _) => do* put_cq (sq_cq sq) cq' in fun s => (r, s)
  end.

Definition map_message (v : io_vars) : string :=
  if op_sgl v then "could not map sgls" else if op_vector v then "could not map vectored prps" else "could not map prps".

(** The command, on a tracker [i] of the queue. *)
Definition transfer (v : io_vars) (vaddr iova io_sz : Z) (i : nat) : M io_program unit :=
  let* sq := on_sys (get_sq 1) in
  match rqs sq !! i with
  | None => crash
  | Some rq =>
      let* s := get in
      let c := s_ctrl (i_sys s) in
      let page := page_contents (__mps_to_pagesize (mps (config c))) (rq_page_vaddr rq) (s_pages (i_sys s)) in
      let '(r, (fl, d, page')) := describe (s_ctx (i_sys s)) (mps (config c)) (ct_flags c) rq page v vaddr iova io_sz in
      do* on_sys (modify (fun c => mk_csys (s_ctx c) (s_dev c) (s_ctrl c) (<[rq_page_vaddr rq := page']> (s_pages c)))) in
      do* or_err (fun s => (r, s)) (map_message v) in
      let cmd := cmd_of_rw (mk_rw (if op_write v then nvme_cmd_write else nvme_cmd_read) fl 0 (u32 (io_nsid v)) 0 0 0 d 0
        (if op_vector v then 15 else 0) 0 0 0 0 0) in
      or_err (on_sys (execute rq cmd)) "nvme_rq_poll"
  end.

Definition io_opts : nvme_ctrl_opts := mk_opts 63 63 0.

Definition io_example : M io_program Z :=
  let* v := arguments in
  let io_sz := if op_vector v || op_sgl v then 0x2000 else 0x1000 in
  do* or_err (on_sys (nvme_init ops mmap munmap indet NVME_AQ_QSIZE fuel (Some io_opts))) "failed to init nvme controller" in
  do* or_err (on_sys (nvme_create_ioqpair ops mmap munmap indet 1 64 (-1))) "could not create io queue pair" in
  let* (vaddr, iova) := buffer v io_sz in
  do* (if op_write v then
         do* print_log (lit "reading payload") in
         let* bs := or_err (on_files (readmaxfd fuel STDIN_FILENO io_sz)) "could not read fd" in
         do* on_sys (on_dev (modify (store vaddr bs))) in
         print_log (lit "read " ++ print_int (Z.of_nat (length bs)) ++ lit " bytes")
       else ret tt) in
  let* r := try (on_sys (on_sq 1 nvme_rq_acquire)) in
  match r with
  | inl _ => crash
  | inr i =>
      do* transfer v vaddr iova io_sz i in
      do* (if op_read v then
             do* print_log (lit "writing payload") in
             let* s := get in
             let bs := load vaddr io_sz (s_dev (i_sys s)) in
             let* n := or_err (on_files (writeallfd fuel STDOUT_FILENO bs)) "could not write fd" in
             print_log (lit "wrote " ++ print_int n ++ lit " bytes")
           else ret tt) in
      do* on_sys (on_sq 1 (modify (nvme_rq_release i))) in
      do* on_sys (nvme_close ops munmap) in
      ret 0
  end.
End Program.

(** ** Runs *)

Section Runs.
#[local] Instance io_terminal : Terminal := {| t_columns := None; t_window := None; t_posix := false |}.
#[local] Existing Instance page_4k.
#[local] Existing Instance pipe_files.

Definition fixed_mmap (a len : Z) : M arena Z := fun b => (Ret a, (b.1, (a, len) :: b.2)).

(** The address and length of the buffer the process has left, the I/O command, and
    the segments it describes to the controller.  I/O addresses are 64 KiB above
    those of the process here. *)
Definition io_run (args : list string) : outcome Z * option Z * list (Z * Z) * list (nvme_cmd * list (Z * Z)) :=
  let p := mk_parse (mk_lib [] 0 0 0 None (mk_process [] [] None io_vars0)) (lit <$> ["io"; "-d"; "0000:01:00.0"; "-N"; "1"] ++ args) 0 in
  let '(r, s) := io_example arena_ops arena_mmap fixed_mmap arena_munmap 0 32 (Z.to_nat 20000)
    (fun _ len _ => replicate (Z.to_nat len) "."%char) (fun _ _ d => d)
    (mk_io p (mk_csys arena_ctx soft0 zero_ctrl ∅) (mk_pipe (replicate (Z.to_nat 0x2000) "x"%char) [] [])) in
  let decode (c : nvme_cmd) :=
    if NVME_FIELD_GET (flags c) CMD_FLAGS_PSDT =? NVME_CMD_FLAGS_PSDT_PRP then
      match dptr c with dptr_prp p1 p2 => device_prps (fun _ => 0) 0x1000 512 p1 p2 (if cdw12 c =? 15 then 0x2000 else 0x1000) | dptr_sgl _ => [] end
    else
      let page := match dptr c with dptr_sgl d => default [] (s_pages (i_sys s) !! (sg_addr d - 0x10000)) | dptr_prp _ _ => [] end in
      device_sgl (dptr c) (sglds_of page) in
  (r, p_status (l_proc (pr_lib (i_parse s))), (backend (s_ctx (i_sys s))).2,
   (fun x => (x.2, decode x.2)) <$> filter (fun x => x.1 = 1) (soft_seen (s_dev (i_sys s)))).

Definition io_command (op fl nlb : Z) (d : nvme_dptr) : nvme_cmd := mk_cmd op fl 62 1 0 0 0 d 0 0 nlb 0 0 0.

(** In one piece, and in two with lists: the controller finds the segments, and the
    buffer of the process is the one of its size. *)
Lemma io_runs :
  io_run ["-r"] = (Ret 0, None, [(0x65000, 0x1000)], [(io_command 2 0 0 (dptr_prp 0x75000 0), [(0x75000, 0x1000)])]) /\
  io_run ["-w"; "-v"] = (Ret 0, None, [(0x65000, 0x2000)],
    [(io_command 1 0 15 (dptr_prp 0x76000 0x75000), [(0x76000, 0x1000); (0x75000, 0x1000)])]) /\
  io_run ["-r"; "-v"; "-i"] = (Ret 0, None, [(0x65000, 0x2000)],
    [(io_command 2 0 15 (dptr_prp 0x76000 0x75000), [(0x76000, 0x1000); (0x75000, 0x1000)])]) /\
  io_run ["-r"; "-w"] = (Crash, Some 1, [], []).
Proof. vm_compute. repeat split. Qed.

(** With descriptors, in two pieces, also by I/O address and with memory at its own
    I/O address. *)
Lemma io_runs_sgl :
  io_run ["-r"; "-v"; "-s"] = (Ret 0, None, [(0x65000, 0x2000)],
    [(io_command 2 0x40 15 (dptr_sgl (mk_sgld 0x72000 32 0x30)), [(0x76000, 0x1000); (0x75000, 0x1000)])]) /\
  io_run ["-r"; "-v"; "-s"; "-i"; "-S"] = (Ret 0, None, [(0x2000000000, 0x2000)],
    [(io_command 2 0x40 15 (dptr_sgl (mk_sgld 0x72000 32 0x30)), [(0x2000001000, 0x1000); (0x2000000000, 0x1000)])]).
Proof. vm_compute. repeat split. Qed.

(** With a descriptor and in one piece the command says that its data pointer is
    PRP entries, which it is not; it asks for one block, of the two pages of the
    buffer. *)
Lemma sgl_alone_misread :
  io_run ["-r"; "-s"] = (Ret 0, None, [(0x65000, 0x2000)], [(io_command 2 0 0 (dptr_sgl (mk_sgld 0x75000 0x2000 0)), [])]).
Proof. vm_compute. reflexivity. Qed.
End Runs.
