(* ===== verification/QueuePath.v ===== *)
(** * QueuePath: what a controller reaches through the queues of a driver

    The memory of queues ([NvmeMem]) over a backend with the kernel's table
    ([VfioDma], [Iommufd]) and the memory of the process beside it: a controller
    that follows the I/O addresses of the queues through the table of the IOMMU
    arrives at their rings and list pages, and nowhere else. *)

From S2P Require Import Prelude Support CStr Io Pci Skiplist IovaAlloc VfioIova Dma VfioDma Iommufd NvmeTypes.
From S2P Require Import Prp NvmeQueue NvmeRq DataPath NvmeCtrl NvmeCore NvmeMem.
Local Open Scope Z_scope.
Local Open Scope vfn_scope.

(** ** The memory of the process beside a backend *)

(** [mmap] and [munmap] of anonymous memory: a new region shares no address with
    those handed out before. *)
Class Memory (Mm : Type) : Type := {
  mm_mmap : Z -> M Mm Z;
  mm_munmap : Z -> Z -> M Mm unit;
  mm_live : Mm -> list (Z * Z);
  mm_mmap_law l b v b' :
    mm_mmap l b = (Ret v, b') ->
    0 < l /\ 0 < v /\ v + l <= UINT64_MAX /\ Forall (fun r => v + l <= r.1 \/ r.1 + r.2 <= v) (mm_live b) /\
    mm_live b' = (v, l) :: mm_live b;
  mm_mmap_fail l b e b' : mm_mmap l b = (Fail e, b') -> mm_live b' = mm_live b;
  mm_munmap_law v l b b' r : mm_munmap v l b = (Ret tt, b') -> r ∈ mm_live b -> r <> (v, l) -> r ∈ mm_live b'
}.

Section Beside.
Context {B Mm : Type} `{Memory Mm} (ops : iommu_ctx_ops B).

Definition on_1 {A} (m : M B A) : M (B * Mm) A := fun s => let '(r, b) := m s.1 in (r, (b, s.2)).
Definition on_2 {A} (m : M Mm A) : M (B * Mm) A := fun s => let '(r, x) := m s.2 in (r, (s.1, x)).

Definition beside : iommu_ctx_ops (B * Mm) := {|
  iova_reserve := (fun f len flags => on_1 (f len flags)) <$> iova_reserve ops;
  iova_reserve_align := (fun f len align flags => on_1 (f len align flags)) <$> iova_reserve_align ops;
  iova_put_ephemeral := on_1 <$> iova_put_ephemeral ops;
  dma_map := fun vaddr len iova flags => on_1 (dma_map ops vaddr len iova flags);
  dma_unmap := fun iova len => on_1 (dma_unmap ops iova len);
  dma_unmap_all := on_1 <$> dma_unmap_all ops
|}.
Definition mmap_2 (len : Z) : M (B * Mm) Z := on_2 (mm_mmap len).
Definition munmap_2 (v len : Z) : M (B * Mm) unit := on_2 (mm_munmap v len).

Lemma on_1_bind {A C} (m : M B A) (k : A -> M B C) s : on_1 (bind m k) s = bind (on_1 m) (fun a => on_1 (k a)) s.
Proof. unfold on_1, bind. by destruct (m s.1) as [[a|e|] b]. Qed.
Lemma on_1_ret {A} (a : A) s : on_1 (ret a) s = ret a s.
Proof. by destruct s. Qed.

Lemma beside_map vaddr len iova flags indet s :
  backend_map beside vaddr len iova flags indet s = on_1 (backend_map ops vaddr len iova flags indet) s.
Proof.
  unfold backend_map. rewrite on_1_bind. apply bind_ext. destruct (flag_set _ _).
  - destruct iova; [by rewrite on_1_ret|by destruct s].
  - simpl. destruct (iova_reserve ops); [done|by rewrite on_1_ret].
Qed.
Lemma beside_unmap m s : backend_unmap beside m s = on_1 (backend_unmap ops m) s.
Proof.
  unfold backend_unmap. rewrite on_1_bind. unfold bind. simpl. destruct (on_1 _ s) as [[a|e|] s1]; [|done..].
  destruct (iova_put_ephemeral ops); simpl; [|by rewrite on_1_ret].
  unfold when. destruct (flag_set _ _); [done|by rewrite on_1_ret].
Qed.

#[export] Instance beside_memory : ProcessMemory beside mmap_2 munmap_2.
Proof.
  refine {| live s := mm_live s.2 |}.
  - intros l [b x] v s' E. unfold mmap_2, on_2 in E. simpl in *. destruct (mm_mmap l x) as [r x'] eqn:Em.
    injection E as -> <-. by apply mm_mmap_law.
  - intros l [b x] e s' E. unfold mmap_2, on_2 in E. simpl in *. destruct (mm_mmap l x) as [r x'] eqn:Em.
    injection E as -> <-. by eapply mm_mmap_fail.
  - intros v l [b x] s' r E. unfold munmap_2, on_2 in E. simpl in *. destruct (mm_munmap v l x) as [r' x'] eqn:Em.
    injection E as -> <-. by apply mm_munmap_law.
  - intros vaddr len iova flags indet s. rewrite beside_map. unfold on_1. by destruct (backend_map _ _ _ _ _ _ _).
  - intros m s. rewrite beside_unmap. unfold on_1. by destruct (backend_unmap _ _ _).
Defined.

(** The contract of the backend, whatever the memory does. *)
#[export] Instance beside_kept `{!BackendLaws ops} : Kept beside mmap_2 munmap_2 (fun s ms => binv s.1 ms).
Proof.
  split.
  - intros s ms ms' Hp. by rewrite Hp.
  - intros l [b x] v s' ms. unfold mmap_2, on_2. simpl. destruct (mm_mmap l x). by intros [= _ <-].
  - intros v l [b x] s' ms. unfold munmap_2, on_2. simpl. destruct (mm_munmap v l x). by intros [= _ <-].
  - intros s ms vaddr len iova flags indet i s' Hb Hl Hf. rewrite beside_map. unfold on_1.
    pose proof (law_map s.1 ms vaddr len iova flags indet Hb Hl Hf) as Hm.
    destruct (backend_map ops _ _ _ _ _ _) as [[j|e|] b']; by intros [= <- <-].
  - intros s ms vaddr len iova flags indet e s' Hb Hl Hf. rewrite beside_map. unfold on_1.
    pose proof (law_map s.1 ms vaddr len iova flags indet Hb Hl Hf) as Hm.
    destruct (backend_map ops _ _ _ _ _ _) as [[j|e'|] b']; by intros [= <- <-].
  - intros s m ms s' Hb. rewrite beside_unmap. unfold on_1. pose proof (law_unmap s.1 m ms Hb) as Hu.
    destruct (backend_unmap ops m s.1) as [[[]|e|] b']; by intros [= <-].
Qed.
End Beside.

(** ** Queues and the table of the IOMMU *)

Section Reach.
Context {page : PageSize} {B Mm D : Type} `{Memory Mm} `{NvmeDevice D} `{NvmeHost D}.
Context (ops : iommu_ctx_ops B) `{!BackendLaws ops} (indet : Z).
(** The table the kernel keeps for the backend. *)
Context (table : B -> list (Z * Z * Z)) (Htable : forall b ms, binv b ms -> table b ≡ₚ m_entry <$> ms).

Lemma queues_reached rands b mem (s s' : csys (B * Mm) D) g :
  binv b [] -> s_ctx s = iommu_ctx_init rands (b, mem) -> rtc (qstep (beside ops) mmap_2 munmap_2 indet) (s, no_queues) (s', g) ->
  let t := table (backend (s_ctx s')).1 in
  (forall buf k, buf ∈ owned g (s_ctrl s') ++ b_lost g -> 0 <= k < buf_len buf ->
     iommu_walk t (buf_iova buf + k) = Some (buf_vaddr buf + k)) /\
  (forall a v, iommu_walk t a = Some v ->
     exists buf k, buf ∈ owned g (s_ctrl s') ++ b_lost g /\ 0 <= k < buf_len buf /\ a = buf_iova buf + k /\ v = buf_vaddr buf + k).
Proof using Htable.
  intros Hb Hctx Hrtc t.
  destruct (reachable_ledger (beside ops) mmap_2 munmap_2 indet (fun s ms => binv s.1 ms) s (s', g) []) as (ms & [_ HP] & Hp).
  - rewrite Hctx. split; [|done]. split; [apply empty_map_ok|constructor].
  - done.
  - simpl in Hp, HP. pose proof (Htable _ _ HP) as Ht. fold t in Ht. destruct (binv_iova _ _ HP) as [Hap _]. split.
    + intros buf k Hbuf Hk. rewrite <- Hp in Hbuf. apply list_elem_of_fmap in Hbuf as (m & -> & Hm). simpl in *.
      rewrite (walk_unique t (m_iova m) (m_len m) (m_vaddr m)); [f_equal; lia|by rewrite Ht, <- list_fmap_compose| |lia].
      rewrite Ht. by apply (list_elem_of_fmap_2 m_entry).
    + intros a v Hw. unfold iommu_walk in Hw. apply fmap_Some in Hw as (e & Hf & ->).
      apply List.find_some in Hf as [Hin%list_elem_of_In Ha]. apply andb_true_iff in Ha as [Ha1%Z.leb_le Ha2%Z.ltb_lt].
      rewrite Ht in Hin. apply list_elem_of_fmap in Hin as (m & -> & Hm). simpl in *.
      exists (m_buf m), (a - m_iova m). rewrite <- Hp. split; [by apply list_elem_of_fmap_2|]. simpl. lia.
Qed.
End Reach.

Section Vfio.
Context {page : PageSize} {K Mm D : Type} {kernel : VfioKernel K} `{Memory Mm} `{NvmeDevice D} `{NvmeHost D} (indet : Z).

(** C5. From the registers and commands that give a controller its queues to the
    memory of the process.  On a vfio container just set up (with no range up to
    the last byte of the address space), through any
    sequence of configurations and discards of queues, of commands that create
    and delete them (failing or refused, on queues configured already or not;
    only a queue whose configuration failed is not discarded) and of other
    commands without data, the table of the kernel's IOMMU leads the controller
    from every I/O address of a configured queue (of its ring, and of the list
    pages of its trackers) to the byte of that queue's memory, likewise from the
    I/O addresses of the buffers the code forgot when it configured a queue
    again, and from no other I/O address anywhere: a queue is reached for as long
    as it is configured, and a discarded one no more. *)
Theorem controller_reaches_queues ranges rands b mem (s s' : csys (vfio_backend K * Mm) D) g :
  vfio_fresh ranges b -> s_ctx s = iommu_ctx_init rands (b, mem) -> rtc (qstep (beside vfio_ops) mmap_2 munmap_2 indet) (s, no_queues) (s', g) ->
  let t := k_table (vb_kernel (backend (s_ctx s')).1) in
  (forall buf k, buf ∈ owned g (s_ctrl s') ++ b_lost g -> 0 <= k < buf_len buf ->
     iommu_walk t (buf_iova buf + k) = Some (buf_vaddr buf + k)) /\
  (forall a v, iommu_walk t a = Some v ->
     exists buf k, buf ∈ owned g (s_ctrl s') ++ b_lost g /\ 0 <= k < buf_len buf /\ a = buf_iova buf + k /\ v = buf_vaddr buf + k).
Proof.
  intros Hf Hctx Hrtc. apply (queues_reached vfio_ops indet (fun b => k_table (vb_kernel b))) with rands b mem s; try done.
  - by intros b' ms [_ Ht].
  - by eapply vfio_fresh_inv.
Qed.
End Vfio.

(** The same with an address space of iommufd. *)
Section Iommufd.
Context {page : PageSize} {K Mm D : Type} {fs : SysFs K} {kernel : IommufdKernel K} `{Memory Mm} `{NvmeDevice D}
  `{NvmeHost D} (indet : Z).

Lemma controller_reaches_queues_iommufd rands b mem (s s' : csys (ioas_backend K * Mm) D) g :
  ib_table b = [] -> s_ctx s = iommu_ctx_init rands (b, mem) -> rtc (qstep (beside iommufd_ops) mmap_2 munmap_2 indet) (s, no_queues) (s', g) ->
  let t := ib_table (backend (s_ctx s')).1 in
  (forall buf k, buf ∈ owned g (s_ctrl s') ++ b_lost g -> 0 <= k < buf_len buf ->
     iommu_walk t (buf_iova buf + k) = Some (buf_vaddr buf + k)) /\
  (forall a v, iommu_walk t a = Some v ->
     exists buf k, buf ∈ owned g (s_ctrl s') ++ b_lost g /\ 0 <= k < buf_len buf /\ a = buf_iova buf + k /\ v = buf_vaddr buf + k).
Proof.
  intros Hb Hctx Hrtc. set (laws := iommufd_laws (io_id (ib_ioas b)) (io_table (ib_kernel b))).
  apply (queues_reached (BackendLaws0 := laws) iommufd_ops indet ib_table) with rands b mem s; try done.
  - by intros b' ms (Ht & _).
  - split; [by rewrite Hb|]. split; [constructor|]. split; [constructor|done].
Qed.
End Iommufd.

(** ** A run: the admin queues, a completion queue created and deleted *)

(** Memory handed out from the bottom up, never again. *)
#[export] Instance bump_memory : Memory (list (Z * Z)).
Proof.
  refine {|
    mm_mmap len m :=
      let v := arena_end m in
      if (0 <? len) && (v + len <=? UINT64_MAX) then (Ret v, (v, len) :: m) else (Fail ENOMEM, m);
    mm_munmap v len m := (Ret tt, filter (fun r => r <> (v, len)) m);
    mm_live m := m
  |}.
  - intros l m v m'. simpl. destruct (Z.ltb_spec 0 l); [|done].
    destruct (Z.leb_spec (arena_end m + l) UINT64_MAX); [|done]. intros [= <- <-].
    destruct (arena_end_above m) as [Hlo Hf]. split_and!; try done; try lia.
    eapply Forall_impl; [exact Hf|]. simpl. lia.
  - intros l m e m'. simpl. by destruct (_ && _); intros [= _ <-].
  - intros v l m m' r [= <-] Hr Hne. by apply list_elem_of_filter.
Defined.

Definition vmem : Type := vfio_backend (list (Z * Z * Z)) * list (Z * Z).
Definition demo_start : csys vmem echo :=
  mk_csys (iommu_ctx_init [] (demo_backend, [])) (s_dev arena_start) (s_ctrl arena_admin_start) ∅.
Local Abbreviation demo_ops := (beside (vfio_ops (page := page_4k))).

Definition demo_acq := nvme_configure_cq (page := page_4k) demo_ops mmap_2 munmap_2 0 0 4 0 demo_start.
Definition demo_asq := nvme_configure_sq (page := page_4k) demo_ops mmap_2 munmap_2 0 0 4 0 (snd demo_acq).
Definition demo_iocq := nvme_create_iocq (page := page_4k) demo_ops mmap_2 munmap_2 0 1 4 (-1) (snd demo_asq).
Definition demo_gone := nvme_delete_iocq demo_ops munmap_2 0 1 (snd demo_iocq).

Definition two_books : books := mk_books {[0%nat; 1%nat]} {[0%nat]} [].

Lemma demo_two_queues :
  rtc (qstep (page := page_4k) demo_ops mmap_2 munmap_2 0) (demo_start, no_queues) (snd demo_iocq, two_books).
Proof.
  eapply rtc_l; [eapply (q_configure_cq _ _ _ _ _ _ (snd demo_acq) (Ret tt) 0 4 0); [vm_compute; reflexivity|done]|].
  eapply rtc_l; [eapply (q_configure_sq _ _ _ _ _ _ (snd demo_asq) (Ret tt) 0 4 0); [vm_compute; reflexivity|done]|].
  eapply rtc_l; [eapply (q_create_iocq _ _ _ _ _ _ (snd demo_iocq) (Ret tt) 1 4 (-1));
    [by vm_compute|vm_compute; reflexivity]|].
  match goal with |- rtc _ (_, ?g) _ => replace g with two_books by (vm_compute; reflexivity) end. apply rtc_refl.
Qed.

(** While it exists, the controller posts to the ring of the new queue; once it
    is deleted, its I/O address faults, and the admin queue is still reached. *)
Lemma controller_reaches_queues_witness :
  iommu_walk (k_table (vb_kernel (backend (s_ctx (snd demo_iocq))).1)) (0x26000 + 0x3f) = Some (0x7000 + 0x3f) /\
  iommu_walk (k_table (vb_kernel (backend (s_ctx (snd demo_gone))).1)) 0x26000 = None /\
  iommu_walk (k_table (vb_kernel (backend (s_ctx (snd demo_gone))).1)) (0x25000 + 0x40) = Some (0x6000 + 0x40).
Proof.
  pose proof (fun s' g => controller_reaches_queues (page := page_4k) 0 demo_ranges [] demo_backend [] demo_start s' g demo_fresh
    eq_refl) as H.
  destruct (H (snd demo_iocq) two_books demo_two_queues) as [H1 _].
  destruct (H (snd demo_gone) (without_cq 1 two_books)) as [H2 H3].
  { eapply rtc_r; [exact demo_two_queues|]. eapply (q_delete_iocq _ _ _ _ _ _ _ (snd demo_gone) (Ret tt) 1);
      [left; set_solver|vm_compute; reflexivity|lia|vm_compute; reflexivity]. }
  assert (owned (without_cq 1 two_books) (s_ctrl (snd demo_gone)) ++ b_lost (without_cq 1 two_books) =
    [mk_dmabuf 0x6000 0x25000 0x1000; mk_dmabuf 0x2000 0x21000 0x4000; mk_dmabuf 0x1000 0x20000 0x1000]) as Eg
    by (vm_compute; reflexivity).
  split; [|split].
  - refine (H1 (mk_dmabuf 0x7000 0x26000 0x1000) 0x3f _ _); [|simpl; lia].
    replace (owned _ _ ++ _) with ([mk_dmabuf 0x6000 0x25000 0x1000; mk_dmabuf 0x2000 0x21000 0x4000;
      mk_dmabuf 0x1000 0x20000 0x1000; mk_dmabuf 0x7000 0x26000 0x1000]) by (vm_compute; reflexivity). by do 3 right; left.
  - destruct (iommu_walk _ 0x26000) as [v|] eqn:E; [|done]. apply H3 in E as (buf & k & Hbuf & Hk & Ha & _).
    exfalso. rewrite Eg in Hbuf. revert buf Hbuf Hk Ha. rewrite <- Forall_forall. repeat constructor; simpl; lia.
  - rewrite Eg in H2. refine (H2 (mk_dmabuf 0x6000 0x25000 0x1000) 0x40 _ _); [by left|simpl; lia].
Defined.
