(* ===== verification/NvmePci.v ===== *)
(** * NvmePci: a controller on a vfio PCI device

    What [NvmeCore] asks of its host (the class [NvmeHost]) is what [VfioPci]
    provides: the functions of src/vfio/pci.c on the [pci] member of the
    controller, which is part of the state here.  The theorems follow a
    controller through src/nvme/core.c and src/vfio/pci.c down to the contexts,
    containers and address spaces of both backends. *)

From S2P Require Import Prelude Support Skiplist IovaAlloc VfioIova Dma CStr Io Pci Iommufd VfioContainer VfioPci.
From S2P Require Import NvmeTypes Prp NvmeQueue NvmeRq NvmeCtrl NvmeCore.
Local Open Scope Z_scope.
Local Open Scope vfn_scope.

(** The clock behind [time_now()]. *)
Class Monotonic (R : Type) : Type := { clock_read : R -> Z * R }.

Section Host.
Context {K : Type} {fs : SysFs K} {dk : VfioDeviceKernel K} {host : HostOrder}.
Context {page : PageSize} {vg : VfioGroups K} {ik : IommufdKernel K}.
Context {R : Type} {nd : NvmeDevice R} {mono : Monotonic R}.
Variables (fuel iofuel : nat) (rands : list (list bool)) (indet : iommu_iova_range) (bdf : string).

(** The PCI device in its process, and the controller behind its registers. *)
Definition pci_ctrl : Type := pci_sys K * R.

Definition on_pci {A} (m : M (pci_sys K) A) : M pci_ctrl A := fun d => let '(r, p) := m d.1 in (r, (p, d.2)).

#[export] Instance pci_nvme_device : NvmeDevice pci_ctrl := {|
  reg_load a d := let '(v, r) := reg_load a d.2 in (v, (d.1, r));
  reg_store a v d := (d.1, reg_store a v d.2);
  dma_word a d := dma_word a d.2;
  dev_run sq cq d := let '(e, r) := dev_run sq cq d.2 in (e, (d.1, r))
|}.

Definition bar_index {A} (idx : Z) (m : nat -> M pci_ctrl A) : M pci_ctrl A :=
  if idx <? 0 then crash else m (Z.to_nat idx).

#[export] Instance pci_nvme_host : NvmeHost pci_ctrl := {|
  time_now d := let '(v, r) := clock_read d.2 in (Ret v, (d.1, r));
  NvmeCore.vfio_pci_open :=
    do* on_pci (VfioPci.vfio_pci_open fuel iofuel rands indet bdf) in gets (fun d => pd_classcode d.1.1);
  NvmeCore.vfio_pci_close := on_pci VfioPci.vfio_pci_close;
  NvmeCore.vfio_pci_map_bar idx len off prot := bar_index idx (fun i => on_pci (VfioPci.vfio_pci_map_bar i len off prot));
  NvmeCore.vfio_pci_unmap_bar idx mem len off := bar_index idx (fun i => on_pci (VfioPci.vfio_pci_unmap_bar i mem len off))
|}.
End Host.

(** ** From the controller to the host and back *)

Section Lifecycle.
Context {K : Type} {fs : SysFs K} {dk : VfioDeviceKernel K} {host : HostOrder}.
Context {page : PageSize} {vg : VfioGroups K} {ik : IommufdKernel K}.
Context {R : Type} {nd : NvmeDevice R} {mono : Monotonic R}.
Context (fuel iofuel : nat) (rands : list (list bool)) (indet : iommu_iova_range) (bdf : string).
Context {B : Type} (ops : iommu_ctx_ops B) (munmap : Z -> Z -> M B unit).
Context (grp : string -> string).
Hypothesis grp_stable : forall bdf (k : K), pci_get_iommu_group bdf k = (Ret (grp bdf), k).
Hypothesis close_succeeds : forall fd (k : K), fst (f_close fd k) = Ret tt.

Local Abbreviation sys := (csys B (@pci_ctrl K R)).
Local Abbreviation H := (pci_nvme_host fuel iofuel rands indet bdf).
Local Abbreviation ctrl_init := (nvme_ctrl_init (H0 := H)).
Local Abbreviation close := (nvme_close (H0 := H) ops munmap).

(** What the steps after opening leave alone: the context, the list pages, the
    [pci] member and, but for the kernel, the host. *)
Definition opened (c0 : iommu_ctx B) (pages : gmap Z (list Z)) (d1 : vfio_pci_device) (h1 : iommu_host K) (s : sys) : Prop :=
  s_ctx s = c0 /\ s_pages s = pages /\ exists k, (s_dev s).1 = (d1, set_hkernel k h1).

(** A controller without configured queues and buffers. *)
Record idle (c : nvme_ctrl) : Prop := {
  idle_sq : ct_sq c = replicate (Z.to_nat (nsqr (opts c) + 2)) zero_sq;
  idle_cq : ct_cq c = replicate (Z.to_nat (ncqr (opts c) + 2)) zero_cq;
  idle_cmb : cmb_vaddr (cmb c) = 0;
  idle_dbbuf : buf_vaddr (dbbuf_doorbells c) = 0
}.

Lemma on_fd_opened {A} (m : M K A) d1 h1 k r p :
  on_fd m (d1, set_hkernel k h1) = (r, p) -> exists k', p = (d1, set_hkernel k' h1).
Proof.
  unfold on_fd, on_host, on_hkernel. simpl. destruct (m k) as [r' k'] eqn:E. intros [= <- <-]. by exists k'.
Qed.

Lemma map_bar_opened c0 pages d1 h1 idx len off prot :
  preserves (opened c0 pages d1 h1) (on_dev (NvmeCore.vfio_pci_map_bar (NvmeHost := H) idx len off prot)).
Proof.
  intros s (Hc & Hp & k & Hd). unfold on_dev. simpl. unfold bar_index, on_pci.
  destruct (idx <? 0); simpl; [by split; [|split; [|eexists]]|]. rewrite Hd.
  unfold VfioPci.vfio_pci_map_bar, bind, dev, gets. simpl.
  destruct (pd_bars d1 !! _) as [r|]; simpl; [|by split; [|split; [|eexists]]].
  destruct (on_fd _ _) as [x p] eqn:E. apply on_fd_opened in E as [k' ->]. by split; [|split; [|eexists]].
Qed.

Lemma unmap_bar_opened c0 pages d1 h1 idx mem len off s :
  opened c0 pages d1 h1 s -> 0 <= idx -> is_Some (pd_bars d1 !! Z.to_nat idx) ->
  (forall m l (k : K), fst (vd_munmap m l k) <> Crash) ->
  exists s', on_dev (NvmeCore.vfio_pci_unmap_bar (NvmeHost := H) idx mem len off) s = (Ret tt, s') /\
    opened c0 pages d1 h1 s' /\ s_ctrl s' = s_ctrl s.
Proof.
  intros (Hc & Hp & k & Hd) Hi [r Hr] Hm. unfold on_dev. simpl. unfold bar_index, on_pci.
  destruct (Z.ltb_spec idx 0); [lia|]. rewrite Hd.
  unfold VfioPci.vfio_pci_unmap_bar. unfold bind at 1, dev, gets. simpl. rewrite Hr. unfold bind, try.
  destruct (on_fd _ _) as [x p] eqn:E. pose proof E as E2. apply on_fd_opened in E2 as [k' ->].
  unfold on_fd, on_host, on_hkernel in E. simpl in E. specialize (Hm mem (bar_len r len off) k).
  destruct (vd_munmap _ _ k) as [y k2]. injection E as -> _. simpl in Hm.
  destruct x; [| |done]; simpl; eexists; (split; [done|]); by split; [split; [|split; [|eexists]]|].
Qed.

Lemma map_bar_to_Ret c0 pages d1 h1 store idx len off prot s v s' :
  opened c0 pages d1 h1 s -> map_bar_to (B := B) (H0 := H) store idx len off prot s = (Ret v, s') -> 0 <= idx ->
  is_Some (pd_bars d1 !! Z.to_nat idx) /\ opened c0 pages d1 h1 s' /\ s_ctrl s' = store v (s_ctrl s).
Proof.
  intros Ho Hrun Hi. unfold map_bar_to in Hrun. apply bind_Ret in Hrun as (r & s1 & E & Hrun).
  pose proof (preserves_try _ _ (map_bar_opened c0 pages d1 h1 idx len off prot) s Ho) as Ho1.
  rewrite E in Ho1. simpl in Ho1.
  apply bind_Ret in Hrun as ([] & s2 & E2 & Hrun). injection E2 as <-. destruct r as [e|v']; [done|].
  injection Hrun as <- <-. destruct Ho as (_ & _ & k & Hd).
  assert (is_Some (pd_bars d1 !! Z.to_nat idx) /\ s_ctrl s1 = s_ctrl s) as [Hb Hc].
  { revert E. unfold try, on_dev. simpl. unfold bar_index. destruct (Z.ltb_spec idx 0); [lia|].
    unfold on_pci. rewrite Hd. unfold VfioPci.vfio_pci_map_bar. unfold bind at 1, dev, gets. simpl.
    destruct (pd_bars d1 !! Z.to_nat idx); [|done]. destruct (on_fd _ _) as [[] ?]; intros [= _ <-]; eauto. }
  split; [done|]. split; [exact Ho1|]. simpl. by rewrite Hc.
Qed.

(** A successful [nvme_init_pci] of a zeroed controller. *)
Lemma init_pci_Ret h r c0 pages s1 :
  nvme_init_pci (H0 := H) (mk_csys c0 ((zero_pci, h), r) zero_ctrl pages) = (Ret tt, s1) ->
  exists d1 h1, VfioPci.vfio_pci_open fuel iofuel rands indet bdf (zero_pci, h) = (Ret tt, (d1, h1)) /\
    opened c0 pages d1 h1 s1 /\ is_Some (pd_bars d1 !! 0%nat) /\
    exists class rg db, s_ctrl s1 = set_regs (set_pci zero_ctrl class) rg db.
Proof.
  intros Hrun. unfold nvme_init_pci in Hrun. apply bind_Ret in Hrun as (o & s2 & E & Hrun).
  unfold try, on_dev in E. simpl in E. unfold bind at 1, on_pci in E. simpl in E.
  destruct (VfioPci.vfio_pci_open fuel iofuel rands indet bdf (zero_pci, h)) as [[[]|e|] [d1 h1]]; [| |done].
  2: { injection E as <- <-. apply bind_Ret in Hrun as ([] & s3 & E3 & Hrun). destruct e; try done.
       injection E3 as <-. apply bind_Ret in Hrun as (c & s3 & E3 & Hrun). injection E3 as <- <-.
       apply bind_Ret in Hrun as (? & ? & _ & Hrun). by apply bind_Ret in Hrun as (? & ? & _ & Hrun). }
  injection E as <- <-. apply bind_Ret in Hrun as ([] & s3 & E3 & Hrun). injection E3 as <-.
  apply bind_Ret in Hrun as (c & s3 & E3 & Hrun). injection E3 as <- <-. simpl classcode in Hrun.
  destruct (negb _).
  { apply bind_Ret in Hrun as (? & ? & _ & Hrun). by apply bind_Ret in Hrun as (? & ? & _ & Hrun). }
  set (s3 := mk_csys _ _ _ _) in Hrun.
  assert (opened c0 pages d1 h1 s3) as Ho3.
  { split; [done|]. split; [done|]. exists (h_kernel h1). by destruct h1. }
  apply bind_Ret in Hrun as (rg & s4 & E4 & Hrun).
  destruct (map_bar_to_Ret _ _ _ _ _ _ _ _ _ _ _ _ Ho3 E4 ltac:(lia)) as (Hb & Ho4 & Hc4).
  apply bind_Ret in Hrun as (db & s5 & E5 & Hrun).
  destruct (map_bar_to_Ret _ _ _ _ _ _ _ _ _ _ _ _ Ho4 E5 ltac:(lia)) as (_ & Ho5 & Hc5).
  injection Hrun as <-. exists d1, h1. split; [done|]. split; [exact Ho5|]. split; [exact Hb|].
  exists (pd_classcode d1), rg, db. rewrite Hc5, Hc4. done.
Qed.

Lemma on_dev_mmio c0 pages d1 h1 {A} (m : M R A) :
  preserves (opened c0 pages d1 h1) (on_dev (fun d : @pci_ctrl K R => let '(r, x) := m d.2 in (r, (d.1, x)))).
Proof.
  intros s (Hc & Hp & k & Hd). unfold on_dev. destruct (m (s_dev s).2) as [a x]. simpl. split; [done|].
  split; [done|]. by exists k.
Qed.

Lemma read_cap_opened c0 pages d1 h1 : preserves (opened c0 pages d1 h1) (read_cap (B := B) (D := @pci_ctrl K R)).
Proof.
  intros s Ho. unfold read_cap, ctrl. unfold bind at 1, gets.
  pose proof (on_dev_mmio c0 pages d1 h1 (mmio_lh_read64 (regs (s_ctrl s) + NVME_REG_CAP)) s Ho) as Hm.
  revert Hm. unfold on_dev, mmio_lh_read64, mmio_read32, bind. simpl.
  destruct (reg_load _ (s_dev s).2) as [v1 x1]. simpl. by destruct (reg_load _ x1) as [v2 x2].
Qed.

(** A successful [nvme_ctrl_init] of a zeroed controller. *)
Lemma ctrl_init_Ret h r c0 pages o s1 :
  ctrl_init o (mk_csys c0 ((zero_pci, h), r) zero_ctrl pages) = (Ret tt, s1) ->
  exists d1 h1, VfioPci.vfio_pci_open fuel iofuel rands indet bdf (zero_pci, h) = (Ret tt, (d1, h1)) /\
    opened c0 pages d1 h1 s1 /\ is_Some (pd_bars d1 !! 0%nat) /\ idle (s_ctrl s1).
Proof.
  intros Hrun. unfold nvme_ctrl_init in Hrun. apply bind_Ret in Hrun as ([] & s2 & E & Hrun).
  destruct (init_pci_Ret _ _ _ _ _ E) as (d1 & h1 & Hopen & Ho2 & Hb & class & rg & db & Hc2).
  exists d1, h1. split; [done|]. cut (opened c0 pages d1 h1 s1 /\ idle (s_ctrl s1)); [tauto|].
  apply bind_Ret in Hrun as ([] & s3 & E3 & Hrun). injection E3 as <-.
  apply bind_Ret in Hrun as ([] & s4 & E4 & Hrun). injection E4 as <-. set (s4 := mk_csys _ _ _ _) in Hrun.
  apply bind_Ret in Hrun as (cap & s5 & E5 & Hrun).
  assert (opened c0 pages d1 h1 s5) as Ho5.
  { pose proof (read_cap_opened c0 pages d1 h1 s4 Ho2) as Hp. by rewrite E5 in Hp. }
  pose proof (read_cap_ctrl _ _ _ E5) as Hc5. cbv zeta in Hrun.
  apply bind_Ret in Hrun as ([] & s6 & E6 & Hrun). injection E6 as <-.
  destruct (_ <? _); [done|].
  apply bind_Ret in Hrun as ([] & s7 & E7 & Hrun). injection E7 as <-.
  apply bind_Ret in Hrun as ([] & s8 & E8 & Hrun). injection E8 as <-. injection Hrun as <-.
  assert (cmb (s_ctrl s5) = zero_cmb /\ dbbuf_doorbells (s_ctrl s5) = zero_dmabuf) as [Hcmb Hdb].
  { rewrite Hc5. unfold s4. simpl. rewrite Hc2. by case (_ =? _). }
  split; [exact Ho5|]. split; simpl; [done|done|by rewrite Hcmb|by rewrite Hdb].
Qed.

(** Discarding queues that were never configured. *)
Lemma discard_none (discard : nat -> M sys unit) l s :
  (forall i, i ∈ l -> discard i s = (Ret tt, s)) -> discard_all discard l s = (Ret tt, s).
Proof.
  induction l as [|i l IH]; intros Hd; [done|]. simpl. unfold bind. rewrite Hd by left. apply IH.
  intros j Hj. apply Hd. by right.
Qed.

Lemma discard_idle (s : sys) :
  idle (s_ctrl s) ->
  discard_all (nvme_discard_sq ops munmap) (seq 0 (Z.to_nat (nsqr (opts (s_ctrl s)) + 2))) s = (Ret tt, s) /\
  discard_all (nvme_discard_cq ops munmap) (seq 0 (Z.to_nat (ncqr (opts (s_ctrl s)) + 2))) s = (Ret tt, s).
Proof.
  intros [Hsq Hcq _ _]. split; apply discard_none; intros i Hi%elem_of_seq.
  - unfold nvme_discard_sq, get_sq, ctrl, bind, gets. rewrite Hsq, lookup_replicate_2 by lia. done.
  - unfold nvme_discard_cq, get_cq, ctrl, bind, gets. rewrite Hcq, lookup_replicate_2 by lia. done.
Qed.

(** Closing an idle controller takes its mappings and its device back. *)
Lemma close_idle c0 pages d1 h1 (s : sys) :
  opened c0 pages d1 h1 s -> idle (s_ctrl s) -> is_Some (pd_bars d1 !! 0%nat) ->
  (forall m l (k : K), fst (vd_munmap m l k) <> Crash) ->
  exists k r', forall p', VfioPci.vfio_pci_close (d1, set_hkernel k h1) = (Ret tt, p') ->
    close s = (Ret tt, mk_csys c0 (p', r') zero_ctrl pages).
Proof.
  intros Ho Hidle Hb Hm. destruct (discard_idle s Hidle) as [Hsq Hcq]. destruct Hidle as [_ _ Hcmb Hdb].
  destruct (unmap_bar_opened c0 pages d1 h1 0 (regs (s_ctrl s)) 0x1000 0 s Ho ltac:(lia) Hb Hm) as (s1 & E1 & Ho1 & Hc1).
  destruct (unmap_bar_opened c0 pages d1 h1 0 (ct_doorbells (s_ctrl s)) SIZE_MAX 0x1000 s1 Ho1 ltac:(lia) Hb Hm)
    as (s2 & E2 & (Hctx & Hpg & k & Hd) & Hc2).
  exists k, (s_dev s2).2. intros p' Hclose. unfold nvme_close. unfold bind at 1, ctrl, gets.
  rewrite (bind_ret _ _ _ _ _ Hsq), (bind_ret _ _ _ _ _ Hcq).
  unfold nvme_discard_cmb. unfold bind at 1 2, ctrl, gets. rewrite Hcmb. simpl. unfold ret at 1.
  rewrite Hdb. simpl when. unfold bind at 1, ret at 1. rewrite (bind_ret _ _ _ _ _ E1), (bind_ret _ _ _ _ _ E2).
  unfold bind, try, on_dev. simpl. unfold on_pci. rewrite Hd, Hclose. simpl. unfold upd_ctrl, modify. simpl.
  by rewrite Hctx, Hpg.
Qed.

(** C12. A controller on its host, with either backend.  Whatever
    [nvme_ctrl_init] opened and mapped for a zeroed controller, [nvme_close]
    gives back: it succeeds, leaves the structure and its [pci] member zeroed and
    takes back what opening did to the containers, their counts and the list of
    iommufd devices.  A device that is not an NVMe controller is refused with
    [EINVAL] and left closed, with nothing taken. *)
Theorem ctrl_init_balanced h r c0 pages ctl_opts o :
  host_inv grp h o -> (forall m l (k : K), fst (vd_munmap m l k) <> Crash) ->
  let s := mk_csys c0 ((zero_pci, h), r) zero_ctrl pages in
  (forall s1, ctrl_init ctl_opts s = (Ret tt, s1) ->
    exists h2 r2, close s1 = (Ret tt, mk_csys c0 ((zero_pci, h2), r2) zero_ctrl pages) /\
      host_inv grp h2 o /\ h_devices h2 = h_devices h) /\
  (forall d1 h1, VfioPci.vfio_pci_open fuel iofuel rands indet bdf (zero_pci, h) = (Ret tt, (d1, h1)) ->
    Z.land (pd_classcode d1) 0xffff00 <> 0x010800 ->
    exists h2, ctrl_init ctl_opts s = (Fail EINVAL, mk_csys c0 ((zero_pci, h2), r) zero_ctrl pages) /\
      host_inv grp h2 o /\ h_devices h2 = h_devices h).
Proof using grp_stable close_succeeds.
  intros Hi Hm s. split.
  - intros s1 Hrun. destruct (ctrl_init_Ret _ _ _ _ _ _ Hrun) as (d1 & h1 & Hopen & Ho & Hb & Hidle).
    destruct (close_idle _ _ _ _ _ Ho Hidle Hb Hm) as (k & r2 & Hclose).
    destruct (pci_close_after_open _ _ _ _ grp grp_stable _ _ _ _ _ Hi close_succeeds Hopen) as [_ Hk].
    destruct (Hk k) as (h2 & E & Hi2 & Hd2). exists h2, r2. split; [by apply Hclose|done].
  - intros d1 h1 Hopen Hclass.
    destruct (pci_close_after_open _ _ _ _ grp grp_stable _ _ _ _ _ Hi close_succeeds Hopen) as [_ Hk].
    destruct (Hk (h_kernel h1)) as (h2 & E & Hi2 & Hd2).
    replace (set_hkernel (h_kernel h1) h1) with h1 in E by (by destruct h1). exists h2. split; [|done].
    assert (on_dev (NvmeCore.vfio_pci_open (NvmeHost := H)) s =
      (Ret (pd_classcode d1), mk_csys c0 ((d1, h1), r) zero_ctrl pages)) as Eo
      by (unfold on_dev; simpl; unfold bind, on_pci, s; simpl; by rewrite Hopen).
    unfold nvme_ctrl_init. apply bind_fail. unfold nvme_init_pci. unfold bind at 1, try. rewrite Eo.
    unfold bind, upd_ctrl, modify, ctrl, gets. simpl.
    rewrite (proj2 (Z.eqb_neq _ _) Hclass). simpl. unfold fatal_if, on_dev. simpl. unfold on_pci. simpl. by rewrite E.
Qed.
End Lifecycle.

(** ** A concrete controller: a device of the vfio backend *)

#[local] Existing Instance pipe_files.
#[local] Existing Instance demo_tree.
#[local] Existing Instance demo_vfio_groups.
#[local] Existing Instance no_iommufd.
#[local] Instance demo_dk : VfioDeviceKernel pipe := demo_device (ret 2).
#[local] Instance demo_order : HostOrder := little.
#[local] Instance demo_page : PageSize := page_4k.
#[local] Instance echo_clock : Monotonic echo := {| clock_read d := (0, d) |}.

Definition demo_zero (k : pipe) : csys Z (@pci_ctrl pipe echo) :=
  mk_csys bump_ctx ((zero_pci, mk_host [] ∅ 0 (-1) [] ∅ 0 k), (∅, 0%nat)) zero_ctrl ∅.
Definition demo_init (k : pipe) :=
  nvme_ctrl_init (H0 := pci_nvme_host 8 60 [] (mk_iova_range 0 0) "0000:01:00.0") None (demo_zero k).

Lemma demo_munmap m l (k : pipe) : fst (vd_munmap m l k) <> Crash.
Proof. done. Qed.

Lemma ctrl_init_balanced_witness :
  exists h2 r2,
    nvme_close (H0 := pci_nvme_host 8 60 [] (mk_iova_range 0 0) "0000:01:00.0") bump_ops (fun _ _ => ret tt)
      (snd (demo_init class_attribute)) = (Ret tt, mk_csys bump_ctx ((zero_pci, h2), r2) zero_ctrl ∅) /\
    h_devices h2 = [].
Proof.
  destruct (ctrl_init_balanced 8 60 [] (mk_iova_range 0 0) "0000:01:00.0" bump_ops (fun _ _ => ret tt)
    group12 group12_stable (fun _ _ => eq_refl) demo_host (∅, 0%nat) bump_ctx ∅ None [] demo_host_inv
    demo_munmap) as [H _].
  destruct (H (snd (demo_init class_attribute))) as (h2 & r2 & E & _ & Hd).
  - vm_compute. reflexivity.
  - exists h2, r2. split; [exact E|exact Hd].
Defined.
